(* ===== verification/_CoqProject ===== *)
-Q . S2P
Prelude.v
GoStrings.v
Labels.v
Cmap.v
Targets.v
Reach.v
Graph.v
Inputs.v
Incrementality.v
Queries.v
RevDeps.v
Gc.v
Runner.v
Building.v
Runs.v
Lexer.v
FilePosition.v
GoText.v
Values.v
Ast.v
Parser.v
Objects.v
Interp.v
Builtins.v
BuiltinStrings.v
BuiltinLists.v
BuildRules.v
RuleInvariants.v
TargetBuiltins.v
TargetChanges.v
Commands.v
Environment.v
Disk.v
Paths.v
PathHasher.v
BuildStep.v
BuildRuns.v
Rebuilds.v
DirCache.v
Selection.v
Glob.v
Metadata.v
TestResults.v
TestStep.v
Precedence.v
Fuel.v
Optimise.v
