(* ===== verification/Prelude.v ===== *)
(** Please, a build system: a model of its core and what holds of it.

    The program reads BUILD files, a small language of its own, which define targets;
    puts these into a graph; and builds what was asked for and everything it needs, as
    concurrently as it can and only if something has changed.  This development models
    that core, from the Go source under [src/src], as functions and step relations, and
    proves what the rest of the program relies on.

    * The files

    Shared:
    - [Prelude] (this file): results of calls that may stop with an error ([res]), loops
      over them ([foldM], [loopM]), what is promised of sorting ([sorts]), and the lemmas
      about these.
    - [GoStrings]: the functions of Go's [strings] and [path] packages that are used, on
      byte strings; [GoText]: runes, and the functions on them.
    - [Reach]: traversals of a graph that mark what they have visited, with or without
      emitting something for each node, and recursion along an acyclic relation.

    The graph ([src/core], [src/cmap]):
    - [Labels]: build labels ([build_label.go]): parsing, validation, printing, order,
      and which labels a visibility pattern includes.
    - [Cmap]: the concurrent maps everything is kept in ([cmap.go], [cerrmap.go]): the
      sharded map refines a single one; with interleaved calls no waiter is missed,
      only one call is first, and [GetOrSet] ends and agrees.
    - [Targets]: targets and their inputs ([build_target.go], [build_input.go]): every
      operation that adds something to a target, dependencies, provides, labels,
      outputs, commands, and visibility.
    - [Graph]: the graph itself ([graph.go]), packages ([package.go]), cycle detection
      ([cycle_detector.go]), transitive subincludes and run-time dependencies.
    - [Inputs]: what targets output and what their inputs resolve to, and the walk over
      everything that goes into a build ([IterInputs], [IterSources] of [utils.go]).

    Building:
    - [Incrementality]: whether a target needs building ([incrementality.go]): what is
      hashed, and how hashes are recorded on outputs and read back ([attr.go]).
    - [Commands]: the sequences in commands and what they are replaced by
      ([command_replacements.go]); [Environment]: the variables an action is given
      ([build_env.go], [config.go]).
    - [Disk]: a file system of files, directories and links, with the operations of
      [src/fs]; [Paths]: what becomes of paths of ordinary components; [PathHasher]: the
      hashes of what is on the disk, with what is remembered of them in memory and on
      files ([fs/hash.go]).
    - [BuildStep]: carrying out a build ([build_step.go], [filegroup.go]): checks,
      directories, sources, the action, outputs, hashes, the cache, links, filegroups.
      [BuildRuns]: the steps as changes of the disk, what a failed build leaves, and
      concrete builds; [Rebuilds]: what a successful one leaves, and that it is not
      repeated.
    - [DirCache]: the cache in a directory and its cleaner, and the caches made of others
      ([src/cache]).
    - [TestResults]: cases and suites of tests, coverage, what is made of the output of a
      run, and running until a run succeeds ([test_results.go], [results.go],
      [test_step.go]); [TestStep]: testing a target, with what it needs at run time, and
      recording and reusing its results ([test_step.go], [utils.go]).
    - [Runner]: which target is built when ([plz.go]): the calls of the runner as
      processes over a shared state, and their steps.
    - [Building]: what holds of processes: who is at work, how often an action can be
      started, what success means (a weakest precondition), and why nothing gets stuck.
    - [Runs]: the same for whole runs, and a scheduler to run examples with.

    Queries and garbage collection:
    - [Queries] ([deps.go], [somepath.go]), [RevDeps] ([reverse_deps.go]), [Gc] ([gc.go]).
    - [Selection]: what was asked for, included and excluded ([target_set.go], [state.go]),
      what changed ([changes.go]), and what has a file as input or output.

    The BUILD language ([src/parse/asp]):
    - [Lexer] ([lexer.go]) and [FilePosition] ([file_position.go]).
    - [Ast] ([grammar.go]) and [Parser] ([grammar_parse.go]), a recursive descent parser
      in a state and error monad over the lexer.
    - [Values] and [Objects] ([objects.go]): values over a heap of arrays, maps and
      configurations, which they may share, and their operators.
    - [Interp] ([interpreter.go]): scopes, statements, expressions and calls.
    - [Builtins], [BuiltinStrings] and [BuiltinLists] ([builtins.go]): the builtin functions
      on values, and what holds of those on strings and on lists.
    - [BuildRules] ([targets.go], and the builtins that use it): how the arguments of
      build_rule become a target of the graph; [RuleInvariants]: what holds of the result.
    - [Metadata] ([package_metadata.go], [interpreter.go]): what is remembered of the
      statements of a file.
    - [Glob] ([fs/glob.go]): which files of a package a pattern stands for.
    - [TargetBuiltins] ([builtins.go]): the builtins that read and change targets, and
      [TargetChanges]: what they may change.
    - [Precedence]: operators against the tree that precedence gives them.
    - [Fuel]: fuel does not change what a program evaluates to.
    - [Optimise]: what happens to a syntax tree before it is interpreted, and freezing.

    * How the parts interact

    [Parser] reads what [Lexer] gives it one token at a time; [Optimise] rewrites the
    statements and [Interp] runs them, on the values of [Objects].  [Interp] takes native
    functions as a parameter; those of [Builtins] are registered with it, and those of
    [BuildRules] and [TargetBuiltins] change a state of packages and a graph by the
    operations of [Targets] and [Graph].  [Runner] asks for packages to be parsed, which adds targets to the graph,
    and builds what [Targets] says a target depends on; [Cmap] is what it asks each
    build of through.  What it calls a build is that of [BuildStep], which looks at
    [Incrementality] first, whose source hash is that of the files [Inputs] finds and
    [PathHasher] hashes; then runs the command of [Commands] in the [Environment] of the
    target; and in the end records the hashes that [Incrementality] will look at.
    [TestStep] works on the same disk and with the same steps, and asks [TestResults] what
    the output of a run means.  Both reach the caches of [DirCache] through a class of what a
    cache does ([BuildStep.Cache]).

    * Conventions

    A pointer to a target is the label it is registered under; a Go map is a [gmap]; and
    where the order in which Go ranges over a map can be seen, that order is a parameter
    or an order of which nothing is assumed.  Integers are [Z], with the wrap-around
    written out where it can happen.  An error or a panic is a value ([err]); [NoFuel] is
    neither, but says that the steps a recursive definition was given were too few.

    * Fuel

    Where recursion is not structural the definition takes fuel, and the theorems say how
    much is enough: for traversals of the graph, the number of targets (each is marked
    once, or the relation is acyclic); for the lexer and the parser, a multiple of the
    length of the file ([parse_fuel] for the parser); for the interpreter, in which a program
    need not end, any two amounts that are enough agree ([run_more_fuel]).  Where the code
    itself may not end - [recursivelyProvideFor] - it is shown that no fuel is enough.

    * What the theorems show

    - Building: each target is built at most once, after everything it needs; success
      means that everything was built; a run never gets stuck if what builds wait for,
      themselves or in the packages they have parsed, is acyclic, and none goes on for ever
      ([Runs]).  A target for which hashes are recorded is rebuilt exactly if one of them has
      changed or outputs are missing ([Incrementality]); its inputs are exactly its sources
      and what it depends on as these resolve ([Inputs]).
    - A single build: if it fails no output is left.  For a target that only its action
      builds, without a cache: if it succeeds every output is there, also after the working
      directory is cleaned up, with a hash that the target gives if it gives any, and the
      same build does nothing the next time ([BuildRuns], [Rebuilds]).  Hashes that are remembered are those of
      the files as they are ([PathHasher]).  What is stored in the directory cache is
      retrieved as it was, and no more is cleaned than needed, what was used longest ago
      first ([DirCache]).  A command sees only what it depends on, and of the host's
      environment only what is passed on and where its home is ([Commands], [Environment]).
    - Tests: a test is only reported to have passed if all its cases did, is run until a
      run succeeds or it has been run as often as it may be, and is not run again while
      the hash of what it depends on is the same ([TestStep], [TestResults]).
    - The graph: cycles are found exactly ([Graph.cycle_Check_spec]); transitive
      subincludes and run-time dependencies are complete; visibility is checked as
      documented; queries print, and garbage collection keeps, what they should; what changed
      is what a changed file or definition leads to ([Selection]).
    - Concurrency: refinement of a single map, no lost wake-ups, one first caller.
    - The language: every file lexes and parses to trees or a positioned error; printing
      and parsing labels, and escaping and lexing strings, are inverse; operators agree
      with their tree; integers are exact or wrap, and floor division, which goes through
      floating point, is exact below 2^53; list addition does not touch its operands, unless
      they have spare room; freezing is shallow; the builtins that search strings find what
      is there, and sorted() puts a list in order.
    - Defining targets: build_rule adds one well-formed target and no two have an output
      in common; the builtins that change a target change no other ([RuleInvariants],
      [TargetChanges]).  A glob gives the files of its package and of no other that its
      patterns match, by a definition of its own where they have no double star ([Glob]); what is
      remembered of a file is what happened ([Metadata]).
    - What does not hold is stated too: each theorem or lemma that shows the code not to
      do what it means to is a counterexample evaluated on a concrete input.

    * Not modelled

    What commands and tests do, downloads, sandboxes, remote execution, the HTTP and
    command caches, the formats of archives, of results and of coverage, the command
    line, output and configuration files: these are effects, or glue around the parts
    above, and where a modelled part calls one it is a parameter.
    The disk has no permissions, and names that are links are not followed.  Of a build:
    locks, links to generated sources, and other processes at work on the same files.  Of
    the builtins: subincludes, subrepos and exec; and [Glob] and [Metadata] are not connected to [Interp].  Parsing a package is one of the
    runner's steps, which may build other targets through the runner first: which these are
    is a relation that is a parameter, and the step is not connected to [BuildRules], nor a
    build in the runner to [BuildStep].  How subrepos are found, and preloaded files, are left
    out of the runner. *)
From stdpp Require Export base option list sorting gmap strings.
From stdpp Require Import options.
From Stdlib Require Export ZArith Lia.

(** ** Results: what a Go call does when it does not just return. *)

(** How a call stops without returning: [EFail] is a positioned user error
    raised with [fail], [EPanic] a panic with a message, [EIndex] a run-time
    slice or array index out of range, [EFatal] a [log.Fatalf], which exits. *)
Inductive err : Type :=
  | EFail (pos : Z) (msg : string)
  | EPanic (msg : string)
  | EIndex
  | EFatal (msg : string).

(** [NoFuel] is not an outcome of the program: it marks that the step budget
    of a definition that recurses on fuel was too small. *)
Inductive res (A : Type) : Type :=
  | Ok (a : A)
  | Err (e : err)
  | NoFuel.
Arguments Ok {A} a.
Arguments Err {A} e.
Arguments NoFuel {A}.

#[export] Instance err_eq_dec : EqDecision err.
Proof. solve_decision. Defined.

#[export] Instance res_ret : MRet res := fun A a => Ok a.
#[export] Instance res_bind : MBind res := fun A B f m =>
  match m with Ok a => f a | Err e => Err e | NoFuel => NoFuel end.
#[export] Instance res_fmap : FMap res := fun A B f m =>
  match m with Ok a => Ok (f a) | Err e => Err e | NoFuel => NoFuel end.

(** The value of a call that returns, [d] for one that does not. *)
Definition from_Ok {A} (d : A) (r : res A) : A := match r with Ok a => a | _ => d end.

Definition guard_res (b : bool) (e : err) : res unit := if b then Ok tt else Err e.

Lemma bind_Ok {A B} (m : res A) (f : A -> res B) b :
  (m ≫= f) = Ok b <-> exists a, m = Ok a /\ f a = Ok b.
Proof. destruct m; cbn; naive_solver. Qed.

Lemma bind_Ok_l {A B} (a : A) (f : A -> res B) : (Ok a ≫= f) = f a.
Proof. done. Qed.

Lemma bind_not_NoFuel {A B} (m : res A) (f : A -> res B) :
  m <> NoFuel -> (forall a, m = Ok a -> f a <> NoFuel) -> (m ≫= f) <> NoFuel.
Proof. destruct m; cbn; naive_solver. Qed.

(** Case analysis on the scrutinee of the outermost [match] of a hypothesis. *)
Ltac case_bind H :=
  match type of H with
  | context [match ?m with _ => _ end] => destruct m eqn:?
  end.

(** A loop over a slice that carries a state and can stop early. *)
Fixpoint foldM {S A} (f : S -> A -> res S) (s : S) (l : list A) : res S :=
  match l with
  | [] => Ok s
  | x :: l => s ← f s x; foldM f s l
  end.

(** An invariant of the loop, when the body always returns. *)
Lemma foldM_inv {S A} (f : S -> A -> res S) (I : list A -> S -> Prop) l s :
  I [] s ->
  (forall l1 x l2 s, l = l1 ++ x :: l2 -> I l1 s -> exists s', f s x = Ok s' /\ I (l1 ++ [x]) s') ->
  exists s', foldM f s l = Ok s' /\ I l s'.
Proof.
  intros H0 Hstep.
  assert (forall done todo s, l = done ++ todo -> I done s ->
    exists s', foldM f s todo = Ok s' /\ I l s') as Hgen.
  { intros done todo. revert done. induction todo as [|x todo IH]; intros dn s1 Hl HI.
    - exists s1. split; [done|]. by rewrite Hl, app_nil_r.
    - destruct (Hstep dn x todo s1 Hl HI) as (s2 & Hf & HI2). cbn. rewrite Hf. cbn.
      apply (IH (dn ++ [x])); [|done]. by rewrite <- app_assoc. }
  by apply (Hgen []).
Qed.

Lemma foldM_app {S A} (f : S -> A -> res S) s l1 l2 :
  foldM f s (l1 ++ l2) = foldM f s l1 ≫= fun s => foldM f s l2.
Proof. revert s. induction l1 as [|x l1 IH]; intros s; cbn; [done|]. destruct (f s x); cbn; auto. Qed.

Lemma foldM_ext {S A} (f g : S -> A -> res S) s l :
  (forall s x, x ∈ l -> f s x = g s x) -> foldM f s l = foldM g s l.
Proof.
  revert s. induction l as [|x l IH]; intros s He; cbn; [done|].
  rewrite He by set_solver. destruct (g s x); cbn; [|done..]. apply IH. intros. apply He. set_solver.
Qed.

(** An invariant of the loop, when it returns. *)
Lemma foldM_Ok_inv {S A} (f : S -> A -> res S) (I : S -> Prop) l s s' :
  (forall s x s', f s x = Ok s' -> I s -> I s') -> I s -> foldM f s l = Ok s' -> I s'.
Proof.
  intros Hstep. revert s. induction l as [|x l IH]; intros s HI; cbn; [by intros [= <-]|].
  intros (s1 & Hf & Hl)%bind_Ok. eauto.
Qed.

(** A loop that can also return early, with [inl]. *)
Fixpoint loopM {S R A} (f : S -> A -> res (R + S)) (s : S) (l : list A) : res (R + S) :=
  match l with
  | [] => Ok (inr s)
  | x :: l =>
      o ← f s x;
      match o with inl r => Ok (inl r) | inr s => loopM f s l end
  end.

Lemma loopM_inv {S R A} (f : S -> A -> res (R + S)) (I : list A -> S -> Prop) (Q : R -> Prop) l s :
  I [] s ->
  (forall l1 x l2 s, l = l1 ++ x :: l2 -> I l1 s ->
     exists o, f s x = Ok o /\ match o with inl r => Q r | inr s' => I (l1 ++ [x]) s' end) ->
  exists o, loopM f s l = Ok o /\ match o with inl r => Q r | inr s' => I l s' end.
Proof.
  intros H0 Hstep.
  assert (forall done todo s, l = done ++ todo -> I done s ->
    exists o, loopM f s todo = Ok o /\ match o with inl r => Q r | inr s' => I l s' end) as Hgen.
  { intros done todo. revert done. induction todo as [|x todo IH]; intros dn s1 Hl HI.
    - exists (inr s1). split; [done|]. by rewrite Hl, app_nil_r.
    - destruct (Hstep dn x todo s1 Hl HI) as (o & Hf & Ho). cbn. rewrite Hf. cbn.
      destruct o as [r|s2]; [by eauto|]. apply (IH (dn ++ [x])); [|done]. by rewrite <- app_assoc. }
  by apply (Hgen []).
Qed.

(** The call returns something that satisfies [P], or raises a user error; it
    neither panics, nor exits, nor runs out of fuel. *)
Definition good {A} (P : A -> Prop) (r : res A) : Prop :=
  match r with Ok a => P a | Err (EFail _ _) => True | _ => False end.

Lemma good_bind {A B} (P : A -> Prop) (Q : B -> Prop) (r : res A) (f : A -> res B) :
  good P r -> (forall a, P a -> good Q (f a)) -> good Q (r ≫= f).
Proof. destruct r as [a|[]|]; cbn; auto. Qed.

Lemma good_mono {A} (P Q : A -> Prop) r : good P r -> (forall a, P a -> Q a) -> good Q r.
Proof. destruct r as [a|[]|]; cbn; auto. Qed.

Lemma good_eq {A} (P Q : A -> Prop) r : good P r -> (forall a, r = Ok a -> P a -> Q a) -> good Q r.
Proof. destruct r as [a|[]|]; cbn; auto. Qed.

(** ** Sorting *)

(** What Go asks of a comparison of elements. *)
Record weak_order {A} (lt : A -> A -> bool) (xs : list A) : Prop := {
  order_asym : forall x y, x ∈ xs -> y ∈ xs -> lt x y = true -> lt y x = false;
  order_negative : forall x y z, x ∈ xs -> y ∈ xs -> z ∈ xs -> lt x y = false -> lt y z = false -> lt x z = false;
}.

(** What it promises of [sort.Slice] on a list of its own. *)
Definition sorts {A} (sort : (A -> A -> bool) -> list A -> list A) : Prop :=
  forall lt l, sort lt l ≡ₚ l /\ (weak_order lt l -> StronglySorted (fun x y => lt y x = false) (sort lt l)).

(** A sort that keeps the promise. *)
Fixpoint insert_by {A} (lt : A -> A -> bool) (x : A) (l : list A) : list A :=
  match l with
  | [] => [x]
  | y :: l' => if lt y x then y :: insert_by lt x l' else x :: l
  end.

Definition sort_by {A} (lt : A -> A -> bool) (l : list A) : list A := foldr (insert_by lt) [] l.

Lemma insert_by_perm {A} (lt : A -> A -> bool) x l : insert_by lt x l ≡ₚ x :: l.
Proof. induction l as [|y l IH]; cbn; [done|]. destruct (lt y x); [|done]. rewrite IH. by constructor. Qed.

Lemma sort_by_perm {A} (lt : A -> A -> bool) l : sort_by lt l ≡ₚ l.
Proof. induction l as [|x l IH]; cbn; [done|]. by rewrite insert_by_perm, IH. Qed.

Lemma sort_by_sorts {A} : sorts (@sort_by A).
Proof.
  intros lt l. split; [apply sort_by_perm|]. intros [Ha Hn].
  assert (forall l0, (forall x, x ∈ l0 -> x ∈ l) -> StronglySorted (fun x y => lt y x = false) (sort_by lt l0)) as H; [|by apply H].
  induction l0 as [|x l0 IH]; intros Hl; [constructor|].
  change (sort_by lt (x :: l0)) with (insert_by lt x (sort_by lt l0)).
  assert (StronglySorted (fun x y => lt y x = false) (sort_by lt l0)) as Hs by (apply IH; intros; apply Hl; by right).
  assert (x ∈ l) as Hx by (apply Hl; by left).
  assert (forall y, y ∈ sort_by lt l0 -> y ∈ l) as Hin by (intros y; rewrite sort_by_perm; intros; apply Hl; by right).
  revert Hs Hin. generalize (sort_by lt l0) as s. induction s as [|y s IHs]; intros Hs Hin; cbn; [by repeat constructor|].
  apply StronglySorted_inv in Hs as [Hs Hy]. assert (y ∈ l) as Hyl by (apply Hin; by left). destruct (lt y x) eqn:E.
  - constructor; [apply IHs; [done|intros; apply Hin; by right]|]. rewrite insert_by_perm. constructor; [by apply Ha|done].
  - constructor; [by constructor|]. constructor; [done|]. rewrite Forall_forall in Hy |- *. intros z Hz.
    apply (Hn z y x); [apply Hin; by right|done|done|by apply Hy|done].
Qed.
