(* ===== verification/GoStrings.v ===== *)
(** The functions of Go's [strings] and [path] packages that the modelled code
    calls, on byte strings, with the lemmas about them the components share. *)
From S2P Require Import Prelude.
From Stdlib Require Import Ascii.

#[local] Open Scope string_scope.

#[global] Arguments String.append !_ _ / : simpl nomatch.

(** ** Prefixes, suffixes, slices *)

Fixpoint str_take (n : nat) (s : string) : string :=
  match n, s with
  | S n, String c s => String c (str_take n s)
  | _, _ => ""
  end.

Fixpoint str_drop (n : nat) (s : string) : string :=
  match n, s with
  | S n, String _ s => str_drop n s
  | _, _ => s
  end.

(** [s[i:j]], for [i <= j <= len(s)]. *)
Definition str_slice (i j : nat) (s : string) : string := str_take (j - i) (str_drop i s).

Definition has_prefix (s p : string) : bool := String.prefix p s.
Definition has_suffix (s p : string) : bool :=
  (String.length p <=? String.length s)%nat
    && String.eqb (str_drop (String.length s - String.length p) s) p.

(** ** Searching *)

Fixpoint index_byte (c : ascii) (s : string) : option nat :=
  match s with
  | "" => None
  | String a s' => if Ascii.eqb a c then Some 0 else S <$> index_byte c s'
  end.

Fixpoint last_index_byte (c : ascii) (s : string) : option nat :=
  match s with
  | "" => None
  | String a s' =>
      match last_index_byte c s' with
      | Some i => Some (S i)
      | None => if Ascii.eqb a c then Some 0 else None
      end
  end.

(** [strings.Index]. *)
Fixpoint index_str (sub s : string) : option nat :=
  if has_prefix s sub then Some 0
  else match s with "" => None | String _ s' => S <$> index_str sub s' end.

Definition contains_byte (c : ascii) (s : string) : bool := bool_decide (is_Some (index_byte c s)).
Definition contains (s sub : string) : bool := bool_decide (is_Some (index_str sub s)).

(** [strings.ContainsAny]. *)
Fixpoint contains_any (s chars : string) : bool :=
  match s with
  | "" => false
  | String a s' => contains_byte a chars || contains_any s' chars
  end.

(** ** Trimming, splitting and joining *)

Fixpoint trim_left (s cutset : string) : string :=
  match s with
  | "" => ""
  | String a s' => if contains_byte a cutset then trim_left s' cutset else s
  end.

Fixpoint trim_right (s cutset : string) : string :=
  match s with
  | "" => ""
  | String a s' =>
      match trim_right s' cutset with
      | "" => if contains_byte a cutset then "" else String a ""
      | t => String a t
      end
  end.

(** [strings.Split(s, string(c))]: never the empty list. *)
Fixpoint split_byte (c : ascii) (s : string) : list string :=
  match s with
  | "" => [""]
  | String a s' =>
      if Ascii.eqb a c then "" :: split_byte c s'
      else match split_byte c s' with
           | [] => [String a ""]
           | x :: xs => String a x :: xs
           end
  end.

Fixpoint join (sep : string) (l : list string) : string :=
  match l with
  | [] => ""
  | [x] => x
  | x :: xs => x +:+ sep +:+ join sep xs
  end.

(** ** [path.Clean], [path.Join], [path.Base] *)

(** The components [path.Clean] keeps, as a stack (last component first):
    empty ones and [.] go, [..] cancels the component before it. *)
Fixpoint clean_stack (rooted : bool) (comps stack : list string) : list string :=
  match comps with
  | [] => stack
  | c :: cs =>
      if decide (c = "" \/ c = ".") then clean_stack rooted cs stack
      else if decide (c = "..") then
        match stack with
        | t :: st => if decide (t = "..") then clean_stack rooted cs (c :: stack)
                     else clean_stack rooted cs st
        | [] => clean_stack rooted cs (if rooted then [] else [c])
        end
      else clean_stack rooted cs (c :: stack)
  end.

Definition path_clean (p : string) : string :=
  let rooted := has_prefix p "/" in
  let body := join "/" (rev (clean_stack rooted (split_byte "/" p) [])) in
  if rooted then "/" +:+ body else if decide (body = "") then "." else body.

Definition path_join (elems : list string) : string :=
  match filter (fun e => e <> "") elems with
  | [] => ""
  | es => path_clean (join "/" es)
  end.

Definition path_base (p : string) : string :=
  if decide (p = "") then "."
  else
    let p := trim_right p "/" in
    let b := match last_index_byte "/" p with Some i => str_drop (S i) p | None => p end in
    if decide (b = "") then "/" else b.

(** ** Numbers *)

(** Decimal digits. *)
Fixpoint digits_of (fuel : nat) (n : Z) (acc : string) : string :=
  match fuel with
  | O => acc
  | S fuel =>
      let acc := String (ascii_of_N (Z.to_N (48 + n mod 10))) acc in
      if (n <? 10)%Z then acc else digits_of fuel (n / 10)%Z acc
  end.

(** [strconv.Itoa] *)
Definition Itoa (z : Z) : string :=
  if (z <? 0)%Z then String "-" (digits_of 20 (- z) "") else digits_of 20 z "".

(** ** Ordering: Go compares strings byte by byte. *)

Definition str_ltb (a b : string) : bool := String.ltb a b.

#[global] Arguments Ascii.eqb : simpl never.
#[global] Arguments has_prefix : simpl never.
#[global] Arguments has_suffix : simpl never.
#[global] Arguments str_take !_ _ / : simpl nomatch.
#[global] Arguments str_drop !_ _ / : simpl nomatch.
#[global] Arguments contains_byte : simpl never.
#[global] Arguments contains : simpl never.

(** Evaluates the comparisons of two literal bytes. *)
Ltac eval_ascii :=
  repeat match goal with
    | |- context [Ascii.eqb ?a ?b] =>
        let r := eval vm_compute in (Ascii.eqb a b) in
        match r with true => idtac | false => idtac end;
        change (Ascii.eqb a b) with r
    end.

(** ** Lemmas: searching *)

Lemma contains_byte_cons c a s :
  contains_byte c (String a s) = Ascii.eqb a c || contains_byte c s.
Proof.
  unfold contains_byte; cbn [index_byte]. destruct (Ascii.eqb a c).
  - reflexivity.
  - cbn [orb]. apply bool_decide_ext. by rewrite fmap_is_Some.
Qed.

Lemma contains_byte_nil c : contains_byte c "" = false.
Proof. reflexivity. Qed.

Lemma contains_byte_app c p q :
  contains_byte c (p +:+ q) = contains_byte c p || contains_byte c q.
Proof.
  induction p as [|a p IH]; cbn; [reflexivity|].
  by rewrite !contains_byte_cons, IH, orb_assoc.
Qed.

Lemma index_byte_None c s : index_byte c s = None <-> contains_byte c s = false.
Proof.
  unfold contains_byte. rewrite bool_decide_eq_false, <- eq_None_not_Some. tauto.
Qed.

Lemma index_byte_app c p r :
  contains_byte c p = false -> index_byte c (p +:+ String c r) = Some (String.length p).
Proof.
  induction p as [|a p IH]; cbn; intros H.
  - by rewrite Ascii.eqb_refl.
  - rewrite contains_byte_cons in H. apply orb_false_iff in H as [-> H]. by rewrite IH.
Qed.

Lemma contains_any_byte c s chars :
  contains_any s chars = false -> contains_byte c chars = true -> contains_byte c s = false.
Proof.
  intros H Hc. induction s as [|a s IH]; cbn in *; [done|].
  apply orb_false_iff in H as [Ha H]. rewrite contains_byte_cons, IH by done.
  destruct (Ascii.eqb_spec a c); naive_solver congruence.
Qed.

Lemma contains_any_app p q chars :
  contains_any (p +:+ q) chars = contains_any p chars || contains_any q chars.
Proof. induction p as [|a p IH]; cbn; [done|]. by rewrite IH, orb_assoc. Qed.

(** ** Lemmas: concatenation and slices *)

Lemma str_app_nil_r s : s +:+ "" = s.
Proof. induction s as [|a s IH]; cbn; congruence. Qed.

Lemma str_app_assoc a b c : (a +:+ b) +:+ c = a +:+ b +:+ c.
Proof. induction a as [|x a IH]; cbn; congruence. Qed.

Lemma str_length_app a b : String.length (a +:+ b) = String.length a + String.length b.
Proof. induction a as [|x a IH]; cbn; congruence. Qed.

Lemma str_take_app a b : str_take (String.length a) (a +:+ b) = a.
Proof. induction a as [|x a IH]; cbn; [by destruct b|congruence]. Qed.

Lemma str_drop_app a b : str_drop (String.length a) (a +:+ b) = b.
Proof. induction a as [|x a IH]; cbn; auto. Qed.

Lemma str_drop_app_S a c b : str_drop (S (String.length a)) (a +:+ String c b) = b.
Proof. induction a as [|x a IH]; cbn in *; auto. Qed.

Lemma str_take_drop n s : str_take n s +:+ str_drop n s = s.
Proof.
  revert s. induction n as [|n IH]; intros [|c s]; cbn; try done. f_equal. apply IH.
Qed.

Lemma str_length_drop n s : String.length (str_drop n s) = String.length s - n.
Proof. revert s. induction n as [|n IH]; intros [|c s]; cbn; auto. Qed.

Lemma str_length_take n s : (n <= String.length s)%nat -> String.length (str_take n s) = n.
Proof. revert n. induction s as [|c s IH]; intros [|n]; cbn; intros H; try done; [lia|]. f_equal. apply IH. lia. Qed.

Lemma index_byte_Some c s i :
  index_byte c s = Some i ->
  s = str_take i s +:+ String c (str_drop (S i) s) /\ contains_byte c (str_take i s) = false
  /\ (i < String.length s)%nat.
Proof.
  revert i. induction s as [|a s IH]; cbn; intros i; [done|].
  destruct (Ascii.eqb_spec a c) as [->|Hne].
  - intros [= <-]. cbn. repeat split; auto. lia.
  - destruct (index_byte c s) as [j|] eqn:E; cbn; intros [= <-].
    destruct (IH j eq_refl) as (Hs & Hn & Hl). cbn. split_and!.
    + by rewrite Hs at 1.
    + rewrite contains_byte_cons, Hn. by destruct (Ascii.eqb_spec a c).
    + lia.
Qed.

Lemma last_index_byte_Some c s i :
  last_index_byte c s = Some i ->
  s = str_take i s +:+ String c (str_drop (S i) s)
  /\ contains_byte c (str_drop (S i) s) = false /\ (i < String.length s)%nat.
Proof.
  revert i. induction s as [|a s IH]; cbn; intros i; [done|].
  destruct (last_index_byte c s) as [j|] eqn:E.
  - intros [= <-]. destruct (IH j eq_refl) as (Hs & Hn & Hl). cbn. split_and!; [|done|lia].
    by rewrite Hs at 1.
  - destruct (Ascii.eqb_spec a c) as [->|Hne]; intros [= <-]. cbn. split_and!; [done| |lia].
    clear IH. induction s as [|b s IH]; cbn in *; [done|].
    rewrite contains_byte_cons. destruct (last_index_byte c s); [done|].
    destruct (Ascii.eqb b c); [done|]. by rewrite IH.
Qed.

Lemma last_index_byte_app c p r :
  contains_byte c r = false -> last_index_byte c (p +:+ String c r) = Some (String.length p).
Proof.
  intros Hr. assert (last_index_byte c r = None) as HN.
  { induction r as [|b r IH]; cbn; [done|]. rewrite contains_byte_cons in Hr.
    apply orb_false_iff in Hr as [-> Hr]. by rewrite IH. }
  induction p as [|a p IH]; cbn.
  - by rewrite HN, Ascii.eqb_refl.
  - by rewrite IH.
Qed.

Lemma last_index_byte_None c s : last_index_byte c s = None <-> contains_byte c s = false.
Proof.
  induction s as [|a s IH]; cbn; [done|]. rewrite contains_byte_cons.
  destruct (last_index_byte c s), (Ascii.eqb a c); cbn; naive_solver.
Qed.

(** ** Lemmas: prefixes and suffixes *)

Lemma has_prefix_nil s : has_prefix s "" = true.
Proof. by destruct s. Qed.

Lemma has_prefix_cons_nil b p : has_prefix "" (String b p) = false.
Proof. reflexivity. Qed.

Lemma has_prefix_cons a s b p :
  has_prefix (String a s) (String b p) = Ascii.eqb b a && has_prefix s p.
Proof.
  unfold has_prefix. cbn [String.prefix].
  destruct (ascii_dec b a) as [->|Hne]; [by rewrite Ascii.eqb_refl|].
  by destruct (Ascii.eqb_spec b a).
Qed.

Lemma has_prefix_spec s p : has_prefix s p = true <-> exists r, s = p +:+ r.
Proof.
  revert s. induction p as [|a p IH]; intros s; cbn.
  - rewrite has_prefix_nil. split; [by exists s|done].
  - destruct s as [|b s]; [rewrite has_prefix_cons_nil; naive_solver|].
    rewrite has_prefix_cons, andb_true_iff, Ascii.eqb_eq, IH.
    split; [intros [-> [r ->]]; by exists r|intros [r Hr]; injection Hr; eauto].
Qed.

Lemma has_prefix_app p r : has_prefix (p +:+ r) p = true.
Proof. apply has_prefix_spec. by exists r. Qed.

Lemma has_suffix_spec s p : has_suffix s p = true <-> exists r, s = r +:+ p.
Proof.
  unfold has_suffix. rewrite andb_true_iff, Nat.leb_le, String.eqb_eq. split.
  - intros [Hl <-]. exists (str_take (String.length s - String.length p) s).
    by rewrite str_take_drop.
  - intros [r ->]. rewrite str_length_app. split; [lia|].
    replace (String.length r + String.length p - String.length p) with (String.length r) by lia.
    apply str_drop_app.
Qed.

Lemma has_suffix_app r p : has_suffix (r +:+ p) p = true.
Proof. apply has_suffix_spec. by exists r. Qed.

Lemma has_prefix_app_self p s : has_prefix (p +:+ s) p = true.
Proof. apply has_prefix_spec. by exists s. Qed.

Lemma has_suffix_cons_cons a b s c :
  has_suffix (String a (String b s)) (String c "") = has_suffix (String b s) (String c "").
Proof.
  apply eq_true_iff_eq. rewrite !has_suffix_spec. split.
  - intros [[|x r] Hr]; cbn in Hr; injection Hr; [done|]. intros -> _. by exists r.
  - intros [r ->]. by exists (String a r).
Qed.

Lemma has_suffix_app_ne p b q c :
  has_suffix (p +:+ String b q) (String c "") = has_suffix (String b q) (String c "").
Proof.
  induction p as [|x p IH]; [done|]. rewrite <- IH. cbn.
  by destruct p; cbn; rewrite has_suffix_cons_cons.
Qed.

Lemma trim_right_app_same c p :
  has_suffix p (String c "") = false -> trim_right (p +:+ String c "") (String c "") = p.
Proof.
  assert (contains_byte c (String c "") = true) as Hc
    by (rewrite contains_byte_cons, Ascii.eqb_refl; done).
  induction p as [|a p IH]; cbn; intros H; [by rewrite Hc|].
  destruct p as [|b p].
  - cbn. rewrite Hc. rewrite contains_byte_cons, orb_false_r.
    destruct (Ascii.eqb_spec c a) as [->|]; [|done].
    assert (has_suffix (String a "") (String a "") = true) as Hs
      by (apply has_suffix_spec; by exists "").
    congruence.
  - rewrite has_suffix_cons_cons in H. rewrite (IH H). done.
Qed.

Lemma contains_None s sub : contains s sub = false <-> index_str sub s = None.
Proof. unfold contains. rewrite bool_decide_eq_false, <- eq_None_not_Some. tauto. Qed.

(** No [//] straddles the end of a string that does not end in [/]. *)
Lemma index_str_slashes_app p r :
  contains p "//" = false -> has_suffix p "/" = false ->
  index_str "//" (p +:+ r) = Nat.add (String.length p) <$> index_str "//" r.
Proof.
  rewrite contains_None. induction p as [|a p IH]; intros H Hs.
  - cbn. by destruct (index_str "//" r).
  - cbn [index_str String.append] in *.
    destruct (has_prefix (String a p) "//") eqn:Hp; [done|].
    assert (has_prefix (String a (p +:+ r)) "//" = false) as ->.
    { destruct p as [|b p]; rewrite has_prefix_cons in *.
      - cbn. destruct (Ascii.eqb_spec "/" a) as [<-|]; [discriminate Hs|done].
      - cbn. rewrite !has_prefix_cons, !has_prefix_nil in *. congruence. }
    rewrite IH.
    + by destruct (index_str "//" r).
    + by destruct (index_str "//" p).
    + destruct p as [|b p]; [done|]. by rewrite has_suffix_cons_cons in Hs.
Qed.

Lemma index_str_slashes p r :
  contains p "//" = false -> has_suffix p "/" = false ->
  index_str "//" (p +:+ "//" +:+ r) = Some (String.length p).
Proof.
  intros. rewrite index_str_slashes_app by done. cbn [index_str String.append].
  rewrite !has_prefix_cons, has_prefix_nil. eval_ascii. cbn. by rewrite Nat.add_0_r.
Qed.

(** ** Lemmas: the order *)

Lemma ascii_compare_spec a b :
  CompareSpec (a = b) (N_of_ascii a < N_of_ascii b)%N (N_of_ascii b < N_of_ascii a)%N
    (Ascii.compare a b).
Proof.
  unfold Ascii.compare. destruct (N.compare_spec (N_of_ascii a) (N_of_ascii b)) as [H|H|H];
    constructor; auto.
  by rewrite <- (ascii_N_embedding a), H, ascii_N_embedding.
Qed.

Lemma str_compare_refl s : String.compare s s = Eq.
Proof.
  induction s as [|a s IH]; cbn; [done|]. unfold Ascii.compare. by rewrite N.compare_refl.
Qed.

Lemma str_compare_trans a b c :
  String.compare a b = Lt -> String.compare b c = Lt -> String.compare a c = Lt.
Proof.
  revert b c. induction a as [|x a IH]; intros [|y b] [|z c]; cbn; try done.
  destruct (ascii_compare_spec x y), (ascii_compare_spec y z), (ascii_compare_spec x z);
    subst; try done; try lia; eauto.
Qed.

Lemma str_ltb_compare a b : str_ltb a b = true <-> String.compare a b = Lt.
Proof. unfold str_ltb, String.ltb. by destruct (String.compare a b). Qed.

Lemma str_ltb_irrefl a : str_ltb a a = false.
Proof. unfold str_ltb, String.ltb. by rewrite str_compare_refl. Qed.

Lemma str_ltb_trans a b c : str_ltb a b = true -> str_ltb b c = true -> str_ltb a c = true.
Proof. rewrite !str_ltb_compare. apply str_compare_trans. Qed.

Lemma str_ltb_total a b : a <> b -> str_ltb a b = negb (str_ltb b a).
Proof.
  unfold str_ltb, String.ltb. rewrite (String.compare_antisym a b). intros Hne.
  destruct (String.compare b a) eqn:E; try done.
  apply String.compare_eq_iff in E. congruence.
Qed.

(** ** Lemmas: splitting *)

Lemma split_byte_none c s : contains_byte c s = false -> split_byte c s = [s].
Proof.
  induction s as [|a s IH]; cbn; [done|]. rewrite contains_byte_cons.
  intros [-> H]%orb_false_iff. by rewrite IH.
Qed.

Lemma split_byte_app c p r :
  contains_byte c p = false -> split_byte c (p +:+ String c r) = p :: split_byte c r.
Proof.
  induction p as [|a p IH]; cbn; [by rewrite Ascii.eqb_refl|].
  rewrite contains_byte_cons. intros [-> H]%orb_false_iff. by rewrite IH.
Qed.

Lemma split_byte_not_nil c s : split_byte c s <> [].
Proof.
  destruct s as [|a s]; cbn; [done|].
  destruct (Ascii.eqb a c); [done|]. by destruct (split_byte c s).
Qed.

Lemma join_split c s : join (String c "") (split_byte c s) = s.
Proof.
  induction s as [|a s IH]; cbn; [done|].
  destruct (Ascii.eqb_spec a c) as [->|Hne].
  - destruct (split_byte c s) eqn:E; [by destruct (split_byte_not_nil c s)|]. cbn in *. by rewrite IH.
  - destruct (split_byte c s) as [|x [|y xs]] eqn:E; cbn in *; congruence.
Qed.

Create HintDb gostr discriminated.
#[export] Hint Rewrite contains_byte_nil contains_byte_cons contains_byte_app contains_any_app
  str_app_nil_r str_app_assoc str_length_app str_take_app str_drop_app str_drop_app_S
  has_prefix_nil has_prefix_cons_nil has_prefix_cons Ascii.eqb_refl : gostr.
