(* ===== verification/Labels.v ===== *)
(** Build labels: [src/core/build_label.go].

    A label names a target, [//pkg:name] or [///subrepo//pkg:name], or is one of
    the pseudo-labels [//pkg:all] and [//pkg/...].  The file models parsing,
    validation, printing, ordering, pattern inclusion and the parent rule, and
    proves the print/parse round trip and the laws of the others. *)
From S2P Require Import Prelude GoStrings.
From Stdlib Require Import Ascii.

#[local] Open Scope stdpp_scope.

(** ** The data *)

Record BuildLabel := MkBuildLabel {
  PackageName : string;
  Name : string;
  Subrepo : string;
}.

#[export] Instance BuildLabel_eq_dec : EqDecision BuildLabel.
Proof. solve_decision. Defined.

#[export] Instance BuildLabel_countable : Countable BuildLabel.
Proof.
  apply (inj_countable' (fun l => (PackageName l, Name l, Subrepo l))
           (fun t => MkBuildLabel t.1.1 t.1.2 t.2)).
  by intros [].
Defined.

Record packageKey := MkPackageKey { key_Name : string; key_Subrepo : string }.

#[export] Instance packageKey_eq_dec : EqDecision packageKey.
Proof. solve_decision. Defined.

#[export] Instance packageKey_countable : Countable packageKey.
Proof.
  apply (inj_countable' (fun k => (key_Name k, key_Subrepo k))
           (fun t => MkPackageKey t.1 t.2)).
  by intros [].
Defined.

(** The errors that constructing or parsing a label returns. *)
Inductive label_error :=
  | InvalidPackageName (pkg : string)
  | InvalidTargetName (name : string)
  | ReservedSuffix
  | InvalidBuildLabel (target : string).

Definition WholeGraph : list BuildLabel := [MkBuildLabel "" "..." ""].
Definition BuildLabelStdin : BuildLabel := MkBuildLabel "" "_STDIN" "".
Definition OriginalTarget : BuildLabel := MkBuildLabel "" "_ORIGINAL" "".

Definition buildDirSuffix : string := "._build".
Definition testDirSuffix : string := "._test".

(** ** Pseudo-targets and printing *)

Definition IsAllSubpackages (label : BuildLabel) : bool := String.eqb (Name label) "...".
Definition IsAllTargets (label : BuildLabel) : bool := String.eqb (Name label) "all".
Definition IsPseudoTarget (label : BuildLabel) : bool :=
  IsAllSubpackages label || IsAllTargets label.
Definition IsOriginalTarget (label : BuildLabel) : bool := bool_decide (label = OriginalTarget).
Definition IsEmpty (label : BuildLabel) : bool :=
  String.eqb (PackageName label) "" && String.eqb (Name label) "".

Definition label_String (label : BuildLabel) : string :=
  if decide (label = MkBuildLabel "" "" "") then ""
  else if IsOriginalTarget label then "command-line targets"
  else
    let s := "//" +:+ PackageName label in
    let s := if decide (Subrepo label = "") then s else "///" +:+ Subrepo label +:+ s in
    if IsAllSubpackages label then
      if decide (PackageName label = "") then s +:+ "..." else s +:+ "/..."
    else s +:+ ":" +:+ Name label.

Definition ShortString (label context : BuildLabel) : string :=
  if negb (String.eqb (Subrepo label) (Subrepo context)) then label_String label
  else if String.eqb (PackageName label) (PackageName context) then ":" +:+ Name label
  else if String.eqb (Name label) (path_base (PackageName label)) then "//" +:+ PackageName label
  else label_String (MkBuildLabel (PackageName label) (Name label) "").

Definition MarshalText (label : BuildLabel) : string := label_String label.

Definition packageKey_String (key : packageKey) : string :=
  if decide (key_Subrepo key = "") then key_Name key
  else "@" +:+ key_Subrepo key +:+ "//" +:+ key_Name key.

(** ** Validation *)

Definition validatePackageName (name : string) : bool :=
  String.eqb name "" ||
  (negb (has_prefix name "/") && negb (has_suffix name "/")
    && negb (contains_any name "|$*?[]{}:()&\") && negb (contains name "//")).

Definition validateTargetName (name : string) : bool :=
  negb (String.eqb name "") && negb (contains_any name "|$*?[]{}:()&/\")
    && (negb (has_prefix name ".") || String.eqb name "...")
    && negb (has_suffix name buildDirSuffix) && negb (has_suffix name testDirSuffix).

Definition validateSuffixes (pkgName name : string) : option label_error :=
  if has_suffix name buildDirSuffix || has_suffix name testDirSuffix
     || has_suffix pkgName buildDirSuffix || has_suffix pkgName testDirSuffix
  then Some ReservedSuffix else None.

Definition validateNames (pkgName name : string) : option label_error :=
  if negb (validatePackageName pkgName) then Some (InvalidPackageName pkgName)
  else if negb (validateTargetName name) then Some (InvalidTargetName name)
  else validateSuffixes pkgName name.

Definition TryNewBuildLabel (pkgName name : string) : label_error + BuildLabel :=
  match validateNames pkgName name with
  | Some err => inl err
  | None => inr (MkBuildLabel pkgName name "")
  end.

(** [NewBuildLabel] and [ParseBuildLabel] panic where the [Try] forms return an error. *)
Definition or_panic (r : label_error + BuildLabel) : res BuildLabel :=
  match r with inl _ => Err (EPanic "invalid build label") | inr l => Ok l end.

Definition NewBuildLabel (pkgName name : string) : res BuildLabel :=
  or_panic (TryNewBuildLabel pkgName name).

(** ** Parsing *)

Definition SplitLabelAnnotation (target : string) : string * string :=
  let parts := split_byte "|" target in
  let annotation := match parts with [_; a] => a | _ => "" end in
  (default "" (head parts), annotation).

Definition SplitSubrepoArch (subrepoName : string) : string * string :=
  match last_index_byte "@" subrepoName with
  | Some idx => (str_take idx subrepoName, str_drop (S idx) subrepoName)
  | None => (subrepoName, "")
  end.

Definition JoinSubrepoArch (subrepoName arch : string) : string :=
  if decide (subrepoName = "") then arch
  else if decide (arch = "") then subrepoName
  else subrepoName +:+ "@" +:+ arch.

(** The subrepo form, given the parser for what follows the subrepo's name. *)
Definition parseBuildLabelSubrepo_with
    (parts : string -> string * string * string) (target : string) : string * string * string :=
  let at_idx idx :=
    if contains_byte ":" (str_take idx target) then ("", "", "")
    else let '(pkg, name, _) := parts (str_drop idx target) in (pkg, name, str_take idx target) in
  match index_str "//" target with
  | Some idx => at_idx idx
  | None =>
      match index_byte ":" target with
      | Some idx => at_idx idx
      | None =>
          match last_index_byte "/" target with
          | Some idx => ("", str_drop (S idx) target, target)
          | None => ("", target, target)
          end
      end
  end.

(** The two parsers call each other on ever shorter strings; the fuel is the
    length of the string ([ParseBuildLabelParts_eq] is the fuel-free equation). *)
Fixpoint ParseBuildLabelParts_fuel (fuel : nat) (target currentPath subrepo : string)
    : string * string * string :=
  match fuel with
  | 0 => ("", "", "")
  | S fuel =>
      let rec t := ParseBuildLabelParts_fuel fuel t currentPath "" in
      if (String.length target <? 2)%nat then ("", "", "")
      else if has_prefix target ":" then
        if negb (validateTargetName (str_drop 1 target)) then ("", "", "")
        else (currentPath, str_drop 1 target, "")
      else if has_prefix target "@" then parseBuildLabelSubrepo_with rec (str_drop 1 target)
      else if has_prefix target "///" then parseBuildLabelSubrepo_with rec (str_drop 3 target)
      else if negb (has_prefix target "//") then ("", "", "")
      else
        match index_byte ":" target with
        | Some idx =>
            let pkg := str_slice 2 idx target in
            let name := str_drop (S idx) target in
            if negb (validatePackageName pkg) || negb (validateTargetName name)
               || String.eqb name "..."
            then ("", "", "") else (pkg, name, subrepo)
        | None =>
            if negb (validatePackageName (str_drop 2 target)) then ("", "", "")
            else if has_suffix target "/..." then
              (trim_right (str_slice 2 (String.length target - 3) target) "/", "...", "")
            else
              match last_index_byte "/" target with
              | Some idx => (str_drop 2 target, str_drop (S idx) target, subrepo)
              | None => (str_drop 2 target, str_drop 2 target, subrepo)
              end
        end
  end.

Definition ParseBuildLabelParts (target currentPath subrepo : string) : string * string * string :=
  ParseBuildLabelParts_fuel (S (String.length target)) target currentPath subrepo.

Definition parseBuildLabelSubrepo (target currentPath : string) : string * string * string :=
  parseBuildLabelSubrepo_with (fun t => ParseBuildLabelParts t currentPath "") target.

Definition TryParseBuildLabel (target currentPath subrepo : string) : label_error + BuildLabel :=
  let '(pkg, name, subrepo) := ParseBuildLabelParts target currentPath subrepo in
  if decide (name = "") then inl (InvalidBuildLabel target)
  else inr (MkBuildLabel pkg name subrepo).

Definition ParseBuildLabel (target currentPath : string) : res BuildLabel :=
  or_panic (TryParseBuildLabel target currentPath "").

Definition UnmarshalText (text : string) : label_error + BuildLabel :=
  TryParseBuildLabel text "" "".

(** [initial] is [InitialPackagePath], which locating the repo root sets. *)
Definition parseMaybeRelativeBuildLabel (initial target subdir : string) : label_error + BuildLabel :=
  let relative target :=
    let subdir := if decide (subdir = "") then initial else subdir in
    if has_prefix target ":" then TryParseBuildLabel target subdir ""
    else TryParseBuildLabel ("//" +:+ path_join [subdir; target]) "" "" in
  if has_prefix target ":" then relative target
  else
    let target :=
      if negb (has_prefix target "//") && has_prefix target "/" then "/" +:+ target else target in
    match TryParseBuildLabel target "" "" with
    | inr label => inr label
    | inl err => if has_prefix target "//" then inl err else relative target
    end.

(** [ParseBuildLabels]: the first label that does not parse is fatal. *)
Fixpoint ParseBuildLabels (initial : string) (targets : list string) : res (list BuildLabel) :=
  match targets with
  | [] => Ok []
  | target :: targets =>
      match parseMaybeRelativeBuildLabel initial target "" with
      | inl _ => Err (EFatal "Invalid build label")
      | inr label => ls ← ParseBuildLabels initial targets; Ok (label :: ls)
      end
  end.

Definition LooksLikeABuildLabel (str : string) : bool :=
  has_prefix str "//" || has_prefix str ":" ||
  (has_prefix str "@" && (contains_byte ":" str || contains str "//")).

(** [UnmarshalFlag]: [None] is the label left as it was, when completing. *)
Definition UnmarshalFlag (initial : string) (completing : bool) (value : string)
    : res (option BuildLabel) :=
  if decide (value = "-") then Ok (Some BuildLabelStdin)
  else match parseMaybeRelativeBuildLabel initial value "" with
       | inl _ => if completing then Ok None else Err (EFatal "Invalid build label")
       | inr l => Ok (Some l)
       end.

(** ** Relations between labels *)

Definition Includes (label that : BuildLabel) : bool :=
  if (String.eqb (PackageName label) "" && IsAllSubpackages label)
     || String.eqb (PackageName that) (PackageName label)
     || has_prefix (PackageName that) (PackageName label +:+ "/")
  then
    if IsAllSubpackages label then true
    else String.eqb (PackageName label) (PackageName that)
         && (String.eqb (Name label) (Name that) || IsAllTargets label)
  else false.

Definition label_Compare (label other : BuildLabel) : Z :=
  if negb (String.eqb (Subrepo label) (Subrepo other)) then
    if str_ltb (Subrepo label) (Subrepo other) then -1 else 1
  else if negb (String.eqb (PackageName label) (PackageName other)) then
    if str_ltb (PackageName label) (PackageName other) then -1 else 1
  else if negb (String.eqb (Name label) (Name other)) then
    if str_ltb (Name label) (Name other) then -1 else 1
  else 0.

Definition label_Less (label other : BuildLabel) : bool :=
  if negb (String.eqb (Subrepo label) (Subrepo other)) then
    str_ltb (Subrepo label) (Subrepo other)
  else if negb (String.eqb (PackageName label) (PackageName other)) then
    str_ltb (PackageName label) (PackageName other)
  else str_ltb (Name label) (Name other).

Definition Parent (label : BuildLabel) : BuildLabel :=
  match index_byte "#" (Name label) with
  | None => label
  | Some index =>
      if negb (has_prefix (Name label) "_") then label
      else MkBuildLabel (PackageName label) (trim_left (str_take index (Name label)) "_")
             (Subrepo label)
  end.

Definition HasParent (label : BuildLabel) : bool := negb (bool_decide (Parent label = label)).

(** [IsHidden] indexes the name at 0, which panics on an empty one. *)
Definition IsHidden (label : BuildLabel) : res bool :=
  match Name label with
  | EmptyString => Err EIndex
  | String c _ => Ok (Ascii.eqb c "_")
  end.

Definition PackageDir (label : BuildLabel) : string :=
  if decide (PackageName label = "") then "." else PackageName label.

Definition label_Matches (label other : BuildLabel) : bool :=
  if String.eqb (Name label) "..." then
    String.eqb (PackageName label) "." || has_prefix (PackageName other) (PackageName label)
  else if String.eqb (Name label) "all" then
    String.eqb (PackageName label) (PackageName other)
  else bool_decide (label = Parent other).

Definition InSamePackageAs (label l : BuildLabel) : bool :=
  String.eqb (PackageName l) (PackageName label) && String.eqb (Subrepo l) (Subrepo label).

Definition label_packageKey (label : BuildLabel) : packageKey :=
  MkPackageKey (PackageName label) (Subrepo label).

Definition key_BuildLabel (key : packageKey) : BuildLabel :=
  MkBuildLabel (key_Name key) "all" (key_Subrepo key).

Definition subrepoLabel (subrepoName arch : string) : BuildLabel :=
  match last_index_byte "/" subrepoName with
  | Some idx => MkBuildLabel (str_take idx subrepoName) (str_drop (S idx) subrepoName) arch
  | None => MkBuildLabel "" subrepoName arch
  end.

(** [SubrepoLabel]: [plugins] are the [Target]s of the configured plugins. *)
Definition SubrepoLabel (hostArch stateArch : string) (plugins : gmap string BuildLabel)
    (label : BuildLabel) : res BuildLabel :=
  let '(subrepoName, arch) := SplitSubrepoArch (Subrepo label) in
  let arch := if String.eqb arch "" && negb (String.eqb stateArch hostArch) then stateArch else arch in
  match plugins !! subrepoName with
  | None => Ok (subrepoLabel subrepoName arch)
  | Some t =>
      if decide (label_String t = "") then Err (EFatal "plugin must have Target set")
      else if contains (Subrepo t) "@" then Ok t
      else Ok (MkBuildLabel (PackageName t) (Name t) (JoinSubrepoArch (Subrepo t) arch))
  end.

(** [BuildLabels.String]. *)
Definition BuildLabels_String (ls : list BuildLabel) : string := join ", " (label_String <$> ls).

(** ** Lemmas about the parsers *)

Lemma ParseBuildLabelParts_fuel_irrel target cp sr fuel fuel' :
  String.length target < fuel -> String.length target < fuel' ->
  ParseBuildLabelParts_fuel fuel target cp sr = ParseBuildLabelParts_fuel fuel' target cp sr.
Proof.
  revert target sr fuel'. induction fuel as [|fuel IH]; intros target sr [|fuel'] H H'; try lia.
  cbn [ParseBuildLabelParts_fuel].
  destruct (Nat.ltb_spec (String.length target) 2); [done|].
  assert (forall n, 0 < n ->
    parseBuildLabelSubrepo_with
      (fun t => ParseBuildLabelParts_fuel fuel t cp "") (str_drop n target) =
    parseBuildLabelSubrepo_with
      (fun t => ParseBuildLabelParts_fuel fuel' t cp "") (str_drop n target)) as Hsub.
  { intros n Hn. unfold parseBuildLabelSubrepo_with.
    assert (forall idx, ParseBuildLabelParts_fuel fuel (str_drop idx (str_drop n target)) cp "" =
      ParseBuildLabelParts_fuel fuel' (str_drop idx (str_drop n target)) cp "") as Hrec.
    { intros idx. apply IH; rewrite !str_length_drop; lia. }
    destruct (index_str _ _); [by rewrite Hrec|]. destruct (index_byte _ _); [by rewrite Hrec|done]. }
  by rewrite !Hsub by lia.
Qed.

(** The length of the string is always fuel enough: the parser satisfies the
    recursive equation of the Go function. *)
Lemma ParseBuildLabelParts_eq target cp sr :
  ParseBuildLabelParts target cp sr =
    if (String.length target <? 2)%nat then ("", "", "")
    else if has_prefix target ":" then
      if negb (validateTargetName (str_drop 1 target)) then ("", "", "")
      else (cp, str_drop 1 target, "")
    else if has_prefix target "@" then parseBuildLabelSubrepo (str_drop 1 target) cp
    else if has_prefix target "///" then parseBuildLabelSubrepo (str_drop 3 target) cp
    else if negb (has_prefix target "//") then ("", "", "")
    else
      match index_byte ":" target with
      | Some idx =>
          let pkg := str_slice 2 idx target in
          let name := str_drop (S idx) target in
          if negb (validatePackageName pkg) || negb (validateTargetName name)
             || String.eqb name "..."
          then ("", "", "") else (pkg, name, sr)
      | None =>
          if negb (validatePackageName (str_drop 2 target)) then ("", "", "")
          else if has_suffix target "/..." then
            (trim_right (str_slice 2 (String.length target - 3) target) "/", "...", "")
          else
            match last_index_byte "/" target with
            | Some idx => (str_drop 2 target, str_drop (S idx) target, sr)
            | None => (str_drop 2 target, str_drop 2 target, sr)
            end
      end.
Proof.
  unfold ParseBuildLabelParts at 1. cbn [ParseBuildLabelParts_fuel].
  destruct (Nat.ltb_spec (String.length target) 2); [done|].
  assert (forall n, 0 < n ->
    parseBuildLabelSubrepo_with
      (fun t => ParseBuildLabelParts_fuel (String.length target) t cp "") (str_drop n target) =
    parseBuildLabelSubrepo (str_drop n target) cp) as Hsub.
  { intros n Hn. unfold parseBuildLabelSubrepo, parseBuildLabelSubrepo_with, ParseBuildLabelParts.
    assert (forall idx, ParseBuildLabelParts_fuel (String.length target)
        (str_drop idx (str_drop n target)) cp "" =
      ParseBuildLabelParts_fuel (S (String.length (str_drop idx (str_drop n target))))
        (str_drop idx (str_drop n target)) cp "") as Hrec.
    { intros idx. apply ParseBuildLabelParts_fuel_irrel; rewrite ?str_length_drop; lia. }
    destruct (index_str _ _); [by rewrite Hrec|]. destruct (index_byte _ _); [by rewrite Hrec|done]. }
  by rewrite !Hsub by lia.
Qed.

Record valid_pkg (p : string) : Prop := {
  vp_colon : contains_byte ":" p = false;
  vp_slashes : contains p "//" = false;
  vp_prefix : has_prefix p "/" = false;
  vp_suffix : has_suffix p "/" = false;
}.

Lemma validatePackageName_valid p : validatePackageName p = true -> valid_pkg p.
Proof.
  unfold validatePackageName. rewrite orb_true_iff, !andb_true_iff, !negb_true_iff, String.eqb_eq.
  intros [->|[[[Hp Hs] Ha] Hc]]; [by split|]. split; auto.
  by eapply contains_any_byte.
Qed.

Lemma validateTargetName_nonempty n : validateTargetName n = true -> n <> "".
Proof. by intros H ->. Qed.

(** Past a leading [//] only the rest matters. *)
Lemma parts_double_slash t cp sr :
  has_prefix t "/" = false ->
  ParseBuildLabelParts ("//" +:+ t) cp sr =
    match index_byte ":" t with
    | Some idx =>
        let pkg := str_take idx t in
        let name := str_drop (S idx) t in
        if negb (validatePackageName pkg) || negb (validateTargetName name)
           || String.eqb name "..."
        then ("", "", "") else (pkg, name, sr)
    | None =>
        if negb (validatePackageName t) then ("", "", "")
        else if has_suffix ("/" +:+ t) "/..." then
          (trim_right (str_take (String.length t - 3) t) "/", "...", "")
        else match last_index_byte "/" t with
             | Some idx => (t, str_drop (S idx) t, sr)
             | None => (t, t, sr)
             end
    end.
Proof.
  intros Ht. rewrite ParseBuildLabelParts_eq. cbn [String.append].
  rewrite !has_prefix_cons, !has_prefix_nil, Ht. eval_ascii. cbn [andb negb].
  change (String.length _ <? 2) with false. cbn [index_byte last_index_byte]. eval_ascii.
  destruct (index_byte ":" t) as [idx|]; cbn [fmap option_fmap option_map].
  - unfold str_slice. cbn. by rewrite Nat.sub_0_r.
  - change (str_drop 2 (String "/" (String "/" t))) with t.
    destruct (validatePackageName t) eqn:Hv; [|done].
    replace (has_suffix (String "/" (String "/" t)) "/...") with (has_suffix (String "/" t) "/...").
    2: { apply eq_true_iff_eq. rewrite !has_suffix_spec. split.
         - intros [r Hr]. exists (String "/" r). by rewrite Hr.
         - intros [[|a r] Hr]; [done|]. injection Hr. by exists r. }
    destruct (has_suffix _ _) eqn:Hs; cbn.
    + unfold str_slice. cbn [str_drop]. f_equal. f_equal. f_equal.
      apply has_suffix_spec in Hs as [r Hr]. apply (f_equal String.length) in Hr.
      rewrite str_length_app in Hr. cbn in Hr.
      destruct (String.length t) as [|[|[|n]]]; cbn in *; try lia; done.
    + destruct (last_index_byte "/" t); done.
Qed.

Lemma parts_triple_slash t cp sr :
  ParseBuildLabelParts ("///" +:+ t) cp sr = parseBuildLabelSubrepo t cp.
Proof.
  rewrite ParseBuildLabelParts_eq. cbn [String.append].
  rewrite !has_prefix_cons, !has_prefix_nil. eval_ascii. reflexivity.
Qed.

Lemma valid_pkg_app_prefix p c r :
  has_prefix p "/" = false -> Ascii.eqb "/" c = false ->
  has_prefix (p +:+ String c r) "/" = false.
Proof.
  intros Hp Hc. destruct p as [|a p]; cbn; rewrite has_prefix_cons, has_prefix_nil in *; by rewrite ?Hc.
Qed.

(** The two absolute forms, and the subrepo prefix, parse as they print. *)
Lemma parts_absolute p n cp sr :
  validatePackageName p = true -> validateTargetName n = true -> n <> "..." ->
  ParseBuildLabelParts ("//" +:+ p +:+ ":" +:+ n) cp sr = (p, n, sr).
Proof.
  intros Hp Hn Hne. destruct (validatePackageName_valid p Hp) as [Hc _ Hpre _].
  change (":" +:+ n) with (String ":" n).
  rewrite parts_double_slash, index_byte_app by (try apply valid_pkg_app_prefix; done).
  cbv zeta. rewrite str_take_app, str_drop_app_S, Hp, Hn.
  by destruct (String.eqb_spec n "...").
Qed.

Lemma validatePackageName_subpackages p :
  validatePackageName p = true -> p <> "" -> validatePackageName (p +:+ "/...") = true.
Proof.
  intros Hp Hne. destruct (validatePackageName_valid p Hp) as [_ Hsl Hpre Hsuf].
  unfold validatePackageName in *. apply orb_true_iff in Hp as [Hp|Hp].
  { by apply String.eqb_eq in Hp. }
  rewrite !andb_true_iff, !negb_true_iff in Hp. destruct Hp as [[_ Ha] _].
  rewrite contains_any_app, Ha. apply orb_true_iff. right.
  rewrite !andb_true_iff, !negb_true_iff. split_and!; [| |done|].
  - destruct p as [|a p]; [done|]. cbn. by rewrite has_prefix_cons, has_prefix_nil in *.
  - by rewrite (has_suffix_app_ne p "/" "...").
  - apply contains_None. by rewrite index_str_slashes_app.
Qed.

Lemma parts_subpackages p cp sr :
  validatePackageName p = true ->
  ParseBuildLabelParts ("//" +:+ p +:+ if decide (p = "") then "..." else "/...") cp sr
    = (p, "...", "").
Proof.
  intros Hp. destruct (decide (p = "")) as [->|Hne]; [by vm_compute|].
  destruct (validatePackageName_valid p Hp) as [Hc _ Hpre Hsuf].
  rewrite parts_double_slash.
  2: { destruct p as [|a p]; [done|]. cbn. rewrite has_prefix_cons, has_prefix_nil in *. done. }
  rewrite (proj2 (index_byte_None ":" _)) by (rewrite contains_byte_app, Hc; done).
  rewrite validatePackageName_subpackages by done.
  change ("/" +:+ p +:+ "/...") with (("/" +:+ p) +:+ "/..."). rewrite has_suffix_app. cbn [negb].
  rewrite str_length_app. change "/..." with ("/" +:+ "...").
  replace (String.length p + String.length ("/" +:+ "...") - 3) with (String.length (p +:+ "/"))
    by (rewrite str_length_app; cbn; lia).
  rewrite <- str_app_assoc, str_take_app, trim_right_app_same by done. done.
Qed.

Lemma parts_subrepo s r cp sr :
  validatePackageName s = true ->
  ParseBuildLabelParts ("///" +:+ s +:+ "//" +:+ r) cp sr =
    let '(p, n, _) := ParseBuildLabelParts ("//" +:+ r) cp "" in (p, n, s).
Proof.
  intros Hs. destruct (validatePackageName_valid s Hs) as [Hc Hsl _ Hsuf].
  rewrite parts_triple_slash. unfold parseBuildLabelSubrepo, parseBuildLabelSubrepo_with.
  by rewrite index_str_slashes, str_take_app, str_drop_app, Hc by done.
Qed.

(** ** Properties *)

(** The labels the constructors accept, in a subrepo or not; the label that
    stands for the command line's targets is printed as a phrase. *)
Definition wf_label (l : BuildLabel) : Prop :=
  validatePackageName (PackageName l) = true /\ validateTargetName (Name l) = true
  /\ validatePackageName (Subrepo l) = true /\ l <> OriginalTarget.

#[export] Instance wf_label_dec l : Decision (wf_label l).
Proof. unfold wf_label. apply _. Defined.

(** C17: printing a well-formed label and parsing the text gives the label back,
    whatever package the parser is told it is in: ordinary targets, [:all],
    [/...] and the root package, in a subrepo or in none. *)
Theorem label_print_parse l currentPath :
  wf_label l -> TryParseBuildLabel (label_String l) currentPath "" = inr l.
Proof.
  destruct l as [p n s]. intros (Hp & Hn & Hs & Ho). cbn [PackageName Name Subrepo] in *.
  pose proof (validateTargetName_nonempty n Hn) as Hne.
  assert (forall cp, ParseBuildLabelParts ("//" +:+ p +:+
      (if IsAllSubpackages (MkBuildLabel p n s) then if decide (p = "") then "..." else "/..."
       else ":" +:+ n)) cp "" = (p, n, "")) as Habs.
  { intros cp. unfold IsAllSubpackages. cbn [Name].
    destruct (String.eqb_spec n "...") as [->|]; [by apply parts_subpackages|by apply parts_absolute]. }
  assert (label_String (MkBuildLabel p n s) =
    (if decide (s = "") then "" else "///" +:+ s) +:+ "//" +:+ p +:+
      (if IsAllSubpackages (MkBuildLabel p n s) then if decide (p = "") then "..." else "/..."
       else ":" +:+ n)) as ->.
  { unfold label_String, IsOriginalTarget. rewrite decide_False by congruence.
    rewrite bool_decide_false by done. cbn [PackageName Name Subrepo].
    destruct (decide (s = "")), (IsAllSubpackages _), (decide (p = "")); cbn;
      by rewrite ?str_app_assoc. }
  unfold TryParseBuildLabel. destruct (decide (s = "")) as [->|Hsne].
  - cbn [String.append] in *. rewrite Habs. by rewrite decide_False.
  - rewrite str_app_assoc, parts_subrepo, Habs by done. by rewrite decide_False.
Qed.

Lemma label_print_parse_witness :
  TryParseBuildLabel (label_String (MkBuildLabel "src/core" "..." "go@linux_amd64")) "x" ""
    = inr (MkBuildLabel "src/core" "..." "go@linux_amd64").
Proof. apply label_print_parse. apply (bool_decide_unpack _). vm_compute. exact I. Defined.

(** the abbreviated form bypasses the checks on target names: [//foo/.bar]
    parses, and the label it gives prints as text that does not. *)
Theorem abbreviated_form_unvalidated :
  exists l, TryParseBuildLabel "//foo/.bar" "" "" = inr l
    /\ validateTargetName (Name l) = false
    /\ TryParseBuildLabel (label_String l) "" "" = inl (InvalidBuildLabel "//foo/.bar:.bar").
Proof. eexists. split_and!; by vm_compute. Qed.

(** A lexicographic comparison by strings, as [Compare] and [Less] make it. *)
Ltac label_order :=
  repeat match goal with
    | |- context [String.eqb ?x ?y] => destruct (String.eqb_spec x y); subst; cbn [negb]
    | H : context [String.eqb ?x ?y] |- _ => destruct (String.eqb_spec x y); subst; cbn [negb] in H
    end.

Lemma label_Compare_eq a b : label_Compare a b = 0%Z <-> a = b.
Proof.
  destruct a as [p n s], b as [p' n' s']. unfold label_Compare. cbn. label_order;
    repeat case_match; naive_solver.
Qed.

Lemma label_Compare_antisym a b : label_Compare a b = (- label_Compare b a)%Z.
Proof.
  destruct a as [p n s], b as [p' n' s']. unfold label_Compare. cbn. label_order; try done;
    match goal with Hne : ?x <> ?y |- context [str_ltb ?x ?y] => rewrite (str_ltb_total x y Hne) end;
    by destruct (str_ltb _ _).
Qed.

Lemma label_Less_Compare a b : label_Less a b = bool_decide (label_Compare a b < 0)%Z.
Proof.
  destruct a as [p n s], b as [p' n' s']. unfold label_Compare, label_Less. cbn.
  label_order; rewrite ?str_ltb_irrefl; try done; by destruct (str_ltb _ _).
Qed.

Lemma label_Less_trans a b c : label_Less a b = true -> label_Less b c = true -> label_Less a c = true.
Proof.
  destruct a as [p n s], b as [p' n' s'], c as [p'' n'' s'']. unfold label_Less. cbn.
  intros H1 H2. label_order; rewrite ?str_ltb_irrefl in *; try done; try (by eapply str_ltb_trans);
    match goal with H1 : str_ltb ?x ?y = true, H2 : str_ltb ?y ?x = true |- _ =>
      pose proof (str_ltb_trans x y x H1 H2) as Hc; rewrite str_ltb_irrefl in Hc; done end.
Qed.

(** C34: [Compare] is a total order and agrees with [Less]: zero exactly on equal
    labels, antisymmetric, transitive. *)
Theorem label_Compare_total_order :
  (forall a b, label_Compare a b = 0%Z <-> a = b)
  /\ (forall a b, label_Compare a b = (- label_Compare b a)%Z)
  /\ (forall a b, label_Less a b = bool_decide (label_Compare a b < 0)%Z)
  /\ (forall a b c, label_Less a b = true -> label_Less b c = true -> label_Less a c = true).
Proof.
  split_and!; [apply label_Compare_eq|apply label_Compare_antisym|apply label_Less_Compare
    |apply label_Less_trans].
Qed.

(** what a visibility pattern includes: [//p/...] everything at or below [p],
    anything else only labels of its own package, by name or through [:all].
    The subrepo plays no part. *)
Theorem Includes_spec label that :
  Includes label that = true <->
    (Name label = "..." /\ (PackageName label = "" \/ PackageName that = PackageName label
       \/ exists sub, PackageName that = PackageName label +:+ "/" +:+ sub))
    \/ (PackageName label = PackageName that /\ (Name label = Name that \/ Name label = "all")).
Proof.
  assert (has_prefix (PackageName that) (PackageName label +:+ "/") = true <->
    exists sub, PackageName that = PackageName label +:+ "/" +:+ sub) as Hsub.
  { rewrite has_prefix_spec. by setoid_rewrite str_app_assoc. }
  unfold Includes, IsAllSubpackages, IsAllTargets.
  destruct (has_prefix (PackageName that) (PackageName label +:+ "/")); label_order;
    cbn [andb orb negb]; try naive_solver congruence.
Qed.

Lemma trim_left_byte c s cutset :
  contains_byte c s = false -> contains_byte c (trim_left s cutset) = false.
Proof.
  induction s as [|a s IH]; cbn; [done|]. destruct (contains_byte a cutset); [|done].
  rewrite contains_byte_cons. intros [_ H]%orb_false_iff. auto.
Qed.

(** The parent of a label is its own parent: the rule takes [_name#tag] to
    [name] in one step. *)
Theorem Parent_idempotent l : Parent (Parent l) = Parent l.
Proof.
  unfold Parent at 2 3. destruct (index_byte "#" (Name l)) as [i|] eqn:E.
  - destruct (has_prefix (Name l) "_") eqn:Hp; cbn [negb].
    + unfold Parent. cbn [Name]. apply index_byte_Some in E as (_ & E & _).
      by rewrite (proj2 (index_byte_None _ _)) by (by apply trim_left_byte).
    + unfold Parent. by rewrite E, Hp.
  - unfold Parent. by rewrite E.
Qed.

(** Splitting off the architecture and joining it back is the identity on
    subrepo names, and joining then splitting gives back a subrepo and an
    architecture that has no [@]. *)
Theorem SplitJoin_SubrepoArch :
  (forall s, let '(r, a) := SplitSubrepoArch s in r <> "" -> a <> "" -> JoinSubrepoArch r a = s)
  /\ (forall r a, r <> "" -> a <> "" -> contains_byte "@" a = false ->
        SplitSubrepoArch (JoinSubrepoArch r a) = (r, a)).
Proof.
  split.
  - intros s. unfold SplitSubrepoArch. destruct (last_index_byte "@" s) as [i|] eqn:E; [|done].
    intros Hr Ha. unfold JoinSubrepoArch. rewrite !decide_False by done.
    apply last_index_byte_Some in E as [Hs _]. symmetry. exact Hs.
  - intros r a Hr Ha Hat. unfold JoinSubrepoArch. rewrite !decide_False by done.
    unfold SplitSubrepoArch. change (r +:+ "@" +:+ a) with (r +:+ String "@" a).
    by rewrite last_index_byte_app, str_take_app, str_drop_app_S.
Qed.
