(* ===== verification/Cmap.v ===== *)
(** The awaitable concurrent map: [src/cmap/cmap.go] and [src/cmap/cerrmap.go].

    A [Map] is an array of shards, each a Go map under a lock, whose entries hold a
    value or a channel that is closed once the value arrives.  First what one call
    does to the shards and the channels, and that it is what it would do to a single
    map; then the critical sections of concurrent calls, interleaved, with the values
    and errors of [ErrMap] and the call-once protocol of [GetOrSet]. *)
From S2P Require Import Prelude.

(** ** One shard *)

(** Channels are numbered in order of creation; receiving from one returns when
    it is closed, and closing one twice panics. *)
Record chans := MkChans { next_ch : nat; closed : gset nat }.

Definition make_chan (c : chans) : nat * chans :=
  (next_ch c, MkChans (S (next_ch c)) (closed c)).

Definition close_chan (ch : nat) (c : chans) : res chans :=
  if decide (ch ∈ closed c) then Err (EPanic "close of closed channel")
  else Ok (MkChans (next_ch c) ({[ch]} ∪ closed c)).

Record awaitableValue (V : Type) := AV { Val : V; Wait : option nat }.
Arguments AV {V}.
Arguments Val {V}.
Arguments Wait {V}.

Section shard.
Context `{Countable K} {V : Type} (zero : V).

Definition shard := gmap K (awaitableValue V).

Definition shard_Set (s : gmap K (awaitableValue V)) (c : chans) (key : K) (val : V)
    (overwrite : bool) : res (bool * gmap K (awaitableValue V) * chans) :=
  match s !! key with
  | Some existing =>
      match Wait existing with
      | None =>
          if negb overwrite then Ok (false, s, c)
          else Ok (true, <[key := AV val None]> s, c)
      | Some ch =>
          c' ← close_chan ch c;
          Ok (true, <[key := AV val None]> s, c')
      end
  | None => Ok (true, <[key := AV val None]> s, c)
  end.

Definition shard_Get (s : gmap K (awaitableValue V)) (key : K) : V :=
  match s !! key with Some v => Val v | None => zero end.

(** The first critical section of [GetOrWait], under the read lock. *)
Definition shard_Probe (s : gmap K (awaitableValue V)) (key : K) : option (V * option nat * bool) :=
  (fun v => (Val v, Wait v, false)) <$> s !! key.

(** The second, under the write lock, which checks again. *)
Definition shard_Insert (s : gmap K (awaitableValue V)) (c : chans) (key : K)
    : (V * option nat * bool) * gmap K (awaitableValue V) * chans :=
  match s !! key with
  | Some v => ((Val v, Wait v, false), s, c)
  | None =>
      let '(ch, c') := make_chan c in
      ((zero, Some ch, true), <[key := AV zero (Some ch)]> s, c')
  end.

Definition shard_GetOrWait (s : gmap K (awaitableValue V)) (c : chans) (key : K)
    : (V * option nat * bool) * gmap K (awaitableValue V) * chans :=
  match shard_Probe s key with
  | Some r => (r, s, c)
  | None => shard_Insert s c key
  end.

Definition shard_Range (s : gmap K (awaitableValue V)) : list (K * V) :=
  omap (fun kv => match Wait kv.2 with None => Some (kv.1, Val kv.2) | Some _ => None end)
    (map_to_list s).

Definition shard_Values (s : gmap K (awaitableValue V)) : list V := (shard_Range s).*2.

Definition shard_Contains (s : gmap K (awaitableValue V)) (key : K) : bool :=
  bool_decide (is_Some (s !! key)).
End shard.

(** ** The sharded map *)

Definition DefaultShardCount : Z := Z.shiftl 1 8.
Definition SmallShardCount : Z := 4.

Record Map (K V : Type) `{Countable K} := MkMap {
  shards : list (gmap K (awaitableValue V));
  mask : Z;
  hasher : K -> Z;
}.
Arguments MkMap {K V _ _}.
Arguments shards {K V _ _}.
Arguments mask {K V _ _}.
Arguments hasher {K V _ _}.

Section map.
Context `{Countable K} {V : Type} (zero : V).
Implicit Types (m : Map K V) (c : chans) (k : K).

(** [New]: the mask is [shardCount - 1] on 64-bit words. *)
Definition New (shardCount : Z) (hash : K -> Z) : res (Map K V) :=
  let msk := ((shardCount - 1) mod 2 ^ 64)%Z in
  if (Z.land shardCount msk =? 0)%Z
  then Ok (MkMap (replicate (Z.to_nat shardCount) ∅) msk hash)
  else Err (EPanic "Shard count is not a power of 2").

Definition shard_index m k : nat := Z.to_nat (Z.land (hasher m k) (mask m)).

(** Runs an operation on the key's shard; an index past the shards panics. *)
Definition on_shard {R} m k
    (f : gmap K (awaitableValue V) -> res (R * gmap K (awaitableValue V) * chans))
    : res (R * Map K V * chans) :=
  match shards m !! shard_index m k with
  | None => Err EIndex
  | Some s =>
      '(r, s', c) ← f s;
      Ok (r, MkMap (<[shard_index m k := s']> (shards m)) (mask m) (hasher m), c)
  end.

Definition map_Add m c k (val : V) : res (bool * Map K V * chans) :=
  on_shard m k (fun s => shard_Set s c k val false).

Definition map_Set m c k (val : V) : res (bool * Map K V * chans) :=
  on_shard m k (fun s => shard_Set s c k val true).

Definition map_GetOrWait m c k : res ((V * option nat * bool) * Map K V * chans) :=
  on_shard m k (fun s => Ok (shard_GetOrWait zero s c k)).

Definition map_Get m k : res V :=
  match shards m !! shard_index m k with
  | None => Err EIndex
  | Some s => Ok (shard_Get zero s k)
  end.

Definition map_Contains m k : res bool :=
  match shards m !! shard_index m k with
  | None => Err EIndex
  | Some s => Ok (shard_Contains s k)
  end.

Definition map_Values m : list V := concat (shard_Values <$> shards m).

(** The pairs [Range] calls its function on. *)
Definition map_Range m : list (K * V) := concat (shard_Range <$> shards m).
End map.

(** ** Refinement: the sharded map is one finite map *)

Section refinement.
Context `{Countable K} {V : Type} (zero : V).
Implicit Types (m : Map K V) (c : chans) (k : K).

(** The power-of-two shape [New] checks, and every key in the shard its hash selects. *)
Record map_wf m : Prop := {
  wf_hash : forall k, (0 <= hasher m k)%Z;
  wf_mask : exists n, (0 <= n)%Z /\ mask m = Z.ones n /\ length (shards m) = Z.to_nat (2 ^ n);
  wf_place : forall i s k, shards m !! i = Some s -> is_Some (s !! k) -> shard_index m k = i;
}.

Definition map_abs m : gmap K (awaitableValue V) := foldr (∪) ∅ (shards m).

Lemma foldr_union_lookup (l : list (gmap K (awaitableValue V))) k i :
  (forall j s, l !! j = Some s -> is_Some (s !! k) -> j = i) ->
  foldr (∪) ∅ l !! k = l !! i ≫= lookup k.
Proof.
  revert i. induction l as [|s l IH]; intros i Hi; cbn; [by rewrite lookup_empty, lookup_nil|].
  rewrite lookup_union. destruct i as [|i]; cbn.
  - assert (foldr (∪) ∅ l !! k = None) as ->; [|by destruct (s !! k)].
    rewrite (IH (length l)).
    + by rewrite lookup_ge_None_2.
    + intros j t Hj Ht. specialize (Hi (S j) t Hj Ht). done.
  - assert (s !! k = None) as ->.
    { apply eq_None_not_Some. intros Hs. by specialize (Hi 0 s eq_refl Hs). }
    rewrite (IH i), (left_id None (∪)); [done|].
    intros j t Hj Ht. specialize (Hi (S j) t Hj Ht). lia.
Qed.

Lemma map_abs_lookup m k : map_wf m -> map_abs m !! k = shards m !! shard_index m k ≫= lookup k.
Proof.
  intros Hwf. apply foldr_union_lookup. intros j s Hj Hs. symmetry. by eapply wf_place.
Qed.

Lemma shard_index_lt m k : map_wf m -> shard_index m k < length (shards m).
Proof.
  intros Hwf. destruct (wf_mask m Hwf) as (n & Hn & Hm & ->). unfold shard_index.
  rewrite Hm, Z.land_ones by done.
  pose proof (Z.mod_pos_bound (hasher m k) (2 ^ n) (Z.pow_pos_nonneg 2 n ltac:(lia) Hn)). lia.
Qed.

(** An operation that reads and writes a shard at one key only. *)
Definition local_op {R} k (f : gmap K (awaitableValue V) -> res (R * gmap K (awaitableValue V) * chans)) :=
  exists g, forall s, f s = '(r, o, c) ← g (s !! k); Ok (r, partial_alter (fun _ => o) k s, c).

Lemma shard_Set_local c k v ow : local_op k (fun s => shard_Set s c k v ow).
Proof.
  exists (fun o => match o with
    | Some existing =>
        match Wait existing with
        | None => if negb ow then Ok (false, o, c) else Ok (true, Some (AV v None), c)
        | Some ch => c' ← close_chan ch c; Ok (true, Some (AV v None), c')
        end
    | None => Ok (true, Some (AV v None), c)
    end).
  intros s. unfold shard_Set. destruct (s !! k) as [e|] eqn:E; cbn; [|done].
  destruct (Wait e); [by destruct (close_chan _ _)|].
  destruct ow; cbn; [done|]. by rewrite partial_alter_id by done.
Qed.

Lemma shard_GetOrWait_local c k : local_op k (fun s => Ok (shard_GetOrWait zero s c k)).
Proof.
  exists (fun o => match o with
    | Some v => Ok (Val v, Wait v, false, o, c)
    | None => Ok (zero, Some (next_ch c), true, Some (AV zero (Some (next_ch c))), (make_chan c).2)
    end).
  intros s. unfold shard_GetOrWait, shard_Probe, shard_Insert.
  destruct (s !! k) as [e|] eqn:E; cbn; [|done]. by rewrite partial_alter_id by done.
Qed.

Lemma on_shard_refines {R} m k (f : _ -> res (R * gmap K (awaitableValue V) * chans)) :
  map_wf m -> local_op k f ->
  match f (map_abs m) with
  | Ok (r, s', c) => exists m', on_shard m k f = Ok (r, m', c) /\ map_wf m' /\ map_abs m' = s'
  | Err e => on_shard m k f = Err e
  | NoFuel => on_shard m k f = NoFuel
  end.
Proof.
  intros Hwf [g Hg]. unfold on_shard.
  destruct (lookup_lt_is_Some_2 _ _ (shard_index_lt m k Hwf)) as [s Hs].
  rewrite Hs, !Hg, map_abs_lookup, Hs by done. cbn.
  destruct (g (s !! k)) as [[[r o] c]|e|]; cbn; try done.
  set (m' := MkMap _ _ _). exists m'.
  assert (map_wf m') as Hwf'.
  { destruct (wf_mask m Hwf) as (n & ? & ? & Hlen). split; cbn.
    - apply (wf_hash m Hwf).
    - exists n. by rewrite length_insert.
    - intros i t k' Hi Ht. change (shard_index m' k') with (shard_index m k').
      destruct (decide (i = shard_index m k)) as [->|Hne].
      + rewrite list_lookup_insert_eq in Hi by (by eapply lookup_lt_Some).
        injection Hi as <-. destruct (decide (k = k')) as [->|Hk]; [done|].
        rewrite lookup_partial_alter_ne in Ht by done. by eapply (wf_place m).
      + rewrite list_lookup_insert_ne in Hi by done. by eapply (wf_place m). }
  split_and!; [done..|]. apply map_eq. intros k'.
  rewrite map_abs_lookup by done. change (shard_index m' k') with (shard_index m k'). cbn.
  destruct (decide (shard_index m k' = shard_index m k)) as [Heq|Hne].
  - rewrite Heq, list_lookup_insert_eq by (by eapply lookup_lt_Some). cbn.
    destruct (decide (k = k')) as [->|Hk]; [by rewrite !lookup_partial_alter_eq|].
    by rewrite !lookup_partial_alter_ne, map_abs_lookup, Heq, Hs by done.
  - rewrite list_lookup_insert_ne by done.
    rewrite lookup_partial_alter_ne, map_abs_lookup by congruence. done.
Qed.
End refinement.

Section refinement_theorems.
Context `{Countable K} {V : Type} (zero : V).
Implicit Types (m : Map K V) (c : chans) (k : K).

(** A call on the sharded map does what [spec] does on the single map. *)
Definition refines_op {R} (impl : res (R * Map K V * chans))
    (spec : res (R * gmap K (awaitableValue V) * chans)) : Prop :=
  match spec with
  | Ok (r, s, c) => exists m, impl = Ok (r, m, c) /\ map_wf m /\ map_abs m = s
  | Err e => impl = Err e
  | NoFuel => impl = NoFuel
  end.

Lemma map_wf_tail (s : gmap K (awaitableValue V)) l :
  (forall i j t u k, (s :: l) !! i = Some t -> (s :: l) !! j = Some u ->
     is_Some (t !! k) -> is_Some (u !! k) -> i = j) ->
  s ##ₘ foldr (∪) ∅ l /\
  (forall i j t u k, l !! i = Some t -> l !! j = Some u ->
     is_Some (t !! k) -> is_Some (u !! k) -> i = j).
Proof.
  intros Hd. split.
  - apply map_disjoint_alt. intros k. destruct (s !! k) as [v|] eqn:Hs; [right|by left].
    rewrite (foldr_union_lookup l k (length l)); [by rewrite lookup_ge_None_2|].
    intros j t Hj Ht. specialize (Hd 0 (S j) s t k eq_refl Hj ltac:(by exists v) Ht). done.
  - intros i j t u k Hi Hj Ht Hu. specialize (Hd (S i) (S j) t u k Hi Hj Ht Hu). lia.
Qed.

Lemma map_to_list_union (s t : gmap K (awaitableValue V)) :
  s ##ₘ t -> map_to_list (s ∪ t) ≡ₚ map_to_list s ++ map_to_list t.
Proof.
  induction s as [|k v s Hk IH] using map_ind; intros Hd.
  - by rewrite (left_id ∅ (∪)), map_to_list_empty.
  - apply map_disjoint_insert_l in Hd as [Ht Hd].
    rewrite <- insert_union_l, !map_to_list_insert, IH by (rewrite ?lookup_union_None; done).
    done.
Qed.

Lemma shard_Range_concat (l : list (gmap K (awaitableValue V))) :
  (forall i j t u k, l !! i = Some t -> l !! j = Some u ->
     is_Some (t !! k) -> is_Some (u !! k) -> i = j) ->
  concat (shard_Range <$> l) ≡ₚ shard_Range (foldr (∪) ∅ l).
Proof.
  induction l as [|s l IH]; intros Hd; cbn.
  { unfold shard_Range. by rewrite map_to_list_empty. }
  apply map_wf_tail in Hd as [Hdisj Hd]. rewrite (IH Hd).
  unfold shard_Range. rewrite map_to_list_union, omap_app by done. done.
Qed.

Lemma map_Range_abs m : map_wf m -> map_Range m ≡ₚ shard_Range (map_abs m).
Proof.
  intros Hwf. apply shard_Range_concat. intros i j t u k Hi Hj Ht Hu.
  by rewrite <- (wf_place m Hwf i t k Hi Ht), (wf_place m Hwf j u k Hj Hu).
Qed.

(** C14: every call on the sharded map behaves as on one map under one lock:
    the returned values, channels and panics are the same, the result again
    abstracts to the single map, and [Range] visits exactly its pairs. *)
Theorem map_refines_single_map m c k v :
  map_wf m ->
  refines_op (map_Add m c k v) (shard_Set (map_abs m) c k v false)
  /\ refines_op (map_Set m c k v) (shard_Set (map_abs m) c k v true)
  /\ refines_op (map_GetOrWait zero m c k) (Ok (shard_GetOrWait zero (map_abs m) c k))
  /\ map_Get zero m k = Ok (shard_Get zero (map_abs m) k)
  /\ map_Contains m k = Ok (shard_Contains (map_abs m) k)
  /\ map_Range m ≡ₚ shard_Range (map_abs m).
Proof.
  intros Hwf.
  pose proof (on_shard_refines m k _ Hwf (shard_Set_local c k v false)) as HA.
  pose proof (on_shard_refines m k _ Hwf (shard_Set_local c k v true)) as HS.
  pose proof (on_shard_refines m k _ Hwf (shard_GetOrWait_local zero c k)) as HG.
  destruct (lookup_lt_is_Some_2 _ _ (shard_index_lt m k Hwf)) as [s Hs].
  split_and!; [done..| | |by apply map_Range_abs].
  - unfold map_Get, shard_Get. by rewrite map_abs_lookup, Hs.
  - unfold map_Contains, shard_Contains. by rewrite map_abs_lookup, Hs.
Qed.

(** [New] accepts the powers of two and starts from the empty map. *)
Lemma New_wf n (hash : K -> Z) :
  (0 <= n < 64)%Z -> (forall k, 0 <= hash k)%Z ->
  exists m, New (V:=V) (2 ^ n) hash = Ok m /\ map_wf m /\ map_abs m = ∅.
Proof.
  intros Hn Hh. unfold New.
  assert (0 < 2 ^ n)%Z by (apply Z.pow_pos_nonneg; lia).
  assert (2 ^ n < 2 ^ 64)%Z by (apply Z.pow_lt_mono_r; lia).
  rewrite Z.mod_small by lia.
  replace (2 ^ n - 1)%Z with (Z.ones n) by (rewrite Z.ones_equiv; lia).
  rewrite Z.land_ones, Z.mod_same by lia. cbn. eexists. split_and!; [done| |].
  - split; [done| |].
    + exists n. cbn. rewrite length_replicate. split_and!; [lia|done..].
    + cbn. intros i s k [-> _]%lookup_replicate [v Hv]. by rewrite lookup_empty in Hv.
  - unfold map_abs. cbn. induction (Z.to_nat (2 ^ n)) as [|j IH]; cbn; [done|].
    by rewrite IH, (left_id ∅ (∪)).
Qed.

(** Zero is not a power of two, but it passes the test of [New]; the first
    call on such a map indexes an empty array. *)
Lemma New_zero (hash : K -> Z) k :
  exists m, New (V:=V) 0 hash = Ok m /\ map_Get zero m k = Err EIndex.
Proof. eexists. split; [reflexivity|]. reflexivity. Qed.
End refinement_theorems.

Lemma map_refines_single_map_witness :
  let m : Map nat nat := MkMap [∅; ∅] 1 Z.of_nat in
  let c := MkChans 0 ∅ in
  refines_op (map_Set m c 3 7) (shard_Set (map_abs m) c 3 7 true).
Proof.
  intros m c. apply (map_refines_single_map 0 m c 3 7). split.
  - intros k. apply Zle_0_nat.
  - exists 1%Z. done.
  - intros [|[|[|i]]] s k Hs [v Hv]; try done; injection Hs as <-; by rewrite lookup_empty in Hv.
Defined.


(** ** Concurrent calls and the error map *)

(** A value of an [ErrMap]: a Go error, or a value. *)
Record errV (V E : Type) := MkErrV { ev_Err : option E; ev_Val : V }.
Arguments MkErrV {V E}.
Arguments ev_Err {V E}.
Arguments ev_Val {V E}.

(** How the function a caller passes to [GetOrSet] ends. *)
Inductive outcome (V E : Type) :=
  | Returns (v : V) (e : option E)
  | Panics (e : E).
Arguments Returns {V E}.
Arguments Panics {V E}.

Section errmap.
Context `{Countable K} {V E : Type} (zero : V).
Abbreviation ev := (errV V E).
Abbreviation entries := (gmap K (awaitableValue ev)).

Definition zero_ev : ev := MkErrV None zero.

(** The calls: [CWrite] is [Add], [Set] and [SetError]; [ctx] is the error of a
    cancelled context for [GetOrSetCtx], [None] for [GetOrSet]. *)
Inductive call :=
  | CGetOrWait (k : K)
  | CWrite (k : K) (v : ev) (overwrite : bool)
  | CGetOrSet (k : K) (f : outcome V E) (ctx : option E).

Definition err_Add (k : K) (v : V) : call := CWrite k (MkErrV None v) false.
Definition err_Set (k : K) (v : V) : call := CWrite k (MkErrV None v) true.
Definition err_SetError (k : K) (e : E) : call := CWrite k (MkErrV (Some e) zero) true.

Definition err_Get (m : entries) (k : K) : V * option E :=
  let v := shard_Get zero_ev m k in (ev_Val v, ev_Err v).

(** [Range] skips the keys whose value is an error. *)
Definition err_Range (m : entries) : list (K * V) :=
  omap (fun kv => match ev_Err kv.2 with Some _ => None | None => Some (kv.1, ev_Val kv.2) end)
    (shard_Range m).

(** What a call returned; [ran] marks the caller that ran the function. *)
Inductive ret :=
  | RWait (k : K) (r : ev * option nat * bool)
  | RWrote (k : K) (added : bool)
  | RValue (k : K) (ran : bool) (r : V * option E)
  | RPanicked (k : K) (r : V * option E)
  | RCancelled (k : K) (r : V * option E).

(** Where a goroutine is in its call: before its first critical section,
    between the two of [GetOrWait], running the function of [GetOrSet] outside
    any lock, or blocked on a channel. *)
Inductive pc :=
  | Start (c : call)
  | Inserting (c : call)
  | Running (k : K) (f : outcome V E)
  | Waiting (k : K) (ch : nat) (ctx : option E)
  | Done (r : ret).

(** What [GetOrWait] and [GetOrSet] do with the entry they found or made. *)
Definition dispatch (c : call) (r : ev * option nat * bool) : pc :=
  let '(v, wait, first) := r in
  match c with
  | CGetOrWait k => Done (RWait k r)
  | CWrite k _ _ => Done (RWrote k false)
  | CGetOrSet k f ctx =>
      match ev_Err v with
      | Some e => Done (RValue k false (ev_Val v, Some e))
      | None =>
          if first then Running k f
          else match wait with
               | Some ch => Waiting k ch ctx
               | None => Done (RValue k false (ev_Val v, None))
               end
      end
  end.

Definition call_key (c : call) : K :=
  match c with CGetOrWait k | CWrite k _ _ | CGetOrSet k _ _ => k end.

(** The value the first caller stores.  A panic is recovered and stored as an
    error; the results being unnamed, the caller itself gets their zero values. *)
Definition outcome_ev (f : outcome V E) : ev :=
  match f with Returns v e => MkErrV e v | Panics e => MkErrV (Some e) zero end.

Definition outcome_ret (k : K) (f : outcome V E) : ret :=
  match f with Returns v e => RValue k true (v, e) | Panics _ => RPanicked k (zero, None) end.

Record cstate := MkState {
  cs_map : entries;
  cs_chans : chans;
  cs_pcs : gmap nat pc;
}.

(** One critical section, or one unlocked action, of goroutine [t]. *)
Inductive step : cstate -> cstate -> Prop :=
  | step_hit m c p t cl r :
      p !! t = Some (Start cl) -> (forall k v ow, cl <> CWrite k v ow) ->
      shard_Probe m (call_key cl) = Some r ->
      step (MkState m c p) (MkState m c (<[t := dispatch cl r]> p))
  | step_miss m c p t cl :
      p !! t = Some (Start cl) -> (forall k v ow, cl <> CWrite k v ow) ->
      shard_Probe m (call_key cl) = None ->
      step (MkState m c p) (MkState m c (<[t := Inserting cl]> p))
  | step_insert m c p t cl r m' c' :
      p !! t = Some (Inserting cl) ->
      shard_Insert zero_ev m c (call_key cl) = (r, m', c') ->
      step (MkState m c p) (MkState m' c' (<[t := dispatch cl r]> p))
  | step_write m c p t k v ow b m' c' :
      p !! t = Some (Start (CWrite k v ow)) -> shard_Set m c k v ow = Ok (b, m', c') ->
      step (MkState m c p) (MkState m' c' (<[t := Done (RWrote k b)]> p))
  | step_finish m c p t k f b m' c' :
      p !! t = Some (Running k f) -> shard_Set m c k (outcome_ev f) true = Ok (b, m', c') ->
      step (MkState m c p) (MkState m' c' (<[t := Done (outcome_ret k f)]> p))
  | step_wake m c p t k ch ctx :
      p !! t = Some (Waiting k ch ctx) -> ch ∈ closed c ->
      step (MkState m c p) (MkState m c (<[t := Done (RValue k false (err_Get m k))]> p))
  | step_cancel m c p t k ch e :
      p !! t = Some (Waiting k ch (Some e)) ->
      step (MkState m c p) (MkState m c (<[t := Done (RCancelled k (zero, Some e))]> p)).

(** Any number of goroutines about to make one call each, on an empty map. *)
Definition initial (s : cstate) : Prop :=
  cs_map s = ∅ /\ cs_chans s = MkChans 0 ∅ /\
  forall t q, cs_pcs s !! t = Some q -> exists c, q = Start c.

Definition reachable (s : cstate) : Prop := exists s0, initial s0 /\ rtc step s0 s.

(** The channel a goroutine was given for a key, and whether it was the first. *)
Definition holds (q : pc) (k : K) (ch : nat) : Prop :=
  match q with
  | Waiting k' ch' _ => k' = k /\ ch' = ch
  | Done (RWait k' (_, Some ch', _)) => k' = k /\ ch' = ch
  | _ => False
  end.

Definition is_first (q : pc) (k : K) : Prop :=
  match q with
  | Running k' _ => k' = k
  | Done (RWait k' (_, _, true)) | Done (RValue k' true _) | Done (RPanicked k' _) => k' = k
  | _ => False
  end.

(** Whoever must still provide the value of a pending entry. *)
Definition owner (q : pc) (k : K) : Prop :=
  match q with
  | Running k' _ | Done (RWait k' (_, _, true)) => k' = k
  | _ => False
  end.

(** The entry of a key whose value has arrived. *)
Definition settled (m : entries) (k : K) (v : ev) : Prop := m !! k = Some (AV v None).

Record inv (s : cstate) : Prop := {
  (* a pending entry holds the zero value and an open channel of its own *)
  inv_pending : forall k v ch, cs_map s !! k = Some (AV v (Some ch)) ->
    v = zero_ev /\ ch < next_ch (cs_chans s) /\ ch ∉ closed (cs_chans s);
  inv_distinct : forall k k' v v' ch, cs_map s !! k = Some (AV v (Some ch)) ->
    cs_map s !! k' = Some (AV v' (Some ch)) -> k = k';
  inv_closed : forall ch, ch ∈ closed (cs_chans s) -> ch < next_ch (cs_chans s);
  (* no waiter is missed: its channel is the entry's, or the value is there and it is closed *)
  inv_holds : forall t q k ch, cs_pcs s !! t = Some q -> holds q k ch ->
    cs_map s !! k = Some (AV zero_ev (Some ch))
    \/ (ch ∈ closed (cs_chans s) /\ exists v, settled (cs_map s) k v);
  (* whoever is first for a key has made its entry *)
  inv_first : forall t q k, cs_pcs s !! t = Some q -> is_first q k -> is_Some (cs_map s !! k);
  inv_first_unique : forall t t' q q' k, cs_pcs s !! t = Some q -> cs_pcs s !! t' = Some q' ->
    is_first q k -> is_first q' k -> t = t';
  (* a pending entry has a caller that was told it is the first *)
  inv_owner : forall k v ch, cs_map s !! k = Some (AV v (Some ch)) ->
    exists t q, cs_pcs s !! t = Some q /\ owner q k;
}.

Lemma shard_Set_cases m c k (v : ev) ow b m' c' :
  shard_Set m c k v ow = Ok (b, m', c') ->
  (m' = m /\ c' = c /\ exists v0, settled m k v0)
  \/ (m' = <[k := AV v None]> m /\ c' = c /\ (m !! k = None \/ exists v0, settled m k v0))
  \/ (exists v0 ch, m' = <[k := AV v None]> m /\ m !! k = Some (AV v0 (Some ch))
        /\ c' = MkChans (next_ch c) ({[ch]} ∪ closed c)).
Proof.
  unfold shard_Set, settled. destruct (m !! k) as [[v0 [ch|]]|] eqn:Hk; cbn.
  - unfold close_chan. case_decide; cbn; [done|]. intros [= _ <- <-]. right; right. eauto.
  - destruct ow; cbn; intros [= _ <- <-]; eauto 10.
  - intros [= _ <- <-]. right; left. eauto.
Qed.

(** The channels closed by writing to a key: the pending entry's, if any. *)
Definition closes (m : entries) (k : K) (ch : nat) : Prop :=
  exists v, m !! k = Some (AV v (Some ch)).

Lemma inv_settle m c p k v cl :
  inv (MkState m c p) ->
  (forall ch, ch ∈ cl <-> ch ∈ closed c \/ closes m k ch) ->
  inv (MkState (<[k := AV v None]> m) (MkChans (next_ch c) cl) p).
Proof.
  intros [Hp Hd Hc Hh Hf Hu Ho] Hcl; cbn in *.
  assert (forall k' v' ch, <[k := AV v None]> m !! k' = Some (AV v' (Some ch)) ->
    k <> k' /\ m !! k' = Some (AV v' (Some ch))) as Hpend.
  { intros k' v' ch. rewrite lookup_insert. case_decide; naive_solver. }
  split; cbn; unfold settled in *.
  - intros k' v' ch [Hne Hk']%Hpend. destruct (Hp _ _ _ Hk') as (-> & ? & ?).
    split_and!; [done..|]. rewrite Hcl. intros [?|[v0 Hv0]]; [done|].
    by apply Hne, (Hd _ _ _ _ _ Hv0 Hk').
  - intros k1 k2 v1 v2 ch [_ H1]%Hpend [_ H2]%Hpend. eauto.
  - intros ch [Hch|[v0 Hv0]]%Hcl; [eauto|]. by destruct (Hp _ _ _ Hv0) as (_ & ? & _).
  - intros t q k' ch Ht Hq. rewrite Hcl. destruct (decide (k = k')) as [<-|Hne].
    + right. split; [|exists v; by rewrite lookup_insert_eq].
      destruct (Hh t q k ch Ht Hq) as [?|[? _]]; [right; by eexists|by left].
    + rewrite !lookup_insert_ne by done. destruct (Hh t q k' ch Ht Hq) as [?|[? ?]]; eauto.
  - intros t q k' Ht Hq. rewrite lookup_insert. case_decide; eauto.
  - done.
  - intros k' v' ch [_ Hk']%Hpend. eauto.
Qed.

(** Writing keeps every promise made: a pending entry's channel is closed. *)
Lemma inv_write m c p k v ow b m' c' :
  inv (MkState m c p) -> shard_Set m c k v ow = Ok (b, m', c') -> inv (MkState m' c' p).
Proof.
  intros Hinv Hs.
  apply shard_Set_cases in Hs as [(-> & -> & _)|[(-> & -> & Hk)|(v0 & ch & -> & Hk & ->)]]; [done| |].
  - destruct c as [n cl]. apply (inv_settle _ _ _ _ _ cl Hinv). intros ch. cbn.
    split; [by left|]. intros [?|[v0 Hv0]]; [done|]. unfold settled in Hk. naive_solver.
  - apply (inv_settle _ _ _ _ _ _ Hinv). intros ch'. cbn.
    rewrite elem_of_union, elem_of_singleton. unfold closes. rewrite Hk. naive_solver.
Qed.

(** No write ever closes a closed channel, so no write panics. *)
Lemma inv_write_ok m c p k v ow :
  inv (MkState m c p) -> exists b m' c', shard_Set m c k v ow = Ok (b, m', c').
Proof.
  intros Hinv. unfold shard_Set. destruct (m !! k) as [[v0 [ch|]]|] eqn:Hk; cbn; [|destruct ow; eauto..].
  destruct (inv_pending _ Hinv k v0 ch Hk) as (_ & _ & Hch). unfold close_chan.
  rewrite decide_False by done. cbn. eauto.
Qed.

(** A goroutine moves on, keeping the map. *)
Lemma inv_pc m c p t q q' :
  inv (MkState m c p) -> p !! t = Some q ->
  (forall k ch, holds q' k ch -> holds q k ch \/ m !! k = Some (AV zero_ev (Some ch))
     \/ (ch ∈ closed c /\ exists v, settled m k v)) ->
  (forall k, is_first q' k -> is_first q k) ->
  (forall k v ch, owner q k -> m !! k = Some (AV v (Some ch)) -> owner q' k) ->
  inv (MkState m c (<[t := q']> p)).
Proof.
  intros [Hp Hd Hc Hh Hf Hu Ho] Ht Hhold Hfirst Hown; cbn in *. split; cbn; try done.
  - intros t' q0 k ch. rewrite lookup_insert. case_decide as Heq; [intros [= <-] Hq0|eauto].
    destruct (Hhold k ch Hq0) as [?|?]; eauto.
  - intros t' q0 k. rewrite lookup_insert. case_decide; [intros [= <-] Hq0|]; eauto.
  - intros t1 t2 q1 q2 k. rewrite !lookup_insert.
    repeat case_decide; intros; simplify_eq; eauto.
  - intros k v ch Hk. destruct (Ho k v ch Hk) as (t' & q0 & Ht' & Hq0).
    destruct (decide (t = t')) as [<-|Hne].
    + simplify_eq. exists t, q'. rewrite lookup_insert_eq. eauto.
    + exists t', q0. by rewrite lookup_insert_ne.
Qed.

(** The first caller makes the pending entry and a fresh channel for it. *)
Lemma inv_new m c p t q q' k :
  inv (MkState m c p) -> p !! t = Some q -> m !! k = None ->
  (forall k, ~ owner q k) ->
  (forall k' ch, holds q' k' ch -> k' = k /\ ch = next_ch c) ->
  (forall k', is_first q' k' -> k' = k) -> owner q' k ->
  inv (MkState (<[k := AV zero_ev (Some (next_ch c))]> m) (MkChans (S (next_ch c)) (closed c))
         (<[t := q']> p)).
Proof.
  intros [Hp Hd Hc Hh Hf Hu Ho] Ht Hk Hq Hhold Hfirst Hown; cbn in *.
  assert (forall k' v ch, m !! k' = Some (AV v (Some ch)) -> ch <> next_ch c) as Hfresh.
  { intros k' v ch Hk'. destruct (Hp _ _ _ Hk') as (_ & ? & _). lia. }
  split; cbn; unfold settled in *.
  - intros k' v ch. rewrite lookup_insert. case_decide as Hkk.
    + intros [= <- <-]. split_and!; [done|lia|]. intros Hcl%Hc. lia.
    + intros Hk'. destruct (Hp _ _ _ Hk') as (-> & ? & ?). split_and!; [done|lia|done].
  - intros k1 k2 v1 v2 ch. rewrite !lookup_insert. repeat case_decide; subst; naive_solver.
  - intros ch Hch%Hc. lia.
  - intros t' q0 k' ch. rewrite !lookup_insert. case_decide as Htt.
    + intros [= <-] Hq0. destruct (Hhold _ _ Hq0) as [-> ->]. left. by rewrite decide_True.
    + intros Ht' Hq0. destruct (Hh t' q0 k' ch Ht' Hq0) as [Hk'|[? [v Hk']]];
        rewrite decide_False by congruence; eauto.
  - intros t' q0 k'. rewrite !lookup_insert. case_decide as Htt.
    + intros [= <-] ->%Hfirst. by rewrite decide_True.
    + case_decide; eauto.
  - assert (forall t' q0 k', p !! t' = Some q0 -> is_first q0 k' -> k' <> k) as Hold.
    { intros t' q0 k' Ht' Hq0 ->. destruct (Hf t' q0 k Ht' Hq0) as [? ?]. congruence. }
    intros t1 t2 q1 q2 k'. rewrite !lookup_insert.
    repeat case_decide; intros ? ? Hf1 Hf2; simplify_eq; eauto.
    + apply Hfirst in Hf1 as ->. by edestruct Hold.
    + apply Hfirst in Hf2 as ->. by edestruct Hold.
  - intros k' v ch. rewrite lookup_insert. case_decide as Hkk.
    + intros [= <- <-]. subst. exists t, q'. by rewrite lookup_insert_eq.
    + intros Hk'. destruct (Ho _ _ _ Hk') as (t' & q0 & Ht' & Hq0). exists t', q0.
      rewrite lookup_insert_ne; [done|]. intros <-. simplify_eq. by edestruct Hq.
Qed.

Lemma dispatch_hit_first (e : awaitableValue ev) (cl : call) k :
  is_first (dispatch cl (Val e, Wait e, false)) k -> False.
Proof.
  destruct cl as [k0|k0 v ow|k0 f ctx]; cbn; [tauto..|].
  destruct (ev_Err (Val e)), (Wait e); cbn; tauto.
Qed.

Lemma dispatch_hit_holds (m : entries) (e : awaitableValue ev) (cl : call) k ch :
  m !! call_key cl = Some e ->
  (forall v ch, m !! call_key cl = Some (AV v (Some ch)) -> v = zero_ev) ->
  holds (dispatch cl (Val e, Wait e, false)) k ch -> m !! k = Some (AV zero_ev (Some ch)).
Proof.
  intros He Hz Hh. assert (Wait e = Some ch /\ k = call_key cl) as [Hw ->].
  { destruct cl as [k0|k0 v ow|k0 f ctx]; cbn in *.
    - destruct (Wait e); naive_solver.
    - done.
    - destruct (ev_Err (Val e)), (Wait e); cbn in *; naive_solver. }
  destruct e as [v [ch'|]]; [|done]. injection Hw as ->. by rewrite He, (Hz v ch He).
Qed.

Lemma inv_dispatch m c p t q cl e :
  inv (MkState m c p) -> p !! t = Some q -> (forall k, ~ owner q k) ->
  (forall k v ow, cl <> CWrite k v ow) -> m !! call_key cl = Some e ->
  inv (MkState m c (<[t := dispatch cl (Val e, Wait e, false)]> p)).
Proof.
  intros Hinv Ht Hq Hcl He. apply (inv_pc _ _ _ _ q); [done..| | |].
  - intros k ch Hh. right; left. apply (dispatch_hit_holds m e cl k ch He); [|done].
    intros v ch' Hv. by destruct (inv_pending _ Hinv _ _ _ Hv).
  - intros k Hk. by destruct (dispatch_hit_first e cl k Hk).
  - intros k v ch Hk. by destruct (Hq k).
Qed.

(** A miss is only ever recorded for a call that is not a write. *)
Definition inserting_ok (s : cstate) : Prop :=
  forall t cl, cs_pcs s !! t = Some (Inserting cl) -> forall k v ow, cl <> CWrite k v ow.

Lemma dispatch_not_inserting (c : call) r cl : dispatch c r <> Inserting cl.
Proof. destruct r as [[[[e|] v] [w|]] []], c; done. Qed.

Lemma inserting_ok_step s s' : step s s' -> inserting_ok s -> inserting_ok s'.
Proof.
  unfold inserting_ok. intros Hs Hok. destruct Hs; cbn in *; intros t' cl'; rewrite lookup_insert;
    case_decide; eauto; intros [= Heq]; simplify_eq; eauto; by destruct (dispatch_not_inserting _ _ _ Heq).
Qed.

Lemma inv_step s s' : step s s' -> inserting_ok s -> inv s -> inv s'.
Proof.
  intros Hs Hok Hinv. destruct Hs as [m c p t cl r Ht Hcl Hr|m c p t cl Ht Hcl Hr
    |m c p t cl r m' c' Ht Hr|m c p t k v ow b m' c' Ht Hr|m c p t k f b m' c' Ht Hr
    |m c p t k ch ctx Ht Hch|m c p t k ch e Ht].
  - unfold shard_Probe in Hr. apply fmap_Some in Hr as (e & He & ->).
    by apply (inv_dispatch _ _ _ _ (Start cl)); try (intros ? []).
  - by apply (inv_pc _ _ _ _ (Start cl)); try (intros; exfalso; tauto).
  - pose proof (Hok t cl Ht) as Hcl. unfold shard_Insert in Hr.
    destruct (m !! call_key cl) as [e|] eqn:He.
    + injection Hr as <- <- <-. by apply (inv_dispatch _ _ _ _ (Inserting cl)); try (intros ? []).
    + injection Hr as <- <- <-. destruct cl as [k|k v ow|k f ctx]; cbn in *.
      * by apply (inv_new _ _ _ _ (Inserting (CGetOrWait k))); naive_solver.
      * by destruct (Hcl k v ow).
      * by apply (inv_new _ _ _ _ (Inserting (CGetOrSet k f ctx))); naive_solver.
  - apply (inv_pc _ _ _ _ (Start (CWrite k v ow))); [by eapply inv_write|done|..]; cbn; tauto.
  - apply (inv_pc _ _ _ _ (Running k f)); [by eapply inv_write|done|..].
    + intros k' ch. unfold outcome_ret. by destruct f.
    + intros k'. unfold outcome_ret. by destruct f.
    + intros k' v ch <- Hk. exfalso. apply shard_Set_cases in Hr.
      destruct Hr as [(-> & _ & v0 & Hs)|[(-> & _)|(? & ? & -> & _)]];
        unfold settled in *; rewrite ?lookup_insert_eq in Hk; congruence.
  - apply (inv_pc _ _ _ _ (Waiting k ch ctx)); cbn; tauto.
  - apply (inv_pc _ _ _ _ (Waiting k ch (Some e))); cbn; tauto.
Qed.

Lemma inv_initial s : initial s -> inv s /\ inserting_ok s.
Proof.
  destruct s as [m c p]. intros (Hm & Hc & Hp). cbn in *. subst. split.
  - split; cbn; try (intros *; rewrite ?lookup_empty; done);
      try (intros; set_solver); intros * Ht; destruct (Hp _ _ Ht) as [cl ->]; done.
  - intros t cl Ht. destruct (Hp _ _ Ht) as [? ?]. done.
Qed.

Lemma inv_reachable s : reachable s -> inv s /\ inserting_ok s.
Proof.
  intros (s0 & H0 & Hs). apply inv_initial in H0.
  induction Hs as [s|s0 s1 s2 Hstep _ IH]; [done|]. destruct H0. apply IH.
  eauto using inv_step, inserting_ok_step.
Qed.

(** C19: no waiter is missed and no channel is closed twice, whatever calls run
    concurrently on an initially empty map: a channel handed out for a key is
    either still the one the next write to that key will close, or it is closed
    and the value is there; and every write can go ahead without a panic. *)
Theorem cmap_no_lost_wakeup s :
  reachable s ->
  (forall t q k ch, cs_pcs s !! t = Some q -> holds q k ch ->
     cs_map s !! k = Some (AV zero_ev (Some ch))
     \/ (ch ∈ closed (cs_chans s) /\ exists v, settled (cs_map s) k v))
  /\ (forall k v, exists m' c', shard_Set (cs_map s) (cs_chans s) k v true = Ok (true, m', c')
       /\ settled m' k v
       /\ forall t q ch, cs_pcs s !! t = Some q -> holds q k ch -> ch ∈ closed c').
Proof.
  intros [Hinv _]%inv_reachable. split; [apply (inv_holds _ Hinv)|].
  intros k v. destruct s as [m c p]. cbn.
  destruct (inv_write_ok m c p k v true Hinv) as (b & m' & c' & Hs).
  pose proof (inv_write _ _ _ _ _ _ _ _ _ Hinv Hs) as Hinv'.
  assert (b = true /\ settled m' k v) as [-> Hset].
  { unfold shard_Set, settled in *. destruct (m !! k) as [[v0 [ch|]]|]; cbn in Hs;
      [destruct (close_chan _ _); cbn in Hs|..]; simplify_eq; by rewrite lookup_insert_eq. }
  exists m', c'. split_and!; [done..|]. intros t q ch Ht Hh.
  destruct (inv_holds _ Hinv' t q k ch Ht Hh) as [Hp|[? _]]; [|done].
  unfold settled in Hset. cbn in Hp. congruence.
Qed.

(** Of all the calls made on a key, at most one is ever told it is the
    first; so at most one runs the function it passed to [GetOrSet]. *)
Theorem cmap_first_unique s t t' q q' k :
  reachable s -> cs_pcs s !! t = Some q -> cs_pcs s !! t' = Some q' ->
  is_first q k -> is_first q' k -> t = t'.
Proof. intros [Hinv _]%inv_reachable. apply (inv_first_unique _ Hinv). Qed.

(** ** [GetOrSet] alone on a key: every caller gets the one computed value *)

Definition no_writes (s : cstate) : Prop :=
  forall t k v ow, cs_pcs s !! t <> Some (Start (CWrite k v ow)).

Record agree (s : cstate) : Prop := {
  ag_nowrites : no_writes s;
  ag_running : forall t k f, cs_pcs s !! t = Some (Running k f) ->
    exists ch, cs_map s !! k = Some (AV zero_ev (Some ch));
  ag_value : forall t k ran r, cs_pcs s !! t = Some (Done (RValue k ran r)) ->
    exists v, settled (cs_map s) k v /\ r = (ev_Val v, ev_Err v);
  ag_panic : forall t k r, cs_pcs s !! t = Some (Done (RPanicked k r)) ->
    exists v, settled (cs_map s) k v /\ r = (zero, None) /\ is_Some (ev_Err v);
}.

(** A goroutine moves on without touching the map. *)
Lemma agree_pc m c p t q' :
  agree (MkState m c p) ->
  match q' with
  | Start (CWrite _ _ _) => False
  | Running k _ => exists ch, m !! k = Some (AV zero_ev (Some ch))
  | Done (RValue k _ r) => exists v, settled m k v /\ r = (ev_Val v, ev_Err v)
  | Done (RPanicked k r) => exists v, settled m k v /\ r = (zero, None) /\ is_Some (ev_Err v)
  | _ => True
  end ->
  agree (MkState m c (<[t := q']> p)).
Proof.
  intros [Hn Hr Hv Hp] Hq. unfold no_writes in *; cbn in *.
  split; unfold no_writes; cbn; intros t'; intros *; rewrite lookup_insert; case_decide; eauto;
    intros [= ->]; eauto.
Qed.

Lemma dispatch_agree m (cl : call) (e : awaitableValue ev) :
  (forall v ch, m !! call_key cl = Some (AV v (Some ch)) -> v = zero_ev) ->
  m !! call_key cl = Some e ->
  match dispatch cl (Val e, Wait e, false) with
  | Start _ | Running _ _ | Done (RPanicked _ _) => False
  | Done (RValue k _ r) => exists v, settled m k v /\ r = (ev_Val v, ev_Err v)
  | _ => True
  end.
Proof.
  intros Hz He. destruct cl as [k|k v ow|k f ctx]; cbn in *; [done..|].
  destruct e as [v [ch|]]; cbn in *.
  - by rewrite (Hz v ch He).
  - destruct v as [[err|] v]; cbn; eexists; (split; [exact He|done]).
Qed.

Lemma settled_insert_ne m k k' v e : m !! k <> Some (AV v None) ->
  settled m k' v -> settled (<[k := e]> m) k' v.
Proof. unfold settled. intros Hk Hk'. rewrite lookup_insert_ne; [done|]. congruence. Qed.

Lemma agree_map m m' c c' p k :
  agree (MkState m c p) ->
  (forall k', k' <> k -> m' !! k' = m !! k') -> (forall v, ~ settled m k v) ->
  (forall t f, p !! t <> Some (Running k f)) -> agree (MkState m' c' p).
Proof.
  intros [Hn Hr Hv Hp] Hm Hs Hrun. split; cbn in *; [done| | |].
  - intros t k' f Ht. rewrite Hm by (intros ->; by destruct (Hrun t f)). eauto.
  - intros t k' ran r Ht. destruct (Hv _ _ _ _ Ht) as (v & Hk & ->). exists v. split; [|done].
    unfold settled in *. rewrite Hm; [done|]. intros ->. by destruct (Hs v).
  - intros t k' r Ht. destruct (Hp _ _ _ Ht) as (v & Hk & ?). exists v. split; [|done].
    unfold settled in *. rewrite Hm; [done|]. intros ->. by destruct (Hs v).
Qed.

Lemma agree_step s s' : step s s' -> inserting_ok s -> inv s -> agree s -> agree s'.
Proof.
  intros Hs Hok Hinv Hag. destruct Hs as [m c p t cl r Ht Hcl Hr|m c p t cl Ht Hcl Hr
    |m c p t cl r m' c' Ht Hr|m c p t k v ow b m' c' Ht Hr|m c p t k f b m' c' Ht Hr
    |m c p t k ch ctx Ht Hch|m c p t k ch e Ht].
  - unfold shard_Probe in Hr. apply fmap_Some in Hr as (e & He & ->). apply agree_pc; [done|].
    pose proof (dispatch_agree m cl e (fun v ch Hk => proj1 (inv_pending _ Hinv _ v ch Hk)) He).
    destruct (dispatch _ _) as [| | | |[]]; naive_solver.
  - by apply agree_pc.
  - unfold shard_Insert in Hr. destruct (m !! call_key cl) as [e|] eqn:He.
    + injection Hr as <- <- <-. apply agree_pc; [done|].
      pose proof (dispatch_agree m cl e (fun v ch Hk => proj1 (inv_pending _ Hinv _ v ch Hk)) He).
      destruct (dispatch _ _) as [| | | |[]]; naive_solver.
    + injection Hr as <- <- <-. apply agree_pc.
      * apply (agree_map m _ c _ p (call_key cl) Hag).
        -- intros k' Hne. by rewrite lookup_insert_ne.
        -- intros v Hk. unfold settled in Hk. congruence.
        -- intros t' f Ht'. destruct (ag_running _ Hag t' _ f Ht') as [ch Hk]. cbn in Hk. congruence.
      * destruct cl as [k|k v ow|k f ctx]; cbn; [done|by destruct (Hok _ _ Ht k v ow)|].
        rewrite lookup_insert_eq. eauto.
  - by destruct (ag_nowrites _ Hag t k v ow).
  - destruct (ag_running _ Hag t k f Ht) as [ch Hk]. cbn in Hk.
    unfold shard_Set in Hr. rewrite Hk in Hr. cbn in Hr.
    destruct (close_chan ch c) as [c''| |]; cbn in Hr; [|done..]. injection Hr as <- <- <-.
    split; cbn.
    + intros t' k' v ow. cbn. rewrite lookup_insert. case_decide; [by destruct f|].
      apply (ag_nowrites _ Hag).
    + intros t' k' f'. rewrite lookup_insert. case_decide as Htt; [by destruct f|]. intros Ht'.
      rewrite lookup_insert_ne; [by apply (ag_running _ Hag t' k' f')|].
      intros <-. apply Htt. by apply (inv_first_unique _ Hinv t t' _ _ k Ht Ht').
    + intros t' k' ran r. rewrite lookup_insert. case_decide as Htt.
      * destruct f as [v e|e]; intros [= <- <- <-]. exists (MkErrV e v).
        unfold settled. by rewrite lookup_insert_eq.
      * intros Ht'. destruct (ag_value _ Hag _ _ _ _ Ht') as (v & Hs & ->). exists v. split; [|done].
        apply settled_insert_ne; [|done]. congruence.
    + intros t' k' r. rewrite lookup_insert. case_decide as Htt.
      * destruct f as [v e|e]; intros [= <- <-]. exists (MkErrV (Some e) zero).
        unfold settled. rewrite lookup_insert_eq. cbn. eauto.
      * intros Ht'. destruct (ag_panic _ Hag _ _ _ Ht') as (v & Hs & ?). exists v. split; [|done].
        apply settled_insert_ne; [|done]. congruence.
  - apply agree_pc; [done|]. cbn.
    destruct (inv_holds _ Hinv t _ k ch Ht (conj eq_refl eq_refl)) as [Hp|[_ [v' Hk]]].
    + by destruct (inv_pending _ Hinv _ _ _ Hp) as (_ & _ & ?).
    + exists v'. split; [done|]. unfold settled, err_Get, shard_Get in *. cbn in *. by rewrite Hk.
  - by apply agree_pc.
Qed.

Lemma agree_reachable s s0 :
  initial s0 -> no_writes s0 -> rtc step s0 s -> agree s /\ inv s /\ inserting_ok s.
Proof.
  intros H0 Hn Hs. pose proof (inv_initial _ H0) as [Hinv Hok].
  assert (agree s0) as Hag.
  { destruct H0 as (_ & _ & Hp). split; [done|..]; intros *; intros [c ?]%Hp; done. }
  clear H0 Hn. induction Hs as [s|s0 s1 s2 Hstep _ IH]; [done|].
  apply IH; eauto using inv_step, inserting_ok_step, agree_step.
Qed.

(** [GetOrSet] computes once and agrees.  If nothing but [GetOrSet] and
    [GetOrWait] is called, then any two calls on a key that returned gave the
    same value and error; one whose own function panicked is the exception: it
    returns the zero value and no error, though an error is what was stored. *)
Theorem GetOrSet_agreement s0 s t t' k ran ran' r r' :
  initial s0 -> no_writes s0 -> rtc step s0 s ->
  cs_pcs s !! t = Some (Done (RValue k ran r)) ->
  (cs_pcs s !! t' = Some (Done (RValue k ran' r')) -> r = r')
  /\ (cs_pcs s !! t' = Some (Done (RPanicked k r')) -> r' = (zero, None) /\ is_Some r.2).
Proof.
  intros H0 Hn Hs Ht. destruct (agree_reachable s s0 H0 Hn Hs) as (Hag & _ & _).
  destruct (ag_value _ Hag _ _ _ _ Ht) as (v & Hk & ->). split.
  - intros Ht'. destruct (ag_value _ Hag _ _ _ _ Ht') as (v' & Hk' & ->).
    unfold settled in *. congruence.
  - intros Ht'. destruct (ag_panic _ Hag _ _ _ Ht') as (v' & Hk' & -> & He).
    unfold settled in *. split; [done|]. by assert (v = v') as -> by congruence.
Qed.

(** Which calls only ever become [GetOrSet]s. *)
Definition gos (q : pc) : Prop :=
  match q with
  | Start (CGetOrSet _ _ _) | Inserting (CGetOrSet _ _ _) | Running _ _ | Waiting _ _ _
  | Done (RValue _ _ _) | Done (RPanicked _ _) | Done (RCancelled _ _) => True
  | _ => False
  end.

Lemma gos_step s s' : step s s' ->
  (forall t q, cs_pcs s !! t = Some q -> gos q) -> forall t q, cs_pcs s' !! t = Some q -> gos q.
Proof.
  intros Hs Hg. assert (forall c r, gos (Start c) -> gos (dispatch c r)) as Hd.
  { intros [k|k v ow|k f ctx] [[u [w|]] []]; cbn; try done; by destruct (ev_Err u). }
  destruct Hs; cbn in *; intros t' q'; rewrite lookup_insert; case_decide; eauto; intros [= <-];
    try (match goal with Ht : _ !! _ = Some _ |- _ => apply Hg in Ht; revert Ht end); cbn; auto.
  - by destruct f.
Qed.

Definition finished (q : pc) : Prop := match q with Done _ => True | _ => False end.

(** no deadlock: as long as some [GetOrSet] has not returned, some
    goroutine can take a step, so waiting for a key never waits for nobody. *)
Theorem GetOrSet_progress s0 s t q :
  initial s0 -> (forall t q, cs_pcs s0 !! t = Some q -> gos q) -> rtc step s0 s ->
  cs_pcs s !! t = Some q -> ~ finished q -> exists s', step s s'.
Proof.
  intros H0 Hg0 Hs Ht Hq.
  assert (no_writes s0) as Hn by (intros t0 k v ow Hw; by apply Hg0 in Hw).
  destruct (agree_reachable s s0 H0 Hn Hs) as (Hag & Hinv & Hok).
  assert (forall t q, cs_pcs s !! t = Some q -> gos q) as Hg.
  { clear -Hg0 Hs. induction Hs; eauto using gos_step. }
  destruct s as [m c p]. cbn in *.
  assert (forall t0 k f, p !! t0 = Some (Running k f) -> exists s', step (MkState m c p) s') as Hrun.
  { intros t0 k f Ht0. destruct (inv_write_ok m c p k (outcome_ev f) true Hinv) as (b & m' & c' & Hw).
    eexists. by eapply step_finish. }
  destruct q as [cl|cl|k f|k ch ctx|r]; [| | | |by destruct Hq].
  - pose proof (Hg t _ Ht) as Hcl.
    assert (forall k v ow, cl <> CWrite k v ow) by (by intros k v ow ->).
    destruct (shard_Probe m (call_key cl)) as [r|] eqn:HP; eexists; [by eapply step_hit|by eapply step_miss].
  - destruct (shard_Insert zero_ev m c (call_key cl)) as [[r m'] c'] eqn:HI.
    eexists. by eapply step_insert.
  - by eapply Hrun.
  - destruct (inv_holds _ Hinv t _ k ch Ht (conj eq_refl eq_refl)) as [Hk|[Hcl _]].
    + destruct (inv_owner _ Hinv _ _ _ Hk) as (t' & q' & Ht' & Ho).
      specialize (Hg t' q' Ht'). destruct q' as [|?|k' f| |[? [[? ?] []]| | | |]]; try done.
      by eapply Hrun.
    + eexists. by eapply step_wake.
Qed.
End errmap.

(** ** Witnesses: two goroutines on one key *)

Definition ex_f0 : outcome nat nat := Returns 9 None.
Definition ex_call0 : call (K:=nat) := CGetOrSet 5 ex_f0 None.
Definition ex_call1 : call (K:=nat) (V:=nat) := CGetOrSet 5 (Panics 1) None.
Definition ex_s0 : cstate (K:=nat) := MkState ∅ (MkChans 0 ∅) {[0 := Start ex_call0; 1 := Start ex_call1]}.

(** The first computes while the second waits on its channel. *)
Definition ex_s1 := MkState (<[5 := AV (zero_ev 0) (Some 0)]> ∅) (MkChans 1 ∅)
  (<[1 := Waiting 5 0 None]> (<[0 := Running 5 ex_f0]> (<[0 := Inserting ex_call0]>
    {[0 := Start ex_call0; 1 := Start ex_call1]}))).

Lemma run_waiting : rtc (step 0) ex_s0 ex_s1.
Proof.
  eapply rtc_l; [by apply (step_miss 0 _ _ _ 0 ex_call0)|].
  eapply rtc_l; [by apply (step_insert 0 _ _ _ 0 ex_call0 (zero_ev 0, Some 0, true))|].
  eapply rtc_l; [|apply rtc_refl].
  by apply (step_hit 0 _ _ _ 1 ex_call1 (zero_ev 0, Some 0, false)).
Defined.

Definition ex_m2 := <[5 := AV (MkErrV (E:=nat) None 9) None]> (cs_map ex_s1).

Definition ex_s2 := MkState ex_m2 (MkChans 1 ({[0]} ∪ ∅))
  (<[1 := Done (RValue 5 false (err_Get 0 ex_m2 5))]>
    (<[0 := Done (RValue 5 true (9, None))]> (cs_pcs ex_s1))).

Lemma run_done : rtc (step 0) ex_s0 ex_s2.
Proof.
  etrans; [exact run_waiting|].
  eapply rtc_l.
  - eapply (step_finish 0 _ _ _ 0 5 ex_f0 true); reflexivity.
  - eapply rtc_l; [|apply rtc_refl].
    by eapply (step_wake 0 _ _ _ 1 5 0 None).
Defined.

Lemma initial_s0 : initial ex_s0.
Proof.
  split_and!; [done..|]. intros t q. cbn. rewrite lookup_insert, lookup_singleton.
  repeat case_decide; intros [= <-]; eauto.
Defined.

Lemma cmap_no_lost_wakeup_witness :
  exists m' c', shard_Set (cs_map ex_s1) (cs_chans ex_s1) 5 (MkErrV None 9) true = Ok (true, m', c')
    /\ settled m' 5 (MkErrV None 9) /\ 0 ∈ closed c'.
Proof.
  destruct (cmap_no_lost_wakeup 0 ex_s1 (ex_intro _ ex_s0 (conj initial_s0 run_waiting))) as [_ Hw].
  destruct (Hw 5 (MkErrV None 9)) as (m' & c' & Hs & Hk & Hcl). exists m', c'.
  split_and!; [done..|]. by apply (Hcl 1 (Waiting 5 0 None) 0).
Defined.

Lemma cmap_first_unique_witness : 0 = 0 /\ is_first (V:=nat) (E:=nat) (Running 5 ex_f0) 5.
Proof.
  split; [|done].
  apply (cmap_first_unique 0 ex_s1 0 0 (Running 5 ex_f0) (Running 5 ex_f0) 5); try done.
  exists ex_s0. split; [apply initial_s0|apply run_waiting].
Defined.

Lemma no_writes_s0 : no_writes ex_s0.
Proof.
  intros t k v ow. cbn. rewrite lookup_insert, lookup_singleton. repeat case_decide; done.
Defined.

Lemma GetOrSet_agreement_witness : (9, @None nat) = err_Get 0 ex_m2 5.
Proof.
  apply (GetOrSet_agreement 0 ex_s0 ex_s2 0 1 5 true false (9, None) (err_Get 0 ex_m2 5));
    [apply initial_s0|apply no_writes_s0|apply run_done|done|done].
Defined.

Lemma GetOrSet_progress_witness : exists s', step 0 ex_s1 s'.
Proof.
  apply (GetOrSet_progress 0 ex_s0 ex_s1 1 (Waiting 5 0 None)); [apply initial_s0| |apply run_waiting|done|].
  - intros t q. cbn. rewrite lookup_insert, lookup_singleton. repeat case_decide; intros [= <-]; done.
  - intros [].
Defined.
