(* ===== verification/Targets.v ===== *)
(** Build targets: [src/core/build_target.go], [src/core/build_input.go] and the
    visibility rule of [src/core/build_label.go].

    A [BuildTarget] is the record of the fields the modelled operations read or
    write; each operation that mutates a target is a function from targets to
    targets.  A Go map that is only ever read through lookups, ranges and
    lengths is a [gmap], nil or not; where the code distinguishes nil the field
    is an option. *)
From S2P Require Import Prelude GoStrings Labels.
From Stdlib Require Import Ascii.

(** ** Inputs *)

Inductive BuildInput :=
  | FileLabel (File Package : string)
  | SubrepoFileLabel (File Package FullPackage : string)
  | SystemFileLabel (Path : string)
  | SystemPathLabel (Name : string) (Path : list string)
  | LabelInput (label : BuildLabel)
  | AnnotatedOutputLabel (label : BuildLabel) (Annotation : string)
  | URLLabel (url : string).

#[export] Instance BuildInput_eq_dec : EqDecision BuildInput.
Proof. solve_decision. Defined.

(** [Label()]: the label an input stands for, if any. *)
Definition input_Label (i : BuildInput) : option BuildLabel :=
  match i with LabelInput l | AnnotatedOutputLabel l _ => Some l | _ => None end.

Definition nonOutputLabel (i : BuildInput) : option BuildLabel :=
  match i with LabelInput l => Some l | _ => None end.

Definition input_String (i : BuildInput) : string :=
  match i with
  | FileLabel f _ | SubrepoFileLabel f _ _ => f
  | SystemFileLabel p => p
  | SystemPathLabel n _ => n
  | LabelInput l => label_String l
  | AnnotatedOutputLabel l a =>
      if decide (a = "") then label_String l else label_String l +:+ "|" +:+ a
  | URLLabel u => u
  end.

(** ** Subrepos: [src/core/subrepo.go]

    The target that fetches a subrepo is given by its label, the architecture by
    its printed form; the build state of the subrepo is left out. *)

Record SubrepoInfo := MkSubrepo {
  sub_Name : string;
  sub_Root : string;
  sub_PackageRoot : string;
  sub_Target : option BuildLabel;
  sub_Arch : string;
  IsCrossCompile : bool;
}.

#[export] Instance SubrepoInfo_eq_dec : EqDecision SubrepoInfo.
Proof. solve_decision. Defined.

Definition IsExternal (s : option SubrepoInfo) : bool :=
  match s with Some s => bool_decide (is_Some (sub_Target s)) | None => false end.

Definition subrepo_Equal (s other : SubrepoInfo) : bool := bool_decide (s = other).

Definition SubrepoArchName (subrepo arch : string) : string := subrepo +:+ "@" +:+ arch.

Definition LabelToArch (label : BuildLabel) (arch : string) : BuildLabel :=
  if decide (Subrepo label = "") then MkBuildLabel (PackageName label) (Name label) arch
  else if has_suffix (Subrepo label) arch then label
  else MkBuildLabel (PackageName label) (Name label) (SubrepoArchName (Subrepo label) arch).

Definition subrepo_Dir (s : SubrepoInfo) (dir : string) : string := path_join [sub_Root s; dir].

Lemma LabelToArch_idempotent l arch : LabelToArch (LabelToArch l arch) arch = LabelToArch l arch.
Proof.
  assert (forall r, has_suffix (r +:+ arch) arch = true) as Hs by (intros; apply has_suffix_app).
  unfold LabelToArch at 2 3. case_decide as He.
  - unfold LabelToArch; cbn. case_decide; [done|]. by rewrite (Hs "" : has_suffix arch arch = true).
  - destruct (has_suffix (Subrepo l) arch) eqn:E; unfold LabelToArch; cbn.
    + by rewrite decide_False, E by done.
    + rewrite decide_False by (by destruct (Subrepo l)). unfold SubrepoArchName at 1.
      by rewrite <- str_app_assoc, Hs.
Qed.

(** [NewFileLabel]: [subrepo] is the package's subrepo. *)
Definition NewFileLabel (src pkgName : string) (subrepo : option SubrepoInfo) : BuildInput :=
  let src := trim_right src "/" in
  match subrepo with
  | Some s =>
      SubrepoFileLabel src (path_join [sub_PackageRoot s; pkgName]) (subrepo_Dir s pkgName)
  | None => FileLabel src pkgName
  end.

(** ** Targets *)

Record DeclaredDependency := MkDep {
  dep_Label : BuildLabel;
  dep_Exported : bool;
  dep_Internal : bool;
  dep_Runtime : bool;
  dep_Source : bool;
  dep_Data : bool;
}.

(** The states of a target, in the order of their numbers. *)
Inductive BuildTargetState :=
  | Inactive | Building | Stopped | Built | Cached | Unchanged | Reused
  | BuiltRemotely | ReusedRemotely | Failed.

#[export] Instance BuildTargetState_eq_dec : EqDecision BuildTargetState.
Proof. solve_decision. Defined.

Definition state_number (s : BuildTargetState) : nat :=
  match s with
  | Inactive => 0 | Building => 1 | Stopped => 2 | Built => 3 | Cached => 4 | Unchanged => 5
  | Reused => 6 | BuiltRemotely => 7 | ReusedRemotely => 8 | Failed => 9
  end.

Definition IsBuilt (s : BuildTargetState) : bool :=
  (state_number Built <=? state_number s) && (state_number s <? state_number Failed).

Record TestFields := MkTest {
  test_Command : string;
  test_Commands : option (gmap string string);
  test_tools : list BuildInput;
  test_namedTools : gmap string (list BuildInput);
  test_Outputs : list string;
  NoOutput : bool;
  NoCoverage : bool;
  test_Sandbox : bool;
  ArgsPlaceholder : string;
  (* in nanoseconds *)
  test_Timeout : Z;
  (* 8 bits *)
  Flakiness : Z;
}.

Record DebugFields := MkDebug {
  debug_data : list BuildInput;
  debug_namedData : gmap string (list BuildInput);
  debug_tools : list BuildInput;
  debug_namedTools : gmap string (list BuildInput);
  debug_Command : string;
}.

Record BuildTarget := MkTarget {
  Label : BuildLabel;
  (* the package root of the target's subrepo, when it is in one *)
  target_Subrepo : option SubrepoInfo;
  dependencies : list DeclaredDependency;
  runtimeDependencies : list BuildLabel;
  RuntimeDependenciesFromSources : bool;
  RuntimeDependenciesFromDependencies : bool;
  Visibility : list BuildLabel;
  Sources : list BuildInput;
  NamedSources : gmap string (list BuildInput);
  Data : list BuildInput;
  NamedData : gmap string (list BuildInput);
  outputs : list string;
  namedOutputs : gmap string (list string);
  OptionalOutputs : list string;
  target_Labels : list string;
  Command : string;
  Commands : option (gmap string string);
  target_Test : option TestFields;
  Debug : option DebugFields;
  Hashes : list string;
  Licences : list string;
  Secrets : list string;
  NamedSecrets : gmap string (list string);
  Requires : list string;
  Provides : gmap string (list BuildLabel);
  Tools : list BuildInput;
  namedTools : gmap string (list BuildInput);
  OutputDirectories : list string;
  EntryPoints : gmap string string;
  target_state : BuildTargetState;
  completedRuns : Z;
  IsBinary : bool;
  IsSubrepo : bool;
  TestOnly : bool;
  IsFilegroup : bool;
  Sandbox : bool;
  NeedsTransitiveDependencies : bool;
  OutputIsComplete : bool;
  Stamp : bool;
  IsTextFile : bool;
  FileContent : string;
  IsRemoteFile : bool;
  Local : bool;
  SrcListFiles : bool;
  ExitOnError : bool;
  (* whether there are such functions *)
  PreBuildFunction : bool;
  PostBuildFunction : bool;
  PassEnv : option (list string);
  Env : gmap string string;
  (* empty until it is computed *)
  target_RuleHash : string;
  BuildingDescription : string;
  (* in nanoseconds *)
  BuildTimeout : Z;
  showProgress : bool;
  (* set by the callbacks of targets *)
  target_AddedPostBuild : bool;
  ModifiedByCallback : bool;
}.

Definition target_eta (t : BuildTarget) : BuildTarget :=
  MkTarget (Label t) (target_Subrepo t) (dependencies t) (runtimeDependencies t)
    (RuntimeDependenciesFromSources t) (RuntimeDependenciesFromDependencies t) (Visibility t)
    (Sources t) (NamedSources t) (Data t) (NamedData t) (outputs t) (namedOutputs t)
    (OptionalOutputs t) (target_Labels t) (Command t) (Commands t) (target_Test t) (Debug t)
    (Hashes t) (Licences t) (Secrets t) (NamedSecrets t) (Requires t) (Provides t) (Tools t)
    (namedTools t) (OutputDirectories t) (EntryPoints t) (target_state t) (completedRuns t)
    (IsBinary t) (IsSubrepo t) (TestOnly t) (IsFilegroup t) (Sandbox t) (NeedsTransitiveDependencies t)
    (OutputIsComplete t) (Stamp t) (IsTextFile t) (FileContent t) (IsRemoteFile t) (Local t) (SrcListFiles t)
    (ExitOnError t) (PreBuildFunction t) (PostBuildFunction t) (PassEnv t) (Env t) (target_RuleHash t)
    (BuildingDescription t) (BuildTimeout t) (showProgress t) (target_AddedPostBuild t) (ModifiedByCallback t).

(** [update_field proj eta] is the function that applies [f] to one field. *)
Ltac update_field proj eta :=
  let body := eval unfold eta in eta in
  match eval pattern proj in body with
  | ?k _ => exact (fun f r => k (fun r => f (proj r)) r)
  end.

Definition upd_dependencies : (list DeclaredDependency -> list DeclaredDependency) -> BuildTarget -> BuildTarget :=
  ltac:(update_field dependencies target_eta).
Definition upd_runtimeDependencies : (list BuildLabel -> list BuildLabel) -> BuildTarget -> BuildTarget :=
  ltac:(update_field runtimeDependencies target_eta).
Definition upd_Sources : (list BuildInput -> list BuildInput) -> BuildTarget -> BuildTarget :=
  ltac:(update_field Sources target_eta).
Definition upd_NamedSources : (gmap string (list BuildInput) -> _) -> BuildTarget -> BuildTarget :=
  ltac:(update_field NamedSources target_eta).
Definition upd_Data : (list BuildInput -> list BuildInput) -> BuildTarget -> BuildTarget :=
  ltac:(update_field Data target_eta).
Definition upd_NamedData : (gmap string (list BuildInput) -> _) -> BuildTarget -> BuildTarget :=
  ltac:(update_field NamedData target_eta).
Definition upd_outputs : (list string -> list string) -> BuildTarget -> BuildTarget :=
  ltac:(update_field outputs target_eta).
Definition upd_namedOutputs : (gmap string (list string) -> _) -> BuildTarget -> BuildTarget :=
  ltac:(update_field namedOutputs target_eta).
Definition upd_OptionalOutputs : (list string -> list string) -> BuildTarget -> BuildTarget :=
  ltac:(update_field OptionalOutputs target_eta).
Definition upd_Labels : (list string -> list string) -> BuildTarget -> BuildTarget :=
  ltac:(update_field target_Labels target_eta).
Definition upd_Commands : (option (gmap string string) -> _) -> BuildTarget -> BuildTarget :=
  ltac:(update_field Commands target_eta).
Definition upd_Test : (option TestFields -> option TestFields) -> BuildTarget -> BuildTarget :=
  ltac:(update_field target_Test target_eta).
Definition upd_Debug : (option DebugFields -> option DebugFields) -> BuildTarget -> BuildTarget :=
  ltac:(update_field Debug target_eta).
Definition upd_Hashes : (list string -> list string) -> BuildTarget -> BuildTarget :=
  ltac:(update_field Hashes target_eta).
Definition upd_Licences : (list string -> list string) -> BuildTarget -> BuildTarget :=
  ltac:(update_field Licences target_eta).
Definition upd_Secrets : (list string -> list string) -> BuildTarget -> BuildTarget :=
  ltac:(update_field Secrets target_eta).
Definition upd_NamedSecrets : (gmap string (list string) -> _) -> BuildTarget -> BuildTarget :=
  ltac:(update_field NamedSecrets target_eta).
Definition upd_Requires : (list string -> list string) -> BuildTarget -> BuildTarget :=
  ltac:(update_field Requires target_eta).
Definition upd_Provides : (gmap string (list BuildLabel) -> _) -> BuildTarget -> BuildTarget :=
  ltac:(update_field Provides target_eta).
Definition upd_Tools : (list BuildInput -> list BuildInput) -> BuildTarget -> BuildTarget :=
  ltac:(update_field Tools target_eta).
Definition upd_namedTools : (gmap string (list BuildInput) -> _) -> BuildTarget -> BuildTarget :=
  ltac:(update_field namedTools target_eta).
Definition upd_OutputDirectories : (list string -> list string) -> BuildTarget -> BuildTarget :=
  ltac:(update_field OutputDirectories target_eta).
Definition upd_EntryPoints : (gmap string string -> _) -> BuildTarget -> BuildTarget :=
  ltac:(update_field EntryPoints target_eta).
Definition upd_state : (BuildTargetState -> BuildTargetState) -> BuildTarget -> BuildTarget :=
  ltac:(update_field target_state target_eta).
Definition upd_completedRuns : (Z -> Z) -> BuildTarget -> BuildTarget :=
  ltac:(update_field completedRuns target_eta).
Definition upd_IsBinary : (bool -> bool) -> BuildTarget -> BuildTarget :=
  ltac:(update_field IsBinary target_eta).
Definition upd_IsFilegroup : (bool -> bool) -> BuildTarget -> BuildTarget :=
  ltac:(update_field IsFilegroup target_eta).
Definition upd_RuleHash : (string -> string) -> BuildTarget -> BuildTarget :=
  ltac:(update_field target_RuleHash target_eta).
Definition upd_Subrepo : (option SubrepoInfo -> option SubrepoInfo) -> BuildTarget -> BuildTarget :=
  ltac:(update_field target_Subrepo target_eta).
Definition upd_IsSubrepo : (bool -> bool) -> BuildTarget -> BuildTarget :=
  ltac:(update_field IsSubrepo target_eta).
Definition upd_NeedsTransitiveDependencies : (bool -> bool) -> BuildTarget -> BuildTarget :=
  ltac:(update_field NeedsTransitiveDependencies target_eta).
Definition upd_OutputIsComplete : (bool -> bool) -> BuildTarget -> BuildTarget :=
  ltac:(update_field OutputIsComplete target_eta).
Definition upd_Sandbox : (bool -> bool) -> BuildTarget -> BuildTarget :=
  ltac:(update_field Sandbox target_eta).
Definition upd_TestOnly : (bool -> bool) -> BuildTarget -> BuildTarget :=
  ltac:(update_field TestOnly target_eta).
Definition upd_showProgress : (bool -> bool) -> BuildTarget -> BuildTarget :=
  ltac:(update_field showProgress target_eta).
Definition upd_IsRemoteFile : (bool -> bool) -> BuildTarget -> BuildTarget :=
  ltac:(update_field IsRemoteFile target_eta).
Definition upd_IsTextFile : (bool -> bool) -> BuildTarget -> BuildTarget :=
  ltac:(update_field IsTextFile target_eta).
Definition upd_FileContent : (string -> string) -> BuildTarget -> BuildTarget :=
  ltac:(update_field FileContent target_eta).
Definition upd_Local : (bool -> bool) -> BuildTarget -> BuildTarget :=
  ltac:(update_field Local target_eta).
Definition upd_ExitOnError : (bool -> bool) -> BuildTarget -> BuildTarget :=
  ltac:(update_field ExitOnError target_eta).
Definition upd_SrcListFiles : (bool -> bool) -> BuildTarget -> BuildTarget :=
  ltac:(update_field SrcListFiles target_eta).
Definition upd_PassEnv : (option (list string) -> option (list string)) -> BuildTarget -> BuildTarget :=
  ltac:(update_field PassEnv target_eta).
Definition upd_Env : (gmap string string -> gmap string string) -> BuildTarget -> BuildTarget :=
  ltac:(update_field Env target_eta).
Definition upd_BuildTimeout : (Z -> Z) -> BuildTarget -> BuildTarget :=
  ltac:(update_field BuildTimeout target_eta).
Definition upd_Stamp : (bool -> bool) -> BuildTarget -> BuildTarget :=
  ltac:(update_field Stamp target_eta).
Definition upd_BuildingDescription : (string -> string) -> BuildTarget -> BuildTarget :=
  ltac:(update_field BuildingDescription target_eta).
Definition upd_RuntimeDependenciesFromSources : (bool -> bool) -> BuildTarget -> BuildTarget :=
  ltac:(update_field RuntimeDependenciesFromSources target_eta).
Definition upd_RuntimeDependenciesFromDependencies : (bool -> bool) -> BuildTarget -> BuildTarget :=
  ltac:(update_field RuntimeDependenciesFromDependencies target_eta).
Definition upd_Command : (string -> string) -> BuildTarget -> BuildTarget :=
  ltac:(update_field Command target_eta).
Definition upd_Visibility : (list BuildLabel -> list BuildLabel) -> BuildTarget -> BuildTarget :=
  ltac:(update_field Visibility target_eta).
Definition upd_PreBuildFunction : (bool -> bool) -> BuildTarget -> BuildTarget :=
  ltac:(update_field PreBuildFunction target_eta).
Definition upd_PostBuildFunction : (bool -> bool) -> BuildTarget -> BuildTarget :=
  ltac:(update_field PostBuildFunction target_eta).
Definition upd_AddedPostBuild : (bool -> bool) -> BuildTarget -> BuildTarget :=
  ltac:(update_field target_AddedPostBuild target_eta).
Definition upd_ModifiedByCallback : (bool -> bool) -> BuildTarget -> BuildTarget :=
  ltac:(update_field ModifiedByCallback target_eta).

Definition NewBuildTarget (label : BuildLabel) : BuildTarget :=
  MkTarget label None [] [] false false [] [] ∅ [] ∅ [] ∅ [] [] "" None None None [] [] [] ∅ []
    ∅ [] ∅ [] ∅ Inactive 0 false false false false false false false false false "" false false false
    false false false None ∅ "" "Building..." 0 false false false.

Definition target_String (t : BuildTarget) : string := label_String (Label t).

(** ** Combined inputs

    Named groups are visited in the order of their names. *)

Definition str_le (a b : string) : Prop := str_ltb b a = false.

#[export] Instance str_le_dec a b : Decision (str_le a b).
Proof. unfold str_le. apply _. Defined.

Definition sort_strings (l : list string) : list string := merge_sort str_le l.

Definition sorted_keys {A} (m : gmap string A) : list string := sort_strings (map_to_list m).*1.

Definition combinedBuildInputs (unnamed : list BuildInput) (named : gmap string (list BuildInput))
    : list BuildInput :=
  unnamed ++ (sorted_keys named ≫= fun k => default [] (named !! k)).

Definition AllSources (t : BuildTarget) : list BuildInput :=
  combinedBuildInputs (Sources t) (NamedSources t).
Definition AllData (t : BuildTarget) : list BuildInput := combinedBuildInputs (Data t) (NamedData t).
Definition AllTools (t : BuildTarget) : list BuildInput := combinedBuildInputs (Tools t) (namedTools t).
Definition AllDebugData (t : BuildTarget) : list BuildInput :=
  match Debug t with
  | None => []
  | Some d => combinedBuildInputs (debug_data d) (debug_namedData d)
  end.
Definition AllDebugTools (t : BuildTarget) : list BuildInput :=
  match Debug t with
  | None => []
  | Some d => combinedBuildInputs (debug_tools d) (debug_namedTools d)
  end.
(** [AllTestTools] dereferences the test fields, which panics without them. *)
Definition AllTestTools (t : BuildTarget) : res (list BuildInput) :=
  match target_Test t with
  | None => Err (EPanic "nil pointer dereference")
  | Some f => Ok (combinedBuildInputs (test_tools f) (test_namedTools f))
  end.
Definition AllBuildInputs (t : BuildTarget) : list BuildInput :=
  AllSources t ++ AllData t ++ AllTools t.
Definition AllSecrets (t : BuildTarget) : list string :=
  Secrets t ++ (sorted_keys (NamedSecrets t) ≫= fun k => default [] (NamedSecrets t !! k)).

(** ** Declared dependencies *)

Definition IsTest (t : BuildTarget) : bool := bool_decide (is_Some (target_Test t)).

Definition isTool (tool : BuildLabel) (tools : list BuildInput)
    (named : gmap string (list BuildInput)) : bool :=
  existsb (fun i => bool_decide (input_Label i = Some tool)) tools
  || existsb (fun kv : string * list BuildInput =>
       existsb (fun i => bool_decide (input_Label i = Some tool)) kv.2) (map_to_list named).

Definition IsTool (t : BuildTarget) (tool : BuildLabel) : bool :=
  if isTool tool (Tools t) (namedTools t) then true
  else if match target_Test t with
          | Some f => isTool tool (test_tools f) (test_namedTools f) | None => false end then true
  else match Debug t with
       | Some d => isTool tool (debug_tools d) (debug_namedTools d) | None => false end.

Definition dependencyInfo (t : BuildTarget) (label : BuildLabel) : option DeclaredDependency :=
  snd <$> list_find (fun d => dep_Label d = label) (dependencies t).

Definition HasDependency (t : BuildTarget) (label : BuildLabel) : bool :=
  bool_decide (is_Some (dependencyInfo t label)).

Definition IsSourceOnlyDep (t : BuildTarget) (label : BuildLabel) : bool :=
  match dependencyInfo t label with Some info => dep_Source info | None => false end.

(** Mutating the first entry for a label, as a pointer from [dependencyInfo] does. *)
Definition update_dep (label : BuildLabel) (f : DeclaredDependency -> DeclaredDependency)
    (ds : list DeclaredDependency) : list DeclaredDependency :=
  match list_find (fun d => dep_Label d = label) ds with
  | Some (i, _) => alter f i ds
  | None => ds
  end.

Definition AddMaybeExportedDependency (t : BuildTarget) (dep : BuildLabel)
    (exported source internal runtime : bool) : res BuildTarget :=
  if decide (dep = Label t) then Err (EFatal "Attempted to add a target as a dependency of itself")
  else if runtime && negb (IsBinary t) then
    Err (EFatal "output must be marked as binary to have run-time dependencies")
  else
    let t := if runtime then upd_runtimeDependencies (fun l => l ++ [dep]) t else t in
    match dependencyInfo t dep with
    | None => Ok (upd_dependencies (fun ds => ds ++ [MkDep dep exported internal runtime source false]) t)
    | Some _ =>
        Ok (upd_dependencies (update_dep dep (fun info =>
              MkDep (dep_Label info) (dep_Exported info || exported) (dep_Internal info && internal)
                (dep_Runtime info && runtime) (dep_Source info && source) false)) t)
    end.

Definition AddDependency (t : BuildTarget) (dep : BuildLabel) : res BuildTarget :=
  AddMaybeExportedDependency t dep false false false false.

(** What every [Add...] of an input does with the label it stands for. *)
Definition add_input_dep (t : BuildTarget) (i : BuildInput) : res BuildTarget :=
  match input_Label i with Some label => AddDependency t label | None => Ok t end.

Definition mark_data (label : BuildLabel) (t : BuildTarget) : BuildTarget :=
  upd_dependencies (update_dep label (fun info =>
    MkDep (dep_Label info) (dep_Exported info) (dep_Internal info) (dep_Runtime info)
      (dep_Source info) true)) t.

Definition add_data_dep (t : BuildTarget) (i : BuildInput) : res BuildTarget :=
  match input_Label i with
  | Some label => t ← AddDependency t label; Ok (mark_data label t)
  | None => Ok t
  end.

(** [map[name] = append(map[name], x)]. *)
Definition append_named {A} (name : string) (x : A) (m : gmap string (list A)) : gmap string (list A) :=
  <[name := default [] (m !! name) ++ [x]]> m.

(** [source == src] over a slice: Go panics comparing two [SystemPathLabel]s,
    whose paths are a slice. *)
Fixpoint input_seen (source : BuildInput) (sources : list BuildInput) : res bool :=
  match sources with
  | [] => Ok false
  | src :: sources =>
      match source, src with
      | SystemPathLabel _ _, SystemPathLabel _ _ => Err (EPanic "comparing uncomparable type")
      | _, _ => if decide (source = src) then Ok true else input_seen source sources
      end
  end.

Definition addSource (t : BuildTarget) (sources : list BuildInput) (source : BuildInput)
    : res (BuildTarget * list BuildInput) :=
  seen ← input_seen source sources;
  if (seen : bool) then Ok (t, sources)
  else
    t ← match input_Label source with
        | Some label => AddMaybeExportedDependency t label false true false false
        | None => Ok t
        end;
    Ok (t, sources ++ [source]).

Definition AddSource (t : BuildTarget) (source : BuildInput) : res BuildTarget :=
  '(t, srcs) ← addSource t (Sources t) source; Ok (upd_Sources (fun _ => srcs) t).

Definition AddNamedSource (t : BuildTarget) (name : string) (source : BuildInput) : res BuildTarget :=
  '(t, srcs) ← addSource t (default [] (NamedSources t !! name)) source;
  Ok (upd_NamedSources (insert name srcs) t).

Definition addSecret (secrets : list string) (secret : string) : list string :=
  if decide (secret ∈ secrets) then secrets else secrets ++ [secret].

Definition AddSecret (t : BuildTarget) (secret : string) : BuildTarget :=
  upd_Secrets (fun l => addSecret l secret) t.

Definition AddNamedSecret (t : BuildTarget) (name secret : string) : BuildTarget :=
  upd_NamedSecrets (fun m => <[name := addSecret (default [] (m !! name)) secret]> m) t.

Definition AddTool (t : BuildTarget) (tool : BuildInput) : res BuildTarget :=
  add_input_dep (upd_Tools (fun l => l ++ [tool]) t) tool.

Definition AddNamedTool (t : BuildTarget) (name : string) (tool : BuildInput) : res BuildTarget :=
  add_input_dep (upd_namedTools (append_named name tool) t) tool.

Definition upd_test_tools f (x : TestFields) : TestFields :=
  MkTest (test_Command x) (test_Commands x) (f (test_tools x)) (test_namedTools x)
    (test_Outputs x) (NoOutput x) (NoCoverage x) (test_Sandbox x) (ArgsPlaceholder x) (test_Timeout x) (Flakiness x).

Definition upd_test_namedTools f (x : TestFields) : TestFields :=
  MkTest (test_Command x) (test_Commands x) (test_tools x) (f (test_namedTools x))
    (test_Outputs x) (NoOutput x) (NoCoverage x) (test_Sandbox x) (ArgsPlaceholder x) (test_Timeout x) (Flakiness x).

Definition new_TestFields : TestFields := MkTest "" None [] ∅ [] false false false "" 0 0.
Definition new_DebugFields : DebugFields := MkDebug [] ∅ [] ∅ "".

Definition AddTestTool (t : BuildTarget) (tool : BuildInput) : res BuildTarget :=
  match target_Test t with
  | None => Err (EPanic "nil pointer dereference")
  | Some f => add_input_dep (upd_Test (fun _ => Some (upd_test_tools (fun l => l ++ [tool]) f)) t) tool
  end.

Definition AddNamedTestTool (t : BuildTarget) (name : string) (tool : BuildInput) : res BuildTarget :=
  let f := default new_TestFields (target_Test t) in
  add_input_dep (upd_Test (fun _ => Some (upd_test_namedTools (append_named name tool) f)) t) tool.

Definition AddDebugTool (t : BuildTarget) (tool : BuildInput) : res BuildTarget :=
  let d := default new_DebugFields (Debug t) in
  add_input_dep (upd_Debug (fun _ => Some (MkDebug (debug_data d) (debug_namedData d)
    (debug_tools d ++ [tool]) (debug_namedTools d) (debug_Command d))) t) tool.

Definition AddNamedDebugTool (t : BuildTarget) (name : string) (tool : BuildInput) : res BuildTarget :=
  let d := default new_DebugFields (Debug t) in
  add_input_dep (upd_Debug (fun _ => Some (MkDebug (debug_data d) (debug_namedData d)
    (debug_tools d) (append_named name tool (debug_namedTools d)) (debug_Command d))) t) tool.

Definition AddDatum (t : BuildTarget) (datum : BuildInput) : res BuildTarget :=
  add_data_dep (upd_Data (fun l => l ++ [datum]) t) datum.

Definition AddNamedDatum (t : BuildTarget) (name : string) (datum : BuildInput) : res BuildTarget :=
  add_data_dep (upd_NamedData (append_named name datum) t) datum.

Definition AddDebugDatum (t : BuildTarget) (datum : BuildInput) : res BuildTarget :=
  let d := default new_DebugFields (Debug t) in
  add_data_dep (upd_Debug (fun _ => Some (MkDebug (debug_data d ++ [datum]) (debug_namedData d)
    (debug_tools d) (debug_namedTools d) (debug_Command d))) t) datum.

Definition AddDebugNamedDatum (t : BuildTarget) (name : string) (datum : BuildInput) : res BuildTarget :=
  let d := default new_DebugFields (Debug t) in
  add_data_dep (upd_Debug (fun _ => Some (MkDebug (debug_data d)
    (append_named name datum (debug_namedData d)) (debug_tools d) (debug_namedTools d) (debug_Command d))) t) datum.

(** The dependency iterators, as the labels they yield. *)
Definition dep_labels (P : DeclaredDependency -> bool) (t : BuildTarget) : list BuildLabel :=
  dep_Label <$> filter (fun d => Is_true (P d)) (dependencies t).

Definition DeclaredDependencies (t : BuildTarget) : list BuildLabel := dep_labels (fun _ => true) t.
Definition DeclaredDependenciesStrict (t : BuildTarget) : list BuildLabel :=
  dep_labels (fun d => negb (dep_Runtime d) && negb (dep_Exported d) && negb (dep_Source d)
    && negb (IsTool t (dep_Label d))) t.
Definition BuildDependencyLabels (t : BuildTarget) : list BuildLabel :=
  dep_labels (fun d => negb (dep_Runtime d) && negb (dep_Data d)) t.
Definition ExportedDependencies (t : BuildTarget) : list BuildLabel := dep_labels dep_Exported t.
Definition BuildDependencies (t : BuildTarget) : list BuildLabel :=
  dep_labels (fun d => negb (dep_Runtime d) && negb (dep_Data d) && negb (dep_Internal d)
    && negb (dep_Source d)) t.
Definition RuntimeDependencies (t : BuildTarget) : list BuildLabel := dep_labels dep_Runtime t.
Definition RuntimeAndDataDependencies (t : BuildTarget) : list BuildLabel :=
  dep_labels (fun d => dep_Runtime d || dep_Data d) t.

(** [ResolveDependencySubrepo]. *)
Definition ResolveDependencySubrepo (t : BuildTarget) (label : BuildLabel) : BuildLabel * bool :=
  if HasDependency t label then (label, true)
  else if negb (String.eqb (Subrepo (Label t)) "") && String.eqb (Subrepo label) "" then
    let label := MkBuildLabel (PackageName label) (Name label) (Subrepo (Label t)) in
    (label, HasDependency t label)
  else (label, false).

(** ** Require / provide *)

Definition AddProvide (t : BuildTarget) (language : string) (labels : list BuildLabel) : BuildTarget :=
  upd_Provides (insert language labels) t.

Definition isDataFor (t other : BuildTarget) : bool :=
  existsb (fun i => bool_decide (input_Label i = Some (Label t))) (AllData other).

Definition provideFor (t other : BuildTarget) : option (list BuildLabel) :=
  if bool_decide (Requires other = []) then None
  else if isDataFor t other then None
  else if IsTool other (Label t) then None
  else
    match omap (fun require => Provides t !! require) (Requires other) with
    | [] => None
    | found => Some (concat found)
    end.

Definition ProvideFor (t other : BuildTarget) : list BuildLabel :=
  match provideFor t other with Some p => p | None => [Label t] end.

(** ** Labels on targets *)

Definition match_label (pattern s : string) : bool :=
  String.eqb pattern s
  || (has_suffix pattern "*" && has_prefix s (str_take (String.length pattern - 1) pattern)).

Definition HasLabel (t : BuildTarget) (label : string) : bool :=
  existsb (match_label label) (target_Labels t) || (String.eqb label "test" && IsTest t).

Definition AddLabel (t : BuildTarget) (label : string) : BuildTarget :=
  if HasLabel t label then t else upd_Labels (fun l => l ++ [label]) t.

Definition PrefixedLabels (t : BuildTarget) (prefix : string) : list string :=
  str_drop (String.length prefix) <$> filter (fun l => Is_true (has_prefix l prefix)) (target_Labels t).

Definition HasAnyLabel (t : BuildTarget) (labels : list string) : bool := existsb (HasLabel t) labels.
Definition HasAllLabels (t : BuildTarget) (labels : list string) : bool := forallb (HasLabel t) labels.

Definition ShouldInclude (t : BuildTarget) (includes excludes : list string) : bool :=
  if bool_decide (includes = []) && bool_decide (excludes = []) then true
  else
    let shouldInclude :=
      bool_decide (includes = [])
      || existsb (fun i => HasAllLabels t (split_byte "," i)) includes in
    if existsb (fun e => HasAllLabels t (split_byte "," e)) excludes then false else shouldInclude.

Definition AddRequire (t : BuildTarget) (require : string) : BuildTarget :=
  AddLabel (upd_Requires (fun l => l ++ [require]) t) require.

Definition AddHash (t : BuildTarget) (hash : string) : BuildTarget := upd_Hashes (fun l => l ++ [hash]) t.

Definition AddOutputDirectory (t : BuildTarget) (dir : string) : BuildTarget :=
  upd_OutputDirectories (fun l => l ++ [dir]) t.

(** [OutputDirectory.Dir] and [ShouldAddFiles]. *)
Definition trim_suffix (s suffix : string) : string :=
  if has_suffix s suffix then str_take (String.length s - String.length suffix) s else s.

Definition OutputDirectory_Dir (o : string) : string := trim_suffix o "/**".
Definition OutputDirectory_ShouldAddFiles (o : string) : bool := has_suffix o "/**".

(** ** State *)

Definition SetState (s : BuildTargetState) (t : BuildTarget) : BuildTarget := upd_state (fun _ => s) t.

(** [CompleteRun]: a 16-bit counter, and whether this was the last of the runs. *)
Definition CompleteRun (numTestRuns : Z) (t : BuildTarget) : bool * BuildTarget :=
  let runs := ((completedRuns t + 1) mod 2 ^ 16)%Z in
  ((runs =? numTestRuns)%Z, upd_completedRuns (fun _ => runs) t).

(** ** Commands *)

Definition AddCommand (t : BuildTarget) (config command : string) : res BuildTarget :=
  if negb (String.eqb (Command t) "") then
    Err (EPanic "Adding named command to a target that already has a general command set")
  else Ok (upd_Commands (fun m => Some (<[config := command]> (default ∅ m))) t).

Definition GetCommandConfig (t : BuildTarget) (config : string) : string :=
  if decide (config = "") then Command t else default "" (default ∅ (Commands t) !! config).

(** The fallback is the command of the greatest configuration name. *)
Definition highest_command (commands : gmap string string) : string :=
  (foldr (fun (kv : string * string) (acc : string * string) =>
     if str_ltb acc.1 kv.1 then kv else acc) ("", "") (map_to_list commands)).2.

Definition getCommand (config fallbackConfig : string) (commands : option (gmap string string))
    (singleCommand : string) : string :=
  match commands with
  | None => singleCommand
  | Some commands =>
      match commands !! config with
      | Some command => command
      | None =>
          match commands !! fallbackConfig with
          | Some command => command
          | None => highest_command commands
          end
      end
  end.

Definition GetCommand (config fallbackConfig : string) (t : BuildTarget) : string :=
  getCommand config fallbackConfig (Commands t) (Command t).

Definition GetTestCommand (config fallbackConfig : string) (t : BuildTarget) : res string :=
  match target_Test t with
  | None => Err (EPanic "nil pointer dereference")
  | Some f => Ok (getCommand config fallbackConfig (test_Commands f) (test_Command f))
  end.

(** ** Outputs *)

(** [insert], which keeps the slice sorted and without duplicates. *)
Fixpoint insert_sorted (s : string) (sl : list string) : list string :=
  match sl with
  | [] => [s]
  | x :: sl' =>
      if decide (s = x) then sl
      else if str_ltb s x then s :: sl
      else x :: insert_sorted s sl'
  end.

Definition trim_prefix (s prefix : string) : string :=
  if has_prefix s prefix then str_drop (String.length prefix) s else s.

Definition insert_output (sl : list string) (s : string) : res (list string) :=
  if decide (s = "") then Err (EPanic "Cannot add an empty string as an output of a target")
  else Ok (insert_sorted (trim_prefix s "./") sl).

Definition AddOutput (t : BuildTarget) (output : string) : res BuildTarget :=
  outs ← insert_output (outputs t) output; Ok (upd_outputs (fun _ => outs) t).

Definition AddOptionalOutput (t : BuildTarget) (output : string) : res BuildTarget :=
  outs ← insert_output (OptionalOutputs t) output; Ok (upd_OptionalOutputs (fun _ => outs) t).

Definition AddNamedOutput (t : BuildTarget) (name output : string) : res BuildTarget :=
  outs ← insert_output (default [] (namedOutputs t !! name)) output;
  Ok (upd_namedOutputs (insert name outs) t).

Definition AddEntryPoint (t : BuildTarget) (name output : string) : res BuildTarget :=
  if bool_decide (is_Some (namedOutputs t !! name)) then
    Err (EPanic "already has a named output with the entry point's name")
  else if IsFilegroup t && bool_decide (is_Some (NamedSources t !! name)) then
    Err (EPanic "already has a named source with the entry point's name")
  else if bool_decide (is_Some (EntryPoints t !! name)) then
    Err (EPanic "already has an entry point with that name")
  else Ok (upd_EntryPoints (insert name output) t).

Definition tempOutputSuffix : string := ".out".

Definition HasSource (t : BuildTarget) (source : string) : bool :=
  existsb (fun src => String.eqb (input_String src) source
             || has_prefix source (input_String src +:+ "/")) (AllSources t ++ AllData t).

Definition HasAbsoluteSource (t : BuildTarget) (source : string) : bool :=
  HasSource t (trim_prefix source (PackageName (Label t) +:+ "/")).

Definition GetTmpOutput (t : BuildTarget) (parseOutput : string) : string :=
  if IsFilegroup t then parseOutput
  else if String.eqb parseOutput (PackageName (Label t)) then parseOutput +:+ tempOutputSuffix
  else if String.eqb (PackageName (Label t)) "" && HasSource t parseOutput then
    parseOutput +:+ tempOutputSuffix
  else parseOutput.

Definition GetTmpOutputAll (t : BuildTarget) (outs : list string) : list string := GetTmpOutput t <$> outs.

Definition GetRealOutput (t : BuildTarget) (output : string) : string :=
  if has_suffix output tempOutputSuffix then
    let real := trim_suffix output tempOutputSuffix in
    if String.eqb (GetTmpOutput t real) output then real else output
  else output.

(** ** Directories and file names *)

Definition TmpDir : string := "plz-out/tmp".
Definition GenDir : string := "plz-out/gen".
Definition BinDir : string := "plz-out/bin".
Definition SubrepoDir : string := "plz-out/subrepos".

Definition target_TmpDir (t : BuildTarget) : string :=
  path_join [TmpDir; Subrepo (Label t); PackageName (Label t); Name (Label t) +:+ buildDirSuffix].

Definition target_TestDirs (t : BuildTarget) : string :=
  path_join [TmpDir; Subrepo (Label t); PackageName (Label t); Name (Label t) +:+ testDirSuffix].

Definition target_OutDir (t : BuildTarget) : string :=
  path_join [if IsSubrepo t then SubrepoDir else if IsBinary t then BinDir else GenDir;
    Subrepo (Label t); PackageName (Label t)].

Definition target_PackageDir (t : BuildTarget) : string :=
  match target_Subrepo t with
  | Some s => path_join [sub_PackageRoot s; PackageDir (Label t)]
  | None => PackageDir (Label t)
  end.

(** ** Visibility *)

Section visibility.
(** The state's experimental labels. *)
Variable experimentalLabels : list BuildLabel.

Definition isExperimental (label : BuildLabel) : bool :=
  if negb (String.eqb (Subrepo label) "") then false
  else existsb (fun exp => Includes exp label) experimentalLabels.

Definition CanSee (label : BuildLabel) (dep : BuildTarget) : bool :=
  if String.eqb (PackageName label) (PackageName (Label dep)) then true
  else if isExperimental (Label dep) && negb (isExperimental label) then false
  else
    let parent := Parent label in
    if existsb (fun vis => Includes vis parent) (Visibility dep) then true
    else if String.eqb (PackageName (Label dep)) (PackageName parent) then true
    else isExperimental label.

Inductive vis_error :=
  | DependencyNotDefined (dep : BuildLabel)
  | DependencyNotVisible (dep : BuildLabel)
  | DependencyTestOnly (dep : BuildLabel).

(** [CheckDependencyVisibility]: the first error among the declared dependencies. *)
Definition check_dep (targets : gmap BuildLabel BuildTarget) (t : BuildTarget)
    (d : DeclaredDependency) : option vis_error :=
  match targets !! dep_Label d with
  | None => Some (DependencyNotDefined (dep_Label d))
  | Some dep =>
      if negb (CanSee (Label t) dep) then Some (DependencyNotVisible (Label dep))
      else if TestOnly dep && negb (IsTest t) && negb (TestOnly t) then
        if isExperimental (Label t) then None else Some (DependencyTestOnly (Label dep))
      else None
  end.

Definition CheckDependencyVisibility (targets : gmap BuildLabel BuildTarget) (t : BuildTarget)
    : option vis_error :=
  head (omap (check_dep targets t) (dependencies t)).
End visibility.

Section licences.
(** [strings.EqualFold]: Unicode case folding. *)
Variable equal_fold : string -> string -> bool.

Inductive licence_error := LicenceRejected (licence : string) | NoLicenceAccepted.

Fixpoint check_licences (reject accept licences : list string) : option (string + licence_error) :=
  match licences with
  | [] => None
  | licence :: licences =>
      if existsb (fun r => equal_fold r licence) reject then Some (inr (LicenceRejected licence))
      else if existsb (fun a => equal_fold a licence) accept then Some (inl licence)
      else check_licences reject accept licences
  end.

Definition CheckLicences (reject accept : list string) (t : BuildTarget) : string + licence_error :=
  match Licences t with
  | [] => inl ""
  | licences =>
      match check_licences reject accept licences with
      | Some r => r
      | None => if bool_decide (accept = []) then inl "" else inr NoLicenceAccepted
      end
  end.
End licences.

(** ** Lemmas: the declared dependencies *)

Definition dep_set (t : BuildTarget) : list BuildLabel := dep_Label <$> dependencies t.

Lemma dependencyInfo_None t l : dependencyInfo t l = None <-> l ∉ dep_set t.
Proof.
  unfold dependencyInfo, dep_set. rewrite fmap_None, list_find_None, Forall_forall.
  rewrite list_elem_of_fmap. naive_solver.
Qed.

Lemma dependencyInfo_is_Some t l : is_Some (dependencyInfo t l) <-> l ∈ dep_set t.
Proof.
  destruct (decide (l ∈ dep_set t)) as [Hl|Hl].
  - split; [done|]. intros _. destruct (dependencyInfo t l) eqn:E; [done|].
    by apply dependencyInfo_None in E.
  - rewrite (proj2 (dependencyInfo_None t l) Hl). split; [by intros []|done].
Qed.

Lemma update_dep_labels l f ds :
  (forall d, dep_Label (f d) = dep_Label d) -> dep_Label <$> update_dep l f ds = dep_Label <$> ds.
Proof.
  intros Hf. unfold update_dep. destruct (list_find _ ds) as [[i d]|]; [|done].
  apply list_eq. intros j. rewrite !list_lookup_fmap, list_lookup_alter. case_decide; [|done].
  subst. destruct (ds !! j); cbn; [|done]. by rewrite Hf.
Qed.

(** Everything [AddMaybeExportedDependency] changes. *)
Lemma AddMaybeExportedDependency_Ok t dep e s i r t' :
  AddMaybeExportedDependency t dep e s i r = Ok t' ->
  dep <> Label t /\ (r = true -> IsBinary t = true)
  /\ exists ds, t' = upd_dependencies (fun _ => ds)
       (if r then upd_runtimeDependencies (fun l => l ++ [dep]) t else t)
     /\ dep_Label <$> ds = if decide (dep ∈ dep_set t) then dep_set t else dep_set t ++ [dep].
Proof.
  unfold AddMaybeExportedDependency. case_decide as Hl; [done|].
  destruct (r && negb (IsBinary t)) eqn:Hr; [done|]. intros H.
  assert (dep_set (if r then upd_runtimeDependencies (fun l => l ++ [dep]) t else t) = dep_set t) as Hds
    by (by destruct r).
  set (t1 := if r then _ else t) in *.
  split_and!; [done|by destruct r, (IsBinary t)|].
  destruct (dependencyInfo t1 dep) as [info|] eqn:Hi; injection H as <-; eexists; (split; [reflexivity|]).
  - rewrite update_dep_labels by done. fold (dep_set t1). rewrite Hds, decide_True; [done|].
    rewrite <- Hds. apply dependencyInfo_is_Some. by eexists.
  - apply dependencyInfo_None in Hi. rewrite Hds in Hi.
    rewrite fmap_app. fold (dep_set t1). by rewrite Hds, decide_False.
Qed.

Lemma elem_of_combined i u n :
  i ∈ combinedBuildInputs u n <-> i ∈ u \/ exists k l, n !! k = Some l /\ i ∈ l.
Proof.
  unfold combinedBuildInputs. rewrite elem_of_app. f_equiv.
  rewrite list_elem_of_bind. split.
  - intros (k & Hi & _). destruct (n !! k) eqn:E; cbn in Hi; [eauto|].
    by apply not_elem_of_nil in Hi.
  - intros (k & l & Hk & Hi). exists k. rewrite Hk. split; [done|].
    unfold sorted_keys, sort_strings. rewrite merge_sort_Permutation.
    apply list_elem_of_fmap. exists (k, l). split; [done|]. by apply elem_of_map_to_list.
Qed.

Lemma elem_of_combined_named i u n name x :
  i ∈ combinedBuildInputs u (append_named name x n) <-> i = x \/ i ∈ combinedBuildInputs u n.
Proof.
  rewrite !elem_of_combined. unfold append_named. setoid_rewrite lookup_insert_Some. split.
  - intros [?|(k & l & [[<- <-]|[? ?]] & Hi)]; [by eauto| |by eauto 10].
    apply elem_of_app in Hi as [Hi|Hi%list_elem_of_singleton]; [|by eauto].
    destruct (n !! name) eqn:E; cbn in Hi; [eauto 10|by apply not_elem_of_nil in Hi].
  - intros [->|[?|(k & l & Hk & Hi)]]; [|by eauto|].
    + right. exists name. eexists. split; [by left|]. set_solver.
    + right. destruct (decide (name = k)) as [->|]; [|by eauto 10].
      exists k. eexists. split; [by left|]. rewrite Hk. set_solver.
Qed.

Lemma elem_of_combined_app i u x n :
  i ∈ combinedBuildInputs (u ++ [x]) n <-> i = x \/ i ∈ combinedBuildInputs u n.
Proof. rewrite !elem_of_combined, elem_of_app, list_elem_of_singleton. tauto. Qed.

Lemma elem_of_combined_nil i : i ∈ combinedBuildInputs [] ∅ <-> False.
Proof.
  rewrite elem_of_combined. setoid_rewrite lookup_empty. split; [|done].
  intros [H%not_elem_of_nil|(? & ? & [=] & _)]; done.
Qed.

Lemma elem_of_combined_one i x n :
  i ∈ combinedBuildInputs [x] n <-> i = x \/ i ∈ combinedBuildInputs [] n.
Proof. apply (elem_of_combined_app i [] x n). Qed.

(** Every input of a target, of whatever kind. *)
Definition test_tool_inputs (t : BuildTarget) : list BuildInput :=
  match target_Test t with
  | None => [] | Some f => combinedBuildInputs (test_tools f) (test_namedTools f) end.

Definition all_inputs (t : BuildTarget) : list BuildInput :=
  AllBuildInputs t ++ test_tool_inputs t ++ AllDebugData t ++ AllDebugTools t.

(** ** The invariant of the declared dependencies *)

Record deps_wf (t : BuildTarget) : Prop := {
  wf_nodup : NoDup (dep_set t);
  wf_self : Label t ∉ dep_set t;
  wf_inputs : forall i l, i ∈ all_inputs t -> input_Label i = Some l -> l ∈ dep_set t;
  wf_runtime : runtimeDependencies t <> [] -> IsBinary t = true;
}.

(** The operations that build a target up. *)
Inductive add_step : BuildTarget -> BuildTarget -> Prop :=
  | add_dep t t' dep e s i r : AddMaybeExportedDependency t dep e s i r = Ok t' -> add_step t t'
  | add_source t t' x : AddSource t x = Ok t' -> add_step t t'
  | add_named_source t t' n x : AddNamedSource t n x = Ok t' -> add_step t t'
  | add_tool t t' x : AddTool t x = Ok t' -> add_step t t'
  | add_named_tool t t' n x : AddNamedTool t n x = Ok t' -> add_step t t'
  | add_test_tool t t' x : AddTestTool t x = Ok t' -> add_step t t'
  | add_named_test_tool t t' n x : AddNamedTestTool t n x = Ok t' -> add_step t t'
  | add_debug_tool t t' x : AddDebugTool t x = Ok t' -> add_step t t'
  | add_named_debug_tool t t' n x : AddNamedDebugTool t n x = Ok t' -> add_step t t'
  | add_datum t t' x : AddDatum t x = Ok t' -> add_step t t'
  | add_named_datum t t' n x : AddNamedDatum t n x = Ok t' -> add_step t t'
  | add_debug_datum t t' x : AddDebugDatum t x = Ok t' -> add_step t t'
  | add_debug_named_datum t t' n x : AddDebugNamedDatum t n x = Ok t' -> add_step t t'.

(** One input joins, and the label it stands for becomes a dependency. *)
Lemma deps_wf_add t u x t' ds :
  deps_wf t -> Label u = Label t -> IsBinary u = IsBinary t -> dep_set u = dep_set t ->
  runtimeDependencies u = runtimeDependencies t ->
  (forall i, i ∈ all_inputs u -> i = x \/ i ∈ all_inputs t) ->
  match input_Label x with
  | Some l => l <> Label t /\
      (dep_Label <$> ds = if decide (l ∈ dep_set t) then dep_set t else dep_set t ++ [l])
  | None => dep_Label <$> ds = dep_set t
  end ->
  t' = upd_dependencies (fun _ => ds) u -> deps_wf t'.
Proof.
  intros [Hnd Hself Hin Hrt] HL HB HD HR HI Hx ->.
  assert (forall l, l ∈ dep_set t -> l ∈ dep_Label <$> ds) as Hmono.
  { destruct (input_Label x) as [l|]; [destruct Hx as [_ ->]|by rewrite Hx].
    case_decide; set_solver. }
  split.
  - change (NoDup (dep_Label <$> ds)). destruct (input_Label x) as [l|]; [|by rewrite Hx].
    destruct Hx as [_ ->]. case_decide; [done|]. apply NoDup_app. split_and!; [done| |apply NoDup_singleton].
    set_solver.
  - change (Label u ∉ dep_Label <$> ds). rewrite HL. destruct (input_Label x) as [l|]; [|by rewrite Hx].
    destruct Hx as [Hne ->]. case_decide; set_solver.
  - intros i l Hi Hl. change (l ∈ dep_Label <$> ds).
    change (i ∈ all_inputs u) in Hi. apply HI in Hi as [->|Hi]; [|by eauto].
    rewrite Hl in Hx. destruct Hx as [_ ->]. case_decide; set_solver.
  - change (runtimeDependencies u <> [] -> IsBinary u = true). by rewrite HR, HB.
Qed.

(** [u] is [t] with the input [x] put somewhere. *)
Record with_input (t u : BuildTarget) (x : BuildInput) : Prop := {
  wi_label : Label u = Label t;
  wi_binary : IsBinary u = IsBinary t;
  wi_deps : dep_set u = dep_set t;
  wi_runtime : runtimeDependencies u = runtimeDependencies t;
  wi_inputs : forall i, i ∈ all_inputs u -> i = x \/ i ∈ all_inputs t;
}.

Lemma add_wf t u x t' e s i :
  deps_wf t -> with_input t u x ->
  match input_Label x with
  | Some label => AddMaybeExportedDependency u label e s i false
  | None => Ok u
  end = Ok t' -> deps_wf t'.
Proof.
  intros Hwf [HL HB HD HR HI] H. destruct (input_Label x) as [l|] eqn:Hx.
  - apply AddMaybeExportedDependency_Ok in H as (Hne & _ & ds & -> & Hds).
    eapply (deps_wf_add t u x _ ds Hwf); try done. rewrite Hx. rewrite HL in Hne.
    split; [done|]. by rewrite Hds, HD.
  - injection H as <-. eapply (deps_wf_add t u x _ (dependencies u) Hwf); try done.
    + by rewrite Hx.
    + by destruct u.
Qed.

Lemma add_input_dep_wf t u x t' :
  deps_wf t -> with_input t u x -> add_input_dep u x = Ok t' -> deps_wf t'.
Proof. apply add_wf. Qed.

Lemma mark_data_wf l t : deps_wf t -> deps_wf (mark_data l t).
Proof.
  assert (dep_set (mark_data l t) = dep_set t) as Hd by (by apply update_dep_labels).
  intros [? ? Hin ?]. split; rewrite ?Hd; try done.
Qed.

Lemma add_data_dep_wf t u x t' :
  deps_wf t -> with_input t u x -> add_data_dep u x = Ok t' -> deps_wf t'.
Proof.
  intros Hwf Hu. unfold add_data_dep. destruct (input_Label x) as [l|] eqn:Hx.
  - intros (t1 & H & [= <-])%bind_Ok. apply mark_data_wf.
    apply (add_wf t u x t1 false false false Hwf Hu). by rewrite Hx.
  - intros [= <-]. apply (add_wf t u x u false false false Hwf Hu). by rewrite Hx.
Qed.

Lemma AddMaybeExportedDependency_wf t dep e s i r t' :
  deps_wf t -> AddMaybeExportedDependency t dep e s i r = Ok t' -> deps_wf t'.
Proof.
  intros Hwf H. pose proof H as H'.
  apply AddMaybeExportedDependency_Ok in H as (Hne & Hb & ds & -> & Hds).
  set (u := upd_dependencies (fun _ => ds) t).
  assert (deps_wf u) as Hu.
  { apply (deps_wf_add t t (LabelInput dep) u ds Hwf); eauto. by cbn. }
  destruct r; [|exact Hu]. destruct Hu as [? ? Hin _]. split; try done. by intros _; apply Hb.
Qed.

Ltac solve_with_input :=
  split; try done; intros i; unfold all_inputs, AllBuildInputs, test_tool_inputs, AllSources, AllData,
    AllTools, AllDebugData, AllDebugTools; cbn -[combinedBuildInputs];
  repeat match goal with
    | |- context [target_Test ?t] => destruct (target_Test t) eqn:?
    | |- context [Debug ?t] => destruct (Debug t) eqn:?
  end; simplify_eq; cbn -[combinedBuildInputs];
  rewrite ?elem_of_app, ?elem_of_combined_named, ?elem_of_combined_app, ?elem_of_combined_one,
    ?elem_of_combined_nil; tauto.

(** The dependency of a source can as well be added after the source. *)
Lemma AddMaybeExportedDependency_Sources f t dep e s i r :
  AddMaybeExportedDependency (upd_Sources f t) dep e s i r
    = upd_Sources f <$> AddMaybeExportedDependency t dep e s i r.
Proof.
  unfold AddMaybeExportedDependency. change (Label (upd_Sources f t)) with (Label t).
  change (IsBinary (upd_Sources f t)) with (IsBinary t). case_decide; [done|].
  destruct (r && negb (IsBinary t)); [done|]. destruct r; unfold dependencyInfo; cbn;
    by destruct (snd <$> list_find _ (dependencies t)).
Qed.

Lemma AddMaybeExportedDependency_NamedSources f t dep e s i r :
  AddMaybeExportedDependency (upd_NamedSources f t) dep e s i r
    = upd_NamedSources f <$> AddMaybeExportedDependency t dep e s i r.
Proof.
  unfold AddMaybeExportedDependency. change (Label (upd_NamedSources f t)) with (Label t).
  change (IsBinary (upd_NamedSources f t)) with (IsBinary t). case_decide; [done|].
  destruct (r && negb (IsBinary t)); [done|]. destruct r; unfold dependencyInfo; cbn;
    by destruct (snd <$> list_find _ (dependencies t)).
Qed.

Lemma addSource_Ok t srcs x t' srcs' :
  addSource t srcs x = Ok (t', srcs') ->
  (t' = t /\ srcs' = srcs) \/
  (srcs' = srcs ++ [x] /\
   match input_Label x with
   | Some label => AddMaybeExportedDependency t label false true false false
   | None => Ok t
   end = Ok t').
Proof.
  unfold addSource. intros (seen & _ & H)%bind_Ok. destruct seen; [injection H as <- <-; by left|].
  apply bind_Ok in H as (t1 & H & [= <- <-]). by right.
Qed.

Lemma AddSource_wf t x t' : deps_wf t -> AddSource t x = Ok t' -> deps_wf t'.
Proof.
  intros Hwf. unfold AddSource. rewrite bind_Ok. intros ([t1 srcs] & H & [= <-]).
  apply addSource_Ok in H as [[-> ->]|[-> H]].
  { by replace (upd_Sources _ t) with t by (by destruct t). }
  apply (add_wf t (upd_Sources (fun _ => Sources t ++ [x]) t) x _ false true false Hwf);
    [solve_with_input|].
  destruct (input_Label x); [|by injection H as <-].
  by rewrite AddMaybeExportedDependency_Sources, H.
Qed.

Lemma AddNamedSource_wf t n x t' : deps_wf t -> AddNamedSource t n x = Ok t' -> deps_wf t'.
Proof.
  intros Hwf. unfold AddNamedSource. rewrite bind_Ok. intros ([t1 srcs] & H & [= <-]).
  apply addSource_Ok in H as [[-> ->]|[-> H]].
  - destruct Hwf as [? ? Hin ?]. split; try done. intros i l Hi. apply Hin. revert Hi.
    unfold all_inputs, AllBuildInputs, AllSources. cbn -[combinedBuildInputs]. rewrite !elem_of_app, !elem_of_combined.
    intros [[[Hi|(k & ls & Hk & Hi)]|?]|?]; [by eauto| |tauto|tauto]. left; left; right.
    apply lookup_insert_Some in Hk as [[<- <-]|[? ?]]; [|by eauto].
    destruct (NamedSources t !! n) eqn:E; cbn in Hi; [by eauto|by apply not_elem_of_nil in Hi].
  - apply (add_wf t (upd_NamedSources (insert n (default [] (NamedSources t !! n) ++ [x])) t)
      x _ false true false Hwf);
      [change (with_input t (upd_NamedSources (append_named n x) t) x); solve_with_input|].
    destruct (input_Label x); [|by injection H as <-].
    by rewrite AddMaybeExportedDependency_NamedSources, H.
Qed.

Lemma add_step_wf t t' : add_step t t' -> deps_wf t -> deps_wf t'.
Proof.
  intros Hs Hwf. destruct Hs as [? ? ? ? ? ? ? H|? ? ? H|? ? ? ? H|? ? ? H|? ? ? ? H|? ? ? H
    |? ? ? ? H|? ? ? H|? ? ? ? H|? ? ? H|? ? ? ? H|? ? ? H|? ? ? ? H].
  - by eapply AddMaybeExportedDependency_wf.
  - by eapply AddSource_wf.
  - by eapply AddNamedSource_wf.
  - eapply add_input_dep_wf; [exact Hwf| |exact H]. solve_with_input.
  - eapply add_input_dep_wf; [exact Hwf| |exact H]. solve_with_input.
  - unfold AddTestTool in H. destruct (target_Test t) as [f|] eqn:Ht; [|done].
    eapply add_input_dep_wf; [exact Hwf| |exact H]. solve_with_input.
  - eapply add_input_dep_wf; [exact Hwf| |exact H]. solve_with_input.
  - eapply add_input_dep_wf; [exact Hwf| |exact H]. solve_with_input.
  - eapply add_input_dep_wf; [exact Hwf| |exact H]. solve_with_input.
  - eapply add_data_dep_wf; [exact Hwf| |exact H]. solve_with_input.
  - eapply add_data_dep_wf; [exact Hwf| |exact H]. solve_with_input.
  - eapply add_data_dep_wf; [exact Hwf| |exact H]. solve_with_input.
  - eapply add_data_dep_wf; [exact Hwf| |exact H]. solve_with_input.
Qed.

(** ** The theorems about building a target up *)

Lemma NewBuildTarget_wf l : deps_wf (NewBuildTarget l).
Proof.
  split; cbn; try done; [apply NoDup_nil_2|apply not_elem_of_nil|].
  intros i l' Hi. unfold all_inputs, AllBuildInputs, AllSources, AllData, AllTools in Hi.
  revert Hi. cbn -[combinedBuildInputs]. rewrite !elem_of_app, !elem_of_combined_nil.
  tauto.
Qed.

(** C38: Whatever dependencies, sources, tools, data and debug inputs are added to a target, and
    in whatever order, its declared dependencies have no duplicates, never include the
    target itself, include the label of every one of its inputs, and run-time
    dependencies only ever appear on a binary. *)
Theorem declared_dependencies_invariant t0 t :
  deps_wf t0 -> rtc add_step t0 t -> deps_wf t.
Proof. intros Hwf Hs. induction Hs; [done|]. eauto using add_step_wf. Qed.

(** A target [//p:t] and two labels it may depend on. *)
Definition example_target : BuildTarget := NewBuildTarget (MkBuildLabel "p" "t" "").
Definition example_dep : BuildLabel := MkBuildLabel "p" "x" "".

Lemma declared_dependencies_invariant_witness :
  exists t, dep_set t = [example_dep] /\ Sources t = [LabelInput example_dep] /\
    Tools t = [LabelInput example_dep] /\ deps_wf t.
Proof.
  destruct (AddSource example_target (LabelInput example_dep)) as [t1| |] eqn:E1; [|by vm_compute in E1..].
  destruct (AddTool t1 (LabelInput example_dep)) as [t2| |] eqn:E2;
    [|injection E1 as <-; by vm_compute in E2..].
  exists t2. pose proof E1 as F1. pose proof E2 as F2. injection F1 as <-. injection F2 as <-.
  split_and!; [done..|]. apply (declared_dependencies_invariant example_target).
  - apply NewBuildTarget_wf.
  - eapply rtc_l; [eapply add_source; exact E1|]. eapply rtc_once, add_tool. exact E2.
Defined.

Lemma list_find_dep_new ds d l :
  l ∉ dep_Label <$> ds -> dep_Label d = l ->
  list_find (fun d => dep_Label d = l) (ds ++ [d]) = Some (length ds, d).
Proof.
  intros Hl Hd. rewrite list_find_app_r; cbn.
  - by rewrite decide_True by done.
  - apply list_find_None, Forall_forall. intros d' Hd' He. apply Hl, list_elem_of_fmap. eauto.
Qed.

Lemma update_dep_new f ds d l :
  l ∉ dep_Label <$> ds -> dep_Label d = l -> update_dep l f (ds ++ [d]) = ds ++ [f d].
Proof.
  intros Hl Hd. unfold update_dep. rewrite (list_find_dep_new ds d l) by done.
  rewrite <- (Nat.add_0_r (length ds)) at 1. by rewrite alter_app_r.
Qed.

Lemma AddDependency_new t l :
  l <> Label t -> l ∉ dep_set t ->
  AddDependency t l = Ok (upd_dependencies (fun ds => ds ++ [MkDep l false false false false false]) t).
Proof.
  intros Hne Hl. unfold AddDependency, AddMaybeExportedDependency. rewrite decide_False by done. cbn.
  by rewrite (proj2 (dependencyInfo_None t l)).
Qed.

Lemma AddDependency_again t l ds d :
  l <> Label t -> l ∉ dep_Label <$> ds -> dep_Label d = l -> dependencies t = ds ++ [d] ->
  exists t', AddDependency t l = Ok t' /\ Tools t' = Tools t /\ namedTools t' = namedTools t /\
    dependencies t' = ds ++ [MkDep l (dep_Exported d) false false false false].
Proof.
  intros Hne Hl Hd Hds. unfold AddDependency, AddMaybeExportedDependency. rewrite decide_False by done.
  unfold dependencyInfo. cbn -[update_dep]. rewrite Hds, (list_find_dep_new ds d l) by done. cbn -[update_dep].
  eexists. split_and!; [done..|]. cbn -[update_dep]. rewrite Hds, update_dep_new by done. cbn.
  by rewrite Hd, orb_false_r, !andb_false_r.
Qed.

Lemma IsTool_last t l ts : Tools t = ts ++ [LabelInput l] -> IsTool t l = true.
Proof.
  intros Ht. unfold IsTool, isTool. rewrite Ht, existsb_app. cbn.
  by rewrite bool_decide_true, orb_true_r by done.
Qed.

Lemma elem_of_BuildDependencyLabels t l :
  l ∈ BuildDependencyLabels t <->
  exists d, d ∈ dependencies t /\ dep_Label d = l /\ dep_Runtime d = false /\ dep_Data d = false.
Proof.
  unfold BuildDependencyLabels, dep_labels. rewrite list_elem_of_fmap. setoid_rewrite list_elem_of_filter.
  split; intros (d & H); exists d; destruct (dep_Runtime d), (dep_Data d); cbn in *; naive_solver.
Qed.

(** The order in which a label is given as a tool and as data decides whether the
    target waits for it to be built: a tool added after the datum is a build
    dependency, the same tool added before the datum is not, although it is still a
    tool of the target. *)
Theorem datum_after_tool_not_built l t :
  l <> Label t -> l ∉ dep_set t ->
  (exists t1 t2, AddDatum t (LabelInput l) = Ok t1 /\ AddTool t1 (LabelInput l) = Ok t2 /\
     IsTool t2 l = true /\ l ∈ BuildDependencyLabels t2) /\
  (exists t1 t2, AddTool t (LabelInput l) = Ok t1 /\ AddDatum t1 (LabelInput l) = Ok t2 /\
     IsTool t2 l = true /\ l ∉ BuildDependencyLabels t2).
Proof.
  intros Hne Hl. pose (d := MkDep l false false false false false). split.
  - unfold AddDatum, add_data_dep. cbn [input_Label].
    rewrite AddDependency_new by done. eexists. unfold AddTool, add_input_dep. cbn [input_Label].
    edestruct (AddDependency_again (upd_Tools (fun l0 => l0 ++ [LabelInput l])%list
      (mark_data l (upd_dependencies (fun ds => ds ++ [d])%list (upd_Data (fun l0 => l0 ++ [LabelInput l])%list t))))
      l (dependencies t) (MkDep l false false false false true)) as (t2 & H2 & HT & _ & Hds); [done..| |].
    { cbn -[update_dep]. by rewrite update_dep_new. }
    exists t2. split_and!; [done|exact H2| |].
    + eapply IsTool_last. exact HT.
    + apply elem_of_BuildDependencyLabels. rewrite Hds. eexists. rewrite elem_of_app, list_elem_of_singleton. eauto.
  - unfold AddTool, add_input_dep. cbn [input_Label]. rewrite AddDependency_new by done. eexists.
    unfold AddDatum, add_data_dep. cbn [input_Label].
    edestruct (AddDependency_again (upd_Data (fun l0 => l0 ++ [LabelInput l])%list
      (upd_dependencies (fun ds => ds ++ [d])%list (upd_Tools (fun l0 => l0 ++ [LabelInput l])%list t)))
      l (dependencies t) d) as (t2 & H2 & HT & _ & Hds); [done..|].
    exists (mark_data l t2). split_and!; [done|subst d; by rewrite H2| |].
    + eapply IsTool_last. exact HT.
    + rewrite elem_of_BuildDependencyLabels. intros (d' & Hd' & Hdl & _ & Hdata).
      cbn -[update_dep] in Hd'. rewrite Hds, update_dep_new in Hd' by done.
      apply elem_of_app in Hd' as [Hd'|Hd'%list_elem_of_singleton]; [|by subst d'].
      apply Hl, list_elem_of_fmap. eauto.
Qed.

Lemma datum_after_tool_not_built_witness :
  (example_dep <> Label example_target /\ example_dep ∉ dep_set example_target) /\
  exists t1 t2, AddTool example_target (LabelInput example_dep) = Ok t1 /\
    AddDatum t1 (LabelInput example_dep) = Ok t2 /\
    IsTool t2 example_dep = true /\ example_dep ∉ BuildDependencyLabels t2.
Proof.
  split; [split; [done|apply not_elem_of_nil]|].
  apply (datum_after_tool_not_built example_dep example_target); [done|apply not_elem_of_nil].
Defined.

(** ** Outputs *)

Definition str_lt (a b : string) : Prop := str_ltb a b = true.

Lemma elem_of_insert_sorted s l x : x ∈ insert_sorted s l <-> x = s \/ x ∈ l.
Proof.
  induction l as [|y l IH]; cbn; [set_solver|]. case_decide; [set_solver|].
  destruct (str_ltb s y); set_solver.
Qed.

Lemma insert_sorted_sorted s l : StronglySorted str_lt l -> StronglySorted str_lt (insert_sorted s l).
Proof.
  induction 1 as [|y l Hl IH Hy]; cbn; [by repeat constructor|].
  case_decide as Hsy; [by constructor|]. destruct (str_ltb s y) eqn:Hlt.
  - constructor; [by constructor|]. constructor; [done|].
    eapply Forall_impl; [exact Hy|]. intros z Hz. eapply str_ltb_trans; [exact Hlt|exact Hz].
  - constructor; [exact IH|]. apply Forall_forall. intros z [->|Hz]%elem_of_insert_sorted.
    + unfold str_lt. rewrite (str_ltb_total y s) by done. by rewrite Hlt.
    + by eapply Forall_forall in Hy.
Qed.

Lemma str_lt_sorted_unique l1 l2 :
  StronglySorted str_lt l1 -> StronglySorted str_lt l2 -> (forall x, x ∈ l1 <-> x ∈ l2) -> l1 = l2.
Proof.
  intros H1. revert l2. induction H1 as [|a l1 H1 IH Ha]; intros l2 H2 He.
  { destruct l2 as [|b l2]; [done|]. exfalso. apply (not_elem_of_nil b), He. set_solver. }
  destruct H2 as [|b l2 H2 Hb]; [exfalso; apply (not_elem_of_nil a), He; set_solver|].
  rewrite Forall_forall in Ha, Hb.
  assert (forall x y : string, str_lt x y -> str_lt y x -> False) as Has.
  { intros x y Hx Hy. pose proof (str_ltb_trans _ _ _ Hx Hy) as Hc. by rewrite str_ltb_irrefl in Hc. }
  assert (a = b) as ->.
  { destruct (decide (a = b)) as [|Hne]; [done|]. exfalso.
    assert (a ∈ l2) as Hal by (assert (a ∈ b :: l2) by (apply He; set_solver); set_solver).
    assert (b ∈ l1) as Hbl by (assert (b ∈ a :: l1) by (apply He; set_solver); set_solver).
    eapply Has; [apply Ha, Hbl|apply Hb, Hal]. }
  f_equal. apply IH; [done|]. intros x. specialize (He x).
  assert (~ str_lt b b) as Hirr by (unfold str_lt; by rewrite str_ltb_irrefl).
  split; intros Hx.
  - assert (x ∈ b :: l2) as [->|?]%elem_of_cons by (apply He; set_solver); [|done].
    by apply Ha in Hx.
  - assert (x ∈ b :: l1) as [->|?]%elem_of_cons by (apply He; set_solver); [|done].
    by apply Hb in Hx.
Qed.

(** Adding a list of outputs one after the other. *)
Fixpoint AddOutputs (t : BuildTarget) (outs : list string) : res BuildTarget :=
  match outs with
  | [] => Ok t
  | o :: outs => t ← AddOutput t o; AddOutputs t outs
  end.

Lemma AddOutputs_spec t outs :
  StronglySorted str_lt (outputs t) -> Forall (fun o => o <> "") outs ->
  exists t', AddOutputs t outs = Ok t' /\ StronglySorted str_lt (outputs t') /\
    t' = upd_outputs (fun _ => outputs t') t /\
    forall x, x ∈ outputs t' <-> x ∈ outputs t \/ x ∈ (fun o => trim_prefix o "./") <$> outs.
Proof.
  intros Hs Ho. revert t Hs. induction Ho as [|o outs Ho _ IH]; intros t Hs.
  { exists t. split_and!; [done..|by destruct t|set_solver]. }
  cbn. unfold AddOutput, insert_output. rewrite decide_False by done. cbn.
  edestruct (IH (upd_outputs (fun _ => insert_sorted (trim_prefix o "./") (outputs t)) t))
    as (t' & -> & Hs' & Ht' & Hx).
  { by apply insert_sorted_sorted. }
  exists t'. split_and!; [done..| |].
  - rewrite Ht' at 1. done.
  - intros x. rewrite Hx. cbn. rewrite elem_of_insert_sorted. set_solver.
Qed.

(** The outputs a target declares are kept sorted, without duplicates and without their
    leading "./": adding non-empty outputs never fails, and two lists with the same
    names in any order leave the very same target. *)
Theorem outputs_canonical l outs outs' :
  Forall (fun o => o <> "") outs -> (forall o, o ∈ outs <-> o ∈ outs') ->
  exists t, AddOutputs (NewBuildTarget l) outs = Ok t /\ AddOutputs (NewBuildTarget l) outs' = Ok t /\
    StronglySorted str_lt (outputs t) /\
    forall x, x ∈ outputs t <-> exists o, o ∈ outs /\ x = trim_prefix o "./".
Proof.
  intros Ho Heq.
  assert (Forall (fun o => o <> "") outs') as Ho'.
  { rewrite Forall_forall in *. intros o H. by apply Ho, Heq. }
  destruct (AddOutputs_spec (NewBuildTarget l) outs) as (t & Ht & Hs & Hu & Hx); [constructor|done|].
  destruct (AddOutputs_spec (NewBuildTarget l) outs') as (t' & Ht' & Hs' & Hu' & Hx'); [constructor|done|].
  exists t. split_and!; [done| |done|].
  - rewrite Ht', Hu, Hu'. assert (outputs t = outputs t') as ->; [|done].
    apply str_lt_sorted_unique; [done..|]. intros x. rewrite Hx, Hx', !list_elem_of_fmap. set_solver.
  - intros x. rewrite Hx, list_elem_of_fmap. set_solver.
Qed.

Lemma outputs_canonical_witness :
  exists t, AddOutputs example_target ["b"; "./a"; "b"]%list = Ok t /\
    AddOutputs example_target ["./a"; "b"]%list = Ok t /\
    StronglySorted str_lt (outputs t) /\
    forall x, x ∈ outputs t <-> exists o, o ∈ ["b"; "./a"; "b"] /\ x = trim_prefix o "./".
Proof.
  apply (outputs_canonical (MkBuildLabel "p" "t" "") ["b"; "./a"; "b"] ["./a"; "b"]).
  - repeat constructor; discriminate.
  - set_solver.
Defined.

Lemma trim_suffix_app r p : trim_suffix (r +:+ p) p = r.
Proof.
  unfold trim_suffix. rewrite has_suffix_app, str_length_app, Nat.add_sub. apply str_take_app.
Qed.

Lemma GetTmpOutput_cases t o : GetTmpOutput t o = o \/ GetTmpOutput t o = o +:+ tempOutputSuffix.
Proof.
  unfold GetTmpOutput. destruct (IsFilegroup t); [by left|].
  destruct (String.eqb o _); [by right|]. destruct (_ && _); [by right|by left].
Qed.

(** [GetRealOutput] undoes some renaming, or changes nothing. *)
Lemma GetRealOutput_cases t x :
  (GetTmpOutput t (GetRealOutput t x) = x /\ x = GetRealOutput t x +:+ tempOutputSuffix) \/
  (GetRealOutput t x = x /\ forall r, GetTmpOutput t r = x -> r = x).
Proof.
  unfold GetRealOutput. destruct (has_suffix x tempOutputSuffix) eqn:Hs.
  - apply has_suffix_spec in Hs as [r ->]. rewrite trim_suffix_app.
    destruct (String.eqb_spec (GetTmpOutput t r) (r +:+ tempOutputSuffix)) as [He|Hne]; [by left|].
    right. split; [done|]. intros r' Hr'. destruct (GetTmpOutput_cases t r') as [He|He]; rewrite Hr' in He.
    + done.
    + exfalso. apply Hne. rewrite <- Hr'. f_equal.
      apply (f_equal (fun s => trim_suffix s tempOutputSuffix)) in He. by rewrite !trim_suffix_app in He.
  - right. split; [done|]. intros r Hr. destruct (GetTmpOutput_cases t r) as [He|He]; [congruence|].
    rewrite Hr in He. subst x. by rewrite He, has_suffix_app in Hs.
Qed.

(** The name an output has in the temporary build directory always leads back to a real
    output that gets that same temporary name; so when no other output of the target shares
    the temporary name of [o], the round trip gives [o] back. *)
Theorem tmp_output_roundtrip t o :
  GetTmpOutput t (GetRealOutput t (GetTmpOutput t o)) = GetTmpOutput t o /\
  ((forall r, GetTmpOutput t r = GetTmpOutput t o -> r = o) -> GetRealOutput t (GetTmpOutput t o) = o).
Proof.
  destruct (GetRealOutput_cases t (GetTmpOutput t o)) as [[He _]|[He Hu]].
  - split; [done|]. intros Hinj. by apply Hinj.
  - rewrite He. assert (GetTmpOutput t o = o) as Ho by (symmetry; by apply Hu). by rewrite !Ho.
Qed.

(** In package [foo], the outputs "foo" and "foo.out" have the same temporary name. *)
Example tmp_output_collision :
  let t := NewBuildTarget (MkBuildLabel "foo" "t" "") in
  GetTmpOutput t "foo" = GetTmpOutput t "foo.out" /\ GetRealOutput t (GetTmpOutput t "foo.out") = "foo".
Proof. by split. Qed.

(** ** Visibility *)

Section visibility_spec.
Variable experimentalLabels : list BuildLabel.
Variable targets : gmap BuildLabel BuildTarget.

(** What the documentation calls a visible dependency. *)
Inductive visible (label : BuildLabel) (dep : BuildTarget) : Prop :=
  | vis_same_package : PackageName label = PackageName (Label dep) -> visible label dep
  | vis_experimental : isExperimental experimentalLabels label = true -> visible label dep
  | vis_declared v : isExperimental experimentalLabels (Label dep) = false ->
      v ∈ Visibility dep -> Includes v (Parent label) = true -> visible label dep.

Lemma PackageName_Parent l : PackageName (Parent l) = PackageName l.
Proof. unfold Parent. repeat case_match; done. Qed.

Lemma CanSee_visible label dep : CanSee experimentalLabels label dep = true <-> visible label dep.
Proof.
  unfold CanSee. destruct (String.eqb_spec (PackageName label) (PackageName (Label dep))) as [He|Hne].
  { split; [|done]. intros _. by apply vis_same_package. }
  destruct (isExperimental experimentalLabels label) eqn:Hx.
  { rewrite andb_false_r. split; [intros _; by apply vis_experimental|]. intros _. by repeat case_match. }
  rewrite andb_true_r. destruct (isExperimental experimentalLabels (Label dep)) eqn:Hd.
  { split; [done|]. intros [?|?|]; congruence. }
  rewrite PackageName_Parent. destruct (existsb _ _) eqn:Hv.
  - split; [|done]. intros _. apply existsb_exists in Hv as (v & Hv & Hi).
    apply (vis_declared _ _ v); [done|by apply list_elem_of_In|done].
  - split.
    + destruct (String.eqb_spec (PackageName (Label dep)) (PackageName label)); congruence.
    + intros [?|?|v _ Hin Hi]; [congruence..|]. exfalso. apply not_true_iff_false in Hv. apply Hv.
      apply existsb_exists. exists v. split; [by apply list_elem_of_In|done].
Qed.

(** Neither the visibility nor the test-only rule is broken by the dependency [l] of [t]. *)
Definition dep_allowed (t : BuildTarget) (l : BuildLabel) : Prop :=
  exists dep, targets !! l = Some dep /\ visible (Label t) dep /\
    (TestOnly dep = true -> IsTest t = true \/ TestOnly t = true \/
       isExperimental experimentalLabels (Label t) = true).

Lemma check_dep_None t d : check_dep experimentalLabels targets t d = None <-> dep_allowed t (dep_Label d).
Proof.
  unfold check_dep, dep_allowed. destruct (targets !! dep_Label d) as [dep|]; [|naive_solver].
  destruct (CanSee experimentalLabels (Label t) dep) eqn:Hc; cbn.
  - apply CanSee_visible in Hc.
    trans (TestOnly dep = true -> IsTest t = true \/ TestOnly t = true \/
      isExperimental experimentalLabels (Label t) = true).
    + destruct (TestOnly dep), (IsTest t), (TestOnly t), (isExperimental _ _); cbn; intuition congruence.
    + split; [eauto|]. by intros (? & [= <-] & _ & H).
  - split; [done|]. intros (? & [= <-] & Hv & _). apply CanSee_visible in Hv. congruence.
Qed.

(** A target's dependencies pass the visibility check exactly when each of them exists, is
    visible - in the same package, or through a declared pattern that includes the target's
    parent rule while the dependency is not experimental, or from experimental code - and is
    not test-only unless the target is a test, test-only or experimental itself; otherwise the
    error names the first declared dependency that fails. *)
Theorem CheckDependencyVisibility_spec t :
  match CheckDependencyVisibility experimentalLabels targets t with
  | None => forall l, l ∈ dep_set t -> dep_allowed t l
  | Some e => exists l1 d l2, dependencies t = l1 ++ d :: l2 /\
      (forall x, x ∈ l1 -> dep_allowed t (dep_Label x)) /\ ~ dep_allowed t (dep_Label d) /\
      check_dep experimentalLabels targets t d = Some e
  end.
Proof.
  unfold CheckDependencyVisibility, dep_set. induction (dependencies t) as [|d ds IH]; cbn.
  { intros l Hl. by apply not_elem_of_nil in Hl. }
  destruct (check_dep _ _ t d) as [e|] eqn:Hd; cbn.
  - exists [], d, ds. split_and!; [done| |by rewrite <- check_dep_None, Hd|done].
    intros x Hx. by apply not_elem_of_nil in Hx.
  - apply check_dep_None in Hd. destruct (head (omap _ ds)) as [e|].
    + destruct IH as (l1 & d' & l2 & -> & H1 & H2 & H3). exists (d :: l1), d', l2.
      split_and!; [done| |done..]. intros x [->|Hx]%elem_of_cons; auto.
    + intros l [->|Hl]%elem_of_cons; auto.
Qed.
End visibility_spec.
