(* ===== verification/Reach.v ===== *)
(** Marking graph traversals, shared by the components that walk the graph.

    Several functions of the program visit a node, return at once if it is
    already marked, and otherwise mark it and visit its successors in turn.
    [visit] is that pattern; the lemmas say that it marks exactly what can be
    reached, whatever the order of the successors, and how much fuel is enough. *)
From S2P Require Import Prelude.

Lemma size_list_to_set_le `{Countable A} (l : list A) : size (list_to_set l : gset A) <= length l.
Proof.
  induction l as [|x l IH]; cbn; [by rewrite size_empty|].
  rewrite size_union_alt, size_singleton.
  assert (size (list_to_set l ∖ {[x]} : gset A) <= size (list_to_set l : gset A))
    by (apply subseteq_size; set_solver). lia.
Qed.

Section reach.
Context {A : Type} `{Countable A} (succ : A -> list A).

Fixpoint visit (fuel : nat) (seen : gset A) (x : A) : res (gset A) :=
  match fuel with
  | O => NoFuel
  | S fuel =>
      if decide (x ∈ seen) then Ok seen
      else foldM (visit fuel) ({[x]} ∪ seen) (succ x)
  end.

Definition edge (x y : A) : Prop := y ∈ succ x.

(** [N] contains everything that can be reached from its members. *)
Definition closed_set (N : gset A) : Prop := forall x y, x ∈ N -> edge x y -> y ∈ N.

Lemma closed_rtc N x y : closed_set N -> x ∈ N -> rtc edge x y -> y ∈ N.
Proof. intros HN Hx. induction 1; eauto. Qed.

(** What one traversal adds to the marks: [x], and with each added node the
    whole of its successors, all of it reachable from [x]. *)
Record visited (seen : gset A) (P : A -> Prop) (seen' : gset A) : Prop := {
  vis_mono : seen ⊆ seen';
  vis_succ : forall y z, y ∈ seen' -> y ∉ seen -> edge y z -> z ∈ seen';
  vis_reach : forall y, y ∈ seen' -> y ∉ seen -> exists x, P x /\ rtc edge x y;
}.

Lemma visited_refl seen P : visited seen P seen.
Proof. split; set_solver. Qed.

Lemma visited_trans s1 s2 s3 P : visited s1 P s2 -> visited s2 P s3 -> visited s1 P s3.
Proof.
  intros [M1 S1 R1] [M2 S2 R2]. split; [set_solver| |].
  - intros y z Hy Hy1 Hyz. destruct (decide (y ∈ s2)); [|by eauto].
    apply M2. by eauto.
  - intros y Hy Hy1. destruct (decide (y ∈ s2)); eauto.
Qed.

Lemma visited_weaken seen P Q seen' :
  (forall x, P x -> Q x) -> visited seen P seen' -> visited seen Q seen'.
Proof. intros HPQ [M S R]. split; [done..|]. intros y Hy Hn. destruct (R y Hy Hn) as (x & ? & ?). eauto. Qed.

Lemma visit_list_spec (f : gset A -> A -> res (gset A)) (N seen : gset A) l :
  (forall (s : gset A) x, x ∈ N -> seen ⊆ s -> exists s', f s x = Ok s' /\ visited s (eq x) s' /\ x ∈ s') ->
  (forall x, x ∈ l -> x ∈ N) ->
  exists s', foldM f seen l = Ok s' /\ visited seen (fun x => x ∈ l) s' /\ forall x, x ∈ l -> x ∈ s'.
Proof.
  intros Hf Hl.
  destruct (foldM_inv f (fun l1 s => visited seen (fun x => x ∈ l) s /\ forall x, x ∈ l1 -> x ∈ s)
    l seen) as (s' & Hs & HI & Hin); [split; [apply visited_refl|set_solver]| |by eauto].
  intros l1 x l2 s -> [HI Hin]. destruct (Hf s x) as (s' & Hs' & Hv & Hx).
  { apply Hl. set_solver. } { apply HI. }
  exists s'. split; [done|]. split.
  - eapply visited_trans; [exact HI|]. eapply visited_weaken; [|exact Hv]. intros ? <-. set_solver.
  - intros y [Hy|Hy%list_elem_of_singleton]%elem_of_app; [|by subst]. apply Hv. auto.
Qed.

Lemma visit_spec N fuel seen x :
  closed_set N -> x ∈ N -> size (N ∖ seen) < fuel ->
  exists seen', visit fuel seen x = Ok seen' /\ visited seen (eq x) seen' /\ x ∈ seen'.
Proof.
  intros HN. revert seen x. induction fuel as [|fuel IH]; intros seen x Hx Hfuel; [lia|].
  cbn. case_decide as Hseen.
  { exists seen. split_and!; [done|apply visited_refl|done]. }
  assert (size (N ∖ ({[x]} ∪ seen)) < size (N ∖ seen)) as Hlt by (apply subset_size; set_solver).
  destruct (visit_list_spec (visit fuel) N ({[x]} ∪ seen) (succ x)) as (s' & Hs & Hv & Hin).
  - intros s y Hy Hsub. apply IH; [done|].
    assert (size (N ∖ s) <= size (N ∖ ({[x]} ∪ seen))) by (apply subseteq_size; set_solver). lia.
  - intros y Hy. by apply (HN x).
  - exists s'. assert (x ∈ s') as Hxs by (apply (vis_mono _ _ _ Hv); set_solver).
    split_and!; [done| |done]. split.
    + pose proof (vis_mono _ _ _ Hv). set_solver.
    + intros y z Hy Hn Hyz. destruct (decide (y = x)) as [->|]; [by apply Hin|].
      apply (vis_succ _ _ _ Hv y); [done|set_solver|done].
    + intros y Hy Hn. exists x. split; [done|]. destruct (decide (y = x)) as [->|]; [done|].
      destruct (vis_reach _ _ _ Hv y) as (z & Hz & Hzy); [done|set_solver|].
      by eapply rtc_l.
Qed.

(** Visiting a list of roots from no marks at all. *)
Lemma visit_roots N fuel roots :
  closed_set N -> (forall x, x ∈ roots -> x ∈ N) -> size N < fuel ->
  exists seen, foldM (visit fuel) ∅ roots = Ok seen /\
    forall y, y ∈ seen <-> exists x, x ∈ roots /\ rtc edge x y.
Proof.
  intros HN Hroots Hfuel.
  destruct (visit_list_spec (visit fuel) N ∅ roots) as (s & Hs & Hv & Hin).
  - intros s x Hx _. apply (visit_spec N); [done..|].
    assert (size (N ∖ s) <= size N) by (apply subseteq_size; set_solver). lia.
  - done.
  - exists s. split; [done|]. intros y. split.
    + intros Hy. by apply (vis_reach _ _ _ Hv y); [|set_solver].
    + intros (x & Hx & Hxy). eapply (closed_rtc s); [|by apply Hin|done].
      intros a b Ha Hab. apply (vis_succ _ _ _ Hv a); [done|set_solver|done].
Qed.

Lemma visit_root N fuel x :
  closed_set N -> x ∈ N -> size N < fuel ->
  exists seen, visit fuel ∅ x = Ok seen /\ forall y, y ∈ seen <-> rtc edge x y.
Proof.
  intros HN Hx Hfuel. destruct (visit_roots N fuel [x]) as (s & Hs & Hiff); [done| |done|].
  { by intros y ->%list_elem_of_singleton. }
  exists s. cbn in Hs. destruct (visit fuel ∅ x); [|done..]. split; [done|].
  intros y. rewrite Hiff. setoid_rewrite list_elem_of_singleton. naive_solver.
Qed.
End reach.

(** The traversal only looks at the successors through the list it is given. *)
Lemma visit_ext {A} `{Countable A} (f g : A -> list A) fuel seen x :
  (forall x, f x = g x) -> visit f fuel seen x = visit g fuel seen x.
Proof.
  intros He. revert seen x. induction fuel as [|fuel IH]; intros seen x; cbn; [done|].
  case_decide; [done|]. rewrite He. apply foldM_ext. intros. apply IH.
Qed.

(** ** Traversals that also emit

    [f] marks a node, emits something for it, and goes on to its successors that are
    not marked yet. *)
Section emit.
Context {A B : Type} `{Countable A} (succ : A -> list A) (emit : A -> list B).
Context (N : gset A) (f : nat -> gset A * list B -> A -> res (gset A * list B)).

Definition visit_new (fuel : nat) (st : gset A * list B) (y : A) : res (gset A * list B) :=
  if decide (y ∈ st.1) then Ok st else f fuel st y.

Context (HN : closed_set succ N).
Context (Hf : forall fuel st x, x ∈ N ->
  f (S fuel) st x = foldM (visit_new fuel) ({[x]} ∪ st.1, st.2 ++ emit x) (succ x)).

(** The state after visiting the nodes [news], in this order. *)
Definition after (st : gset A * list B) (news : list A) : gset A * list B :=
  (list_to_set news ∪ st.1, st.2 ++ (news ≫= emit)).

Lemma after_app st l1 l2 : after (after st l1) l2 = after st (l1 ++ l2).
Proof. unfold after. cbn. rewrite bind_app, app_assoc, list_to_set_app_L. f_equal. set_solver. Qed.

Lemma after_cons st x l : after ({[x]} ∪ st.1, st.2 ++ emit x) l = after st (x :: l).
Proof. unfold after. cbn. rewrite app_assoc. f_equal. set_solver. Qed.

Lemma visit_new_spec fuel st x :
  x ∈ N -> size (N ∖ st.1) < fuel ->
  exists news, visit_new fuel st x = Ok (after st news) /\ NoDup news /\ (forall y, y ∈ news -> y ∉ st.1) /\
    x ∈ (after st news).1 /\ visited succ st.1 (eq x) (after st news).1.
Proof.
  revert st x. induction fuel as [|fuel IH]; intros st x Hx Hfuel; [lia|]. unfold visit_new. case_decide as Hseen.
  { exists []. assert (after st [] = st) as -> by (unfold after; cbn; rewrite app_nil_r, (left_id_L ∅ _); by destruct st).
    split_and!; [done|by constructor|set_solver|done|apply visited_refl]. }
  rewrite Hf by done. set (st1 := ({[x]} ∪ st.1, st.2 ++ emit x)).
  assert (size (N ∖ st1.1) < size (N ∖ st.1)) as Hlt by (apply subset_size; set_solver).
  destruct (foldM_inv (visit_new fuel) (fun l s => exists news, s = after st1 news /\ NoDup news /\
      (forall y, y ∈ news -> y ∉ st1.1) /\ (forall y, y ∈ l -> y ∈ s.1) /\ visited succ st1.1 (fun y => y ∈ succ x) s.1)
    (succ x) st1) as (s' & Hs & news & -> & Hnd & Hnew & Hin & Hv).
  { exists []. assert (after st1 [] = st1) as E by (unfold after; cbn; rewrite app_nil_r, (left_id_L ∅ _); done).
    rewrite E. split_and!; [done|by constructor|set_solver|set_solver|apply visited_refl]. }
  { intros l1 y l2 s Hl (news & -> & Hnd & Hnew & Hin & Hv).
    assert (y ∈ succ x) as Hy by (rewrite Hl; set_solver).
    destruct (IH (after st1 news) y) as (news' & Hs & Hnd' & Hnew' & Hin' & Hv').
    { by apply (HN x). }
    { assert (size (N ∖ (after st1 news).1) <= size (N ∖ st1.1)) by (apply subseteq_size; set_solver). lia. }
    exists (after (after st1 news) news'). split; [done|]. exists (news ++ news'). rewrite after_app.
    rewrite after_app in Hin', Hv'. split_and!; [done| | | |].
    - apply NoDup_app. split_and!; [done| |done]. intros z Hz Hz'. apply (Hnew' z Hz'). cbn. set_solver.
    - intros z [Hz|Hz]%elem_of_app; [auto|]. specialize (Hnew' z Hz). cbn in Hnew'. set_solver.
    - intros z [Hz| ->%list_elem_of_singleton]%elem_of_app; [|done].
      specialize (Hin z Hz). cbn in Hin |- *. rewrite list_to_set_app_L. set_solver.
    - eapply visited_trans; [exact Hv|]. eapply visited_weaken; [|exact Hv']. by intros z <-. }
  exists (x :: news). rewrite <- after_cons. split_and!; [done| | | |].
  - apply NoDup_cons. split; [|done]. intros Hxn. specialize (Hnew x Hxn). cbn in Hnew. set_solver.
  - intros y [->|Hy]%elem_of_cons; [done|]. specialize (Hnew y Hy). cbn in Hnew. set_solver.
  - cbn. set_solver.
  - change (visited succ st.1 (eq x) (after st1 news).1). split.
    + pose proof (vis_mono _ _ _ _ Hv). cbn in *. set_solver.
    + intros y z Hy Hn Hyz. destruct (decide (y = x)) as [->|]; [by apply Hin|].
      apply (vis_succ _ _ _ _ Hv y); [done| |done]. cbn. set_solver.
    + intros y Hy Hn. exists x. split; [done|]. destruct (decide (y = x)) as [->|]; [done|].
      destruct (vis_reach _ _ _ _ Hv y) as (z & Hz & Hzy); [done|cbn; set_solver|]. by eapply rtc_l.
Qed.

(** From one node and no marks: each reachable node is visited once. *)
Lemma visit_emit_root fuel out x :
  x ∈ N -> size N < fuel ->
  exists news, f fuel (∅, out) x = Ok (after (∅, out) news) /\ NoDup news /\ forall y, y ∈ news <-> rtc (edge succ) x y.
Proof.
  intros Hx Hfuel. destruct (visit_new_spec fuel (∅, out) x) as (news & Hs & Hnd & _ & Hin & Hv); [done| |].
  { cbn. assert (size (N ∖ ∅) <= size N) by (apply subseteq_size; set_solver). lia. }
  exists news. unfold visit_new in Hs. rewrite decide_False in Hs by (cbn; set_solver). split_and!; [done..|].
  assert (forall y, y ∈ (after (∅, out) news).1 <-> y ∈ news) as Hn by (intros y; cbn; set_solver).
  intros y. rewrite <- Hn. split.
  - intros Hy. destruct (vis_reach _ _ _ _ Hv y) as (z & <- & Hz); [done|cbn; set_solver|done].
  - intros Hxy. eapply (closed_rtc succ); [|exact Hin|exact Hxy].
    intros a b Ha Hab. apply (vis_succ _ _ _ _ Hv a); [done|cbn; set_solver|done].
Qed.
End emit.

(** ** Recursion along an acyclic relation

    As much fuel as there are nodes is enough. *)
Lemma acyclic_fuel `{Countable A} (R : relation A) (N : gset A) (P : nat -> A -> Prop) :
  (forall x, ~ tc R x x) -> (forall x y, x ∈ N -> R x y -> y ∈ N) ->
  (forall n x, x ∈ N -> (forall y, R x y -> P n y) -> P (S n) x) ->
  forall n x, x ∈ N -> size N < n -> P n x.
Proof.
  intros Hac HN HP.
  assert (forall n p x, x ∈ N -> p ⊆ N -> (forall a, a ∈ p -> tc R a x) -> size (N ∖ p) < n -> P n x) as H0.
  { induction n as [|n IH]; intros p x Hx Hp Htc Hn; [lia|]. apply HP; [done|]. intros y Hxy.
    apply (IH ({[x]} ∪ p)); [by eapply HN|set_solver| |].
    - intros a [->%elem_of_singleton|Ha]%elem_of_union; [by apply tc_once|]. eapply tc_r; [by apply Htc|done].
    - enough (size (N ∖ ({[x]} ∪ p)) < size (N ∖ p)) by lia. apply subset_size.
      assert (x ∉ p) by (intros Hxp; by apply (Hac x), Htc). set_solver. }
  intros n x Hx Hn. apply (H0 n ∅); [done|set_solver|set_solver|].
  assert (size (N ∖ ∅) <= size N) by (apply subseteq_size; set_solver). lia.
Qed.
