(* ===== verification/Graph.v ===== *)
(** The build graph: [src/core/graph.go], [src/core/package.go] and the graph
    walks of [src/core/build_target.go].

    A pointer to a target is modelled by the label the target is registered
    under, and dereferenced by looking the label up; the maps of the graph are
    single awaitable maps (the sharded ones refine these, see [Cmap]).  The order
    in which Go ranges over a map is not specified: the walks that range over one
    take that order as a parameter, and their theorems hold for every order. *)
From S2P Require Import Prelude GoStrings Labels Cmap Targets Reach.

(** ** Sorted labels *)

Definition label_le (a b : BuildLabel) : Prop := label_Less b a = false.

#[export] Instance label_le_dec a b : Decision (label_le a b).
Proof. unfold label_le. apply _. Defined.

#[export] Instance label_le_total : Total label_le.
Proof.
  intros a b. unfold label_le. rewrite !label_Less_Compare, (label_Compare_antisym b a).
  destruct (Z.lt_total (label_Compare a b) 0) as [?|[?|?]];
    [left|left|right]; apply bool_decide_eq_false; lia.
Qed.

#[export] Instance label_le_trans : Transitive label_le.
Proof.
  intros a b c. unfold label_le. intros Hab Hbc. apply not_true_iff_false. intros Hca.
  destruct (decide (b = c)) as [->|Hne]; [congruence|].
  apply not_true_iff_false in Hab. apply Hab. eapply label_Less_trans; [|exact Hca].
  rewrite label_Less_Compare in Hbc |- *. apply bool_decide_eq_false in Hbc.
  apply bool_decide_eq_true. rewrite label_Compare_antisym in Hbc.
  assert (label_Compare b c <> 0%Z) by (by rewrite label_Compare_eq). lia.
Qed.

#[export] Instance label_le_antisymm : AntiSymm (=) label_le.
Proof.
  intros a b. unfold label_le. rewrite !label_Less_Compare, !bool_decide_eq_false,
    (label_Compare_antisym b a). intros. apply label_Compare_eq. lia.
Qed.

Definition sort_labels (l : list BuildLabel) : list BuildLabel := merge_sort label_le l.

Lemma sort_labels_unique l1 l2 : l1 ≡ₚ l2 -> sort_labels l1 = sort_labels l2.
Proof.
  intros Hp. unfold sort_labels.
  apply (StronglySorted_unique label_le); [apply (StronglySorted_merge_sort label_le)..|].
  by rewrite !merge_sort_Permutation.
Qed.

Lemma elem_of_sort_labels x l : x ∈ sort_labels l <-> x ∈ l.
Proof. unfold sort_labels. by rewrite merge_sort_Permutation. Qed.

(** Two enumerations of one set sort to the same slice. *)
Lemma sort_labels_set l1 l2 :
  NoDup l1 -> NoDup l2 -> (forall x, x ∈ l1 <-> x ∈ l2) -> sort_labels l1 = sort_labels l2.
Proof. intros. by apply sort_labels_unique, NoDup_Permutation. Qed.

(** ** Packages *)

Record Package := MkPackage {
  pkg_Name : string;
  SubrepoName : string;
  Filename : string;
  Subincludes : list BuildLabel;
  pkg_Subrepo : option SubrepoInfo;
  pkg_targets : gmap string BuildLabel;
  pkg_Outputs : gmap string BuildLabel;
}.

Definition NewPackage (name subrepo : string) : Package := MkPackage name subrepo "" [] None ∅ ∅.

Definition pkg_Target (pkg : Package) (name : string) : option BuildLabel := pkg_targets pkg !! name.

Definition pkg_AddTarget (pkg : Package) (target : BuildLabel) : Package :=
  MkPackage (pkg_Name pkg) (SubrepoName pkg) (Filename pkg) (Subincludes pkg) (pkg_Subrepo pkg)
    (<[Name target := target]> (pkg_targets pkg)) (pkg_Outputs pkg).

Definition pkg_AllTargets (pkg : Package) : list BuildLabel := (map_to_list (pkg_targets pkg)).*2.

Definition NumTargets (pkg : Package) : nat := size (pkg_targets pkg).

Definition HasSubinclude (pkg : Package) (label : BuildLabel) : bool :=
  existsb (fun l => bool_decide (l = label)) (Subincludes pkg).

Definition RegisterSubinclude (pkg : Package) (label : BuildLabel) : Package :=
  if negb (HasSubinclude pkg label) then
    MkPackage (pkg_Name pkg) (SubrepoName pkg) (Filename pkg) (Subincludes pkg ++ [label])
      (pkg_Subrepo pkg) (pkg_targets pkg) (pkg_Outputs pkg)
  else pkg.

Definition pkg_SubrepoArchName (pkg : Package) (subrepo : string) : string :=
  match pkg_Subrepo pkg with
  | Some s =>
      if negb (String.eqb subrepo "") && IsCrossCompile s
           && negb (String.eqb (SubrepoName pkg) subrepo)
      then SubrepoArchName subrepo (sub_Arch s) else subrepo
  | None => subrepo
  end.

Definition HasOutput (pkg : Package) (output : string) : bool :=
  bool_decide (is_Some (pkg_Outputs pkg !! output)).

(** [RegisterOutput]: [deref] is the target a pointer leads to.  On an error the
    package is left as it was. *)
Definition RegisterOutput (deref : BuildLabel -> BuildTarget) (pkg : Package) (fileName : string)
    (target : BuildLabel) : option Package :=
  let fileName := if IsBinary (deref target) then ":_bin_" +:+ fileName else fileName in
  let clash :=
    match pkg_Outputs pkg !! fileName with
    | Some existing =>
        negb (bool_decide (existing = target))
        && (negb (IsFilegroup (deref target)) || negb (IsFilegroup (deref existing)))
    | None => false
    end in
  if clash then None
  else Some (MkPackage (pkg_Name pkg) (SubrepoName pkg) (Filename pkg) (Subincludes pkg)
    (pkg_Subrepo pkg) (pkg_targets pkg) (<[fileName := target]> (pkg_Outputs pkg))).

Definition AllChildren (pkg : Package) (target : BuildLabel) : list BuildLabel :=
  sort_labels (filter (fun t => Parent t = Parent target) (pkg_AllTargets pkg)).

Definition IsIncludedIn (pkg : Package) (label : BuildLabel) : bool :=
  String.eqb (pkg_Name pkg) (PackageName label)
  || has_prefix (pkg_Name pkg) (PackageName label +:+ "/").

Definition pkg_Label (pkg : Package) : BuildLabel := MkBuildLabel (pkg_Name pkg) "all" (SubrepoName pkg).

(** ** The graph *)

Abbreviation amap K V := (gmap K (awaitableValue V)).

Record BuildGraph := MkGraph {
  g_targets : amap BuildLabel (option BuildTarget);
  g_packages : amap packageKey (errV (option Package) string);
  g_subrepos : amap string (option SubrepoInfo);
  subincludeSubincludes : gmap BuildLabel (gset BuildLabel);
  g_chans : chans;
}.

Definition NewGraph : BuildGraph := MkGraph ∅ ∅ ∅ ∅ (MkChans 0 ∅).

Definition AddTarget (g : BuildGraph) (target : BuildTarget) : res BuildGraph :=
  '(added, ts, c) ← shard_Set (g_targets g) (g_chans g) (Label target) (Some target) false;
  if negb added then Err (EPanic "Attempted to re-add existing target to build graph")
  else Ok (MkGraph ts (g_packages g) (g_subrepos g) (subincludeSubincludes g) c).

Definition AddPackage (g : BuildGraph) (pkg : Package) : res BuildGraph :=
  let key := MkPackageKey (pkg_Name pkg) (SubrepoName pkg) in
  '(added, ps, c) ← shard_Set (g_packages g) (g_chans g) key (MkErrV None (Some pkg)) false;
  if negb added then Err (EPanic "Attempt to re-add existing package")
  else Ok (MkGraph (g_targets g) ps (g_subrepos g) (subincludeSubincludes g) c).

Definition Target (g : BuildGraph) (label : BuildLabel) : option BuildTarget :=
  shard_Get None (g_targets g) label.

Definition TargetOrWait (g : BuildGraph) (label : BuildLabel)
    : option BuildTarget * option nat * BuildGraph :=
  let '((target, ch, _), ts, c) := shard_GetOrWait None (g_targets g) (g_chans g) label in
  (target, ch, MkGraph ts (g_packages g) (g_subrepos g) (subincludeSubincludes g) c).

Definition TargetOrDie (g : BuildGraph) (label : BuildLabel) : res BuildTarget :=
  match Target g label with
  | Some t => Ok t | None => Err (EFatal "Target not found in build graph") end.

Definition graph_Package (g : BuildGraph) (name subrepo : string) : option Package :=
  (err_Get None (g_packages g) (MkPackageKey name subrepo)).1.

Definition PackageByLabel (g : BuildGraph) (label : BuildLabel) : option Package :=
  graph_Package g (PackageName label) (Subrepo label).

Definition PackageOrWait (g : BuildGraph) (label : BuildLabel)
    : (option Package * option nat * bool * option string) * BuildGraph :=
  let '((v, ch, first), ps, c) :=
    shard_GetOrWait (MkErrV None None) (g_packages g) (g_chans g)
      (MkPackageKey (PackageName label) (Subrepo label)) in
  ((ev_Val v, ch, first, ev_Err v),
   MkGraph (g_targets g) ps (g_subrepos g) (subincludeSubincludes g) c).

Definition SetPackage (g : BuildGraph) (label : BuildLabel) (pkg : option Package)
    (err : option string) : res BuildGraph :=
  let key := MkPackageKey (PackageName label) (Subrepo label) in
  let v := match err with Some e => MkErrV (Some e) None | None => MkErrV None pkg end in
  '(_, ps, c) ← shard_Set (g_packages g) (g_chans g) key v true;
  Ok (MkGraph (g_targets g) ps (g_subrepos g) (subincludeSubincludes g) c).

Definition PackageOrDie (g : BuildGraph) (label : BuildLabel) : res Package :=
  match PackageByLabel g label with
  | Some p => Ok p | None => Err (EFatal "Package doesn't exist in graph") end.

Definition graph_Subrepo (g : BuildGraph) (name : string) : option SubrepoInfo :=
  shard_Get None (g_subrepos g) name.

Definition AddSubrepo (g : BuildGraph) (subrepo : SubrepoInfo) : res BuildGraph :=
  '(added, ss, c) ← shard_Set (g_subrepos g) (g_chans g) (sub_Name subrepo) (Some subrepo) false;
  if negb added then Err (EFatal "Subrepo is already registered")
  else Ok (MkGraph (g_targets g) (g_packages g) ss (subincludeSubincludes g) c).

Definition MaybeAddSubrepo (g : BuildGraph) (subrepo : SubrepoInfo) : res (SubrepoInfo * BuildGraph) :=
  '(added, ss, c) ← shard_Set (g_subrepos g) (g_chans g) (sub_Name subrepo) (Some subrepo) false;
  let g := MkGraph (g_targets g) (g_packages g) ss (subincludeSubincludes g) c in
  if negb added then
    match graph_Subrepo g (sub_Name subrepo) with
    | None => Err (EPanic "nil pointer dereference")
    | Some old =>
        if negb (subrepo_Equal old subrepo) then Err (EFatal "Found multiple definitions for subrepo")
        else Ok (old, g)
    end
  else Ok (subrepo, g).

Definition SubrepoOrDie (g : BuildGraph) (name : string) : res SubrepoInfo :=
  match graph_Subrepo g name with
  | Some s => Ok s | None => Err (EFatal "No registered subrepo by the name") end.

Definition SubrepoOrWait (g : BuildGraph) (subrepo : string)
    : option SubrepoInfo * option nat * BuildGraph :=
  let '((s, wait, _), ss, c) := shard_GetOrWait None (g_subrepos g) (g_chans g) subrepo in
  (s, wait, MkGraph (g_targets g) (g_packages g) ss (subincludeSubincludes g) c).

(** The targets of the graph; like [Values] of the map behind it, only those
    that have been added, not those that are only waited for. *)
Definition graph_AllTargets (g : BuildGraph) : list BuildLabel :=
  sort_labels (Label <$> omap id (shard_Values (g_targets g))).

Definition PackageMap (g : BuildGraph) : gmap string (option Package) :=
  list_to_map ((fun kv => (packageKey_String kv.1, kv.2)) <$> err_Range (g_packages g)).

Definition DependentTargets (g : BuildGraph) (from to : BuildLabel) : list BuildLabel :=
  match Target g from, Target g to with
  | Some fromTarget, Some toTarget => ProvideFor toTarget fromTarget
  | _, _ => [to]
  end.

Definition RegisterTransitiveSubinclude (g : BuildGraph) (from to : BuildLabel) : BuildGraph :=
  let incs := default ∅ (subincludeSubincludes g !! from) in
  MkGraph (g_targets g) (g_packages g) (g_subrepos g)
    (<[from := {[to]} ∪ incs]> (subincludeSubincludes g)) (g_chans g).

(** ** Well-formed graphs *)

(** Every entry of the target map is a target under its own label, or a channel
    that somebody waits on. *)
Definition graph_wf (g : BuildGraph) : Prop :=
  forall l v, g_targets g !! l = Some v ->
    match Wait v with
    | None => exists t, Val v = Some t /\ Label t = l
    | Some _ => Val v = None
    end.

Lemma NewGraph_wf : graph_wf NewGraph.
Proof. intros l v Hl. cbn in Hl. by rewrite lookup_empty in Hl. Qed.

Lemma Target_Label g l t : graph_wf g -> Target g l = Some t -> Label t = l.
Proof.
  unfold Target, shard_Get. intros Hwf. destruct (g_targets g !! l) as [v|] eqn:Hl; [|done].
  specialize (Hwf l v Hl). destruct (Wait v); [congruence|]. naive_solver.
Qed.

Lemma elem_of_AllTargets g l : graph_wf g -> l ∈ graph_AllTargets g <-> is_Some (Target g l).
Proof.
  intros Hwf. unfold graph_AllTargets. rewrite elem_of_sort_labels, list_elem_of_fmap.
  setoid_rewrite list_elem_of_omap. unfold shard_Values, shard_Range, Target, shard_Get. split.
  - intros (t & -> & t' & Ht' & Hid). cbn in Hid. subst t'.
    apply list_elem_of_fmap in Ht' as ([k v] & Hv & Hkv). cbn in Hv. subst v.
    apply list_elem_of_omap in Hkv as ([k' v'] & Hin & Hw). cbn in Hw.
    apply elem_of_map_to_list in Hin. destruct (Wait v') eqn:Hwait; [done|]. injection Hw as -> Hval.
    pose proof (Hwf _ _ Hin) as Hv. rewrite Hwait in Hv. destruct Hv as (t0 & Hv0 & <-).
    assert (t0 = t) as -> by congruence. by rewrite Hin, Hv0.
  - intros [t Ht]. destruct (g_targets g !! l) as [v|] eqn:Hl; [|done].
    pose proof (Hwf _ _ Hl) as Hv. destruct (Wait v) as [|] eqn:Hwait; [congruence|].
    destruct Hv as (t' & Hv & <-). exists t'. split; [done|]. exists (Some t'). split; [|done].
    apply list_elem_of_fmap. exists (Label t', Some t'). split; [done|].
    apply list_elem_of_omap. exists (Label t', v). split; [by apply elem_of_map_to_list|].
    cbn. by rewrite Hwait, Hv.
Qed.

Lemma shard_Set_lookup_wf {V} (m : amap BuildLabel V) c k v b m' c' l :
  shard_Set m c k v false = Ok (b, m', c') ->
  m' !! l = m !! l \/ (l = k /\ m' !! l = Some (AV v None)).
Proof.
  unfold shard_Set. destruct (m !! k) as [[v0 [ch|]]|]; cbn.
  - intros (c1 & _ & [= <- <- <-])%bind_Ok. destruct (decide (l = k)) as [->|].
    + right. by rewrite lookup_insert_eq. + left. by rewrite lookup_insert_ne.
  - intros [= <- <- <-]. by left.
  - intros [= <- <- <-]. destruct (decide (l = k)) as [->|].
    + right. by rewrite lookup_insert_eq. + left. by rewrite lookup_insert_ne.
Qed.

Lemma AddTarget_wf g t g' : graph_wf g -> AddTarget g t = Ok g' -> graph_wf g'.
Proof.
  unfold AddTarget. intros Hwf ([[b ts] c] & Hs & H)%bind_Ok. destruct b; [|done].
  injection H as <-. intros l v Hl. cbn in Hl.
  destruct (shard_Set_lookup_wf _ _ _ _ _ _ _ l Hs) as [He|[-> He]]; rewrite He in Hl; [exact (Hwf l v Hl)|].
  injection Hl as <-. cbn. eauto.
Qed.

Lemma TargetOrWait_wf g l t ch g' : graph_wf g -> TargetOrWait g l = (t, ch, g') -> graph_wf g'.
Proof.
  unfold TargetOrWait, shard_GetOrWait, shard_Probe, shard_Insert. intros Hwf.
  destruct (g_targets g !! l) as [v|] eqn:Hl; cbn; [intros [= <- <- <-]; exact Hwf|intros [= <- <- <-]].
  intros l' v' Hl'. cbn in Hl'. apply lookup_insert_Some in Hl' as [[<- <-]|[_ Hl']]; [done|exact (Hwf _ _ Hl')].
Qed.

Lemma foldM_AddTarget_wf g ts g' : graph_wf g -> foldM AddTarget g ts = Ok g' -> graph_wf g'.
Proof.
  revert g. induction ts as [|t ts IH]; intros g Hwf; cbn; [by intros [= <-]|].
  intros (g1 & H1 & H)%bind_Ok. eauto using AddTarget_wf.
Qed.

(** A graph of the given targets, and a check of all of its targets: what the
    examples are built and checked with. *)
Definition build_graph (ts : list BuildTarget) : BuildGraph :=
  from_Ok NewGraph (foldM AddTarget NewGraph ts).

Definition with_dep (dep : BuildLabel) (t : BuildTarget) : BuildTarget := from_Ok t (AddDependency t dep).

Lemma build_graph_wf ts : graph_wf (build_graph ts).
Proof.
  unfold build_graph. destruct (foldM AddTarget NewGraph ts) as [g| |] eqn:Hg; cbn;
    eauto using foldM_AddTarget_wf, NewGraph_wf.
Qed.

Definition in_graph (g : BuildGraph) (l : BuildLabel) : bool := bool_decide (is_Some (Target g l)).

Definition all_targets (g : BuildGraph) (P : BuildTarget -> bool) : bool :=
  forallb (fun l => match Target g l with Some t => P t | None => true end) (graph_AllTargets g).

Lemma all_targets_spec g P l t : graph_wf g -> all_targets g P = true -> Target g l = Some t -> P t = true.
Proof.
  intros Hwf Hall Ht. unfold all_targets in Hall. rewrite forallb_forall in Hall.
  assert (l ∈ graph_AllTargets g) as Hl by (apply elem_of_AllTargets; eauto).
  apply list_elem_of_In in Hl. specialize (Hall l Hl). by rewrite Ht in Hall.
Qed.

(** ** Transitive subincludes *)

Section subincludes.
Context (range_order : gset BuildLabel -> list BuildLabel).
Context (range_order_perm : forall s, range_order s ≡ₚ elements s).

Fixpoint findTransitiveSubincludes (fuel : nat) (g : BuildGraph) (label : BuildLabel)
    (includes : gset BuildLabel) : res (gset BuildLabel) :=
  match fuel with
  | O => NoFuel
  | S fuel =>
      if decide (label ∈ includes) then Ok includes
      else foldM (fun includes l => findTransitiveSubincludes fuel g l includes)
             ({[label]} ∪ includes)
             (range_order (default ∅ (subincludeSubincludes g !! label)))
  end.

(** More than the number of labels that appear in the map. *)
Definition subinclude_labels (g : BuildGraph) : gset BuildLabel :=
  dom (subincludeSubincludes g) ∪ ⋃ (map_to_list (subincludeSubincludes g)).*2.

Definition TransitiveSubincludes (g : BuildGraph) (l : BuildLabel) : res (list BuildLabel) :=
  incs ← findTransitiveSubincludes (2 + size (subinclude_labels g)) g l ∅;
  Ok (sort_labels (range_order incs)).

Definition AllSubincludes (g : BuildGraph) (pkg : Package) : res (list BuildLabel) :=
  includes ← foldM (fun includes s =>
      incs ← TransitiveSubincludes g s;
      Ok (list_to_set (incs ++ [s]) ∪ includes)) (∅ : gset BuildLabel) (Subincludes pkg);
  Ok (sort_labels (range_order includes)).

(** [from] subincludes [to] itself. *)
Definition subincludes (g : BuildGraph) (from to : BuildLabel) : Prop :=
  exists s, subincludeSubincludes g !! from = Some s /\ to ∈ s.

Definition sub_succ (g : BuildGraph) (l : BuildLabel) : list BuildLabel :=
  range_order (default ∅ (subincludeSubincludes g !! l)).

Lemma elem_of_range_order x s : x ∈ range_order s <-> x ∈ s.
Proof. by rewrite range_order_perm, elem_of_elements. Qed.

Lemma edge_subincludes g x y : edge (sub_succ g) x y <-> subincludes g x y.
Proof.
  unfold edge, sub_succ, subincludes. rewrite elem_of_range_order.
  destruct (subincludeSubincludes g !! x) as [s|]; cbn; [naive_solver|set_solver].
Qed.

Lemma find_visit fuel g l s : findTransitiveSubincludes fuel g l s = visit (sub_succ g) fuel s l.
Proof.
  revert l s. induction fuel as [|fuel IH]; intros l s; cbn; [done|].
  case_decide; [done|]. apply foldM_ext. intros. apply IH.
Qed.

Lemma TransitiveSubincludes_Ok g l :
  exists incs, TransitiveSubincludes g l = Ok (sort_labels (range_order incs)) /\
    forall x, x ∈ incs <-> rtc (subincludes g) l x.
Proof.
  unfold TransitiveSubincludes. rewrite find_visit.
  destruct (visit_root (sub_succ g) ({[l]} ∪ subinclude_labels g) (2 + size (subinclude_labels g)) l)
    as (incs & -> & Hi).
  - intros x y _ Hxy%edge_subincludes. destruct Hxy as (s & Hs & Hy). apply elem_of_union_r.
    unfold subinclude_labels. apply elem_of_union_r, elem_of_union_list. exists s.
    split; [|done]. apply list_elem_of_fmap. exists (x, s). split; [done|]. by apply elem_of_map_to_list.
  - set_solver.
  - pose proof (size_union_alt {[l]} (subinclude_labels g)).
    assert (size (subinclude_labels g ∖ {[l]}) <= size (subinclude_labels g))
      by (apply subseteq_size; set_solver). rewrite size_singleton in *. lia.
  - exists incs. split; [done|]. intros x. rewrite Hi.
    split; apply rtc_subrel; intros ? ? Hxy; by apply edge_subincludes.
Qed.
End subincludes.

(** C20: [TransitiveSubincludes] returns the label itself and every label some chain of
    subincludes leads to, each once and in label order; cycles of subincludes do not keep it
    from returning, and the order in which Go ranges over the sets makes no difference. *)
Theorem TransitiveSubincludes_spec order1 order2 g l :
  (forall s, order1 s ≡ₚ elements s) -> (forall s, order2 s ≡ₚ elements s) ->
  exists ls, TransitiveSubincludes order1 g l = Ok ls /\ TransitiveSubincludes order2 g l = Ok ls /\
    StronglySorted label_le ls /\ NoDup ls /\ forall x, x ∈ ls <-> rtc (subincludes g) l x.
Proof.
  intros H1 H2. destruct (TransitiveSubincludes_Ok order1 H1 g l) as (i1 & -> & Hi1).
  destruct (TransitiveSubincludes_Ok order2 H2 g l) as (i2 & -> & Hi2).
  assert (i1 = i2) as <- by (apply set_eq; intros x; by rewrite Hi1, Hi2).
  exists (sort_labels (order1 i1)). split_and!.
  - done.
  - f_equal. apply sort_labels_unique. by rewrite H1, H2.
  - apply (StronglySorted_merge_sort label_le).
  - unfold sort_labels. rewrite merge_sort_Permutation, H1. apply NoDup_elements.
  - intros x. by rewrite elem_of_sort_labels, elem_of_range_order, Hi1.
Qed.

Definition example_subs : BuildGraph :=
  let a := MkBuildLabel "d" "a" "" in let b := MkBuildLabel "d" "b" "" in
  RegisterTransitiveSubinclude (RegisterTransitiveSubinclude NewGraph b a) a b.

Lemma TransitiveSubincludes_spec_witness :
  exists ls, TransitiveSubincludes elements example_subs (MkBuildLabel "d" "b" "") = Ok ls /\
    TransitiveSubincludes (fun s => reverse (elements s)) example_subs (MkBuildLabel "d" "b" "") = Ok ls /\
    StronglySorted label_le ls /\ NoDup ls /\
    forall x, x ∈ ls <-> rtc (subincludes example_subs) (MkBuildLabel "d" "b" "") x.
Proof.
  apply (TransitiveSubincludes_spec elements (fun s => reverse (elements s))); intros s.
  - done.
  - apply reverse_Permutation.
Defined.

(** For a pattern that is not the root, the packages [plz gc] keeps for a [/...] target are
    those whose targets the pattern includes; for the root pattern, which includes every target,
    only the root package itself is kept. *)
Theorem IsIncludedIn_vs_Includes pkg label :
  Name label = "..." ->
  (PackageName label <> "" -> IsIncludedIn pkg label = Includes label (pkg_Label pkg)) /\
  (PackageName label = "" -> Includes label (pkg_Label pkg) = true /\
     (IsIncludedIn pkg label = true <-> pkg_Name pkg = "" \/ exists r, pkg_Name pkg = "/" +:+ r)).
Proof.
  intros Hname. unfold IsIncludedIn, Includes, IsAllSubpackages. rewrite Hname, String.eqb_refl.
  change (PackageName (pkg_Label pkg)) with (pkg_Name pkg). split.
  - intros Hne. apply String.eqb_neq in Hne. rewrite Hne.
    cbn [andb orb]. by destruct (_ || has_prefix _ _).
  - intros ->. split; [done|]. by rewrite orb_true_iff, has_prefix_spec, String.eqb_eq.
Qed.

Lemma IsIncludedIn_vs_Includes_witness :
  let pkg := NewPackage "src" "" in let label := MkBuildLabel "" "..." "" in
  Name label = "..." /\ Includes label (pkg_Label pkg) = true /\
  (IsIncludedIn pkg label = true <-> pkg_Name pkg = "" \/ exists r, pkg_Name pkg = "/" +:+ r).
Proof.
  intros pkg label. split; [done|].
  apply (proj2 (IsIncludedIn_vs_Includes pkg label eq_refl) eq_refl).
Defined.

(** ** Resolved dependencies *)

(** What a declared dependency stands for: the targets that satisfy it, or the
    labels that are not in the graph. *)
Definition resolve (g : BuildGraph) (target : BuildTarget) (l : BuildLabel)
    : list (BuildTarget + BuildLabel) :=
  match Target g l with
  | None => [inr l]
  | Some depTarget =>
      (fun provided => match Target g provided with Some t => inl t | None => inr provided end)
        <$> ProvideFor depTarget target
  end.

Definition lefts {A B} (l : list (A + B)) : list A :=
  omap (fun x => match x with inl a => Some a | inr _ => None end) l.
Definition rights {A B} (l : list (A + B)) : list B :=
  omap (fun x => match x with inl _ => None | inr b => Some b end) l.

Definition Dependencies (g : BuildGraph) (target : BuildTarget) : list BuildLabel * list BuildLabel :=
  let resolved := (dep_Label <$> dependencies target) ≫= resolve g target in
  (sort_labels (Label <$> lefts resolved), rights resolved).

(** [ExternalDependencies]: a dependency generated by the target's own rule is
    replaced by what it depends on in turn. *)
Fixpoint ExternalDependencies (fuel : nat) (g : BuildGraph) (target : BuildTarget)
    : res (list BuildLabel * list BuildLabel) :=
  match fuel with
  | O => NoFuel
  | S fuel =>
      '(ret, unresolved) ← foldM (fun '(ret, unresolved) r =>
          match r with
          | inr l => Ok (ret, unresolved ++ [l])
          | inl dep =>
              if decide (Parent (Label dep) = Label target) then
                '(deps, u) ← ExternalDependencies fuel g dep;
                Ok (ret ++ deps, unresolved ++ u)
              else Ok (ret ++ [Label dep], unresolved)
          end) ([], []) ((dep_Label <$> dependencies target) ≫= resolve g target);
      Ok (sort_labels ret, unresolved)
  end.

Lemma elem_of_Dependencies g t x :
  x ∈ (Dependencies g t).1 <->
  exists l d p t', l ∈ dep_set t /\ Target g l = Some d /\ p ∈ ProvideFor d t /\
    Target g p = Some t' /\ x = Label t'.
Proof.
  unfold Dependencies, lefts. cbn. rewrite elem_of_sort_labels, list_elem_of_fmap.
  setoid_rewrite list_elem_of_omap. setoid_rewrite list_elem_of_bind. unfold resolve. split.
  - intros (t' & -> & [t0|] & (l & Hr & Hl) & [= ->]).
    destruct (Target g l) as [d|] eqn:Hd; [|by apply list_elem_of_singleton in Hr].
    apply list_elem_of_fmap in Hr as (p & Hp & Hpd). destruct (Target g p) eqn:Hpt; [|done].
    injection Hp as ->. by eauto 10.
  - intros (l & d & p & t' & Hl & Hd & Hp & Hpt & ->). exists t'. split; [done|].
    exists (inl t'). split; [|done]. exists l. split; [|done]. rewrite Hd.
    apply list_elem_of_fmap. exists p. by rewrite Hpt.
Qed.

(** ** Cycle detection: [src/plz/cycle_detector.go] *)

Definition cd_deps (g : BuildGraph) (l : BuildLabel) : list BuildLabel :=
  match Target g l with Some t => (Dependencies g t).1 | None => [] end.

(** The visit of one target: the cycle found so far with whether it is complete,
    and the two sets of visited targets. *)
Fixpoint cd_visit (fuel : nat) (g : BuildGraph) (st : gset BuildLabel * gset BuildLabel)
    (target : BuildLabel)
    : res (option (list BuildLabel) * bool * (gset BuildLabel * gset BuildLabel)) :=
  match fuel with
  | O => NoFuel
  | S fuel =>
      let '(complete, partial) := st in
      if decide (target ∈ complete) then Ok (None, false, st)
      else if decide (target ∈ partial) then Ok (Some [target], false, st)
      else
        r ← loopM (fun st dep =>
              '(cycle, found, st) ← cd_visit fuel g st dep;
              match cycle with
              | Some cycle =>
                  if found || bool_decide (last cycle = Some target)
                  then Ok (inl (Some cycle, true, st))
                  else Ok (inl (Some (target :: cycle), false, st))
              | None => Ok (inr st)
              end) (complete, {[target]} ∪ partial) (cd_deps g target);
        match r with
        | inl r => Ok r
        | inr (complete, partial) => Ok (None, false, ({[target]} ∪ complete, partial ∖ {[target]}))
        end
  end.

(** [Check] visits the targets in label order; the depth of the visit is at most
    the number of targets. *)
Definition cycle_Check (g : BuildGraph) : res (option (list BuildLabel)) :=
  let targets := graph_AllTargets g in
  r ← loopM (fun st target =>
        if decide (target ∈ st.1) then Ok (inr st)
        else
          '(cycle, _, st) ← cd_visit (2 + length targets) g st target;
          match cycle with Some cycle => Ok (inl cycle) | None => Ok (inr st) end)
      (∅, ∅) targets;
  match r with inl cycle => Ok (Some cycle) | inr _ => Ok None end.

Definition errCycle_Error (cycle : list BuildLabel) : string :=
  "Dependency cycle found:
" +:+ join "
 -> " (label_String <$> cycle ++ take 1 cycle) +:+ "
Sorry, but you'll have to refactor your build files to avoid this cycle".

(** [x] needs [y] to be built first. *)
Definition dep_edge (g : BuildGraph) (x y : BuildLabel) : Prop := y ∈ cd_deps g x.

Fixpoint chain (g : BuildGraph) (l : list BuildLabel) : Prop :=
  match l with
  | x :: (y :: _) as l' => dep_edge g x y /\ chain g l'
  | _ => True
  end.

(** The targets of [c], in order and back to the first one, each depend on the next. *)
Definition is_cycle (g : BuildGraph) (c : list BuildLabel) : Prop :=
  c <> [] /\ chain g (c ++ take 1 c).

Lemma chain_app g l1 x l2 : chain g (l1 ++ [x]) -> chain g (x :: l2) -> chain g (l1 ++ x :: l2).
Proof.
  induction l1 as [|a l1 IH]; intros H1 H2; [done|]. destruct l1 as [|b l1]; cbn in *; [naive_solver|].
  destruct H1 as [? H1]. split; [done|]. by apply IH.
Qed.

Lemma closing_chain g c x :
  head c = Some x -> chain g c -> (forall y, last c = Some y -> dep_edge g y x) -> is_cycle g c.
Proof.
  intros Hh Hc Hl. destruct c as [|x' c]; [done|]. injection Hh as ->. split; [done|].
  change (take 1 (x :: c)) with [x]. destruct (exists_last (l := x :: c)) as (l1 & y & He); [done|].
  rewrite He in *. rewrite <- app_assoc. cbn. apply chain_app; [done|]. cbn. split; [|done].
  apply Hl. by rewrite last_snoc.
Qed.

(** No cycle goes through a completely visited target. *)
Record complete_ok (g : BuildGraph) (complete : gset BuildLabel) : Prop := {
  co_closed : forall x y, x ∈ complete -> dep_edge g x y -> y ∈ complete;
  co_acyclic : forall x, x ∈ complete -> ~ tc (dep_edge g) x x;
}.

Lemma complete_closed_rtc g c x y : complete_ok g c -> x ∈ c -> rtc (dep_edge g) x y -> y ∈ c.
Proof. intros Hc Hx. induction 1; eauto using co_closed. Qed.

Lemma complete_ok_add g c t :
  complete_ok g c -> t ∉ c -> (forall y, dep_edge g t y -> y ∈ c) -> complete_ok g ({[t]} ∪ c).
Proof.
  intros Hc Ht Hd. split.
  - intros x y [->%elem_of_singleton|Hx]%elem_of_union Hxy; apply elem_of_union_r; [by auto|].
    by eapply co_closed.
  - intros x [->%elem_of_singleton|Hx]%elem_of_union Hcyc; [|by eapply co_acyclic].
    apply Ht. assert (exists y, dep_edge g t y /\ rtc (dep_edge g) y t) as (y & Hy & Hyt).
    { inversion Hcyc; subst; eauto using rtc_refl, tc_rtc. }
    by eapply complete_closed_rtc; [exact Hc|apply Hd, Hy|].
Qed.

(** What a visit that started with the sets [c] and [p] may return. *)
Definition visit_post g (c p : gset BuildLabel) (target : BuildLabel)
    (r : option (list BuildLabel) * bool * (gset BuildLabel * gset BuildLabel)) : Prop :=
  let '(cycle, found, (c', p')) := r in
  match cycle with
  | Some cycle =>
      if found : bool then is_cycle g cycle
      else chain g cycle /\ head cycle = Some target /\
           exists y, last cycle = Some y /\ y ∈ p
  | None => complete_ok g c' /\ c ⊆ c' /\ p' = p /\ c' ## p /\ target ∈ c'
  end.


Lemma cd_visit_spec g N fuel c p target :
  (forall x y, x ∈ N -> dep_edge g x y -> y ∈ N) ->
  complete_ok g c -> c ## p -> target ∈ N -> size (N ∖ p) < fuel ->
  exists r, cd_visit fuel g (c, p) target = Ok r /\ visit_post g c p target r.
Proof.
  intros HN. revert c p target. induction fuel as [|fuel IH]; intros c p target Hc Hcp Ht Hfuel; [lia|].
  cbn. case_decide as Htc.
  { exists (None, false, (c, p)). done. }
  case_decide as Htp.
  { eexists (Some [target], false, (c, p)). split; [done|]. cbn. eauto. }
  assert (size (N ∖ ({[target]} ∪ p)) < size (N ∖ p)) as Hlt by (apply subset_size; set_solver).
  set (body := fun (st : gset BuildLabel * gset BuildLabel) dep => _).
  edestruct (loopM_inv body
    (fun l '(c', p') => complete_ok g c' /\ c ⊆ c' /\ p' = {[target]} ∪ p /\ c' ## p' /\
       forall y, y ∈ l -> y ∈ c')
    (visit_post g c p target) (cd_deps g target) (c, {[target]} ∪ p)) as (o & -> & Ho).
  - split_and!; [done..|set_solver|set_solver].
  - intros l1 dep l2 [c1 p1] Hl (Hc1 & Hsub & -> & Hdis & Hin).
    assert (dep_edge g target dep) as Hedge by (unfold dep_edge; rewrite Hl; set_solver).
    destruct (IH c1 ({[target]} ∪ p) dep) as ([[[cyc|] fd] [c2 p2]] & Hr & Hpost);
      [done..|by eapply HN|lia| |].
    + unfold body. rewrite Hr. cbn. destruct fd; cbn.
      { eexists. split; [done|]. cbn. done. }
      destruct Hpost as (Hch & Hhd & y & Hlast & Hy). case_bool_decide as Hlt'; cbn.
      * eexists. split; [done|]. cbn. eapply closing_chain; [exact Hhd|done|]. intros y' Hy'. by simplify_eq.
      * eexists. split; [done|]. cbn. split_and!; [|done|].
        -- destruct cyc as [|b cyc]; [done|]. injection Hhd as ->. by split.
        -- exists y. rewrite last_cons, Hlast. split; [done|]. set_solver.
    + unfold body. rewrite Hr. cbn. eexists. split; [done|].
      destruct Hpost as (Hc2 & Hsub2 & -> & Hdis2 & Hin2). cbn. split_and!; [done|set_solver|done|done|].
      intros y [Hy|Hy%list_elem_of_singleton]%elem_of_app; [by apply Hsub2, Hin|by subst y].
  - destruct o as [r|[c' p']]; cbn.
    + by eexists.
    + destruct Ho as (Hc' & Hsub & -> & Hdis & Hin). eexists. split; [done|]. cbn. split_and!.
      * apply complete_ok_add; [done|set_solver|]. intros y Hy. by apply Hin.
      * set_solver.
      * apply set_eq. intros x. rewrite elem_of_difference, elem_of_union, elem_of_singleton.
        destruct (decide (x = target)) as [->|]; tauto.
      * set_solver.
      * set_solver.
Qed.

(** C16: The cycle check always returns.  It reports a cycle only if the reported targets, in the
    order the error prints them, each depend on the next and the last on the first; and when it
    reports none, no chain of resolved dependencies leads from a target back to itself. *)
Theorem cycle_Check_spec g :
  graph_wf g ->
  exists r, cycle_Check g = Ok r /\
    match r with
    | Some cycle => is_cycle g cycle
    | None => forall l, ~ tc (dep_edge g) l l
    end.
Proof.
  intros Hwf. unfold cycle_Check. set (targets := graph_AllTargets g).
  assert (forall x y, dep_edge g x y -> x ∈ targets /\ y ∈ targets) as Hin.
  { intros x y Hxy. unfold dep_edge, cd_deps in Hxy. destruct (Target g x) as [t|] eqn:Hx;
      [|by apply not_elem_of_nil in Hxy].
    apply elem_of_Dependencies in Hxy as (l & d & p & t' & _ & _ & _ & Ht' & ->).
    split; apply elem_of_AllTargets; [done|by eauto|done|].
    rewrite (Target_Label g p t') by done. eauto. }
  set (body := fun (st : gset BuildLabel * gset BuildLabel) target => _).
  edestruct (loopM_inv body (fun l '(c, p) => complete_ok g c /\ p = ∅ /\ forall y, y ∈ l -> y ∈ c)
    (is_cycle g) targets (∅, ∅)) as (o & -> & Ho).
  - split_and!; [split; set_solver|done|set_solver].
  - intros l1 x l2 [c p] Hl (Hc & -> & Hl1). unfold body. cbn [fst]. case_decide as Hx.
    { eexists. split; [done|]. cbn. split_and!; [done..|]. set_solver. }
    destruct (cd_visit_spec g (list_to_set targets) (2 + length targets) c ∅ x)
      as ([[[cyc|] fd] [c2 p2]] & Hr & Hpost).
    + intros a b _ Hab. apply elem_of_list_to_set, (Hin a b Hab).
    + done.
    + set_solver.
    + apply elem_of_list_to_set. rewrite Hl. set_solver.
    + assert (size (list_to_set targets ∖ ∅ : gset BuildLabel) <= length targets) as Hle.
      { rewrite difference_empty_L. apply size_list_to_set_le. }
      lia.
    + rewrite Hr. cbn. eexists. split; [done|]. cbn. destruct fd; [done|].
      destruct Hpost as (_ & _ & y & _ & Hy). set_solver.
    + rewrite Hr. cbn. eexists. split; [done|]. cbn.
      destruct Hpost as (Hc2 & Hsub & -> & _ & Hx2). split_and!; [done..|]. set_solver.
  - destruct o as [cyc|[c p]]; cbn.
    + by eexists.
    + destruct Ho as (Hc & _ & Hall). eexists. split; [done|]. intros l Hcyc.
      apply (co_acyclic g c Hc l); [|done]. apply Hall.
      inversion Hcyc as [? y Hy|? y ? Hy]; subst; by destruct (Hin _ _ Hy).
Qed.

Definition ex_label (n : string) : BuildLabel := MkBuildLabel "p" n "".

(** Two targets that depend on each other, and one that depends on them. *)
Definition example_graph : BuildGraph :=
  build_graph [with_dep (ex_label "b") (NewBuildTarget (ex_label "a"));
    with_dep (ex_label "c") (NewBuildTarget (ex_label "b"));
    with_dep (ex_label "b") (NewBuildTarget (ex_label "c"))].

Lemma cycle_Check_spec_witness :
  graph_wf example_graph /\
  cycle_Check example_graph = Ok (Some [ex_label "c"; ex_label "b"]) /\
  exists r, cycle_Check example_graph = Ok r /\
    match r with
    | Some cycle => is_cycle example_graph cycle
    | None => forall l, ~ tc (dep_edge example_graph) l l
    end.
Proof.
  split_and!; [apply build_graph_wf|by vm_compute|].
  apply cycle_Check_spec, build_graph_wf.
Defined.

(** *** When the check runs *)

(** What [checkForCycles] receives: a build result for a target, the end of the
    results, or the expiry of the inactivity timer. *)
Inductive cc_event :=
  | CResult (target : option BuildLabel) (isActive : bool)
  | CClosed
  | CTimer.

(** One turn of its loop on the set of active targets: [None] when it returns,
    otherwise whether it starts a check. *)
Definition cc_step (active : gset BuildLabel) (ev : cc_event) : option (gset BuildLabel * bool) :=
  match ev with
  | CClosed => None
  | CResult (Some target) true => Some ({[target]} ∪ active, false)
  | CResult (Some target) false => Some (active ∖ {[target]}, false)
  | CResult None _ => Some (active, false)
  | CTimer => Some (active, bool_decide (active = ∅))
  end.

(** The sets of active targets, and whether a check was started, turn by turn. *)
Fixpoint checkForCycles (active : gset BuildLabel) (evs : list cc_event) : list bool :=
  match evs with
  | [] => []
  | ev :: evs =>
      match cc_step active ev with
      | None => []
      | Some (active, check) => check :: checkForCycles active evs
      end
  end.

(** ** Transitive run-time dependencies *)

(** What [push] does with a target, in order: [(true, l)] yields [l] and then
    visits it, [(false, l)] only visits it; an error is a target that is not in
    the graph. *)
Definition provided_steps (g : BuildGraph) (t : BuildTarget) (yield : bool) (l : BuildLabel)
    : list (res (bool * BuildLabel)) :=
  match TargetOrDie g l with
  | Ok d => (fun p => Ok (yield, p)) <$> ProvideFor d t
  | Err e => [Err e]
  | NoFuel => [NoFuel]
  end.

Definition dep_steps (g : BuildGraph) (t : BuildTarget) (dep : DeclaredDependency)
    : list (res (bool * BuildLabel)) :=
  (if RuntimeDependenciesFromSources t && dep_Source dep
   then provided_steps g t false (dep_Label dep) else [])
  ++ (if RuntimeDependenciesFromDependencies t && negb (dep_Exported dep) && negb (dep_Source dep)
        && negb (dep_Internal dep) && negb (dep_Runtime dep)
      then provided_steps g t false (dep_Label dep)
        ++ match TargetOrDie g (dep_Label dep) with
           | Ok depTarget => ExportedDependencies depTarget ≫= provided_steps g t false
           | _ => []
           end
      else []).

Definition push_steps (g : BuildGraph) (t : BuildTarget) : list (res (bool * BuildLabel)) :=
  (runtimeDependencies t ≫= provided_steps g t true)
  ++ (omap input_Label (AllData t) ≫= provided_steps g t false)
  ++ (omap input_Label (AllDebugData t) ≫= provided_steps g t false)
  ++ (if RuntimeDependenciesFromSources t || RuntimeDependenciesFromDependencies t
      then dependencies t ≫= dep_steps g t else []).

(** [push]: the visited targets and what has been yielded so far. *)
Fixpoint rd_push (fuel : nat) (g : BuildGraph) (st : gset BuildLabel * list BuildLabel)
    (label : BuildLabel) : res (gset BuildLabel * list BuildLabel) :=
  match fuel with
  | O => NoFuel
  | S fuel =>
      t ← TargetOrDie g label;
      if decide (Label t ∈ st.1) then Ok st
      else foldM (fun st step =>
             '(yield, p) ← step;
             rd_push fuel g (if yield : bool then (st.1, st.2 ++ [p]) else st) p)
           ({[Label t]} ∪ st.1, st.2) (push_steps g t)
  end.

(** Everything the iterator yields when its consumer takes it all. *)
Definition IterAllRuntimeDependencies (g : BuildGraph) (target : BuildLabel) : res (list BuildLabel) :=
  st ← rd_push (2 + length (graph_AllTargets g)) g (∅, []) target; Ok st.2.

(** The targets [push] goes on to, and the labels it yields, from one target. *)
Definition rd_succ (g : BuildGraph) (l : BuildLabel) : list BuildLabel :=
  match Target g l with
  | Some t => omap (fun s => match s with Ok (_, p) => Some p | _ => None end) (push_steps g t)
  | None => []
  end.

Definition rd_yields (g : BuildGraph) (l : BuildLabel) : list BuildLabel :=
  match Target g l with
  | Some t => omap (fun s => match s with Ok (true, p) => Some p | _ => None end) (push_steps g t)
  | None => []
  end.

(** Nothing that [push] looks for is missing from the graph. *)
Definition rd_closed (g : BuildGraph) : Prop :=
  forall l t s, Target g l = Some t -> s ∈ push_steps g t ->
    exists y p, s = Ok (y, p) /\ is_Some (Target g p).

(** What is yielded by one visit, given what it marks. *)
Definition yielded g (done done' : gset BuildLabel) (out out' : list BuildLabel) : Prop :=
  forall z, z ∈ out' <-> z ∈ out \/ exists y, y ∈ done' /\ y ∉ done /\ z ∈ rd_yields g y.

Lemma rd_push_spec g N fuel d out x :
  graph_wf g -> rd_closed g -> (forall l, l ∈ N <-> is_Some (Target g l)) ->
  x ∈ N -> size (N ∖ d) < fuel ->
  exists d' out', rd_push fuel g (d, out) x = Ok (d', out') /\
    visited (rd_succ g) d (eq x) d' /\ x ∈ d' /\ yielded g d d' out out'.
Proof.
  intros Hwf Hcl HN. revert d out x. induction fuel as [|fuel IH]; intros d out x Hx Hfuel; [lia|].
  pose proof Hx as [t Ht]%HN. assert (Label t = x) as Hlab by (by eapply Target_Label).
  cbn [rd_push]. unfold TargetOrDie. rewrite Ht, bind_Ok_l, Hlab. cbn [fst snd]. case_decide as Hd.
  { exists d, out. split_and!; [done|apply visited_refl|done|]. intros z. naive_solver. }
  set (body := fun (st : gset BuildLabel * list BuildLabel) step => _).
  assert (size (N ∖ ({[x]} ∪ d)) < size (N ∖ d)) as Hlt by (apply subset_size; set_solver).
  destruct (foldM_inv body (fun l '(d', out') =>
      visited (rd_succ g) ({[x]} ∪ d) (fun y => y ∈ rd_succ g x) d' /\
      (forall y p, Ok (y, p) ∈ l -> p ∈ d') /\
      (forall z, z ∈ out' <-> z ∈ out \/ Ok (true, z) ∈ l \/
         exists y, y ∈ d' /\ y ∉ {[x]} ∪ d /\ z ∈ rd_yields g y)) (push_steps g t) ({[x]} ∪ d, out))
    as ([d' out'] & -> & Hv & Hin & Hout).
  - split_and!; [apply visited_refl|set_solver|]. intros z. set_solver.
  - intros l1 s l2 [d1 out1] Hl (Hv & Hin & Hout).
    destruct (Hcl x t s Ht) as (y & p & -> & Hp); [rewrite Hl; set_solver|].
    assert (p ∈ rd_succ g x) as Hps.
    { unfold rd_succ. rewrite Ht. apply list_elem_of_omap. exists (Ok (y, p)).
      split; [rewrite Hl; set_solver|done]. }
    assert (size (N ∖ d1) <= size (N ∖ ({[x]} ∪ d))) as Hle.
    { apply subseteq_size. pose proof (vis_mono _ _ _ _ Hv). set_solver. }
    destruct (IH d1 (if y then out1 ++ [p] else out1) p) as (d2 & out2 & Hr & Hv2 & Hp2 & Hy2);
      [by apply HN|lia|].
    exists (d2, out2). split.
    { unfold body. cbn. by destruct y. }
    pose proof (vis_mono _ _ _ _ Hv2) as Hm. split_and!.
    + eapply visited_trans; [exact Hv|]. eapply visited_weaken; [|exact Hv2]. by intros ? <-.
    + intros y' p' [Hy'|Hy'%list_elem_of_singleton]%elem_of_app; [by eapply Hm, Hin|by simplify_eq].
    + intros z. rewrite (Hy2 z). split.
      * intros [Hz|(y' & H1 & H2 & H3)].
        -- assert (z ∈ out1 \/ y = true /\ z = p) as [Hz'|[-> ->]] by (destruct y; set_solver).
           ++ apply Hout in Hz' as [?|[?|(y' & ? & ? & ?)]]; [by left|right; left; set_solver|].
              right; right. exists y'. split_and!; [by apply Hm|done..].
           ++ right; left. set_solver.
        -- right; right. exists y'. split_and!; [done| |done]. pose proof (vis_mono _ _ _ _ Hv). set_solver.
      * intros [Hz|[[Hz|Hz%list_elem_of_singleton]%elem_of_app|(y' & H1 & H2 & H3)]].
        -- left. assert (z ∈ out1) by (apply Hout; by left). destruct y; set_solver.
        -- left. assert (z ∈ out1) by (apply Hout; by right; left). destruct y; set_solver.
        -- simplify_eq. left. set_solver.
        -- destruct (decide (y' ∈ d1)) as [Hy'|Hy']; [|right; by eauto].
           left. assert (z ∈ out1) by (apply Hout; right; right; by eauto). destruct y; set_solver.
  - exists d', out'. assert (x ∈ d') as Hxd by (apply (vis_mono _ _ _ _ Hv); set_solver).
    split_and!; [done| |done|].
    + split.
      * pose proof (vis_mono _ _ _ _ Hv). set_solver.
      * intros y z Hy Hn Hyz. destruct (decide (y = x)) as [->|];
          [|apply (vis_succ _ _ _ _ Hv y); [done|set_solver|done]].
        unfold edge, rd_succ in Hyz. rewrite Ht in Hyz. apply list_elem_of_omap in Hyz as (s & Hs & He).
        destruct s as [[b p]| |]; [|done..]. injection He as ->. by eapply Hin.
      * intros y Hy Hn. exists x. split; [done|]. destruct (decide (y = x)) as [->|]; [done|].
        destruct (vis_reach _ _ _ _ Hv y) as (z & Hz & Hzy); [done|set_solver|]. by eapply rtc_l.
    + intros z. rewrite Hout. split.
      * intros [?|[Hz|(y & ? & Hn & ?)]]; [by left|right|right; exists y; set_solver].
        exists x. split_and!; [done..|]. unfold rd_yields. rewrite Ht. apply list_elem_of_omap.
        by exists (Ok (true, z)).
      * intros [?|(y & H1 & H2 & H3)]; [by left|right]. destruct (decide (y = x)) as [->|];
          [left|right; exists y; set_solver].
        unfold rd_yields in H3. rewrite Ht in H3. apply list_elem_of_omap in H3 as (s & Hs & He).
        destruct s as [[[] p]| |]; [|done..]. by injection He as ->.
Qed.

Lemma runtime_yields g x :
  graph_wf g -> rd_closed g -> is_Some (Target g x) ->
  exists ls, IterAllRuntimeDependencies g x = Ok ls /\
    forall z, z ∈ ls <-> exists y, rtc (edge (rd_succ g)) x y /\ z ∈ rd_yields g y.
Proof.
  intros Hwf Hcl Hx. unfold IterAllRuntimeDependencies.
  destruct (rd_push_spec g (list_to_set (graph_AllTargets g)) (2 + length (graph_AllTargets g)) ∅ [] x)
    as (d & ls & -> & Hv & Hxd & Hy); [done|done| | | |].
  - intros l. by rewrite elem_of_list_to_set, elem_of_AllTargets.
  - by rewrite elem_of_list_to_set, elem_of_AllTargets.
  - rewrite difference_empty_L. pose proof (size_list_to_set_le (graph_AllTargets g)). lia.
  - exists ls. split; [done|]. intros z. rewrite (Hy z). split.
    + intros [?|(y & Hyd & Hn & Hz)]; [set_solver|]. exists y. split; [|done].
      destruct (vis_reach _ _ _ _ Hv y) as (? & <- & ?); done.
    + intros (y & Hxy & Hz). right. exists y. split_and!; [|set_solver|done].
      eapply (closed_rtc (rd_succ g) d); [|exact Hxd|exact Hxy].
      intros a b Ha Hab. apply (vis_succ _ _ _ _ Hv a); [done|set_solver|done].
Qed.

(** If no target the walk looks for is missing from the graph, the iterator over the
    transitive run-time dependencies ends, and yields exactly the provided run-time dependencies
    of the targets reachable through run-time dependencies, data and debug data - and through
    sources and dependencies where the target asks for those. *)
Theorem IterAllRuntimeDependencies_spec g x :
  graph_wf g -> rd_closed g -> is_Some (Target g x) ->
  exists ls, IterAllRuntimeDependencies g x = Ok ls /\
    forall z, z ∈ ls <-> exists y, rtc (edge (rd_succ g)) x y /\ z ∈ rd_yields g y.
Proof. apply runtime_yields. Qed.

(** A binary that needs another target when it runs. *)
Definition example_run : BuildGraph :=
  let a := upd_IsBinary (fun _ => true) (NewBuildTarget (ex_label "a")) in
  build_graph [from_Ok a (AddMaybeExportedDependency a (ex_label "b") false false false true);
    NewBuildTarget (ex_label "b")].

Lemma rd_closed_check g :
  graph_wf g ->
  all_targets g (fun t => forallb (fun s => match s with Ok (_, p) => in_graph g p | _ => false end)
    (push_steps g t)) = true -> rd_closed g.
Proof.
  intros Hwf Hall l t s Ht Hs. pose proof (all_targets_spec g _ l t Hwf Hall Ht) as Hp.
  rewrite forallb_forall in Hp. apply list_elem_of_In in Hs. specialize (Hp s Hs).
  destruct s as [[y p]| |]; [|done..]. exists y, p. by apply bool_decide_eq_true in Hp.
Qed.

Lemma IterAllRuntimeDependencies_spec_witness :
  graph_wf example_run /\ rd_closed example_run /\ is_Some (Target example_run (ex_label "a")) /\
  exists ls, IterAllRuntimeDependencies example_run (ex_label "a") = Ok ls /\
    forall z, z ∈ ls <->
      exists y, rtc (edge (rd_succ example_run)) (ex_label "a") y /\ z ∈ rd_yields example_run y.
Proof.
  assert (graph_wf example_run) as Hwf by apply build_graph_wf.
  assert (rd_closed example_run) as Hcl by (apply rd_closed_check; [done|by vm_compute]).
  assert (is_Some (Target example_run (ex_label "a"))) as Hx by (refine (bool_decide_unpack _ _); by vm_compute).
  split_and!; [done..|]. by apply IterAllRuntimeDependencies_spec.
Defined.

(** The last thing reported about a target, if anything. *)
Fixpoint last_report (t : BuildLabel) (evs : list cc_event) : option bool :=
  match evs with
  | [] => None
  | CResult (Some t') a :: evs =>
      match last_report t evs with
      | Some b => Some b
      | None => if decide (t = t') then Some a else None
      end
  | _ :: evs => last_report t evs
  end.

(** A target is active after some reports if the last one about it said so. *)
Definition still_active (active : gset BuildLabel) (evs : list cc_event) (t : BuildLabel) : Prop :=
  match last_report t evs with Some b => b = true | None => t ∈ active end.

Lemma checkForCycles_timer active evs :
  CClosed ∉ evs ->
  exists bs b, checkForCycles active (evs ++ [CTimer]) = bs ++ [b] /\ length bs = length evs /\
    (b = true <-> forall t, ~ still_active active evs t).
Proof.
  revert active. induction evs as [|ev evs IH]; intros active Hn.
  { exists [], (bool_decide (active = ∅)). split_and!; [done..|]. unfold still_active. cbn.
    rewrite bool_decide_eq_true. split; [set_solver|]. intros He. apply set_eq. set_solver. }
  assert (forall active' b0, cc_step active ev = Some (active', b0) ->
    (forall t, still_active active' evs t <-> still_active active (ev :: evs) t) ->
    exists bs b, checkForCycles active ((ev :: evs) ++ [CTimer]) = bs ++ [b] /\
      length bs = length (ev :: evs) /\ (b = true <-> forall t, ~ still_active active (ev :: evs) t))
    as Hgen.
  { intros active' b0 Hs Ha. destruct (IH active') as (bs & b & Hc & Hlen & Hb); [set_solver|].
    exists (b0 :: bs), b. cbn -[cc_step]. rewrite Hs, Hc, Hlen. split_and!; [done..|].
    rewrite Hb. by setoid_rewrite Ha. }
  destruct ev as [[t'|] a| |].
  - apply (Hgen (if a then {[t']} ∪ active else active ∖ {[t']}) false); [by destruct a|].
    intros t. unfold still_active. cbn. destruct (last_report t evs); [done|].
    case_decide as Ht; destruct a; set_solver.
  - by apply (Hgen active false).
  - set_solver.
  - by apply (Hgen active (bool_decide (active = ∅))).
Qed.

(** While results keep arriving, each expiry of the inactivity timer starts a cycle check
    exactly when no target's last report was that it is being worked on. *)
Theorem checkForCycles_spec evs :
  CClosed ∉ evs ->
  exists bs b, checkForCycles ∅ (evs ++ [CTimer]) = bs ++ [b] /\ length bs = length evs /\
    (b = true <-> forall t, last_report t evs <> Some true).
Proof.
  intros Hn. destruct (checkForCycles_timer ∅ evs Hn) as (bs & b & -> & Hlen & Hb).
  exists bs, b. split_and!; [done..|]. rewrite Hb. unfold still_active.
  split; intros Ht t; specialize (Ht t); destruct (last_report t evs) as [[]|]; set_solver.
Qed.

Lemma checkForCycles_spec_witness :
  let evs := [CResult (Some example_dep) true; CTimer; CResult (Some example_dep) false] in
  CClosed ∉ evs /\
  exists bs b, checkForCycles ∅ (evs ++ [CTimer]) = bs ++ [b] /\ length bs = length evs /\
    (b = true <-> forall t, last_report t evs <> Some true).
Proof.
  intros evs. assert (CClosed ∉ evs) as Hn by (unfold evs; set_solver).
  split; [exact Hn|]. exact (checkForCycles_spec evs Hn).
Defined.
