(* ===== verification/Inputs.v ===== *)
(** What the inputs of targets resolve to: the paths of [src/core/build_input.go] and
    [src/core/build_label.go], the outputs of [src/core/build_target.go], and the walk
    over everything that goes into a build of [src/core/utils.go].

    The home directory and which files exist are parameters; which home directory the host's
    environment gives is [UserHomeDir].  Paths are those of Unix.
    An iterator is the list of what it yields to a consumer that takes it all. *)
From S2P Require Import Prelude GoStrings Labels Targets Reach Graph.
From Stdlib Require Import Ascii.

(** ** Paths outside the repository *)

(** [os.Getenv] *)
Definition Getenv (host : gmap string string) (k : string) : string := default "" (host !! k).

(** [os.UserHomeDir]: what the host's environment says, or nothing if that fails. *)
Definition UserHomeDir (host : gmap string string) : string := Getenv host "HOME".

Section inputs.
Context (home : string) (exists_file : string -> bool).

(** [~] stands for the home directory before one of these. *)
Definition home_ends (rest : string) : bool :=
  match rest with "" => true | String c _ => bool_decide (c = "/"%char \/ c = ":"%char) end.

(** [homeRex.ReplaceAllStringFunc], after the first match; a match takes the character
    after the [~] with it. *)
Fixpoint expand_after (to s : string) : string :=
  match s with
  | "" => ""
  | String ":" (String "~" rest) =>
      if home_ends rest then
        ":" +:+ to +:+ match rest with "" => "" | String c rest => String c (expand_after to rest) end
      else String ":" (String "~" (expand_after to rest))
  | String c rest => String c (expand_after to rest)
  end.

Definition ExpandHomePathTo (path to : string) : string :=
  match path with
  | String "~" rest =>
      if home_ends rest then to +:+ match rest with "" => "" | String c rest => String c (expand_after to rest) end
      else expand_after to path
  | _ => expand_after to path
  end.

(** [home] is the [UserHomeDir] of the host. *)
Definition ExpandHomePath (path : string) : string := ExpandHomePathTo path home.

Definition SplitPathList (pathList : string) : list string :=
  if decide (pathList = "") then [] else split_byte ":" pathList.

(** The path found, or the error. *)
Definition lookPath (filename : string) (paths : list string) : string + string :=
  let dirs := paths ≫= SplitPathList in
  match find exists_file ((fun p2 => path_join [p2; filename]) <$> dirs) with
  | Some p3 => inl p3
  | None =>
      let err := filename +:+ " not found in path " +:+ join ":" paths in
      if (length (filter (fun d => d <> "") dirs) <=? 1)%nat
      then inr (err +:+ "
No [build] path is configured; set one to the directories your tools live in")
      else inr err
  end.

(** ** Outputs *)

(** [LocalPaths] of the inputs that are files. *)
Definition file_LocalPaths (i : BuildInput) : list string :=
  match i with
  | FileLabel f _ | SubrepoFileLabel f _ _ => [f]
  | SystemFileLabel p => [ExpandHomePath p]
  | SystemPathLabel n _ => [n]
  | _ => []
  end.

(** All the results, one after the other. *)
Definition flat_mapM {A B} (f : A -> res (list B)) (l : list A) : res (list B) :=
  ls ← mapM f l; Ok (concat ls).

Section filegroup.
Context (g : BuildGraph) (outputs_of : BuildTarget -> res (list string)).
Context (named_of : string -> BuildTarget -> res (list string)).

Definition provided_outputs (target : BuildTarget) (label : BuildLabel) (f : BuildTarget -> res (list string))
    : res (list string) :=
  d ← TargetOrDie g label;
  flat_mapM (fun dep => t ← TargetOrDie g dep; f t) (ProvideFor d target).

Definition filegroupOutputs (target : BuildTarget) (srcs : list BuildInput) : res (list string) :=
  flat_mapM (fun src =>
    match src with
    | AnnotatedOutputLabel label annotation => provided_outputs target label (named_of annotation)
    | LabelInput label => provided_outputs target label outputs_of
    | _ => match file_LocalPaths src with path :: _ => Ok [path] | [] => Err EIndex end
    end) srcs.
End filegroup.

Fixpoint Outputs_fuel (fuel : nat) (g : BuildGraph) (target : BuildTarget) : res (list string) :=
  match fuel with
  | O => NoFuel
  | S fuel =>
      ret ← (if IsFilegroup target
             then filegroupOutputs g (Outputs_fuel fuel g) (fun name t => NamedOutputs_fuel fuel g t name)
                    target (AllSources target)
             else Ok (outputs target));
      Ok (sort_strings (ret ++ concat (map_to_list (namedOutputs target)).*2))
  end
with NamedOutputs_fuel (fuel : nat) (g : BuildGraph) (target : BuildTarget) (name : string) : res (list string) :=
  match fuel with
  | O => NoFuel
  | S fuel =>
      if IsFilegroup target then
        match NamedSources target !! name with
        | Some srcs =>
            filegroupOutputs g (Outputs_fuel fuel g) (fun name t => NamedOutputs_fuel fuel g t name) target srcs
        | None => Ok []
        end
      else Ok (default [] (namedOutputs target !! name))
  end.

(** No chain of filegroups is longer than the graph, unless it goes around. *)
Definition outputs_fuel (g : BuildGraph) : nat := 2 + length (graph_AllTargets g).

Definition Outputs (g : BuildGraph) (target : BuildTarget) : res (list string) :=
  Outputs_fuel (outputs_fuel g) g target.
Definition NamedOutputs (g : BuildGraph) (target : BuildTarget) (name : string) : res (list string) :=
  NamedOutputs_fuel (outputs_fuel g) g target name.

Definition FullOutputs (g : BuildGraph) (target : BuildTarget) : res (list string) :=
  outs ← Outputs g target; Ok (map (fun out => path_join [target_OutDir target; out]) outs).

Definition AllOutputs (g : BuildGraph) (target : BuildTarget) : res (list string) :=
  outs ← Outputs g target; Ok (map (GetTmpOutput target) outs ++ map OutputDirectory_Dir (OutputDirectories target)).

(** ** Inputs *)

Definition addPathPrefix (paths : list string) (prefix : string) : list string :=
  map (fun output => path_join [prefix; output]) paths.

Definition label_Paths (g : BuildGraph) (label : BuildLabel) : res (list string) :=
  target ← TargetOrDie g label; outs ← Outputs g target; Ok (addPathPrefix outs (target_PackageDir target)).
Definition label_FullPaths (g : BuildGraph) (label : BuildLabel) : res (list string) :=
  target ← TargetOrDie g label; outs ← Outputs g target; Ok (addPathPrefix outs (target_OutDir target)).
Definition label_LocalPaths (g : BuildGraph) (label : BuildLabel) : res (list string) :=
  target ← TargetOrDie g label; Outputs g target.

Definition system_path (name : string) (path : list string) : res (list string) :=
  match lookPath name path with inl tool => Ok [tool] | inr err => Err (EPanic err) end.

Definition Paths (g : BuildGraph) (i : BuildInput) : res (list string) :=
  match i with
  | FileLabel f p | SubrepoFileLabel f p _ => Ok [path_join [p; f]]
  | SystemFileLabel p => Ok [ExpandHomePath p]
  | SystemPathLabel n p => system_path n p
  | LabelInput l => label_Paths g l
  | AnnotatedOutputLabel l a =>
      target ← TargetOrDie g l;
      if bool_decide (is_Some (EntryPoints target !! a)) then label_Paths g l
      else outs ← NamedOutputs g target a; Ok (addPathPrefix outs (target_PackageDir target))
  | URLLabel _ => Ok []
  end.

Definition FullPaths (g : BuildGraph) (i : BuildInput) : res (list string) :=
  match i with
  | FileLabel f p => Ok [path_join [p; f]]
  | SubrepoFileLabel f _ p => Ok [path_join [p; f]]
  | SystemFileLabel p => Ok [ExpandHomePath p]
  | SystemPathLabel n p => system_path n p
  | LabelInput l => label_FullPaths g l
  | AnnotatedOutputLabel l a =>
      target ← TargetOrDie g l;
      if bool_decide (is_Some (EntryPoints target !! a)) then label_FullPaths g l
      else outs ← NamedOutputs g target a; Ok (addPathPrefix outs (target_OutDir target))
  | URLLabel _ => Ok []
  end.

Definition LocalPaths (g : BuildGraph) (i : BuildInput) : res (list string) :=
  match i with
  | LabelInput l => label_LocalPaths g l
  | AnnotatedOutputLabel l a =>
      target ← TargetOrDie g l;
      if bool_decide (is_Some (EntryPoints target !! a)) then label_LocalPaths g l else NamedOutputs g target a
  | _ => Ok (file_LocalPaths i)
  end.

Definition sourcePaths (g : BuildGraph) (target : BuildTarget) (f : BuildInput -> res (list string)) (source : BuildInput)
    : res (list string) :=
  match nonOutputLabel source with
  | Some label =>
      d ← TargetOrDie g label; flat_mapM (fun providedLabel => f (LabelInput providedLabel)) (ProvideFor d target)
  | None => f source
  end.

(** [AllSourcePaths], [AllSourceFullPaths] and [AllSourceLocalPaths] are this with
    [Paths], [FullPaths] and [LocalPaths]. *)
Definition allSourcePaths (g : BuildGraph) (target : BuildTarget) (f : BuildInput -> res (list string)) : res (list string) :=
  flat_mapM (sourcePaths g target f) (AllSources target).

(** ** Everything that goes into a build *)

(** The recursion is on fuel: nothing in the code bounds it. *)
Fixpoint recursivelyProvideFor (fuel : nat) (g : BuildGraph) (target dependency : BuildTarget) (dep : BuildLabel)
    : res (list BuildLabel) :=
  match fuel with
  | O => NoFuel
  | S fuel =>
      depTarget ← TargetOrDie g dep;
      let ret := ProvideFor depTarget dependency in
      let ret := if bool_decide (ret = [dep]) then ProvideFor depTarget target else ret in
      flat_mapM (fun r => if decide (r = dep) then Ok [r] else recursivelyProvideFor fuel g target dependency r) ret
  end.

(** Chains of provides that do not go around are no longer than the graph. *)
Definition provide_for (g : BuildGraph) (target dependency : BuildTarget) (dep : BuildLabel) : res (list BuildLabel) :=
  recursivelyProvideFor (outputs_fuel g) g target dependency dep.

(** [yield(p)] and its run-time dependencies. *)
Definition with_runtime (g : BuildGraph) (p : BuildLabel) : res (list BuildInput) :=
  t ← TargetOrDie g p; deps ← IterAllRuntimeDependencies g p; Ok (LabelInput p :: map LabelInput deps).

Definition recursivelyProvideSource (g : BuildGraph) (target : BuildTarget) (src : BuildInput) : res (list BuildInput) :=
  match nonOutputLabel src with
  | Some label => ps ← provide_for g target target label; flat_mapM (with_runtime g) ps
  | None => Ok [src]
  end.

(** What [inner] goes on to from a dependency, before looking at [done]. *)
Definition inner_deps (g : BuildGraph) (target dependency : BuildTarget) : res (list BuildLabel) :=
  if bool_decide (Label dependency = Label target) || NeedsTransitiveDependencies target && negb (OutputIsComplete dependency)
  then
    provided ← flat_mapM (fun dep => d ← TargetOrDie g dep; Ok (ProvideFor d dependency)) (BuildDependencies dependency);
    next ← flat_mapM (provide_for g target dependency) (sort_labels provided);
    Ok (filter (fun dep2 => IsTool dependency dep2 = false) next)
  else flat_mapM (provide_for g target dependency) (ExportedDependencies dependency).

Fixpoint inner (fuel : nat) (g : BuildGraph) (target : BuildTarget) (st : gset BuildLabel * list BuildInput)
    (dependency : BuildLabel) : res (gset BuildLabel * list BuildInput) :=
  match fuel with
  | O => NoFuel
  | S fuel =>
      d ← (if decide (dependency = Label target) then Ok target else TargetOrDie g dependency);
      out ← (if decide (dependency = Label target) then Ok [] else with_runtime g dependency);
      deps ← inner_deps g target d;
      foldM (fun st dep2 => if decide (dep2 ∈ st.1) then Ok st else inner fuel g target st dep2)
        ({[dependency]} ∪ st.1, st.2 ++ out) deps
  end.

Definition IterInputs (g : BuildGraph) (target : BuildTarget) (includeTools sourcesOnly : bool) : res (list BuildInput) :=
  srcs ← flat_mapM (recursivelyProvideSource g target) (AllSources target);
  tools ← (if includeTools then flat_mapM (recursivelyProvideSource g target) (AllTools target) else Ok []);
  if sourcesOnly then Ok (srcs ++ tools)
  else st ← inner (outputs_fuel g) g target (∅, srcs ++ tools) (Label target); Ok st.2.

(** The pairs, and the temporary paths there are already. *)
Definition add_sources (tmpDir : string) (pairs : list (string * string)) (full_and_path : list (string * string))
    : list (string * string) :=
  foldl (fun pairs '(full, sourcePath) =>
    let tmpPath := path_join [tmpDir; sourcePath] in
    if decide (tmpPath ∈ pairs.*2) then pairs else pairs ++ [(full, tmpPath)]) pairs full_and_path.

Definition IterSources (g : BuildGraph) (target : BuildTarget) (includeTools : bool) : res (list (string * string)) :=
  inputs ← IterInputs g target includeTools false;
  foldM (fun pairs input =>
    fullPaths ← FullPaths g input;
    paths ← Paths g input;
    if (length paths <=? length fullPaths)%nat then Ok (add_sources (target_TmpDir target) pairs (zip fullPaths paths))
    else Err EIndex) [] inputs.
End inputs.

(** ** Well-behaved graphs *)

(** Errors of the program, of which running out of fuel is not one. *)
Lemma flat_mapM_Ok {A B} (f : A -> res (list B)) (r : A -> list B) l :
  (forall x, x ∈ l -> f x = Ok (r x)) -> flat_mapM f l = Ok (l ≫= r).
Proof.
  intros Hf. unfold flat_mapM. assert (mapM f l = Ok (map r l)) as ->.
  { induction l as [|x l IH]; [done|]. cbn. rewrite Hf by set_solver. cbn. rewrite IH by (intros; apply Hf; set_solver). done. }
  cbn. f_equal. induction l as [|x l IH]; [done|]. cbn. by rewrite IH by (intros; apply Hf; set_solver).
Qed.

Lemma flat_mapM_fueled {A B} (f : A -> res (list B)) l :
  (forall x, x ∈ l -> f x <> NoFuel) -> flat_mapM f l <> NoFuel.
Proof.
  intros Hf. unfold flat_mapM. apply bind_not_NoFuel; [|done].
  induction l as [|x l IH]; [done|]. cbn. apply bind_not_NoFuel; [apply Hf; set_solver|]. intros y _.
  apply bind_not_NoFuel; [apply IH; intros; apply Hf; set_solver|done].
Qed.

(** *** Outputs *)

Definition labels_of (srcs : list BuildInput) : list BuildLabel := omap input_Label srcs.

(** The outputs of the filegroup [x] include outputs of [y]. *)
Definition regroups (g : BuildGraph) (x y : BuildLabel) : Prop :=
  exists t l d, Target g x = Some t /\ IsFilegroup t = true /\ l ∈ labels_of (AllSources t) /\
    Target g l = Some d /\ y ∈ ProvideFor d t /\ is_Some (Target g y).

Lemma elem_of_AllSources_named t name srcs i :
  NamedSources t !! name = Some srcs -> i ∈ srcs -> i ∈ AllSources t.
Proof.
  intros Hn Hi. apply elem_of_combined. eauto.
Qed.

Section outputs.
Context (home : string) (g : BuildGraph) (Hwf : graph_wf g).

#[local] Abbreviation nodes := (list_to_set (graph_AllTargets g) : gset BuildLabel).

Lemma TargetOrDie_fueled l : TargetOrDie g l <> NoFuel.
Proof. unfold TargetOrDie. by destruct (Target g l). Qed.

Lemma TargetOrDie_Ok l t : TargetOrDie g l = Ok t <-> Target g l = Some t.
Proof. unfold TargetOrDie. destruct (Target g l); naive_solver. Qed.

Lemma filegroupOutputs_fueled outs named t srcs :
  (forall l d p tp, l ∈ labels_of srcs -> Target g l = Some d -> p ∈ ProvideFor d t -> Target g p = Some tp ->
    outs tp <> NoFuel /\ forall a, named a tp <> NoFuel) ->
  filegroupOutputs home g outs named t srcs <> NoFuel.
Proof.
  intros H. apply flat_mapM_fueled. intros src Hsrc.
  assert (forall l f, input_Label src = Some l ->
    (forall d p tp, Target g l = Some d -> p ∈ ProvideFor d t -> Target g p = Some tp -> f tp <> NoFuel) ->
    provided_outputs g t l f <> NoFuel) as Hp.
  { intros l f Hl Hfl. apply bind_not_NoFuel; [apply TargetOrDie_fueled|]. intros d Hd%TargetOrDie_Ok.
    apply flat_mapM_fueled. intros p Hpd. apply bind_not_NoFuel; [apply TargetOrDie_fueled|].
    intros tp Htp%TargetOrDie_Ok. eauto. }
  assert (forall l, input_Label src = Some l -> l ∈ labels_of srcs) as Hin.
  { intros l Hl. apply list_elem_of_omap. eauto. }
  destruct src; try (cbn; discriminate).
  - apply Hp; [done|]. intros d p tp Hd Hpd Htp. by eapply H; [apply Hin| | |].
  - apply Hp; [done|]. intros d p tp Hd Hpd Htp. by eapply H; [apply Hin| | |].
Qed.

Lemma outputs_fuel_enough (Hac : forall x, ~ tc (regroups g) x x) n x t :
  Target g x = Some t -> size nodes < n ->
  Outputs_fuel home n g t <> NoFuel /\ forall name, NamedOutputs_fuel home n g t name <> NoFuel.
Proof.
  intros Hx Hn. enough (forall t, Target g x = Some t ->
    Outputs_fuel home n g t <> NoFuel /\ forall name, NamedOutputs_fuel home n g t name <> NoFuel) by auto.
  assert (x ∈ nodes) as Hxn by (apply elem_of_list_to_set, elem_of_AllTargets; [done|by eexists]). clear t Hx.
  revert n x Hxn Hn. apply (acyclic_fuel (regroups g) nodes
    (fun n x => forall t, Target g x = Some t -> Outputs_fuel home n g t <> NoFuel /\
       forall name, NamedOutputs_fuel home n g t name <> NoFuel)); [done| |].
  - intros x y _ (t & l & d & _ & _ & _ & _ & _ & Hy). apply elem_of_list_to_set. by apply elem_of_AllTargets.
  - intros n x _ IH t Ht. destruct (IsFilegroup t) eqn:Hfg.
    + assert (forall srcs, (forall i, i ∈ srcs -> i ∈ AllSources t) ->
        filegroupOutputs home g (Outputs_fuel home n g) (fun name t => NamedOutputs_fuel home n g t name) t srcs <> NoFuel) as Hs.
      { intros srcs Hsub. apply filegroupOutputs_fueled. intros l d p tp (i & Hi & Hl)%list_elem_of_omap Hd Hp Htp.
        destruct (IH p) with (t := tp); [|done|by split]. exists t, l, d. split_and!; [done..| |done|done|by eexists].
        apply list_elem_of_omap. eauto. }
      split; cbn; rewrite Hfg.
      * apply bind_not_NoFuel; [by apply Hs|done].
      * intros name. destruct (NamedSources t !! name) eqn:Hn; [|done]. apply Hs. intros i. by eapply elem_of_AllSources_named.
    + split; cbn; by rewrite Hfg.
Qed.
End outputs.

(** *** Dependencies *)

(** [x] provides [y] instead of itself. *)
Definition provides_edge (g : BuildGraph) (x y : BuildLabel) : Prop :=
  x <> y /\ exists t lang ls, Target g x = Some t /\ Provides t !! lang = Some ls /\ y ∈ ls.

(** Everything targets refer to is there, and what they provide does not go around. *)
Record resolvable (g : BuildGraph) : Prop := {
  resolvable_runtime : rd_closed g;
  resolvable_deps x t d : Target g x = Some t -> d ∈ dependencies t -> is_Some (Target g (dep_Label d));
  resolvable_provides x t lang ls l :
    Target g x = Some t -> Provides t !! lang = Some ls -> l ∈ ls -> is_Some (Target g l);
  resolvable_acyclic x : ~ tc (provides_edge g) x x;
}.

Lemma elem_of_ProvideFor d t y :
  y ∈ ProvideFor d t -> y = Label d \/ exists lang ls, Provides d !! lang = Some ls /\ y ∈ ls.
Proof.
  unfold ProvideFor. destruct (provideFor d t) as [ls|] eqn:E; [|intros ->%list_elem_of_singleton; by left].
  unfold provideFor in E. repeat case_match; try done. simplify_eq. intros Hy. right.
  assert (y ∈ concat (omap (fun require => Provides d !! require) (Requires t))) as Hy'.
  { match goal with H : omap _ _ = _ |- _ => by rewrite H end. }
  apply list_elem_of_In, in_concat in Hy' as (ls & Hls%list_elem_of_In & Hy'%list_elem_of_In). apply list_elem_of_omap in Hls as (lang & _ & Hls). eauto.
Qed.

(** All of the results, when there is one for each. *)
Lemma flat_mapM_total {A B} (f : A -> res (list B)) l :
  (forall x, x ∈ l -> exists r, f x = Ok r) ->
  exists r, flat_mapM f l = Ok r /\ forall y, y ∈ r <-> exists x rx, x ∈ l /\ f x = Ok rx /\ y ∈ rx.
Proof.
  intros Hf. exists (l ≫= fun x => from_Ok [] (f x)). split.
  - apply flat_mapM_Ok. intros x Hx. by destruct (Hf x Hx) as [r ->].
  - intros y. rewrite list_elem_of_bind. split.
    + intros (x & Hy & Hx). destruct (Hf x Hx) as [r Hr]. rewrite Hr in Hy. eauto.
    + intros (x & rx & Hx & Hr & Hy). exists x. rewrite Hr. done.
Qed.

Section dependencies.
Context (g : BuildGraph) (Hwf : graph_wf g) (Hres : resolvable g).

#[local] Abbreviation nodes := (list_to_set (graph_AllTargets g) : gset BuildLabel).

Lemma elem_of_nodes l : l ∈ nodes <-> is_Some (Target g l).
Proof. by rewrite elem_of_list_to_set, elem_of_AllTargets. Qed.

Lemma nodes_fuel : size nodes < outputs_fuel g.
Proof. unfold outputs_fuel. pose proof (size_list_to_set_le (graph_AllTargets g)). lia. Qed.

Lemma ProvideFor_in_graph x d t y : Target g x = Some d -> y ∈ ProvideFor d t -> is_Some (Target g y).
Proof.
  intros Hd [->|(lang & ls & Hl & Hy)]%elem_of_ProvideFor; [|by eapply (resolvable_provides g Hres)].
  rewrite (Target_Label g x d) by done. by eexists.
Qed.

Lemma provide_for_total target dependency dep :
  is_Some (Target g dep) ->
  exists ps, provide_for g target dependency dep = Ok ps /\ forall p, p ∈ ps -> is_Some (Target g p).
Proof.
  intros Hdep%elem_of_nodes. apply (acyclic_fuel (provides_edge g) nodes
    (fun n x => exists ps, recursivelyProvideFor n g target dependency x = Ok ps /\ forall p, p ∈ ps -> is_Some (Target g p)));
    [exact (resolvable_acyclic g Hres)| | |done|exact nodes_fuel].
  - intros x y _ (_ & t & lang & ls & Ht & Hls & Hy). apply elem_of_nodes. by eapply (resolvable_provides g Hres).
  - intros n x [d Hd]%elem_of_nodes IH. cbn. rewrite (proj2 (TargetOrDie_Ok g x d) Hd). cbn.
    set (ret := if bool_decide _ then _ else _).
    assert (forall r, r ∈ ret -> exists t, r ∈ ProvideFor d t) as Hret by (intros r; unfold ret; case_bool_decide; eauto).
    destruct (flat_mapM_total (fun r => if decide (r = x) then Ok [r] else recursivelyProvideFor n g target dependency r) ret)
      as (ps & -> & Hps).
    { intros r Hr. case_decide as Hne; [by eexists|]. destruct (Hret r Hr) as [t Hrt].
      destruct (IH r) as (ps & Hps & _); [|by eexists]. split; [congruence|].
      apply elem_of_ProvideFor in Hrt as [->|(lang & ls & Hl & Hy)]; [|by exists d, lang, ls].
      exfalso. apply Hne. by apply (Target_Label g). }
    exists ps. split; [done|]. intros p (r & rx & Hr & Hrx & Hp)%Hps. destruct (Hret r Hr) as [t Hrt].
    case_decide as Hne; [simplify_eq; apply list_elem_of_singleton in Hp as ->; by eexists|].
    destruct (IH r) as (ps' & Hps' & Hin).
    { split; [congruence|]. apply elem_of_ProvideFor in Hrt as [->|(lang & ls & Hl & Hy)]; [|by exists d, lang, ls].
      exfalso. apply Hne. by apply (Target_Label g). }
    rewrite Hps' in Hrx. simplify_eq. auto.
Qed.

(** What [d] brings with it: itself and what it needs at run time. *)
Definition brings (d : BuildLabel) (i : BuildInput) : Prop :=
  i = LabelInput d \/ exists deps r, IterAllRuntimeDependencies g d = Ok deps /\ r ∈ deps /\ i = LabelInput r.

Lemma with_runtime_total d : is_Some (Target g d) -> exists r, with_runtime g d = Ok r /\ forall i, i ∈ r <-> brings d i.
Proof.
  intros Hd. destruct (runtime_yields g d Hwf (resolvable_runtime g Hres) Hd) as (deps & Hdeps & _).
  destruct Hd as [t Ht]. unfold with_runtime, brings. rewrite (proj2 (TargetOrDie_Ok g d t) Ht), Hdeps. cbn.
  eexists. split; [done|]. intros i. rewrite elem_of_cons, list_elem_of_In, in_map_iff. f_equiv. split.
  - intros (r & <- & Hr%list_elem_of_In). by exists deps, r.
  - intros (? & r & [= <-] & Hr & ->). exists r. by rewrite <- list_elem_of_In.
Qed.

(** The targets a build of [target] goes on to from [x]: what its build dependencies
    resolve to, from [target] itself or if it needs everything transitively; otherwise
    what its exported dependencies resolve to. *)
Definition depends (target : BuildTarget) (x y : BuildLabel) : Prop :=
  exists d, Target g x = Some d /\
    if bool_decide (x = Label target) || NeedsTransitiveDependencies target && negb (OutputIsComplete d)
    then exists dep dt p ps, dep ∈ BuildDependencies d /\ Target g dep = Some dt /\ p ∈ ProvideFor dt d /\
      provide_for g target d p = Ok ps /\ y ∈ ps /\ IsTool d y = false
    else exists dep ps, dep ∈ ExportedDependencies d /\ provide_for g target d dep = Ok ps /\ y ∈ ps.

Lemma dep_labels_in_graph f x t l : Target g x = Some t -> l ∈ dep_labels f t -> is_Some (Target g l).
Proof.
  intros Ht (d & -> & Hd%list_elem_of_filter)%list_elem_of_fmap. by eapply (resolvable_deps g Hres); [|apply Hd].
Qed.

Lemma inner_deps_total target x d :
  Target g x = Some d ->
  exists deps, inner_deps g target d = Ok deps /\
    forall y, (y ∈ deps <-> depends target x y) /\ (y ∈ deps -> is_Some (Target g y)).
Proof.
  intros Hd. pose proof (Target_Label g x d Hwf Hd) as Hlabel.
  assert (forall ds, (forall p, p ∈ ds -> is_Some (Target g p)) ->
    exists ps, flat_mapM (provide_for g target d) ds = Ok ps /\
      (forall y, y ∈ ps <-> exists p r, p ∈ ds /\ provide_for g target d p = Ok r /\ y ∈ r) /\
      forall y, y ∈ ps -> is_Some (Target g y)) as Hprov.
  { intros ds Hds. destruct (flat_mapM_total (provide_for g target d) ds) as (ps & Hps & Hin).
    { intros p Hp. destruct (provide_for_total target d p (Hds p Hp)) as (r & Hr & _). by eexists. }
    exists ps. split_and!; [done..|]. intros y (p & r & Hp & Hr & Hy)%Hin.
    destruct (provide_for_total target d p (Hds p Hp)) as (r' & Hr' & Hall). rewrite Hr in Hr'. simplify_eq. auto. }
  unfold inner_deps, depends. rewrite Hlabel.
  destruct (bool_decide (x = Label target) || NeedsTransitiveDependencies target && negb (OutputIsComplete d)) eqn:Hall.
  - destruct (flat_mapM_total (fun dep => d0 ← TargetOrDie g dep; Ok (ProvideFor d0 d)) (BuildDependencies d))
      as (provided & -> & Hprovided).
    { intros dep Hdep. destruct (dep_labels_in_graph _ _ _ _ Hd Hdep) as [dt Hdt]. exists (ProvideFor dt d).
      by rewrite (proj2 (TargetOrDie_Ok g dep dt) Hdt). }
    assert (forall p, p ∈ provided <-> exists dep dt, dep ∈ BuildDependencies d /\ Target g dep = Some dt /\ p ∈ ProvideFor dt d)
      as Hprov'.
    { intros p. rewrite Hprovided. split.
      - intros (dep & r & Hdep & Hr & Hp). destruct (dep_labels_in_graph _ _ _ _ Hd Hdep) as [dt Hdt].
        rewrite (proj2 (TargetOrDie_Ok g dep dt) Hdt) in Hr. cbn in Hr. simplify_eq. eauto.
      - intros (dep & dt & Hdep & Hdt & Hp). exists dep, (ProvideFor dt d). by rewrite (proj2 (TargetOrDie_Ok g dep dt) Hdt). }
    destruct (Hprov (sort_labels provided)) as (ps & Hps & Hin & Hgraph).
    { intros p (dep & dt & _ & Hdt & Hp)%elem_of_sort_labels%Hprov'. by eapply ProvideFor_in_graph. }
    cbn. rewrite Hps. cbn. eexists. split; [done|]. intros y. rewrite list_elem_of_filter. split; [|naive_solver].
    split.
    + intros (Htool & (p & r & (dep & dt & ? & ? & ?)%elem_of_sort_labels%Hprov' & Hr & Hy)%Hin).
      exists d. split; [done|]. rewrite Hall. naive_solver.
    + intros (d' & Hd' & H). simplify_eq. rewrite Hall in H. destruct H as (dep & dt & p & r & ? & ? & ? & ? & ? & ?).
      split; [done|]. apply Hin. exists p, r. split_and!; [|done..]. apply elem_of_sort_labels, Hprov'. eauto.
  - destruct (Hprov (ExportedDependencies d)) as (ps & Hps & Hin & Hgraph).
    { intros p Hp. by eapply dep_labels_in_graph. }
    exists ps. split; [done|]. intros y. split; [|auto]. rewrite Hin. split.
    + intros (p & r & ? & ? & ?). exists d. split; [done|]. rewrite Hall. eauto.
    + intros (d' & Hd' & H). simplify_eq. rewrite Hall in H. destruct H as (p & r & ? & ? & ?). eauto.
Qed.

(** *** The walk *)

Section walk.
Context (target : BuildTarget) (Htarget : Target g (Label target) = Some target).

Definition inner_succ (x : BuildLabel) : list BuildLabel :=
  match Target g x with Some d => from_Ok [] (inner_deps g target d) | None => [] end.

Definition inner_emit (x : BuildLabel) : list BuildInput :=
  if decide (x = Label target) then [] else from_Ok [] (with_runtime g x).

Lemma inner_edge x y : x ∈ nodes -> edge inner_succ x y <-> depends target x y.
Proof.
  intros [d Hd]%elem_of_nodes. unfold edge, inner_succ. rewrite Hd.
  destruct (inner_deps_total target x d Hd) as (deps & -> & H). apply H.
Qed.

Lemma inner_step fuel st x :
  x ∈ nodes ->
  inner (S fuel) g target st x =
  foldM (visit_new (fun fuel => inner fuel g target) fuel) ({[x]} ∪ st.1, st.2 ++ inner_emit x) (inner_succ x).
Proof.
  intros [d Hd]%elem_of_nodes. cbn. unfold inner_emit, inner_succ. rewrite Hd.
  destruct (inner_deps_total target x d Hd) as (deps & Hdeps & _).
  destruct (with_runtime_total x) as (r & Hr & _); [by eexists|].
  destruct (decide (x = Label target)) as [->|Hne]; cbn; simplify_eq.
  - by rewrite Hdeps.
  - rewrite (proj2 (TargetOrDie_Ok g x d) Hd), Hr. cbn. by rewrite Hdeps.
Qed.

Lemma inner_closed : closed_set inner_succ nodes.
Proof.
  intros x y [d Hd]%elem_of_nodes. unfold edge, inner_succ. rewrite Hd.
  destruct (inner_deps_total target x d Hd) as (deps & -> & H). intros Hy. apply elem_of_nodes. by apply H.
Qed.

Lemma depends_rtc x y : x ∈ nodes -> rtc (edge inner_succ) x y <-> rtc (depends target) x y.
Proof.
  intros Hx. split; intros H; revert Hx; induction H as [x|x y z Hxy _ IH]; intros Hx; try done.
  - eapply rtc_l; [by apply inner_edge|]. apply IH. by eapply inner_closed.
  - apply inner_edge in Hxy; [|done]. eapply rtc_l; [done|]. apply IH. by eapply inner_closed.
Qed.

Lemma inner_spec out :
  exists st, inner (outputs_fuel g) g target (∅, out) (Label target) = Ok st /\
    forall i, i ∈ st.2 <-> i ∈ out \/ exists d, d <> Label target /\ rtc (depends target) (Label target) d /\ brings d i.
Proof.
  assert (Label target ∈ nodes) as Hroot by (apply elem_of_nodes; by eexists).
  destruct (visit_emit_root inner_succ inner_emit nodes (fun fuel => inner fuel g target)
    inner_closed inner_step (outputs_fuel g) out (Label target)) as (news & -> & _ & Hnews); [done|apply nodes_fuel|].
  eexists. split; [done|]. intros i. cbn. rewrite elem_of_app, list_elem_of_bind. f_equiv.
  assert (forall d, d ∈ news -> d ∈ nodes) as Hin.
  { intros d Hd%Hnews. by eapply (closed_rtc inner_succ); [apply inner_closed|..]. }
  unfold inner_emit. split.
  - intros (d & Hi & Hd). case_decide as Hne; [by apply not_elem_of_nil in Hi|]. exists d. split; [done|].
    split; [by apply depends_rtc, Hnews|]. specialize (Hin d Hd). apply elem_of_nodes in Hin.
    destruct (with_runtime_total d Hin) as (r & Hr & Hir). rewrite Hr in Hi. by apply Hir.
  - intros (d & Hne & Hd & Hi). apply depends_rtc, Hnews in Hd; [|done]. exists d. split; [|done].
    rewrite decide_False by done. specialize (Hin d Hd). apply elem_of_nodes in Hin.
    destruct (with_runtime_total d Hin) as (r & -> & Hir). by apply Hir.
Qed.

(** What a source comes to: a file itself, a label what it resolves to. *)
Definition source_brings (src i : BuildInput) : Prop :=
  match nonOutputLabel src with
  | Some label => exists ps p, provide_for g target target label = Ok ps /\ p ∈ ps /\ brings p i
  | None => i = src
  end.

Lemma recursivelyProvideSource_total src :
  (forall l, nonOutputLabel src = Some l -> is_Some (Target g l)) ->
  exists r, recursivelyProvideSource g target src = Ok r /\ forall i, i ∈ r <-> source_brings src i.
Proof.
  intros Hsrc. unfold recursivelyProvideSource, source_brings. destruct (nonOutputLabel src) as [l|] eqn:E.
  - destruct (provide_for_total target target l) as (ps & Hps & Hin); [by apply Hsrc|]. rewrite Hps. cbn.
    destruct (flat_mapM_total (with_runtime g) ps) as (r & Hr & Hir).
    { intros p Hp. destruct (with_runtime_total p (Hin p Hp)) as (r & Hr & _). by eexists. }
    exists r. split; [done|]. intros i. rewrite Hir. split.
    + intros (p & rp & Hp & Hrp & Hi). exists ps, p. split_and!; [done..|].
      destruct (with_runtime_total p (Hin p Hp)) as (rp' & Hrp' & Hb). rewrite Hrp' in Hrp. simplify_eq. by apply Hb.
    + intros (ps' & p & Hps' & Hp & Hi). simplify_eq.
      destruct (with_runtime_total p (Hin p Hp)) as (rp & Hrp & Hb). exists p, rp. split_and!; [done..|]. by apply Hb.
  - eexists. split; [done|]. intros i. by rewrite list_elem_of_singleton.
Qed.

Lemma sources_total srcs :
  (forall src l, src ∈ srcs -> nonOutputLabel src = Some l -> is_Some (Target g l)) ->
  exists r, flat_mapM (recursivelyProvideSource g target) srcs = Ok r /\
    forall i, i ∈ r <-> exists src, src ∈ srcs /\ source_brings src i.
Proof.
  intros Hsrcs. destruct (flat_mapM_total (recursivelyProvideSource g target) srcs) as (r & Hr & Hir).
  { intros src Hsrc. destruct (recursivelyProvideSource_total src) as (rs & Hrs & _); [|by eexists].
    intros l. by apply Hsrcs. }
  exists r. split; [done|]. intros i. rewrite Hir. split.
  - intros (src & rs & Hsrc & Hrs & Hi). exists src. split; [done|].
    destruct (recursivelyProvideSource_total src) as (rs' & Hrs' & Hb); [intros l; by apply Hsrcs|].
    rewrite Hrs' in Hrs. simplify_eq. by apply Hb.
  - intros (src & Hsrc & Hi).
    destruct (recursivelyProvideSource_total src) as (rs & Hrs & Hb); [intros l; by apply Hsrcs|].
    exists src, rs. split_and!; [done..|]. by apply Hb.
Qed.
End walk.
End dependencies.

(** C12: In a graph in which everything referred to exists and provides do not go around,
    the walk over the inputs of a target ends.  It yields exactly its sources (and tools,
    if these are asked for), labels as what they resolve to, and - unless only sources
    are wanted - every other target reached through build dependencies, or through
    exported ones where dependencies are not needed transitively; each target with what
    it needs at run time. *)
Theorem IterInputs_spec g target includeTools sourcesOnly :
  let srcs := AllSources target ++ if includeTools : bool then AllTools target else [] in
  graph_wf g -> resolvable g -> Target g (Label target) = Some target ->
  (forall src l, src ∈ srcs -> nonOutputLabel src = Some l -> is_Some (Target g l)) ->
  exists out, IterInputs g target includeTools sourcesOnly = Ok out /\
    forall i, i ∈ out <->
      (exists src, src ∈ srcs /\ source_brings g target src i) \/
      (sourcesOnly = false /\
       exists d, d <> Label target /\ rtc (depends g target) (Label target) d /\ brings g d i).
Proof.
  intros srcs Hwf Hres Ht Hsrcs. unfold IterInputs.
  destruct (sources_total g Hwf Hres target (AllSources target)) as (r1 & -> & Hr1).
  { intros src l Hsrc. apply Hsrcs. apply elem_of_app. by left. }
  assert (exists r2, (if includeTools then flat_mapM (recursivelyProvideSource g target) (AllTools target) else Ok []) = Ok r2 /\
    forall i, i ∈ r2 <-> exists src, src ∈ (if includeTools then AllTools target else []) /\ source_brings g target src i)
    as (r2 & Hr2' & Hr2).
  { destruct includeTools.
    - apply sources_total; [done..|]. intros src l Hsrc. apply Hsrcs. apply elem_of_app. by right.
    - exists []. split; [done|]. set_solver. }
  rewrite bind_Ok_l, Hr2', bind_Ok_l. clear Hr2'.
  assert (forall i, i ∈ r1 ++ r2 <-> exists src, src ∈ srcs /\ source_brings g target src i) as Hr.
  { intros i. rewrite elem_of_app, Hr1, Hr2. unfold srcs. split.
    - intros [(s & Hs & Hb)|(s & Hs & Hb)]; exists s; (split; [apply elem_of_app; auto|done]).
    - intros (s & [Hs|Hs]%elem_of_app & Hb); eauto. }
  destruct sourcesOnly.
  - eexists. split; [done|]. intros i. rewrite Hr. naive_solver.
  - destruct (inner_spec g Hwf Hres target Ht (r1 ++ r2)) as (st & -> & Hst). exists st.2. split; [done|].
    intros i. rewrite Hst, Hr. naive_solver.
Qed.

(** *** Sources and where they go *)

Section sources.
Context (home : string) (exists_file : string -> bool) (g : BuildGraph).

#[local] Abbreviation paths_of_input := (Paths home exists_file g).
#[local] Abbreviation full_paths := (FullPaths home exists_file g).

Lemma same_length (r : res (list string)) (d1 d2 : string) ps :
  (outs ← r; Ok (addPathPrefix outs d1)) = Ok ps ->
  exists fs, (outs ← r; Ok (addPathPrefix outs d2)) = Ok fs /\ length fs = length ps.
Proof. destruct r; cbn; [|done..]. intros [= <-]. eexists. split; [done|]. unfold addPathPrefix. by rewrite !length_map. Qed.

(** There is a full path for each path. *)
Lemma FullPaths_Paths i ps : paths_of_input i = Ok ps -> exists fs, full_paths i = Ok fs /\ length fs = length ps.
Proof.
  assert (forall l, label_Paths home g l = Ok ps -> exists fs, label_FullPaths home g l = Ok fs /\ length fs = length ps) as Hl.
  { intros l. unfold label_Paths, label_FullPaths. destruct (TargetOrDie g l); cbn; [|done..]. apply same_length. }
  destruct i; cbn; try (intros H; eexists; split; [exact H|done]); try (intros [= <-]; by eexists); [apply Hl|].
  destruct (TargetOrDie g label); cbn; [|done..]. case_bool_decide; [apply Hl|apply same_length].
Qed.

Definition tmp_of (target : BuildTarget) (p : string) : string := path_join [target_TmpDir target; p].

(** What holds of the pairs after some pairs of a full path and a path. *)
Record sources_ok (target : BuildTarget) (seen : list (string * string)) (pairs : list (string * string)) : Prop := {
  sources_once : NoDup pairs.*2;
  sources_all full p : (full, p) ∈ seen -> tmp_of target p ∈ pairs.*2;
  sources_only full tmp : (full, tmp) ∈ pairs -> exists p, (full, p) ∈ seen /\ tmp = tmp_of target p;
}.

Lemma add_sources_ok target seen pairs more :
  sources_ok target seen pairs -> sources_ok target (seen ++ more) (add_sources (target_TmpDir target) pairs more).
Proof.
  revert seen pairs. induction more as [|[full p] more IH]; intros seen pairs Hok; cbn; [by rewrite app_nil_r|].
  rewrite cons_middle, app_assoc. apply IH. clear IH. fold (tmp_of target p). destruct Hok as [Hnd Hall Honly].
  case_decide as Hin.
  - split; [done| |].
    + intros f q [H|[= -> ->]%list_elem_of_singleton]%elem_of_app; [by eapply Hall|done].
    + intros f tmp (q & Hq & ->)%Honly. exists q. split; [|done]. apply elem_of_app. by left.
  - split.
    + rewrite fmap_app. apply NoDup_app. split_and!; [done| |apply NoDup_singleton].
      intros x Hx ->%list_elem_of_singleton. done.
    + intros f q [H|[= -> ->]%list_elem_of_singleton]%elem_of_app; rewrite fmap_app; apply elem_of_app;
        [left; by eapply Hall|right; by apply list_elem_of_singleton].
    + intros f tmp [H|[= -> ->]%list_elem_of_singleton]%elem_of_app.
      * destruct (Honly f tmp H) as (q & Hq & ->). exists q. split; [|done]. apply elem_of_app. by left.
      * exists p. split; [|done]. apply elem_of_app. right. by apply list_elem_of_singleton.
Qed.

(** The full paths and paths of some inputs. *)
Definition pairs_of (inputs : list BuildInput) : list (string * string) :=
  inputs ≫= fun i => zip (from_Ok [] (full_paths i)) (from_Ok [] (paths_of_input i)).

Lemma sources_loop target inputs seen pairs :
  (forall i, i ∈ inputs -> exists ps, paths_of_input i = Ok ps) -> sources_ok target seen pairs ->
  exists pairs', foldM (fun pairs input =>
      fullPaths ← full_paths input;
      paths ← paths_of_input input;
      if (length paths <=? length fullPaths)%nat then Ok (add_sources (target_TmpDir target) pairs (zip fullPaths paths))
      else Err EIndex) pairs inputs = Ok pairs' /\ sources_ok target (seen ++ pairs_of inputs) pairs'.
Proof.
  revert seen pairs. induction inputs as [|i inputs IH]; intros seen pairs Hps Hok.
  { exists pairs. split; [done|]. by rewrite app_nil_r. }
  destruct (Hps i) as [ps Hi]; [set_solver|]. destruct (FullPaths_Paths i ps Hi) as (fs & Hfs & Hlen).
  cbn [foldM]. rewrite Hfs, bind_Ok_l, Hi, bind_Ok_l, (proj2 (Nat.leb_le _ _)) by lia. cbn.
  rewrite Hfs, Hi. cbn. rewrite app_assoc. apply IH; [intros; apply Hps; set_solver|]. by apply add_sources_ok.
Qed.

(** If the paths of all the inputs of a target can be found, [IterSources] pairs the
    full path of each of them with its place in the temporary directory - the ones that
    have the same place only once, with the full path of the first. *)
Theorem IterSources_spec target includeTools inputs :
  IterInputs g target includeTools false = Ok inputs ->
  (forall i, i ∈ inputs -> exists ps, paths_of_input i = Ok ps) ->
  exists pairs, IterSources home exists_file g target includeTools = Ok pairs /\ sources_ok target (pairs_of inputs) pairs.
Proof.
  intros Hin Hps. unfold IterSources. rewrite Hin, bind_Ok_l.
  apply (sources_loop target inputs [] []); [done|]. split; [by constructor|set_solver..].
Qed.
End sources.

(** C90: Every target's outputs can be worked out: filegroups re-export the outputs of their
    sources, which may be filegroups themselves, and if no filegroup re-exports itself the
    recursion ends. *)
Theorem Outputs_total home g l t name :
  graph_wf g -> (forall x, ~ tc (regroups g) x x) -> Target g l = Some t ->
  Outputs home g t <> NoFuel /\ NamedOutputs home g t name <> NoFuel.
Proof.
  intros Hwf Hac Ht. destruct (outputs_fuel_enough home g Hwf Hac (outputs_fuel g) l t Ht (nodes_fuel g)) as [H1 H2].
  split; [exact H1|apply H2].
Qed.

(** ** Provides that go around *)

Definition provides (lang : string) (l : BuildLabel) (t : BuildTarget) : BuildTarget := AddProvide t lang [l].

(** [a] provides [b] for a language, and [b] provides [a]. *)
Definition provide_cycle : BuildGraph :=
  build_graph
    [provides "go" (ex_label "b") (NewBuildTarget (ex_label "a")); provides "go" (ex_label "a") (NewBuildTarget (ex_label "b"));
     with_dep (ex_label "a") (AddRequire (NewBuildTarget (ex_label "c")) "go")].

Definition provide_target (n : string) : BuildTarget := default (NewBuildTarget (ex_label n)) (Target provide_cycle (ex_label n)).

Lemma provide_for_step n g target dependency dep d p :
  TargetOrDie g dep = Ok d -> ProvideFor d dependency = [p] -> p <> dep ->
  recursivelyProvideFor n g target dependency p = NoFuel ->
  recursivelyProvideFor (S n) g target dependency dep = NoFuel.
Proof.
  intros Hd Hp Hne Hn. cbn. rewrite Hd. cbn. rewrite Hp, bool_decide_eq_false_2 by congruence.
  unfold flat_mapM. cbn. rewrite decide_False by done. by rewrite Hn.
Qed.

(** Nothing keeps targets from providing each other for a language.  Nothing depends on
    itself then, but working out the inputs of a target that requires the language and
    depends on one of them does not end. *)
Theorem provide_cycle_diverges :
  cycle_Check provide_cycle = Ok None /\
  exists t, Target provide_cycle (ex_label "c") = Some t /\ ex_label "a" ∈ BuildDependencies t /\
    forall fuel, recursivelyProvideFor fuel provide_cycle t t (ex_label "a") = NoFuel.
Proof.
  split; [by vm_compute|]. exists (provide_target "c").
  assert (forall n, n = "a" \/ n = "b" \/ n = "c" -> Target provide_cycle (ex_label n) = Some (provide_target n)) as Ht
    by (intros n [->|[->| ->]]; vm_compute; reflexivity).
  split_and!; [by apply Ht; auto|vm_compute; apply list_elem_of_here|].
  assert (forall fuel, recursivelyProvideFor fuel provide_cycle (provide_target "c") (provide_target "c") (ex_label "a") = NoFuel /\
    recursivelyProvideFor fuel provide_cycle (provide_target "c") (provide_target "c") (ex_label "b") = NoFuel) as H;
    [|intros fuel; apply H].
  induction fuel as [|fuel [IHa IHb]]; [done|]. split.
  - apply (provide_for_step _ _ _ _ _ (provide_target "a") (ex_label "b")); [apply TargetOrDie_Ok, Ht; auto|by vm_compute|done|done].
  - apply (provide_for_step _ _ _ _ _ (provide_target "b") (ex_label "a")); [apply TargetOrDie_Ok, Ht; auto|by vm_compute|done|done].
Qed.

(** ** Examples *)

(** A target made of a file and of a filegroup. *)
Definition inputs_example : BuildGraph :=
  build_graph
    [with_dep (ex_label "lib") (upd_Sources (fun _ => [FileLabel "main.go" "p"]) (NewBuildTarget (ex_label "bin")));
     upd_IsFilegroup (fun _ => true) (upd_Sources (fun _ => [FileLabel "lib.go" "p"]) (NewBuildTarget (ex_label "lib")))].

Definition inputs_target (n : string) : BuildTarget := default (NewBuildTarget (ex_label n)) (Target inputs_example (ex_label n)).

(** Graphs in which nothing is provided. *)
Lemma resolvable_check g :
  graph_wf g ->
  all_targets g (fun t =>
    forallb (fun s => match s with Ok (_, p) => in_graph g p | _ => false end) (push_steps g t) &&
    forallb (fun d => in_graph g (dep_Label d)) (dependencies t) && bool_decide (Provides t = ∅)) = true ->
  resolvable g.
Proof.
  intros Hwf Hall.
  assert (forall l t, Target g l = Some t ->
    forallb (fun s => match s with Ok (_, p) => in_graph g p | _ => false end) (push_steps g t) = true /\
    forallb (fun d => in_graph g (dep_Label d)) (dependencies t) = true /\ Provides t = ∅) as Ht.
  { intros l t Ht. pose proof (all_targets_spec g _ l t Hwf Hall Ht) as H.
    apply andb_true_iff in H as [[H1 H2]%andb_true_iff H3%bool_decide_eq_true]. done. }
  split.
  - intros l t s Hl Hs. destruct (Ht l t Hl) as (Hp & _). rewrite forallb_forall in Hp.
    apply list_elem_of_In in Hs. specialize (Hp s Hs). destruct s as [[y p]| |]; [|done..].
    exists y, p. by apply bool_decide_eq_true in Hp.
  - intros x t d Hx Hd. destruct (Ht x t Hx) as (_ & Hp & _). rewrite forallb_forall in Hp.
    apply list_elem_of_In in Hd. specialize (Hp d Hd). by apply bool_decide_eq_true in Hp.
  - intros x t lang ls l Hx Hls. destruct (Ht x t Hx) as (_ & _ & Hp). by rewrite Hp, lookup_empty in Hls.
  - intros x Htc. assert (exists y, provides_edge g x y) as (y & _ & t & lang & ls & Hx & Hls & _) by (inversion Htc; eauto).
    destruct (Ht x t Hx) as (_ & _ & Hp). by rewrite Hp, lookup_empty in Hls.
Qed.

Lemma inputs_example_wf : graph_wf inputs_example.
Proof. apply build_graph_wf. Qed.

Lemma inputs_example_resolvable : resolvable inputs_example.
Proof. apply resolvable_check; [apply inputs_example_wf|by vm_compute]. Qed.

Lemma IterInputs_spec_witness :
  exists out, IterInputs inputs_example (inputs_target "bin") false false = Ok out /\
    forall i, i ∈ out <->
      (exists src, src ∈ AllSources (inputs_target "bin") ++ [] /\ source_brings inputs_example (inputs_target "bin") src i) \/
      (false = false /\
       exists d, d <> Label (inputs_target "bin") /\
         rtc (depends inputs_example (inputs_target "bin")) (Label (inputs_target "bin")) d /\ brings inputs_example d i).
Proof.
  apply (IterInputs_spec inputs_example (inputs_target "bin") false false).
  - apply inputs_example_wf.
  - apply inputs_example_resolvable.
  - vm_compute. reflexivity.
  - intros src l Hsrc. assert (src = FileLabel "main.go" "p") as ->.
    { vm_compute in Hsrc. by apply list_elem_of_singleton in Hsrc. }
    discriminate.
Defined.

Lemma IterSources_spec_witness :
  exists pairs, IterSources "/home" (fun _ => true) inputs_example (inputs_target "bin") false = Ok pairs /\
    sources_ok (inputs_target "bin") (pairs_of "/home" (fun _ => true) inputs_example [FileLabel "main.go" "p"; LabelInput (ex_label "lib")]) pairs.
Proof.
  apply IterSources_spec.
  - vm_compute. reflexivity.
  - intros i Hi. exists (from_Ok [] (Paths "/home" (fun _ => true) inputs_example i)).
    apply elem_of_cons in Hi as [->|Hi]; [vm_compute; reflexivity|]. apply list_elem_of_singleton in Hi as ->. vm_compute. reflexivity.
Defined.

Lemma Outputs_total_witness :
  Outputs "/home" inputs_example (inputs_target "lib") <> NoFuel /\ NamedOutputs "/home" inputs_example (inputs_target "lib") "go" <> NoFuel.
Proof.
  apply (Outputs_total "/home" inputs_example (ex_label "lib") (inputs_target "lib") "go").
  - apply inputs_example_wf.
  - intros x Htc. assert (exists y, regroups inputs_example x y) as (y & t & l & d & Ht & Hfg & Hl & _) by (inversion Htc; eauto).
    assert (forallb (fun l => match Target inputs_example l with
        | Some t => negb (IsFilegroup t) || bool_decide (labels_of (AllSources t) = []) | None => true end)
        (graph_AllTargets inputs_example) = true) as Hall by (vm_compute; reflexivity).
    rewrite forallb_forall in Hall.
    assert (x ∈ graph_AllTargets inputs_example) as Hx by (apply elem_of_AllTargets; [apply inputs_example_wf|by eexists]).
    apply list_elem_of_In in Hx. specialize (Hall x Hx). rewrite Ht, Hfg in Hall. apply bool_decide_eq_true in Hall.
    rewrite Hall in Hl. by apply not_elem_of_nil in Hl.
  - vm_compute. reflexivity.
Defined.
