(* ===== verification/Incrementality.v ===== *)
(** Incremental builds: [src/build/incrementality.go], with the attributes of
    [src/fs/attr.go].

    Whether a target needs building is decided by comparing hashes recorded on its
    outputs with those of the configuration, the rule, the sources and the secrets.
    What is hashed is a string here, of which [sha1] is a parameter; so is what
    [PathHasher] finds in files.  Extended attributes and files are finite maps; a file
    that exists and is not a symlink accepts attributes, which the code makes sure of
    by making it writable. *)
From S2P Require Import Prelude GoStrings Labels Targets Graph Inputs.
From Stdlib Require Import Ascii.

(** ** The file system *)

Record files := MkFiles {
  (** what exists, and what of it is a directory or a symlink *)
  present : gset string;
  directories : gset string;
  symlinks : gset string;
  (** the attribute with the rule hash, and the files that stand in for it *)
  xattrs : gmap string string;
  attr_files : gmap string string;
}.

Definition PathExists (fs : files) (p : string) : bool := bool_decide (p ∈ present fs).
Definition FileExists (fs : files) (p : string) : bool := bool_decide (p ∈ present fs /\ p ∉ directories fs).
Definition IsSymlink (fs : files) (p : string) : bool := bool_decide (p ∈ present fs /\ p ∈ symlinks fs).

(** [filepath.Split]: the directory with its slash. *)
Definition path_split (p : string) : string * string :=
  match last_index_byte "/" p with
  | Some i => (str_take (S i) p, str_drop (S i) p)
  | None => ("", p)
  end.

Definition fallbackFileName (filename : string) : string :=
  let '(dir, file) := path_split filename in dir +:+ ".rule_hash_" +:+ file.

Definition RecordAttrFile (fs : files) (filename hash : string) : files :=
  MkFiles (present fs) (directories fs) (symlinks fs) (xattrs fs) (<[fallbackFileName filename := hash]> (attr_files fs)).

(** [None] is an error. *)
Definition RecordAttr (xattrsEnabled : bool) (fs : files) (filename hash : string) : option files :=
  if negb xattrsEnabled then Some (RecordAttrFile fs filename hash)
  else if IsSymlink fs filename then Some (RecordAttrFile fs filename hash)
  else if PathExists fs filename
  then Some (MkFiles (present fs) (directories fs) (symlinks fs) (<[filename := hash]> (xattrs fs)) (attr_files fs))
  else None.

(** [None] is nil. *)
Definition ReadAttrFile (fs : files) (filename : string) : option string := attr_files fs !! fallbackFileName filename.

Definition ReadAttr (xattrsEnabled : bool) (fs : files) (filename : string) : option string :=
  if negb xattrsEnabled then ReadAttrFile fs filename
  else if IsSymlink fs filename then ReadAttrFile fs filename
  else if PathExists fs filename then xattrs fs !! filename else None.

(** ** What is hashed *)

(** The parts of the state and the environment that matter. *)
Record build_state := MkState {
  st_graph : BuildGraph;
  Hashes_Config : string;
  BuildConfig : string;
  FallbackConfig : string;
  XattrsSupported : bool;
  (** [ShouldRebuild] *)
  ForceRebuild : BuildLabel -> bool;
  (** the environment of the host *)
  st_host : gmap string string;
  on_path : string -> bool;
  (** the hash of a path that exists, unless it cannot be read: then whether [os.IsNotExist] *)
  hash_contents : string -> string + bool;
  path_exists : string -> bool;
}.

Definition getenv (st : build_state) : string -> string := Getenv (st_host st).
Definition home (st : build_state) : string := UserHomeDir (st_host st).

Section incrementality.
Context (sha1 : string -> string).
(** What is in the buffer after the attribute that was read. *)
Context (spare : string -> string).

(** [PathHasher.Hash].  The error for a path that does not exist is a new one, which
    [os.IsNotExist] does not recognise. *)
Definition Hash (st : build_state) (path : string) : string + bool :=
  if path_exists st path then hash_contents st path else inr false.

Definition hashBool (b : bool) : string := String (ascii_of_nat (if b then 2 else 1)) "".
Definition hashOptionalBool (b : bool) : string := if b then hashBool b else "".

Definition hashMap (eps : gmap string string) : string :=
  join "" ((fun ep => ep +:+ "=" +:+ default "" (eps !! ep)) <$> sorted_keys eps).

Definition hash_strings (l : list string) : string := join "" l.

(** What [ruleHash] writes to the hash. *)
Definition rule_input (st : build_state) (t : BuildTarget) (runtime : bool) : res string :=
  let build :=
    [ label_String (Label t);
      hash_strings (label_String <$> sort_labels (DeclaredDependencies t));
      hash_strings (label_String <$> Visibility t);
      hash_strings (Hashes t);
      hash_strings (input_String <$> AllSources t);
      hash_strings (outputs t);
      hash_strings (sorted_keys (namedOutputs t) ≫= fun name => name :: default [] (namedOutputs t !! name));
      hash_strings (Licences t);
      hash_strings (OptionalOutputs t);
      hash_strings (target_Labels t);
      hash_strings (Secrets t);
      hashBool (IsBinary t);
      hashOptionalBool (IsSubrepo t);
      hashOptionalBool (Sandbox t);
      GetCommand (BuildConfig st) (FallbackConfig st) t;
      hashBool (NeedsTransitiveDependencies t);
      hashBool (OutputIsComplete t);
      hashBool (Stamp t);
      hashBool (IsFilegroup t);
      hashBool (IsTextFile t);
      hashBool (IsRemoteFile t);
      hashBool (Local t);
      hashBool (SrcListFiles t);
      hashOptionalBool (ExitOnError t);
      hash_strings (Requires t);
      hash_strings (sorted_keys (Provides t) ≫= fun lang => lang :: (label_String <$> default [] (Provides t !! lang)));
      hashBool (PreBuildFunction t);
      hashBool (PostBuildFunction t);
      hash_strings (default [] (PassEnv t) ≫= fun env => [env; "="; getenv st env]);
      hash_strings (OutputDirectories t);
      hashMap (EntryPoints t);
      hashMap (Env t);
      FileContent t ] in
  run ← (if runtime
    then
      test ← match target_Test t with
             | None => Ok []
             | Some f =>
                 command ← GetTestCommand (BuildConfig st) (FallbackConfig st) t;
                 Ok [hash_strings (test_Outputs f); hashOptionalBool (test_Sandbox f); command; ArgsPlaceholder f]
             end;
      Ok (hash_strings (input_String <$> AllData t) :: test)
    else Ok []);
  Ok (hash_strings (build ++ run)).

Definition ruleHash (st : build_state) (t : BuildTarget) (runtime : bool) : res string :=
  input ← rule_input st t runtime; Ok (sha1 input).

Definition BuildCouldModifyTarget (t : BuildTarget) : bool :=
  PostBuildFunction t || bool_decide (OutputDirectories t <> []).

(** The hash, and the target it may be stored in. *)
Definition RuleHash (st : build_state) (t : BuildTarget) (runtime postBuild : bool) : res (string * BuildTarget) :=
  if runtime || postBuild && BuildCouldModifyTarget t then h ← ruleHash st t runtime; Ok (h, t)
  else if decide (target_RuleHash t <> "") then Ok (target_RuleHash t, t)
  else h ← ruleHash st t false; Ok (h, upd_RuleHash (fun _ => h) t).

(** Loops that stop with an error, which is [None]. *)
Fixpoint hash_paths (st : build_state) (paths : list (string * string)) : option string :=
  match paths with
  | [] => Some ""
  | (path, name) :: paths =>
      match Hash st path with
      | inl result => rest ← hash_paths st paths; Some (result +:+ name +:+ rest)
      | inr _ => None
      end
  end.

(** What [sourceHash] writes to the hash, if it can read everything. *)
Definition source_input (st : build_state) (t : BuildTarget) : res (option string) :=
  srcs ← IterSources (home st) (on_path st) (st_graph st) t false;
  match hash_paths st (map (fun src => (src.1, src.1)) srcs) with
  | None => Ok None
  | Some s =>
      tools ← flat_mapM (FullPaths (home st) (on_path st) (st_graph st)) (AllTools t);
      Ok (ts ← hash_paths st (map (fun path => (path, "")) tools); Some (s +:+ ts))
  end.

Definition sourceHash (st : build_state) (t : BuildTarget) : res (option string) :=
  input ← source_input st t; Ok (option_map sha1 input).

Definition noSecrets : string := "--------------------".

(** What is written for the secrets up to the first that does not exist. *)
Fixpoint hash_secrets (st : build_state) (secrets : list string) : (string + unit) + unit :=
  match secrets with
  | [] => inl (inl "")
  | secret :: secrets =>
      match Hash st (ExpandHomePath (home st) secret) with
      | inl ph => match hash_secrets st secrets with inl (inl rest) => inl (inl (ph +:+ rest)) | r => r end
      | inr true => inl (inr tt)
      | inr false => inr tt
      end
  end.

Definition secretHash (st : build_state) (t : BuildTarget) : option string :=
  if decide (Secrets t = []) then Some noSecrets
  else
    match hash_secrets st (Secrets t) with
    | inl (inl input) => Some (sha1 input)
    | inl (inr _) => Some noSecrets
    | inr _ => None
    end.

(** ** Recording and reading hashes *)

Definition targetHash (st : build_state) (t : BuildTarget) : res (option string * BuildTarget) :=
  '(h1, t) ← RuleHash st t false false;
  '(h2, t) ← RuleHash st t false true;
  h3 ← sourceHash st t;
  Ok (option_map (fun h3 => h1 +:+ h2 +:+ Hashes_Config st +:+ h3) h3, t).

Definition targetBuildMetadataFileName (t : BuildTarget) : string :=
  path_join [target_OutDir t; ".target_build_metadata_" +:+ Name (Label t)].

Definition fallback_of (t : BuildTarget) : string := path_join [target_OutDir t; Name (Label t)].

(** The files, the target, and whether there was no error. *)
Definition writeRuleHash (st : build_state) (fs : files) (t : BuildTarget) : res (files * BuildTarget * bool) :=
  '(hash, t) ← targetHash st t;
  match hash, secretHash st t with
  | Some hash, Some secret =>
      let hash := hash +:+ secret in
      outputs ← FullOutputs (home st) (st_graph st) t;
      if decide (outputs = []) then Ok (RecordAttrFile fs (fallback_of t) hash, t, true)
      else
        let '(fs, ok) := foldl (fun '(fs, ok) output =>
          if ok : bool then match RecordAttr (XattrsSupported st) fs output hash with Some fs => (fs, true) | None => (fs, false) end
          else (fs, ok)) (fs, true) outputs in
        if negb ok then Ok (fs, t, false)
        else if FileExists fs (targetBuildMetadataFileName t)
        then match RecordAttr (XattrsSupported st) fs (targetBuildMetadataFileName t) hash with
             | Some fs => Ok (fs, t, true) | None => Ok (fs, t, false) end
        else Ok (fs, t, true)
  | _, _ => Ok (fs, t, false)
  end.

Record ruleHashes := MkHashes {
  h_rule : string;
  h_config : string;
  h_source : string;
  h_secret : string;
}.

Definition no_hashes : ruleHashes := MkHashes "" "" "" "".

(** Slicing goes up to the capacity of what was read. *)
Definition slice (h : string) (i j : nat) : res string :=
  if (j <=? String.length (h +:+ spare h))%nat then Ok (str_slice i j (h +:+ spare h)) else Err EIndex.

(** The attribute that all the outputs have. *)
Fixpoint same_attr (st : build_state) (fs : files) (h : option string) (outputs : list string) : option (option string) :=
  match outputs with
  | [] => Some h
  | output :: outputs =>
      match ReadAttr (XattrsSupported st) fs output with
      | None => None
      | Some b => if decide (h = None \/ h = Some b) then same_attr st fs (Some b) outputs else None
      end
  end.

Definition readRuleHashFromXattrs (st : build_state) (fs : files) (t : BuildTarget) (postBuild : bool) : res ruleHashes :=
  outputs ← FullOutputs (home st) (st_graph st) t;
  let h :=
    match same_attr st fs None outputs with
    | None => None
    | Some (Some h) => Some h
    | Some None =>
        if BuildCouldModifyTarget t && negb postBuild then ReadAttr (XattrsSupported st) fs (targetBuildMetadataFileName t)
        else ReadAttrFile fs (fallback_of t)
    end in
  match h with
  | None => Ok no_hashes
  | Some h =>
      rule ← (if postBuild then slice h 20 40 else slice h 0 20);
      config ← slice h 40 60;
      source ← slice h 60 80;
      secret ← slice h 80 100;
      Ok (MkHashes rule config source secret)
  end.

Definition needsBuilding (st : build_state) (fs : files) (t : BuildTarget) (postBuild : bool) : res (bool * BuildTarget) :=
  if negb (FileExists fs (targetBuildMetadataFileName t)) then Ok (true, t)
  else
    oldHashes ← readRuleHashFromXattrs st fs t postBuild;
    if decide (h_config oldHashes <> Hashes_Config st) then Ok (true, t)
    else
      '(newRuleHash, t) ← RuleHash st t false postBuild;
      if decide (h_rule oldHashes <> newRuleHash) then Ok (true, t)
      else
        newSourceHash ← sourceHash st t;
        if decide (newSourceHash <> Some (h_source oldHashes)) then Ok (true, t)
        else if decide (secretHash st t <> Some (h_secret oldHashes)) then Ok (true, t)
        else
          outputs ← Outputs (home st) (st_graph st) t;
          if existsb (fun output => negb (PathExists fs (path_join [target_OutDir t; output]))) outputs then Ok (true, t)
          else Ok (ForceRebuild st (Label t), t).
End incrementality.

(** ** What was recorded is read back *)

Lemma str_drop_app_plus a b n : str_drop (String.length a + n) (a +:+ b) = str_drop n b.
Proof. induction a as [|c a IH]; [done|]. exact IH. Qed.

Lemma str_slice_app a b c : str_slice (String.length a) (String.length a + String.length b) (a +:+ b +:+ c) = b.
Proof.
  unfold str_slice. rewrite str_drop_app. replace (_ - _) with (String.length b) by lia. apply str_take_app.
Qed.

Section recorded.
Context (sha1 : string -> string) (spare : string -> string).
Context (sha1_length : forall s, String.length (sha1 s) = 20).

Lemma slice_app a b c :
  slice spare (a +:+ b +:+ c) (String.length a) (String.length a + String.length b) = Ok b.
Proof.
  unfold slice. rewrite !str_length_app, (proj2 (Nat.leb_le _ _)) by lia.
  by rewrite !str_app_assoc, str_slice_app.
Qed.

(** The parts of a record of five hashes. *)
Lemma slice_hashes h1 h2 h3 h4 h5 :
  String.length h1 = 20 -> String.length h2 = 20 -> String.length h3 = 20 -> String.length h4 = 20 -> String.length h5 = 20 ->
  let h := h1 +:+ h2 +:+ h3 +:+ h4 +:+ h5 in
  slice spare h 0 20 = Ok h1 /\ slice spare h 20 40 = Ok h2 /\ slice spare h 40 60 = Ok h3 /\
  slice spare h 60 80 = Ok h4 /\ slice spare h 80 100 = Ok h5.
Proof.
  intros L1 L2 L3 L4 L5 h.
  assert (forall a b c i j, h = a +:+ b +:+ c -> String.length a = i -> String.length b = 20 -> j = (i + 20)%nat ->
    slice spare h i j = Ok b) as Hs.
  { intros a b c i j -> <- Hb ->. rewrite <- Hb. apply slice_app. }
  split_and!.
  - by apply (Hs "" h1 (h2 +:+ h3 +:+ h4 +:+ h5)).
  - by apply (Hs h1 h2 (h3 +:+ h4 +:+ h5)).
  - apply (Hs (h1 +:+ h2) h3 (h4 +:+ h5)); [by rewrite str_app_assoc| |done|done]. rewrite str_length_app. lia.
  - apply (Hs (h1 +:+ h2 +:+ h3) h4 h5); [by rewrite !str_app_assoc| |done|done]. rewrite !str_length_app. lia.
  - apply (Hs (h1 +:+ h2 +:+ h3 +:+ h4) h5 ""); [by rewrite !str_app_assoc, str_app_nil_r| |done|done].
    rewrite !str_length_app. lia.
Qed.

(** What is recorded stays so if the same is recorded elsewhere. *)
Lemma RecordAttr_read e fs f h fs' :
  RecordAttr e fs f h = Some fs' ->
  ReadAttr e fs' f = Some h /\ forall f', ReadAttr e fs f' = Some h -> ReadAttr e fs' f' = Some h.
Proof.
  assert (forall f', attr_files fs !! fallbackFileName f' = Some h ->
    <[fallbackFileName f := h]> (attr_files fs) !! fallbackFileName f' = Some h) as Hf.
  { intros f' Hf'. destruct (decide (fallbackFileName f = fallbackFileName f')) as [->|]; by simplify_map_eq. }
  unfold RecordAttr, ReadAttr. destruct (negb e) eqn:He.
  { intros [= <-]. split; [unfold ReadAttrFile; cbn; by simplify_map_eq|]. intros f' Hf'. by apply Hf. }
  destruct (IsSymlink fs f) eqn:Hl.
  { intros [= <-]. change (IsSymlink (RecordAttrFile fs f h)) with (IsSymlink fs).
    change (PathExists (RecordAttrFile fs f h)) with (PathExists fs). rewrite Hl. split; [unfold ReadAttrFile; cbn; by simplify_map_eq|].
    intros f'. destruct (IsSymlink fs f'); [by apply Hf|done]. }
  destruct (PathExists fs f) eqn:Hp; [|done]. intros [= <-].
  match goal with |- context [IsSymlink ?m f] => change (IsSymlink m) with (IsSymlink fs); change (PathExists m) with (PathExists fs) end.
  rewrite Hl, Hp. split; [unfold ReadAttrFile; cbn; by simplify_map_eq|]. intros f'. destruct (IsSymlink fs f'); [done|].
  destruct (PathExists fs f'); [|done]. cbn. intros Hf'.
  destruct (decide (f = f')) as [->|]; by simplify_map_eq.
Qed.

Definition record_all (e : bool) (h : string) (fs : files) (outputs : list string) : files * bool :=
  foldl (fun '(fs, ok) output =>
    if ok : bool then match RecordAttr e fs output h with Some fs => (fs, true) | None => (fs, false) end
    else (fs, ok)) (fs, true) outputs.

Lemma record_all_false e h fs outputs :
  foldl (fun '(fs, ok) output =>
    if ok : bool then match RecordAttr e fs output h with Some fs => (fs, true) | None => (fs, false) end
    else (fs, ok)) (fs, false) outputs = (fs, false).
Proof. by induction outputs. Qed.

Lemma record_all_read e h fs outputs fs' :
  record_all e h fs outputs = (fs', true) ->
  (forall f, f ∈ outputs -> ReadAttr e fs' f = Some h) /\ forall f, ReadAttr e fs f = Some h -> ReadAttr e fs' f = Some h.
Proof.
  unfold record_all. revert fs. induction outputs as [|o outputs IH]; intros fs H; cbn in H.
  - injection H as <-. split; [set_solver|done].
  - destruct (RecordAttr e fs o h) as [fs1|] eqn:Ho; [|by rewrite record_all_false in H].
    apply RecordAttr_read in Ho as [Ho Hkeep]. apply IH in H as [Hall Hmono]. split; [|by auto].
    intros f [->|Hf]%elem_of_cons; auto.
Qed.

Lemma same_attr_all st fs h outputs :
  outputs <> [] -> (forall f, f ∈ outputs -> ReadAttr (XattrsSupported st) fs f = Some h) ->
  same_attr st fs None outputs = Some (Some h).
Proof.
  intros Hne Hall.
  assert (forall o, (o = None \/ o = Some h) -> same_attr st fs o outputs = Some (match outputs with [] => o | _ => Some h end)) as H.
  { clear Hne. induction outputs as [|x outputs IH]; intros o Ho; [done|]. cbn. rewrite Hall by set_solver.
    rewrite decide_True by done. rewrite IH; [by destruct outputs|set_solver|by right]. }
  rewrite H by auto. by destruct outputs.
Qed.

(** *** The hash of a rule *)

#[local] Arguments ruleHash : simpl never.

Lemma ruleHash_build st t : exists h, ruleHash sha1 st t false = Ok h.
Proof. unfold ruleHash, rule_input. cbn. by eexists. Qed.

(** Only the hash stored in the target can change. *)
Lemma RuleHash_build st t postBuild :
  exists h t', RuleHash sha1 st t false postBuild = Ok (h, t') /\ (t' = t \/ t' = upd_RuleHash (fun _ => h) t) /\
    (h = target_RuleHash t \/ ruleHash sha1 st t false = Ok h).
Proof.
  unfold RuleHash. destruct (ruleHash_build st t) as [h Hh]. cbn. destruct (postBuild && BuildCouldModifyTarget t).
  - rewrite Hh. cbn. exists h, t. auto.
  - case_decide; [exists (target_RuleHash t), t; auto|]. rewrite Hh. cbn. exists h. eexists. eauto.
Qed.

(** Asking for one kind of hash does not change the other. *)
Lemma RuleHash_twice st t h1 t1 :
  RuleHash sha1 st t false false = Ok (h1, t1) ->
  exists h2, RuleHash sha1 st t1 false true = Ok (h2, t1) /\ fst <$> RuleHash sha1 st t false true = Ok h2.
Proof.
  unfold RuleHash. cbn. case_decide as Hstored; [|destruct (ruleHash_build st t) as [h Hh]; rewrite Hh; cbn].
  - intros [= <- <-]. destruct (BuildCouldModifyTarget t) eqn:Hm.
    + destruct (ruleHash_build st t) as [h Hh]. rewrite Hh. cbn. eauto.
    + rewrite decide_True by done. cbn. eauto.
  - intros [= <- <-]. change (BuildCouldModifyTarget (upd_RuleHash (fun _ => h) t)) with (BuildCouldModifyTarget t).
    change (ruleHash sha1 st (upd_RuleHash (fun _ => h) t) false) with (ruleHash sha1 st t false). rewrite Hh.
    destruct (BuildCouldModifyTarget t); cbn; [eauto|]. rewrite decide_True; [eauto|].
    unfold ruleHash, rule_input in Hh. cbn in Hh. injection Hh as <-. intros E. apply (f_equal String.length) in E. by rewrite sha1_length in E.
Qed.

(** *** A record that is complete *)

Record recorded (st : build_state) (fs : files) (t : BuildTarget) (outs : list string) (h : string) : Prop := {
  recorded_outputs f : f ∈ outs -> ReadAttr (XattrsSupported st) fs f = Some h;
  recorded_fallback : outs = [] -> ReadAttrFile fs (fallback_of t) = Some h;
  recorded_metadata :
    outs <> [] -> FileExists fs (targetBuildMetadataFileName t) = true ->
    ReadAttr (XattrsSupported st) fs (targetBuildMetadataFileName t) = Some h;
}.

Lemma RecordAttr_FileExists e fs f h fs' p : RecordAttr e fs f h = Some fs' -> FileExists fs' p = FileExists fs p.
Proof. unfold RecordAttr. repeat case_match; naive_solver. Qed.

Lemma writeRuleHash_inv st fs t fs' t' :
  writeRuleHash sha1 st fs t = Ok (fs', t', true) ->
  exists h1 h2 source secret outs,
    fst <$> RuleHash sha1 st t false false = Ok h1 /\ fst <$> RuleHash sha1 st t false true = Ok h2 /\
    sourceHash sha1 st t' = Ok (Some source) /\ secretHash sha1 st t' = Some secret /\
    FullOutputs (home st) (st_graph st) t' = Ok outs /\
    recorded st fs' t' outs (h1 +:+ h2 +:+ Hashes_Config st +:+ source +:+ secret).
Proof.
  unfold writeRuleHash, targetHash.
  destruct (RuleHash_build st t false) as (h1 & t1 & H1 & _ & _). rewrite H1. cbn [mbind res_bind].
  destruct (RuleHash_twice st t h1 t1 H1) as (h2 & H2 & H2'). rewrite H2. cbn [mbind res_bind].
  destruct (sourceHash sha1 st t1) as [[source|]| |] eqn:Hsource; cbn [mbind res_bind option_map]; [|done..].
  destruct (secretHash sha1 st t1) as [secret|] eqn:Hsecret; [|done].
  destruct (FullOutputs (home st) (st_graph st) t1) as [outs| |] eqn:Houts; [|done..]. rewrite bind_Ok_l.
  set (h := (h1 +:+ h2 +:+ Hashes_Config st +:+ source) +:+ secret).
  assert (h = h1 +:+ h2 +:+ Hashes_Config st +:+ source +:+ secret) as Hh by (unfold h; by rewrite !str_app_assoc).
  case_decide as Hne.
  { intros [= <- <-]. exists h1, h2, source, secret, outs. split_and!; [done..|]. rewrite <- Hh. subst outs.
    split; [set_solver| |done]. intros _. unfold ReadAttrFile. cbn. by simplify_map_eq. }
  change (foldl _ (fs, true) outs) with (record_all (XattrsSupported st) h fs outs).
  destruct (record_all (XattrsSupported st) h fs outs) as [fs1 [|]] eqn:Hall; [|done]. cbn [negb].
  apply record_all_read in Hall as [Hall _].
  destruct (FileExists fs1 (targetBuildMetadataFileName t1)) eqn:Hmeta.
  - destruct (RecordAttr (XattrsSupported st) fs1 (targetBuildMetadataFileName t1) h) as [fs2|] eqn:Hrec; [|done].
    intros [= <- <-]. apply RecordAttr_read in Hrec as [Hrec Hkeep]. exists h1, h2, source, secret, outs.
    split_and!; [done..|]. rewrite <- Hh. split; [auto|done|auto].
  - intros [= <- <-]. exists h1, h2, source, secret, outs. split_and!; [done..|]. rewrite <- Hh.
    split; [auto|done|]. intros _. by rewrite Hmeta.
Qed.

Lemma secretHash_length st t secret : secretHash sha1 st t = Some secret -> String.length secret = 20.
Proof.
  unfold secretHash. case_decide; [by intros [= <-]|]. destruct (hash_secrets st (Secrets t)) as [[input|]|]; [| |done].
  - intros [= <-]. apply sha1_length.
  - by intros [= <-].
Qed.

Lemma read_recorded st fs t outs h1 h2 config source secret postBuild :
  String.length h1 = 20 -> String.length h2 = 20 -> String.length config = 20 -> String.length source = 20 ->
  String.length secret = 20 ->
  FullOutputs (home st) (st_graph st) t = Ok outs ->
  recorded st fs t outs (h1 +:+ h2 +:+ config +:+ source +:+ secret) ->
  (BuildCouldModifyTarget t = true -> postBuild = false -> outs <> []) ->
  readRuleHashFromXattrs spare st fs t postBuild = Ok (MkHashes (if postBuild then h2 else h1) config source secret).
Proof.
  intros L1 L2 L3 L4 L5 Houts Hrec Hmod. unfold readRuleHashFromXattrs. rewrite Houts, bind_Ok_l.
  set (h := h1 +:+ h2 +:+ config +:+ source +:+ secret) in *.
  assert (match same_attr st fs None outs with
    | None => None
    | Some (Some h) => Some h
    | Some None =>
        if BuildCouldModifyTarget t && negb postBuild then ReadAttr (XattrsSupported st) fs (targetBuildMetadataFileName t)
        else ReadAttrFile fs (fallback_of t)
    end = Some h) as ->.
  { destruct (decide (outs = [])) as [->|Hne].
    - cbn. destruct (BuildCouldModifyTarget t && negb postBuild) eqn:E; [|by apply (recorded_fallback _ _ _ _ _ Hrec)].
      apply andb_true_iff in E as [E1 E2%negb_true_iff]. by destruct (Hmod E1 E2).
    - by rewrite (same_attr_all st fs h outs Hne (recorded_outputs _ _ _ _ _ Hrec)). }
  destruct (slice_hashes h1 h2 config source secret L1 L2 L3 L4 L5) as (S1 & S2 & S3 & S4 & S5).
  fold h in S1, S2, S3, S4, S5. cbn beta iota.
  destruct postBuild; rewrite ?S1, ?S2, ?S3, ?S4, ?S5; cbn; rewrite ?S3, ?S4, ?S5; done.
Qed.

(** The hash stored in a target is one. *)
Definition stored_ok (t : BuildTarget) : Prop := target_RuleHash t = "" \/ String.length (target_RuleHash t) = 20.

Lemma RuleHash_length st t postBuild h :
  stored_ok t -> fst <$> RuleHash sha1 st t false postBuild = Ok h -> String.length h = 20.
Proof.
  intros Hok. unfold RuleHash. destruct (ruleHash_build st t) as [h' Hh']. rewrite Hh'.
  assert (String.length h' = 20) as L.
  { unfold ruleHash, rule_input in Hh'. cbn in Hh'. injection Hh' as <-. apply sha1_length. }
  destruct (false || postBuild && BuildCouldModifyTarget t); cbn; [by intros [= <-]|].
  case_decide; cbn; intros [= <-]; [|done]. by destruct Hok.
Qed.

Lemma sourceHash_length st t source : sourceHash sha1 st t = Ok (Some source) -> String.length source = 20.
Proof. unfold sourceHash. destruct (source_input st t) as [[s|]| |]; cbn; [|done..]. intros [= <-]. apply sha1_length. Qed.

(** For the reasons to build. *)
Ltac needed t := exists true, t; split; [done|]; split; [done|]; intros (? & ? & ? & ? & ? & ? & ?); congruence.

(** With a record of five hashes, building is decided by comparing each. *)
Lemma needsBuilding_recorded st fs t postBuild outs h1 h2 config source secret newSource :
  String.length h1 = 20 -> String.length h2 = 20 -> String.length config = 20 -> String.length source = 20 ->
  String.length secret = 20 ->
  FullOutputs (home st) (st_graph st) t = Ok outs ->
  recorded st fs t outs (h1 +:+ h2 +:+ config +:+ source +:+ secret) ->
  (BuildCouldModifyTarget t = true -> postBuild = false -> outs <> []) ->
  (forall t3, snd <$> RuleHash sha1 st t false postBuild = Ok t3 -> sourceHash sha1 st t3 = Ok newSource) ->
  exists needed t3, needsBuilding sha1 spare st fs t postBuild = Ok (needed, t3) /\
    (needed = false <->
      FileExists fs (targetBuildMetadataFileName t) = true /\
      Hashes_Config st = config /\
      fst <$> RuleHash sha1 st t false postBuild = Ok (if postBuild then h2 else h1) /\
      newSource = Some source /\
      secretHash sha1 st t = Some secret /\
      (forall out, out ∈ outs -> PathExists fs out = true) /\
      ForceRebuild st (Label t) = false).
Proof.
  intros L1 L2 L3 L4 L5 Hfull Hrec Hmod Hsource.
  pose proof (read_recorded _ _ _ outs _ _ _ _ _ postBuild L1 L2 L3 L4 L5 Hfull Hrec Hmod) as Hread.
  unfold needsBuilding. destruct (FileExists fs (targetBuildMetadataFileName t)); cbn [negb]; [|needed t].
  rewrite Hread, bind_Ok_l. cbn [h_config h_rule h_source h_secret].
  case_decide as Hc; [needed t|].
  destruct (RuleHash_build st t postBuild) as (new & t3 & Hnew & Ht3 & _). rewrite Hnew in Hsource |- *.
  specialize (Hsource t3 eq_refl). rewrite bind_Ok_l. cbn [fmap res_fmap fst].
  case_decide as Hr; [needed t3|]. rewrite Hsource, bind_Ok_l.
  case_decide as Hso; [needed t3|].
  assert (secretHash sha1 st t3 = secretHash sha1 st t) as -> by (by destruct Ht3 as [->| ->]).
  case_decide as Hse; [needed t3|].
  assert (Outputs (home st) (st_graph st) t3 = Outputs (home st) (st_graph st) t) as -> by (by destruct Ht3 as [->| ->]).
  assert (target_OutDir t3 = target_OutDir t) as -> by (by destruct Ht3 as [->| ->]).
  assert (Label t3 = Label t) as -> by (by destruct Ht3 as [->| ->]).
  unfold FullOutputs in Hfull. destruct (Outputs (home st) (st_graph st) t) as [os| |]; [|done..].
  rewrite !bind_Ok_l in *. injection Hfull as <-. destruct (existsb _ os) eqn:Hex.
  - exists true, t3. split; [done|]. apply existsb_exists in Hex as (o & Ho & Hn). split; [done|].
    intros (_ & _ & _ & _ & _ & Hall & _). specialize (Hall (path_join [target_OutDir t; o])).
    rewrite Hall in Hn; [done|]. apply list_elem_of_In, in_map_iff. eauto.
  - exists (ForceRebuild st (Label t)), t3. split; [done|]. split; [|by intros (_ & _ & _ & _ & _ & _ & H)]. intros ->.
    split_and!; [done|congruence..| |done].
    intros out (o & <- & Ho)%list_elem_of_In%in_map_iff.
    destruct (PathExists fs (path_join [target_OutDir t; o])) eqn:E; [done|]. rewrite <- not_true_iff_false in Hex.
    destruct Hex. apply existsb_exists. exists o. by rewrite E.
Qed.

(** Without a record everything needs building. *)
Lemma needsBuilding_unrecorded st fs t :
  Hashes_Config st <> "" -> FullOutputs (home st) (st_graph st) t = Ok [] -> BuildCouldModifyTarget t = true ->
  ReadAttr (XattrsSupported st) fs (targetBuildMetadataFileName t) = None ->
  needsBuilding sha1 spare st fs t false = Ok (true, t).
Proof.
  intros Hc Ho Hm Hr. unfold needsBuilding. destruct (FileExists _ _); [cbn [negb]|done].
  unfold readRuleHashFromXattrs. rewrite Ho, bind_Ok_l. cbn [same_attr]. rewrite Hm. cbn [andb negb]. rewrite Hr, bind_Ok_l.
  cbn [h_config no_hashes]. by rewrite decide_True.
Qed.

(** Whether what is recorded for a target is where it is looked for: without outputs it is
    recorded in place of them, and looked for on the metadata before the build of a target
    that its build may modify. *)
Definition record_found (outs : list string) (t : BuildTarget) (postBuild : bool) : Prop :=
  outs <> [] \/ BuildCouldModifyTarget t = false \/ postBuild = true.

#[global] Instance record_found_dec outs t postBuild : Decision (record_found outs t postBuild).
Proof. unfold record_found. apply _. Defined.

(** C5: After the hashes of a target have been recorded on its outputs, whether it needs
    building is decided correctly.  The target may have changed and so may the state, with
    other files and another configuration, but it has the label, the output directory and the
    outputs of the one recorded, and extended attributes are as they were.  It does not need
    building exactly if the record is where it is looked for (which it is not for a target
    without outputs that its build may modify, unless the build is over), the metadata is
    there, the hashes of the configuration, the rule, the sources and the secrets are what
    they were, all its outputs exist and it is not forced. *)
Theorem needsBuilding_spec st fs t fs' t' st2 t2 postBuild outs newSource :
  String.length (Hashes_Config st) = 20 -> Hashes_Config st2 <> "" -> stored_ok t ->
  writeRuleHash sha1 st fs t = Ok (fs', t', true) ->
  XattrsSupported st2 = XattrsSupported st -> Label t2 = Label t' -> target_OutDir t2 = target_OutDir t' ->
  FullOutputs (home st) (st_graph st) t' = Ok outs -> FullOutputs (home st2) (st_graph st2) t2 = Ok outs ->
  (~ record_found outs t2 postBuild -> ReadAttr (XattrsSupported st2) fs' (targetBuildMetadataFileName t2) = None) ->
  (forall t3, snd <$> RuleHash sha1 st2 t2 false postBuild = Ok t3 -> sourceHash sha1 st2 t3 = Ok newSource) ->
  exists needed t3, needsBuilding sha1 spare st2 fs' t2 postBuild = Ok (needed, t3) /\
    (needed = false <->
      record_found outs t2 postBuild /\
      FileExists fs' (targetBuildMetadataFileName t2) = true /\
      Hashes_Config st2 = Hashes_Config st /\
      fst <$> RuleHash sha1 st2 t2 false postBuild = fst <$> RuleHash sha1 st t false postBuild /\
      Ok newSource = sourceHash sha1 st t' /\
      secretHash sha1 st2 t2 = secretHash sha1 st t' /\
      (forall out, out ∈ outs -> PathExists fs' out = true) /\
      ForceRebuild st2 (Label t2) = false).
Proof.
  intros Lconfig Hne Hstored Hwrite Hx Hlabel Hdir Hfull Hfull2 Hmeta Hsource.
  destruct (decide (record_found outs t2 postBuild)) as [Hf|Hf].
  2: { exists true, t2. split; [|split; [done|by intros [? _]]].
    assert (outs = [] /\ BuildCouldModifyTarget t2 = true /\ postBuild = false) as (-> & Hm & ->).
    { unfold record_found in Hf. destruct outs; [|by destruct Hf; left]. destruct (BuildCouldModifyTarget t2), postBuild; tauto. }
    by apply needsBuilding_unrecorded; auto. }
  destruct (writeRuleHash_inv _ _ _ _ _ Hwrite) as (h1 & h2 & source & secret & outs' & H1 & H2 & Hs & Hsec & Houts & Hrec).
  rewrite Hfull in Houts. injection Houts as <-.
  assert (targetBuildMetadataFileName t2 = targetBuildMetadataFileName t') as Hmd
    by (unfold targetBuildMetadataFileName; by rewrite Hdir, Hlabel).
  assert (recorded st2 fs' t2 outs (h1 +:+ h2 +:+ Hashes_Config st +:+ source +:+ secret)) as Hrec2.
  { destruct Hrec as [R1 R2 R3]. split; rewrite ?Hx, ?Hmd; [done| |done]. unfold fallback_of. by rewrite Hdir, Hlabel. }
  destruct (needsBuilding_recorded st2 fs' t2 postBuild outs h1 h2 (Hashes_Config st) source secret newSource) as (needed & t3 & Hn & Hiff);
    [by eapply RuleHash_length|by eapply RuleHash_length|done|by eapply sourceHash_length|by eapply secretHash_length|done|done| |done|].
  { intros E1 E2 E3. destruct Hf as [|[|]]; congruence. }
  exists needed, t3. split; [done|]. rewrite Hiff, Hs, Hsec.
  assert (fst <$> RuleHash sha1 st t false postBuild = Ok (if postBuild then h2 else h1)) as -> by (by destruct postBuild).
  split; [intros (E1 & E2 & E3 & E4 & E5 & E6 & E7)|intros (_ & E1 & E2 & E3 & E4 & E5 & E6 & E7)]; split_and!; try done; congruence.
Qed.
End recorded.

(** ** Examples *)

(** Any function to strings of 20 bytes will do. *)
Definition pad (s : string) : string := str_take 20 (s +:+ noSecrets).

Lemma pad_length s : String.length (pad s) = 20.
Proof.
  unfold pad. assert (forall n s, n <= String.length s -> String.length (str_take n s) = n) as H.
  { clear. intros n. induction n as [|n IH]; intros [|c s]; cbn; try lia. intros. rewrite IH; lia. }
  apply H. rewrite str_length_app. cbn. lia.
Qed.

(** Files contain their names. *)
Definition inc_state : build_state :=
  MkState inputs_example noSecrets "opt" "opt" true (fun _ => false) {[ "HOME" := "/home" ]} (fun _ => true) inl (fun _ => true).

Definition inc_target : BuildTarget := upd_outputs (fun _ => ["bin.out"]) (inputs_target "bin").

Definition inc_files : files :=
  MkFiles {[ "plz-out/gen/p/bin.out"; "plz-out/gen/p/.target_build_metadata_bin" ]} ∅ ∅ ∅ ∅.

Definition inc_written : files * BuildTarget * bool :=
  from_Ok (inc_files, inc_target, false) (writeRuleHash pad inc_state inc_files inc_target).

Lemma needsBuilding_spec_witness :
  exists t3, needsBuilding pad (fun _ => "") inc_state inc_written.1.1 inc_target false = Ok (false, t3).
Proof.
  destruct (needsBuilding_spec pad (fun _ => "") pad_length inc_state inc_files inc_target
    inc_written.1.1 inc_written.1.2 inc_state inc_target false ["plz-out/gen/p/bin.out"]
    (from_Ok None (sourceHash pad inc_state inc_written.1.2))) as (needed & t3 & Hn & Hiff).
  - reflexivity.
  - discriminate.
  - left. reflexivity.
  - vm_compute. reflexivity.
  - reflexivity.
  - vm_compute. reflexivity.
  - vm_compute. reflexivity.
  - vm_compute. reflexivity.
  - vm_compute. reflexivity.
  - intros H. destruct H. left. discriminate.
  - intros t3 H. vm_compute in H. injection H as <-. vm_compute. reflexivity.
  - assert (needed = false) as ->; [|by exists t3].
    apply Hiff. split_and!; try (vm_compute; reflexivity).
    + left. discriminate.
    + intros out ->%list_elem_of_singleton. vm_compute. reflexivity.
Defined.

(** ** What the hashes miss *)

(** Two files in two groups, and in one. *)
Definition two_groups : BuildTarget :=
  upd_NamedSources (fun _ => {["a" := [FileLabel "x" "p"]; "b" := [FileLabel "y" "p"]]}) (NewBuildTarget (ex_label "t")).
Definition one_group : BuildTarget :=
  upd_NamedSources (fun _ => {["a" := [FileLabel "x" "p"; FileLabel "y" "p"]]}) (NewBuildTarget (ex_label "t")).

(** A target's named secrets go into no hash: changing them, or what is in them, never
    rebuilds it.  Nor do the names of groups of sources: moving a source from one group to
    another, which changes what a command that uses one of the groups does, changes neither
    the hash of the rule nor that of the sources. *)
Theorem not_hashed sha1 :
  (forall st t f runtime,
    rule_input st (upd_NamedSecrets f t) runtime = rule_input st t runtime /\
    secretHash sha1 st (upd_NamedSecrets f t) = secretHash sha1 st t) /\
  forall config host,
    let st := MkState NewGraph config "opt" "opt" true (fun _ => false) host (fun _ => true) inl (fun _ => true) in
    NamedSources two_groups <> NamedSources one_group /\
    rule_input st two_groups false = rule_input st one_group false /\ source_input st two_groups = source_input st one_group.
Proof.
  split; [done|]. intros config host. split_and!; [|vm_compute; reflexivity..].
  intros H%(f_equal (lookup "b")). vm_compute in H. discriminate.
Qed.

(** The name of a variable in its value. *)
Lemma environment_ambiguous : hashMap {["A" := "1"; "B" := "2"]} = hashMap {["A" := "1B=2"]}.
Proof. vm_compute. reflexivity. Qed.

(** A secret that does not exist is an error after all. *)
Lemma missing_secret sha1 st t secret :
  Secrets t = [secret] -> path_exists st (ExpandHomePath (home st) secret) = false -> secretHash sha1 st t = None.
Proof. intros Ht Hp. unfold secretHash. rewrite Ht. cbn. unfold Hash. by rewrite Hp. Qed.

(** A target that its build may modify and that has no outputs is built again every
    time: what is recorded for it is not where it is looked for before the build. *)
Theorem no_outputs_always_built sha1 spare st fs t fs' t' :
  Hashes_Config st <> "" -> BuildCouldModifyTarget t' = true -> XattrsSupported st = true ->
  IsSymlink fs (targetBuildMetadataFileName t') = false ->
  ReadAttr true fs (targetBuildMetadataFileName t') = None ->
  FullOutputs (home st) (st_graph st) t' = Ok [] ->
  writeRuleHash sha1 st fs t = Ok (fs', t', true) ->
  needsBuilding sha1 spare st fs' t' false = Ok (true, t').
Proof.
  intros Hc Hm Hx Hl Hr Ho Hw.
  assert (exists h, fs' = RecordAttrFile fs (fallback_of t') h) as [h ->].
  { unfold writeRuleHash in Hw. destruct (targetHash sha1 st t) as [[[hash|] t1]| |]; [rewrite bind_Ok_l in Hw|done..].
    destruct (secretHash sha1 st t1) as [secret|]; [|done].
    destruct (FullOutputs (home st) (st_graph st) t1) as [outs| |] eqn:E; [rewrite bind_Ok_l in Hw|done..].
    case_decide as Hne; [injection Hw as <- <-; eexists; reflexivity|]. exfalso.
    assert (t1 = t') as ->; [|rewrite Ho in E; by injection E as <-].
    destruct (foldl _ (fs, true) outs) as [fs1 [|]]; cbn [negb] in Hw; [|done].
    destruct (FileExists fs1 _); [destruct (RecordAttr _ fs1 _ _)|]; by injection Hw. }
  apply needsBuilding_unrecorded; [done..|]. rewrite Hx. unfold ReadAttr in Hr |- *. cbn [negb] in *.
  change (IsSymlink (RecordAttrFile fs (fallback_of t') h)) with (IsSymlink fs).
  change (PathExists (RecordAttrFile fs (fallback_of t') h)) with (PathExists fs). by rewrite Hl in *.
Qed.

Definition modifying_target : BuildTarget :=
  upd_OutputDirectories (fun _ => ["out"]) (NewBuildTarget (ex_label "t")).

Lemma no_outputs_always_built_witness :
  needsBuilding pad (fun _ => "") inc_state
    (from_Ok (inc_files, inc_target, false) (writeRuleHash pad inc_state inc_files modifying_target)).1.1
    (from_Ok (inc_files, inc_target, false) (writeRuleHash pad inc_state inc_files modifying_target)).1.2 false =
  Ok (true, (from_Ok (inc_files, inc_target, false) (writeRuleHash pad inc_state inc_files modifying_target)).1.2).
Proof.
  apply (no_outputs_always_built pad (fun _ => "") inc_state inc_files modifying_target).
  - discriminate.
  - vm_compute. reflexivity.
  - reflexivity.
  - vm_compute. reflexivity.
  - vm_compute. reflexivity.
  - vm_compute. reflexivity.
  - vm_compute. reflexivity.
Defined.
