(* ===== verification/Queries.v ===== *)
(** Queries on the build graph: [src/query/deps.go] and [src/query/somepath.go].

    What a query prints is modelled as the list of what it prints, line by line. *)
From S2P Require Import Prelude GoStrings Labels Cmap Targets Reach Graph.

(** The parent target of a target, if it has one in the graph. *)
Definition target_Parent (g : BuildGraph) (t : BuildTarget) : option BuildTarget :=
  let parent := Parent (Label t) in
  if decide (parent = Label t) then None else Target g parent.

(** ** [plz query deps] *)

Section deps.
(** Whether the include and exclude labels of the command let a target through. *)
Context (ShouldInclude : BuildTarget -> bool) (targetLevel : Z) (hidden : bool).

Definition sorted_deps (t : BuildTarget) : list BuildLabel := sort_labels (DeclaredDependencies t).

(** The dependencies of one target in the order they are looked at, each with the
    target it was declared on. *)
Definition deps_steps (g : BuildGraph) (t : BuildTarget) : list (res (BuildTarget * BuildLabel)) :=
  sorted_deps t ≫= fun l =>
    match TargetOrDie g l with
    | Ok dep => (fun p => Ok (dep, p)) <$> ProvideFor dep t
    | Err e => [Err e]
    | NoFuel => [NoFuel]
    end.

(** The labels done so far and the lines printed, each with its indentation level. *)
Fixpoint deps (fuel : nat) (g : BuildGraph) (target : BuildTarget) (currentLevel : Z)
    (st : gset BuildLabel * list (BuildLabel * Z)) : res (gset BuildLabel * list (BuildLabel * Z)) :=
  match fuel with
  | O => NoFuel
  | S fuel =>
      if (currentLevel =? targetLevel)%Z then Ok st
      else foldM (fun st step =>
        '(declared, l) ← step;
        let '(done, out) := st in
        if negb (ShouldInclude declared) || bool_decide (l ∈ done) then Ok st
        else
          let done := {[l]} ∪ done in
          dep ← TargetOrDie g l;
          if hidden || negb (HasParent (Label dep)) then
            deps fuel g dep (currentLevel + 1) (done, out ++ [(Label dep, currentLevel)])
          else if decide (Parent (Label dep) = Parent (Label target)) then
            deps fuel g dep currentLevel (done, out)
          else deps fuel g dep (currentLevel + 1) (done, out))
        st (deps_steps g target)
  end.

(** The visit marks every target it goes down to, so it is never deeper than the
    number of targets. *)
Definition Deps (g : BuildGraph) (labels : list BuildLabel) : res (list (BuildLabel * Z)) :=
  st ← foldM (fun st label =>
         t ← TargetOrDie g label; deps (2 + length (graph_AllTargets g)) g t 0 st)
       (∅, []) labels;
  Ok st.2.
End deps.

(** ** [plz query somepath] *)

Abbreviation sp_memo := (gmap BuildLabel (gset BuildLabel)).

Section somepath.
Context (except : gset BuildLabel).

Definition expandAllTargets (g : BuildGraph) (labels : list BuildLabel) : res (list BuildLabel) :=
  foldM (fun ret l =>
    if IsAllTargets l then pkg ← PackageOrDie g l; Ok (ret ++ pkg_AllTargets pkg)
    else Ok (ret ++ [l])) [] labels.

(** Where a path can go next. *)
Definition sp_steps (g : BuildGraph) (t : BuildTarget) : list BuildLabel :=
  (sorted_deps t ≫= fun dep =>
     match Target g dep with
     | None => []
     | Some d => if decide (Label d ∈ except) then [] else ProvideFor d t
     end)
  ++ (if IsExternal (target_Subrepo t) then option_list (target_Subrepo t ≫= sub_Target) else []).

(** The path found, empty if there is none, and the targets seen. *)
Fixpoint somePath (fuel : nat) (g : BuildGraph) (target2 : BuildTarget) (seen : gset BuildLabel)
    (l1 : BuildLabel) : res (list BuildLabel * gset BuildLabel) :=
  match fuel with
  | O => NoFuel
  | S fuel =>
      target1 ← TargetOrDie g l1;
      if decide (Label target1 = Label target2) then Ok ([Label target1], seen)
      else if decide (Label <$> target_Parent g target1 = Some (Label target2)) then
        Ok ([Label target1], seen)
      else if decide (Label target1 ∈ seen) then Ok ([], seen)
      else
        r ← loopM (fun seen l =>
              '(path, seen) ← somePath fuel g target2 seen l;
              if bool_decide (path <> []) then Ok (inl (Label target1 :: path, seen))
              else Ok (inr seen)) ({[Label target1]} ∪ seen) (sp_steps g target1);
        match r with inl r => Ok r | inr seen => Ok ([], seen) end
  end.

(** [somepath.somePath]: what has been seen on the way to [target2] is remembered. *)
Definition somepath_somePath (g : BuildGraph) (memo : sp_memo) (target1 target2 : BuildLabel)
    : res (list BuildLabel * sp_memo) :=
  let m := default ∅ (memo !! target2) in
  t1 ← TargetOrDie g target1; t2 ← TargetOrDie g target2;
  '(path, m) ← somePath (2 + length (graph_AllTargets g)) g t2 m (Label t1);
  Ok (path, <[target2 := m]> memo).

(** Both ways around, since either may be the dependency. *)
Definition somepath_SomePath (g : BuildGraph) (memo : sp_memo) (target1 target2 : BuildLabel)
    : res (list BuildLabel * sp_memo) :=
  '(path, memo) ← somepath_somePath g memo target1 target2;
  if bool_decide (path <> []) then Ok (path, memo)
  else somepath_somePath g memo target2 target1.

(** [slices.Compact]. *)
Fixpoint compact (l : list BuildLabel) : list BuildLabel :=
  match l with
  | x :: (y :: _) as l' => if decide (x = y) then compact l' else x :: compact l'
  | _ => l
  end.

(** [SomePath]: the first path found, or none. *)
Definition SomePath (g : BuildGraph) (from to : list BuildLabel) (showHidden : bool)
    : res (option (list BuildLabel)) :=
  from ← expandAllTargets g from; to ← expandAllTargets g to;
  r ← loopM (fun memo '(l1, l2) =>
        '(path, memo) ← somepath_SomePath g memo l1 l2;
        if bool_decide (path <> []) then
          Ok (inl (if showHidden then path else compact (Parent <$> path)))
        else Ok (inr memo)) (∅ : sp_memo) (from ≫= fun l1 => (fun l2 => (l1, l2)) <$> to);
  match r with inl path => Ok (Some path) | inr _ => Ok None end.

(** *** What a path is *)

(** [x] is what is looked for: the target itself, or a rule generated by it. *)
Definition sp_goal (g : BuildGraph) (l2 x : BuildLabel) : Prop :=
  x = l2 \/ exists t, Target g x = Some t /\ Label <$> target_Parent g t = Some l2.

Definition sp_succ (g : BuildGraph) (x : BuildLabel) : list BuildLabel :=
  match Target g x with Some t => sp_steps g t | None => [] end.

(** [p] leads from [x] to something that is looked for, step by step. *)
Fixpoint is_path (g : BuildGraph) (l2 : BuildLabel) (p : list BuildLabel) (x : BuildLabel) : Prop :=
  match p with
  | [] => False
  | y :: p => y = x /\ match p with
                       | [] => sp_goal g l2 x
                       | z :: _ => z ∈ sp_succ g x /\ is_path g l2 p z
                       end
  end.

(** Every target a step leads to is in the graph. *)
Definition sp_closed (g : BuildGraph) : Prop :=
  forall x y, y ∈ sp_succ g x -> is_Some (Target g y).

(** The seen targets are dead ends. *)
Record dead_end (g : BuildGraph) (l2 : BuildLabel) (seen : gset BuildLabel) : Prop := {
  de_succ : forall x y, x ∈ seen -> y ∈ sp_succ g x -> y ∈ seen;
  de_goal : forall x, x ∈ seen -> ~ sp_goal g l2 x;
}.

Record sp_visited (g : BuildGraph) (l2 : BuildLabel) (seen seen' : gset BuildLabel) : Prop := {
  sv_mono : seen ⊆ seen';
  sv_succ : forall x y, x ∈ seen' -> x ∉ seen -> y ∈ sp_succ g x -> y ∈ seen';
  sv_goal : forall x, x ∈ seen' -> x ∉ seen -> ~ sp_goal g l2 x;
}.

Lemma sp_visited_refl g l2 s : sp_visited g l2 s s.
Proof. split; set_solver. Qed.

Lemma sp_visited_trans g l2 s1 s2 s3 : sp_visited g l2 s1 s2 -> sp_visited g l2 s2 s3 -> sp_visited g l2 s1 s3.
Proof.
  intros [M1 S1 G1] [M2 S2 G2]. split; [set_solver| |].
  - intros x y Hx Hn Hy. destruct (decide (x ∈ s2)); [apply M2|]; by eauto.
  - intros x Hx Hn. destruct (decide (x ∈ s2)); by eauto.
Qed.

Lemma somePath_ok g N t2 fuel seen x :
  graph_wf g -> sp_closed g -> (forall l, l ∈ N <-> is_Some (Target g l)) ->
  x ∈ N -> size (N ∖ seen) < fuel ->
  exists p seen', somePath fuel g t2 seen x = Ok (p, seen') /\
    (p <> [] -> is_path g (Label t2) p x) /\
    (p = [] -> sp_visited g (Label t2) seen seen' /\ x ∈ seen').
Proof.
  intros Hwf Hcl HN. revert seen x. induction fuel as [|fuel IH]; intros seen x Hx Hfuel; [lia|].
  pose proof Hx as [t Ht]%HN. assert (Label t = x) as Hlab by (by eapply Target_Label).
  cbn [somePath]. unfold TargetOrDie. rewrite Ht, bind_Ok_l, Hlab.
  case_decide as He; [exists [x], seen; split_and!; [done| |done]; intros _; split; [done|by left]|].
  case_decide as Hpar.
  { exists [x], seen. split_and!; [done| |done]. intros _. split; [done|]. right. eauto. }
  assert (~ sp_goal g (Label t2) x) as Hng.
  { intros [?|(t' & Ht' & Hp)]; [done|]. by simplify_eq. }
  case_decide as Hs.
  { exists [], seen. split_and!; [done|done|]. intros _. split; [apply sp_visited_refl|done]. }
  assert (size (N ∖ ({[x]} ∪ seen)) < size (N ∖ seen)) as Hlt by (apply subset_size; set_solver).
  set (body := fun (seen : gset BuildLabel) l => _).
  assert (sp_succ g x = sp_steps g t) as Hsucc by (unfold sp_succ; by rewrite Ht).
  destruct (loopM_inv body (fun l s => sp_visited g (Label t2) ({[x]} ∪ seen) s /\ forall y, y ∈ l -> y ∈ s)
    (fun '(p, s) => is_path g (Label t2) p x) (sp_steps g t) ({[x]} ∪ seen)) as (o & -> & Ho).
  - split; [apply sp_visited_refl|set_solver].
  - intros l1 y l2 s Hl [Hv Hin].
    assert (y ∈ sp_succ g x) as Hy by (rewrite Hsucc, Hl; set_solver).
    destruct (IH s y) as (p & s' & Hr & Hp & Hnp); [apply HN; by eapply Hcl| |].
    { assert (size (N ∖ s) <= size (N ∖ ({[x]} ∪ seen))); [|lia].
      apply subseteq_size. pose proof (sv_mono _ _ _ _ Hv). set_solver. }
    unfold body. rewrite Hr. cbn. case_bool_decide as Hne.
    + eexists. split; [done|]. cbn. destruct p as [|z p]; [done|]. split; [done|].
      pose proof (Hp Hne) as Hpath. destruct (Hp Hne) as [-> _]. done.
    + eexists. split; [done|]. cbn. destruct p as [|]; [|done].
      destruct (Hnp eq_refl) as [Hv' Hys]. split; [by eapply sp_visited_trans|].
      intros y' [Hy'|Hy'%list_elem_of_singleton]%elem_of_app; [|by subst].
      by eapply sv_mono, Hin.
  - destruct o as [[p s]|s]; cbn.
    + exists p, s. split_and!; [done..|]. intros ->. done.
    + destruct Ho as [Hv Hin]. exists [], s. split_and!; [done..|]. intros _.
      assert (x ∈ s) as Hxs by (apply (sv_mono _ _ _ _ Hv); set_solver). split; [|done]. split.
      * pose proof (sv_mono _ _ _ _ Hv). set_solver.
      * intros z y Hz Hn Hy. destruct (decide (z = x)) as [->|].
        -- apply Hin. by rewrite <- Hsucc.
        -- apply (sv_succ _ _ _ _ Hv z); [done|set_solver|done].
      * intros z Hz Hn. destruct (decide (z = x)) as [->|]; [done|].
        apply (sv_goal _ _ _ _ Hv z); [done|set_solver].
Qed.

(** A path that [plz query somepath] finds is a path: every step is a dependency it provides
    (or the target that fetches its subrepo), through nothing excepted, and it ends at the target
    or at a rule the target generated.  When it finds none there is none, even when the targets
    already ruled out by earlier searches for the same target are skipped. *)
Theorem somepath_spec g memo l1 l2 :
  graph_wf g -> sp_closed g -> is_Some (Target g l1) -> is_Some (Target g l2) ->
  dead_end g l2 (default ∅ (memo !! l2)) ->
  exists p memo', somepath_somePath g memo l1 l2 = Ok (p, memo') /\
    (p <> [] -> is_path g l2 p l1) /\
    (p = [] -> dead_end g l2 (default ∅ (memo' !! l2)) /\
       forall x, rtc (edge (sp_succ g)) l1 x -> ~ sp_goal g l2 x).
Proof.
  intros Hwf Hcl [t1 Ht1] [t2 Ht2] Hde. unfold somepath_somePath, TargetOrDie. rewrite Ht1, Ht2.
  rewrite !bind_Ok_l. rewrite (Target_Label g l1 t1) by done.
  set (seen := default ∅ (memo !! l2)) in *.
  destruct (somePath_ok g (list_to_set (graph_AllTargets g)) t2 (2 + length (graph_AllTargets g)) seen l1)
    as (p & seen' & -> & Hp & Hnp); [done|done| | | |].
  - intros l. by rewrite elem_of_list_to_set, elem_of_AllTargets.
  - rewrite elem_of_list_to_set, elem_of_AllTargets by done. eauto.
  - pose proof (size_list_to_set_le (graph_AllTargets g)).
    assert (size (list_to_set (graph_AllTargets g) ∖ seen : gset BuildLabel)
      <= size (list_to_set (graph_AllTargets g) : gset BuildLabel)) by (apply subseteq_size; set_solver). lia.
  - rewrite (Target_Label g l2 t2) in * by done.
    exists p, (<[l2 := seen']> memo). split_and!; [done|done|]. intros He.
    destruct (Hnp He) as [Hv Hx]. rewrite lookup_insert_eq. cbn.
    assert (dead_end g l2 seen') as Hd'.
    { split.
      - intros x y Hxs Hy. destruct (decide (x ∈ seen)) as [Hi|Hi].
        + apply (sv_mono _ _ _ _ Hv). by apply (de_succ _ _ _ Hde x).
        + by apply (sv_succ _ _ _ _ Hv x).
      - intros x Hxs. destruct (decide (x ∈ seen)); [by apply (de_goal _ _ _ Hde)|].
        by apply (sv_goal _ _ _ _ Hv). }
    split; [done|]. intros x Hlx. apply (de_goal _ _ _ Hd').
    eapply (closed_rtc (sp_succ g) seen'); [|exact Hx|exact Hlx]. intros a b. apply (de_succ _ _ _ Hd').
Qed.
End somepath.

Definition somepath_example : BuildGraph :=
  build_graph [with_dep (ex_label "b") (NewBuildTarget (ex_label "a")); NewBuildTarget (ex_label "b")].

Lemma sp_closed_check g except :
  graph_wf g -> all_targets g (fun t => forallb (in_graph g) (sp_steps except g t)) = true ->
  sp_closed except g.
Proof.
  intros Hwf Hall x y Hy. unfold sp_succ in Hy. destruct (Target g x) as [t|] eqn:Ht;
    [|by apply not_elem_of_nil in Hy].
  pose proof (all_targets_spec g _ x t Hwf Hall Ht) as Hp. rewrite forallb_forall in Hp.
  apply list_elem_of_In in Hy. specialize (Hp y Hy). by apply bool_decide_eq_true in Hp.
Qed.

Lemma somepath_spec_witness :
  let g := somepath_example in let a := ex_label "a" in let b := ex_label "b" in
  graph_wf g /\ sp_closed ∅ g /\ is_Some (Target g a) /\ is_Some (Target g b) /\
  dead_end ∅ g b (default ∅ ((∅ : sp_memo) !! b)) /\
  exists p memo', somepath_somePath ∅ g ∅ a b = Ok (p, memo') /\
    (p <> [] -> is_path ∅ g b p a) /\
    (p = [] -> dead_end ∅ g b (default ∅ (memo' !! b)) /\
       forall x, rtc (edge (sp_succ ∅ g)) a x -> ~ sp_goal g b x).
Proof.
  intros g a b. assert (graph_wf g) as Hwf by apply build_graph_wf.
  assert (sp_closed ∅ g) as Hcl by (apply sp_closed_check; [done|by vm_compute]).
  assert (is_Some (Target g a)) as Ha by (refine (bool_decide_unpack _ _); by vm_compute).
  assert (is_Some (Target g b)) as Hb by (refine (bool_decide_unpack _ _); by vm_compute).
  assert (dead_end ∅ g b (default ∅ ((∅ : sp_memo) !! b))) as Hde.
  { rewrite lookup_empty. cbn. split; set_solver. }
  split_and!; [done..|]. by apply somepath_spec.
Defined.

(** *** What [plz query deps] prints *)

(** Without a level limit, with hidden targets shown and no labels excluded. *)
Section deps_spec.
Context (g : BuildGraph).

Definition deps_succ (x : BuildLabel) : list BuildLabel :=
  match Target g x with
  | Some t => omap (fun s => match s with Ok (_, p) => Some p | _ => None end) (deps_steps g t)
  | None => []
  end.

Definition deps_closed : Prop :=
  forall x t s, Target g x = Some t -> s ∈ deps_steps g t ->
    exists d p, s = Ok (d, p) /\ is_Some (Target g p).

(** What one call adds to the marks and to the output. *)
Record deps_done (P : BuildLabel -> Prop) (st st' : gset BuildLabel * list (BuildLabel * Z)) : Prop := {
  dd_mono : st.1 ⊆ st'.1;
  dd_succ : forall x y, x ∈ st'.1 -> x ∉ st.1 -> y ∈ deps_succ x -> y ∈ st'.1;
  dd_reach : forall y, y ∈ st'.1 -> y ∉ st.1 -> exists x, P x /\ rtc (edge deps_succ) x y;
  dd_out : exists new, st'.2 = st.2 ++ new /\ NoDup new.*1 /\
    forall y, y ∈ new.*1 <-> y ∈ st'.1 /\ y ∉ st.1;
}.

Lemma deps_done_refl P st : deps_done P st st.
Proof. split; try set_solver. exists []. rewrite app_nil_r. split_and!; [done|apply NoDup_nil_2|set_solver]. Qed.

Lemma deps_done_trans P s1 s2 s3 : deps_done P s1 s2 -> deps_done P s2 s3 -> deps_done P s1 s3.
Proof.
  intros [M1 S1 R1 (n1 & O1 & D1 & E1)] [M2 S2 R2 (n2 & O2 & D2 & E2)]. split.
  - set_solver.
  - intros x y Hx Hn Hy. destruct (decide (x ∈ s2.1)); [apply M2|]; by eauto.
  - intros y Hy Hn. destruct (decide (y ∈ s2.1)); eauto.
  - exists (n1 ++ n2). rewrite O2, O1, fmap_app, app_assoc. split_and!; [done| |].
    + apply NoDup_app. split_and!; [done| |done]. intros y Hy1 Hy2.
      apply E1 in Hy1. apply E2 in Hy2. naive_solver.
    + intros y. rewrite elem_of_app, E1, E2. destruct (decide (y ∈ s2.1)); set_solver.
Qed.

Lemma deps_done_weaken P Q s1 s2 : (forall x, P x -> Q x) -> deps_done P s1 s2 -> deps_done Q s1 s2.
Proof. intros HPQ [M S R O]. split; [done..| |done]. intros y Hy Hn. destruct (R y Hy Hn) as (x & ? & ?). eauto. Qed.

(** Marking and printing one label, before going down to it. *)
Lemma deps_done_mark l lvl st :
  l ∉ st.1 -> forall st', deps_done (fun x => x ∈ deps_succ l) ({[l]} ∪ st.1, st.2 ++ [(l, lvl)]) st' ->
    (forall y, y ∈ deps_succ l -> y ∈ st'.1) -> deps_done (eq l) st st'.
Proof.
  intros Hl st' [M S R (n & O & D & E)] Hs. cbn in *. split.
  - set_solver.
  - intros x y Hx Hn Hy. destruct (decide (x = l)) as [->|]; [by apply Hs|].
    apply (S x); [done|set_solver|done].
  - intros y Hy Hn. exists l. split; [done|]. destruct (decide (y = l)) as [->|]; [done|].
    destruct (R y) as (x & Hx & Hxy); [done|set_solver|]. by eapply rtc_l.
  - exists ((l, lvl) :: n). rewrite O, <- app_assoc. split_and!; [done| |].
    + cbn. apply NoDup_cons. split; [|done]. rewrite E. set_solver.
    + intros y. cbn. rewrite elem_of_cons, E. destruct (decide (y = l)); set_solver.
Qed.

Lemma deps_ok N fuel t lvl st :
  graph_wf g -> deps_closed -> (forall l, l ∈ N <-> is_Some (Target g l)) ->
  Label t ∈ N -> Target g (Label t) = Some t -> (0 <= lvl)%Z -> size (N ∖ st.1) < fuel ->
  exists st', deps (fun _ => true) (-1) true fuel g t lvl st = Ok st' /\
    deps_done (fun x => x ∈ deps_succ (Label t)) st st' /\ forall y, y ∈ deps_succ (Label t) -> y ∈ st'.1.
Proof.
  intros Hwf Hcl HN. revert t lvl st. induction fuel as [|fuel IH]; intros t lvl st Ht Htt Hlvl Hfuel; [lia|].
  cbn [deps]. replace (lvl =? -1)%Z with false by lia.
  set (body := fun (st : gset BuildLabel * list (BuildLabel * Z)) step => _).
  destruct (foldM_inv body (fun l st' => deps_done (fun x => x ∈ deps_succ (Label t)) st st' /\
    forall d p, Ok (d, p) ∈ l -> p ∈ st'.1) (deps_steps g t) st) as (st' & -> & Hd & Hin).
  - split; [apply deps_done_refl|set_solver].
  - intros l1 s l2 st1 Hl [Hd Hin].
    destruct (Hcl (Label t) t s Htt) as (d & p & -> & [tp Hp]); [rewrite Hl; set_solver|].
    assert (p ∈ deps_succ (Label t)) as Hps.
    { unfold deps_succ. rewrite Htt. apply list_elem_of_omap. exists (Ok (d, p)).
      split; [rewrite Hl; set_solver|done]. }
    assert (forall st2, deps_done (eq p) st1 st2 -> p ∈ st2.1 ->
      deps_done (λ x, x ∈ deps_succ (Label t)) st st2 ∧ (∀ d' p', Ok (d', p') ∈ l1 ++ [Ok (d, p)] → p' ∈ st2.1))
      as Hdone.
    { intros st2 Hd2 Hp2. split.
      - eapply deps_done_trans; [exact Hd|]. eapply deps_done_weaken; [|exact Hd2]. by intros ? <-.
      - intros d' p' [Hp'|Hp'%list_elem_of_singleton]%elem_of_app; [|by simplify_eq].
        eapply dd_mono; [exact Hd2|]. by eapply Hin. }
    unfold body. destruct st1 as [done1 out1]. cbn. case_bool_decide as Hpd; cbn.
    + eexists. split; [done|]. apply Hdone; [apply deps_done_refl|done].
    + unfold TargetOrDie. rewrite Hp. cbn. pose proof (Target_Label g p tp Hwf Hp) as Hlp.
      rewrite Hlp. destruct (IH tp (lvl + 1)%Z ({[p]} ∪ done1, out1 ++ [(p, lvl)]))
        as (st2 & Hr & Hd2 & Hin2).
      * rewrite Hlp. apply HN. eauto.
      * by rewrite Hlp.
      * lia.
      * assert (p ∈ N) by (apply HN; eauto). pose proof (dd_mono _ _ _ Hd) as Hm. cbn in *.
        assert (size (N ∖ ({[p]} ∪ done1)) < size (N ∖ st.1)); [|lia]. apply subset_size. set_solver.
      * exists st2. split; [done|]. rewrite Hlp in *. apply Hdone.
        -- eapply (deps_done_mark p lvl (done1, out1)); [done|exact Hd2|done].
        -- apply (dd_mono _ _ _ Hd2). cbn. set_solver.
  - exists st'. split_and!; [done..|]. intros y Hy. unfold deps_succ in Hy. rewrite Htt in Hy.
    apply list_elem_of_omap in Hy as (s & Hs & He). destruct s as [[d p]| |]; [|done..].
    injection He as ->. by eapply Hin.
Qed.
End deps_spec.

(** C37: [plz query deps] with hidden targets, without a level limit or excluded labels, on
    a graph in which every dependency is there always returns, and prints each target that
    is a transitive dependency of the given ones exactly once, and nothing else. *)
Theorem Deps_complete g labels :
  graph_wf g -> deps_closed g -> (forall l, l ∈ labels -> is_Some (Target g l)) ->
  exists out, Deps (fun _ => true) (-1) true g labels = Ok out /\ NoDup out.*1 /\
    forall y, y ∈ out.*1 <-> exists x, x ∈ labels /\ tc (edge (deps_succ g)) x y.
Proof.
  intros Hwf Hcl Hl. unfold Deps.
  set (body := fun (st : gset BuildLabel * list (BuildLabel * Z)) label => _).
  destruct (foldM_inv body (fun ls st =>
      deps_done g (fun x => exists r, r ∈ labels /\ x ∈ deps_succ g r) (∅, []) st /\
      forall r y, r ∈ ls -> y ∈ deps_succ g r -> y ∈ st.1) labels (∅, [])) as ([d out] & -> & Hd & Hin).
  - split; [apply deps_done_refl|set_solver].
  - intros l1 r l2 st Hlab [Hd Hin]. destruct (Hl r) as [t Ht]; [rewrite Hlab; set_solver|].
    pose proof (Target_Label g r t Hwf Ht) as Hr.
    destruct (deps_ok g (list_to_set (graph_AllTargets g)) (2 + length (graph_AllTargets g)) t 0 st)
      as (st' & Hok & Hd' & Hin'); [done|done| | | |done| |].
    + intros l. by rewrite elem_of_list_to_set, elem_of_AllTargets.
    + rewrite Hr, elem_of_list_to_set, elem_of_AllTargets by done. eauto.
    + by rewrite Hr.
    + pose proof (size_list_to_set_le (graph_AllTargets g)).
      assert (size (list_to_set (graph_AllTargets g) ∖ st.1 : gset BuildLabel)
        <= size (list_to_set (graph_AllTargets g) : gset BuildLabel)) by (apply subseteq_size; set_solver). lia.
    + exists st'. unfold body, TargetOrDie. rewrite Ht, bind_Ok_l. split; [exact Hok|]. split.
      * eapply deps_done_trans; [exact Hd|]. eapply deps_done_weaken; [|exact Hd'].
        intros x Hx. exists r. rewrite Hr in Hx. split; [rewrite Hlab; set_solver|done].
      * intros r' y [Hr'|Hr'%list_elem_of_singleton]%elem_of_app Hy.
        -- eapply dd_mono; [exact Hd'|]. by eapply Hin.
        -- subst r'. apply Hin'. by rewrite Hr.
  - exists out. split; [done|]. destruct (dd_out _ _ _ _ Hd) as (new & Hout & Hnd & Hnew). cbn in Hout.
    subst out. split; [done|]. intros y. rewrite Hnew. cbn. split.
    + intros [Hy Hn]. destruct (dd_reach _ _ _ _ Hd y) as (x & (r & Hr & Hx) & Hxy); [done|set_solver|].
      exists r. split; [done|]. by eapply tc_rtc_r; [apply tc_once|].
    + intros (r & Hr & Hry). split; [|set_solver].
      assert (exists x, x ∈ deps_succ g r /\ rtc (edge (deps_succ g)) x y) as (x & Hx & Hxy).
      { inversion Hry; subst; eauto using rtc_refl, tc_rtc. }
      eapply (closed_rtc (deps_succ g) d); [|by eapply (Hin r)|exact Hxy].
      intros a b Ha Hab. by apply (dd_succ _ _ _ _ Hd a); [|set_solver|].
Qed.

(** [a] depends on [b] and [c], [b] on [c], and [c] on [d]. *)
Definition deps_example : BuildGraph :=
  build_graph [with_dep (ex_label "c") (with_dep (ex_label "b") (NewBuildTarget (ex_label "a")));
    with_dep (ex_label "c") (NewBuildTarget (ex_label "b"));
    with_dep (ex_label "d") (NewBuildTarget (ex_label "c")); NewBuildTarget (ex_label "d")].

Lemma deps_closed_check g :
  graph_wf g ->
  all_targets g (fun t => forallb (fun s => match s with Ok (_, p) => in_graph g p | _ => false end)
    (deps_steps g t)) = true -> deps_closed g.
Proof.
  intros Hwf Hall l t s Ht Hs. pose proof (all_targets_spec g _ l t Hwf Hall Ht) as Hp.
  rewrite forallb_forall in Hp. apply list_elem_of_In in Hs. specialize (Hp s Hs).
  destruct s as [[d p]| |]; [|done..]. exists d, p. by apply bool_decide_eq_true in Hp.
Qed.

Lemma Deps_complete_witness :
  graph_wf deps_example /\ deps_closed deps_example /\
  (forall l, l ∈ [ex_label "a"] -> is_Some (Target deps_example l)) /\
  exists out, Deps (fun _ => true) (-1) true deps_example [ex_label "a"] = Ok out /\ NoDup out.*1 /\
    forall y, y ∈ out.*1 <-> exists x, x ∈ [ex_label "a"] /\ tc (edge (deps_succ deps_example)) x y.
Proof.
  assert (graph_wf deps_example) as Hwf by apply build_graph_wf.
  assert (deps_closed deps_example) as Hcl by (apply deps_closed_check; [done|by vm_compute]).
  assert (forall l, l ∈ [ex_label "a"] -> is_Some (Target deps_example l)) as Hl.
  { intros l ->%list_elem_of_singleton. refine (bool_decide_unpack _ _). by vm_compute. }
  split_and!; [done..|]. by apply Deps_complete.
Defined.

(** A level limit can hide targets that are within the limit: with [a] depending on [b] and
    [c], [b] on [c] and [c] on [d], the query at level 2 marks [c] while it is below [b], at the
    limit, and never comes back to it from [a], so [d], two steps from [a], is not printed;
    without [b] it is. *)
Theorem Deps_level_misses :
  ex_label "c" ∈ deps_succ deps_example (ex_label "a") /\
  ex_label "d" ∈ deps_succ deps_example (ex_label "c") /\
  Deps (fun _ => true) 2 true deps_example [ex_label "a"]
    = Ok [(ex_label "b", 0%Z); (ex_label "c", 1%Z)] /\
  Deps (fun t => negb (String.eqb (Name (Label t)) "b")) 2 true deps_example [ex_label "a"]
    = Ok [(ex_label "c", 0%Z); (ex_label "d", 1%Z)].
Proof.
  split_and!; [refine (bool_decide_unpack _ _); by vm_compute|refine (bool_decide_unpack _ _); by vm_compute
    |by vm_compute|by vm_compute].
Qed.
