(* ===== verification/RevDeps.v ===== *)
(** Reverse dependencies: [src/query/reverse_deps.go], which [plz query revdeps] and
    [plz query changes] use.

    The search keeps a queue of targets with the depth they were reached at, and
    marks a target when it is pushed.  Where Go ranges over a map of targets or
    packages the order is a parameter. *)
From S2P Require Import Prelude GoStrings Labels Cmap Targets Reach Graph Queries.

Section revdeps.
(** The order in which Go ranges over a map with string keys. *)
Context (range_map : forall A, gmap string A -> list (string * A)).

Definition pkg_targets_in_order (pkg : Package) : list BuildLabel := (range_map _ (pkg_targets pkg)).*2.

(** Adding [x] to the slice a map has under [k]. *)
Definition append_at {A} (k : BuildLabel) (x : A) (m : gmap BuildLabel (list A)) : gmap BuildLabel (list A) :=
  <[k := default [] (m !! k) ++ [x]]> m.

Abbreviation rev_map := (gmap BuildLabel (list (option BuildLabel))).

(** One declared dependency of [t].  For a dependency that is not in the graph the
    code appends the target it did not find, which is nil. *)
Definition add_revdep (g : BuildGraph) (t : BuildTarget) (m : rev_map) (d : BuildLabel) : rev_map :=
  match Target g d with
  | None => append_at d None m
  | Some t2 => foldl (fun m p => append_at p (Some (Label t)) m) m (ProvideFor t2 t)
  end.

Definition add_revdeps (g : BuildGraph) (includeSubrepos : bool) (m : rev_map) (t : BuildTarget) : rev_map :=
  let m := foldl (add_revdep g t) m (DeclaredDependencies t) in
  match target_Subrepo t ≫= sub_Target with
  | Some s => if includeSubrepos && IsExternal (target_Subrepo t) then append_at s (Some (Label t)) m else m
  | None => m
  end.

Definition buildRevdeps (g : BuildGraph) (includeSubrepos : bool) : rev_map :=
  foldl (add_revdeps g includeSubrepos) ∅ (omap (Target g) (graph_AllTargets g)).

(** The packages that subinclude each label. *)
Definition build_subincludes (g : BuildGraph) : gmap BuildLabel (list Package) :=
  foldl (fun m pkg => foldl (fun m inc => append_at inc pkg m) m (Subincludes pkg)) ∅
    (omap snd (range_map _ (PackageMap g))).

Record node := MkNode { node_target : BuildLabel; depth : Z }.

(** The queue and what has ever been in it. *)
Record openSet := MkOpen { items : list node; os_done : gset BuildLabel }.

Definition Push (n : node) (os : openSet) : openSet :=
  if decide (node_target n ∈ os_done os) then os
  else MkOpen (items os ++ [n]) ({[node_target n]} ∪ os_done os).

Definition Pop (os : openSet) : option (node * openSet) :=
  match items os with
  | [] => None
  | n :: rest => Some (n, MkOpen rest (os_done os))
  end.

Record revdeps := MkRevdeps {
  rv_revdeps : rev_map;
  rv_subincludes : gmap BuildLabel (list Package);
  followSubincludes : bool;
  rv_hidden : bool;
  maxDepth : Z;
}.

Definition newRevdeps (g : BuildGraph) (hidden followSubincludes includeSubrepos : bool) (maxDepth : Z)
    : revdeps :=
  MkRevdeps (buildRevdeps g includeSubrepos)
    (if followSubincludes then build_subincludes g else ∅) followSubincludes hidden maxDepth.

(** Pointers compared: a rule that is hidden stands for its parent, if it has one. *)
Definition rule_of (g : BuildGraph) (t : BuildTarget) : res (option BuildLabel) :=
  h ← IsHidden (Label t);
  Ok (if (h : bool) then Label <$> target_Parent g t else Some (Label t)).

Definition isSameTarget (g : BuildGraph) (lhs rhs : BuildTarget) : res bool :=
  if decide (Label lhs = Label rhs) then Ok true
  else
    l ← rule_of g lhs; r ← rule_of g rhs;
    Ok (bool_decide (l = r) && bool_decide (is_Some l)).

(** The targets that depend on the one popped, in the order they are handled. *)
Definition rev_step (r : revdeps) (l : BuildLabel) : list (option BuildLabel) :=
  default [] (rv_revdeps r !! l)
  ++ (if followSubincludes r
      then (default [] (rv_subincludes r !! l)) ≫= fun p => Some <$> pkg_targets_in_order p
      else []).

Definition handle_revdep (g : BuildGraph) (r : revdeps) (next : node)
    (st : openSet * gset BuildLabel) (t : option BuildLabel) : res (openSet * gset BuildLabel) :=
  match t with
  | None => Err (EPanic "nil pointer dereference")
  | Some l =>
      t ← TargetOrDie g l; nt ← TargetOrDie g (node_target next);
      same ← (if rv_hidden r then Ok false else isSameTarget g nt t);
      let d := if (same : bool) then depth next else (depth next + 1)%Z in
      if (depth next <? maxDepth r)%Z || (maxDepth r =? -1)%Z then
        ret ← (if (0 <? d)%Z then
                 h ← (if rv_hidden r then Ok false else IsHidden l);
                 if (h : bool) then
                   Ok (match target_Parent g t with Some p => {[Label p]} ∪ st.2 | None => st.2 end)
                 else Ok ({[l]} ∪ st.2)
               else Ok st.2);
        Ok (Push (MkNode l d) st.1, ret)
      else Ok st
  end.

(** The loop pops until the queue is empty; each target is pushed at most once. *)
Fixpoint findRevdeps (fuel : nat) (g : BuildGraph) (r : revdeps) (st : openSet * gset BuildLabel)
    : res (gset BuildLabel) :=
  match fuel with
  | O => NoFuel
  | S fuel =>
      match Pop st.1 with
      | None => Ok st.2
      | Some (next, os) =>
          st ← foldM (handle_revdep g r next) (os, st.2) (rev_step r (node_target next));
          findRevdeps fuel g r st
      end
  end.

(** The queue before the search: the given targets, and when hidden targets do not
    count, the rules they generated. *)
Definition initial_open (g : BuildGraph) (hidden : bool) (targets : list BuildLabel) : res openSet :=
  foldM (fun os label =>
    t ← TargetOrDie g label;
    let os := Push (MkNode label 0) os in
    h ← (if hidden then Ok true else IsHidden label);
    if negb h then
      match PackageByLabel g label with
      | None => Err (EPanic "nil pointer dereference")
      | Some pkg =>
          foldM (fun os child =>
            match Target g child with
            | Some c =>
                if decide (Label <$> target_Parent g c = Some (Label t))
                then Ok (Push (MkNode child 0) os) else Ok os
            | None => Ok os
            end) os (pkg_targets_in_order pkg)
      end
    else Ok os) (MkOpen [] ∅) targets.

Definition FindRevdeps (g : BuildGraph) (targets : list BuildLabel)
    (hidden followSubincludes includeSubrepos : bool) (depth : Z) : res (gset BuildLabel) :=
  let r := newRevdeps g hidden followSubincludes includeSubrepos depth in
  os ← initial_open g hidden targets;
  findRevdeps (2 + length (graph_AllTargets g)) g r (os, ∅).

(** [ReverseDeps]: the labels printed, in order. *)
Definition ReverseDeps (ShouldInclude : BuildTarget -> bool) (g : BuildGraph)
    (labels : list BuildLabel) (level : Z) (hidden : bool) : res (list BuildLabel) :=
  targets ← FindRevdeps g labels hidden true true level;
  Ok (sort_labels (filter (fun l => Is_true (match Target g l with
                                              | Some t => ShouldInclude t | None => false end))
                     (elements targets))).

(** ** The unlimited search *)

(** What the search of [r] goes on to from a target. *)
Definition rev_succ (r : revdeps) (l : BuildLabel) : list BuildLabel := omap id (rev_step r l).

(** Everything the search may come to is a target of the graph. *)
Definition rev_closed (g : BuildGraph) (r : revdeps) : Prop :=
  forall l t, is_Some (Target g l) -> t ∈ rev_step r l -> exists l', t = Some l' /\ is_Some (Target g l').

(** The state between two pops: everything popped has been dealt with. *)
Record rev_inv (g : BuildGraph) (r : revdeps) (roots : list BuildLabel)
    (st : openSet * gset BuildLabel) : Prop := {
  ri_queue : forall n, n ∈ items st.1 -> node_target n ∈ os_done st.1 /\ (0 <= depth n)%Z;
  ri_graph : forall l, l ∈ os_done st.1 -> is_Some (Target g l);
  ri_reach : forall l, l ∈ os_done st.1 -> exists x, x ∈ roots /\ rtc (edge (rev_succ r)) x l;
  ri_roots : forall l, l ∈ roots -> l ∈ os_done st.1;
  ri_popped : forall x y, x ∈ os_done st.1 -> (forall n, n ∈ items st.1 -> node_target n <> x) ->
    y ∈ rev_succ r x -> y ∈ os_done st.1 /\ y ∈ st.2;
  ri_ret : forall y, y ∈ st.2 -> exists x, x ∈ os_done st.1 /\ y ∈ rev_succ r x;
}.

Lemma Push_done n os l : l ∈ os_done (Push n os) <-> l = node_target n \/ l ∈ os_done os.
Proof. unfold Push. case_decide; cbn; set_solver. Qed.

Lemma Push_items n os m : m ∈ items (Push n os) -> m = n \/ m ∈ items os.
Proof. unfold Push. case_decide; cbn; set_solver. Qed.

Lemma Push_items_mono n os m : m ∈ items os -> m ∈ items (Push n os).
Proof. unfold Push. case_decide; cbn; set_solver. Qed.

(** A target that is marked by a push is in the queue. *)
Lemma Push_fresh n os l :
  l ∈ os_done (Push n os) -> l ∉ os_done os -> exists m, m ∈ items (Push n os) /\ node_target m = l.
Proof.
  unfold Push. case_decide; cbn; [done|]. intros [->%elem_of_singleton|?]%elem_of_union Hn; [|done].
  exists n. set_solver.
Qed.

(** How much is left to do: what can still be marked and what is in the queue. *)
Definition rev_measure (N : gset BuildLabel) (os : openSet) : nat :=
  size (N ∖ os_done os) + length (items os).

Lemma Push_measure N n os : node_target n ∈ N -> rev_measure N (Push n os) = rev_measure N os.
Proof.
  intros Hn. unfold rev_measure, Push. case_decide as Hd; [done|]. cbn.
  rewrite length_app. cbn.
  assert (N ∖ os_done os = {[node_target n]} ∪ (N ∖ ({[node_target n]} ∪ os_done os))) as He.
  { apply set_eq. intros x. destruct (decide (x = node_target n)); set_solver. }
  pose proof (size_union {[node_target n]} (N ∖ ({[node_target n]} ∪ os_done os))) as Hs.
  rewrite size_singleton, <- He in Hs. rewrite Hs by set_solver. lia.
Qed.

Lemma initial_open_ok g roots :
  (forall l, l ∈ roots -> is_Some (Target g l)) ->
  exists os, initial_open g true roots = Ok os /\
    (forall l, l ∈ os_done os <-> l ∈ roots) /\
    (forall n, n ∈ items os -> node_target n ∈ roots /\ depth n = 0%Z) /\
    (forall l, l ∈ roots -> exists n, n ∈ items os /\ node_target n = l) /\
    forall N, (forall l, l ∈ roots -> l ∈ N) -> rev_measure N os = size N.
Proof.
  intros Hr. unfold initial_open. set (body := fun (os : openSet) label => _).
  destruct (foldM_inv body (fun ls os =>
    (forall l, l ∈ os_done os <-> l ∈ ls) /\ (forall n, n ∈ items os -> node_target n ∈ ls /\ depth n = 0%Z) /\
    (forall l, l ∈ ls -> exists n, n ∈ items os /\ node_target n = l) /\
    forall N, (forall l, l ∈ roots -> l ∈ N) -> rev_measure N os = size N) roots (MkOpen [] ∅))
    as (os & -> & HI); [|shelve|by exists os].
  split_and!; [set_solver..|]. intros N _. unfold rev_measure. cbn. rewrite difference_empty_L. lia.
  Unshelve.
  intros l1 x l2 os Hl (Hd & Hi & Hin & Hm). destruct (Hr x) as [t Ht]; [rewrite Hl; set_solver|].
  exists (Push (MkNode x 0) os). unfold body, TargetOrDie. rewrite Ht. cbn. split_and!; [done| | | |].
  - intros l. rewrite Push_done, Hd, elem_of_app, list_elem_of_singleton. cbn. tauto.
  - intros n [->|Hn]%Push_items; [cbn; set_solver|]. apply Hi in Hn as [? ?]. set_solver.
  - intros l. destruct (decide (l ∈ os_done os)) as [Ho|Ho].
    + intros _. apply Hd, Hin in Ho as (n & Hn & <-). exists n. split; [by apply Push_items_mono|done].
    + intros [Hl1| ->%list_elem_of_singleton]%elem_of_app; [by apply Hd in Hl1|].
      apply Push_fresh; [|done]. apply Push_done. by left.
  - intros N HN. rewrite Push_measure; [by apply Hm|]. apply HN. rewrite Hl. set_solver.
Qed.

(** What handling one popped target does to the state. *)
Lemma handle_all g r next os ret N :
  rev_closed g r -> rv_hidden r = true -> maxDepth r = (-1)%Z -> (0 <= depth next)%Z ->
  is_Some (Target g (node_target next)) -> (forall l, l ∈ N <-> is_Some (Target g l)) ->
  exists os' ret', foldM (handle_revdep g r next) (os, ret) (rev_step r (node_target next)) = Ok (os', ret') /\
    (forall l, l ∈ os_done os' <-> l ∈ os_done os \/ l ∈ rev_succ r (node_target next)) /\
    (forall n, n ∈ items os' -> n ∈ items os \/
       (node_target n ∈ rev_succ r (node_target next) /\ (0 <= depth n)%Z)) /\
    (forall n, n ∈ items os -> n ∈ items os') /\
    (forall l, l ∈ os_done os' -> l ∉ os_done os -> exists n, n ∈ items os' /\ node_target n = l) /\
    (forall y, y ∈ ret' <-> y ∈ ret \/ y ∈ rev_succ r (node_target next)) /\
    rev_measure N os' = rev_measure N os.
Proof.
  intros Hcl Hhid Hmax Hdep Hnext HN.
  destruct (foldM_inv (handle_revdep g r next) (fun ls '(os', ret') =>
    (forall l, l ∈ os_done os' <-> l ∈ os_done os \/ Some l ∈ ls) /\
    (forall n, n ∈ items os' -> n ∈ items os \/ (Some (node_target n) ∈ ls /\ (0 <= depth n)%Z)) /\
    (forall n, n ∈ items os -> n ∈ items os') /\
    (forall l, l ∈ os_done os' -> l ∉ os_done os -> exists n, n ∈ items os' /\ node_target n = l) /\
    (forall y, y ∈ ret' <-> y ∈ ret \/ Some y ∈ ls) /\
    rev_measure N os' = rev_measure N os) (rev_step r (node_target next)) (os, ret))
    as ([os' ret'] & Hf & HI).
  - split_and!; set_solver.
  - intros l1 t l2 [os1 ret1] Hl (Hd & Hi & Hm & Hf & Hr & Hme).
    destruct (Hcl (node_target next) t Hnext) as (l & -> & [tl Htl]); [rewrite Hl; set_solver|].
    destruct Hnext as [tn Htn]. unfold handle_revdep, TargetOrDie. rewrite Htl, Htn, Hhid, Hmax. cbn.
    rewrite orb_true_r. replace (0 <? depth next + 1)%Z with true by lia. cbn.
    eexists. split; [done|]. cbn. split_and!.
    + intros l'. rewrite Push_done, Hd, elem_of_app, list_elem_of_singleton. cbn. naive_solver.
    + intros n [->|Hn]%Push_items; [right; split; [set_solver|cbn; lia]|].
      apply Hi in Hn as [?|[? ?]]; [by left|right; set_solver].
    + intros n Hn. by apply Push_items_mono, Hm.
    + intros l' Hl' Hn. destruct (decide (l' ∈ os_done os1)) as [Ho|Ho]; [|by apply Push_fresh].
      destruct (Hf l' Ho Hn) as (n & ? & ?). exists n. split; [by apply Push_items_mono|done].
    + intros y. rewrite elem_of_union, elem_of_singleton, Hr, elem_of_app, list_elem_of_singleton. naive_solver.
    + rewrite Push_measure; [done|]. apply HN. cbn. eauto.
  - exists os', ret'. assert (forall y, Some y ∈ rev_step r (node_target next) <->
      y ∈ rev_succ r (node_target next)) as Hs.
    { intros y. unfold rev_succ. rewrite list_elem_of_omap. cbn. naive_solver. }
    split; [exact Hf|]. by setoid_rewrite Hs in HI.
Qed.

Lemma findRevdeps_ok g r roots N fuel st :
  rev_closed g r -> rv_hidden r = true -> maxDepth r = (-1)%Z -> (forall l, l ∈ N <-> is_Some (Target g l)) ->
  rev_inv g r roots st -> rev_measure N st.1 < fuel ->
  exists ret, findRevdeps fuel g r st = Ok ret /\
    forall y, y ∈ ret <-> exists x, x ∈ roots /\ tc (edge (rev_succ r)) x y.
Proof.
  intros Hcl Hhid Hmax HN. revert st. induction fuel as [|fuel IH]; intros [[q d] ret] HI Hfuel; [lia|].
  cbn. destruct q as [|next q]; cbn.
  - exists ret. split; [done|]. intros y. split.
    + intros (x & Hx & Hy)%(ri_ret _ _ _ _ HI). apply (ri_reach _ _ _ _ HI) in Hx as (x0 & Hx0 & Hxx).
      exists x0. split; [done|]. by eapply tc_rtc_l; [exact Hxx|apply tc_once].
    + intros (x & Hx & Hxy). apply (ri_roots _ _ _ _ HI) in Hx.
      assert (forall a b, a ∈ d -> b ∈ rev_succ r a -> b ∈ d /\ b ∈ ret) as Hp.
      { intros a b Ha Hb. apply (ri_popped _ _ _ _ HI a); [done|cbn; set_solver|done]. }
      clear HI Hfuel. cbn in *. induction Hxy as [x y Hxy|x y z Hxy _ IHt]; [by eapply Hp|].
      apply IHt. by eapply Hp.
  - destruct (ri_queue _ _ _ _ HI next) as [Hnd Hdep]; [cbn; set_solver|].
    destruct (handle_all g r next (MkOpen q d) ret N) as (os' & ret' & -> & Hd & Hi & Hm & Hf & Hr & Hme);
      [done..|by apply (ri_graph _ _ _ _ HI)|done|]. cbn -[rev_measure] in *. apply IH.
    + split; cbn.
      * intros n Hn. apply Hi in Hn as [Hn|[Hn ?]]; [|rewrite Hd; auto].
        destruct (ri_queue _ _ _ _ HI n); [cbn; set_solver|]. rewrite Hd. auto.
      * intros l [Hl|Hl]%Hd; [by apply (ri_graph _ _ _ _ HI)|].
        unfold rev_succ in Hl. apply list_elem_of_omap in Hl as (t & Ht & He). cbn in He. subst t.
        destruct (Hcl (node_target next) (Some l)) as (l' & [= <-] & ?); [|done|done].
        by apply (ri_graph _ _ _ _ HI).
      * intros l [Hl|Hl]%Hd; [by apply (ri_reach _ _ _ _ HI)|].
        destruct (ri_reach _ _ _ _ HI (node_target next) Hnd) as (x & ? & ?). exists x. split; [done|].
        by eapply rtc_r.
      * intros l Hl. rewrite Hd. left. by apply (ri_roots _ _ _ _ HI).
      * intros x y Hx Hnq Hy. destruct (decide (x = node_target next)) as [->|Hne].
        { rewrite Hd, Hr. auto. }
        destruct (decide (x ∈ d)) as [Hxd|Hxd].
        -- destruct (ri_popped _ _ _ _ HI x y) as [? ?]; [done| |done|rewrite Hd, Hr; auto].
           intros n [->|Hn]%elem_of_cons; [done|]. by apply Hnq, Hm.
        -- destruct (Hf x Hx Hxd) as (n & Hn & He). exfalso. by apply (Hnq n Hn).
      * intros y [Hy|Hy]%Hr.
        -- destruct (ri_ret _ _ _ _ HI y Hy) as (x & ? & ?). exists x. rewrite Hd. auto.
        -- exists (node_target next). rewrite Hd. auto.
    + cbn -[rev_measure]. rewrite Hme. unfold rev_measure in *. cbn in *. lia.
Qed.

(** Without a depth limit and with hidden targets counted, [FindRevdeps] always returns,
    and its result is exactly the targets from which some chain of dependencies (or of subincludes
    and subrepos, where those are followed) leads to one of the given targets. *)
Theorem FindRevdeps_unlimited g roots follow subrepos :
  let r := newRevdeps g true follow subrepos (-1) in
  graph_wf g -> rev_closed g r -> (forall l, l ∈ roots -> is_Some (Target g l)) ->
  exists ret, FindRevdeps g roots true follow subrepos (-1) = Ok ret /\
    forall y, y ∈ ret <-> exists x, x ∈ roots /\ tc (edge (rev_succ r)) x y.
Proof.
  intros r Hwf Hcl Hroots. unfold FindRevdeps.
  destruct (initial_open_ok g roots Hroots) as (os & -> & Hd & Hi & Hin & Hm). rewrite bind_Ok_l.
  set (N := list_to_set (graph_AllTargets g) : gset BuildLabel).
  assert (forall l, l ∈ N <-> is_Some (Target g l)) as HN.
  { intros l. unfold N. by rewrite elem_of_list_to_set, elem_of_AllTargets. }
  apply (findRevdeps_ok g r roots N); [done..| |].
  - split; cbn.
    + intros n Hn. destruct (Hi n Hn) as [? ->]. by rewrite Hd.
    + intros l Hl%Hd. auto.
    + intros l Hl%Hd. exists l. by split.
    + intros l Hl. by apply Hd.
    + intros x y Hx Hnq. apply Hd, Hin in Hx as (n & Hn & He). by destruct (Hnq n Hn).
    + set_solver.
  - cbn [fst]. rewrite (Hm N) by (intros l Hl; by apply HN, Hroots).
    pose proof (size_list_to_set_le (graph_AllTargets g)). unfold N. lia.
Qed.
(** ** What is searched, by what targets declare *)

(** [y] depends on [x]: one of the dependencies that it declares gives it [x], or, where those
    are followed, it is in an external subrepo that [x] makes. *)
Definition depends (g : BuildGraph) (subrepos : bool) (x y : BuildLabel) : Prop :=
  exists t, Target g y = Some t /\
    ((exists d t2, d ∈ DeclaredDependencies t /\ Target g d = Some t2 /\ x ∈ ProvideFor t2 t) \/
     (subrepos = true /\ IsExternal (target_Subrepo t) = true /\ (target_Subrepo t ≫= sub_Target) = Some x)).

Lemma elem_of_append_at {A} k (x : A) m k' y :
  y ∈ default [] (append_at k x m !! k') <-> y ∈ default [] (m !! k') \/ k' = k /\ y = x.
Proof.
  unfold append_at. destruct (decide (k' = k)) as [->|Hne].
  - rewrite lookup_insert_eq. cbn. rewrite elem_of_app, list_elem_of_singleton. tauto.
  - rewrite lookup_insert_ne by done. tauto.
Qed.

(** Loops that add to the lists of a map *)
Lemma foldl_adds {A X} (f : gmap BuildLabel (list A) -> X -> gmap BuildLabel (list A)) (P : X -> BuildLabel -> A -> Prop) l m k y :
  (forall x m k y, x ∈ l -> y ∈ default [] (f m x !! k) <-> y ∈ default [] (m !! k) \/ P x k y) ->
  y ∈ default [] (foldl f m l !! k) <-> y ∈ default [] (m !! k) \/ exists x, x ∈ l /\ P x k y.
Proof.
  revert m. induction l as [|x l IH]; intros m H; cbn [foldl].
  - split; [by left|]. by intros [?|(x & ?%elem_of_nil & _)].
  - rewrite IH by (intros; apply H; by right). rewrite H by (by left). setoid_rewrite elem_of_cons. naive_solver.
Qed.

Definition declared (g : BuildGraph) (t : BuildTarget) (d k : BuildLabel) (y : option BuildLabel) : Prop :=
  match Target g d with
  | None => k = d /\ y = None
  | Some t2 => k ∈ ProvideFor t2 t /\ y = Some (Label t)
  end.

Lemma elem_of_add_revdep g t m d k y :
  y ∈ default [] (add_revdep g t m d !! k) <-> y ∈ default [] (m !! k) \/ declared g t d k y.
Proof.
  unfold add_revdep, declared. destruct (Target g d) as [t2|]; [|apply elem_of_append_at].
  rewrite (foldl_adds _ (fun p k y => k = p /\ y = Some (Label t))) by (intros; apply elem_of_append_at). naive_solver.
Qed.

Definition made (subrepos : bool) (t : BuildTarget) (k : BuildLabel) (y : option BuildLabel) : Prop :=
  subrepos = true /\ IsExternal (target_Subrepo t) = true /\ (target_Subrepo t ≫= sub_Target) = Some k /\ y = Some (Label t).

Lemma elem_of_add_revdeps g subrepos m t k y :
  y ∈ default [] (add_revdeps g subrepos m t !! k) <->
  y ∈ default [] (m !! k) \/ (exists d, d ∈ DeclaredDependencies t /\ declared g t d k y) \/ made subrepos t k y.
Proof.
  unfold add_revdeps, made. cbv zeta. rewrite <- Logic.or_assoc.
  rewrite <- (foldl_adds (add_revdep g t) (declared g t)) by (intros; apply elem_of_add_revdep).
  destruct (target_Subrepo t ≫= sub_Target) as [s|]; [|naive_solver].
  destruct subrepos, (IsExternal (target_Subrepo t)); cbn [andb]; rewrite ?elem_of_append_at; naive_solver.
Qed.

Lemma elem_of_buildRevdeps g subrepos x y : graph_wf g ->
  y ∈ default [] (buildRevdeps g subrepos !! x) <->
  exists l t, Target g l = Some t /\ ((exists d, d ∈ DeclaredDependencies t /\ declared g t d x y) \/ made subrepos t x y).
Proof.
  intros Hwf. unfold buildRevdeps.
  rewrite (foldl_adds _ (fun t k y => (exists d, d ∈ DeclaredDependencies t /\ declared g t d k y) \/ made subrepos t k y))
    by (intros; apply elem_of_add_revdeps).
  rewrite lookup_empty. cbn [default]. rewrite elem_of_nil. split.
  - intros [[]|(t & (l & _ & Hl)%list_elem_of_omap & H)]. eauto.
  - intros (l & t & Hl & H). right. exists t. split; [|done]. apply list_elem_of_omap. exists l. split; [|done].
    by apply elem_of_AllTargets; eauto.
Qed.

(** The search goes on to what depends on a target, and, unless it follows subincludes too,
    never to something that is not there. *)
Lemma rev_step_depends g hidden subrepos max x y : graph_wf g -> is_Some (Target g x) ->
  y ∈ rev_step (newRevdeps g hidden false subrepos max) x <-> exists l, y = Some l /\ depends g subrepos x l.
Proof.
  intros Hwf [tx Hx]. unfold rev_step, newRevdeps. cbn [rv_revdeps followSubincludes]. rewrite app_nil_r, elem_of_buildRevdeps by done.
  unfold depends, declared, made. split.
  - intros (l & t & Hl & [(d & Hd & H)|(H1 & H2 & H3 & ->)]); pose proof (Target_Label g l t Hwf Hl) as E.
    + destruct (Target g d) as [t2|] eqn:Ed; [|destruct H as [-> _]; congruence]. destruct H as [H ->].
      exists l. rewrite E. split; [done|]. exists t. split; [done|]. left. eauto.
    + exists l. rewrite E. split; [done|]. exists t. auto.
  - intros (l & -> & t & Hl & H). exists l, t. split; [done|]. rewrite (Target_Label g l t Hwf Hl).
    destruct H as [(d & t2 & Hd & Ht2 & H)|H]; [left; exists d; by rewrite Ht2|right; naive_solver].
Qed.

Lemma rev_succ_depends g hidden subrepos max x y : graph_wf g -> is_Some (Target g x) ->
  y ∈ rev_succ (newRevdeps g hidden false subrepos max) x <-> depends g subrepos x y.
Proof.
  intros Hwf Hx. unfold rev_succ. rewrite list_elem_of_omap. cbn. setoid_rewrite rev_step_depends; [|done..]. naive_solver.
Qed.

Lemma rev_closed_direct g hidden subrepos max : graph_wf g -> rev_closed g (newRevdeps g hidden false subrepos max).
Proof.
  intros Hwf l o Hl. rewrite rev_step_depends by done. intros (y & -> & t & Ht & _). eauto.
Qed.

(** A chain of them, from a target of the graph *)
Lemma tc_depends g hidden subrepos max x y : graph_wf g -> is_Some (Target g x) ->
  tc (edge (rev_succ (newRevdeps g hidden false subrepos max))) x y <-> tc (depends g subrepos) x y.
Proof.
  intros Hwf Hx. split; intros H; revert Hx; induction H as [x y H|x y z H _ IH]; intros Hx;
    apply (rev_succ_depends g hidden subrepos max) in H as H'; try done.
  - by apply tc_once.
  - eapply tc_l; [done|]. apply IH. destruct H' as (t & Ht & _). eauto.
  - by apply tc_once.
  - eapply tc_l; [exact H'|]. apply IH. destruct H as (t & Ht & _). eauto.
Qed.
End revdeps.

(** The order the witnesses range over maps in. *)
Definition listed_order : forall A, gmap string A -> list (string * A) := fun A m => map_to_list m.

Definition other_label (n : string) : BuildLabel := MkBuildLabel "o" n "".

(** [v] depends on [w], [w] on [b], [b] on the hidden target its own rule generated, and that on
    [a]; [x] depends on [a] too and [y] on [x].  With [extra], [w] also depends on [y]. *)
Definition revdeps_example (extra : bool) : BuildGraph :=
  let hidden_b := ex_label "_b#lib" in
  let w := with_dep (ex_label "b") (NewBuildTarget (ex_label "w")) in
  let g := build_graph [NewBuildTarget (ex_label "a");
    with_dep (ex_label "a") (NewBuildTarget hidden_b);
    with_dep (ex_label "a") (NewBuildTarget (other_label "x"));
    with_dep hidden_b (NewBuildTarget (ex_label "b"));
    with_dep (other_label "x") (NewBuildTarget (other_label "y"));
    if extra then with_dep (other_label "y") w else w;
    with_dep (ex_label "w") (NewBuildTarget (ex_label "v"))] in
  from_Ok g (AddPackage g (foldl pkg_AddTarget (NewPackage "p" "")
    [ex_label "a"; hidden_b; ex_label "b"; ex_label "w"; ex_label "v"])).

Definition revdeps_level3 (extra : bool) : res (gset BuildLabel) :=
  FindRevdeps listed_order (revdeps_example extra) [ex_label "a"] false false false 3.

(** With a depth limit, a further dependency can make the search lose a result: [v] is found
    within three steps of [a] (the step from [b]'s hidden target to [b] is free), but when [w]
    also depends on [y], [w] is first reached, and marked, through the longer way over [y],
    which is in the queue before [b], and [v] is then beyond the limit. *)
Theorem FindRevdeps_depth_misses :
  (exists s, revdeps_level3 false = Ok s /\ ex_label "v" ∈ s) /\
  (exists s, revdeps_level3 true = Ok s /\ ex_label "v" ∉ s).
Proof.
  assert (forall extra b,
    (match revdeps_level3 extra with Ok s => bool_decide (ex_label "v" ∈ s) | _ => negb b end) = b ->
    exists s, revdeps_level3 extra = Ok s /\ bool_decide (ex_label "v" ∈ s) = b) as Hrun.
  { intros extra b. destruct (revdeps_level3 extra) as [s| |]; [by eauto|by destruct b..]. }
  split.
  - destruct (Hrun false true) as (s & Hs & Hv); [by vm_compute|].
    exists s. split; [done|]. by apply bool_decide_eq_true in Hv.
  - destruct (Hrun true false) as (s & Hs & Hv); [by vm_compute|].
    exists s. split; [done|]. by apply bool_decide_eq_false in Hv.
Qed.

Lemma rev_closed_check g r :
  graph_wf g ->
  all_targets g (fun t => forallb (fun o => match o with Some l => in_graph g l | None => false end)
    (rev_step listed_order r (Label t))) = true -> rev_closed listed_order g r.
Proof.
  intros Hwf Hall l o [t Ht] Ho. pose proof (all_targets_spec g _ l t Hwf Hall Ht) as Hp.
  cbv beta in Hp. rewrite (Target_Label g l t Hwf Ht), forallb_forall in Hp. apply list_elem_of_In in Ho.
  specialize (Hp o Ho). destruct o as [l'|]; [|done]. exists l'. by apply bool_decide_eq_true in Hp.
Qed.

Lemma FindRevdeps_unlimited_witness :
  let g := deps_example in let r := newRevdeps listed_order g true false false (-1) in
  graph_wf g /\ rev_closed listed_order g r /\ (forall l, l ∈ [ex_label "d"] -> is_Some (Target g l)) /\
  exists ret, FindRevdeps listed_order g [ex_label "d"] true false false (-1) = Ok ret /\
    forall y, y ∈ ret <-> exists x, x ∈ [ex_label "d"] /\ tc (edge (rev_succ listed_order r)) x y.
Proof.
  intros g r. assert (graph_wf g) as Hwf by apply build_graph_wf.
  assert (rev_closed listed_order g r) as Hcl by (apply rev_closed_check; [done|by vm_compute]).
  assert (forall l, l ∈ [ex_label "d"] -> is_Some (Target g l)) as Hl.
  { intros l ->%list_elem_of_singleton. refine (bool_decide_unpack _ _). by vm_compute. }
  split_and!; [done..|]. by apply (FindRevdeps_unlimited listed_order g [ex_label "d"] false false).
Defined.
