(* ===== verification/Gc.v ===== *)
(** Garbage collection of unused targets: [src/gc/gc.go].

    The set of targets to keep is a set of labels; whatever is neither kept nor
    filtered out is removed.  The order in which Go ranges over the packages is a
    parameter.  Rewriting the BUILD files and deleting the sources are effects of
    the command on the file system and not modelled. *)
From S2P Require Import Prelude GoStrings Labels Cmap Targets Reach Graph.

Section gc.
Context (range_map : forall A, gmap string A -> list (string * A)).
Context (filter_labels targets targetsToKeep : list BuildLabel) (keepLabels : list string)
  (includeTests : bool).

Definition anyInclude (labels : list BuildLabel) (label : BuildLabel) : bool :=
  existsb (fun l => Includes l label) labels.

Definition isIncluded (target : BuildLabel) (filter : list BuildLabel) : bool :=
  if bool_decide (filter = []) then true else existsb (fun f => Includes f target) filter.

(** Visiting a target that may be nil. *)
Definition if_present (g : BuildGraph) (f : gset BuildLabel -> BuildLabel -> res (gset BuildLabel))
    (m : gset BuildLabel) (l : BuildLabel) : res (gset BuildLabel) :=
  match Target g l with Some t => f m (Label t) | None => Ok m end.

Fixpoint addTarget (fuel : nat) (g : BuildGraph) (m : gset BuildLabel) (target : BuildLabel)
    : res (gset BuildLabel) :=
  match fuel with
  | O => NoFuel
  | S fuel =>
      if decide (target ∈ m) then Ok m
      else
        t ← TargetOrDie g target;
        m ← foldM (if_present g (addTarget fuel g)) ({[target]} ∪ m) (DeclaredDependencies t);
        m ← foldM (if_present g (addTarget fuel g)) m (Dependencies g t).1;
        match target_Subrepo t ≫= sub_Target with
        | Some s => if_present g (addTarget fuel g) m s
        | None => Ok m
        end
  end.

(** The dependencies of a test outside its own rule. *)
Fixpoint publicDependencies (fuel : nat) (g : BuildGraph) (target : BuildTarget) : res (list BuildLabel) :=
  match fuel with
  | O => NoFuel
  | S fuel =>
      ret ← foldM (fun ret dep =>
          match Target g dep with
          | None => Ok ret
          | Some depTarget =>
              if decide (Parent (Label depTarget) = Parent (Label target)) then
                ds ← publicDependencies fuel g depTarget; Ok (ret ++ ds)
              else Ok (ret ++ [Label depTarget])
          end) [] (DeclaredDependencies target);
      Ok (ret ++ option_list (target_Subrepo target ≫= sub_Target))
  end.

(** The sibling whose fate a target shares: the first one its labels name that
    exists, or itself. *)
Fixpoint first_sibling (g : BuildGraph) (pkg : string) (names : list string) : res (option BuildLabel) :=
  match names with
  | [] => Ok None
  | n :: names =>
      l ← NewBuildLabel pkg n;
      match Target g l with Some t2 => Ok (Some (Label t2)) | None => first_sibling g pkg names end
  end.

Definition gcSibling (g : BuildGraph) (t : BuildTarget) : res BuildLabel :=
  o ← first_sibling g (PackageName (Label t)) (PrefixedLabels t "gc_sibling:");
  Ok (default (Label t) o).

(** [AllLocalSourcePaths]. *)
Definition AllLocalSourcePaths (t : BuildTarget) : list string :=
  omap (fun src => match src with FileLabel f p => Some (path_join [p; f]) | _ => None end) (AllSources t).

Definition gc_root (t : BuildTarget) : bool :=
  (IsBinary t && (negb (IsTest t) || includeTests)) || HasAnyLabel t keepLabels
  || anyInclude targetsToKeep (Label t) || negb (String.eqb (Subrepo (Label t)) "").

Definition gc_fuel (g : BuildGraph) : nat := 2 + length (graph_AllTargets g).
Definition add (g : BuildGraph) := addTarget (gc_fuel g) g.
Definition gc_packages (g : BuildGraph) : list Package := omap snd (range_map _ (PackageMap g)).

Definition keep_roots (g : BuildGraph) (m : gset BuildLabel) : res (gset BuildLabel) :=
  foldM (fun m l => match Target g l with
                    | Some t => if gc_root t then add g m l else Ok m
                    | None => Ok m end) m (graph_AllTargets g).

Definition keep_subincludes (g : BuildGraph) (m : gset BuildLabel) : res (gset BuildLabel) :=
  foldM (fun m s => t ← TargetOrDie g s; add g m (Label t)) m (gc_packages g ≫= Subincludes).

Definition keep_given (g : BuildGraph) (m : gset BuildLabel) : res (gset BuildLabel) :=
  foldM (fun m target =>
    if IsAllSubpackages target then
      foldM (if_present g (add g)) m
        (filter (fun p => Is_true (IsIncludedIn p target)) (gc_packages g) ≫= fun p =>
           (range_map _ (pkg_targets p)).*2)
    else if_present g (add g) m target) m targets.

(** Tests on what is kept, and what they need of test-only targets. *)
Definition keep_tests (g : BuildGraph) (m : gset BuildLabel) : res (gset BuildLabel) :=
  foldM (fun m l =>
    match Target g l with
    | None => Ok m
    | Some target =>
        if IsTest target then
          deps ← publicDependencies (gc_fuel g) g target;
          foldM (fun m dep =>
            d ← TargetOrDie g dep;
            if bool_decide (dep ∈ m) && negb (TestOnly d) then add g m l
            else if TestOnly d then add g m dep
            else Ok m) m deps
        else Ok m
    end) m (graph_AllTargets g).

Definition keepTargets (g : BuildGraph) : res (gset BuildLabel) :=
  m ← keep_roots g ∅; m ← keep_subincludes g m; m ← keep_given g m;
  if includeTests then Ok m else keep_tests g m.

(** The removed targets and the sources that go with them. *)
Definition targetsToRemove (g : BuildGraph) : res (list BuildLabel * list string) :=
  keep ← keepTargets g;
  let keepSrcs := elements keep ≫= fun l =>
    match Target g l with Some t => AllLocalSourcePaths t | None => [] end in
  '(ret, retSrcs) ← foldM (fun '(ret, retSrcs) l =>
      match Target g l with
      | None => Ok (ret, retSrcs)
      | Some t =>
          sibling ← gcSibling g t;
          if negb (HasParent sibling) && negb (bool_decide (sibling ∈ keep))
               && isIncluded sibling filter_labels
          then Ok (ret ++ [l], retSrcs ++ filter (fun s => s ∉ keepSrcs) (AllLocalSourcePaths t))
          else Ok (ret, retSrcs)
      end) ([], []) (graph_AllTargets g);
  Ok (sort_labels ret, sort_strings retSrcs).

(** ** What the kept set contains *)

(** What keeping a target goes on to keep. *)
Definition gc_next (g : BuildGraph) (l : BuildLabel) : list BuildLabel :=
  match Target g l with
  | Some t =>
      filter (fun d => is_Some (Target g d))
        (DeclaredDependencies t ++ (Dependencies g t).1 ++ option_list (target_Subrepo t ≫= sub_Target))
  | None => []
  end.

Definition gc_edge (g : BuildGraph) := edge (gc_next g).

Lemma gc_edge_present g x y : gc_edge g x y -> is_Some (Target g y).
Proof.
  unfold gc_edge, edge, gc_next. destruct (Target g x); [|by intros ?%not_elem_of_nil].
  by intros [? _]%list_elem_of_filter.
Qed.

Lemma foldM_if_present g f m ls :
  graph_wf g ->
  foldM (if_present g f) m ls = foldM f m (filter (fun d => is_Some (Target g d)) ls).
Proof.
  intros Hwf. revert m. induction ls as [|l ls IH]; intros m; [done|]. cbn [foldM].
  rewrite filter_cons. change (if_present g f m l) with
    (match Target g l with Some t => f m (Label t) | None => Ok m end).
  destruct (Target g l) as [t|] eqn:Ht.
  - rewrite decide_True by eauto. cbn. rewrite (Target_Label g l t) by done.
    destruct (f m l); cbn; auto.
  - rewrite decide_False by (by intros []). cbn. apply IH.
Qed.

Lemma addTarget_visit g fuel m x :
  graph_wf g -> is_Some (Target g x) -> addTarget fuel g m x = visit (gc_next g) fuel m x.
Proof.
  intros Hwf. revert m x. induction fuel as [|fuel IH]; intros m x [t Ht]; [done|]. cbn [addTarget visit].
  case_decide; [done|]. unfold TargetOrDie. rewrite Ht, bind_Ok_l.
  assert (gc_next g x = filter (fun d => is_Some (Target g d)) (DeclaredDependencies t ++
    (Dependencies g t).1 ++ option_list (target_Subrepo t ≫= sub_Target))) as ->
    by (unfold gc_next; by rewrite Ht).
  rewrite !filter_app, !foldM_app.
  assert (forall m l, foldM (if_present g (addTarget fuel g)) m l
    = foldM (visit (gc_next g) fuel) m (filter (fun d => is_Some (Target g d)) l)) as Hf.
  { intros m' l. rewrite foldM_if_present by done. apply foldM_ext. intros s y Hy.
    apply IH. by apply list_elem_of_filter in Hy as [? _]. }
  rewrite Hf. destruct (foldM (visit (gc_next g) fuel) ({[x]} ∪ m) _) as [m1| |]; [|done..].
  rewrite !bind_Ok_l, foldM_app, Hf.
  destruct (foldM (visit (gc_next g) fuel) m1 _) as [m2| |]; [|done..]. rewrite !bind_Ok_l.
  destruct (target_Subrepo t ≫= sub_Target) as [s|]; [|done]. change (option_list (Some s)) with [s].
  unfold if_present. rewrite filter_cons, filter_nil. destruct (Target g s) as [ts|] eqn:Hs.
  - rewrite decide_True by eauto. cbn. rewrite (Target_Label g s ts), IH by eauto.
    by destruct (visit _ _ _ _).
  - by rewrite decide_False by (by intros []).
Qed.

(** The kept set so far: closed under what keeping a target entails. *)
Record kept (g : BuildGraph) (m : gset BuildLabel) : Prop := {
  kp_closed : forall x y, x ∈ m -> gc_edge g x y -> y ∈ m;
  kp_graph : forall x, x ∈ m -> is_Some (Target g x);
}.

Lemma add_ok g m x :
  graph_wf g -> kept g m -> is_Some (Target g x) ->
  exists m', add g m x = Ok m' /\ kept g m' /\ m ⊆ m' /\ x ∈ m'.
Proof.
  intros Hwf Hk Hx. unfold add. rewrite addTarget_visit by done.
  set (N := list_to_set (graph_AllTargets g) : gset BuildLabel).
  assert (forall l, l ∈ N <-> is_Some (Target g l)) as HN.
  { intros l. unfold N. by rewrite elem_of_list_to_set, elem_of_AllTargets. }
  destruct (visit_spec (gc_next g) N (gc_fuel g) m x) as (m' & Hr & Hv & Hxm).
  - intros a b _ Hab. apply HN. by eapply gc_edge_present.
  - by apply HN.
  - unfold gc_fuel. pose proof (size_list_to_set_le (graph_AllTargets g)).
    assert (size (N ∖ m) <= size N) by (apply subseteq_size; set_solver). unfold N in *. lia.
  - exists m'. split_and!; [done| |apply (vis_mono _ _ _ _ Hv)|done]. split.
    + intros a b Ha Hab. destruct (decide (a ∈ m)) as [Hm|Hm].
      * apply (vis_mono _ _ _ _ Hv). by apply (kp_closed _ _ Hk a).
      * by apply (vis_succ _ _ _ _ Hv a).
    + intros a Ha. destruct (decide (a ∈ m)) as [Hm|Hm]; [by apply (kp_graph _ _ Hk)|].
      destruct (vis_reach _ _ _ _ Hv a Ha Hm) as (? & <- & Hr'). 
      destruct (rtc_inv_r _ _ Hr') as [<-|(b & _ & Hb)]; [done|]. by eapply gc_edge_present.
Qed.

(** A loop that only ever adds to the kept set, and adds [P x] when it meets [x]. *)
Lemma keep_loop {A} g (f : gset BuildLabel -> A -> res (gset BuildLabel)) (P : A -> BuildLabel -> Prop) m ls :
  graph_wf g -> kept g m ->
  (forall m x, kept g m -> x ∈ ls -> exists m', f m x = Ok m' /\ kept g m' /\ m ⊆ m' /\
     forall l, P x l -> l ∈ m') ->
  exists m', foldM f m ls = Ok m' /\ kept g m' /\ m ⊆ m' /\ forall x l, x ∈ ls -> P x l -> l ∈ m'.
Proof.
  intros Hwf Hk Hf.
  destruct (foldM_inv f (fun done m' => kept g m' /\ m ⊆ m' /\ forall x l, x ∈ done -> P x l -> l ∈ m') ls m)
    as (m' & Hr & HI).
  - split_and!; [done..|]. intros x l Hx. by apply not_elem_of_nil in Hx.
  - intros l1 x l2 m1 Hl (Hk1 & Hs & HP). destruct (Hf m1 x Hk1) as (m2 & Hr & Hk2 & Hs2 & HP2).
    { rewrite Hl. set_solver. }
    exists m2. split_and!; [done..|set_solver|].
    intros y l [Hy|Hy%list_elem_of_singleton]%elem_of_app HPy; [apply Hs2; by eapply HP|].
    subst y. by apply HP2.
  - by exists m'.
Qed.

Lemma keep_loop_if_present g m ls :
  graph_wf g -> kept g m ->
  exists m', foldM (if_present g (add g)) m ls = Ok m' /\ kept g m' /\ m ⊆ m' /\
    forall x l, x ∈ ls -> is_Some (Target g x) /\ l = x -> l ∈ m'.
Proof.
  intros Hwf Hk. apply (keep_loop g _ (fun x l => is_Some (Target g x) /\ l = x)); [done..|].
  intros m1 x Hk1 _. unfold if_present. destruct (Target g x) as [t|] eqn:Ht.
  - rewrite (Target_Label g x t) by done. destruct (add_ok g m1 x) as (m2 & Hr & Hk2 & Hs & Hx); [done..|eauto|].
    exists m2. split_and!; [done..|]. by intros l [_ ->].
  - exists m1. split_and!; [done..|]. by intros l [[] _].
Qed.

(** The roots: whatever the options say, and the subincludes of every package. *)
Definition is_root (g : BuildGraph) (l : BuildLabel) : Prop :=
  (exists t, Target g l = Some t /\ gc_root t = true) \/ l ∈ (gc_packages g ≫= Subincludes) \/
  (l ∈ targets /\ is_Some (Target g l) /\ IsAllSubpackages l = false).

(** What the code looks up must exist, and following the dependencies of a rule on
    its own targets must end within [rank] steps. *)
Record gc_ready (g : BuildGraph) (rank : BuildLabel -> nat) : Prop := {
  gr_subincludes : forall s, s ∈ (gc_packages g ≫= Subincludes) -> is_Some (Target g s);
  gr_subrepo : forall l t s, Target g l = Some t -> target_Subrepo t ≫= sub_Target = Some s -> is_Some (Target g s);
  gr_sibling : forall l t n, Target g l = Some t -> n ∈ PrefixedLabels t "gc_sibling:" ->
    exists s, NewBuildLabel (PackageName (Label t)) n = Ok s;
  gr_bound : forall l, rank l <= length (graph_AllTargets g);
  gr_rank : forall l t d td, Target g l = Some t -> d ∈ DeclaredDependencies t -> Target g d = Some td ->
    Parent (Label td) = Parent (Label t) -> rank d < rank l;
}.

Lemma publicDependencies_ok g rank fuel l t :
  graph_wf g -> gc_ready g rank -> Target g l = Some t -> rank l < fuel ->
  exists ds, publicDependencies fuel g t = Ok ds /\ forall d, d ∈ ds -> is_Some (Target g d).
Proof.
  intros Hwf Hr. revert l t. induction fuel as [|fuel IH]; intros l t Ht Hfuel; [lia|]. cbn.
  set (body := fun (ret : list BuildLabel) dep => _).
  destruct (foldM_inv body (fun _ ds => forall d, d ∈ ds -> is_Some (Target g d)) (DeclaredDependencies t) [])
    as (ds & -> & Hds).
  - intros d Hd. by apply not_elem_of_nil in Hd.
  - intros l1 d l2 ds Hl Hds. unfold body. destruct (Target g d) as [td|] eqn:Hd; [|by exists ds].
    case_decide as Hp.
    + destruct (IH d td Hd) as (ds' & -> & Hds').
      { assert (rank d < rank l); [|lia]. apply (gr_rank _ _ Hr l t d td); [done| |done..]. rewrite Hl. set_solver. }
      cbn. exists (ds ++ ds'). split; [done|]. intros d' [?|?]%elem_of_app; auto.
    + exists (ds ++ [Label td]). split; [done|].
      intros d' [?|Hd'%list_elem_of_singleton]%elem_of_app; [auto|]. subst d'.
      rewrite (Target_Label g d td) by done. eauto.
  - cbn. eexists. split; [done|]. intros d [?|Hd]%elem_of_app; [auto|].
    destruct (target_Subrepo t ≫= sub_Target) as [s|] eqn:Hs; cbn in Hd; [|by apply not_elem_of_nil in Hd].
    apply list_elem_of_singleton in Hd as ->. by eapply gr_subrepo.
Qed.

Lemma keep_roots_ok g m :
  graph_wf g -> kept g m ->
  exists m', keep_roots g m = Ok m' /\ kept g m' /\ m ⊆ m' /\
    forall l t, Target g l = Some t -> gc_root t = true -> l ∈ m'.
Proof.
  intros Hwf Hk. unfold keep_roots. set (body := fun (m : gset BuildLabel) l => _).
  destruct (keep_loop g body (fun x l => l = x /\ exists t, Target g x = Some t /\ gc_root t = true) m
    (graph_AllTargets g)) as (m' & Hr & Hk' & Hs & HP); [done..| |].
  - intros m1 x Hk1 Hx. unfold body. apply elem_of_AllTargets in Hx as [t Ht]; [|done]. rewrite Ht.
    destruct (gc_root t) eqn:Hroot.
    + destruct (add_ok g m1 x) as (m2 & ? & ? & ? & ?); [done..|eauto|]. exists m2. split_and!; [done..|].
      by intros l [-> _].
    + exists m1. split_and!; [done..|]. intros l [_ (t' & Ht' & ?)]. congruence.
  - exists m'. split_and!; [done..|]. intros l t Ht Hroot. apply (HP l l); [|by eauto].
    apply elem_of_AllTargets; eauto.
Qed.

Lemma keep_subincludes_ok g m :
  graph_wf g -> kept g m -> (forall s, s ∈ (gc_packages g ≫= Subincludes) -> is_Some (Target g s)) ->
  exists m', keep_subincludes g m = Ok m' /\ kept g m' /\ m ⊆ m' /\
    forall s, s ∈ (gc_packages g ≫= Subincludes) -> s ∈ m'.
Proof.
  intros Hwf Hk Hs. unfold keep_subincludes. set (body := fun (m : gset BuildLabel) s => _).
  destruct (keep_loop g body (fun x l => l = x) m (gc_packages g ≫= Subincludes))
    as (m' & Hr & Hk' & Hsub & HP); [done..| |].
  - intros m1 s Hk1 Hx. destruct (Hs s Hx) as [t Ht]. unfold body, TargetOrDie. rewrite Ht, bind_Ok_l.
    rewrite (Target_Label g s t) by done.
    destruct (add_ok g m1 s) as (m2 & ? & ? & ? & ?); [done..|eauto|]. exists m2. split_and!; [done..|].
    by intros l ->.
  - exists m'. split_and!; [done..|]. intros s Hx. by apply (HP s s).
Qed.

Lemma keep_given_ok g m :
  graph_wf g -> kept g m ->
  exists m', keep_given g m = Ok m' /\ kept g m' /\ m ⊆ m' /\
    forall l, l ∈ targets -> is_Some (Target g l) -> IsAllSubpackages l = false -> l ∈ m'.
Proof.
  intros Hwf Hk. unfold keep_given. set (body := fun (m : gset BuildLabel) t => _).
  destruct (keep_loop g body (fun x l => l = x /\ is_Some (Target g x) /\ IsAllSubpackages x = false) m targets)
    as (m' & Hr & Hk' & Hsub & HP); [done..| |].
  - intros m1 x Hk1 _. unfold body. destruct (IsAllSubpackages x).
    + destruct (keep_loop_if_present g m1 (filter (fun p => Is_true (IsIncludedIn p x)) (gc_packages g) ≫= fun p =>
        (range_map _ (pkg_targets p)).*2)) as (m2 & ? & ? & ? & ?); [done..|].
      exists m2. split_and!; [done..|]. by intros l (_ & _ & ?).
    + destruct (keep_loop_if_present g m1 [x]) as (m2 & Hr & ? & ? & Hin); [done..|].
      cbn [foldM] in Hr. exists m2. split_and!; [|done..|].
      * by destruct (if_present g (add g) m1 x).
      * intros l (-> & ? & _). apply (Hin x); [set_solver|by split].
  - exists m'. split_and!; [done..|]. intros l Hl Ht Hn. by apply (HP l l).
Qed.

Lemma keep_tests_ok g rank m :
  graph_wf g -> kept g m -> gc_ready g rank ->
  exists m', keep_tests g m = Ok m' /\ kept g m' /\ m ⊆ m'.
Proof.
  intros Hwf Hk Hr. unfold keep_tests. set (body := fun (m : gset BuildLabel) l => _).
  destruct (keep_loop g body (fun _ _ => False) m (graph_AllTargets g)) as (m' & ? & ? & ? & _);
    [done..| |by exists m'].
  intros m1 l Hk1 Hl. apply elem_of_AllTargets in Hl as [t Ht]; [|done]. unfold body. rewrite Ht.
  destruct (IsTest t); [|by exists m1].
  destruct (publicDependencies_ok g rank (gc_fuel g) l t) as (ds & -> & Hds); [done..| |].
  { pose proof (gr_bound _ _ Hr l). unfold gc_fuel. lia. }
  rewrite bind_Ok_l. set (inner := fun (m : gset BuildLabel) dep => _).
  destruct (keep_loop g inner (fun _ _ => False) m1 ds) as (m2 & ? & ? & ? & _); [done..| |by exists m2].
  intros m2 d Hk2 Hd. destruct (Hds d Hd) as [td Htd]. unfold inner, TargetOrDie. rewrite Htd, bind_Ok_l.
  destruct (_ && _); [|destruct (TestOnly td)].
  - destruct (add_ok g m2 l) as (m3 & ? & ? & ? & _); [done..|eauto|]. by exists m3.
  - destruct (add_ok g m2 d) as (m3 & ? & ? & ? & _); [done..|eauto|]. by exists m3.
  - by exists m2.
Qed.

Lemma keepTargets_ok g rank :
  graph_wf g -> gc_ready g rank ->
  exists keep, keepTargets g = Ok keep /\ kept g keep /\ forall l, is_root g l -> l ∈ keep.
Proof.
  intros Hwf Hr. unfold keepTargets.
  destruct (keep_roots_ok g ∅ Hwf) as (m1 & -> & Hk1 & _ & H1); [split; set_solver|].
  destruct (keep_subincludes_ok g m1 Hwf Hk1 (gr_subincludes _ _ Hr)) as (m2 & E2 & Hk2 & S2 & H2).
  destruct (keep_given_ok g m2 Hwf Hk2) as (m3 & E3 & Hk3 & S3 & H3).
  rewrite bind_Ok_l, E2, bind_Ok_l, E3, bind_Ok_l.
  assert (forall l, is_root g l -> l ∈ m3) as Hroot.
  { intros l [(t & Ht & Hg)|[Hs|(Hl & Ht & Hn)]]; [|by apply S3, H2|by apply H3].
    apply S3, S2. by eapply H1. }
  destruct includeTests; [by exists m3|].
  destruct (keep_tests_ok g rank m3 Hwf Hk3 Hr) as (m4 & ? & ? & ?). exists m4. split_and!; auto.
Qed.

Lemma gcSibling_ok g rank l t :
  graph_wf g -> gc_ready g rank -> Target g l = Some t -> exists s, gcSibling g t = Ok s.
Proof.
  intros Hwf Hr Ht. unfold gcSibling. set (names := PrefixedLabels t "gc_sibling:").
  assert (forall ns, (forall n, n ∈ ns -> n ∈ names) ->
    exists o, first_sibling g (PackageName (Label t)) ns = Ok o) as Hf.
  { induction ns as [|n ns IH]; intros Hsub; cbn; [by eexists|].
    destruct (gr_sibling _ _ Hr l t n Ht) as (s & ->); [apply Hsub; set_solver|]. cbn.
    destruct (Target g s); [by eexists|]. apply IH. set_solver. }
  destruct (Hf names) as (o & ->); [done|]. by eexists.
Qed.

(** C31: In a graph in which everything that [plz gc] looks up exists (subincludes, the
    targets of subrepos), labels of siblings are well-formed and the dependencies of a rule
    on its own targets do not go around, it arrives at an answer, and the answer is safe in
    this sense: a target that any root needs, through dependencies, what these provide or
    the target of its subrepo, is only removed if a [gc_sibling] label makes it share the
    fate of another target; and a source that is deleted belongs to a removed target and to
    no target that a root needs. *)
Theorem targetsToRemove_safe g rank :
  graph_wf g -> gc_ready g rank ->
  exists ret srcs, targetsToRemove g = Ok (ret, srcs) /\
    (forall root l t, is_root g root -> rtc (gc_edge g) root l -> l ∈ ret -> Target g l = Some t ->
       gcSibling g t <> Ok l) /\
    (forall s, s ∈ srcs ->
       (exists l t, l ∈ ret /\ Target g l = Some t /\ s ∈ AllLocalSourcePaths t) /\
       forall root l t, is_root g root -> rtc (gc_edge g) root l -> Target g l = Some t ->
         s ∉ AllLocalSourcePaths t).
Proof.
  intros Hwf Hr. unfold targetsToRemove. destruct (keepTargets_ok g rank Hwf Hr) as (keep & -> & Hk & Hroot).
  rewrite bind_Ok_l.
  assert (forall root l, is_root g root -> rtc (gc_edge g) root l -> l ∈ keep) as Hreach.
  { intros root l Hrt Hrl. apply (closed_rtc (gc_next g) keep root); [|by apply Hroot|done].
    intros a b. apply (kp_closed _ _ Hk). }
  set (keepSrcs := elements keep ≫= _).
  assert (forall s l t, l ∈ keep -> Target g l = Some t -> s ∈ AllLocalSourcePaths t -> s ∈ keepSrcs) as Hsrc.
  { intros s l t Hl Ht Hs. unfold keepSrcs. apply list_elem_of_bind. exists l. rewrite Ht.
    by rewrite elem_of_elements. }
  set (body := fun '(ret, retSrcs) l => _).
  destruct (foldM_inv body (fun _ '(ret, srcs) =>
      (forall l t, l ∈ ret -> Target g l = Some t -> exists s, gcSibling g t = Ok s /\ s ∉ keep) /\
      (forall s, s ∈ srcs -> s ∉ keepSrcs /\ exists l t, l ∈ ret /\ Target g l = Some t /\ s ∈ AllLocalSourcePaths t))
    (graph_AllTargets g) ([], [])) as ([ret srcs] & -> & Hret & Hsrcs).
  - split; [intros l t Hl|intros s Hs]; exfalso; by eapply not_elem_of_nil.
  - intros l1 l l2 [ret srcs] Hl [Hret Hsrcs].
    assert (l ∈ graph_AllTargets g) as [t Ht]%elem_of_AllTargets by (rewrite ?Hl; set_solver || done); [|done].
    unfold body. rewrite Ht. destruct (gcSibling_ok g rank l t) as (sib & Hsib); [done..|].
    rewrite Hsib, bind_Ok_l. destruct (negb (HasParent sib) && _) eqn:Hc; cbn [andb].
    + destruct (isIncluded _ _); [|by eexists]. eexists. split; [done|]. apply andb_true_iff in Hc as [_ Hc].
      apply negb_true_iff, bool_decide_eq_false in Hc. split.
      * intros l' t' [Hl'|Hl'%list_elem_of_singleton]%elem_of_app Ht'; [by eauto|]. simplify_eq. eauto.
      * intros s [Hs|Hs]%elem_of_app.
        -- destruct (Hsrcs s Hs) as (? & l' & t' & ? & ? & ?). split; [done|]. exists l', t'. set_solver.
        -- apply list_elem_of_filter in Hs as [? ?]. split; [done|]. exists l, t. set_solver.
    + by eexists.
  - eexists _, _. split; [done|]. split.
    + intros root l t Hrt Hrl Hl Ht Hsib. rewrite elem_of_sort_labels in Hl.
      destruct (Hret l t Hl Ht) as (s & Hs & Hn). assert (s = l) as -> by congruence. by eapply Hn, Hreach.
    + intros s Hs. unfold sort_strings in Hs. rewrite merge_sort_Permutation in Hs.
      destruct (Hsrcs s Hs) as (Hn & l & t & Hl & Ht & Hst). split.
      * exists l, t. by rewrite elem_of_sort_labels.
      * intros root l' t' Hrt Hrl Ht' Hst'. apply Hn. eapply (Hsrc s l' t'); [by eapply Hreach|done..].
Qed.
End gc.

(** The order the examples range over maps in. *)
Definition gc_order : forall A, gmap string A -> list (string * A) := fun A m => map_to_list m.

(** A simple sufficient condition: no packages, subrepos or siblings, and no target
    that depends on another one of its own rule. *)
Lemma gc_ready_check g :
  graph_wf g -> (gc_packages gc_order g ≫= Subincludes) = [] ->
  all_targets g (fun t => bool_decide (target_Subrepo t = None)
    && bool_decide (PrefixedLabels t "gc_sibling:" = [])
    && forallb (fun d => negb (bool_decide (Parent d = Parent (Label t)))) (DeclaredDependencies t)) = true ->
  gc_ready gc_order g (fun _ => 0).
Proof.
  intros Hwf Hp Hall.
  assert (forall l t, Target g l = Some t -> target_Subrepo t = None /\ PrefixedLabels t "gc_sibling:" = [] /\
    forall d, d ∈ DeclaredDependencies t -> Parent d <> Parent (Label t)) as Ht.
  { intros l t Hl. pose proof (all_targets_spec g _ l t Hwf Hall Hl) as Hc. cbv beta in Hc.
    rewrite !andb_true_iff, !bool_decide_eq_true, forallb_forall in Hc. destruct Hc as [[? ?] Hd].
    split_and!; [done..|]. intros d Hin. apply list_elem_of_In in Hin.
    by apply Hd, negb_true_iff, bool_decide_eq_false in Hin. }
  split.
  - rewrite Hp. intros s Hs. by apply not_elem_of_nil in Hs.
  - intros l t s Hl. destruct (Ht l t Hl) as (-> & _). done.
  - intros l t n Hl. destruct (Ht l t Hl) as (_ & -> & _). intros Hn. by apply not_elem_of_nil in Hn.
  - intros l. lia.
  - intros l t d td Hl Hd Htd Hpar. destruct (Ht l t Hl) as (_ & _ & Hd'). exfalso.
    apply (Hd' d Hd). by rewrite <- (Target_Label g d td Hwf Htd).
Qed.

(** A binary [m] that depends on [b]; nothing needs [c]. *)
Definition gc_binary (n : string) : BuildTarget :=
  upd_IsBinary (fun _ => true) (NewBuildTarget (ex_label n)).

Definition gc_example : BuildGraph :=
  build_graph [with_dep (ex_label "b") (gc_binary "m"); NewBuildTarget (ex_label "b");
    upd_Sources (fun _ => [FileLabel "c.go" "p"]) (NewBuildTarget (ex_label "c"))].

Definition gc_run (filter targets : list BuildLabel) := targetsToRemove gc_order filter targets [] [] true.

Lemma targetsToRemove_safe_witness :
  let root := is_root gc_order [] [] [] true gc_example in
  graph_wf gc_example /\ gc_ready gc_order gc_example (fun _ => 0) /\
  gc_run [] [] gc_example = Ok ([ex_label "c"], ["p/c.go"]) /\
  exists ret srcs, gc_run [] [] gc_example = Ok (ret, srcs) /\
    (forall r l t, root r -> rtc (gc_edge gc_example) r l -> l ∈ ret -> Target gc_example l = Some t ->
       gcSibling gc_example t <> Ok l) /\
    (forall s, s ∈ srcs ->
       (exists l t, l ∈ ret /\ Target gc_example l = Some t /\ s ∈ AllLocalSourcePaths t) /\
       forall r l t, root r -> rtc (gc_edge gc_example) r l -> Target gc_example l = Some t ->
         s ∉ AllLocalSourcePaths t).
Proof.
  intros root. assert (graph_wf gc_example) as Hwf by apply build_graph_wf.
  assert (gc_ready gc_order gc_example (fun _ => 0)) as Hr.
  { apply gc_ready_check; [done|by vm_compute|by vm_compute]. }
  split_and!; [done..|by vm_compute|].
  by apply (targetsToRemove_safe gc_order [] [] [] [] true gc_example (fun _ => 0)).
Defined.

(** Two ways in which [plz gc] takes something that is still used.  A target that a kept binary
    depends on is removed when it is labelled [gc_sibling] of one that nothing needs.  And a source
    of a removed target is deleted although another target that is not removed, because the filter
    leaves it alone, has the same source: only the sources of the kept targets are spared. *)
Theorem gc_takes_what_is_used :
  let b := upd_Labels (fun _ => ["gc_sibling:c"]) (NewBuildTarget (ex_label "b")) in
  let g := build_graph [with_dep (ex_label "b") (gc_binary "m"); b; NewBuildTarget (ex_label "c")] in
  let with_src n := upd_Sources (fun _ => [FileLabel "x.go" "p"]) (NewBuildTarget (ex_label n)) in
  let h := build_graph [with_src "d"; with_src "e"] in
  (ex_label "b" ∈ DeclaredDependencies (with_dep (ex_label "b") (gc_binary "m")) /\
   gc_run [] [] g = Ok ([ex_label "b"; ex_label "c"], [])) /\
  gc_run [ex_label "d"] [] h = Ok ([ex_label "d"], ["p/x.go"]).
Proof.
  intros b g with_src h. split; [split|]; [refine (bool_decide_unpack _ _); by vm_compute|by vm_compute|by vm_compute].
Qed.
