(* ===== verification/Runner.v ===== *)
(** Building: the runner of [src/plz/plz.go], which decides what is built when.

    Every call of the runner is a process ([proc]) over the state it shares with the
    others; [step] lets any of them go on.  Processes are run in groups
    ([errgroup.Group]), which wait for all of theirs and return the first error;
    unless [keep_going], an error cancels the context of the others.  [GetOrSet] is
    [buildOnce.GetOrSetCtx]: the first to ask for a label builds it, the others wait
    for it or until their context is cancelled (the interleavings inside it are those
    of [Cmap]).

    Building and testing one target ([build.Build], [test.Test]) and parsing a package
    are steps of which all that is said is what the runner relies on: parsing adds
    targets to the graph, or fails, and on the way may build what its BUILD file
    subincludes or what its subrepo is defined by, through the same runner; so does
    building, and its pre- and post-build functions may also change targets that are not
    built yet, which marks them as modified.  Who parses a package that several calls ask
    for is left open: each of them may do it, and waits for the same builds.  The display,
    downloads, preloaded files and metrics are left out. *)
From S2P Require Import Prelude GoStrings Labels Targets.
From stdpp Require Import relations.

Definition error := option string.

Definition cancelled_error : string := "context canceled".

Inductive action :=
  | BuildAction (l : BuildLabel)
  | TestAction (l : BuildLabel) (run : nat).

#[export] Instance action_eq_dec : EqDecision action.
Proof. solve_decision. Defined.

Definition action_target (a : action) : BuildLabel := match a with BuildAction l | TestAction l _ => l end.

(** ** State *)

Record world := MkWorld {
  graph : gmap BuildLabel BuildTarget;
  (** the targets with [ModifiedByCallback] *)
  modified : gset BuildLabel;
  (** [buildOnce]: what is being built, and what it came to *)
  once : gmap BuildLabel (option error);
  (** how many run, locally or remotely *)
  used : bool -> nat;
  (** what was started and what has succeeded, latest first *)
  started : list action;
  succeeded : list action;
}.

Definition set_graph (G : gmap BuildLabel BuildTarget) (w : world) : world :=
  MkWorld G (modified w) (once w) (used w) (started w) (succeeded w).
Definition set_once (l : BuildLabel) (o : option error) (w : world) : world :=
  MkWorld (graph w) (modified w) (<[l := o]> (once w)) (used w) (started w) (succeeded w).
Definition acquire (remote : bool) (a : action) (w : world) : world :=
  MkWorld (graph w) (modified w) (once w)
    (fun r => if Bool.eqb r remote then S (used w r) else used w r) (a :: started w) (succeeded w).

(** The end of an action: its error, and what it made of the graph. *)
Definition release (remote : bool) (a : action) (e : error) (G : gmap BuildLabel BuildTarget) (m : gset BuildLabel)
    (w : world) : world :=
  MkWorld G m (once w)
    (fun r => if Bool.eqb r remote then pred (used w r) else used w r) (started w)
    (if e then succeeded w else a :: succeeded w).

(** ** Processes *)

Inductive proc :=
  | Ret (e : error)
  (** looks at the state *)
  | Read (k : world -> proc)
  (** [parseTarget] *)
  | ParseTarget (l : BuildLabel) (k : error -> proc)
  (** [Parse] *)
  | ParsePackage (l : BuildLabel) (k : error -> proc)
  (** [Build] *)
  | Build (l : BuildLabel) (k : error -> proc)
  (** [buildOnce.GetOrSetCtx], before the lookup and, for the first, during the call *)
  | GetOrSet (l : BuildLabel) (k : error -> proc)
  | Owner (l : BuildLabel) (body : proc) (k : error -> proc)
  (** an action, before it is its turn and while it runs *)
  | Act (a : action) (k : error -> proc)
  | Acting (a : action) (k : error -> proc)
  (** whether its context is cancelled, its first error and what it waits for *)
  | Group (cancelled : bool) (err : error) (ps : list proc) (k : error -> proc).

(** [r.group] with these tasks, and [Wait] *)
Definition group (ps : list proc) (k : error -> proc) : proc := Group false None ps k.

(** [if err != nil return err] *)
Definition or_return (k : proc) (e : error) : proc := match e with Some e => Ret (Some e) | None => k end.

Section runner.
(** the command line and the configuration *)
Context (keep_going : bool).
Context (should_include : BuildTarget -> bool).
Context (NumTestRuns : nat) (TestSequentially NeedCoverage : bool).
Context (capacity : bool -> nat).
(** properties of targets that are not in their record *)
Context (remotely : BuildLabel -> bool).
Context (has_PreBuildFunction AddedPostBuild : BuildLabel -> bool).

Definition with_target (l : BuildLabel) (k : BuildTarget -> proc) : proc :=
  Read (fun w => match graph w !! l with Some t => k t | None => Ret (Some "nil pointer") end).

(** ** One dependency *)

(** The targets of [resolveTarget], one after the other. *)
Fixpoint buildProvided (ps : list BuildLabel) : proc :=
  match ps with
  | [] => Ret None
  | p :: ps => ParseTarget p (or_return (Build p (or_return (buildProvided ps))))
  end.

Definition buildDep (target dep : BuildLabel) : proc :=
  ParseTarget dep (or_return (
    with_target target (fun t =>
    with_target dep (fun d =>
      let provided := ProvideFor d t in
      if bool_decide (provided = [dep]) then Build dep Ret else buildProvided provided)))).

(** Resolving without building. *)
Fixpoint parseProvided (ps : list BuildLabel) (k : proc) : proc :=
  match ps with
  | [] => k
  | p :: ps => ParseTarget p (or_return (parseProvided ps k))
  end.

Fixpoint resolveAll (target : BuildLabel) (deps : list BuildLabel) (k : proc) : proc :=
  match deps with
  | [] => k
  | dep :: deps =>
      ParseTarget dep (or_return (
        with_target target (fun t =>
        with_target dep (fun d =>
          let provided := ProvideFor d t in
          if bool_decide (provided = [dep]) then resolveAll target deps k
          else parseProvided provided (resolveAll target deps k)))))
  end.

(** ** One target *)

Definition source_labels (t : BuildTarget) : list BuildLabel := omap input_Label (AllSources t).

Definition group_deps (l : BuildLabel) (deps : list BuildLabel) (k : proc) : proc :=
  group (map (buildDep l) deps) (or_return k).

(** The last part: a post-build function may have added dependencies. *)
Definition buildAdded (l : BuildLabel) : proc :=
  Read (fun w =>
    if bool_decide (l ∈ modified w)
    then with_target l (fun t => group (map (buildDep l) (RuntimeAndDataDependencies t)) Ret)
    else Ret None).

Definition runBuildAction (l : BuildLabel) (k : error -> proc) : proc := Act (BuildAction l) k.

(** The middle part, once what the target needs to be built is. *)
Definition buildWithRuntime (l : BuildLabel) : proc :=
  with_target l (fun t =>
    let deps := RuntimeAndDataDependencies t in
    resolveAll l deps (
      if bool_decide (deps = []) then runBuildAction l (or_return (buildAdded l))
      else if has_PreBuildFunction l then
        group_deps l deps (runBuildAction l (or_return (buildAdded l)))
      else group (runBuildAction l Ret :: map (buildDep l) deps) (or_return (buildAdded l)))).

Definition buildOne (l : BuildLabel) : proc :=
  with_target l (fun t =>
    group (map (buildDep l) (BuildDependencyLabels t) ++ map (buildDep l) (source_labels t)) (or_return (
      Read (fun w =>
        if bool_decide (l ∈ modified w)
        then with_target l (fun t => group_deps l (BuildDependencyLabels t) (buildWithRuntime l))
        else buildWithRuntime l)))).

(** ** A package, and tests *)

Definition AllTargets (w : world) (l : BuildLabel) : list (BuildLabel * BuildTarget) :=
  filter (fun lt => Subrepo lt.1 = Subrepo l /\ PackageName lt.1 = PackageName l) (map_to_list (graph w)).

Definition buildAll (l : BuildLabel) : proc :=
  ParsePackage l (or_return (Read (fun w =>
    group (map (fun lt => Build lt.1 Ret) (filter (fun lt => Is_true (should_include lt.2)) (AllTargets w l))) Ret))).

(** The function [Build] gives to [GetOrSetCtx]. *)
Definition build_body (l : BuildLabel) : proc := if IsAllTargets l then buildAll l else buildOne l.

Definition Build_code (l : BuildLabel) (k : error -> proc) : proc :=
  if IsAllTargets l then GetOrSet l k
  else ParseTarget l (fun e => match e with Some e => k (Some e) | None => GetOrSet l k end).

Definition testOne (l : BuildLabel) : proc :=
  Build l (or_return (with_target l (fun t =>
    if negb (IsTest t) then Ret None
    else if TestSequentially || (NumTestRuns =? 1)%nat then Act (TestAction l 1) Ret
    else group (map (fun run => Act (TestAction l (S run)) (fun _ => Ret None)) (seq 0 NumTestRuns)) (fun _ => Ret None)))).

Definition Test (l : BuildLabel) : proc :=
  if negb (IsAllTargets l) then ParseTarget l (or_return (testOne l))
  else
    ParsePackage l (or_return (Read (fun w =>
      group (map (fun lt => testOne lt.1)
        (filter (fun lt => Is_true (should_include lt.2 && (IsTest lt.2 || NeedCoverage) && negb (AddedPostBuild lt.1)))
           (AllTargets w l))) Ret))).

(** What is asked for on the command line. *)
Definition queueTask (needTest : bool) (l : BuildLabel) : proc := if needTest then Test l else Build l Ret.

Definition Run (needTest : bool) (targets : list BuildLabel) : proc := group (map (queueTask needTest) targets) Ret.

(** ** Steps *)

(** The labels whose builds parsing the package of a label may wait for: those its BUILD
    file subincludes and those that define the subrepo it is in, and the same for the
    packages that these are in. *)
Context (parse_builds : BuildLabel -> BuildLabel -> Prop).

(** What parsing does when such a build is over. *)
Definition parse_on (p : proc) (k : error -> proc) (e : error) : proc :=
  match e with Some e => k (Some e) | None => p end.

Definition build_over (w : world) (l : BuildLabel) : Prop := exists e, once w !! l = Some (Some e).

(** What the pre- and post-build functions of an action may do to the graph. *)
Definition callback_change (w : world) (G : gmap BuildLabel BuildTarget) (m : gset BuildLabel) : Prop :=
  modified w ⊆ m /\
  forall l t, graph w !! l = Some t ->
    is_Some (G !! l) /\ (G !! l <> Some t -> l ∈ m /\ BuildAction l ∉ succeeded w).

(** [ctx] says whether the context is cancelled.  A package that is parsed adds to the
    graph and may have what it needs for that built first: [Build] for such a label has
    parsed it, so that what is left of it is [GetOrSet]. *)
Inductive step : bool -> world -> proc -> world -> proc -> Prop :=
  | step_Read ctx w k : step ctx w (Read k) w (k w)
  | step_ParseTarget ctx w l k G :
      graph w ⊆ G -> is_Some (G !! l) -> step ctx w (ParseTarget l k) (set_graph G w) (k None)
  | step_ParseTarget_fails ctx w l k e :
      graph w !! l = None -> step ctx w (ParseTarget l k) w (k (Some e))
  | step_ParseTarget_builds ctx w l s k G :
      graph w !! l = None -> graph w ⊆ G -> is_Some (G !! s) -> parse_builds l s -> ~ build_over w s ->
      step ctx w (ParseTarget l k) (set_graph G w) (GetOrSet s (parse_on (ParseTarget l k) k))
  | step_ParsePackage ctx w l k G : graph w ⊆ G -> step ctx w (ParsePackage l k) (set_graph G w) (k None)
  | step_ParsePackage_fails ctx w l k e : step ctx w (ParsePackage l k) w (k (Some e))
  | step_ParsePackage_builds ctx w l s k G :
      graph w ⊆ G -> is_Some (G !! s) -> parse_builds l s -> ~ build_over w s ->
      step ctx w (ParsePackage l k) (set_graph G w) (GetOrSet s (parse_on (ParsePackage l k) k))
  | step_Build ctx w l k : step ctx w (Build l k) w (Build_code l k)
  | step_claim ctx w l k :
      once w !! l = None -> step ctx w (GetOrSet l k) (set_once l None w) (Owner l (build_body l) k)
  | step_got ctx w l k e : once w !! l = Some (Some e) -> step ctx w (GetOrSet l k) w (k e)
  | step_give_up w l k : once w !! l = Some None -> step true w (GetOrSet l k) w (k (Some cancelled_error))
  | step_Owner ctx w l p k w' p' : step ctx w p w' p' -> step ctx w (Owner l p k) w' (Owner l p' k)
  | step_owned ctx w l e k : step ctx w (Owner l (Ret e) k) (set_once l (Some e) w) (k e)
  | step_Act w a k :
      let r := remotely (action_target a) in
      (used w r < capacity r)%nat -> step false w (Act a k) (acquire r a w) (Acting a k)
  | step_Act_cancelled w a k :
      let r := remotely (action_target a) in
      (used w r < capacity r)%nat -> step true w (Act a k) w (k (Some cancelled_error))
  | step_built ctx w l k e G m :
      callback_change w G m ->
      step ctx w (Acting (BuildAction l) k) (release (remotely l) (BuildAction l) e G m w) (k e)
  | step_tested ctx w l run k :
      step ctx w (Acting (TestAction l run) k) (release (remotely l) (TestAction l run) None (graph w) (modified w) w) (k None)
  | step_Group ctx w c err ps1 p ps2 k w' p' :
      step (ctx || c) w p w' p' ->
      step ctx w (Group c err (ps1 ++ p :: ps2) k) w' (Group c err (ps1 ++ p' :: ps2) k)
  | step_Group_ok ctx w c err ps1 ps2 k :
      step ctx w (Group c err (ps1 ++ Ret None :: ps2) k) w (Group c err (ps1 ++ ps2) k)
  | step_Group_error ctx w c err ps1 e ps2 k :
      step ctx w (Group c err (ps1 ++ Ret (Some e) :: ps2) k) w
        (Group (c || negb keep_going) (match err with None => Some e | _ => err end) (ps1 ++ ps2) k)
  | step_Group_done ctx w c err k : step ctx w (Group c err [] k) w (k err).

(** The whole program; [topctx] is not cancelled. *)
Definition run_step (s s' : world * proc) : Prop := step false s.1 s.2 s'.1 s'.2.

Definition reachable (w0 : world) (root : proc) (s : world * proc) : Prop := rtc run_step (w0, root) s.

(** At the beginning nothing has happened. *)
Record initial (w : world) : Prop := {
  initial_once : once w = ∅;
  initial_started : started w = [];
  initial_succeeded : succeeded w = [];
  initial_used : forall r, used w r = 0%nat;
}.
End runner.
