(* ===== verification/Building.v ===== *)
(** What holds of the processes of [Runner.v]: what is at work in them agrees with the
    shared state ([consistent]); an action is not started more often than they allow
    for ([budget]); what they come to when they succeed ([wp]); and why a process that
    cannot go on cannot ([stuck]).

    The first two hold whatever callbacks do; the others are about executions in which
    targets are added but none changes. *)
From S2P Require Import Prelude GoStrings Labels Targets Runner.
From stdpp Require Import relations.

(** ** Processes as written and as they run *)

Section proc_ind.
Context (P : proc -> Prop).
Context (HRet : forall e, P (Ret e)).
Context (HRead : forall k, (forall w, P (k w)) -> P (Read k)).
Context (HParseTarget : forall l k, (forall e, P (k e)) -> P (ParseTarget l k)).
Context (HParsePackage : forall l k, (forall e, P (k e)) -> P (ParsePackage l k)).
Context (HBuild : forall l k, (forall e, P (k e)) -> P (Build l k)).
Context (HGetOrSet : forall l k, (forall e, P (k e)) -> P (GetOrSet l k)).
Context (HOwner : forall l p k, P p -> (forall e, P (k e)) -> P (Owner l p k)).
Context (HAct : forall a k, (forall e, P (k e)) -> P (Act a k)).
Context (HActing : forall a k, (forall e, P (k e)) -> P (Acting a k)).
Context (HGroup : forall c err ps k, Forall P ps -> (forall e, P (k e)) -> P (Group c err ps k)).

Fixpoint proc_nested_ind (p : proc) : P p :=
  match p with
  | Ret e => HRet e
  | Read k => HRead k (fun w => proc_nested_ind (k w))
  | ParseTarget l k => HParseTarget l k (fun e => proc_nested_ind (k e))
  | ParsePackage l k => HParsePackage l k (fun e => proc_nested_ind (k e))
  | Build l k => HBuild l k (fun e => proc_nested_ind (k e))
  | GetOrSet l k => HGetOrSet l k (fun e => proc_nested_ind (k e))
  | Owner l p k => HOwner l p k (proc_nested_ind p) (fun e => proc_nested_ind (k e))
  | Act a k => HAct a k (fun e => proc_nested_ind (k e))
  | Acting a k => HActing a k (fun e => proc_nested_ind (k e))
  | Group c err ps k =>
      HGroup c err ps k
        ((fix go ps : Forall P ps :=
            match ps with [] => Forall_nil_2 P | p :: ps => Forall_cons_2 P p ps (proc_nested_ind p) (go ps) end) ps)
        (fun e => proc_nested_ind (k e))
  end.
End proc_ind.

(** What is written: nothing of it runs yet. *)
Fixpoint code (p : proc) : Prop :=
  match p with
  | Ret _ => True
  | Read k => forall w, code (k w)
  | ParseTarget _ k | ParsePackage _ k | Build _ k | GetOrSet _ k | Act _ k => forall e, code (k e)
  | Owner _ _ _ | Acting _ _ => False
  | Group _ _ ps k =>
      (fix all (ps : list proc) : Prop := match ps with [] => True | p :: ps => code p /\ all ps end) ps /\ forall e, code (k e)
  end.

(** What runs: only what comes next is as written. *)
Fixpoint live (p : proc) : Prop :=
  match p with
  | Owner _ p k => live p /\ forall e, code (k e)
  | Acting _ k => forall e, code (k e)
  | Group _ _ ps k =>
      (fix all (ps : list proc) : Prop := match ps with [] => True | p :: ps => live p /\ all ps end) ps /\ forall e, code (k e)
  | _ => code p
  end.

Lemma code_group c err ps k : code (Group c err ps k) <-> Forall code ps /\ forall e, code (k e).
Proof. cbn. apply and_iff_compat_r. induction ps; rewrite ?Forall_nil, ?Forall_cons; naive_solver. Qed.

Lemma live_group c err ps k : live (Group c err ps k) <-> Forall live ps /\ forall e, code (k e).
Proof. cbn. apply and_iff_compat_r. induction ps; rewrite ?Forall_nil, ?Forall_cons; naive_solver. Qed.

Lemma code_live p : code p -> live p.
Proof.
  induction p using proc_nested_ind; try done. rewrite code_group, live_group. intros [Hps Hk].
  split; [|done]. rewrite Forall_forall in *. naive_solver.
Qed.

(** How often something is at work in a process. *)
Fixpoint count (f : proc -> nat) (p : proc) : nat :=
  f p + match p with
        | Owner _ p _ => count f p
        | Group _ _ ps _ => (fix all (ps : list proc) : nat := match ps with [] => 0 | p :: ps => count f p + all ps end) ps
        | _ => 0
        end.

Lemma count_group f c err ps k : count f (Group c err ps k) = f (Group c err ps k) + sum_list_with (count f) ps.
Proof. done. Qed.

Definition owns (l : BuildLabel) (p : proc) : nat := match p with Owner l' _ _ => if decide (l' = l) then 1 else 0 | _ => 0 end.
Definition acting (remotely : BuildLabel -> bool) (r : bool) (p : proc) : nat :=
  match p with Acting a _ => if decide (remotely (action_target a) = r) then 1 else 0 | _ => 0 end.

(** Only running processes are at work. *)
Definition only_live (f : proc -> nat) : Prop :=
  forall p, match p with Owner _ _ _ | Acting _ _ => True | _ => f p = 0 end.

Lemma owns_only_live l : only_live (owns l).
Proof. by intros []. Qed.
Lemma acting_only_live remotely r : only_live (acting remotely r).
Proof. by intros []. Qed.

Lemma count_code f p : only_live f -> code p -> count f p = 0.
Proof.
  intros Hf. induction p using proc_nested_ind; intros Hp; try done;
    try (cbn; match goal with |- f ?p + 0 = 0 => pose proof (Hf p) as Hfp; cbn in Hfp; lia end).
  rewrite count_group. apply code_group in Hp as [Hps Hk].
  pose proof (Hf (Group c err ps k)) as ->. cbn.
  induction ps as [|p ps IH]; cbn; [done|]. apply Forall_cons in H as [Hp H], Hps as [Hcp Hps]. rewrite Hp, IH; done.
Qed.

Definition in_progress (w : world) (l : BuildLabel) : nat := match once w !! l with Some None => 1 | _ => 0 end.

Lemma in_progress_set l o l' w :
  in_progress (set_once l o w) l' = if decide (l = l') then match o with None => 1 | Some _ => 0 end else in_progress w l'.
Proof. unfold in_progress. cbn. case_decide; simplify_map_eq; done. Qed.

(** ** What is needed *)

Definition built (w : world) (l : BuildLabel) : Prop := once w !! l = Some (Some None).

(** The labels that depending on [d] means for the target [l]. *)
Definition provided (w : world) (l d x : BuildLabel) : Prop :=
  exists t dt, graph w !! l = Some t /\ graph w !! d = Some dt /\ x ∈ ProvideFor dt t.

Definition dep_built (w : world) (l d : BuildLabel) : Prop :=
  is_Some (graph w !! l) /\ is_Some (graph w !! d) /\ forall x, provided w l d x -> built w x.

Definition deps_built (w : world) (l : BuildLabel) : Prop :=
  exists t, graph w !! l = Some t /\
    forall d, d ∈ BuildDependencyLabels t \/ d ∈ source_labels t -> dep_built w l d.

Definition runtime_built (w : world) (l : BuildLabel) : Prop :=
  exists t, graph w !! l = Some t /\ forall d, d ∈ RuntimeAndDataDependencies t -> dep_built w l d.

(** What it means that the label is built: for a package, only that it was parsed. *)
Definition complete (w : world) (l : BuildLabel) : Prop :=
  IsAllTargets l = true \/ (BuildAction l ∈ succeeded w /\ deps_built w l /\ runtime_built w l).

(** The labels that [l] needs to be built. *)
Definition needs (w : world) (l x : BuildLabel) : Prop :=
  if IsAllTargets l then Subrepo x = Subrepo l /\ PackageName x = PackageName l /\ is_Some (graph w !! x)
  else exists t d, graph w !! l = Some t /\
    (d ∈ BuildDependencyLabels t \/ d ∈ source_labels t \/ d ∈ RuntimeAndDataDependencies t) /\ provided w l d x.

(** The labels that are looked up when [l] is built, so that their packages are parsed. *)
Definition parses (w : world) (l d : BuildLabel) : Prop :=
  needs w l d \/ (IsAllTargets l = true /\ d = l) \/
  exists t, graph w !! l = Some t /\ (d ∈ BuildDependencyLabels t \/ d ∈ source_labels t \/ d ∈ RuntimeAndDataDependencies t).

(** How the state moves on, as long as no target changes. *)
Record later (w w' : world) : Prop := {
  later_graph : graph w ⊆ graph w';
  later_built l : built w l -> built w' l;
  later_succeeded a : a ∈ succeeded w -> a ∈ succeeded w';
}.

#[export] Instance later_preorder : PreOrder later.
Proof.
  split.
  - intros w. by split.
  - intros w1 w2 w3 [] []. split; [by etransitivity|auto..].
Qed.

#[export] Hint Extern 0 (later ?w ?w) => reflexivity : core.

Definition monotone (R : world -> Prop) : Prop := forall w w', later w w' -> R w -> R w'.

Lemma graph_later w w' l t : later w w' -> graph w !! l = Some t -> graph w' !! l = Some t.
Proof. intros [Hg _ _] Ht. by eapply lookup_weaken. Qed.

Lemma provided_back w w' l d x :
  later w w' -> is_Some (graph w !! l) -> is_Some (graph w !! d) -> provided w' l d x -> provided w l d x.
Proof.
  intros Hw [t Ht] [dt Hd] (t' & dt' & Ht' & Hd' & Hx). exists t, dt.
  apply (graph_later _ _ _ _ Hw) in Ht as H1. apply (graph_later _ _ _ _ Hw) in Hd as H2. by simplify_eq.
Qed.

Lemma provided_mono l d x : monotone (fun w => provided w l d x).
Proof. intros w w' Hw (t & dt & Ht & Hd & Hx). exists t, dt. eauto using graph_later. Qed.

Lemma dep_built_mono l d : monotone (fun w => dep_built w l d).
Proof.
  intros w w' Hw (Hl & Hd & Hx). split_and!.
  - destruct Hl as [t Ht]. exists t. by eapply graph_later.
  - destruct Hd as [t Ht]. exists t. by eapply graph_later.
  - intros x Hp. apply (later_built _ _ Hw), Hx. by eapply provided_back.
Qed.

Lemma deps_built_mono l : monotone (fun w => deps_built w l).
Proof.
  intros w w' Hw (t & Ht & Hd). exists t. split; [by eapply graph_later|].
  intros d H. eapply dep_built_mono; [done|by apply Hd].
Qed.

Lemma runtime_built_mono l : monotone (fun w => runtime_built w l).
Proof.
  intros w w' Hw (t & Ht & Hd). exists t. split; [by eapply graph_later|].
  intros d H. eapply dep_built_mono; [done|by apply Hd].
Qed.

Lemma complete_mono l : monotone (fun w => complete w l).
Proof.
  intros w w' Hw [H|(Ha & Hd & Hr)]; [by left|right].
  split_and!; [by apply (later_succeeded _ _ Hw)|by eapply deps_built_mono|by eapply runtime_built_mono].
Qed.

Lemma needs_mono l x : monotone (fun w => needs w l x).
Proof.
  intros w w' Hw. unfold needs. destruct (IsAllTargets l).
  - intros (H1 & H2 & [t Ht]). split_and!; [done..|]. exists t. by eapply graph_later.
  - intros (t & d & Ht & Hd & Hp). exists t, d. split_and!; [by eapply graph_later|done|by eapply provided_mono].
Qed.

(** ** What processes come to *)

Section processes.
Context (parse_builds : BuildLabel -> BuildLabel -> Prop).

(** The labels whose builds that of [l] waits for: what [l] needs, and what parsing for it
    waits for. *)
Definition waits (w : world) (l x : BuildLabel) : Prop := needs w l x \/ exists d, parses w l d /\ parse_builds d x.

(** What parsing the package of a label may wait for is among the labels in [P]. *)
Definition may_parse (P : world -> BuildLabel -> Prop) (w : world) (l : BuildLabel) : Prop :=
  forall w' s, later w w' -> parse_builds l s -> P w' s.

(** What must hold when an action is to be run. *)
Definition ready (w : world) (a : action) : Prop :=
  match a with BuildAction l => deps_built w l | TestAction l _ => built w l end.

(** From [w] on, whatever else happens, the process only asks for labels in [P], only
    runs actions that are ready, and returns what satisfies [Q]. *)
Inductive wp : (world -> BuildLabel -> Prop) -> world -> proc -> (world -> error -> Prop) -> Prop :=
  | wp_Ret P w e (Q : world -> error -> Prop) : (forall w', later w w' -> Q w' e) -> wp P w (Ret e) Q
  | wp_Read P w k Q : (forall w', later w w' -> wp P w' (k w') Q) -> wp P w (Read k) Q
  | wp_ParseTarget P w l k Q :
      may_parse P w l -> (forall w', later w w' -> is_Some (graph w' !! l) -> wp P w' (k None) Q) ->
      (forall w' e, later w w' -> wp P w' (k (Some e)) Q) -> wp P w (ParseTarget l k) Q
  | wp_ParsePackage P w l k Q : may_parse P w l -> (forall w' e, later w w' -> wp P w' (k e) Q) -> wp P w (ParsePackage l k) Q
  | wp_Build P w l k Q :
      may_parse P w l -> (forall w', later w w' -> P w' l) ->
      (forall w' e, later w w' -> (e = None -> built w' l) -> wp P w' (k e) Q) -> wp P w (Build l k) Q
  | wp_GetOrSet P w l k Q :
      (forall w', later w w' -> P w' l) ->
      (forall w' e, later w w' -> (e = None -> built w' l) -> wp P w' (k e) Q) -> wp P w (GetOrSet l k) Q
  | wp_Owner P w l p k Q :
      (forall w', later w w' -> P w' l) ->
      (forall w', later w w' -> wp (fun w => waits w l) w' p (fun w e => e = None -> complete w l)) ->
      (forall w' e, later w w' -> (e = None -> built w' l) -> wp P w' (k e) Q) -> wp P w (Owner l p k) Q
  | wp_Act P w a k Q :
      (forall w', later w w' -> ready w' a) ->
      (forall w' e, later w w' -> (e = None -> a ∈ succeeded w') -> wp P w' (k e) Q) -> wp P w (Act a k) Q
  | wp_Acting P w a k Q :
      (forall w' e, later w w' -> (e = None -> a ∈ succeeded w') -> wp P w' (k e) Q) -> wp P w (Acting a k) Q
  | wp_Group P w c err ps k Rs Q :
      Forall monotone Rs ->
      Forall2 (fun p (R : world -> Prop) => forall w', later w w' -> wp P w' p (fun w e => e = None -> R w)) ps Rs ->
      (forall w' e, later w w' -> (e = None -> err = None /\ Forall (fun R => R w') Rs) -> wp P w' (k e) Q) ->
      wp P w (Group c err ps k) Q.

Lemma may_parse_mono P w w' l : later w w' -> may_parse P w l -> may_parse P w' l.
Proof. intros Hw H w2 s Hw2. apply H. by etransitivity. Qed.

Lemma wp_mono P w w' p Q : later w w' -> wp P w p Q -> wp P w' p Q.
Proof.
  intros Hw H. destruct H; econstructor; try done; try (by eapply may_parse_mono); try (intros; match goal with H : _ |- _ => eapply H; [by etransitivity|..]; done end).
  eapply Forall2_impl; [done|]. cbn. intros p R Hp w2 Hw2. apply Hp. by etransitivity.
Qed.

Lemma wp_conseq P w p (Q Q' : world -> error -> Prop) :
  wp P w p Q -> (forall w' e, later w w' -> Q w' e -> Q' w' e) -> wp P w p Q'.
Proof.
  intros H. induction H; intros HQ;
    assert (forall w', later w w' -> forall w'' e, later w' w'' -> Q w'' e -> Q' w'' e) as HQ'
      by (intros; apply HQ; [by etransitivity|done]).
  all: try (constructor; eauto; done).
  econstructor; eauto.
Qed.

Lemma wp_or_return P w (k : proc) e (Q : world -> error -> Prop) :
  (e = None -> wp P w k Q) -> (forall w' e, later w w' -> e <> None -> Q w' e) -> wp P w (or_return k e) Q.
Proof. intros Hk HQ. destruct e; [|by apply Hk]. constructor. intros. by apply HQ. Qed.

(** Everything of which success is all that is asked. *)
Definition succeeds (R : world -> Prop) : world -> error -> Prop := fun w e => e = None -> R w.

Lemma wp_bail P w k e R : (e = None -> wp P w k (succeeds R)) -> wp P w (or_return k e) (succeeds R).
Proof. intros Hk. apply wp_or_return; [done|]. intros ? [] _ ?; done. Qed.

Lemma wp_with_target P w l k R :
  (forall w' t, later w w' -> graph w' !! l = Some t -> wp P w' (k t) (succeeds R)) ->
  wp P w (with_target l k) (succeeds R).
Proof.
  intros Hk. constructor. intros w' Hw. destruct (graph w' !! l) eqn:E; [by apply Hk|].
  constructor. intros ? _ ?. done.
Qed.

Lemma wp_group {A} P w (f : A -> proc) xs k (R : A -> world -> Prop) Q :
  (forall x, monotone (R x)) ->
  (forall x w', x ∈ xs -> later w w' -> wp P w' (f x) (succeeds (R x))) ->
  (forall w' e, later w w' -> (e = None -> forall x, x ∈ xs -> R x w') -> wp P w' (k e) Q) ->
  wp P w (group (map f xs) k) Q.
Proof.
  intros Hm Hf Hk. apply (wp_Group _ _ _ _ _ _ (map R xs)).
  - clear -Hm. induction xs; constructor; done.
  - clear Hk. induction xs as [|x xs IH]; constructor.
    + intros w' Hw. apply Hf; [set_solver|done].
    + apply IH. intros. apply Hf; [set_solver|done].
  - intros w' e Hw He. apply Hk; [done|]. intros ->. destruct (He eq_refl) as [_ HR]. clear -HR.
    induction xs; cbn in HR; [set_solver|]. apply Forall_cons in HR as [? ?]. intros x [->|]%elem_of_cons; auto.
Qed.

(** A label that may be asked for. *)
Definition may_build (P : world -> BuildLabel -> Prop) (w : world) (l : BuildLabel) : Prop :=
  may_parse P w l /\ forall w', later w w' -> P w' l.

Lemma may_build_mono P w w' l : later w w' -> may_build P w l -> may_build P w' l.
Proof. intros Hw [H1 H2]. split; [by eapply may_parse_mono|]. intros w2 Hw2. apply H2. by etransitivity. Qed.

Lemma wp_buildProvided P w ps :
  (forall x, x ∈ ps -> may_build P w x) ->
  wp P w (buildProvided ps) (succeeds (fun w => forall x, x ∈ ps -> built w x)).
Proof.
  revert w. induction ps as [|p ps IH]; intros w HP; cbn.
  - constructor. intros w' _ _ x. set_solver.
  - destruct (HP p) as [Hparse Hbuild]; [by left|]. constructor; [done| |intros; constructor; done].
    intros w' Hw _. cbn. constructor; [by eapply may_parse_mono| |].
    + intros w2 Hw2. apply Hbuild. by etransitivity.
    + intros w2 e Hw2 He. apply wp_bail. intros ->.
      assert (later w w2) as Hw' by (by etransitivity).
      eapply wp_conseq.
      { apply IH. intros x Hx. eapply may_build_mono; [done|]. apply HP. by right. }
      intros w3 e Hw3 H He' x. specialize (H He'). intros [->|Hx]%elem_of_cons; [|by apply H].
      apply (later_built _ _ Hw3), He. done.
Qed.

Lemma wp_buildDep P w l d :
  may_parse P w d -> (forall w' x, later w w' -> provided w' l d x -> may_build P w' x) ->
  wp P w (buildDep l d) (succeeds (fun w => dep_built w l d)).
Proof.
  intros Hd0 HP. unfold buildDep. constructor; [done| |intros; constructor; done].
  intros w1 Hw1 _. cbn. apply wp_with_target. intros w2 t Hw2 Ht. apply wp_with_target. intros w3 dt Hw3 Hd.
  assert (later w w3) as Hw by (by do 2 (etransitivity; [done|])).
  apply (graph_later _ _ _ _ Hw3) in Ht.
  assert (forall w4, later w3 w4 -> (forall x, x ∈ ProvideFor dt t -> built w4 x) -> dep_built w4 l d) as Hdone.
  { intros w4 Hw4 Hb. apply (graph_later _ _ _ _ Hw4) in Ht, Hd. split_and!; [by eexists..|].
    intros x (t' & dt' & Ht' & Hd' & Hx). simplify_eq. auto. }
  assert (forall x, x ∈ ProvideFor dt t -> may_build P w3 x) as HP'.
  { intros x Hx. apply HP; [done|]. by exists t, dt. }
  case_bool_decide as Hp.
  - destruct (HP' d) as [Hd1 Hd2]; [rewrite Hp; by left|]. apply wp_Build; [done|done|]. intros w4 e Hw4 He. constructor. intros w5 Hw5 ->.
    apply Hdone; [by etransitivity|]. rewrite Hp. intros x ->%list_elem_of_singleton.
    apply (later_built _ _ Hw5). auto.
  - eapply wp_conseq; [by apply wp_buildProvided|]. intros w4 e Hw4 Hb ->. apply Hdone; auto.
Qed.

Lemma wp_parseProvided P w ps k R :
  (forall x, x ∈ ps -> may_parse P w x) -> (forall w', later w w' -> wp P w' k (succeeds R)) -> wp P w (parseProvided ps k) (succeeds R).
Proof.
  revert w. induction ps as [|p ps IH]; intros w HP Hk; cbn; [by apply Hk|].
  constructor; [apply HP; by left| |intros; constructor; done]. intros w' Hw _. cbn.
  apply IH; [|intros; apply Hk; by etransitivity]. intros x Hx. eapply may_parse_mono; [done|]. apply HP. by right.
Qed.

Lemma wp_resolveAll P w l deps k R :
  (forall d, d ∈ deps -> may_parse P w d) ->
  (forall w' d x, d ∈ deps -> later w w' -> provided w' l d x -> may_parse P w' x) ->
  (forall w', later w w' -> wp P w' k (succeeds R)) -> wp P w (resolveAll l deps k) (succeeds R).
Proof.
  revert w. induction deps as [|d deps IH]; intros w HP HP' Hk; cbn; [by apply Hk|].
  constructor; [apply HP; by left| |intros; constructor; done]. intros w1 Hw1 _. cbn. apply wp_with_target. intros w2 t Hw2 Ht.
  apply wp_with_target. intros w3 dt Hw3 Hd. apply (graph_later _ _ _ _ Hw3) in Ht.
  assert (later w w3) as Hw by (by do 2 (etransitivity; [done|])).
  assert (forall w', later w3 w' -> wp P w' (resolveAll l deps k) (succeeds R)) as H.
  { intros w' Hw'. assert (later w w') by (by etransitivity). apply IH.
    - intros x Hx. eapply may_parse_mono; [done|]. apply HP. by right.
    - intros w4 d' x Hin Hw4. apply HP'; [by right|by etransitivity].
    - intros. apply Hk. by etransitivity. }
  case_bool_decide; [by apply H|]. apply wp_parseProvided; [|done].
  intros x Hx. apply (HP' w3 d); [by left|done|]. by exists t, dt.
Qed.

(** ** The runner *)

Section building.
Context (keep_going : bool).
Context (should_include : BuildTarget -> bool).
Context (NumTestRuns : nat) (TestSequentially NeedCoverage : bool).
Context (capacity : bool -> nat).
Context (remotely : BuildLabel -> bool).
Context (has_PreBuildFunction AddedPostBuild : BuildLabel -> bool).

#[local] Abbreviation build_body := (build_body should_include has_PreBuildFunction).
#[local] Abbreviation buildOne := (buildOne has_PreBuildFunction).
#[local] Abbreviation step := (step keep_going should_include capacity remotely has_PreBuildFunction parse_builds).
#[local] Abbreviation Run := (Run should_include NumTestRuns TestSequentially NeedCoverage AddedPostBuild).
#[local] Abbreviation acting := (acting remotely).

(** *** The code is code *)

Lemma code_or_return k e : code k -> code (or_return k e).
Proof. by destruct e. Qed.

Lemma code_with_target l k : (forall t, code (k t)) -> code (with_target l k).
Proof. intros Hk w. cbn. by destruct (graph w !! l). Qed.

Lemma code_group_intro ps k : Forall code ps -> (forall e, code (k e)) -> code (group ps k).
Proof. intros. by apply code_group. Qed.

Lemma code_map {A} (f : A -> proc) l : (forall x, code (f x)) -> Forall code (map f l).
Proof. intros Hf. induction l; cbn; auto. Qed.

Create HintDb code.
#[local] Hint Resolve code_or_return code_with_target code_group_intro code_map Forall_app_2 Forall_cons_2 Forall_nil_2 : code.
#[local] Hint Extern 2 (code _) => intros ? : code.
#[local] Hint Extern 0 (code (Ret _)) => exact Logic.I : code.

(** Goes through the code. *)
Ltac code :=
  repeat first
    [ progress intros
    | apply code_or_return | apply code_with_target | apply code_group_intro | apply code_map | apply Forall_app_2
    | apply Forall_cons_2
    | done
    | solve [auto 12 with code]
    | case_match
    | progress cbn ].

Lemma code_buildProvided ps : code (buildProvided ps).
Proof. induction ps; code. Qed.
#[local] Hint Resolve code_buildProvided : code.

Lemma code_buildDep l d : code (buildDep l d).
Proof. unfold buildDep. code. Qed.
#[local] Hint Resolve code_buildDep : code.

Lemma code_parseProvided ps k : code k -> code (parseProvided ps k).
Proof. intros. induction ps; code. Qed.
#[local] Hint Resolve code_parseProvided : code.

Lemma code_resolveAll l deps k : code k -> code (resolveAll l deps k).
Proof. intros. induction deps; code. Qed.
#[local] Hint Resolve code_resolveAll : code.

Lemma code_buildAdded l : code (buildAdded l).
Proof. unfold buildAdded. code. Qed.
#[local] Hint Resolve code_buildAdded : code.

Lemma code_group_deps l deps k : code k -> code (group_deps l deps k).
Proof. unfold group_deps. code. Qed.
#[local] Hint Resolve code_group_deps : code.

Lemma code_buildWithRuntime l : code (buildWithRuntime has_PreBuildFunction l).
Proof. unfold buildWithRuntime, runBuildAction. code. Qed.
#[local] Hint Resolve code_buildWithRuntime : code.

Lemma code_build_body l : code (build_body l).
Proof. unfold Runner.build_body, buildAll, Runner.buildOne. code. Qed.

Lemma code_Build_code l k : (forall e, code (k e)) -> code (Build_code l k).
Proof. unfold Build_code. code. Qed.

Lemma code_testOne l : code (testOne NumTestRuns TestSequentially l).
Proof. unfold testOne. code. Qed.
#[local] Hint Resolve code_testOne : code.

Lemma code_Run needTest targets : code (Run needTest targets).
Proof. unfold Runner.Run, queueTask, Runner.Test. code. Qed.
#[local] Hint Resolve code_build_body code_Build_code : code.

Lemma code_parse_on p (k : error -> proc) : code p -> (forall e, code (k e)) -> forall e, code (parse_on p k e).
Proof. intros Hp Hk [e|]; [apply Hk|exact Hp]. Qed.

(** *** What is at work *)

Lemma live_group_mid c err ps1 p ps2 k :
  live (Group c err (ps1 ++ p :: ps2) k) <-> Forall live ps1 /\ live p /\ Forall live ps2 /\ forall e, code (k e).
Proof. rewrite live_group, Forall_app, Forall_cons. naive_solver. Qed.

Lemma live_step ctx w p w' p' : step ctx w p w' p' -> live p -> live p'.
Proof.
  induction 1; intros Hl; try (apply code_live; by apply Hl); try exact Hl; try exact (code_parse_on _ _ Hl Hl).
  - apply code_live. by apply code_Build_code.
  - split; [apply code_live, code_build_body|exact Hl].
  - destruct Hl as [Hp Hk]. split; auto.
  - apply live_group_mid in Hl as (H1 & H2 & H3 & Hk). apply live_group_mid. auto.
  - apply live_group_mid in Hl as (H1 & H2 & H3 & Hk). apply live_group. split; [by apply Forall_app|done].
  - apply live_group_mid in Hl as (H1 & H2 & H3 & Hk). apply live_group. split; [by apply Forall_app|done].
Qed.

(** Each label in progress has one owner. *)
Lemma owns_step ctx w p w' p' :
  step ctx w p w' p' -> live p -> (forall l, count (owns l) p <= in_progress w l) ->
  forall l, count (owns l) p' + in_progress w l = count (owns l) p + in_progress w' l.
Proof.
  pose proof (fun l p => count_code (owns l) p (owns_only_live l)) as Hcode.
  induction 1; intros Hl Hle l0; try (cbn; rewrite ?Hcode by (by apply Hl); done).
  - cbn. rewrite Hcode by (by apply code_Build_code). done.
  - cbn. rewrite Hcode by apply code_build_body. rewrite in_progress_set. unfold in_progress.
    case_decide as E; [subst; rewrite H|]; lia.
  - destruct Hl as [Hl Hk]. cbn in *. specialize (IHstep Hl).
    assert (forall l, count (owns l) p <= in_progress w l) as Hp by (intros l1; specialize (Hle l1); lia).
    specialize (IHstep Hp l0). lia.
  - destruct Hl as [Hl Hk]. cbn in *. rewrite Hcode by auto. rewrite in_progress_set.
    specialize (Hle l). unfold in_progress in *. destruct (decide (l = l0)) as [<-|]; [|lia].
    rewrite decide_True in Hle by done. destruct (once w !! l) as [[]|]; lia.
  - apply live_group_mid in Hl as (_ & H2 & _).
    rewrite !count_group in *. rewrite !sum_list_with_app. cbn.
    assert (forall l, count (owns l) p <= in_progress w l) as Hp.
    { intros l1. specialize (Hle l1). rewrite count_group, sum_list_with_app in Hle. cbn in Hle. lia. }
    specialize (IHstep H2 Hp l0). lia.
  - rewrite !count_group, !sum_list_with_app. cbn. lia.
  - rewrite !count_group, !sum_list_with_app. cbn. lia.
Qed.

(** As many actions run as the limiters count. *)
Lemma acting_step ctx w p w' p' r :
  step ctx w p w' p' -> live p -> count (acting r) p <= used w r ->
  count (acting r) p' + used w r = count (acting r) p + used w' r.
Proof.
  pose proof (fun p => count_code (acting r) p (acting_only_live remotely r)) as Hcode.
  induction 1; intros Hl Hle; try (cbn; rewrite ?Hcode by (by apply Hl); done).
  - cbn. rewrite Hcode by (by apply code_Build_code). done.
  - cbn. rewrite Hcode by apply code_build_body. done.
  - destruct Hl as [Hl Hk]. cbn in *. apply IHstep; [done|lia].
  - cbn. fold r0. case_decide as E.
    + rewrite <- E, eqb_reflx. lia.
    + destruct (eqb r r0) eqn:Er; [|lia]. apply eqb_prop in Er. congruence.
  - cbn in *. rewrite Hcode by auto. case_decide as E.
    + rewrite <- E, eqb_reflx in *. lia.
    + destruct (eqb r (remotely l)) eqn:Er; [|lia]. apply eqb_prop in Er. congruence.
  - cbn in *. rewrite Hcode by auto. case_decide as E.
    + rewrite <- E, eqb_reflx in *. lia.
    + destruct (eqb r (remotely l)) eqn:Er; [|lia]. apply eqb_prop in Er. congruence.
  - apply live_group_mid in Hl as (_ & H2 & _).
    rewrite !count_group in *. rewrite !sum_list_with_app in *. cbn in *. specialize (IHstep H2 ltac:(lia)). lia.
  - rewrite !count_group, !sum_list_with_app. cbn. lia.
  - rewrite !count_group, !sum_list_with_app. cbn. lia.
Qed.

(** *** At most once *)

(** A process starts an action at most [n] times, not counting what is still to be
    built for the labels it asks for. *)
Inductive budget (a : action) : nat -> proc -> Prop :=
  | budget_Ret n e : budget a n (Ret e)
  | budget_Read n k : (forall w, budget a n (k w)) -> budget a n (Read k)
  | budget_ParseTarget n l k : (forall e, budget a n (k e)) -> budget a n (ParseTarget l k)
  | budget_ParsePackage n l k : (forall e, budget a n (k e)) -> budget a n (ParsePackage l k)
  | budget_Build n l k : (forall e, budget a n (k e)) -> budget a n (Build l k)
  | budget_GetOrSet n l k : (forall e, budget a n (k e)) -> budget a n (GetOrSet l k)
  | budget_Owner n1 n2 n l p k :
      n1 + n2 <= n -> budget a n1 p -> (forall e, budget a n2 (k e)) -> budget a n (Owner l p k)
  | budget_Act m n b k :
      (if decide (b = a) then 1 else 0) + m <= n -> (forall e, budget a m (k e)) -> budget a n (Act b k)
  | budget_Acting n b k : (forall e, budget a n (k e)) -> budget a n (Acting b k)
  | budget_Group ns m n c err ps k :
      sum_list ns + m <= n -> Forall2 (budget a) ns ps -> (forall e, budget a m (k e)) -> budget a n (Group c err ps k).

Lemma budget_mono a n n' p : budget a n p -> n <= n' -> budget a n' p.
Proof.
  intros H. revert n'. induction H; intros n' Hn; try (constructor; auto; done).
  - eapply budget_Owner; [|eauto..]. lia.
  - eapply budget_Act; [|eauto]. lia.
  - eapply budget_Group; [|eauto..]. lia.
Qed.

Lemma budget_or_return a n k e : budget a n k -> budget a n (or_return k e).
Proof. destruct e; [constructor|done]. Qed.

Lemma budget_with_target a n l k : (forall t, budget a n (k t)) -> budget a n (with_target l k).
Proof. intros. constructor. intros w. destruct (graph w !! l); [done|constructor]. Qed.

Lemma budget_zero a ps :
  Forall (budget a 0) ps -> Forall2 (budget a) (replicate (length ps) 0) ps /\ sum_list (replicate (length ps) 0) = 0.
Proof. induction 1 as [|p ps Hp Hps [IH1 IH2]]; cbn; [done|]. split; [by constructor|done]. Qed.

Lemma budget_group a n ps k : Forall (budget a 0) ps -> (forall e, budget a n (k e)) -> budget a n (group ps k).
Proof.
  intros Hps Hk. apply budget_zero in Hps as [Hps Hsum]. eapply budget_Group; [|exact Hps|exact Hk]. lia.
Qed.

Lemma budget_map {A} a (f : A -> proc) l : (forall x, budget a 0 (f x)) -> Forall (budget a 0) (map f l).
Proof. intros. induction l; cbn; constructor; auto. Qed.

Create HintDb budget.
#[local] Hint Constructors budget : budget.
#[local] Hint Resolve budget_or_return budget_with_target budget_group budget_map Forall_app_2 Forall_cons_2 Forall_nil_2 : budget.
#[local] Hint Extern 2 (budget _ _ (match ?x with _ => _ end)) => destruct x : budget.

Ltac budget := repeat first [progress intros | solve [auto 12 with budget] | progress cbn | case_match].

Lemma budget_buildProvided a ps : budget a 0 (buildProvided ps).
Proof. induction ps; budget. Qed.
#[local] Hint Resolve budget_buildProvided : budget.

Lemma budget_buildDep a l d : budget a 0 (buildDep l d).
Proof. unfold buildDep. budget. Qed.
#[local] Hint Resolve budget_buildDep : budget.

Lemma budget_parseProvided a n ps k : budget a n k -> budget a n (parseProvided ps k).
Proof. intros. induction ps; budget. Qed.
#[local] Hint Resolve budget_parseProvided : budget.

Lemma budget_resolveAll a n l deps k : budget a n k -> budget a n (resolveAll l deps k).
Proof. intros. induction deps; budget. Qed.
#[local] Hint Resolve budget_resolveAll : budget.

Lemma budget_buildAdded a l : budget a 0 (buildAdded l).
Proof. unfold buildAdded. budget. Qed.
#[local] Hint Resolve budget_buildAdded : budget.

Lemma budget_group_deps a n l deps k : budget a n k -> budget a n (group_deps l deps k).
Proof. unfold group_deps. budget. Qed.
#[local] Hint Resolve budget_group_deps : budget.

Definition of_label (a : action) (l : BuildLabel) : nat := if decide (BuildAction l = a) then 1 else 0.

Lemma budget_action a l k : (forall e, budget a 0 (k e)) -> budget a (of_label a l) (runBuildAction l k).
Proof. intros Hk. apply (budget_Act a 0); [unfold of_label; lia|done]. Qed.
#[local] Hint Resolve budget_action : budget.

Lemma budget_buildWithRuntime a l : budget a (of_label a l) (buildWithRuntime has_PreBuildFunction l).
Proof.
  unfold buildWithRuntime. apply budget_with_target. intros t. apply budget_resolveAll.
  case_bool_decide; [budget|]. case_match; [budget|].
  destruct (budget_zero a (map (buildDep l) (RuntimeAndDataDependencies t))) as [Hps Hsum]; [budget|].
  eapply (budget_Group a (of_label a l :: _) 0); [|constructor; [|exact Hps]|]; [cbn; lia|budget..].
Qed.
#[local] Hint Resolve budget_buildWithRuntime : budget.

Lemma budget_build_body a l : budget a (of_label a l) (build_body l).
Proof. unfold Runner.build_body, buildAll, Runner.buildOne. budget. Qed.

Lemma budget_Build_code a n l k : (forall e, budget a n (k e)) -> budget a n (Build_code l k).
Proof. unfold Build_code. budget. Qed.

Lemma budget_Run l targets needTest : budget (BuildAction l) 0 (Run needTest targets).
Proof.
  assert (forall l', budget (BuildAction l) 0 (testOne NumTestRuns TestSequentially l')) as Htest.
  { intros l'. unfold testOne. constructor. intros e. apply budget_or_return, budget_with_target. intros t.
    assert (forall n k, (forall e, budget (BuildAction l) 0 (k e)) -> budget (BuildAction l) 0 (Act (TestAction l' n) k))
      as Hact by (intros; by apply (budget_Act _ 0)).
    budget. }
  unfold Runner.Run, queueTask, Runner.Test. budget.
Qed.

Lemma budget_parse_on a n p (k : error -> proc) :
  budget a n p -> (forall e, budget a n (k e)) -> forall e, budget a n (parse_on p k e).
Proof. intros Hp Hk [e|]; [apply Hk|exact Hp]. Qed.

Definition occurrences (a : action) (s : list action) : nat := length (filter (fun b => b = a) s).

Definition claimed (w : world) (l : BuildLabel) : nat := match once w !! l with None => 0 | Some _ => 1 end.

Lemma occurrences_cons a b s : occurrences a (b :: s) = (if decide (b = a) then 1 else 0) + occurrences a s.
Proof. unfold occurrences. rewrite filter_cons. by case_decide. Qed.

Lemma budget_mid a n c err ps1 p ps2 k :
  budget a n (Group c err (ps1 ++ p :: ps2) k) ->
  exists n1 n2 m ns1 ns2, Forall2 (budget a) ns1 ps1 /\ budget a n1 p /\ Forall2 (budget a) ns2 ps2 /\
    (forall e, budget a m (k e)) /\ n2 = sum_list ns1 + sum_list ns2 + m /\ n1 + n2 <= n.
Proof.
  intros H. inversion H as [| | | | | | | | |ns0 m ? ? ? ? ? Hsum Hps Hk]; subst.
  apply Forall2_app_inv_r in Hps as (ns1 & ns3 & H1 & H2 & ->).
  apply Forall2_cons_inv_r in H2 as (n1 & ns2 & Hp & H2 & ->).
  exists n1, (sum_list ns1 + sum_list ns2 + m), m, ns1, ns2. rewrite sum_list_with_app in Hsum. cbn in Hsum.
  split_and!; try done. lia.
Qed.

Lemma budget_step l ctx w p w' p' :
  step ctx w p w' p' -> forall n, budget (BuildAction l) n p ->
  exists n', budget (BuildAction l) n' p' /\
    occurrences (BuildAction l) (started w') + n' + claimed w l <= occurrences (BuildAction l) (started w) + n + claimed w' l.
Proof.
  induction 1; intros n Hb;
    try (exists n; split; [inversion Hb; subst; solve [auto]|unfold claimed; cbn -[occurrences]; lia]);
    try (exists n; split; [constructor; apply budget_parse_on; [exact Hb|by inversion Hb]|unfold claimed; cbn -[occurrences]; lia]).
  - exists n. split; [apply budget_Build_code; by inversion Hb|]. lia.
  - exists (of_label (BuildAction l) l0 + n). split.
    + eapply budget_Owner; [|apply budget_build_body|inversion Hb; subst; eauto]. done.
    + unfold of_label, claimed. cbn -[occurrences]. destruct (decide (l0 = l)) as [->|Hne].
      * rewrite H, decide_True by done. simplify_map_eq. lia.
      * rewrite decide_False by congruence. simplify_map_eq. lia.
  - inversion Hb as [| | | | | |n1 n2 ? ? ? ? Hn Hp Hk| | |]; subst. destruct (IHstep n1 Hp) as (n1' & Hp' & Hle).
    exists (n1' + n2). split; [by eapply budget_Owner|]. lia.
  - inversion Hb as [| | | | | |n1 n2 ? ? ? ? Hn Hp Hk| | |]; subst. exists n2. split; [done|].
    unfold claimed. cbn -[occurrences]. destruct (decide (l0 = l)) as [->|Hne]; simplify_map_eq; [|lia]. destruct (once w !! l); lia.
  - inversion Hb as [| | | | | | |m ? ? ? Hn Hk| |]; subst. exists m. split; [by constructor|].
    cbn [started acquire]. rewrite occurrences_cons. unfold claimed. cbn -[occurrences]. lia.
  - inversion Hb as [| | | | | | |m ? ? ? Hn Hk| |]; subst. exists m. split; [done|]. lia.
  - apply budget_mid in Hb as (n1 & n2 & m & ns1 & ns2 & H1 & Hp & H2 & Hk & -> & Hn).
    destruct (IHstep n1 Hp) as (n1' & Hp' & Hle). exists (n1' + (sum_list ns1 + sum_list ns2 + m)). split; [|lia].
    eapply (budget_Group _ (ns1 ++ n1' :: ns2) m); [|apply Forall2_app; [done|by constructor]|done].
    rewrite sum_list_with_app. cbn. lia.
  - apply budget_mid in Hb as (n1 & n2 & m & ns1 & ns2 & H1 & Hp & H2 & Hk & -> & Hn).
    exists (sum_list ns1 + sum_list ns2 + m). split; [|lia].
    eapply (budget_Group _ (ns1 ++ ns2) m); [|by apply Forall2_app|done]. rewrite sum_list_with_app. lia.
  - apply budget_mid in Hb as (n1 & n2 & m & ns1 & ns2 & H1 & Hp & H2 & Hk & -> & Hn).
    exists (sum_list ns1 + sum_list ns2 + m). split; [|lia].
    eapply (budget_Group _ (ns1 ++ ns2) m); [|by apply Forall2_app|done]. rewrite sum_list_with_app. lia.
  - inversion Hb as [| | | | | | | | |ns m ? ? ? ? ? Hn Hps Hk]; subst. exists m. split; [done|]. lia.
Qed.

#[local] Abbreviation reachable := (reachable keep_going should_include capacity remotely has_PreBuildFunction parse_builds).

Lemma reachable_inv (I : world -> proc -> Prop) w0 root w p :
  (forall w p w' p', I w p -> step false w p w' p' -> I w' p') ->
  I w0 root -> reachable w0 root (w, p) -> I w p.
Proof.
  intros Hstep H0 Hr. change (I (w, p).1 (w, p).2). revert Hr.
  apply (rtc_ind_r (fun s => I s.1 s.2)); [done|]. intros [] [] _ Hs HI. cbn in *. eauto.
Qed.

Lemma started_at_most_once w0 needTest targets w p l :
  initial w0 -> reachable w0 (Run needTest targets) (w, p) -> occurrences (BuildAction l) (started w) <= 1.
Proof.
  intros Hi Hr.
  assert (exists n, budget (BuildAction l) n p /\ occurrences (BuildAction l) (started w) + n <= claimed w l) as (n & _ & Hn).
  { revert Hr. apply (reachable_inv (fun w p => exists n, budget (BuildAction l) n p /\
      occurrences (BuildAction l) (started w) + n <= claimed w l)).
    - intros w1 p1 w2 p2 (n & Hb & Hn) Hs. destruct (budget_step l _ _ _ _ _ Hs n Hb) as (n' & Hb' & Hle).
      exists n'. split; [done|]. lia.
    - exists 0. split; [apply budget_Run|]. rewrite (initial_started _ Hi). cbn. lia. }
  assert (claimed w l <= 1) by (unfold claimed; destruct (once w !! l); lia). lia.
Qed.

(** What is at work agrees with the state. *)
Record consistent (w : world) (p : proc) : Prop := {
  consistent_live : live p;
  consistent_owns l : count (owns l) p = in_progress w l;
  consistent_acting r : count (acting r) p = used w r;
}.

Lemma consistent_step w p w' p' : consistent w p -> step false w p w' p' -> consistent w' p'.
Proof.
  intros [Hl Ho Ha] Hs. split.
  - by eapply live_step.
  - intros l. pose proof (owns_step _ _ _ _ _ Hs Hl ltac:(intros l1; by rewrite Ho) l) as H. rewrite Ho in H. lia.
  - intros r. pose proof (acting_step _ _ _ _ _ r Hs Hl ltac:(by rewrite Ha)) as H. rewrite Ha in H. lia.
Qed.

Lemma consistent_initial w0 needTest targets : initial w0 -> consistent w0 (Run needTest targets).
Proof.
  intros [Ho _ _ Hu]. pose proof (code_Run needTest targets) as Hc. split.
  - by apply code_live.
  - intros l. rewrite count_code by (done || apply owns_only_live). unfold in_progress. by rewrite Ho.
  - intros r. rewrite count_code by (done || apply acting_only_live). by rewrite Hu.
Qed.

(** *** One target *)

Section target.
Context (l : BuildLabel) (Hl : IsAllTargets l = false).

#[local] Abbreviation Pl := (fun w => waits w l).

(** What is parsed for the target, and built for it. *)
Lemma dep_may_parse w t d :
  graph w !! l = Some t -> (d ∈ BuildDependencyLabels t \/ d ∈ source_labels t \/ d ∈ RuntimeAndDataDependencies t) -> may_parse Pl w d.
Proof.
  intros Ht Hd w' s Hw Hs. right. exists d. split; [|done]. right; right. exists t. split; [by eapply graph_later|done].
Qed.

Lemma dep_may_build w w' t d x :
  graph w !! l = Some t -> (d ∈ BuildDependencyLabels t \/ d ∈ source_labels t \/ d ∈ RuntimeAndDataDependencies t) ->
  later w w' -> provided w' l d x -> may_build Pl w' x.
Proof.
  intros Ht Hd Hw Hp.
  assert (forall w2, later w' w2 -> needs w2 l x) as Hn.
  { intros w2 Hw2. unfold needs. rewrite Hl. exists t, d. split_and!; [|done|by eapply provided_mono].
    eapply graph_later; [|exact Ht]. by etransitivity. }
  split; [|intros w2 Hw2; left; by apply Hn]. intros w2 s Hw2 Hs. right. exists x. split; [left; by apply Hn|done].
Qed.

Lemma wp_buildDep_of w t d :
  graph w !! l = Some t -> (d ∈ BuildDependencyLabels t \/ d ∈ source_labels t \/ d ∈ RuntimeAndDataDependencies t) ->
  wp Pl w (buildDep l d) (succeeds (fun w => dep_built w l d)).
Proof.
  intros Ht Hd. apply wp_buildDep; [by eapply dep_may_parse|]. intros w' x Hw Hp. by eapply dep_may_build.
Qed.

Lemma wp_buildAdded w (R : world -> Prop) : monotone R -> R w -> wp Pl w (buildAdded l) (succeeds R).
Proof.
  intros Hm HR. constructor. intros w1 Hw1. case_bool_decide.
  - apply wp_with_target. intros w2 t Hw2 Ht. apply (wp_group _ _ _ _ _ (fun _ _ => True)); [done|..].
    + intros d w3 Hd Hw3. eapply wp_conseq; [|intros ? ? ? ? ?; exact Logic.I].
      eapply wp_buildDep_of; [by eapply graph_later|auto].
    + intros w3 e Hw3 _. constructor. intros w4 Hw4 _. eapply Hm; [|exact HR]. by do 4 (etransitivity; [done|]).
  - constructor. intros w2 Hw2 _. eapply Hm; [|exact HR]. by etransitivity.
Qed.

Lemma wp_runBuildAction w k R :
  deps_built w l -> (forall w', later w w' -> BuildAction l ∈ succeeded w' -> wp Pl w' k (succeeds R)) ->
  wp Pl w (runBuildAction l (or_return k)) (succeeds R).
Proof.
  intros Hd Hk. constructor; [intros w' Hw; by eapply deps_built_mono|].
  intros w' e Hw He. apply wp_bail. intros ->. auto.
Qed.

Lemma wp_group_deps w t deps k R :
  graph w !! l = Some t ->
  (forall d, d ∈ deps -> d ∈ BuildDependencyLabels t \/ d ∈ source_labels t \/ d ∈ RuntimeAndDataDependencies t) ->
  (forall w', later w w' -> (forall d, d ∈ deps -> dep_built w' l d) -> wp Pl w' k (succeeds R)) ->
  wp Pl w (group (map (buildDep l) deps) (or_return k)) (succeeds R).
Proof.
  intros Ht Hdeps Hk. apply (wp_group _ _ _ _ _ (fun d w => dep_built w l d)).
  - intros d. apply dep_built_mono.
  - intros d w' Hd Hw. eapply wp_buildDep_of; [by eapply graph_later|auto].
  - intros w' e Hw He. apply wp_bail. auto.
Qed.

Lemma complete_intro w t :
  graph w !! l = Some t -> deps_built w l -> BuildAction l ∈ succeeded w ->
  (forall d, d ∈ RuntimeAndDataDependencies t -> dep_built w l d) -> complete w l.
Proof. intros Ht Hd Ha Hr. right. split_and!; [done|done|]. by exists t. Qed.

Lemma wp_buildWithRuntime w :
  deps_built w l -> wp Pl w (buildWithRuntime has_PreBuildFunction l) (succeeds (fun w => complete w l)).
Proof.
  intros Hd. unfold buildWithRuntime. apply wp_with_target. intros w1 t Hw1 Ht.
  apply wp_resolveAll.
  { intros d Hdd. apply (dep_may_parse w1 t d Ht). auto. }
  { intros w2 d x Hdd Hw2 Hp. apply (dep_may_build w1 w2 t d x Ht); auto. }
  intros w2 Hw2.
  assert (deps_built w2 l) as Hd2 by (eapply deps_built_mono; [|exact Hd]; by etransitivity).
  apply (graph_later _ _ _ _ Hw2) in Ht.
  assert (forall w3, later w2 w3 -> BuildAction l ∈ succeeded w3 ->
    (forall d, d ∈ RuntimeAndDataDependencies t -> dep_built w3 l d) ->
    wp Pl w3 (buildAdded l) (succeeds (fun w => complete w l))) as Hend.
  { intros w3 Hw3 Ha Hr. apply wp_buildAdded; [apply complete_mono|].
    eapply complete_intro; [by eapply graph_later|by eapply deps_built_mono|done|done]. }
  case_bool_decide as Hempty; [|case_match].
  - apply wp_runBuildAction; [done|]. intros w3 Hw3 Ha. apply Hend; [done|done|]. rewrite Hempty. set_solver.
  - eapply wp_group_deps; [done|auto|]. intros w3 Hw3 Hr.
    apply wp_runBuildAction; [by eapply deps_built_mono|]. intros w4 Hw4 Ha.
    apply Hend; [by etransitivity|done|]. intros d Hdd. eapply dep_built_mono; [done|auto].
  - apply (wp_Group _ _ _ _ _ _ ((fun w => BuildAction l ∈ succeeded w) ::
      map (fun d w => dep_built w l d) (RuntimeAndDataDependencies t))).
    + constructor; [intros ? ? Hw; apply (later_succeeded _ _ Hw)|].
      clear. induction (RuntimeAndDataDependencies t); constructor; [apply dep_built_mono|done].
    + constructor.
      * intros w3 Hw3. constructor; [intros w4 Hw4; eapply deps_built_mono; [|exact Hd2]; by etransitivity|].
        intros w4 e Hw4 He. constructor. intros w5 Hw5 ->. apply (later_succeeded _ _ Hw5). auto.
      * assert (forall d, d ∈ RuntimeAndDataDependencies t -> forall w', later w2 w' ->
          wp Pl w' (buildDep l d) (succeeds (fun w => dep_built w l d))) as Hall.
        { intros d Hdd w' Hw'. eapply wp_buildDep_of; [by eapply graph_later|auto]. }
        clear -Hall. induction (RuntimeAndDataDependencies t) as [|d ds IH]; constructor.
        -- intros w' Hw'. apply Hall; [set_solver|done].
        -- apply IH. intros. apply Hall; [set_solver|done].
    + intros w3 e Hw3 He. apply wp_bail. intros ->. destruct (He eq_refl) as [_ Hr].
      apply Forall_cons in Hr as [Ha Hr]. apply Hend; [done|done|]. intros d Hdd.
      rewrite Forall_forall in Hr. apply (Hr (fun w => dep_built w l d)).
      by apply (list_elem_of_fmap_2 (fun d w => dep_built w l d)).
Qed.

Lemma wp_buildOne w : wp Pl w (buildOne l) (succeeds (fun w => complete w l)).
Proof.
  unfold Runner.buildOne. apply wp_with_target. intros w1 t Hw1 Ht. rewrite <- map_app.
  eapply wp_group_deps; [done|intros d; rewrite elem_of_app; naive_solver|]. intros w2 Hw2 Hdeps.
  assert (deps_built w2 l) as Hd.
  { exists t. split; [by eapply graph_later|]. intros d Hd. apply Hdeps. by apply elem_of_app. }
  constructor. intros w3 Hw3. apply (deps_built_mono l _ _ Hw3) in Hd. case_bool_decide; [|by apply wp_buildWithRuntime].
  apply wp_with_target. intros w4 t' Hw4 Ht'. apply (deps_built_mono l _ _ Hw4) in Hd.
  eapply wp_group_deps; [done|auto|]. intros w5 Hw5 _. apply wp_buildWithRuntime. by eapply deps_built_mono.
Qed.
End target.

Lemma wp_build_body w l : wp (fun w => waits w l) w (build_body l) (succeeds (fun w => complete w l)).
Proof.
  unfold Runner.build_body. destruct (IsAllTargets l) eqn:Hl; [|by apply wp_buildOne].
  unfold buildAll. constructor.
  { intros w1 s _ Hs. right. exists l. split; [by right; left|done]. }
  intros w1 e Hw1. apply wp_bail. intros ->. constructor. intros w2 Hw2.
  apply (wp_group _ _ (fun lt => Build lt.1 Ret) _ _ (fun _ _ => True)); [done|..].
  - intros [x t] w3 Hx Hw3. apply list_elem_of_filter in Hx as [_ Hx].
    unfold AllTargets in Hx. apply list_elem_of_filter in Hx as [[HS HP] Hx]. apply elem_of_map_to_list in Hx.
    assert (forall w4, later w3 w4 -> needs w4 l x) as Hn.
    { intros w4 Hw4. unfold needs. rewrite Hl. cbn in *. split_and!; [done..|].
      exists t. eapply graph_later; [|exact Hx]. by etransitivity. }
    constructor; [|intros w4 Hw4; left; by apply Hn|by constructor]. intros w4 s Hw4 Hs. right. exists x.
    split; [left; by apply Hn|done].
  - intros w3 e Hw3 _. constructor. intros w4 _ _. by left.
Qed.

(** *** Steps *)

(** Whatever is built is complete. *)
Definition built_complete (w : world) : Prop := forall l, built w l -> complete w l.

Lemma built_complete_mono w w' :
  later w w' -> (forall l, built w' l -> built w l \/ complete w l) -> built_complete w -> built_complete w'.
Proof.
  intros Hw Hb HJ l Hl. destruct (Hb l Hl) as [H|H]; [apply HJ in H|]; by eapply complete_mono.
Qed.

Lemma later_set_graph w G : graph w ⊆ G -> later w (set_graph G w).
Proof. by split. Qed.

Lemma later_set_once w l o : ~ built w l -> later w (set_once l o w).
Proof.
  intros Hn. split; [done| |done]. intros l' Hb. unfold built in *. cbn.
  rewrite lookup_insert_ne; [done|]. by intros ->.
Qed.

Lemma later_release w r a e G m : graph w ⊆ G -> later w (release r a e G m w).
Proof. intros HG. split; [done|done|]. intros b Hb. cbn. destruct e; [done|]. set_solver. Qed.

Lemma wp_GetOrSet_Owner P w l k Q :
  wp P w (GetOrSet l k) Q -> wp P w (Owner l (build_body l) k) Q.
Proof.
  intros H. inversion H; subst. constructor; [done| |done]. intros w' Hw. apply wp_build_body.
Qed.

Lemma wp_Build_code P w l k Q : wp P w (Build l k) Q -> wp P w (Build_code l k) Q.
Proof.
  intros H. inversion H as [| | | |? ? ? ? ? Hparse HP Hk| | | | |]; subst. unfold Build_code.
  destruct (IsAllTargets l); [by constructor|]. constructor; [done|..].
  - intros w1 Hw1 _. constructor; [intros; apply HP; by etransitivity|]. intros. apply Hk; [by etransitivity|done].
  - intros w1 e Hw1. apply Hk; [done|]. done.
Qed.

(** A build that parsing waits for. *)
Lemma wp_parse_builds P w l s p k Q :
  may_parse P w l -> parse_builds l s -> wp P w p Q -> (forall w' e, later w w' -> wp P w' (k (Some e)) Q) ->
  wp P w (GetOrSet s (parse_on p k)) Q.
Proof.
  intros HP Hs Hp Hk. constructor; [intros; by eapply HP|]. intros w' [e|] Hw _; [by apply Hk|by eapply wp_mono].
Qed.

Lemma wp_group_mid P w c err ps1 p ps2 k Q :
  wp P w (Group c err (ps1 ++ p :: ps2) k) Q <->
  exists Rs1 (R : world -> Prop) Rs2, Forall monotone (Rs1 ++ R :: Rs2) /\
    Forall2 (fun p (R : world -> Prop) => forall w', later w w' -> wp P w' p (succeeds R)) ps1 Rs1 /\
    (forall w', later w w' -> wp P w' p (succeeds R)) /\
    Forall2 (fun p (R : world -> Prop) => forall w', later w w' -> wp P w' p (succeeds R)) ps2 Rs2 /\
    (forall w' e, later w w' -> (e = None -> err = None /\ Forall (fun R => R w') (Rs1 ++ R :: Rs2)) -> wp P w' (k e) Q).
Proof.
  split.
  - intros H. inversion H as [| | | | | | | | |? ? ? ? ? ? Rs ? Hm Hps Hk]; subst.
    apply Forall2_app_inv_l in Hps as (Rs1 & Rs' & H1 & H2 & ->).
    apply Forall2_cons_inv_l in H2 as (R & Rs2 & Hp & H2 & ->). by exists Rs1, R, Rs2.
  - intros (Rs1 & R & Rs2 & Hm & H1 & Hp & H2 & Hk). apply (wp_Group _ _ _ _ _ _ (Rs1 ++ R :: Rs2)); [done| |done].
    apply Forall2_app; [done|by constructor].
Qed.

Lemma Forall_drop_mid {A} (Q : A -> Prop) l1 x l2 : Forall Q (l1 ++ x :: l2) <-> Q x /\ Forall Q (l1 ++ l2).
Proof. rewrite !Forall_app, Forall_cons. tauto. Qed.

Lemma wp_step ctx w p w' p' :
  step ctx w p w' p' -> graph w ⊆ graph w' -> (forall l, count (owns l) p <= in_progress w l) -> built_complete w ->
  forall P Q, wp P w p Q -> later w w' /\ built_complete w' /\ wp P w' p' Q.
Proof.
  induction 1; intros HG Hown HJ P Q Hwp.
  1: { inversion Hwp; subst. split_and!; [done|done|auto]. }
  1: { inversion Hwp; subst. pose proof (later_set_graph _ _ H) as Hw.
       split_and!; [done| |by eauto]. eapply built_complete_mono; [done|by auto|done]. }
  1: { inversion Hwp; subst. split_and!; [done|done|auto]. }
  1: { pose proof (later_set_graph _ _ H0) as Hw. split_and!; [done|eapply built_complete_mono; [done|by auto|done]|].
       inversion Hwp as [| |? ? ? ? ? HP H5 H6| | | | | | |]; subst. eapply wp_parse_builds; [by eapply may_parse_mono|done|by eapply wp_mono|].
       intros. apply H6. by etransitivity. }
  1: { inversion Hwp; subst. pose proof (later_set_graph _ _ H) as Hw.
       split_and!; [done| |by eauto]. eapply built_complete_mono; [done|by auto|done]. }
  1: { inversion Hwp; subst. split_and!; [done|done|auto]. }
  1: { pose proof (later_set_graph _ _ H) as Hw. split_and!; [done|eapply built_complete_mono; [done|by auto|done]|].
       inversion Hwp as [| | |? ? ? ? ? HP H5| | | | | |]; subst. eapply wp_parse_builds; [by eapply may_parse_mono|done|by eapply wp_mono|].
       intros. apply H5. by etransitivity. }
  1: { split_and!; [done|done|by apply wp_Build_code]. }
  - (* claim *)
    assert (Hw : later w (set_once l None w)) by (apply later_set_once; intros Hb; pose proof (eq_trans (eq_sym H) Hb); done).
    split_and!; [done| |eapply wp_mono; [done|by apply wp_GetOrSet_Owner]].
    eapply built_complete_mono; [done| |done]. intros l'. unfold built. cbn.
    destruct (decide (l = l')) as [->|]; simplify_map_eq; [by intros [=]|auto].
  - inversion Hwp as [| | | | |? ? ? ? ? HP Hk| | | |]; subst. split_and!; [done|done|].
    apply Hk; [done|]. intros ->. exact H.
  - inversion Hwp as [| | | | |? ? ? ? ? HP Hk| | | |]; subst. split_and!; [done|done|]. by apply Hk.
  - inversion Hwp as [| | | | | |? ? ? ? ? ? HP Hb Hk| | |]; subst.
    destruct (IHstep HG) with (P := fun w => waits w l) (Q := succeeds (fun w => complete w l)) as (Hw & HJ' & Hp').
    { intros l'. specialize (Hown l'). cbn in Hown. lia. }
    { done. }
    { by apply Hb. }
    split_and!; [done|done|]. constructor.
    + intros. apply HP. by etransitivity.
    + intros w2 Hw2. by eapply wp_mono.
    + intros. apply Hk; [by etransitivity|done].
  - (* owned *)
    inversion Hwp as [| | | | | |? ? ? ? ? ? HP Hb Hk| | |]; subst.
    assert (Hn : ~ built w l).
    { intros Hbl. specialize (Hown l). cbn in Hown. rewrite decide_True in Hown by done.
      unfold in_progress in Hown. rewrite Hbl in Hown. lia. }
    pose proof (later_set_once w l (Some e) Hn) as Hw. split_and!; [done| |].
    + eapply built_complete_mono; [done| |done]. intros l'. unfold built. cbn.
      destruct (decide (l = l')) as [->|]; simplify_map_eq; [|by auto]. intros [= ->]. right.
      specialize (Hb w ltac:(done)). inversion Hb; subst. auto.
    + apply Hk; [done|]. intros ->. unfold built. cbn. by simplify_map_eq.
  - inversion Hwp as [| | | | | | |? ? ? ? ? Hr Hk| |]; subst.
    assert (Hw : later w (acquire r a w)) by (by split).
    split_and!; [done| |constructor; intros; apply Hk; [by etransitivity|done]].
    eapply built_complete_mono; [done|by auto|done].
  - inversion Hwp as [| | | | | | |? ? ? ? ? Hr Hk| |]; subst. split_and!; [done|done|]. by apply Hk.
  - inversion Hwp as [| | | | | | | |? ? ? ? ? Hk|]; subst. cbn in HG.
    pose proof (later_release w (remotely l) (BuildAction l) e G m HG) as Hw. split_and!; [done| |].
    + eapply built_complete_mono; [done|by auto|done].
    + apply Hk; [done|]. intros ->. cbn. set_solver.
  - inversion Hwp as [| | | | | | | |? ? ? ? ? Hk|]; subst.
    pose proof (later_release w (remotely l) (TestAction l run) None (graph w) (modified w) ltac:(done)) as Hw.
    split_and!; [done| |].
    + eapply built_complete_mono; [done|by auto|done].
    + apply Hk; [done|]. intros _. cbn. set_solver.
  - apply wp_group_mid in Hwp as (Rs1 & R & Rs2 & Hm & H1 & Hp & H2 & Hk).
    destruct (IHstep HG) with (P := P) (Q := succeeds R) as (Hw & HJ' & Hp').
    { intros l'. specialize (Hown l'). rewrite count_group, sum_list_with_app in Hown. cbn in Hown. lia. }
    { done. }
    { by apply Hp. }
    split_and!; [done|done|]. apply wp_group_mid. exists Rs1, R, Rs2. split_and!; [done| | | |].
    + eapply Forall2_impl; [done|]. cbn. intros q R' Hq w2 Hw2. apply Hq. by etransitivity.
    + intros w2 Hw2. by eapply wp_mono.
    + eapply Forall2_impl; [done|]. cbn. intros q R' Hq w2 Hw2. apply Hq. by etransitivity.
    + intros. apply Hk; [by etransitivity|done].
  - apply wp_group_mid in Hwp as (Rs1 & R & Rs2 & Hm & H1 & Hp & H2 & Hk).
    apply Forall_drop_mid in Hm as [HmR Hm]. split_and!; [done|done|].
    apply (wp_Group _ _ _ _ _ _ (Rs1 ++ Rs2)); [done|by apply Forall2_app|].
    intros w2 e Hw2 He. apply Hk; [done|]. intros ->. destruct (He eq_refl) as [-> HRs]. split; [done|].
    apply Forall_drop_mid. split; [|done]. apply (HmR w); [done|]. specialize (Hp w ltac:(done)).
    inversion Hp as [? ? ? ? Hret| | | | | | | | |]; subst. by apply Hret.
  - apply wp_group_mid in Hwp as (Rs1 & R & Rs2 & Hm & H1 & Hp & H2 & Hk).
    apply Forall_drop_mid in Hm as [HmR Hm]. split_and!; [done|done|].
    apply (wp_Group _ _ _ _ _ _ (Rs1 ++ Rs2)); [done|by apply Forall2_app|].
    intros w2 e2 Hw2 He. apply Hk; [done|]. intros ->. destruct (He eq_refl) as [He' _]. by destruct err.
  - inversion Hwp as [| | | | | | | | |? ? ? ? ? ? Rs ? Hm Hps Hk]; subst. inversion Hps; subst.
    split_and!; [done|done|]. apply Hk; [done|]. done.
Qed.

(** An action that starts is ready. *)
Lemma step_ready ctx w p w' p' a :
  step ctx w p w' p' -> started w' = a :: started w -> forall P Q, wp P w p Q -> ready w a.
Proof.
  assert (forall s : list action, s = a :: s -> False) as Hs.
  { intros s H. apply (f_equal length) in H. cbn in H. lia. }
  induction 1; intros Hst P Q Hwp; try (cbn in Hst; by apply Hs in Hst).
  - inversion Hwp as [| | | | | |? ? ? ? ? ? HP Hb Hk| | |]; subst. eapply IHstep; [done|by apply Hb].
  - cbn in Hst. simplify_eq. inversion Hwp as [| | | | | | |? ? ? ? ? Hr Hk| |]; subst. by apply Hr.
  - apply wp_group_mid in Hwp as (Rs1 & R & Rs2 & Hm & H1 & Hp & H2 & Hk). eapply IHstep; [done|by apply Hp].
Qed.

(** *** Getting on *)

(** [q] is at work in [p]. *)
Inductive within : bool -> proc -> bool -> proc -> Prop :=
  | within_refl ctx p : within ctx p ctx p
  | within_Owner ctx l p k ctx' q : within ctx p ctx' q -> within ctx (Owner l p k) ctx' q
  | within_Group ctx c err ps1 p ps2 k ctx' q :
      within (ctx || c) p ctx' q -> within ctx (Group c err (ps1 ++ p :: ps2) k) ctx' q.

Lemma within_step ctx p ctx' q w w' q' :
  within ctx p ctx' q -> step ctx' w q w' q' -> exists p', step ctx w p w' p'.
Proof.
  induction 1 as [|ctx l p k ctx' q Hin IH|ctx c err ps1 p ps2 k ctx' q Hin IH]; intros Hs; [eauto|..].
  - destruct (IH Hs) as [p' Hp]. eexists. by constructor.
  - destruct (IH Hs) as [p' Hp]. eexists. by constructor.
Qed.

Lemma within_wp ctx p ctx' q P w Q : within ctx p ctx' q -> wp P w p Q -> exists P' Q', wp P' w q Q'.
Proof.
  intros Hin. revert P Q. induction Hin as [|ctx l p k ctx' q Hin IH|ctx c err ps1 p ps2 k ctx' q Hin IH]; intros P Q Hwp.
  - eauto.
  - inversion Hwp as [| | | | | |? ? ? ? ? ? HP Hb Hk| | |]; subst. eapply IH. by apply Hb.
  - apply wp_group_mid in Hwp as (Rs1 & R & Rs2 & Hm & H1 & Hp & H2 & Hk). eapply IH. by apply Hp.
Qed.

Lemma sum_pos {A} (f : A -> nat) xs : 0 < sum_list_with f xs -> exists xs1 x xs2, xs = xs1 ++ x :: xs2 /\ 0 < f x.
Proof.
  induction xs as [|x xs IH]; cbn; [lia|]. intros H. destruct (decide (0 < f x)) as [Hx|Hx].
  - by exists [], x, xs.
  - destruct IH as (xs1 & y & xs2 & -> & Hy); [lia|]. by exists (x :: xs1), y, xs2.
Qed.

(** Whatever is counted is somewhere. *)
Lemma count_within f p ctx : only_live f -> 0 < count f p -> exists ctx' q, within ctx p ctx' q /\ 0 < f q.
Proof.
  intros Hf. revert ctx. induction p using proc_nested_ind; intros ctx Hc;
    try (exists ctx; eexists; split; [constructor|cbn in Hc |- *; lia]).
  - cbn in Hc. destruct (decide (0 < f (Owner l p k))); [by exists ctx, (Owner l p k); split; [constructor|]|].
    destruct (IHp ctx) as (ctx' & q & Hin & Hq); [lia|]. exists ctx', q. split; [by constructor|done].
  - rewrite count_group in Hc. pose proof (Hf (Group c err ps k)) as Hf0. cbn in Hf0. rewrite Hf0 in Hc.
    destruct (sum_pos (count f) ps) as (ps1 & p & ps2 & -> & Hp); [lia|].
    apply Forall_app in H as [_ H]. apply Forall_cons in H as [H _].
    destruct (H (ctx || c) Hp) as (ctx' & q & Hin & Hq). exists ctx', q. split; [by constructor|done].
Qed.

(** What runs can always end. *)
Lemma acting_steps ctx w a k : exists w' p', step ctx w (Acting a k) w' p'.
Proof.
  destruct a as [l|l run]; eexists _, _; [|constructor].
  apply (step_built _ _ _ _ _ _ _ _ _ _ None (graph w) (modified w)). split; [done|].
  intros l' t Ht. split; [by eexists|]. by intros [].
Qed.

(** Why a process does not go on: it waits for a label, or the limiter is full. *)
Lemma stuck P w p Q ctx :
  wp P w p Q -> (forall l, count (owns l) p <= in_progress w l) ->
  (exists e, p = Ret e) \/ (exists w' p', step ctx w p w' p') \/
  (exists l, P w l /\ once w !! l = Some None) \/ (exists r, capacity r <= used w r).
Proof.
  revert P Q ctx. induction p using proc_nested_ind; intros P Q ctx Hwp Hown.
  - eauto.
  - right; left. eexists _, _. constructor.
  - right; left. destruct (graph w !! l) eqn:E; eexists _, _.
    + by apply (step_ParseTarget _ _ _ _ _ _ _ _ _ _ (graph w)).
    + by apply (step_ParseTarget_fails _ _ _ _ _ _ _ _ _ _ "").
  - right; left. eexists _, _. by apply (step_ParsePackage _ _ _ _ _ _ _ _ _ _ (graph w)).
  - right; left. eexists _, _. constructor.
  - destruct (once w !! l) as [[e|]|] eqn:E.
    + right; left. eexists _, _. by constructor.
    + right; right; left. inversion Hwp as [| | | | |? ? ? ? ? HP Hk| | | |]; subst. exists l. split; [by apply HP|done].
    + right; left. eexists _, _. by constructor.
  - right; right; left. inversion Hwp as [| | | | | |? ? ? ? ? ? HP Hb Hk| | |]; subst. exists l. split; [by apply HP|].
    specialize (Hown l). cbn in Hown. rewrite decide_True in Hown by done. unfold in_progress in Hown.
    destruct (once w !! l) as [[]|]; [lia|done|lia].
  - destruct (decide (used w (remotely (action_target a)) < capacity (remotely (action_target a)))).
    + right; left. destruct ctx; eexists _, _; by constructor.
    + right; right; right. eexists. by apply Nat.nlt_ge.
  - right; left. apply acting_steps.
  - destruct ps as [|p ps]; [right; left; eexists _, _; constructor|].
    apply Forall_cons in H as [Hp _].
    apply (wp_group_mid _ _ _ _ []) in Hwp as (Rs1 & R & Rs2 & Hm & H1 & Hwp & H2 & Hk).
    assert (forall l, count (owns l) p <= in_progress w l) as Hown'.
    { intros l. specialize (Hown l). rewrite count_group in Hown. cbn in Hown. lia. }
    destruct (Hp P _ (ctx || c) (Hwp w ltac:(done)) Hown') as [[[e|] ->]|[(w' & p' & Hs)|[?|?]]]; [right; left..|by auto|by auto].
    + eexists _, _. apply (step_Group_error _ _ _ _ _ _ _ _ _ _ []).
    + eexists _, _. apply (step_Group_ok _ _ _ _ _ _ _ _ _ _ []).
    + eexists _, _. apply (step_Group _ _ _ _ _ _ _ _ _ _ []). exact Hs.
Qed.

Lemma within_count f ctx p ctx' q : within ctx p ctx' q -> count f q <= count f p.
Proof.
  induction 1 as [|ctx l p k ctx' q Hin IH|ctx c err ps1 p ps2 k ctx' q Hin IH]; [done|cbn; lia|].
  rewrite count_group, sum_list_with_app. cbn. lia.
Qed.

Section progress.
Context (P : world -> BuildLabel -> Prop) (Q : world -> error -> Prop) (w : world) (p : proc).
Context (rank : BuildLabel -> nat).
Context (Hwp : wp P w p Q) (Hp : consistent w p).
Context (Hcap : forall r, 0 < capacity r) (Hrank : forall l x, waits w l x -> rank x < rank l).

Lemma full_steps r : capacity r <= used w r -> exists w' p', step false w p w' p'.
Proof.
  intros Hr. destruct (count_within (acting r) p false) as (ctx & q & Hin & Hq).
  - apply acting_only_live.
  - rewrite (consistent_acting _ _ Hp). specialize (Hcap r). lia.
  - destruct q as [| | | | | | | |a k|]; cbn in Hq; try lia.
    destruct (acting_steps ctx w a k) as (w' & q' & Hs). exists w'. by eapply within_step.
Qed.

Lemma in_progress_steps n l : rank l < n -> once w !! l = Some None -> exists w' p', step false w p w' p'.
Proof.
  revert l. induction n as [|n IH]; intros l Hn Hl; [lia|].
  destruct (count_within (owns l) p false) as (ctx & q & Hin & Hq).
  - apply owns_only_live.
  - rewrite (consistent_owns _ _ Hp). unfold in_progress. rewrite Hl. lia.
  - destruct q as [| | | | | |l' b k| | |]; cbn in Hq; try lia. case_decide; [subst l'|lia].
    destruct (within_wp _ _ _ _ _ _ _ Hin Hwp) as (P' & Q' & Hq').
    inversion Hq' as [| | | | | |? ? ? ? ? ? HP Hb Hk| | |]; subst.
    assert (forall l, count (owns l) b <= in_progress w l) as Hown.
    { intros l'. rewrite <- (consistent_owns _ _ Hp).
      pose proof (within_count (owns l') _ _ _ _ Hin) as Hle. cbn in Hle. lia. }
    assert (forall w' q', step ctx w (Owner l b k) w' q' -> exists w' p', step false w p w' p') as Hgo.
    { intros w' q' Hs. exists w'. by eapply within_step. }
    destruct (stuck _ _ _ _ ctx (Hb w ltac:(done)) Hown) as [[e ->]|[(w' & b' & Hs)|[(x & Hx & Hxp)|[r Hr]]]].
    + eapply Hgo. apply step_owned.
    + eapply Hgo. by apply step_Owner.
    + apply (IH x); [|done]. specialize (Hrank l x Hx). lia.
    + by eapply full_steps.
Qed.

Lemma progress_inv : (exists e, p = Ret e) \/ exists w' p', step false w p w' p'.
Proof.
  destruct (stuck _ _ _ _ false Hwp) as [?|[?|[(x & _ & Hx)|[r Hr]]]].
  - intros l. by rewrite (consistent_owns _ _ Hp).
  - by left.
  - by right.
  - right. by apply (in_progress_steps (S (rank x)) x); [lia|].
  - right. by eapply full_steps.
Qed.
End progress.
End building.
End processes.
