(* ===== verification/Runs.v ===== *)
(** Whole runs of the runner: what [Building.v] shows of processes, for the process that
    [Run] is; a scheduler that runs it; and examples, one of which shows a dependency
    that is missed. *)
From S2P Require Import Prelude GoStrings Labels Targets Runner Building.
From stdpp Require Import relations.

Section runs.
Context (keep_going : bool).
Context (should_include : BuildTarget -> bool).
Context (NumTestRuns : nat) (TestSequentially NeedCoverage : bool).
Context (capacity : bool -> nat).
Context (remotely : BuildLabel -> bool).
Context (has_PreBuildFunction AddedPostBuild : BuildLabel -> bool).
Context (parse_builds : BuildLabel -> BuildLabel -> Prop).

#[local] Abbreviation step := (step keep_going should_include capacity remotely has_PreBuildFunction parse_builds).
#[local] Abbreviation Run := (Run should_include NumTestRuns TestSequentially NeedCoverage AddedPostBuild).
#[local] Abbreviation reachable := (reachable keep_going should_include capacity remotely has_PreBuildFunction parse_builds).
#[local] Abbreviation wp := (wp parse_builds).
#[local] Abbreviation consistent := (consistent remotely).

(** *** The whole run *)

Lemma wp_testOne w l :
  wp (fun _ _ => True) w (testOne NumTestRuns TestSequentially l) (succeeds (fun w => built w l)).
Proof.
  unfold testOne. constructor; [done..|]. intros w1 e Hw1 He. apply wp_bail. intros ->.
  apply wp_with_target. intros w2 t Hw2 _. assert (built w2 l) as Hb by (apply (later_built _ _ Hw2); auto).
  assert (forall w', later w2 w' -> built w' l) as Hbl by (intros w' Hw'; by apply (later_built _ _ Hw')).
  case_match; [|case_match].
  - constructor. intros w3 Hw3 _. auto.
  - constructor; [exact Hbl|]. intros w3 e Hw3 _. constructor. intros w4 Hw4 _. apply Hbl. by etransitivity.
  - apply (wp_group _ _ _ _ _ _ (fun _ _ => True)); [done|..].
    + intros n w3 _ Hw3. constructor; [intros w4 Hw4; apply Hbl; by etransitivity|].
      intros w4 e Hw4 _. by constructor.
    + intros w3 e Hw3 _. constructor. intros w4 Hw4 _. apply Hbl. by etransitivity.
Qed.

Definition all_built (targets : list BuildLabel) (w : world) : Prop :=
  forall l, l ∈ targets -> IsAllTargets l = false -> built w l.

Lemma wp_Run w needTest targets :
  wp (fun _ _ => True) w (Run needTest targets) (succeeds (all_built targets)).
Proof.
  unfold Runner.Run. apply (wp_group _ _ _ _ _ _ (fun l w => IsAllTargets l = false -> built w l)).
  - intros l w1 w2 Hw Hb Hl. apply (later_built _ _ Hw). auto.
  - intros l w1 _ Hw1. unfold queueTask, Runner.Test. destruct needTest; [destruct (IsAllTargets l) eqn:Hl; cbn|].
    + constructor; [done|]. intros w2 e Hw2. apply wp_bail. intros ->. constructor. intros w3 Hw3.
      apply (wp_group _ _ _ (fun lt => _) _ _ (fun _ _ => True)); [done|..].
      * intros lt w4 _ Hw4. eapply wp_conseq; [apply wp_testOne|]. done.
      * intros w4 e Hw4 _. constructor. intros w5 _ _. done.
    + constructor; [done| |intros; constructor; done]. intros w2 Hw2 _. cbn.
      eapply wp_conseq; [apply wp_testOne|]. intros w3 e Hw3 H He _. auto.
    + constructor; [done..|]. intros w2 e Hw2 He. constructor. intros w3 Hw3 -> _. apply (later_built _ _ Hw3). auto.
  - intros w1 e Hw1 He. constructor. intros w2 Hw2 -> l Hl Hall. apply (later_built _ _ Hw2). auto.
Qed.

(** The executions in which no target changes once it is in the graph. *)
Definition static_step (s s' : world * proc) : Prop :=
  run_step keep_going should_include capacity remotely has_PreBuildFunction parse_builds s s' /\ graph s.1 ⊆ graph s'.1.

Lemma static_inv w0 needTest targets w p :
  initial w0 -> rtc static_step (w0, Run needTest targets) (w, p) ->
  consistent w p /\ built_complete w /\ wp (fun _ _ => True) w p (succeeds (all_built targets)).
Proof.
  intros Hi. revert w p.
  assert (forall s, rtc static_step (w0, Run needTest targets) s ->
    consistent s.1 s.2 /\ built_complete s.1 /\ wp (fun _ _ => True) s.1 s.2 (succeeds (all_built targets))) as H;
    [|intros w p Hr; by apply (H (w, p))].
  apply (rtc_ind_r (fun s => consistent s.1 s.2 /\ built_complete s.1 /\
    wp (fun _ _ => True) s.1 s.2 (succeeds (all_built targets)))).
  - split_and!; [by apply consistent_initial| |apply wp_Run].
    intros l Hb. unfold built in Hb. cbn in Hb. by rewrite (initial_once _ Hi) in Hb.
  - intros [w p] [w' p'] _ [Hs HG] (Hc & HJ & Hwp). cbn in *.
    destruct (wp_step parse_builds keep_going should_include capacity remotely has_PreBuildFunction AddedPostBuild _ _ _ _ _ Hs HG) with (P := fun (_ : world) (_ : BuildLabel) => True)
      (Q := succeeds (all_built targets)) as (Hw & HJ' & Hwp'); [|done..|].
    + intros l. by rewrite (consistent_owns _ _ _ Hc).
    + split_and!; [by eapply consistent_step|done|done].
Qed.

(** What is needed by what is complete is complete too. *)
Definition needs_target (w : world) (l x : BuildLabel) : Prop := needs w l x /\ IsAllTargets x = false.

Lemma complete_needs w l x :
  built_complete w -> IsAllTargets l = false -> complete w l -> needs w l x -> complete w x.
Proof.
  intros HJ Hl [Hc|(_ & (t & Ht & Hd) & (t' & Ht' & Hr))] Hx; [congruence|]. simplify_eq.
  unfold needs in Hx. rewrite Hl in Hx. destruct Hx as (t' & d & Ht' & Hin & Hx). simplify_eq.
  apply HJ. assert (dep_built w l d) as (_ & _ & H) by (destruct Hin as [?|[?|?]]; auto). by apply H.
Qed.

Lemma complete_rtc w l x :
  built_complete w -> IsAllTargets l = false -> complete w l -> rtc (needs_target w) l x -> BuildAction x ∈ succeeded w.
Proof.
  intros HJ Hl Hc Hx. revert Hl Hc. induction Hx as [l|l y x [Hy Hya] _ IH]; intros Hl Hc.
  - destruct Hc as [?|(Ha & _)]; [congruence|done].
  - apply IH; [done|]. by eapply complete_needs.
Qed.

(** *** The end *)

(** The labels whose builds are over. *)
Definition over (w : world) : gset BuildLabel := dom (filter (fun kv => is_Some kv.2) (once w)).

Lemma elem_of_over w l : l ∈ over w <-> build_over w l.
Proof.
  unfold over, build_over. rewrite elem_of_dom. split.
  - intros [o Ho]. apply map_lookup_filter_Some in Ho as [Ho [e He]]. cbn in He. exists e. congruence.
  - intros [e He]. exists (Some e). apply map_lookup_filter_Some. split; [done|]. by exists e.
Qed.

Lemma over_claimed w : over w ⊆ dom (once w).
Proof. intros l (e & He)%elem_of_over. apply elem_of_dom. by eexists. Qed.

(** What becomes of a process when one step other than claiming a label or ending its
    build is made, while the builds of the labels in [O] are over. *)
Inductive reduct (O : gset BuildLabel) : proc -> proc -> Prop :=
  | reduct_Read w k : reduct O (k w) (Read k)
  | reduct_ParseTarget l k e : reduct O (k e) (ParseTarget l k)
  | reduct_ParseTarget_builds l s k : s ∉ O -> reduct O (GetOrSet s (parse_on (ParseTarget l k) k)) (ParseTarget l k)
  | reduct_ParsePackage l k e : reduct O (k e) (ParsePackage l k)
  | reduct_ParsePackage_builds l s k : s ∉ O -> reduct O (GetOrSet s (parse_on (ParsePackage l k) k)) (ParsePackage l k)
  | reduct_Build l k : reduct O (Build_code l k) (Build l k)
  | reduct_GetOrSet l k e : l ∈ O \/ e <> None -> reduct O (k e) (GetOrSet l k)
  | reduct_Owner l p p' k : reduct O p' p -> reduct O (Owner l p' k) (Owner l p k)
  | reduct_owned l p k e : reduct O (k e) (Owner l p k)
  | reduct_Act a k : reduct O (Acting a k) (Act a k)
  | reduct_Act_cancelled a k e : reduct O (k e) (Act a k)
  | reduct_Acting a k e : reduct O (k e) (Acting a k)
  | reduct_Group c err ps1 p p' ps2 k :
      reduct O p' p -> reduct O (Group c err (ps1 ++ p' :: ps2) k) (Group c err (ps1 ++ p :: ps2) k)
  | reduct_drop c err c' err' ps1 p ps2 k : reduct O (Group c' err' (ps1 ++ ps2) k) (Group c err (ps1 ++ p :: ps2) k)
  | reduct_Group_done c err ps e k : reduct O (k e) (Group c err ps k).

Section reducts.
Context (O : gset BuildLabel).
#[local] Abbreviation reduct := (reduct O).

Lemma reduct_Owner_acc l p k : Acc reduct p -> (forall e, Acc reduct (k e)) -> Acc reduct (Owner l p k).
Proof.
  intros Hp Hk. induction Hp as [p _ IH]. constructor. intros q Hq. inversion Hq; subst; auto.
Qed.

(** A list of processes, one of which moves on or ends. *)
Inductive reducts : list proc -> list proc -> Prop :=
  | reducts_mid ps1 p p' ps2 : reduct p' p -> reducts (ps1 ++ p' :: ps2) (ps1 ++ p :: ps2)
  | reducts_drop ps1 p ps2 : reducts (ps1 ++ ps2) (ps1 ++ p :: ps2).

Lemma reducts_cons_inv qs p ps :
  reducts qs (p :: ps) ->
  (exists p', qs = p' :: ps /\ reduct p' p) \/ qs = ps \/ exists ps', qs = p :: ps' /\ reducts ps' ps.
Proof.
  intros H. inversion H as [ps1 q q' ps2 Hq E1 E2|ps1 q ps2 E1 E2]; subst; destruct ps1; simplify_eq/=.
  - eauto.
  - right; right. eexists. split; [done|by constructor].
  - eauto.
  - right; right. eexists. split; [done|by constructor].
Qed.

Lemma reducts_acc ps : Forall (Acc reduct) ps -> Acc reducts ps.
Proof.
  induction 1 as [|p ps Hp _ IHps].
  - constructor. intros qs H. inversion H as [[] ? ? ? ?|[] ? ?].
  - revert ps IHps. induction Hp as [p _ IHp]. intros ps Hps.
    induction Hps as [ps Hps IHps]. constructor. intros qs [(p' & -> & Hp')|[->|(ps' & -> & Hps')]]%reducts_cons_inv.
    + apply IHp; [done|by constructor].
    + by constructor.
    + auto.
Qed.

Lemma reduct_Group_acc c err ps k :
  Acc reducts ps -> (forall e, Acc reduct (k e)) -> Acc reduct (Group c err ps k).
Proof.
  intros Hps Hk. revert c err. induction Hps as [ps _ IH]. intros c err. constructor. intros q Hq.
  inversion Hq; subst; [apply IH; by constructor|apply IH; by constructor|done].
Qed.

(** A build that parsing waits for and that is not over can only be given up. *)
Lemma reduct_parse_acc s p k : s ∉ O -> (forall e, Acc reduct (k e)) -> Acc reduct (GetOrSet s (parse_on p k)).
Proof.
  intros Hs Hk. constructor. intros q Hq. inversion Hq as [| | | | | |? ? e Ho| | | | | | | |]; subst.
  destruct e; [apply Hk|]. by destruct Ho.
Qed.

Lemma reduct_wf : well_founded reduct.
Proof.
  intros p. induction p using proc_nested_ind; try (constructor; intros q Hq; inversion Hq; subst; solve [auto]).
  - constructor. intros q Hq. inversion Hq; subst; [done|]. by apply reduct_parse_acc.
  - constructor. intros q Hq. inversion Hq; subst; [done|]. by apply reduct_parse_acc.
  - assert (Acc reduct (GetOrSet l k)) as Hg by (constructor; intros q Hq; inversion Hq; subst; auto).
    constructor. intros q Hq. inversion Hq; subst. unfold Build_code. destruct (IsAllTargets l); [done|].
    constructor. intros q' Hq'. inversion Hq'; subst; [by case_match|]. apply reduct_parse_acc; [done|]. intros e. case_match; [apply H|exact Hg].
  - by apply reduct_Owner_acc.
  - assert (forall b, Acc reduct (Acting b k)) as Hg by (intros b; constructor; intros q Hq; inversion Hq; subst; auto).
    constructor. intros q Hq. inversion Hq; subst; auto.
  - apply reduct_Group_acc; [by apply reducts_acc|done].
Qed.

End reducts.

(** A step claims a label, or ends the build of one, or makes the process smaller; and
    labels stay claimed, and over. *)
Definition moves_on (w w' : world) : Prop :=
  exists l, (l ∈ dom (once w') /\ l ∉ dom (once w)) \/ (l ∈ over w' /\ l ∉ over w).

Definition stays (w w' : world) : Prop := dom (once w) = dom (once w') /\ over w = over w'.

Lemma over_once w w' : once w = once w' -> over w = over w'.
Proof. unfold over. by intros ->. Qed.

Lemma claim_moves l w : once w !! l = None -> dom (once w) ⊆ dom (once (set_once l None w)) /\ over w ⊆ over (set_once l None w) /\ moves_on w (set_once l None w).
Proof.
  intros H. split_and!.
  - cbn. rewrite dom_insert_L. set_solver.
  - intros l' (e & He)%elem_of_over. apply elem_of_over. exists e. cbn. rewrite lookup_insert_ne; [done|]. intros <-. congruence.
  - exists l. left. cbn. rewrite dom_insert_L, not_elem_of_dom. set_solver.
Qed.

Lemma owned_moves l e w :
  (dom (once w) ⊆ dom (once (set_once l (Some e) w)) /\ over w ⊆ over (set_once l (Some e) w) /\ moves_on w (set_once l (Some e) w)) \/
  stays w (set_once l (Some e) w).
Proof.
  assert (forall l', build_over (set_once l (Some e) w) l' <-> l' = l \/ build_over w l') as Ho.
  { intros l'. unfold build_over. cbn. destruct (decide (l' = l)) as [->|Hne].
    - rewrite lookup_insert_eq. split; [auto|eauto].
    - rewrite lookup_insert_ne by done. naive_solver. }
  destruct (decide (l ∈ over w)) as [Hl|Hl]; [right|left].
  - split.
    + cbn. rewrite dom_insert_L. apply over_claimed in Hl. set_solver.
    + apply set_eq. intros l'. rewrite !elem_of_over, Ho, <- !elem_of_over. naive_solver.
  - split_and!.
    + cbn. rewrite dom_insert_L. set_solver.
    + intros l'. rewrite !elem_of_over, Ho. auto.
    + exists l. right. split; [|done]. apply elem_of_over, Ho. by left.
Qed.

Lemma step_measure ctx w p w' p' :
  step ctx w p w' p' ->
  (dom (once w) ⊆ dom (once w') /\ over w ⊆ over w' /\ moves_on w w') \/ (stays w w' /\ reduct (over w) p' p).
Proof.
  induction 1; try (right; split; [by split|constructor; done]);
    try (right; split; [by split|constructor; rewrite elem_of_over; done]).
  - left. by apply claim_moves.
  - right. split; [by split|]. constructor. left. apply elem_of_over. by exists e.
  - right. split; [by split|]. constructor. by right.
  - destruct IHstep as [?|[? ?]]; [by left|right]. split; [done|by constructor].
  - destruct (owned_moves l e w) as [?|?]; [by left|right]. split; [done|apply (reduct_owned _ l _ k)].
  - destruct IHstep as [?|[? ?]]; [by left|right]. split; [done|by constructor].
Qed.

(** The executions in which only these labels are asked for. *)
Definition bounded_step (L : gset BuildLabel) (s' s : world * proc) : Prop :=
  run_step keep_going should_include capacity remotely has_PreBuildFunction parse_builds s s' /\ dom (once s'.1) ⊆ L.

Definition left_of (L : gset BuildLabel) (w : world) : nat := size (L ∖ dom (once w)) + size (L ∖ over w).

Lemma moves_on_left L w w' :
  dom (once w') ⊆ L -> dom (once w) ⊆ dom (once w') -> over w ⊆ over w' -> moves_on w w' -> left_of L w' < left_of L w.
Proof.
  intros HL Hd Ho (l & Hl). pose proof (over_claimed w') as Hc. unfold left_of.
  assert (L ∖ dom (once w') ⊆ L ∖ dom (once w)) as Hs1 by set_solver. assert (L ∖ over w' ⊆ L ∖ over w) as Hs2 by set_solver.
  pose proof (subseteq_size _ _ Hs1). pose proof (subseteq_size _ _ Hs2). destruct Hl as [[H1 H2]|[H1 H2]].
  - enough (size (L ∖ dom (once w')) < size (L ∖ dom (once w))) by lia. apply subset_size. split; [done|]. set_solver.
  - enough (size (L ∖ over w') < size (L ∖ over w)) by lia. apply subset_size. split; [done|]. set_solver.
Qed.

Lemma bounded_step_acc L n s : left_of L s.1 < n -> Acc (bounded_step L) s.
Proof.
  revert s. induction n as [|n IH]; [lia|]. intros [w p] Hn. cbn in Hn.
  remember (over w) as O eqn:HO. revert w HO Hn. induction (reduct_wf O p) as [p _ IHp]. intros w -> Hn.
  constructor. intros [w' p'] [Hs HL].
  unfold run_step in Hs. cbn in *. apply step_measure in Hs as [(Hd & Ho & Hm)|[[Hd Ho] Hp]].
  - apply IH. cbn. pose proof (moves_on_left L w w' HL Hd Ho Hm). lia.
  - apply IHp; [done|done|]. unfold left_of. by rewrite <- Hd, <- Ho.
Qed.

(** *** Guarantees *)

(** C4: Whatever the dependencies are, whatever pre- and post-build functions do and
    however calls interleave, a target's build is started at most once in a run. *)
Theorem built_at_most_once w0 needTest targets w p l :
  initial w0 -> reachable w0 (Run needTest targets) (w, p) -> occurrences (BuildAction l) (started w) <= 1.
Proof. apply (started_at_most_once parse_builds). Qed.

(** C3: When the build of a target starts, in a run in which targets do not change once
    they are in the graph, all its build dependencies and sources are resolved and
    built, and so are, with their run-time dependencies, all the targets these needed. *)
Theorem dependencies_built_first w0 needTest targets w p w' p' l :
  initial w0 -> rtc static_step (w0, Run needTest targets) (w, p) ->
  step false w p w' p' -> started w' = BuildAction l :: started w ->
  exists t, graph w !! l = Some t /\
    forall d, d ∈ BuildDependencyLabels t \/ d ∈ source_labels t ->
      is_Some (graph w !! d) /\
      forall x, provided w l d x -> IsAllTargets x = false ->
        forall y, rtc (needs_target w) x y -> BuildAction y ∈ succeeded w.
Proof.
  intros Hi Hr Hs Hst. destruct (static_inv _ _ _ _ _ Hi Hr) as (Hc & HJ & Hwp).
  destruct (step_ready _ _ _ _ _ _ _ _ _ _ _ _ Hs Hst _ _ Hwp) as (t & Ht & Hd).
  exists t. split; [done|]. intros d Hin. destruct (Hd d Hin) as (_ & Hsome & Hx). split; [done|].
  intros x Hp Hall y Hy. eapply complete_rtc; [done|exact Hall|by apply HJ, Hx|done].
Qed.

(** C29: When such a run succeeds, every target that was asked for and everything these
    transitively need, to be built or at run time, has been built. *)
Theorem success_means_built w0 needTest targets w l x :
  initial w0 -> rtc static_step (w0, Run needTest targets) (w, Ret None) ->
  l ∈ targets -> IsAllTargets l = false -> rtc (needs_target w) l x -> BuildAction x ∈ succeeded w.
Proof.
  intros Hi Hr Hin Hl Hx. destruct (static_inv _ _ _ _ _ Hi Hr) as (Hc & HJ & Hwp).
  inversion Hwp as [? ? ? ? HQ| | | | | | | | |]; subst. eapply complete_rtc; [done|exact Hl| |done].
  apply HJ. by apply (HQ w).
Qed.


(** C30: A run ends: however calls interleave and whatever callbacks do, it cannot take
    infinitely many steps as long as the labels it builds are among finitely many. *)
Theorem run_terminates L : well_founded (bounded_step L).
Proof. intros s. eapply bounded_step_acc. apply Nat.lt_succ_diag_r. Qed.
End runs.

(** ** A scheduler *)

(** To run the runner: the first that can go on does.  [callback] says what becomes of a
    build and of the graph. *)
Section scheduler.
Context (keep_going : bool) (should_include : BuildTarget -> bool).
Context (capacity : bool -> nat) (remotely : BuildLabel -> bool) (has_PreBuildFunction : BuildLabel -> bool).
Context (parse_builds : BuildLabel -> BuildLabel -> Prop).
Context (callback : BuildLabel -> world -> error * gmap BuildLabel BuildTarget * gset BuildLabel).

#[local] Abbreviation step := (step keep_going should_include capacity remotely has_PreBuildFunction parse_builds).

Fixpoint next (ctx : bool) (w : world) (p : proc) : option (world * proc) :=
  match p with
  | Ret _ => None
  | Read k => Some (w, k w)
  | ParseTarget l k =>
      match graph w !! l with
      | Some _ => Some (set_graph (graph w) w, k None)
      | None => Some (w, k (Some "no such target"))
      end
  | ParsePackage _ k => Some (set_graph (graph w) w, k None)
  | Build l k => Some (w, Build_code l k)
  | GetOrSet l k =>
      match once w !! l with
      | None => Some (set_once l None w, Owner l (build_body should_include has_PreBuildFunction l) k)
      | Some (Some e) => Some (w, k e)
      | Some None => if ctx then Some (w, k (Some cancelled_error)) else None
      end
  | Owner l p k =>
      match p with
      | Ret e => Some (set_once l (Some e) w, k e)
      | _ => '(w', p') ← next ctx w p; Some (w', Owner l p' k)
      end
  | Act a k =>
      let r := remotely (action_target a) in
      if (used w r <? capacity r)%nat then
        if ctx then Some (w, k (Some cancelled_error)) else Some (acquire r a w, Acting a k)
      else None
  | Acting (BuildAction l) k =>
      let '(e, G, m) := callback l w in
      Some (release (remotely l) (BuildAction l) e G m w, k e)
  | Acting (TestAction l run) k =>
      Some (release (remotely l) (TestAction l run) None (graph w) (modified w) w, k None)
  | Group c err ps k =>
      (fix first (done ps : list proc) : option (world * proc) :=
         match ps with
         | [] => match done with [] => Some (w, k err) | _ => None end
         | p :: ps =>
             match p with
             | Ret None => Some (w, Group c err (done ++ ps) k)
             | Ret (Some e) =>
                 Some (w, Group (c || negb keep_going) (match err with None => Some e | _ => err end) (done ++ ps) k)
             | _ =>
                 match next (ctx || c) w p with
                 | Some (w', p') => Some (w', Group c err (done ++ p' :: ps) k)
                 | None => first (done ++ [p]) ps
                 end
             end
         end) [] ps
  end.

Lemma next_Owner ctx w l p k s :
  next ctx w (Owner l p k) = Some s ->
  (exists e, p = Ret e /\ s = (set_once l (Some e) w, k e)) \/ exists w' p', next ctx w p = Some (w', p') /\ s = (w', Owner l p' k).
Proof.
  intros Hn. assert ((exists e, p = Ret e /\ Some (set_once l (Some e) w, k e) = Some s) \/
    ('(w', p') ← next ctx w p; Some (w', Owner l p' k)) = Some s) as [(e & -> & [= <-])|H]
    by (destruct p; first [right; exact Hn|left; eauto]); [eauto|].
  destruct (next ctx w p) as [[w' p']|] eqn:E; [|done]. right. exists w', p'. split; [done|]. by injection H as <-.
Qed.

(** What a group does with its processes. *)
Definition next_in (c : bool) (err : error) (k : error -> proc) (ctx : bool) (w : world)
    : list proc -> list proc -> option (world * proc) :=
  fix first (done ps : list proc) :=
    match ps with
    | [] => match done with [] => Some (w, k err) | _ => None end
    | p :: ps =>
        match p with
        | Ret None => Some (w, Group c err (done ++ ps) k)
        | Ret (Some e) =>
            Some (w, Group (c || negb keep_going) (match err with None => Some e | _ => err end) (done ++ ps) k)
        | _ =>
            match next (ctx || c) w p with
            | Some (w', p') => Some (w', Group c err (done ++ p' :: ps) k)
            | None => first (done ++ [p]) ps
            end
        end
    end.

Lemma next_in_cons c err k ctx w done p ps s :
  next_in c err k ctx w done (p :: ps) = Some s ->
  (p = Ret None /\ s = (w, Group c err (done ++ ps) k)) \/
  (exists e, p = Ret (Some e) /\
    s = (w, Group (c || negb keep_going) (match err with None => Some e | _ => err end) (done ++ ps) k)) \/
  (exists w' p', next (ctx || c) w p = Some (w', p') /\ s = (w', Group c err (done ++ p' :: ps) k)) \/
  next_in c err k ctx w (done ++ [p]) ps = Some s.
Proof.
  intros Hn. assert ((exists e, p = Ret e) \/ match next (ctx || c) w p with
    | Some (w', p') => Some (w', Group c err (done ++ p' :: ps) k)
    | None => next_in c err k ctx w (done ++ [p]) ps end = Some s) as [[[e|] ->]|H]
    by (destruct p; first [right; exact Hn|left; eauto]); cbn in Hn; simplify_eq; [eauto..|].
  destruct (next (ctx || c) w p) as [[w' p']|] eqn:E; [simplify_eq|auto]. right; right; left. eauto.
Qed.

Fixpoint schedule (n : nat) (s : world * proc) : world * proc :=
  match n with
  | O => s
  | S n => match next false s.1 s.2 with Some s' => schedule n s' | None => s end
  end.

Context (Hcallback : forall l w, let '(e, G, m) := callback l w in callback_change w G m).

Lemma next_step p : forall ctx w w' p', next ctx w p = Some (w', p') -> step ctx w p w' p'.
Proof.
  induction p using proc_nested_ind; intros ctx w w' p'; cbn [next]; intros Hn.
  - done.
  - simplify_eq. constructor.
  - destruct (graph w !! l) eqn:E; simplify_eq; [apply step_ParseTarget|apply step_ParseTarget_fails]; try done; by rewrite E.
  - simplify_eq. by apply step_ParsePackage.
  - simplify_eq. constructor.
  - destruct (once w !! l) as [[e|]|] eqn:E.
    + simplify_eq. by constructor.
    + destruct ctx; simplify_eq. by constructor.
    + simplify_eq. by constructor.
  - apply next_Owner in Hn as [(e & -> & [= -> ->])|(w2 & p2 & Hn & [= -> ->])]; [apply step_owned|].
    apply step_Owner. by apply IHp.
  - destruct (Nat.ltb_spec (used w (remotely (action_target a))) (capacity (remotely (action_target a)))); [|done].
    destruct ctx; simplify_eq; by constructor.
  - destruct a as [l|l run]; [|simplify_eq; constructor].
    specialize (Hcallback l w). destruct (callback l w) as [[e G] m]. simplify_eq. by constructor.
  - change (next_in c err k ctx w [] ps = Some (w', p')) in Hn. change ps with ([] ++ ps).
    revert Hn. generalize (@nil proc) as done.
    induction H as [|p ps Hp _ IH]; intros done Hn; [destruct done; cbn in Hn; simplify_eq; constructor|].
    apply next_in_cons in Hn as [(-> & [= -> ->])|[(e & -> & [= -> ->])|[(w2 & p2 & Hn & [= -> ->])|Hn]]]; [constructor..| |].
    + apply step_Group. by apply Hp.
    + apply IH in Hn. by rewrite <- app_assoc in Hn.
Qed.

Lemma schedule_reachable n s :
  rtc (run_step keep_going should_include capacity remotely has_PreBuildFunction parse_builds) s (schedule n s).
Proof.
  revert s. induction n as [|n IH]; intros [w p]; cbn; [done|].
  destruct (next false w p) as [[w' p']|] eqn:E; [|done]. eapply rtc_l; [|apply IH]. by apply next_step.
Qed.

Lemma schedule_S n s :
  schedule (S n) s = match next false (schedule n s).1 (schedule n s).2 with Some s' => s' | None => schedule n s end.
Proof.
  revert s. induction n as [|n IH]; intros s; [done|]. cbn [schedule] in IH |- *.
  destruct (next false s.1 s.2) as [s'|] eqn:E; [apply IH|]. by rewrite E.
Qed.

(** If builds leave the graph alone, so do all steps. *)
Context (Hstatic : forall l w, (callback l w).1.2 = graph w).

Lemma next_graph p : forall ctx w w' p', next ctx w p = Some (w', p') -> graph w' = graph w.
Proof.
  induction p using proc_nested_ind; intros ctx w w' p'; cbn [next]; intros Hn; try by simplify_eq.
  - by destruct (graph w !! l); simplify_eq.
  - by destruct (once w !! l) as [[e|]|], ctx; simplify_eq.
  - apply next_Owner in Hn as [(e & -> & [= -> ->])|(w2 & p2 & Hn & [= -> ->])]; [done|by eapply IHp].
  - by destruct (used w (remotely (action_target a)) <? capacity (remotely (action_target a)))%nat, ctx; simplify_eq.
  - destruct a as [l|l run]; [|by simplify_eq].
    specialize (Hstatic l w). destruct (callback l w) as [[e G] m]. by simplify_eq.
  - change (next_in c err k ctx w [] ps = Some (w', p')) in Hn. revert Hn. generalize (@nil proc) as done.
    induction H as [|p ps Hp _ IH]; intros done Hn; [by destruct done; cbn in Hn; simplify_eq|].
    apply next_in_cons in Hn as [(-> & [= -> ->])|[(e & -> & [= -> ->])|[(w2 & p2 & Hn & [= -> ->])|Hn]]]; [done..| |].
    + by eapply Hp.
    + by eapply IH.
Qed.

Lemma schedule_graph n s : graph (schedule n s).1 = graph s.1.
Proof.
  revert s. induction n as [|n IH]; intros [w p]; [done|]. cbn [schedule].
  destruct (next false _ _) as [[w' p']|] eqn:E; [|done]. rewrite IH. by eapply next_graph.
Qed.

Lemma schedule_static n s :
  rtc (static_step keep_going should_include capacity remotely has_PreBuildFunction parse_builds) s (schedule n s).
Proof.
  revert s. induction n as [|n IH]; intros [w p]; cbn; [done|].
  destruct (next false w p) as [[w' p']|] eqn:E; [|done]. eapply rtc_l; [|apply IH]. split; [by apply next_step|].
  cbn. by rewrite (next_graph _ _ _ _ _ E).
Qed.
End scheduler.


(** ** Examples *)

Definition example_label (name : string) : BuildLabel := MkBuildLabel "p" name "".

Definition example_target (name : string) (deps : list string) : BuildLabel * BuildTarget :=
  (example_label name,
   foldl (fun t d => match AddDependency t (example_label d) with Ok t => t | _ => t end)
     (NewBuildTarget (example_label name)) deps).

Definition example_world (G : gmap BuildLabel BuildTarget) : world := MkWorld G ∅ ∅ (fun _ => 0%nat) [] [].

Lemma example_world_initial G : initial (example_world G).
Proof. by split. Defined.

(** Two targets, one of which needs the other. *)
Definition example_graph : gmap BuildLabel BuildTarget :=
  list_to_map [example_target "bin" ["lib"]; example_target "lib" []].

(** Parsing the package of [bin] builds [lib], which is in the same package. *)
Definition example_parse_builds (l s : BuildLabel) : Prop := l = example_label "bin" /\ s = example_label "lib".

Definition no_callback (l : BuildLabel) (w : world) : error * gmap BuildLabel BuildTarget * gset BuildLabel :=
  (None, graph w, modified w).

Lemma no_callback_change l w : let '(e, G, m) := no_callback l w in callback_change w G m.
Proof. split; [done|]. intros l' t Ht. split; [by eexists|]. by intros []. Qed.

Definition example_run (n : nat) : world * proc :=
  schedule false (fun _ => true) (fun _ => 1%nat) (fun _ => false) (fun _ => false) no_callback n
    (example_world example_graph,
     Run (fun _ => true) 1 false false (fun _ => false) false [example_label "bin"; example_label "lib"]).

Lemma example_run_static n :
  rtc (static_step false (fun _ => true) (fun _ => 1%nat) (fun _ => false) (fun _ => false) example_parse_builds)
    (example_world example_graph,
     Run (fun _ => true) 1 false false (fun _ => false) false [example_label "bin"; example_label "lib"])
    (example_run n).
Proof. apply schedule_static; [apply no_callback_change|done]. Qed.

Lemma example_run_reachable n :
  reachable false (fun _ => true) (fun _ => 1%nat) (fun _ => false) (fun _ => false) example_parse_builds (example_world example_graph)
    (Run (fun _ => true) 1 false false (fun _ => false) false [example_label "bin"; example_label "lib"])
    ((example_run n).1, (example_run n).2).
Proof. rewrite <- surjective_pairing. apply schedule_reachable, no_callback_change. Qed.

Lemma built_at_most_once_witness : (occurrences (BuildAction (example_label "lib")) (started (example_run 200).1) <= 1)%nat.
Proof.
  exact (built_at_most_once _ _ _ _ _ _ _ _ _ _ _ _ _ _ _ _ (example_world_initial example_graph) (example_run_reachable 200)).
Defined.

Lemma example_run_step n :
  started (example_run (S n)).1 <> started (example_run n).1 ->
  step false (fun _ => true) (fun _ => 1%nat) (fun _ => false) (fun _ => false) example_parse_builds false
    (example_run n).1 (example_run n).2 (example_run (S n)).1 (example_run (S n)).2.
Proof.
  unfold example_run. rewrite schedule_S. intros Hne.
  match goal with |- context [schedule ?a ?b ?c ?d ?e ?f n ?s] => set (s' := schedule a b c d e f n s) in * end.
  destruct (next _ _ _ _ _ _ _ s'.1 s'.2) as [[w p]|] eqn:E in Hne |- *; [|done].
  eapply next_step; [|exact E]. apply no_callback_change.
Qed.

Lemma example_run_static' n :
  rtc (static_step false (fun _ => true) (fun _ => 1%nat) (fun _ => false) (fun _ => false) example_parse_builds)
    (example_world example_graph,
     Run (fun _ => true) 1 false false (fun _ => false) false [example_label "bin"; example_label "lib"])
    ((example_run n).1, (example_run n).2).
Proof. rewrite <- surjective_pairing. apply example_run_static. Qed.

Lemma dependencies_built_first_witness :
  exists t, graph (example_run 22).1 !! example_label "bin" = Some t /\
    forall d, d ∈ BuildDependencyLabels t \/ d ∈ source_labels t ->
      is_Some (graph (example_run 22).1 !! d) /\
      forall x, provided (example_run 22).1 (example_label "bin") d x -> IsAllTargets x = false ->
        forall y, rtc (needs_target (example_run 22).1) x y -> BuildAction y ∈ succeeded (example_run 22).1.
Proof.
  exact (dependencies_built_first _ _ _ _ _ _ _ _ _ _ _ _ _ _ _ _ _ _ (example_world_initial example_graph)
    (example_run_static' 22) (example_run_step 22 ltac:(vm_compute; discriminate)) ltac:(vm_compute; reflexivity)).
Defined.

Lemma example_run_end : example_run 200 = ((example_run 200).1, Ret None).
Proof.
  assert ((example_run 200).2 = Ret None) as <- by (vm_compute; reflexivity). apply surjective_pairing.
Qed.

Lemma success_means_built_witness : BuildAction (example_label "bin") ∈ succeeded (example_run 200).1.
Proof.
  apply (success_means_built false (fun _ => true) 1 false false (fun _ => 1%nat) (fun _ => false) (fun _ => false)
    (fun _ => false) example_parse_builds (example_world example_graph) false [example_label "bin"; example_label "lib"]
    (example_run 200).1 (example_label "bin") (example_label "bin")).
  - apply example_world_initial.
  - rewrite <- example_run_end. apply example_run_static.
  - apply list_elem_of_here.
  - vm_compute. reflexivity.
  - reflexivity.
Defined.

(** Packages before what is in them, [bin] before [lib]. *)
Definition example_rank (l : BuildLabel) : nat :=
  if IsAllTargets l then 2 else if decide (l = example_label "bin") then 1 else 0.

(** Two calls ask for [bin], of which nothing is known yet.  What is parsed first defines
    [lib], which is built before parsing can go on; the first call does that, and the
    second waits for it. *)
Definition parsing_world : world :=
  set_once (example_label "lib") None (set_graph (list_to_map [example_target "lib" []]) (example_world ∅)).

Definition parsing_bin : proc :=
  ParseTarget (example_label "bin") (fun e => match e with Some e => Ret (Some e) | None => GetOrSet (example_label "bin") Ret end).

Definition after_lib : error -> proc :=
  parse_on parsing_bin (fun e => match e with Some e => Ret (Some e) | None => GetOrSet (example_label "bin") Ret end).

Definition parsing_procs : proc :=
  Group false None [Owner (example_label "lib") (build_body (fun _ => true) (fun _ => false) (example_label "lib")) after_lib;
                    GetOrSet (example_label "lib") after_lib] Ret.

#[local] Abbreviation example_static :=
  (static_step false (fun _ => true) (fun _ => 1%nat) (fun _ => false) (fun _ => false) example_parse_builds).

Lemma in_first w w' p p' q :
  step false (fun _ => true) (fun _ => 1%nat) (fun _ => false) (fun _ => false) example_parse_builds false w p w' p' ->
  graph w ⊆ graph w' -> example_static (w, Group false None [p; q] Ret) (w', Group false None [p'; q] Ret).
Proof. intros Hs HG. split; [|done]. by apply (step_Group _ _ _ _ _ _ _ _ false None [] p [q]). Qed.

Lemma in_second w w' p q q' :
  step false (fun _ => true) (fun _ => 1%nat) (fun _ => false) (fun _ => false) example_parse_builds false w q w' q' ->
  graph w ⊆ graph w' -> example_static (w, Group false None [p; q] Ret) (w', Group false None [p; q'] Ret).
Proof. intros Hs HG. split; [|done]. by apply (step_Group _ _ _ _ _ _ _ _ false None [p] q []). Qed.

Lemma parsing_reached :
  rtc example_static
    (example_world ∅, Run (fun _ => true) 1 false false (fun _ => false) false [example_label "bin"; example_label "bin"])
    (parsing_world, parsing_procs).
Proof.
  set (G := list_to_map [example_target "lib" []] : gmap BuildLabel BuildTarget).
  assert (forall w, once w !! example_label "lib" = None \/ once w !! example_label "lib" = Some None -> ~ build_over w (example_label "lib")) as Hn.
  { intros w Hw [e He]. destruct Hw; congruence. }
  assert (is_Some (G !! example_label "lib")) as HG by by eexists.
  eapply rtc_l; [apply in_first; [apply step_Build|done]|].
  eapply rtc_l; [apply in_second; [apply step_Build|done]|].
  eapply rtc_l; [apply in_first; [apply (step_ParseTarget_builds _ _ _ _ _ _ _ _ _ (example_label "lib") _ G)|apply map_empty_subseteq];
    [done|apply map_empty_subseteq|done|done|apply Hn; by left]|].
  eapply rtc_l; [apply in_first; [by apply step_claim|done]|].
  eapply rtc_l; [apply in_second; [apply (step_ParseTarget_builds _ _ _ _ _ _ _ _ _ (example_label "lib") _ G)|done];
    [done|done|done|done|apply Hn; by right]|].
  apply rtc_refl.
Qed.


(** ** A dependency that is missed *)

(** [bin] depends on [one]; the post-build function of [one] makes it depend on [two] as
    well, and that of [two] on [three]. *)
Definition chain_graph : gmap BuildLabel BuildTarget :=
  list_to_map [example_target "bin" ["one"]; example_target "one" []; example_target "two" []; example_target "three" []].

Definition chain_callback (l : BuildLabel) (w : world) : error * gmap BuildLabel BuildTarget * gset BuildLabel :=
  let add (d : string) :=
    if decide (BuildAction (example_label "bin") ∈ succeeded w) then (None, graph w, modified w)
    else
      (None,
       alter (fun t => match AddMaybeExportedDependency t (example_label d) false false false false with Ok t => t | _ => t end)
         (example_label "bin") (graph w),
       {[ example_label "bin" ]} ∪ modified w) in
  if decide (l = example_label "one") then add "two"
  else if decide (l = example_label "two") then add "three"
  else (None, graph w, modified w).

Lemma chain_callback_change l w : let '(e, G, m) := chain_callback l w in callback_change w G m.
Proof.
  assert (callback_change w (graph w) (modified w)) as Hid.
  { split; [done|]. intros l' t Ht. split; [by eexists|]. by intros []. }
  assert (forall f, BuildAction (example_label "bin") ∉ succeeded w ->
    callback_change w (alter f (example_label "bin") (graph w)) ({[ example_label "bin" ]} ∪ modified w)) as Hadd.
  { intros f Hn. split; [set_solver|]. intros l' t Ht. destruct (decide (l' = example_label "bin")) as [->|Hne].
    - rewrite lookup_alter_eq, Ht. split; [by eexists|]. intros _. split; [set_solver|done].
    - rewrite lookup_alter_ne, Ht by done. split; [by eexists|]. by intros []. }
  unfold chain_callback. repeat case_decide; auto.
Qed.

Definition chain_run : world * proc :=
  schedule false (fun _ => true) (fun _ => 1%nat) (fun _ => false) (fun _ => false) chain_callback 200
    (example_world chain_graph, Run (fun _ => true) 1 false false (fun _ => false) false [example_label "bin"]).

(** After a dependency's callbacks have changed a target, [buildOne] goes through the
    target's dependencies once more, but not again after that: when building those adds
    yet another dependency, the target is built without it, and the run succeeds. *)
Theorem added_dependency_missed :
  exists w t, initial (example_world chain_graph) /\
    reachable false (fun _ => true) (fun _ => 1%nat) (fun _ => false) (fun _ => false) example_parse_builds (example_world chain_graph)
      (Run (fun _ => true) 1 false false (fun _ => false) false [example_label "bin"]) (w, Ret None) /\
    graph w !! example_label "bin" = Some t /\ example_label "three" ∈ BuildDependencyLabels t /\
    BuildAction (example_label "bin") ∈ succeeded w /\ BuildAction (example_label "three") ∉ started w.
Proof.
  assert (chain_run = (chain_run.1, Ret None)) as Hend.
  { assert (chain_run.2 = Ret None) as <- by (vm_compute; reflexivity). apply surjective_pairing. }
  assert (BuildDependencyLabels <$> graph chain_run.1 !! example_label "bin" =
    Some [example_label "one"; example_label "two"; example_label "three"]) as Hdeps by (vm_compute; reflexivity).
  apply fmap_Some in Hdeps as (t & Ht & Hdeps).
  exists chain_run.1, t. split_and!; [apply example_world_initial| |exact Ht| | |].
  - rewrite <- Hend. apply schedule_reachable, chain_callback_change.
  - rewrite <- Hdeps. do 2 apply list_elem_of_further. apply list_elem_of_here.
  - apply (bool_decide_unpack _). vm_compute. exact Logic.I.
  - apply (bool_decide_unpack _). vm_compute. exact Logic.I.
Qed.
