(* ===== verification/Lexer.v ===== *)
(** The lexer of the BUILD language: [src/parse/asp/lexer.go].

    The lexer reads a buffer that ends in two NUL bytes through a position that
    only moves forward.  The model keeps the part of the buffer from the current
    position on, [rest], with the position itself; reading past the end of the
    buffer is Go's index panic, [EIndex].  The line and column counters, which
    nothing reads, and the file name are left out.  A character is a byte;
    [ident_rune] stands for the Unicode tables of letters and digits beyond
    ASCII. *)
From S2P Require Import Prelude GoStrings.
From Stdlib Require Import Ascii.

#[local] Open Scope Z_scope.

(** ** Tokens *)

Definition EOF : Z := -1.
Definition Ident : Z := -2.
Definition Int : Z := -3.
Definition TString : Z := -4.
Definition LexOperator : Z := -5.
Definition EOL : Z := -6.
Definition Unindent : Z := -7.

(** [Type] is one of the above or the code of a literal character. *)
Record Token := MkToken { tok_Type : Z; tok_Value : string; tok_Pos : Z }.

Definition EndPos (tok : Token) : Z := tok_Pos tok + Z.of_nat (String.length (tok_Value tok)).

Definition code (c : ascii) : Z := Z.of_N (N_of_ascii c).

Definition nul : ascii := "000"%char.
Definition tab : ascii := "009"%char.
Definition newline : ascii := "010"%char.
Definition carriage_return : ascii := "013"%char.
Definition double_quote : ascii := "034"%char.
Definition single_quote : ascii := "039"%char.
Definition backslash : ascii := "092"%char.

Definition char_in (c : ascii) (chars : string) : bool := contains_byte c chars.
Definition is_quote (c : ascii) : bool := Ascii.eqb c double_quote || Ascii.eqb c single_quote.
Definition is_digit (c : ascii) : bool := (48 <=? code c) && (code c <=? 57).
Definition is_alpha (c : ascii) : bool :=
  ((97 <=? code c) && (code c <=? 122)) || ((65 <=? code c) && (code c <=? 90)).
Definition char_str (c : ascii) : string := String c "".
Definition snoc (s : string) (c : ascii) : string := s +:+ char_str c.

(** A position in the buffer: what is left to read, and the offset. *)
Definition cursor := (string * Z)%type.

Fixpoint stripSpaces (s : string) (p : Z) : res cursor :=
  match s with
  | "" => Err EIndex
  | String c s' => if Ascii.eqb c " " then stripSpaces s' (p + 1) else Ok (s, p)
  end.

(** [consumeInteger], from the digits on. *)
Fixpoint consume_digits (value : string) (s : string) (p : Z) : res (string * cursor) :=
  match s with
  | "" => Err EIndex
  | String c s' =>
      if is_digit c then consume_digits (snoc value c) s' (p + 1) else Ok (value, (s, p))
  end.

Definition consumeInteger (initial : ascii) (pos : Z) (c : cursor) : res (Token * cursor) :=
  '(value, c) ← consume_digits (char_str initial) c.1 c.2;
  Ok (MkToken Int value pos, c).

(** [consumeString]: [value] starts with the opening quote, normalised. *)
Definition string_token (pos : Z) (fString : bool) (value : string) : Token :=
  let value := snoc value double_quote in
  MkToken TString (if fString then String "f" value else value) pos.

Fixpoint consumeString (quote : ascii) (pos : Z) (multiline raw fString escaped : bool)
    (value s : string) (p : Z) : res (Token * cursor) :=
  match s with
  | "" => Err EIndex
  | String next s =>
      let p := p + 1 in
      if escaped then
        let value :=
          if Ascii.eqb next "n" then snoc value newline
          else if Ascii.eqb next "t" then snoc value tab
          else if Ascii.eqb next newline && multiline then value
          else if Ascii.eqb next backslash || is_quote next then snoc value next
          else snoc (snoc value backslash) next in
        consumeString quote pos multiline raw fString false value s p
      else if Ascii.eqb next quote then
        if negb multiline then Ok (string_token pos fString value, (s, p))
        else
          match s with
          | "" => Err EIndex
          | String q1 s1 =>
              if Ascii.eqb q1 quote then
                match s1 with
                | "" => Err EIndex
                | String q2 s2 =>
                    if Ascii.eqb q2 quote then Ok (string_token pos fString value, (s2, p + 2))
                    else consumeString quote pos multiline raw fString false (snoc value next) s p
                end
              else consumeString quote pos multiline raw fString false (snoc value next) s p
          end
      else if Ascii.eqb next newline && multiline then
        consumeString quote pos multiline raw fString false (snoc value next) s p
      else if Ascii.eqb next newline || Ascii.eqb next nul then
        Err (EFail pos "Unterminated string literal")
      else if Ascii.eqb next backslash && negb raw then
        consumeString quote pos multiline raw fString true value s p
      else consumeString quote pos multiline raw fString false (snoc value next) s p
  end.

Definition consumePossiblyTripleQuotedString (quote : ascii) (pos : Z) (raw fString : bool)
    (c : cursor) : res (Token * cursor) :=
  let start := char_str double_quote in
  match c.1 with
  | "" => Err EIndex
  | String q1 s1 =>
      if Ascii.eqb q1 quote then
        match s1 with
        | "" => Err EIndex
        | String q2 s2 =>
            if Ascii.eqb q2 quote
            then consumeString quote pos true raw fString false start s2 (c.2 + 2)
            else consumeString quote pos false raw fString false start c.1 c.2
        end
      else consumeString quote pos false raw fString false start c.1 c.2
  end.

(** [utf8.DecodeRune] on a byte of 0x80 or above: the rune and how many bytes it
    takes; an invalid encoding is one byte long and gives the replacement
    character. *)
Definition cont_byte (lo hi : Z) (s : string) : option (Z * string) :=
  match s with
  | String c s => if (lo <=? code c) && (code c <=? hi) then Some (code c mod 64, s) else None
  | "" => None
  end.

Definition rune_error : Z := 65533.

Definition DecodeRune (s : string) : Z * nat :=
  match s with
  | "" => (rune_error, 0%nat)
  | String c0 s =>
      let b0 := code c0 in
      let decoded :=
        if (194 <=? b0) && (b0 <=? 223) then
          '(b1, _) ← cont_byte 128 191 s; Some (b0 mod 32 * 64 + b1, 2%nat)
        else if (224 <=? b0) && (b0 <=? 239) then
          '(b1, s) ← cont_byte (if b0 =? 224 then 160 else 128) (if b0 =? 237 then 159 else 191) s;
          '(b2, _) ← cont_byte 128 191 s;
          Some (b0 mod 16 * 4096 + b1 * 64 + b2, 3%nat)
        else if (240 <=? b0) && (b0 <=? 244) then
          '(b1, s) ← cont_byte (if b0 =? 240 then 144 else 128) (if b0 =? 244 then 143 else 191) s;
          '(b2, s) ← cont_byte 128 191 s;
          '(b3, _) ← cont_byte 128 191 s;
          Some (b0 mod 8 * 262144 + b1 * 4096 + b2 * 64 + b3, 4%nat)
        else None in
      default (rune_error, 1%nat) decoded
  end.

(** The rune of [n] bytes at the head of [s], encoded again: an invalid byte becomes
    the replacement character. *)
Definition rune_text (n : nat) (s : string) : string :=
  if (n =? 1)%nat then String "239" (String "191" (char_str "189")) else str_take n s.

Section lexer.
(** [unicode.IsLetter(c) || unicode.IsDigit(c)]. *)
Context (ident_rune : Z -> bool).

(** [consumeIdent] *)
Fixpoint consumeIdent (fuel : nat) (pos : Z) (value s : string) (p : Z) : res (Token * cursor) :=
  match fuel with
  | O => NoFuel
  | S fuel =>
      match s with
      | "" => Err EIndex
      | String c s' =>
          if 128 <=? code c then
            let '(r, n) := DecodeRune s in
            if ident_rune r then
              consumeIdent fuel pos (value +:+ rune_text n s) (str_drop n s) (p + Z.of_nat n)
            else Err (EFail pos ("Illegal Unicode identifier " +:+ rune_text n s))
          else if Ascii.eqb c " " then Ok (MkToken Ident value pos, (s', p + 1))
          else if Ascii.eqb c "_" || is_alpha c || is_digit c then
            consumeIdent fuel pos (snoc value c) s' (p + 1)
          else Ok (MkToken Ident value pos, (s, p))
      end
  end.

(** ** The lexer *)

Record lex := MkLex {
  rest : string;
  pos : Z;
  indent : Z;
  next : Token;
  braces : Z;
  unindents : Z;
  (** the last of the slice first *)
  indents : list Z;
  lastEOL : bool;
}.

Definition move (l : lex) (c : cursor) : lex :=
  MkLex c.1 c.2 (indent l) (next l) (braces l) (unindents l) (indents l) (lastEOL l).

Definition set_braces (l : lex) (n : Z) : lex :=
  MkLex (rest l) (pos l) (indent l) (next l) n (unindents l) (indents l) (lastEOL l).

Definition set_indent (l : lex) (n : Z) (unindents : Z) (indents : list Z) : lex :=
  MkLex (rest l) (pos l) n (next l) (braces l) unindents indents (lastEOL l).

(** Popping the indents above [n], counting them. *)
Fixpoint pop_indents (n : Z) (unindents : Z) (indents : list Z) : res (Z * list Z) :=
  match indents with
  | [] => Err EIndex
  | top :: below => if n <? top then pop_indents n (unindents + 1) below else Ok (unindents, indents)
  end.

Fixpoint count_spaces (n : Z) (s : string) (p : Z) : res (Z * cursor) :=
  match s with
  | "" => Err EIndex
  | String c s' => if Ascii.eqb c " " then count_spaces (n + 1) s' (p + 1) else Ok (n, (s, p))
  end.

Definition first_byte (s : string) : res ascii :=
  match s with "" => Err EIndex | String c _ => Ok c end.

(** The end of a line, up to the point where a token comes out or not. *)
Definition end_of_line (l : lex) (p : Z) : res (option Token * lex) :=
  '(n, c) ← count_spaces 0 (rest l) (pos l);
  let l := move l c in
  b ← first_byte (rest l);
  if Ascii.eqb b newline then Ok (None, l)
  else
    let lastIndent := indent l in
    let ind := if braces l =? 0 then n else indent l in
    '(p, l) ←
      if (ind <? lastIndent) && (braces l =? 0) then
        '(k, below) ← pop_indents ind (unindents l) (indents l);
        match below with
        | top :: _ =>
            if ind =? top then Ok (p + 1, set_indent l ind k below)
            else Err (EFail (p + 1) "Unexpected indent")
        | [] => Err EIndex
        end
      else if negb (lastIndent =? ind) then Ok (p, set_indent l ind (unindents l) (ind :: indents l))
      else Ok (p, set_indent l ind (unindents l) (indents l));
    if (braces l =? 0) && negb (lastEOL l) then Ok (Some (MkToken EOL "" p), l) else Ok (None, l).

(** A comment, up to the end of the line or the file. *)
Fixpoint skip_comment (s : string) (p : Z) : res cursor :=
  match s with
  | "" => Err EIndex
  | String c s' =>
      if Ascii.eqb c newline || Ascii.eqb c nul then Ok (s, p) else skip_comment s' (p + 1)
  end.

(** A one-byte token, or with the byte [follow] after it an operator. *)
Definition maybe_operator (l : lex) (c follow : ascii) (p : Z) : res (Token * lex) :=
  match rest l with
  | "" => Err EIndex
  | String b s =>
      if Ascii.eqb b follow
      then Ok (MkToken LexOperator (String c (char_str b)) p, move l (s, pos l + 1))
      else Ok (MkToken (code c) (char_str c) p, l)
  end.

Definition with_cursor (l : lex) (r : res (Token * cursor)) : res (Token * lex) :=
  '(tok, c) ← r; Ok (tok, move l c).

(** [nextToken]: it calls itself after what is not a token - a carriage return, a
    comment, a line end that does not count - having read at least one byte. *)
Fixpoint nextToken (fuel : nat) (l : lex) : res (Token * lex) :=
  match fuel with
  | O => NoFuel
  | S fuel =>
      c ← stripSpaces (rest l) (pos l);
      let l := move l c in
      let p := pos l in
      if 0 <? unindents l then
        Ok (MkToken Unindent "" p, set_indent l (indent l) (unindents l - 1) (indents l))
      else
        match rest l with
        | "" => Err EIndex
        | String next s =>
            quoted ← (if Ascii.eqb next "r" || Ascii.eqb next "f"
                      then b ← first_byte s; Ok (is_quote b) else Ok false);
            if (quoted : bool) then
              match s with
              | "" => Err EIndex
              | String q s' =>
                  with_cursor l (consumePossiblyTripleQuotedString q p (Ascii.eqb next "r")
                    (Ascii.eqb next "f") (s', p + 2))
              end
            else if is_alpha next || Ascii.eqb next "_" || (128 <=? code next) then
              with_cursor l (consumeIdent (S (String.length (rest l))) p "" (rest l) p)
            else
              let l := move l (s, p + 1) in
              if Ascii.eqb next nul then Ok (MkToken EOF "" p, l)
              else if Ascii.eqb next carriage_return then nextToken fuel l
              else if Ascii.eqb next newline then
                '(tok, l) ← end_of_line l p;
                match tok with Some tok => Ok (tok, l) | None => nextToken fuel l end
              else if is_digit next then
                b ← (if Ascii.eqb next "0" then first_byte s else Ok next);
                with_cursor l (consumeInteger next p
                  (if Ascii.eqb next "0" && Ascii.eqb b "o" then (str_drop 1 s, p + 2) else (s, p + 1)))
              else if is_quote next then
                with_cursor l (consumePossiblyTripleQuotedString next p false false (s, p + 1))
              else if char_in next "([{" then
                Ok (MkToken (code next) (char_str next) p, set_braces l (braces l + 1))
              else if char_in next ")]}" then
                Ok (MkToken (code next) (char_str next) p,
                    if 0 <? braces l then set_braces l (braces l - 1) else l)
              else if char_in next "=!+<>" then maybe_operator l next "=" p
              else if char_in next ",.%*|&:" then Ok (MkToken (code next) (char_str next) p, l)
              else if Ascii.eqb next "/" then maybe_operator l next "/" p
              else if Ascii.eqb next "#" then
                c ← skip_comment s (p + 1); nextToken fuel (move l c)
              else if Ascii.eqb next "-" then
                b ← first_byte s;
                if is_digit b then with_cursor l (consumeInteger next p (s, p + 1))
                else Ok (MkToken (code next) (char_str next) p, l)
              else if Ascii.eqb next tab then
                Err (EFail p "Tabs are not permitted in BUILD files, use space-based indentation instead")
              else Err (EFail p (snoc "Unknown symbol " next))
        end
  end.

Definition Peek (l : lex) : Token := next l.

Definition Next (l : lex) : res (Token * lex) :=
  '(tok, l') ← nextToken (S (String.length (rest l))) l;
  Ok (next l, MkLex (rest l') (pos l') (indent l') tok (braces l') (unindents l') (indents l')
    ((tok_Type tok =? EOL) || (tok_Type tok =? Unindent))).

(** [AssignFollows] looks past the spaces, and leaves them read. *)
Definition AssignFollows (l : lex) : res (bool * lex) :=
  c ← stripSpaces (rest l) (pos l);
  let l := move l c in
  match rest l with
  | "" => Err EIndex
  | String b s =>
      if Ascii.eqb b "=" then b2 ← first_byte s; Ok (negb (Ascii.eqb b2 "="), l)
      else Ok (false, l)
  end.

(** The buffer for an input. *)
Definition ends_in_newline (b : string) : bool :=
  (String.length b =? 0)%nat || has_suffix b (char_str newline).

Definition terminator : string := String nul (char_str nul).

Definition buffer (b : string) : string :=
  (if ends_in_newline b then b else snoc b newline) +:+ terminator.

Definition zero_token : Token := MkToken 0 "" 0.

(** Discarding the leading line ends. *)
Fixpoint skip_EOL (fuel : nat) (l : lex) : res lex :=
  match fuel with
  | O => NoFuel
  | S fuel =>
      if tok_Type (Peek l) =? EOL then '(_, l) ← Next l; skip_EOL fuel l else Ok l
  end.

Definition newLexer (b : string) : res lex :=
  '(_, l) ← Next (MkLex (buffer b) 0 0 zero_token 0 0 [0] false);
  skip_EOL (8 + 2 * String.length b) l.
(** All the tokens of a lexer up to the end of the file, which is how the parser
    reads it. *)
Fixpoint lex_all (fuel : nat) (l : lex) : res (list Token) :=
  match fuel with
  | O => NoFuel
  | S fuel =>
      if tok_Type (Peek l) =? EOF then Ok []
      else '(tok, l) ← Next l; toks ← lex_all fuel l; Ok (tok :: toks)
  end.

Definition lex_file (b : string) : res (list Token) :=
  l ← newLexer b; lex_all (8 + 2 * String.length b) l.
End lexer.

(** ** The lexer never reads past its buffer *)

Definition len (s : string) : Z := Z.of_nat (String.length s).

Lemma len_cons c s : len (String c s) = len s + 1.
Proof. unfold len. cbn [String.length]. lia. Qed.

Lemma len_nonneg s : 0 <= len s.
Proof. unfold len. lia. Qed.

(** What is left to read before the end of the file has been seen: the terminator
    alone, or at least the last line end and the terminator. *)
Definition last_line : string := String newline terminator.
Definition line_ok (s : string) : Prop := exists r, s = r +:+ last_line.
Definition tail_ok (s : string) : Prop := s = terminator \/ line_ok s.

Lemma line_ok_cons c s :
  line_ok (String c s) -> (c = newline /\ s = terminator) \/ line_ok s.
Proof.
  intros [[|c' r] H]; cbn in H; injection H as -> ->; [by left|]. right. by exists r.
Qed.

Lemma tail_ok_cons c s :
  tail_ok (String c s) -> (c = nul /\ s = char_str nul) \/ (c = newline /\ s = terminator) \/ line_ok s.
Proof.
  intros [[= -> ->]|H]; [by left|]. right. by apply line_ok_cons.
Qed.

Lemma line_ok_next c s : tail_ok (String c s) -> c <> nul -> c <> newline -> line_ok s.
Proof. intros [[]|[[]|]]%tail_ok_cons; done. Qed.

Lemma tail_ok_next c s : tail_ok (String c s) -> c <> nul -> tail_ok s.
Proof. intros [[]|[[_ ->]|]]%tail_ok_cons ?; [done|by left|by right]. Qed.

Lemma line_ok_tail c s : line_ok (String c s) -> tail_ok s.
Proof. intros [[_ ->]|]%line_ok_cons; [by left|by right]. Qed.

Lemma line_ok_tail_ok s : line_ok s -> tail_ok s.
Proof. by right. Qed.

Lemma tail_ok_nonempty s : tail_ok s -> exists c s', s = String c s'.
Proof. intros [->|[[|c r] ->]]; cbn; eauto. Qed.

#[export] Hint Resolve line_ok_tail_ok line_ok_tail : lexer.

(** [c'] is further on in the buffer than [c]. *)
Definition adv (c c' : cursor) : Prop := c'.2 + len c'.1 = c.2 + len c.1 /\ len c'.1 <= len c.1.

Lemma adv_refl c : adv c c.
Proof. unfold adv. lia. Qed.

Lemma adv_trans c1 c2 c3 : adv c1 c2 -> adv c2 c3 -> adv c1 c3.
Proof. unfold adv. lia. Qed.

Lemma adv_cons ch s p : adv (String ch s, p) (s, p + 1).
Proof. unfold adv. cbn. rewrite len_cons. lia. Qed.

Lemma adv_step ch s p c : adv (s, p + 1) c -> adv (String ch s, p) c.
Proof. apply adv_trans, adv_cons. Qed.

#[export] Hint Resolve adv_refl adv_cons adv_step : lexer.

Definition at_ok (c c' : cursor) : Prop := tail_ok c'.1 /\ adv c c'.

Lemma at_ok_step ch s p c : at_ok (s, p + 1) c -> at_ok (String ch s, p) c.
Proof. intros [? ?]. split; [done|]. by apply adv_step. Qed.

Ltac byte_neq := let H := fresh in intros H; subst; done.

Lemma stripSpaces_good s p :
  tail_ok s -> good (fun c => at_ok (s, p) c /\ forall ch s', c.1 = String ch s' -> ch <> " "%char) (stripSpaces s p).
Proof.
  revert p. induction s as [|ch s IH]; intros p Hs; cbn.
  { by apply tail_ok_nonempty in Hs as (? & ? & ?). }
  destruct (Ascii.eqb_spec ch " ") as [->|Hne].
  - eapply good_mono; [apply IH; by eapply tail_ok_next|].
    intros c [Hc Hn]. split; [by apply at_ok_step|done].
  - cbn. split; [split; [done|apply adv_refl]|]. by intros ? ? [= <- <-].
Qed.

Lemma count_spaces_good n s p :
  tail_ok s -> 0 <= n -> good (fun '(k, c) => 0 <= k /\ at_ok (s, p) c) (count_spaces n s p).
Proof.
  revert n p. induction s as [|ch s IH]; intros n p Hs Hn; cbn.
  { by apply tail_ok_nonempty in Hs as (? & ? & ?). }
  destruct (Ascii.eqb_spec ch " ") as [->|Hne].
  - eapply good_mono; [apply IH; [by eapply tail_ok_next|lia]|].
    intros [k c] [? Hc]. split; [done|by apply at_ok_step].
  - cbn. split; [done|]. split; [done|apply adv_refl].
Qed.

Lemma is_digit_not c : is_digit c = true -> c <> nul /\ c <> newline.
Proof. intros H. split; intros ->; done. Qed.

Lemma consume_digits_good v s p :
  tail_ok s -> good (fun '(_, c) => at_ok (s, p) c) (consume_digits v s p).
Proof.
  revert v p. induction s as [|ch s IH]; intros v p Hs; cbn.
  { by apply tail_ok_nonempty in Hs as (? & ? & ?). }
  destruct (is_digit ch) eqn:Hd.
  - apply is_digit_not in Hd as [? ?]. eapply good_mono; [apply IH; by eapply tail_ok_next|].
    intros [? c] Hc. by apply at_ok_step.
  - cbn. split; [done|apply adv_refl].
Qed.

Lemma consumeInteger_good ch p s q :
  tail_ok s -> good (fun '(tok, c) => tok_Type tok = Int /\ tok_Pos tok = p /\ at_ok (s, q) c)
    (consumeInteger ch p (s, q)).
Proof.
  intros Hs. unfold consumeInteger. eapply good_bind; [by apply consume_digits_good|].
  intros [v c] Hc. by cbn.
Qed.

Lemma skip_comment_good s p : tail_ok s -> good (at_ok (s, p)) (skip_comment s p).
Proof.
  revert p. induction s as [|ch s IH]; intros p Hs; cbn.
  { by apply tail_ok_nonempty in Hs as (? & ? & ?). }
  destruct (Ascii.eqb_spec ch newline); [split; [done|apply adv_refl]|].
  destruct (Ascii.eqb_spec ch nul); [split; [done|apply adv_refl]|].
  eapply good_mono; [apply IH; by eapply tail_ok_next|]. intros c. apply at_ok_step.
Qed.

(** ** Strings *)

Definition string_result (p : Z) (c : cursor) (r : Token * cursor) : Prop :=
  tok_Type r.1 = TString /\ tok_Pos r.1 = p /\ at_ok c r.2.

Lemma string_result_step p ch s q r : string_result p (s, q + 1) r -> string_result p (String ch s, q) r.
Proof. intros (? & ? & ?). split_and!; [done..|]. by apply at_ok_step. Qed.

Lemma is_quote_not q : is_quote q = true -> q <> nul /\ q <> newline.
Proof. intros H. split; intros ->; done. Qed.

Lemma consumeString_good quote pos multi raw f esc v s p :
  is_quote quote = true -> (if esc : bool then line_ok s else tail_ok s) ->
  good (string_result pos (s, p)) (consumeString quote pos multi raw f esc v s p).
Proof.
  intros Hq. apply is_quote_not in Hq as [Hq0 Hqn]. revert esc v p.
  induction s as [|ch s IH]; intros esc v p Hs; cbn [consumeString].
  { destruct esc; [apply line_ok_tail_ok in Hs|]; by apply tail_ok_nonempty in Hs as (? & ? & ?). }
  assert (forall esc' v', (if esc' : bool then line_ok s else tail_ok s) ->
    good (string_result pos (String ch s, p)) (consumeString quote pos multi raw f esc' v' s (p + 1))) as Hrec.
  { intros esc' v' Hs'. eapply good_mono; [by apply IH|]. intros r. apply string_result_step. }
  destruct esc; [apply Hrec; by apply line_ok_tail in Hs|].
  destruct (Ascii.eqb_spec ch quote) as [->|Hnq].
  - assert (line_ok s) as Hl by (by eapply line_ok_next). destruct multi; cbn [negb].
    + destruct s as [|q1 s1]; [by apply line_ok_tail_ok, tail_ok_nonempty in Hl as (? & ? & ?)|].
      destruct (Ascii.eqb_spec q1 quote) as [->|]; [|apply Hrec; by right].
      assert (line_ok s1) as Hl1 by (eapply line_ok_next; [right; exact Hl|done..]).
      destruct s1 as [|q2 s2]; [by apply line_ok_tail_ok, tail_ok_nonempty in Hl1 as (? & ? & ?)|].
      destruct (Ascii.eqb_spec q2 quote) as [->|]; [|apply Hrec; by right].
      cbn. split_and!; [by destruct f|by destruct f|]. split; [by eapply line_ok_tail|].
      unfold adv. cbn. rewrite !len_cons. lia.
    + cbn. split_and!; [by destruct f|by destruct f|]. split; [by right|apply adv_cons].
  - destruct (Ascii.eqb_spec ch newline) as [->|Hnn]; cbn [andb orb].
    + destruct multi; cbn; [|done]. apply Hrec. by eapply tail_ok_next.
    + destruct (Ascii.eqb_spec ch nul) as [->|H0]; [done|].
      assert (line_ok s) as Hl by (by eapply line_ok_next).
      destruct (Ascii.eqb ch backslash && negb raw); apply Hrec; [done|by right].
Qed.

Lemma consumePossibly_good quote pos raw f s p :
  is_quote quote = true -> line_ok s ->
  good (string_result pos (s, p)) (consumePossiblyTripleQuotedString quote pos raw f (s, p)).
Proof.
  intros Hq Hs. pose proof (is_quote_not _ Hq) as [Hq0 Hqn]. unfold consumePossiblyTripleQuotedString. cbn [fst snd].
  assert (good (string_result pos (s, p)) (consumeString quote pos false raw f false (char_str double_quote) s p))
    as H1 by (apply consumeString_good; [done|by right]).
  destruct s as [|q1 s1]; [by apply line_ok_tail_ok, tail_ok_nonempty in Hs as (? & ? & ?)|].
  destruct (Ascii.eqb_spec q1 quote) as [->|]; [|done].
  assert (line_ok s1) as Hl1 by (eapply line_ok_next; [right; exact Hs|done..]).
  destruct s1 as [|q2 s2]; [by apply line_ok_tail_ok, tail_ok_nonempty in Hl1 as (? & ? & ?)|].
  destruct (Ascii.eqb_spec q2 quote) as [->|]; [|done].
  eapply good_mono; [apply consumeString_good; [done|by eapply line_ok_tail]|].
  intros r (? & ? & ? & Ha). split_and!; [done..|]. split; [done|]. unfold adv in *. cbn in *.
  rewrite !len_cons. lia.
Qed.

(** ** Identifiers *)

Fixpoint high_bytes (n : nat) (s : string) : Prop :=
  match n, s with
  | O, _ => True
  | S n, String c s => 128 <= code c /\ high_bytes n s
  | S _, "" => False
  end.

Lemma high_not c : 128 <= code c -> c <> nul /\ c <> newline.
Proof. intros H. split; intros ->; by vm_compute in H. Qed.

Lemma high_bytes_drop n s :
  high_bytes (S n) s -> tail_ok s -> line_ok (str_drop (S n) s) /\ len (str_drop (S n) s) = len s - Z.of_nat (S n).
Proof.
  revert s. induction n as [|n IH]; intros [|c s]; cbn [high_bytes]; try done; intros [Hc Hh] Hs.
  - apply high_not in Hc as [? ?]. cbn [str_drop]. rewrite len_cons.
    destruct s; (split; [by eapply line_ok_next|cbn; lia]).
  - apply high_not in Hc as [? ?]. destruct (IH s) as [H1 H2]; [done|by eapply tail_ok_next|].
    change (str_drop (S (S n)) (String c s)) with (str_drop (S n) s). rewrite len_cons. split; [done|lia].
Qed.

Lemma cont_byte_high lo hi s v s' :
  128 <= lo -> cont_byte lo hi s = Some (v, s') -> exists c, s = String c s' /\ 128 <= code c.
Proof.
  intros Hlo. unfold cont_byte. destruct s as [|c s]; [done|]. destruct (_ && _) eqn:Hc; [|done].
  intros [= _ <-]. exists c. split; [done|]. lia.
Qed.

Lemma DecodeRune_high c s r n :
  128 <= code c -> DecodeRune (String c s) = (r, n) -> exists n', n = S n' /\ high_bytes n (String c s).
Proof.
  intros Hc. unfold DecodeRune.
  assert (forall b, 128 <= (if b : bool then 160 else 128)) as H1 by (intros []; lia).
  assert (forall b, 128 <= (if b : bool then 144 else 128)) as H2 by (intros []; lia).
  repeat (case_match; cbn -[high_bytes cont_byte]).
  all: repeat match goal with
    | |- context [cont_byte ?lo ?hi ?s] =>
        destruct (cont_byte lo hi s) as [[? ?]|] eqn:?; cbn -[high_bytes cont_byte]
    | H : cont_byte _ _ _ = Some _ |- _ =>
        apply cont_byte_high in H as (? & -> & ?); [|first [done|apply H1|apply H2]]
    end.
  all: intros [= <- <-]; eexists; split; [reflexivity|]; cbn; tauto.
Qed.

Section lexer_proofs.
Context (ident_rune : Z -> bool).

Lemma consumeIdent_good fuel p v s q :
  tail_ok s -> (String.length s < fuel)%nat ->
  good (fun '(tok, c) => tok_Type tok = Ident /\ tok_Pos tok = p /\ at_ok (s, q) c)
    (consumeIdent ident_rune fuel p v s q).
Proof.
  revert v s q. induction fuel as [|fuel IH]; intros v s q Hs Hfuel; [lia|]. cbn [consumeIdent].
  destruct s as [|ch s]; [by apply tail_ok_nonempty in Hs as (? & ? & ?)|].
  destruct (128 <=? code ch) eqn:Hh.
  - destruct (DecodeRune (String ch s)) as [r n] eqn:Hd.
    apply DecodeRune_high in Hd as (n' & -> & Hhb); [|lia].
    destruct (ident_rune r); [|done]. destruct (high_bytes_drop n' _ Hhb Hs) as [Hl Hlen].
    eapply good_mono; [apply IH; [by right|unfold len in Hlen; lia]|].
    intros [tok c] (? & ? & ? & Ha). split_and!; [done..|]. split; [done|].
    unfold adv in *. cbn [fst snd] in *. lia.
  - destruct (Ascii.eqb_spec ch " ") as [->|].
    { cbn. split_and!; [done..|]. split; [by eapply tail_ok_next|]. apply adv_cons. }
    destruct (Ascii.eqb ch "_" || is_alpha ch || is_digit ch) eqn:Hid.
    + eapply good_mono; [apply IH; [|cbn in Hfuel; lia]|].
      { eapply tail_ok_next; [done|]. intros ->. done. }
      intros [tok c] (? & ? & ?). split_and!; [done..|]. by apply at_ok_step.
    + cbn. split_and!; [done..|]. split; [done|apply adv_refl].
Qed.

(** Reading the first byte of an identifier gets the lexer further. *)
Lemma consumeIdent_advances fuel p v ch s q tok c :
  tail_ok (String ch s) -> is_alpha ch || Ascii.eqb ch "_" || (128 <=? code ch) = true ->
  consumeIdent ident_rune (S fuel) p v (String ch s) q = Ok (tok, c) ->
  (String.length s < fuel)%nat -> len c.1 < len (String ch s).
Proof.
  intros Hs Hch. cbn [consumeIdent]. destruct (128 <=? code ch) eqn:Hh.
  - destruct (DecodeRune (String ch s)) as [r n] eqn:Hd.
    apply DecodeRune_high in Hd as (n' & -> & Hhb); [|lia].
    destruct (ident_rune r); [|done]. destruct (high_bytes_drop n' _ Hhb Hs) as [Hl Hlen].
    intros Hc Hfuel. set (s' := str_drop (S n') (String ch s)) in *.
    pose proof (consumeIdent_good fuel p (v +:+ rune_text (S n') (String ch s)) s' (q + Z.of_nat (S n'))) as Hg.
    rewrite Hc in Hg. destruct Hg as (_ & _ & _ & [_ Hle]); [by right|unfold len in Hlen; cbn [String.length] in Hlen; lia|].
    cbn [fst] in *. rewrite len_cons in *. lia.
  - rewrite orb_false_r in Hch. destruct (Ascii.eqb_spec ch " ") as [->|]; [done|].
    rewrite (orb_comm (Ascii.eqb ch "_")), Hch. cbn [orb]. intros Hc Hfuel.
    pose proof (consumeIdent_good fuel p (snoc v ch) s (q + 1)) as Hg. rewrite Hc in Hg.
    destruct Hg as (_ & _ & _ & [_ Hle]); [|done|].
    { eapply tail_ok_next; [done|]. intros ->. done. }
    cbn [fst] in *. rewrite len_cons. lia.
Qed.

(** ** The next token *)

Record lex_inv (l : lex) : Prop := {
  li_unindents : 0 <= unindents l;
  li_indent : 0 <= indent l;
  li_bottom : last (indents l) = Some 0;
}.

(** Each token makes this smaller: a byte read can open one indentation level, and
    closing a level makes one pending unindent. *)
Definition measure (l : lex) : Z := 2 * len (rest l) + unindents l + Z.of_nat (length (indents l)).

Definition cur (l : lex) : cursor := (rest l, pos l).

Lemma pop_indents_good n u ins :
  0 <= n -> last ins = Some 0 ->
  good (fun '(k, below) => u <= k /\ last below = Some 0 /\
    k + Z.of_nat (length below) = u + Z.of_nat (length ins)) (pop_indents n u ins).
Proof.
  intros Hn. revert u. induction ins as [|top ins IH]; intros u Hl; [done|]. cbn [pop_indents].
  destruct (n <? top) eqn:Ht; [|cbn; split_and!; [lia|done|lia]].
  destruct ins as [|b ins]; [injection Hl as ->; lia|].
  eapply good_mono; [by apply IH|]. intros [k below]. cbn [length]. intros (? & ? & ?). split_and!; [lia|done|lia].
Qed.

Definition line_post (l : lex) (p : Z) (r : option Token * lex) : Prop :=
  lex_inv r.2 /\ at_ok (cur l) (cur r.2) /\ measure r.2 <= measure l + 1 /\
  forall t, r.1 = Some t -> tok_Type t = EOL /\ p <= tok_Pos t <= p + 1.

Lemma last_cons_bottom (x : Z) ins : last ins = Some 0 -> last (x :: ins) = Some 0.
Proof. intros H. rewrite last_cons, H. done. Qed.

Lemma end_of_line_good l p :
  lex_inv l -> tail_ok (rest l) -> good (line_post l p) (end_of_line l p).
Proof.
  intros Hinv Hr. unfold end_of_line. eapply good_bind; [by apply count_spaces_good|].
  intros [n c] [Hn Hc]. destruct Hc as [Ht Ha]. cbn [rest move].
  destruct (tail_ok_nonempty _ Ht) as (ch & s & Hs). rewrite Hs at 1. cbn [first_byte]. rewrite bind_Ok_l.
  assert (forall l', rest l' = c.1 -> pos l' = c.2 -> at_ok (cur l) (cur l')) as Hat.
  { intros l' H1 H2. unfold at_ok, cur, adv in *. cbn in *. rewrite H1, H2. split; [done|]. lia. }
  assert (2 * len c.1 <= 2 * len (rest l)) as Hlen by (destruct Ha as [_ Ha]; cbn in Ha; lia).
  destruct Hinv as [Hu Hi Hb].
  destruct (Ascii.eqb ch newline).
  { cbn. split_and!; [by split|by apply Hat|unfold measure; cbn; lia|done]. }
  cbn [braces indent indents unindents move]. set (ind := if braces l =? 0 then n else indent l).
  assert (0 <= ind) as Hind by (unfold ind; destruct (braces l =? 0); lia).
  eapply (good_bind (fun '(p', l') => lex_inv l' /\ rest l' = c.1 /\ pos l' = c.2 /\ p <= p' <= p + 1 /\
    unindents l' + Z.of_nat (length (indents l')) <= unindents l + Z.of_nat (length (indents l)) + 1)).
  - destruct ((ind <? indent l) && (braces l =? 0)).
    + eapply good_bind; [by apply pop_indents_good|]. intros [k below] (Hk & Hlast & Hlen').
      destruct below as [|top below]; [done|]. destruct (ind =? top); [|done]. cbn -[length last].
      split; [by split; cbn; [lia|done|]|]. split_and!; [done|done|lia|lia|lia].
    + destruct (negb (indent l =? ind)); cbn -[length last].
      * split; [by split; cbn; [lia|done|apply last_cons_bottom]|]. cbn [length]. split_and!; [done|done|lia|lia|lia].
      * split; [by split|]. split_and!; [done|done|lia|lia|lia].
  - intros [p' l'] (Hinv' & H1 & H2 & Hp & Hm).
    assert (line_post l p (None, l')) as HP.
    { split_and!; [done|by apply Hat|unfold measure; cbn; rewrite H1; lia|done]. }
    destruct ((braces l' =? 0) && negb (lastEOL l')); [|done].
    destruct HP as (? & ? & ? & _). split_and!; [done..|]. intros t [= <-]. done.
Qed.

(** What is left after a token: the end of the buffer comes only after [EOF]. *)
Definition token_tail (tok : Token) (s : string) : Prop :=
  tail_ok s \/ (tok_Type tok = EOF /\ s = char_str nul).

Definition token_post (l : lex) (r : Token * lex) : Prop :=
  lex_inv r.2 /\ token_tail r.1 (rest r.2) /\ measure r.2 < measure l /\
  pos r.2 + len (rest r.2) = pos l + len (rest l) /\ pos l <= tok_Pos r.1 <= pos r.2.

(** A token that ends further on, with the bookkeeping as it was. *)
Lemma token_post_move l tok c :
  lex_inv l -> tail_ok c.1 -> c.2 + len c.1 = pos l + len (rest l) -> len c.1 < len (rest l) ->
  pos l <= tok_Pos tok <= c.2 -> token_post l (tok, move l c).
Proof.
  intros [Hu Hi Hb] Ht Ha Hlt Hp. split_and!; cbn; [by split|by left|unfold measure; cbn; lia|lia|lia|lia].
Qed.

Lemma with_cursor_good l (r : res (Token * cursor)) (P : Token * cursor -> Prop) :
  good P r -> (forall x, P x -> token_post l (x.1, move l x.2)) -> good (token_post l) (with_cursor l r).
Proof. intros Hr HP. unfold with_cursor. eapply good_bind; [exact Hr|]. intros [tok c] Hx. by apply (HP (tok, c)). Qed.

Lemma token_post_trans l l' r :
  token_post l' r -> measure l' <= measure l -> pos l <= pos l' ->
  pos l' + len (rest l') = pos l + len (rest l) -> token_post l r.
Proof. intros (? & ? & ? & ? & ?) ???. split_and!; [done|done|lia|lia|lia|lia]. Qed.

Lemma maybe_operator_good l l0 c follow p :
  lex_inv l -> line_ok (rest l) -> follow <> nul -> pos l + len (rest l) = pos l0 + len (rest l0) ->
  measure l < measure l0 -> pos l0 <= p <= pos l -> good (token_post l0) (maybe_operator l c follow p).
Proof.
  intros [Hu Hi Hb] Hl Hf Hpos Hm Hp. unfold maybe_operator.
  destruct (rest l) as [|b s] eqn:Hr; [by apply line_ok_tail_ok, tail_ok_nonempty in Hl as (? & ? & ?)|].
  destruct (Ascii.eqb_spec b follow) as [->|].
  - rewrite len_cons in Hpos. unfold measure in Hm. rewrite Hr, len_cons in Hm.
    split_and!; cbn; [by split|left; by eapply line_ok_tail|unfold measure in *; cbn; lia|lia|lia|lia].
  - split_and!; cbn; [by split|left; rewrite Hr; by right|lia|rewrite Hr; lia|lia|lia].
Qed.
(** The lexer after reading the byte [ch]. *)
Lemma after_byte l ch s :
  lex_inv l -> rest l = String ch s -> tail_ok (rest l) ->
  let l' := move l (s, pos l + 1) in
  lex_inv l' /\ pos l' + len (rest l') = pos l + len (rest l) /\ measure l' = measure l - 2 /\
  pos l <= pos l' /\ (ch <> nul -> tail_ok (rest l')) /\ (ch <> nul -> ch <> newline -> line_ok (rest l')).
Proof.
  intros [Hu Hi Hb] Hr Ht l'. rewrite Hr in *. unfold measure. cbn. rewrite Hr, len_cons.
  split_and!; [by split|lia|lia|lia|by eapply tail_ok_next|by eapply line_ok_next].
Qed.

(** What is common to the cases of the switch: the state [l'] after the byte. *)
Lemma switch_good fuel l ch s :
  (forall l1, lex_inv l1 -> tail_ok (rest l1) -> (String.length (rest l1) < fuel)%nat ->
     good (token_post l1) (nextToken ident_rune fuel l1)) ->
  lex_inv l -> rest l = String ch s -> tail_ok (rest l) -> (String.length s < fuel)%nat ->
  forall l1, lex_inv l1 -> at_ok (s, pos l + 1) (cur l1) -> measure l1 < measure l ->
  good (token_post l) (nextToken ident_rune fuel l1).
Proof.
  intros IH Hinv Hr Ht Hfuel l1 Hinv1 [Ht1 [Ha Hle]] Hm. cbn in *.
  eapply good_mono; [apply IH; [done|done|unfold len in Hle; lia]|].
  intros r Hr'. eapply token_post_trans; [exact Hr'|lia| |].
  - lia.
  - rewrite Hr, len_cons. lia.
Qed.

Lemma strip_post l0 c r :
  adv (rest l0, pos l0) c -> token_post (move l0 c) r -> token_post l0 r.
Proof.
  intros [Ha Hl] H. cbn in *. eapply token_post_trans; [exact H|unfold measure; cbn; lia|cbn; lia|cbn; lia].
Qed.

(** A string after its prefix, if any, and opening quote. *)
Lemma quoted_good l ch q raw f s p :
  lex_inv l -> is_quote q = true -> line_ok s -> p + len s = pos l + len (rest l) -> len s < len (rest l) ->
  rest l = String ch s \/ (exists c2, rest l = String ch (String c2 s)) ->
  good (token_post l) (with_cursor l (consumePossiblyTripleQuotedString q (pos l) raw f (s, p))).
Proof.
  intros Hinv Hq Hs Hp Hlt _. eapply with_cursor_good; [by apply consumePossibly_good|].
  intros [tok c] (_ & Hpos & Ht & Ha1 & Ha2). cbn [fst snd] in *.
  apply token_post_move; [done|done|lia|lia|]. rewrite Hpos. pose proof (len_nonneg c.1). lia.
Qed.

Lemma integer_good l ch s p :
  lex_inv l -> tail_ok s -> p + len s = pos l + len (rest l) -> len s < len (rest l) ->
  good (token_post l) (with_cursor l (consumeInteger ch (pos l) (s, p))).
Proof.
  intros Hinv Hs Hp Hlt. eapply with_cursor_good; [by apply consumeInteger_good|].
  intros [tok c] (_ & Hpos & Ht & Ha1 & Ha2). cbn [fst snd] in *.
  apply token_post_move; [done|done|lia|lia|]. rewrite Hpos. lia.
Qed.

Lemma ident_good l ch s :
  lex_inv l -> tail_ok (rest l) -> rest l = String ch s ->
  is_alpha ch || Ascii.eqb ch "_" || (128 <=? code ch) = true ->
  good (token_post l) (with_cursor l (consumeIdent ident_rune (S (String.length (rest l))) (pos l) "" (rest l) (pos l))).
Proof.
  intros Hinv Ht Hr Hch.
  pose proof (consumeIdent_good (S (String.length (rest l))) (pos l) "" (rest l) (pos l) Ht) as Hg.
  pose proof (consumeIdent_advances (String.length (rest l)) (pos l) "" ch s (pos l)) as Hadv.
  rewrite Hr in *. cbn [String.length] in *.
  destruct (consumeIdent ident_rune _ _ _ _ _) as [[tok c]|e|]; [|exact (Hg ltac:(lia))..].
  destruct (Hg ltac:(lia)) as (_ & Hpos & Htc & Ha1 & Ha2).
  specialize (Hadv tok c Ht Hch eq_refl ltac:(lia)). cbn [fst snd] in *.
  apply token_post_move; [done|done|by rewrite Hr|by rewrite Hr|]. rewrite Hpos. rewrite len_cons in *. lia.
Qed.

(** A token made of the one byte just read. *)
Lemma one_byte_good l ch s tok l' :
  lex_inv l -> rest l = String ch s -> tail_ok (rest l) -> tok_Pos tok = pos l ->
  (ch = nul -> tok_Type tok = EOF) ->
  rest l' = s -> pos l' = pos l + 1 -> unindents l' = unindents l -> indents l' = indents l -> lex_inv l' ->
  token_post l (tok, l').
Proof.
  intros Hinv Hr Ht Hp Heof H1 H2 H3 H4 Hinv'. split_and!; cbn; [done| | | | |].
  - unfold token_tail. rewrite H1. rewrite Hr in Ht. destruct (decide (ch = nul)) as [->|Hn].
    + apply tail_ok_cons in Ht as [[_ ->]|[[? _]|Hs]]; [right; auto|done|left; by right].
    + left. by eapply tail_ok_next.
  - unfold measure. rewrite H1, H3, H4, Hr, len_cons. lia.
  - rewrite H1, H2, Hr, len_cons. lia.
  - lia.
  - lia.
Qed.

Lemma nextToken_good fuel l :
  lex_inv l -> tail_ok (rest l) -> (String.length (rest l) < fuel)%nat ->
  good (token_post l) (nextToken ident_rune fuel l).
Proof.
  revert l. induction fuel as [|fuel IH]; intros l0 Hinv0 Ht0 Hfuel0; [lia|]. cbn [nextToken].
  eapply good_bind; [by apply stripSpaces_good|]. intros c [[Ht Ha] _].
  eapply good_mono; [|intros r; by apply strip_post]. set (l := move l0 c).
  assert (lex_inv l) as Hinv by (by destruct Hinv0). change c.1 with (rest l) in Ht.
  assert (String.length (rest l) <= fuel)%nat as Hfuel.
  { destruct Ha as [_ Ha]. unfold l, len in *. cbn in *. lia. }
  clearbody l. clear c Ha Hinv0 Ht0 Hfuel0 l0.
  destruct (0 <? unindents l) eqn:Hun.
  { destruct Hinv as [Hu Hi Hb]. cbn. split_and!; cbn; [split; cbn; [lia|done|done]|by left|unfold measure; cbn; lia|lia|lia|lia]. }
  destruct (rest l) as [|ch s] eqn:Hr; [by apply tail_ok_nonempty in Ht as (? & ? & ?)|].
  rewrite <- Hr in Ht. pose proof (after_byte l ch s Hinv Hr Ht) as (Hinv1 & Hpos1 & Hm1 & Hle1 & Htail & Hline).
  set (l1 := move l (s, pos l + 1)) in *. change (rest l1) with s in *.
  pose proof (switch_good fuel l ch s IH Hinv Hr Ht ltac:(cbn [String.length] in Hfuel; lia)) as Hrec.
  assert (pos l + 1 + len s = pos l + len (rest l)) as Hlen by (rewrite Hr, len_cons; lia).
  assert (forall tok l', tok_Pos tok = pos l -> (ch = nul -> tok_Type tok = EOF) -> rest l' = s -> pos l' = pos l + 1 ->
    unindents l' = unindents l -> indents l' = indents l -> indent l' = indent l -> good (token_post l) (Ok (tok, l'))) as Hone.
  { intros tok l' H1 H2 H3 H4 H5 H6 H7. cbn. apply (one_byte_good l ch s); try done.
    destruct Hinv as [? ? ?]. split; by rewrite ?H5, ?H6, ?H7. }
  eapply (good_bind (fun b : bool => b = true -> ch <> nul /\ ch <> newline /\ exists q s', s = String q s' /\ is_quote q = true)).
  { destruct (Ascii.eqb ch "r" || Ascii.eqb ch "f") eqn:Hrf; [|done].
    assert (ch <> nul /\ ch <> newline) as [Hn0 Hnn] by (split; intros ->; done).
    destruct (tail_ok_nonempty s (Htail Hn0)) as (q & s' & ->). cbn. eauto 10. }
  intros quoted Hquoted. destruct quoted.
  { destruct (Hquoted eq_refl) as (Hn0 & Hnn & q & s' & -> & Hq). pose proof (is_quote_not _ Hq) as [Hq0 Hqn].
    rewrite len_cons in Hlen. apply (quoted_good l ch); [done|done| |lia|rewrite Hr, !len_cons; lia|right; eauto].
    eapply line_ok_next; [right; by apply Hline|done..]. }
  clear Hquoted. destruct (is_alpha ch || Ascii.eqb ch "_" || (128 <=? code ch)) eqn:Hid.
  { rewrite <- Hr. by apply (ident_good l ch s). }
  clear Hid. destruct (Ascii.eqb_spec ch nul) as [->|Hn0]; [apply Hone; done|].
  specialize (Htail Hn0). specialize (Hline Hn0).
  assert (at_ok (s, pos l + 1) (cur l1)) as Hat by (by split; [|apply adv_refl]).
  destruct (Ascii.eqb_spec ch carriage_return) as [->|Hncr]; [apply Hrec; [done|done|lia]|].
  destruct (Ascii.eqb_spec ch newline) as [->|Hnn].
  { eapply good_bind; [by apply end_of_line_good|]. intros [[tok|] l2] (Hinv2 & [Ht2 [Ha1 Ha2]] & Hm2 & Htok); cbn in *.
    - destruct (Htok tok eq_refl) as [_ Hp]. split_and!; cbn; [done|by left|lia|lia|lia|lia].
    - apply Hrec; [done|split; [done|by split]|lia]. }
  specialize (Hline Hnn).
  assert (forall r, with_cursor l1 r = with_cursor l r) as Hwc by done.
  destruct (is_digit ch) eqn:Hd.
  { eapply (good_bind (fun b : ascii => Ascii.eqb ch "0" = true -> exists s', s = String b s')).
    { destruct (Ascii.eqb ch "0"); [|done]. destruct (tail_ok_nonempty s Htail) as (b & s' & ->). cbn. eauto. }
    intros b Hb. destruct (Ascii.eqb ch "0"); cbn [andb].
    - destruct (Hb eq_refl) as [s' ->]. destruct (Ascii.eqb_spec b "o") as [->|].
      + cbn [str_drop]. rewrite len_cons in Hlen. replace (str_drop 0 s') with s' by (by destruct s').
        rewrite Hwc; apply integer_good; [done|by eapply tail_ok_next|lia|rewrite Hr, !len_cons; lia].
      + rewrite Hwc; apply integer_good; [done|done|lia|lia].
    - rewrite Hwc; apply integer_good; [done|done|lia|lia]. }
  destruct (is_quote ch) eqn:Hq.
  { rewrite Hwc; apply (quoted_good l ch); [done|done|done|lia|lia|by left]. }
  destruct (char_in ch "([{"); [cbn; apply Hone; done|].
  destruct (char_in ch ")]}"); [apply Hone; try done; by destruct (0 <? braces l1)|].
  destruct (char_in ch "=!+<>"); [apply maybe_operator_good; try done; cbn; lia|].
  destruct (char_in ch ",.%*|&:"); [apply Hone; done|].
  destruct (Ascii.eqb ch "/"); [apply maybe_operator_good; try done; cbn; lia|].
  destruct (Ascii.eqb ch "#").
  { eapply good_bind; [by apply skip_comment_good|]. intros c [Hct Hca]. apply Hrec.
    - by destruct Hinv1.
    - by split.
    - destruct Hca as [_ Hca]. unfold measure in *. cbn in *. lia. }
  destruct (Ascii.eqb ch "-").
  { destruct (tail_ok_nonempty s Htail) as (b & s' & Hs). rewrite Hs at 1. cbn [first_byte]. rewrite bind_Ok_l.
    destruct (is_digit b); [rewrite Hwc; apply integer_good; [done|done|lia|lia]|apply Hone; done]. }
  by destruct (Ascii.eqb ch tab).
Qed.
(** ** Reading all the tokens *)

(** The lexer with its token of lookahead. *)
Record lexer_ok (b : string) (l : lex) : Prop := {
  lo_inv : lex_inv l;
  lo_tail : token_tail (next l) (rest l);
  lo_len : pos l + len (rest l) = len (buffer b);
  lo_next : 0 <= tok_Pos (next l) <= pos l;
}.

Lemma Next_good b l :
  lexer_ok b l -> tail_ok (rest l) ->
  good (fun '(tok, l') => tok = next l /\ lexer_ok b l' /\ measure l' < measure l /\
    tok_Pos tok <= tok_Pos (next l')) (Next ident_rune l).
Proof.
  intros [Hinv _ Hlen Hn] Ht. unfold Next.
  eapply good_bind; [apply nextToken_good; [done|done|lia]|].
  intros [tok l'] ([Hu Hi Hb] & Ht' & Hm & Hlen' & Hp); cbn [fst snd] in *.
  split_and!; [done|split; cbn; [by split|done|lia|lia]|done|cbn; lia].
Qed.

Lemma measure_nonneg l : lex_inv l -> 0 <= measure l.
Proof. intros []. unfold measure. pose proof (len_nonneg (rest l)). lia. Qed.

Lemma skip_EOL_good b fuel l :
  lexer_ok b l -> measure l < Z.of_nat fuel ->
  good (fun l' => lexer_ok b l' /\ tok_Type (next l') <> EOL /\ measure l' <= measure l) (skip_EOL ident_rune fuel l).
Proof.
  revert l. induction fuel as [|fuel IH]; intros l Hl Hm.
  { pose proof (measure_nonneg l (lo_inv _ _ Hl)). lia. }
  cbn [skip_EOL]. unfold Peek. destruct (Z.eqb_spec (tok_Type (next l)) EOL) as [He|He]; [|by cbn].
  eapply good_bind; [apply Next_good; [done|]|].
  { destruct (lo_tail _ _ Hl) as [H|[H _]]; [done|]. rewrite H in He. done. }
  intros [tok l'] (_ & Hl' & Hm' & _).
  eapply good_mono; [apply IH; [done|lia]|]. intros l2 (? & ? & ?). split_and!; [done|done|lia].
Qed.

Lemma len_app s1 s2 : len (s1 +:+ s2) = len s1 + len s2.
Proof. unfold len. rewrite str_length_app. lia. Qed.

Lemma has_suffix_newline b : has_suffix b (char_str newline) = true -> exists r, b = r +:+ char_str newline.
Proof. apply has_suffix_spec. Qed.

Lemma buffer_ok b : tail_ok (buffer b) /\ len (buffer b) <= len b + 3.
Proof.
  unfold buffer, ends_in_newline. destruct (String.length b =? 0)%nat eqn:H0; cbn [orb].
  { apply Nat.eqb_eq in H0. destruct b; [|done]. split; [by left|done]. }
  destruct (has_suffix b (char_str newline)) eqn:Hs.
  - apply has_suffix_newline in Hs as [r ->]. rewrite !len_app. split; [|unfold len; cbn; lia].
    right. exists r. by rewrite str_app_assoc.
  - unfold snoc. rewrite !len_app. split; [|unfold len; cbn; lia]. right. exists b. by rewrite str_app_assoc.
Qed.

Lemma newLexer_good b :
  good (fun l => lexer_ok b l /\ tok_Type (next l) <> EOL /\ measure l <= 2 * len b + 7) (newLexer ident_rune b).
Proof.
  destruct (buffer_ok b) as [Ht Hlen]. unfold newLexer.
  set (l0 := MkLex (buffer b) 0 0 zero_token 0 0 [0] false).
  assert (measure l0 <= 2 * len b + 7) as Hm by (unfold measure; cbn -[len]; lia).
  eapply good_bind; [apply (Next_good b l0); [|done]|].
  { split; cbn; [by split|by left|lia|lia]. }
  intros [tok l] (_ & Hl & Hm' & _).
  eapply good_mono; [apply (skip_EOL_good b); [done|unfold len in *; lia]|].
  intros l' (? & ? & ?). split_and!; [done|done|lia].
Qed.
End lexer_proofs.
Definition pos_le (t1 t2 : Token) : Prop := tok_Pos t1 <= tok_Pos t2.

Lemma lex_all_good ident_rune b fuel l :
  lexer_ok b l -> measure l < Z.of_nat fuel ->
  good (fun toks => StronglySorted pos_le toks /\
    Forall (fun t => tok_Type t <> EOF /\ tok_Pos (next l) <= tok_Pos t <= len (buffer b)) toks)
    (lex_all ident_rune fuel l).
Proof.
  revert l. induction fuel as [|fuel IH]; intros l Hl Hm.
  { pose proof (measure_nonneg l (lo_inv _ _ Hl)). lia. }
  cbn [lex_all]. unfold Peek. destruct (Z.eqb_spec (tok_Type (next l)) EOF) as [He|He].
  { cbn. split; constructor. }
  eapply good_bind; [apply (Next_good _ b); [done|]|].
  { by destruct (lo_tail _ _ Hl) as [?|[? _]]. }
  intros [tok l'] (-> & Hl' & Hm' & Hle).
  eapply good_bind; [apply IH; [done|lia]|]. intros toks [Hs Hf]. cbn. split.
  - constructor; [done|]. eapply Forall_impl; [exact Hf|]. intros t [_ Ht]. unfold pos_le. lia.
  - constructor; [split; [done|]|].
    + pose proof (lo_next _ _ Hl). pose proof (lo_len _ _ Hl). pose proof (len_nonneg (rest l)). lia.
    + eapply Forall_impl; [exact Hf|]. intros t [? ?]. split; [done|lia].
Qed.

(** lexing any bytes whatever ends, either with the tokens of the file, at
    non-decreasing positions within the buffer, or with a positioned user error. *)
Theorem lex_file_total ident_rune b :
  good (fun toks => StronglySorted pos_le toks /\
    Forall (fun t => tok_Type t <> EOF /\ 0 <= tok_Pos t <= len b + 3) toks) (lex_file ident_rune b).
Proof.
  unfold lex_file. eapply good_bind; [apply newLexer_good|]. intros l (Hl & _ & Hm).
  eapply good_mono; [apply (lex_all_good _ b); [done|unfold len in Hm; lia]|].
  intros toks [Hs Hf]. split; [done|]. eapply Forall_impl; [exact Hf|]. intros t [? ?].
  pose proof (lo_next _ _ Hl). destruct (buffer_ok b). split; [done|lia].
Qed.

(** ** String literals *)

(** How to write a string as a literal. *)
Definition escape_char (c : ascii) : string :=
  if Ascii.eqb c newline then String backslash (char_str "n")
  else if Ascii.eqb c tab then String backslash (char_str "t")
  else if Ascii.eqb c backslash || is_quote c then String backslash (char_str c)
  else char_str c.

Fixpoint escape (s : string) : string :=
  match s with
  | "" => ""
  | String c s => escape_char c +:+ escape s
  end.

Fixpoint no_nul (s : string) : bool :=
  match s with
  | "" => true
  | String c s => negb (Ascii.eqb c nul) && no_nul s
  end.

Lemma snoc_app v c s : snoc v c +:+ s = v +:+ String c s.
Proof. unfold snoc. by rewrite str_app_assoc. Qed.

Lemma escape_char_read quote pos f c v rest p :
  is_quote quote = true -> c <> nul ->
  consumeString quote pos false false f false v (escape_char c +:+ rest) p
  = consumeString quote pos false false f false (snoc v c) rest (p + len (escape_char c)).
Proof.
  intros Hq Hc.
  assert (forall d, consumeString quote pos false false f false v (String backslash (char_str d) +:+ rest) p
    = consumeString quote pos false false f true v (String d rest) (p + 1)) as Hesc.
  { intros d. by apply orb_true_iff in Hq as [->%Ascii.eqb_eq | ->%Ascii.eqb_eq]. }
  assert (forall d, p + len (String backslash (char_str d)) = p + 1 + 1) as Hlen by (intros; unfold len; cbn; lia).
  unfold escape_char. destruct (Ascii.eqb_spec c newline) as [->|Hn].
  { rewrite Hesc, Hlen. done. }
  destruct (Ascii.eqb_spec c tab) as [->|Ht].
  { rewrite Hesc, Hlen. done. }
  destruct (Ascii.eqb c backslash || is_quote c) eqn:Hb.
  { rewrite Hesc, Hlen. cbn [consumeString].
    apply orb_true_iff in Hb as [->%Ascii.eqb_eq|[->%Ascii.eqb_eq | ->%Ascii.eqb_eq]%orb_true_iff]; done. }
  apply orb_false_iff in Hb as [Hb Hcq]. cbn [String.append char_str consumeString].
  replace (Ascii.eqb c quote) with false; last first.
  { symmetry. apply Ascii.eqb_neq. intros ->. congruence. }
  apply Ascii.eqb_neq in Hn, Hc. rewrite Hn, Hc, Hb. done.
Qed.

Lemma consumeString_escape quote pos f s v tail p :
  is_quote quote = true -> no_nul s = true ->
  consumeString quote pos false false f false v (escape s +:+ String quote tail) p
  = Ok (string_token pos f (v +:+ s), (tail, p + len (escape s) + 1)).
Proof.
  intros Hq. revert v p. induction s as [|c s IH]; intros v p; cbn [escape no_nul].
  { intros _. cbn. rewrite Ascii.eqb_refl, str_app_nil_r. do 3 f_equal. unfold len. cbn. lia. }
  intros [Hc%negb_true_iff%Ascii.eqb_neq Hs]%andb_true_iff.
  rewrite str_app_assoc, escape_char_read, IH by done. rewrite snoc_app, len_app. do 3 f_equal. lia.
Qed.

Lemma escape_starts quote c s :
  is_quote quote = true -> exists d r, escape (String c s) = String d r /\ d <> quote.
Proof.
  intros Hq. cbn [escape]. unfold escape_char.
  assert (backslash <> quote) as Hb by (intros <-; done).
  destruct (Ascii.eqb c newline); [by eexists _, _|]. destruct (Ascii.eqb c tab); [by eexists _, _|].
  destruct (Ascii.eqb c backslash || is_quote c) eqn:Hc; [by eexists _, _|].
  eexists _, _. split; [reflexivity|]. intros ->. rewrite Hq, orb_true_r in Hc. done.
Qed.

Lemma consumePossibly_escape quote pos f s t tail p :
  is_quote quote = true -> no_nul s = true -> (s = "" -> t <> quote) ->
  consumePossiblyTripleQuotedString quote pos false f (escape s +:+ String quote (String t tail), p)
  = Ok (string_token pos f (char_str double_quote +:+ s), (String t tail, p + len (escape s) + 1)).
Proof.
  intros Hq Hs Ht. rewrite <- (consumeString_escape quote) by done.
  unfold consumePossiblyTripleQuotedString. cbn [fst snd]. destruct s as [|c s].
  - cbn [escape String.append]. rewrite Ascii.eqb_refl.
    destruct (Ascii.eqb_spec t quote) as [->|]; [by destruct Ht|done].
  - destruct (escape_starts quote c s Hq) as (d & r & -> & Hd). cbn [String.append].
    apply Ascii.eqb_neq in Hd. by rewrite Hd.
Qed.

Lemma nextToken_f ident_rune fuel l q s :
  is_quote q = true -> unindents l = 0 -> rest l = String "f" (String q s) ->
  nextToken ident_rune (S fuel) l = with_cursor l (consumePossiblyTripleQuotedString q (pos l) false true (s, pos l + 2)).
Proof.
  destruct l as [r p ind nx br un ins eol]. cbn [unindents rest pos]. intros Hq -> ->.
  by apply orb_true_iff in Hq as [->%Ascii.eqb_eq | ->%Ascii.eqb_eq].
Qed.

Lemma nextToken_quote ident_rune fuel l q s :
  is_quote q = true -> unindents l = 0 -> rest l = String q s ->
  nextToken ident_rune (S fuel) l = with_cursor l (consumePossiblyTripleQuotedString q (pos l) false false (s, pos l + 1)).
Proof.
  destruct l as [r p ind nx br un ins eol]. cbn [unindents rest pos]. intros Hq -> ->.
  by apply orb_true_iff in Hq as [->%Ascii.eqb_eq | ->%Ascii.eqb_eq].
Qed.

(** C18: reading back an escaped string, in either kind of quotes and with the [f]
    prefix or without, gives the string between double quotes. *)
Theorem string_literal_roundtrip ident_rune fuel l (f : bool) quote s t tail :
  is_quote quote = true -> no_nul s = true -> (s = "" -> t <> quote) -> unindents l = 0 ->
  let prefix := if f then "f" else "" in
  rest l = prefix +:+ String quote (escape s +:+ String quote (String t tail)) ->
  nextToken ident_rune (S fuel) l =
    Ok (MkToken TString (prefix +:+ String double_quote s +:+ char_str double_quote) (pos l),
        move l (String t tail, pos l + len prefix + len (escape s) + 2)).
Proof.
  intros Hq Hs Ht Hu prefix Hr. unfold prefix in *. clear prefix. destruct f; cbn [String.append] in Hr |- *.
  - rewrite (nextToken_f _ _ _ _ _ Hq Hu Hr), consumePossibly_escape by done. cbn -[len]. unfold move. cbn -[len].
    do 3 f_equal. change (len "f") with 1. lia.
  - rewrite (nextToken_quote _ _ _ _ _ Hq Hu Hr), consumePossibly_escape by done. cbn -[len]. unfold move. cbn -[len].
    do 3 f_equal. change (len "") with 0. lia.
Qed.

Lemma string_literal_roundtrip_witness :
  let l := MkLex "'it\'s\n' + x" 3 0 zero_token 0 0 [0] false in
  nextToken (fun _ => false) 1 l =
    Ok (MkToken TString (String double_quote "it's" +:+ String newline (char_str double_quote)) 3,
        move l (" + x", 3 + 0 + 7 + 2)).
Proof.
  apply (string_literal_roundtrip (fun _ => false) 0 (MkLex _ 3 0 zero_token 0 0 [0] false) false single_quote
    ("it's" +:+ char_str newline) " " "+ x"); done.
Defined.

(** ** Integers *)

Fixpoint all_digits (s : string) : bool :=
  match s with
  | "" => true
  | String c s => is_digit c && all_digits s
  end.

Lemma consume_digits_all v ds t tail p :
  all_digits ds = true -> is_digit t = false ->
  consume_digits v (ds +:+ String t tail) p = Ok (v +:+ ds, (String t tail, p + len ds)).
Proof.
  intros Hd Ht. revert v p. induction ds as [|d ds IH]; intros v p; cbn [consume_digits String.append].
  { rewrite Ht, str_app_nil_r. do 3 f_equal. unfold len. cbn. lia. }
  apply andb_true_iff in Hd as [Hd Hds]. rewrite Hd, IH, snoc_app, len_cons by done. do 3 f_equal. lia.
Qed.

Lemma nextToken_0 ident_rune fuel l b s :
  unindents l = 0 -> rest l = String "0" (String b s) ->
  nextToken ident_rune (S fuel) l =
    with_cursor l (consumeInteger "0" (pos l) (if Ascii.eqb b "o" then (s, pos l + 2) else (String b s, pos l + 1))).
Proof.
  destruct l as [r p ind nx br un ins eol]. cbn [unindents rest pos]. intros -> ->. by destruct s.
Qed.

(** The digits after [0o] come out as the same token as the digits after [0]:
    the base is lost, which is how an octal literal is read in base ten. *)
Theorem octal_prefix_dropped ident_rune fuel l ds t tail :
  all_digits ds = true -> is_digit t = false -> t <> "o"%char -> unindents l = 0 ->
  let after s n := MkLex s n (indent l) (next l) (braces l) (unindents l) (indents l) (lastEOL l) in
  let at_ s := after s (pos l) in
  nextToken ident_rune (S fuel) (at_ ("0o" +:+ ds +:+ String t tail)) =
    Ok (MkToken Int ("0" +:+ ds) (pos l), after (String t tail) (pos l + 2 + len ds)) /\
  nextToken ident_rune (S fuel) (at_ ("0" +:+ ds +:+ String t tail)) =
    Ok (MkToken Int ("0" +:+ ds) (pos l), after (String t tail) (pos l + 1 + len ds)).
Proof.
  intros Hds Ht Hto Hu after at_. split.
  - rewrite (nextToken_0 _ _ _ "o" (ds +:+ String t tail)) by done. rewrite Ascii.eqb_refl.
    unfold consumeInteger. cbn [fst snd]. by rewrite consume_digits_all.
  - assert (exists b r, ds +:+ String t tail = String b r /\ b <> "o"%char) as (b & r' & Hb & Hbo).
    { destruct ds as [|d ds]; [by eexists _, _|]. apply andb_true_iff in Hds as [Hd _].
      eexists _, _. split; [reflexivity|]. by intros ->. }
    rewrite (nextToken_0 _ _ _ b r') by (cbn; by rewrite ?Hb). apply Ascii.eqb_neq in Hbo. rewrite Hbo, <- Hb.
    unfold consumeInteger. cbn [fst snd]. by rewrite consume_digits_all.
Qed.

Lemma octal_prefix_dropped_witness :
  let l := MkLex "" 4 0 zero_token 0 0 [0] false in
  let after s n := MkLex s n 0 zero_token 0 0 [0] false in
  nextToken (fun _ => false) 1 (after "0o604)" 4) = Ok (MkToken Int "0604" 4, after ")" 9) /\
  nextToken (fun _ => false) 1 (after "0604)" 4) = Ok (MkToken Int "0604" 4, after ")" 8).
Proof.
  apply (octal_prefix_dropped (fun _ => false) 0 (MkLex "" 4 0 zero_token 0 0 [0] false) "604" ")" ""); done.
Defined.

(** ** The shape of tokens *)

(** A string token is quoted, after an [f] or not. *)
Definition quoted_value (f : bool) (v : string) : Prop :=
  exists s, v = (if f then "f" else "") +:+ String double_quote (snoc s double_quote).

Definition tok_wf (tok : Token) : Prop :=
  (tok_Type tok = EOF -> tok_Value tok = "") /\
  (tok_Type tok = TString -> exists f, quoted_value f (tok_Value tok)).

Lemma code_nonneg c : 0 <= code c.
Proof. unfold code. lia. Qed.

Lemma tok_wf_char c v p : tok_wf (MkToken (code c) v p).
Proof. pose proof (code_nonneg c). split; cbn; intros H'; rewrite H' in *; done. Qed.

Lemma string_token_wf pos f v0 : tok_wf (string_token pos f (String double_quote v0)).
Proof. split; [by destruct f|]. intros _. exists f, v0. by destruct f. Qed.

Lemma consumeString_wf q pos m r f e v0 s p tok c :
  consumeString q pos m r f e (String double_quote v0) s p = Ok (tok, c) -> tok_wf tok.
Proof.
  revert e v0 p. induction s as [|ch s IH]; intros e v0 p; cbn [consumeString]; [done|].
  assert (forall e' w p', consumeString q pos m r f e' (snoc (String double_quote v0) w) s p' = Ok (tok, c) -> tok_wf tok)
    as IH1 by (intros e' w p'; apply (IH e' (snoc v0 w))).
  assert (forall e' w w' p', consumeString q pos m r f e' (snoc (snoc (String double_quote v0) w) w') s p' = Ok (tok, c) ->
    tok_wf tok) as IH2 by (intros e' w w' p'; apply (IH e' (snoc (snoc v0 w) w'))).
  repeat case_match; intros Hc; simplify_eq; try done; eauto using string_token_wf.
Qed.

Lemma consumePossibly_wf q pos r f c0 tok c :
  consumePossiblyTripleQuotedString q pos r f c0 = Ok (tok, c) -> tok_wf tok.
Proof. unfold consumePossiblyTripleQuotedString. repeat case_match; try done; apply consumeString_wf. Qed.

Lemma consumeIdent_wf ident_rune fuel pos v s p tok c :
  consumeIdent ident_rune fuel pos v s p = Ok (tok, c) -> tok_wf tok.
Proof.
  revert v s p. induction fuel as [|fuel IH]; intros v s p; cbn [consumeIdent]; [done|].
  repeat case_match; intros Hc; simplify_eq; try done; eauto; by split.
Qed.

Lemma consumeInteger_wf ch pos c0 tok c : consumeInteger ch pos c0 = Ok (tok, c) -> tok_wf tok.
Proof. unfold consumeInteger. intros [[v c1] [_ H]]%bind_Ok. simplify_eq. by split. Qed.

Lemma with_cursor_wf l r tok l' :
  (forall c, r = Ok (tok, c) -> tok_wf tok) -> with_cursor l r = Ok (tok, l') -> tok_wf tok.
Proof. intros Hr. unfold with_cursor. intros [[t c] [-> H]]%bind_Ok. simplify_eq. by eapply Hr. Qed.

Lemma end_of_line_wf l p tok l' : end_of_line l p = Ok (Some tok, l') -> tok_wf tok.
Proof.
  unfold end_of_line. intros [[n c] [_ H]]%bind_Ok. apply bind_Ok in H as [b [_ H]].
  case_match; [done|]. apply bind_Ok in H as [[p' l2] [_ H]]. case_match; simplify_eq. by split.
Qed.

Lemma maybe_operator_wf l c follow p tok l' : maybe_operator l c follow p = Ok (tok, l') -> tok_wf tok.
Proof. unfold maybe_operator. repeat case_match; intros ?; simplify_eq; [by split|apply tok_wf_char]. Qed.

Lemma nextToken_wf ident_rune fuel l tok l' : nextToken ident_rune fuel l = Ok (tok, l') -> tok_wf tok.
Proof.
  revert l. induction fuel as [|fuel IH]; intros l; cbn [nextToken]; [done|].
  intros [c [_ H]]%bind_Ok. case_match; [simplify_eq; by split|]. case_match; [done|].
  apply bind_Ok in H as [quoted [_ H]].
  repeat match type of H with
  | match ?m with _ => _ end = _ => destruct m eqn:?
  | mbind _ ?m = _ => apply bind_Ok in H as [? [? H]]
  end; try done; simplify_eq.
  all: try (eapply with_cursor_wf; [|eassumption]; eauto using consumePossibly_wf, consumeIdent_wf, consumeInteger_wf).
  all: try solve [by split | apply tok_wf_char | eauto using end_of_line_wf, maybe_operator_wf].
Qed.
