(* ===== verification/FilePosition.v ===== *)
(** Converting positions to lines and columns: [src/parse/asp/file_position.go].

    The file is its name and the offsets of its newlines, found in the buffer once;
    [Pos] looks a position up by binary search. *)
From S2P Require Import Prelude GoStrings Lexer.
From Stdlib Require Import Ascii.

#[local] Open Scope Z_scope.

Record FilePosition := MkFilePosition {
  fp_Filename : string;
  fp_Offset : Z;
  fp_Line : Z;
  fp_Column : Z;
}.

Record File := MkFile { Name : string; lineOffsets : list Z }.

(** The offsets of the newlines of the buffer, which starts at offset [i]. *)
Fixpoint newlines (i : Z) (buf : string) : list Z :=
  match buf with
  | "" => []
  | String x buf => if Ascii.eqb x newline then i :: newlines (i + 1) buf else newlines (i + 1) buf
  end.

Definition NewFile (name : string) (buf : string) : File := MkFile name (-1 :: newlines 0 buf).

(** [slices.BinarySearch], between [i] and [j]. *)
Fixpoint BinarySearch_loop (fuel : nat) (x : list Z) (target : Z) (i j : nat) : res nat :=
  match fuel with
  | O => NoFuel
  | S fuel =>
      if (i <? j)%nat then
        let h := ((i + j) / 2)%nat in
        match x !! h with
        | None => Err EIndex
        | Some y => if y <? target then BinarySearch_loop fuel x target (S h) j else BinarySearch_loop fuel x target i h
        end
      else Ok i
  end.

Definition BinarySearch (x : list Z) (target : Z) : res nat :=
  BinarySearch_loop (S (length x)) x target 0 (length x).

Definition File_Pos (f : File) (pos : Z) : res FilePosition :=
  line ← BinarySearch (lineOffsets f) pos;
  match line with
  | O => Err EIndex
  | S i =>
      match lineOffsets f !! i with
      | None => Err EIndex
      | Some lineOffset => Ok (MkFilePosition (Name f) (pos + 1) (Z.of_nat line) (pos - lineOffset))
      end
  end.

(** ** Binary search *)

Lemma BinarySearch_loop_spec fuel x1 x2 target i j :
  Forall (fun y => y < target) x1 -> Forall (fun y => target <= y) x2 ->
  (j - i < fuel)%nat -> (i <= length x1 <= j)%nat -> (j <= length (x1 ++ x2))%nat ->
  BinarySearch_loop fuel (x1 ++ x2) target i j = Ok (length x1).
Proof.
  intros H1 H2. revert i j. induction fuel as [|fuel IH]; intros i j Hf Hij Hj; [lia|]. cbn [BinarySearch_loop].
  destruct (Nat.ltb_spec i j) as [Hlt|Hge]; [|f_equal; lia].
  pose proof (Nat.div_mod_eq (i + j) 2) as Hd. pose proof (Nat.mod_upper_bound (i + j) 2 ltac:(lia)).
  set (h := ((i + j) / 2)%nat) in *.
  destruct (lookup_lt_is_Some_2 (x1 ++ x2) h) as [y Hy]; [lia|]. rewrite Hy.
  apply lookup_app_Some in Hy as [Hy|[Hh Hy]].
  - pose proof (lookup_lt_Some _ _ _ Hy). rewrite Forall_lookup in H1. specialize (H1 _ _ Hy).
    replace (y <? target) with true by lia. apply IH; lia.
  - rewrite Forall_lookup in H2. specialize (H2 _ _ Hy).
    replace (y <? target) with false by lia. apply IH; lia.
Qed.

Lemma BinarySearch_spec x1 x2 target :
  Forall (fun y => y < target) x1 -> Forall (fun y => target <= y) x2 ->
  BinarySearch (x1 ++ x2) target = Ok (length x1).
Proof. intros. apply BinarySearch_loop_spec; rewrite ?length_app; auto with lia. Qed.

(** ** Lines and columns *)

Fixpoint count_newlines (s : string) : Z :=
  match s with
  | "" => 0
  | String c s => (if Ascii.eqb c newline then 1 else 0) + count_newlines s
  end.

(** The text up to a position: whole lines, then the start of the current one. *)
Definition split_lines (before current : string) : Prop :=
  count_newlines current = 0 /\ (before = "" \/ exists b, before = snoc b newline).

Lemma count_newlines_nonneg s : 0 <= count_newlines s.
Proof. induction s as [|c s IH]; cbn; [lia|]. destruct (Ascii.eqb c newline); lia. Qed.

Lemma newlines_app i s1 s2 : newlines i (s1 +:+ s2) = newlines i s1 ++ newlines (i + len s1) s2.
Proof.
  revert i. induction s1 as [|c s1 IH]; intros i; cbn [newlines String.append].
  { change (len "") with 0. by rewrite Z.add_0_r. }
  rewrite IH, len_cons. replace (i + 1 + len s1) with (i + (len s1 + 1)) by lia.
  by destruct (Ascii.eqb c newline).
Qed.

Lemma newlines_range i s : Forall (fun y => i <= y < i + len s) (newlines i s).
Proof.
  revert i. induction s as [|c s IH]; intros i; cbn [newlines]; [constructor|]. rewrite len_cons.
  pose proof (len_nonneg s).
  assert (Forall (fun y => i <= y < i + (len s + 1)) (newlines (i + 1) s)) as H'.
  { eapply Forall_impl; [apply IH|]. intros. cbn in *. lia. }
  destruct (Ascii.eqb c newline); [constructor; [lia|done]|done].
Qed.

Lemma newlines_length i s : Z.of_nat (length (newlines i s)) = count_newlines s.
Proof.
  revert i. induction s as [|c s IH]; intros i; cbn [newlines count_newlines]; [done|].
  specialize (IH (i + 1)). destruct (Ascii.eqb c newline); cbn [length]; lia.
Qed.

Lemma newlines_none i s : count_newlines s = 0 -> newlines i s = [].
Proof. intros H. apply nil_length_inv. pose proof (newlines_length i s). lia. Qed.

Lemma split_lines_exists s : exists before current, s = before +:+ current /\ split_lines before current.
Proof.
  induction s as [|c s (b & cur & -> & Hc & Hb)]; [by exists "", ""; split; [|split; [|left]]|].
  destruct Hb as [->|[b' ->]].
  - destruct (Ascii.eqb_spec c newline) as [->|Hn].
    + exists (char_str newline), cur. split; [done|]. split; [done|]. right. by exists "".
    + exists "", (String c cur). split; [done|]. split; [|by left]. cbn. apply Ascii.eqb_neq in Hn. by rewrite Hn.
  - exists (String c (snoc b' newline)), cur. split; [done|]. split; [done|]. right. by exists (String c b').
Qed.

(** Before the position, the last entry is that of the current line. *)
Lemma last_newline before current :
  split_lines before current -> (-1 :: newlines 0 before) !! length (newlines 0 before) = Some (len before - 1).
Proof.
  intros [_ [->|[b ->]]]; [done|]. unfold snoc. rewrite newlines_app, length_app, len_app. cbn [newlines char_str].
  rewrite Ascii.eqb_refl. cbn [length]. rewrite Nat.add_1_r, lookup_cons.
  rewrite lookup_app_r, Nat.sub_diag by lia. cbn. f_equal. change (len (char_str newline)) with 1. lia.
Qed.

Lemma File_Pos_split name before current after :
  split_lines before current ->
  File_Pos (NewFile name (before +:+ current +:+ after)) (len (before +:+ current)) =
    Ok (MkFilePosition name (len (before +:+ current) + 1) (count_newlines before + 1) (len current + 1)).
Proof.
  intros Hsplit. pose proof Hsplit as [Hc _]. unfold File_Pos, NewFile. cbn [lineOffsets Name].
  rewrite !newlines_app, (newlines_none _ current), app_nil_l by done. rewrite !len_app.
  pose proof (len_nonneg current). pose proof (len_nonneg before).
  rewrite app_comm_cons, BinarySearch_spec.
  - rewrite bind_Ok_l. cbn [length]. rewrite lookup_app_l by (cbn; lia). rewrite (last_newline _ _ Hsplit).
    do 2 f_equal; [|lia]. rewrite Nat2Z.inj_succ, newlines_length. lia.
  - constructor; [lia|]. eapply Forall_impl; [apply newlines_range|]. cbn. intros. lia.
  - eapply Forall_impl; [apply newlines_range|]. cbn. intros. lia.
Qed.

(** a position in a buffer is on the line after all those that end before it,
    at the column its own line has reached; the lookup never panics. *)
Theorem File_Pos_spec name buf pos :
  0 <= pos <= len buf ->
  exists before current, str_take (Z.to_nat pos) buf = before +:+ current /\ split_lines before current /\
    File_Pos (NewFile name buf) pos =
      Ok (MkFilePosition name (pos + 1) (count_newlines before + 1) (len current + 1)).
Proof.
  intros Hpos. destruct (split_lines_exists (str_take (Z.to_nat pos) buf)) as (before & current & He & Hs).
  exists before, current. split_and!; [done|done|].
  assert (len (before +:+ current) = pos) as Hp by (rewrite <- He; unfold len in *; rewrite str_length_take; lia).
  assert (buf = before +:+ current +:+ str_drop (Z.to_nat pos) buf) as Hb.
  { by rewrite <- str_app_assoc, <- He, str_take_drop. }
  rewrite Hb at 1. rewrite <- Hp at 2 3. by apply File_Pos_split.
Qed.

Lemma File_Pos_spec_witness :
  0 <= 10 <= 11 /\
  exists before current, str_take 10 ("x = 1" +:+ String newline "y = 2") = before +:+ current /\
    split_lines before current /\
    File_Pos (NewFile "BUILD" ("x = 1" +:+ String newline "y = 2")) 10 =
      Ok (MkFilePosition "BUILD" (10 + 1) (count_newlines before + 1) (len current + 1)).
Proof. split; [lia|]. apply (File_Pos_spec "BUILD" ("x = 1" +:+ String newline "y = 2") 10). split; vm_compute; discriminate. Defined.
