(* ===== verification/GoText.v ===== *)
(** More of Go's text: the runes of a string and the functions of [strings] and
    [unicode/utf8] that the BUILD language's builtin functions call, on byte strings.

    A string need not be valid UTF-8: an invalid byte counts as a rune of its own, the
    replacement character, as in Go. *)
From S2P Require Import Prelude GoStrings Lexer.
From Stdlib Require Import Ascii.

#[local] Open Scope Z_scope.

(** ** Runes *)

Definition byte (z : Z) : string := char_str (ascii_of_N (Z.to_N z)).

(** [string(rune(r))] *)
Definition EncodeRune (r : Z) : string :=
  let r := if (r <? 0) || (1114111 <? r) || ((55296 <=? r) && (r <=? 57343)) then rune_error else r in
  if r <? 128 then byte r
  else if r <? 2048 then byte (192 + r / 64) +:+ byte (128 + r mod 64)
  else if r <? 65536 then
    byte (224 + r / 4096) +:+ byte (128 + r / 64 mod 64) +:+ byte (128 + r mod 64)
  else
    byte (240 + r / 262144) +:+ byte (128 + r / 4096 mod 64) +:+ byte (128 + r / 64 mod 64) +:+ byte (128 + r mod 64).

(** [for range s]: each rune with the bytes it is read from. *)
Fixpoint decode_all (fuel : nat) (s : string) : list (Z * string) :=
  match fuel, s with
  | S fuel, String c s' =>
      if code c <? 128 then (code c, char_str c) :: decode_all fuel s'
      else let '(r, n) := DecodeRune s in (r, str_take n s) :: decode_all fuel (str_drop n s)
  | _, _ => []
  end.

Definition Runes (s : string) : list (Z * string) := decode_all (String.length s) s.

(** [[]rune(s)] and [utf8.RuneCountInString] *)
Definition rune_values (s : string) : list Z := map fst (Runes s).
Definition RuneCount (s : string) : nat := length (Runes s).

(** [strings.ContainsRune] *)
Definition ContainsRune (s : string) (r : Z) : bool := bool_decide (r ∈ rune_values s).

(** [utf8.DecodeLastRuneInString]: it looks back at most four bytes for the start of a
    rune that ends where the string does. *)
Definition RuneStart (c : ascii) : bool := negb ((128 <=? code c) && (code c <? 192)).

Definition last_start (s : string) : nat :=
  let e := String.length s in
  let starts k := (k <=? e)%nat && match String.get (e - k) s with Some c => RuneStart c | None => false end in
  (if starts 2 then e - 2 else if starts 3 then e - 3 else if starts 4 then e - 4 else e - 5)%nat.

Definition DecodeLastRune (s : string) : Z * nat :=
  match String.get (String.length s - 1) s with
  | None => (rune_error, 0%nat)
  | Some c =>
      if code c <? 128 then (code c, 1%nat)
      else
        let start := last_start s in
        let '(r, size) := DecodeRune (str_drop start s) in
        if (start + size =? String.length s)%nat then (r, size) else (rune_error, 1%nat)
  end.

(** ** Searching, splitting and replacing *)

(** [strings.LastIndex] *)
Fixpoint last_index_str (sub s : string) : option nat :=
  match s with
  | "" => if has_prefix "" sub then Some 0%nat else None
  | String _ s' =>
      match last_index_str sub s' with
      | Some i => Some (S i)
      | None => if has_prefix s sub then Some 0%nat else None
      end
  end.

(** [strings.explode] *)
Definition explode (s : string) : list string := map snd (Runes s).

(** The parts between the occurrences of a separator that is not empty. *)
Fixpoint split_on (fuel : nat) (sep s : string) : list string :=
  match fuel with
  | O => [s]
  | S fuel =>
      match index_str sep s with
      | Some i => str_take i s :: split_on fuel sep (str_drop (i + String.length sep) s)
      | None => [s]
      end
  end.

(** [strings.Split] *)
Definition Split (s sep : string) : list string :=
  if String.eqb sep "" then explode s else split_on (String.length s) sep s.

(** [strings.Count] *)
Definition Count (s sub : string) : nat :=
  if String.eqb sub "" then S (RuneCount s) else (length (split_on (String.length s) sub s) - 1)%nat.

(** [strings.ReplaceAll]: an empty string is found around every rune. *)
Definition ReplaceAll (s old new : string) : string :=
  if String.eqb old "" then join new ([""] ++ explode s ++ [""])
  else join new (split_on (String.length s) old s).

(** The most that can be allocated at once, on 64-bit Linux. Running out of memory before that
    stops the program, and is left out. *)
Definition maxAlloc : Z := 2 ^ 48.

(** [strings.Repeat], which panics for a count that is negative and for a result that is too long *)
Definition repeat_str (s : string) (n : nat) : string := Nat.iter n (fun r => s +:+ r) "".
Definition strings_Repeat (s : string) (count : Z) : res string :=
  let n := Z.of_nat (String.length s) * count in
  if count <? 0 then Err (EPanic "strings: negative Repeat count")
  else if 2 ^ 63 <=? n then Err (EPanic "strings: Repeat output length overflow")
  else if maxAlloc <? n then Err (EPanic "runtime error: makeslice: len out of range")
  else Ok (repeat_str s (Z.to_nat count)).

(** ** Trimming *)

(** [strings.TrimLeft] *)
Fixpoint TrimLeft_fuel (fuel : nat) (s cutset : string) : string :=
  match fuel with
  | O => s
  | S fuel =>
      match Runes s with
      | (r, raw) :: _ =>
          if ContainsRune cutset r then TrimLeft_fuel fuel (str_drop (String.length raw) s) cutset else s
      | [] => s
      end
  end.

Definition TrimLeft (s cutset : string) : string := TrimLeft_fuel (String.length s) s cutset.

(** [strings.TrimRight] *)
Fixpoint TrimRight_fuel (fuel : nat) (s cutset : string) : string :=
  match fuel with
  | O => s
  | S fuel =>
      if String.eqb s "" then s
      else
        let '(r, n) := DecodeLastRune s in
        if ContainsRune cutset r then TrimRight_fuel fuel (str_take (String.length s - n) s) cutset else s
  end.

Definition TrimRight (s cutset : string) : string := TrimRight_fuel (String.length s) s cutset.

(** [strings.Trim] *)
Definition Trim (s cutset : string) : string := TrimRight (TrimLeft s cutset) cutset.

(** [strings.TrimPrefix] and [strings.TrimSuffix] *)
Definition TrimPrefix (s p : string) : string := if has_prefix s p then str_drop (String.length p) s else s.
Definition TrimSuffix (s p : string) : string :=
  if has_suffix s p then str_take (String.length s - String.length p) s else s.

(** ** Case *)

Definition is_ascii (s : string) : bool := forallb (fun c => code c <? 128) (String.list_ascii_of_string s).

Definition map_bytes (f : Z -> Z) (s : string) : string :=
  String.string_of_list_ascii (map (fun c => ascii_of_N (Z.to_N (f (code c)))) (String.list_ascii_of_string s)).

(** [strings.TrimSpace] *)
Definition white_space : string :=
  String tab (String newline (byte 11 +:+ byte 12 +:+ String carriage_return " ")) +:+
  join "" (map EncodeRune [133; 160; 5760; 8192; 8193; 8194; 8195; 8196; 8197; 8198; 8199; 8200; 8201; 8202;
                           8232; 8233; 8239; 8287; 12288]).
Definition TrimSpace (s : string) : string := Trim s white_space.

(** [strings.ToUpper] and [strings.ToLower], given what they do outside ASCII. *)
Definition ToUpper (unicode : string -> string) (s : string) : string :=
  if is_ascii s then map_bytes (fun z => if (97 <=? z) && (z <=? 122) then z - 32 else z) s else unicode s.
Definition ToLower (unicode : string -> string) (s : string) : string :=
  if is_ascii s then map_bytes (fun z => if (65 <=? z) && (z <=? 90) then z + 32 else z) s else unicode s.

#[global] Arguments EncodeRune : simpl never.
#[global] Arguments DecodeRune : simpl never.
#[global] Arguments index_str : simpl never.

(** ** Lemmas: finding a string *)

Lemma index_str_eq sub s :
  index_str sub s =
  if has_prefix s sub then Some 0%nat
  else match s with "" => None | String _ s' => S <$> index_str sub s' end.
Proof. by destruct s. Qed.

Lemma index_str_Some sub s i :
  index_str sub s = Some i ->
  s = str_take i s +:+ sub +:+ str_drop (i + String.length sub) s /\
  (forall j, (j < i)%nat -> has_prefix (str_drop j s) sub = false) /\
  (i + String.length sub <= String.length s)%nat.
Proof.
  revert i. induction s as [|a s IH]; intros i; rewrite index_str_eq.
  - destruct (has_prefix "" sub) eqn:Hp; [|done]. intros [= <-].
    apply has_prefix_spec in Hp as [r Hr]. destruct sub; [|done]. split_and!; cbn; [done|intros; lia|lia].
  - destruct (has_prefix (String a s) sub) eqn:Hp.
    + intros [= <-]. split_and!; [|intros; lia|].
      * apply has_prefix_spec in Hp as [r Hr]. rewrite Hr at 1 2. cbn.
        by rewrite Hr, str_drop_app.
      * apply has_prefix_spec in Hp as [r ->]. rewrite str_length_app. lia.
    + destruct (index_str sub s) as [k|] eqn:E; [|done]. intros [= <-].
      destruct (IH k eq_refl) as (Hs & Hj & Hl). cbn. split_and!.
      * by rewrite Hs at 1.
      * intros [|j] H; [done|]. cbn. apply Hj. lia.
      * lia.
Qed.

Lemma index_str_None sub s :
  index_str sub s = None <-> forall p r, s <> p +:+ sub +:+ r.
Proof.
  induction s as [|a s IH]; rewrite index_str_eq.
  - destruct (has_prefix "" sub) eqn:Hp; split; try done.
    + apply has_prefix_spec in Hp as [r Hr]. intros H. by destruct (H "" r).
    + intros _ [|] r Hr; [|done]. cbn in Hr.
      assert (has_prefix "" sub = true) by (apply has_prefix_spec; eauto). congruence.
  - destruct (has_prefix (String a s) sub) eqn:Hp.
    + split; [done|]. apply has_prefix_spec in Hp as [r Hr]. intros H. by destruct (H "" r).
    + rewrite fmap_None, IH. split.
      * intros H [|b p] r Hr; cbn in Hr.
        { assert (has_prefix (String a s) sub = true) by (apply has_prefix_spec; eauto). congruence. }
        injection Hr as -> Hr. by apply (H p r).
      * intros H p r ->. by apply (H (String a p) r).
Qed.

Lemma contains_spec s sub : contains s sub = true <-> exists p r, s = p +:+ sub +:+ r.
Proof.
  unfold contains. rewrite bool_decide_eq_true. split.
  - intros [i Hi]. apply index_str_Some in Hi as (Hs & _). eauto.
  - intros (p & r & ->). destruct (index_str sub (p +:+ sub +:+ r)) eqn:E; [by eexists|].
    by destruct (proj1 (index_str_None _ _) E p r).
Qed.

Lemma contains_false s sub : contains s sub = false <-> forall p r, s <> p +:+ sub +:+ r.
Proof. by rewrite contains_None, index_str_None. Qed.

(** What comes before the first occurrence has none of it, even with all of the
    occurrence but its last byte. *)
Lemma index_str_first sub s i :
  sub <> "" -> index_str sub s = Some i -> contains (str_take i s) sub = false.
Proof.
  intros Hne Hi. apply index_str_Some in Hi as (Hs & Hj & Hl). apply contains_false. intros p r Hp.
  assert (String.length p + String.length sub <= i)%nat as Hlen.
  { apply (f_equal String.length) in Hp. rewrite !str_length_app in Hp.
    assert (String.length (str_take i s) <= i)%nat; [|lia].
    clear. revert s. induction i as [|i IH]; intros [|c s]; cbn; try lia. specialize (IH s). lia. }
  assert (0 < String.length sub)%nat by (destruct sub; cbn; [done|lia]).
  specialize (Hj (String.length p) ltac:(lia)).
  assert (has_prefix (str_drop (String.length p) s) sub = true); [|congruence].
  apply has_prefix_spec. exists (r +:+ sub +:+ str_drop (i + String.length sub) s).
  rewrite Hs at 1. rewrite Hp, !str_app_assoc. by rewrite str_drop_app.
Qed.

Lemma last_index_str_None sub s : last_index_str sub s = None <-> index_str sub s = None.
Proof.
  induction s as [|a s IH]; rewrite index_str_eq; cbn [last_index_str].
  - by destruct (has_prefix "" sub).
  - destruct (last_index_str sub s), (index_str sub s), (has_prefix (String a s) sub); naive_solver.
Qed.

Lemma last_index_str_Some sub s i :
  last_index_str sub s = Some i ->
  s = str_take i s +:+ sub +:+ str_drop (i + String.length sub) s /\
  (forall j, (i < j <= String.length s)%nat -> has_prefix (str_drop j s) sub = false) /\
  (i + String.length sub <= String.length s)%nat.
Proof.
  revert i. induction s as [|a s IH]; intros i; cbn [last_index_str].
  - destruct (has_prefix "" sub) eqn:Hp; [|done]. intros [= <-].
    apply has_prefix_spec in Hp as [r Hr]. destruct sub; [|done]. split_and!; cbn; [done|intros; lia|lia].
  - destruct (last_index_str sub s) as [k|] eqn:E.
    + intros [= <-]. destruct (IH k eq_refl) as (Hs & Hj & Hl). cbn. split_and!.
      * by rewrite Hs at 1.
      * intros [|j] H; [lia|]. cbn. apply Hj. lia.
      * lia.
    + destruct (has_prefix (String a s) sub) eqn:Hp; [|done]. intros [= <-]. split_and!.
      * apply has_prefix_spec in Hp as [r Hr]. rewrite Hr at 1 2. cbn. by rewrite Hr, str_drop_app.
      * intros [|j] H; [lia|]. cbn.
        apply not_true_iff_false. intros [r Hr]%has_prefix_spec.
        apply last_index_str_None, (proj1 (index_str_None _ _)) with (p := str_take j s) (r := r) in E.
        apply E. by rewrite <- Hr, str_take_drop.
      * apply has_prefix_spec in Hp as [r ->]. rewrite str_length_app. lia.
Qed.

(** ** Lemmas: splitting *)

Lemma join_cons sep x l : l <> [] -> join sep (x :: l) = x +:+ sep +:+ join sep l.
Proof. by destruct l. Qed.

Lemma split_on_not_nil fuel sep s : split_on fuel sep s <> [].
Proof. destruct fuel; cbn; [done|]. by destruct (index_str sep s). Qed.

Lemma join_split_on fuel sep s : join sep (split_on fuel sep s) = s.
Proof.
  revert s. induction fuel as [|fuel IH]; intros s; cbn; [done|].
  destruct (index_str sep s) as [i|] eqn:E; [|done].
  rewrite join_cons by apply split_on_not_nil. rewrite IH.
  apply index_str_Some in E as (Hs & _). done.
Qed.

Lemma split_on_parts fuel sep s :
  sep <> "" -> (String.length s <= fuel)%nat -> Forall (fun p => contains p sep = false) (split_on fuel sep s).
Proof.
  intros Hne. revert s. induction fuel as [|fuel IH]; intros s Hl; cbn.
  - constructor; [|done]. destruct s; [|cbn in Hl; lia]. apply contains_false.
    intros [|] r Hr; [|done]. by destruct sep.
  - destruct (index_str sep s) as [i|] eqn:E.
    + constructor; [by eapply index_str_first|]. apply IH.
      rewrite str_length_drop. destruct sep; [done|]. cbn. lia.
    + constructor; [|done]. by apply contains_None.
Qed.

(** Splitting what is joined from parts that cannot make a separator of their own
    gives the parts back, for a separator of one byte. *)
Lemma index_str_byte c s : index_str (char_str c) s = index_byte c s.
Proof.
  induction s as [|a s IH]; rewrite index_str_eq; [done|]. cbn [index_byte].
  unfold char_str in *. rewrite has_prefix_cons, has_prefix_nil, andb_true_r, IH, (Ascii.eqb_sym c a).
  by destruct (Ascii.eqb a c).
Qed.

(** ** Lemmas: the bytes of runes *)

Lemma code_byte z : 0 <= z < 256 -> code (ascii_of_N (Z.to_N z)) = z.
Proof. intros. unfold code. rewrite N_ascii_embedding by lia. lia. Qed.

Lemma byte_app z s : byte z +:+ s = String (ascii_of_N (Z.to_N z)) s.
Proof. done. Qed.

Lemma cont_byte_byte lo hi z s :
  0 <= z < 256 -> cont_byte lo hi (byte z +:+ s) = if (lo <=? z) && (z <=? hi) then Some (z mod 64, s) else None.
Proof. intros. rewrite byte_app. unfold cont_byte. by rewrite code_byte. Qed.

Lemma decode_all_more n m s : (String.length s <= n)%nat -> (n <= m)%nat -> decode_all m s = decode_all n s.
Proof.
  revert m s. induction n as [|n IH]; intros m s Hs Hm.
  - destruct s; [|cbn in Hs; lia]. by destruct m.
  - destruct m as [|m]; [lia|]. destruct s as [|c s]; [done|]. cbn in Hs. cbn [decode_all].
    destruct (code c <? 128) eqn:Hc; [rewrite IH by lia; done|].
    destruct (DecodeRune (String c s)) as [r k] eqn:E.
    apply DecodeRune_high in E as (k' & -> & _); [|lia]. f_equal. apply IH; [|lia].
    rewrite str_length_drop. cbn. lia.
Qed.

Lemma Runes_ascii c s : code c < 128 -> Runes (String c s) = (code c, char_str c) :: Runes s.
Proof. intros H. unfold Runes. cbn. by rewrite (proj2 (Z.ltb_lt _ _) H). Qed.

Lemma decode_all_raw fuel s : (String.length s <= fuel)%nat -> join "" (map snd (decode_all fuel s)) = s.
Proof.
  assert (forall l x, join "" (x :: l) = x +:+ join "" l) as Hj.
  { intros [|y l] x; cbn; [by rewrite str_app_nil_r|done]. }
  revert s. induction fuel as [|fuel IH]; intros [|c s] Hl; try done; [cbn in Hl; lia|].
  cbn [decode_all]. cbn in Hl. destruct (code c <? 128) eqn:Hc; cbn [map snd].
  - rewrite Hj, IH by lia. done.
  - destruct (DecodeRune (String c s)) as [r k] eqn:E. cbn [map snd].
    apply DecodeRune_high in E as (k' & -> & _); [|lia].
    rewrite Hj, IH by (cbn; rewrite str_length_drop; lia). apply (str_take_drop (S k')).
Qed.

Lemma join_explode s : join "" (explode s) = s.
Proof. by apply decode_all_raw. Qed.

(** A rune that can be encoded: not out of range, and not half of a surrogate pair. *)
Definition valid_rune (r : Z) : Prop := 0 <= r <= 1114111 /\ (r < 55296 \/ 57343 < r).

Lemma EncodeRune_1 r : 0 <= r < 128 -> EncodeRune r = byte r.
Proof. intros. unfold EncodeRune. repeat case_match; try lia; done. Qed.

Lemma EncodeRune_2 r : 128 <= r < 2048 -> EncodeRune r = byte (192 + r / 64) +:+ byte (128 + r mod 64).
Proof. intros. unfold EncodeRune. repeat case_match; try lia; done. Qed.

Lemma EncodeRune_3 r :
  2048 <= r < 65536 -> valid_rune r ->
  EncodeRune r = byte (224 + r / 4096) +:+ byte (128 + r / 64 mod 64) +:+ byte (128 + r mod 64).
Proof. unfold valid_rune. intros. unfold EncodeRune. repeat case_match; try lia; done. Qed.

Lemma EncodeRune_4 r :
  65536 <= r -> valid_rune r ->
  EncodeRune r =
    byte (240 + r / 262144) +:+ byte (128 + r / 4096 mod 64) +:+ byte (128 + r / 64 mod 64) +:+ byte (128 + r mod 64).
Proof. unfold valid_rune. intros. unfold EncodeRune. repeat case_match; try lia; done. Qed.

(** Decides the comparisons of a decoder by arithmetic. *)
#[local] Ltac decide_ifs :=
  repeat match goal with
    | |- context [if ?b then _ else _] =>
        first [assert (b = true) as -> by lia | assert (b = false) as -> by lia]; cbn [mbind option_bind]
    end.

#[local] Ltac decode_step := rewrite cont_byte_byte by lia; decide_ifs.

Lemma mod_small_add c k q m : c = k * m -> 0 <= q < m -> (c + q) mod m = q.
Proof. intros ->. intros. rewrite Z.add_comm, Z_mod_plus_full, Z.mod_small; done. Qed.

Lemma DecodeRune_2 q1 q2 s :
  2 <= q1 < 32 -> 0 <= q2 < 64 -> DecodeRune (byte (192 + q1) +:+ byte (128 + q2) +:+ s) = (q1 * 64 + q2, 2%nat).
Proof.
  intros. rewrite byte_app. unfold DecodeRune. rewrite code_byte by lia. decide_ifs.
  decode_step. cbn. by rewrite (mod_small_add 192 6 q1 32), (mod_small_add 128 2 q2 64) by lia.
Qed.

Lemma DecodeRune_3 q1 q2 q3 s :
  0 <= q1 < 16 -> 0 <= q2 < 64 -> 0 <= q3 < 64 -> (q1 = 0 -> 32 <= q2) -> (q1 = 13 -> q2 < 32) ->
  DecodeRune (byte (224 + q1) +:+ byte (128 + q2) +:+ byte (128 + q3) +:+ s) = (q1 * 4096 + q2 * 64 + q3, 3%nat).
Proof.
  intros. rewrite byte_app. unfold DecodeRune. rewrite code_byte by lia. decide_ifs.
  rewrite cont_byte_byte by lia.
  rewrite (proj2 (andb_true_iff _ _)) by (destruct (224 + q1 =? 224) eqn:?, (224 + q1 =? 237) eqn:?; lia).
  cbn [mbind option_bind]. decode_step. cbn.
  by rewrite (mod_small_add 224 14 q1 16), (mod_small_add 128 2 q2 64), (mod_small_add 128 2 q3 64) by lia.
Qed.

Lemma DecodeRune_4 q1 q2 q3 q4 s :
  0 <= q1 < 5 -> 0 <= q2 < 64 -> 0 <= q3 < 64 -> 0 <= q4 < 64 -> (q1 = 0 -> 16 <= q2) -> (q1 = 4 -> q2 < 16) ->
  DecodeRune (byte (240 + q1) +:+ byte (128 + q2) +:+ byte (128 + q3) +:+ byte (128 + q4) +:+ s) =
    (q1 * 262144 + q2 * 4096 + q3 * 64 + q4, 4%nat).
Proof.
  intros. rewrite byte_app. unfold DecodeRune. rewrite code_byte by lia. decide_ifs.
  rewrite cont_byte_byte by lia.
  rewrite (proj2 (andb_true_iff _ _)) by (destruct (240 + q1 =? 240) eqn:?, (240 + q1 =? 244) eqn:?; lia).
  cbn [mbind option_bind]. decode_step. decode_step. cbn.
  by rewrite (mod_small_add 240 30 q1 8), (mod_small_add 128 2 q2 64), (mod_small_add 128 2 q3 64), (mod_small_add 128 2 q4 64) by lia.
Qed.

Lemma Runes_single s r :
  128 <= code (default nul (String.get 0 s)) -> DecodeRune s = (r, String.length s) -> Runes s = [(r, s)].
Proof.
  destruct s as [|c s]; [done|]. intros Hc Hd. change (128 <= code c) in Hc. unfold Runes.
  cbn [String.length decode_all]. rewrite (proj2 (Z.ltb_ge _ _) Hc), Hd. cbn [String.length].
  assert (forall s, str_take (String.length s) s = s) as Ht by (induction s0; cbn; congruence).
  assert (forall s, str_drop (String.length s) s = "") as Hdr by (induction s0; cbn; congruence).
  cbn. rewrite Ht, Hdr. by destruct (String.length s).
Qed.

(** Decoding an encoded rune. *)
Lemma Runes_EncodeRune r : valid_rune r -> Runes (EncodeRune r) = [(r, EncodeRune r)].
Proof.
  intros Hv. pose proof (Hv : valid_rune r) as [Hr Hs].
  destruct (decide (r < 128)).
  { rewrite EncodeRune_1 by lia. unfold byte, char_str. rewrite Runes_ascii by (rewrite code_byte; lia).
    by rewrite code_byte by lia. }
  apply Runes_single.
  - destruct (decide (r < 2048)); [|destruct (decide (r < 65536))];
      [rewrite EncodeRune_2 by lia|rewrite EncodeRune_3 by (done || lia)|rewrite EncodeRune_4 by (done || lia)];
      rewrite byte_app; cbn; rewrite code_byte; Z.to_euclidean_division_equations; lia.
  - destruct (decide (r < 2048)); [|destruct (decide (r < 65536))].
    + rewrite EncodeRune_2 by lia. rewrite <- (str_app_nil_r (byte (128 + _))).
      rewrite DecodeRune_2; [f_equal| |]; Z.to_euclidean_division_equations; lia.
    + rewrite EncodeRune_3 by (done || lia). rewrite <- (str_app_nil_r (byte (128 + r mod 64))).
      rewrite DecodeRune_3; [f_equal| | | | |]; Z.to_euclidean_division_equations; lia.
    + rewrite EncodeRune_4 by (done || lia). rewrite <- (str_app_nil_r (byte (128 + r mod 64))).
      rewrite DecodeRune_4; [f_equal| | | | | |]; Z.to_euclidean_division_equations; lia.
Qed.
