(* ===== verification/Values.v ===== *)
(** The values of the BUILD language: the types of [src/parse/asp/objects.go].

    A list is a Go slice and a dict a Go map, so values refer to a heap: a list is a
    window on an array that other lists may share, with room to grow in place, and a
    dict is a reference.  Functions are references too. *)
From S2P Require Import Prelude.

(** A slice header: the array, where in it the slice begins, its length, and how far
    it could be extended. *)
Record gslice := MkGslice { sl_arr : nat; sl_off : nat; sl_len : nat; sl_cap : nat }.

#[export] Instance gslice_eq_dec : EqDecision gslice.
Proof. solve_decision. Defined.

Inductive pyObject :=
  | pyBool (b : bool)
  | pyNone
  | pyInt (i : Z)
  | pyString (s : string)
  | pyList (l : gslice)
  | pyFrozenList (l : gslice)
  | pyDict (d : nat)
  | pyFrozenDict (d : nat)
  | pyFunc (name : string) (f : nat)
  (** [r] is where it is *)
  | pyRange (r : nat) (start stop step : Z)
  | pyConfig (c : nat)
  | pyFrozenConfig (c : nat)
  | pySentinel (s : string).

#[export] Instance pyObject_eq_dec : EqDecision pyObject.
Proof. solve_decision. Defined.
