(* ===== verification/Ast.v ===== *)
(** The syntax trees of the BUILD language: [src/parse/asp/grammar.go].

    A struct whose fields exclude each other, with nil for the absent ones, is an
    inductive type with a constructor per field.  [KeywordsOnly] and [IsBuiltin] of a
    function, which only concern the builtins, are left out. *)
From S2P Require Import Prelude GoStrings Values.

#[local] Open Scope Z_scope.

(** ** Operators *)

Module Op.

Inductive Operator :=
  | Add | Subtract | Multiply | Divide | FloorDivide | Modulo | Negate
  | LessThan | GreaterThan | LessThanOrEqual | GreaterThanOrEqual
  | Equal | NotEqual | In | NotIn | And | Or | Not | Union | Is | IsNot | Index.

#[global] Instance Operator_eq_dec : EqDecision Operator.
Proof. solve_decision. Defined.

Definition Precedence (o : Operator) : Z :=
  match o with
  | Negate => 4
  | Multiply | Divide | FloorDivide | Modulo => 3
  | Add | Subtract => 2
  | Union => 1
  | Not => -1
  | And => -2
  | Or => -3
  | _ => 0
  end.

Definition Lazy (o : Operator) : bool := bool_decide (o = And) || bool_decide (o = Or).

Definition operators : list (string * Operator) :=
  [("+", Add); ("-", Subtract); ("*", Multiply); ("/", Divide); ("//", FloorDivide); ("%", Modulo);
   ("<", LessThan); (">", GreaterThan); ("and", And); ("or", Or); ("is", Is); ("is not", IsNot);
   ("in", In); ("not in", NotIn); ("==", Equal); ("!=", NotEqual); (">=", GreaterThanOrEqual);
   ("<=", LessThanOrEqual); ("|", Union); ("not", Not)].

Fixpoint lookup_by {A B} (f : A -> bool) (l : list (A * B)) : option B :=
  match l with
  | [] => None
  | (a, b) :: l => if f a then Some b else lookup_by f l
  end.

(** [operators[name]] *)
Definition lookup (name : string) : option Operator := lookup_by (String.eqb name) operators.

Definition to_string (o : Operator) : string :=
  match lookup_by (fun o' => bool_decide (o = o')) (map (fun '(k, v) => (v, k)) operators) with
  | Some k => k
  | None => if bool_decide (o = Negate) then "-" else "unknown"
  end.

(** Every operator the parser can look up prints as the name it is looked up by. *)
Lemma lookup_to_string name o : lookup name = Some o -> to_string o = name.
Proof.
  unfold lookup, operators. cbn [lookup_by].
  repeat (case_match; [intros [= <-]; symmetry; by apply String.eqb_eq|]). done.
Qed.

End Op.

(** ** Expressions *)

(** One variable of a format string, with the text before it. *)
Record FStringVar := MkFStringVar { Prefix : string; Var : list string }.
Record FString := MkFString { Vars : list FStringVar; Suffix : string }.

Inductive Expression :=
  | MkExpression (Pos EndPos : Z) (Val : ValueExpression) (ops : list OpExpression) (If : option InlineIf)
      (optimised : option optimisedExpression)
(** what evaluating the expression comes down to, once it has been optimised; the
    expression's value is then gone *)
with optimisedExpression :=
  | OptConstant (c : pyObject)
  | OptLocal (name : string)
  | OptConfig (name : string)
  | OptJoin (Base : string) (l : List)
(** a unary operator has no expression *)
with OpExpression :=
  | MkOpExpression (op : Op.Operator) (Expr : option Expression)
with InlineIf :=
  | MkInlineIf (Condition Else : Expression)
with ValueExpression :=
  | MkValueExpression (val : Value) (Slices : list Slice) (suffix : option ValueSuffix)
with Value :=
  | VString (s : string)
  | VFString (f : FString)
  | VTrue
  | VFalse
  | VNone
  | VInt (i : Z)
  | VList (l : List)
  | VTuple (l : List)
  | VDict (d : Dict)
  | VLambda (l : Lambda)
  | VIdent (i : IdentExpr)
with ValueSuffix :=
  | VProperty (i : IdentExpr)
  | VCall (c : Call)
with IdentExpr :=
  | MkIdentExpr (Pos EndPos : Z) (Name : string) (Action : list IdentExprAction)
with IdentExprAction :=
  | AProperty (i : IdentExpr)
  | ACall (c : Call)
with Call :=
  | MkCall (Arguments : list CallArgument)
with CallArgument :=
  | MkCallArgument (Pos : Z) (Name : string) (Val : Expression)
with List :=
  | MkList (Values : list Expression) (comp : option Comprehension)
with Dict :=
  | MkDict (Items : list DictItem) (comp : option Comprehension)
with DictItem :=
  | MkDictItem (Key Val : Expression)
with Slice :=
  | MkSlice (Start : option Expression) (Colon : string) (End_ : option Expression)
with Comprehension :=
  | MkComprehension (Names : list string) (Expr : Expression) (Second : option SecondComprehension)
      (If : option Expression)
with SecondComprehension :=
  | MkSecondComprehension (Names : list string) (Expr : Expression)
with Lambda :=
  | MkLambda (Arguments : list Argument) (Expr : Expression)
with Argument :=
  | MkArgument (Name : string) (Types Aliases : list string) (Val : option Expression) (IsPrivate : bool).

Definition ex_Pos (e : Expression) : Z := let 'MkExpression p _ _ _ _ _ := e in p.
Definition ex_EndPos (e : Expression) : Z := let 'MkExpression _ p _ _ _ _ := e in p.
Definition ex_Val (e : Expression) : ValueExpression := let 'MkExpression _ _ v _ _ _ := e in v.
Definition ex_Op (e : Expression) : list OpExpression := let 'MkExpression _ _ _ o _ _ := e in o.
Definition ex_If (e : Expression) : option InlineIf := let 'MkExpression _ _ _ _ i _ := e in i.
Definition ex_optimised (e : Expression) : option optimisedExpression := let 'MkExpression _ _ _ _ _ o := e in o.

Definition with_EndPos (e : Expression) (p : Z) : Expression :=
  MkExpression (ex_Pos e) p (ex_Val e) (ex_Op e) (ex_If e) (ex_optimised e).
Definition with_If (e : Expression) (i : option InlineIf) : Expression :=
  MkExpression (ex_Pos e) (ex_EndPos e) (ex_Val e) (ex_Op e) i (ex_optimised e).
Definition with_Op (e : Expression) (o : list OpExpression) : Expression :=
  MkExpression (ex_Pos e) (ex_EndPos e) (ex_Val e) o (ex_If e) (ex_optimised e).
Definition with_optimised (e : Expression) (o : optimisedExpression) : Expression :=
  MkExpression (ex_Pos e) (ex_EndPos e) (ex_Val e) (ex_Op e) (ex_If e) (Some o).

Definition op_Op (o : OpExpression) : Op.Operator := let 'MkOpExpression op _ := o in op.
Definition op_Expr (o : OpExpression) : option Expression := let 'MkOpExpression _ e := o in e.

Definition ie_EndPos (i : IdentExpr) : Z := let 'MkIdentExpr _ p _ _ := i in p.

(** ** Statements *)

Inductive IdentStatementAction :=
  | ActProperty (i : IdentExpr)
  | ActCall (c : Call)
  | ActAssign (e : Expression)
  | ActAugAssign (e : Expression).

Inductive IdentStatementRest :=
  | INone
  | IUnpack (Names : list string) (Expr : Expression)
  | IIndexAssign (Expr Assign : Expression)
  | IIndexAugAssign (Expr AugAssign : Expression)
  | IAction (a : IdentStatementAction).

Record IdentStatement := MkIdentStatement { is_Name : string; is_rest : IdentStatementRest }.

Inductive Statement :=
  | MkStatement (Pos EndPos : Z) (kind : StatementKind)
with StatementKind :=
  | SFuncDef (f : FuncDef)
  | SFor (f : ForStatement)
  | SIf (i : IfStatement)
  | SReturn (Values : list Expression)
  | SRaise (e : Expression)
  | SAssert (Expr : Expression) (Message : option Expression)
  | SIdent (i : IdentStatement)
  | SLiteral (e : Expression)
  | SPass
  | SContinue
  | SBreak
with FuncDef :=
  | MkFuncDef (Name : string) (Arguments : list Argument) (Docstring : string) (Statements : list Statement)
      (EoDef : Z) (Return : string) (IsPrivate : bool)
with ForStatement :=
  | MkForStatement (Names : list string) (Expr : Expression) (Statements : list Statement)
with IfStatement :=
  | MkIfStatement (HeaderPos HeaderEndPos : Z) (Condition : Expression) (Statements : list Statement)
      (Elif : list IfStatementElif) (ElseHeaderPos ElseHeaderEndPos : Z) (ElseStatements : list Statement)
with IfStatementElif :=
  | MkIfStatementElif (HeaderPos HeaderEndPos : Z) (Condition : Expression) (Statements : list Statement).
