(* ===== verification/Parser.v ===== *)
(** The parser of the BUILD language: [src/parse/asp/grammar_parse.go].

    A recursive descent parser over the lexer.  Its functions run in the monad [P],
    over the parser's state; a user error is [EFail], as in the lexer.  They recurse
    on fuel, and [parse_fuel] is shown to be enough for every file.  The two
    variants of a function that return an expression or fill one in place are one
    definition here. *)
From S2P Require Import Prelude GoStrings Lexer Ast.
From Stdlib Require Import Ascii.

#[local] Open Scope Z_scope.

Definition keywords : list string :=
  ["False"; "None"; "True"; "and"; "as"; "assert"; "break"; "class"; "continue"; "def"; "del"; "elif"; "else";
   "except"; "finally"; "for"; "from"; "global"; "if"; "import"; "in"; "is"; "lambda"; "nonlocal"; "not"; "or";
   "pass"; "raise"; "return"; "try"; "while"; "with"; "yield"].

Definition knownTypeNames : list string :=
  ["bool"; "str"; "int"; "list"; "dict"; "function"; "config"; "none"].

(** ** The state and its monad *)

Record parser := MkParser { p_l : lex; endPos : Z; inFor : bool }.

Definition P (A : Type) : Type := parser -> res (A * parser).

#[export] Instance P_ret : MRet P := fun A a s => Ok (a, s).
#[export] Instance P_bind : MBind P := fun A B f m s => '(a, s) ← m s; f a s.

Definition ret {A} (a : A) : P A := mret a.
Definition lift {A} (r : res A) : P A := fun s => a ← r; Ok (a, s).
Definition no_fuel {A} : P A := fun _ => NoFuel.

Definition set_endPos (z : Z) : P unit := fun s => Ok (tt, MkParser (p_l s) z (inFor s)).
Definition get_endPos : P Z := fun s => Ok (endPos s, s).
Definition set_inFor (b : bool) : P unit := fun s => Ok (tt, MkParser (p_l s) (endPos s) b).
Definition get_inFor : P bool := fun s => Ok (inFor s, s).

Definition peek : P Token := fun s => Ok (Peek (p_l s), s).

(** ** Messages *)

Definition reverseSymbol (sym : Z) : string :=
  if sym =? EOF then "end of file"
  else if sym =? Ident then "identifier"
  else if sym =? Int then "integer"
  else if sym =? TString then "string"
  else if sym =? LexOperator then "operator"
  else if sym =? EOL then "end of line"
  else if sym =? Unindent then "unindent"
  else char_str (ascii_of_N (Z.to_N sym)).

Definition Token_String (tok : Token) : string :=
  if String.eqb (tok_Value tok) "" then reverseSymbol (tok_Type tok) else tok_Value tok.

Definition fail {A} (tok : Token) (msg : string) : P A := lift (Err (EFail (tok_Pos tok) msg)).

(** [assert]: the name is a keyword here. *)
Definition assert_ (b : bool) (tok : Token) (msg : string) : P unit := if b then ret tt else fail tok msg.

(** ** Strings *)

(** [s[i : len(s)-1]] *)
Definition slice_last (i : nat) (s : string) : res string :=
  if (i + 1 <=? String.length s)%nat then Ok (str_slice i (String.length s - 1) s) else Err EIndex.

(** [strings.ReplaceAll(s, cc, c)] for a byte [c]. *)
Fixpoint undouble (c : ascii) (s : string) : string :=
  match s with
  | String a ((String b r) as s') =>
      if Ascii.eqb a c && Ascii.eqb b c then String c (undouble c r) else String a (undouble c s')
  | _ => s
  end.

Definition unescape_braces (s : string) : string := undouble "}" (undouble "{" s).

Definition open_brace : ascii := "{"%char.

(** [findBrace]: from the byte at [i], after [last]. *)
Fixpoint findBrace_from (last : ascii) (i : nat) (s : string) : option nat :=
  match s with
  | "" => None
  | String c s' =>
      if Ascii.eqb c open_brace && negb (Ascii.eqb last open_brace) && negb (Ascii.eqb last "$") then
        match s' with
        | String d _ => if Ascii.eqb d open_brace then findBrace_from c (S i) s' else Some i
        | "" => Some i
        end
      else findBrace_from c (S i) s'
  end.

Definition findBrace (s : string) : option nat := findBrace_from " " 0 s.

(** The loop of [parseFString]; [pos] is where in the file [s] is. *)
Fixpoint fstring_loop (fuel : nat) (pos : Z) (vars : list FStringVar) (s : string) : res FString :=
  match fuel with
  | O => NoFuel
  | S fuel =>
      match findBrace s with
      | None => Ok (MkFString vars (unescape_braces s))
      | Some idx =>
          let prefix := unescape_braces (str_take idx s) in
          let s := str_drop (S idx) s in
          let pos := pos + Z.of_nat (S idx) in
          match index_byte "}" s with
          | None => Err (EFail pos "Unterminated brace in fstring")
          | Some idx =>
              let v := MkFStringVar prefix (split_byte "." (str_take idx s)) in
              fstring_loop fuel (pos + Z.of_nat (S idx)) (vars ++ [v]) (str_drop (S idx) s)
          end
      end
  end.

(** The run-time error of indexing no variables, which [parseFileInput] turns into
    the error it returns. *)
Definition vars_panic : err := EPanic "runtime error: index out of range [0] with length 0".

Definition string_of (v : Value) : string := match v with VString s => s | _ => "" end.

Definition concatStrings (lhs rhs : ValueExpression) : res ValueExpression :=
  let 'MkValueExpression lv ls lsuf := lhs in
  let 'MkValueExpression rv rs rsuf := rhs in
  match lv, rv with
  | VFString l, VFString r =>
      match Vars r with
      | [] => Ok (MkValueExpression (VFString (MkFString (Vars l) (Suffix l +:+ Suffix r))) ls lsuf)
      | v :: vs =>
          let v := MkFStringVar (Suffix l +:+ Prefix v) (Var v) in
          Ok (MkValueExpression (VFString (MkFString (Vars l ++ v :: vs) (Suffix r))) rs rsuf)
      end
  | VFString l, _ =>
      s ← slice_last 1 (string_of rv);
      Ok (MkValueExpression (VFString (MkFString (Vars l) (Suffix l +:+ s))) ls lsuf)
  | _, VFString r =>
      match Vars r with
      | [] => Err vars_panic
      | v :: vs =>
          s ← slice_last 1 (string_of lv);
          Ok (MkValueExpression (VFString (MkFString (MkFStringVar (s +:+ Prefix v) (Var v) :: vs) (Suffix r))) rs rsuf)
      end
  | _, _ =>
      s1 ← slice_last 1 (string_of lv);
      s2 ← slice_last 1 (string_of rv);
      Ok (MkValueExpression (VString (String double_quote (s1 +:+ s2 +:+ char_str double_quote))) ls lsuf)
  end.

(** [strconv.Atoi] *)
Fixpoint parse_digits (acc : Z) (s : string) : option Z :=
  match s with
  | "" => Some acc
  | String c s => if is_digit c then parse_digits (10 * acc + (code c - 48)) s else None
  end.

Definition Atoi (s : string) : option Z :=
  let '(sign, ds) :=
    match s with
    | String c s' => if Ascii.eqb c "-" then (-1, s') else if Ascii.eqb c "+" then (1, s') else (1, s)
    | "" => (1, s)
    end in
  if String.eqb ds "" then None
  else n ← parse_digits 0 ds; let i := sign * n in if (-(2 ^ 63) <=? i) && (i <? 2 ^ 63) then Some i else None.

Section parser.
Context (ident_rune : Z -> bool).

(** ** Reading tokens *)

(** [p.l.Next()] *)
Definition advance : P Token := fun s =>
  '(tok, l) ← Next ident_rune (p_l s); Ok (tok, MkParser l (endPos s) (inFor s)).

Definition p_AssignFollows : P bool := fun s =>
  '(b, l) ← AssignFollows (p_l s); Ok (b, MkParser l (endPos s) (inFor s)).

(** [p.endPos = p.l.Next().EndPos()] *)
Definition advance_end : P unit := tok ← advance; set_endPos (EndPos tok).

Definition assertTokenType (tok : Token) (expectedType : Z) : P unit :=
  assert_ (tok_Type tok =? expectedType) tok
    ("unexpected token " +:+ Token_String tok +:+ ", expected " +:+ reverseSymbol expectedType).

Definition p_next (expectedType : Z) : P Token :=
  tok ← advance; assertTokenType tok expectedType;; ret tok.

Definition nextv (expectedValue : string) : P Token :=
  tok ← advance;
  assert_ (String.eqb (tok_Value tok) expectedValue) tok
    ("unexpected token " +:+ Token_String tok +:+ ", expected " +:+ expectedValue);;
  ret tok.

Definition optional (option : Z) : P bool :=
  tok ← peek; if tok_Type tok =? option then advance;; ret true else ret false.

Definition optionalv (option : string) : P bool :=
  tok ← peek; if String.eqb (tok_Value tok) option then advance;; ret true else ret false.

Definition anythingBut (r : Z) (tok : Token) : bool := negb (tok_Type tok =? r).

Definition oneof (expectedTypes : list Z) : P Token :=
  tok ← advance;
  assert_ (existsb (Z.eqb (tok_Type tok)) expectedTypes) tok
    ("unexpected token " +:+ tok_Value tok +:+ ", expected one of " +:+ join " " (map reverseSymbol expectedTypes));;
  ret tok.

Definition oneofval (expectedValues : list string) : P Token :=
  tok ← advance;
  assert_ (existsb (String.eqb (tok_Value tok)) expectedValues) tok
    ("unexpected token " +:+ tok_Value tok +:+ ", expected one of " +:+ join ", " expectedValues);;
  ret tok.

(** ** Loops *)

(** As long as the next token satisfies [cond]. *)
Fixpoint while {A} (fuel : nat) (cond : Token -> bool) (body : P A) : P (list A) :=
  match fuel with
  | O => no_fuel
  | S fuel =>
      tok ← peek;
      if cond tok then x ← body; xs ← while fuel cond body; ret (x :: xs) else ret []
  end.

(** Items between commas, the last one optional, until [stop] or no comma follows.
    An item is given the items before it. *)
Fixpoint comma_list {A} (fuel : nat) (stop : Token -> bool) (item : list A -> P A) (acc : list A) : P (list A) :=
  match fuel with
  | O => no_fuel
  | S fuel =>
      tok ← peek;
      if stop tok then ret acc
      else
        x ← item acc;
        more ← optional (code ",");
        if (more : bool) then comma_list fuel stop item (acc ++ [x]) else ret (acc ++ [x])
  end.

(** At least one item, and another after each [sep]. *)
Fixpoint sep_list {A} (fuel : nat) (sep : Z) (item : P A) : P (list A) :=
  match fuel with
  | O => no_fuel
  | S fuel =>
      x ← item;
      more ← optional sep;
      if (more : bool) then xs ← sep_list fuel sep item; ret (x :: xs) else ret [x]
  end.

Definition is_type (t : Z) (tok : Token) : bool := tok_Type tok =? t.
Definition is_value (v : string) (tok : Token) : bool := String.eqb (tok_Value tok) v.

Definition parseIdentList (fuel : nat) : P (list string) :=
  sep_list fuel (code ",") (tok ← p_next Ident; ret (tok_Value tok)).

Definition parseFString : P FString :=
  tok ← p_next TString;
  s ← lift (slice_last 2 (tok_Value tok));
  set_endPos (EndPos tok);;
  lift (fstring_loop (S (String.length s)) (tok_Pos tok + 1) [] s).

(** A list or dict display: [what] says what there must be one of before [for]. *)
Definition parse_comp {A} (items : list A) (what : string) (comp : P Comprehension) : P (option Comprehension) :=
  tok ← peek;
  if is_value "for" tok then
    assert_ (length items =? 1)%nat tok ("Must have exactly 1 " +:+ what);;
    c ← comp; ret (Some c)
  else ret None.

(** ** Expressions *)

Definition set_end_of {A} (end_ : A -> Z) (m : P A) : P A := x ← m; set_endPos (end_ x);; ret x.

Definition stop_at (t : Z) (tok : Token) : bool := tok_Type tok =? t.

(** The unary operator an expression may start with. *)
Definition parse_unary : P (list OpExpression) :=
  tok ← peek;
  if tok_Type tok =? code "-" then advance;; ret [MkOpExpression Op.Negate None]
  else if is_value "not" tok then advance;; ret [MkOpExpression Op.Not None]
  else ret [].

(** [is not] is two tokens. *)
Definition join_is_not (op : Op.Operator) : P Op.Operator :=
  if bool_decide (op = Op.Is) then
    tok ← peek;
    if is_value "not" tok then set_endPos (EndPos tok);; advance;; ret Op.IsNot else ret op
  else ret op.

(** The operator of that name, if there is one, which is the next token. *)
Definition take_operator (name : string) : P (option Op.Operator) :=
  match Op.lookup name with
  | None => ret None
  | Some op => advance;; op ← join_is_not op; ret (Some op)
  end.

(** The binary operator that follows a value, if one does; [not in] is two tokens. *)
Definition parse_binary : P (option Op.Operator) :=
  tok ← peek;
  if is_value "not" tok then
    advance;;
    tok ← peek;
    assert_ (is_value "in" tok) tok ("expected 'in', not " +:+ tok_Value tok);;
    let tok := MkToken (tok_Type tok) "not in" (tok_Pos tok) in
    set_endPos (EndPos tok);;
    take_operator (tok_Value tok)
  else take_operator (tok_Value tok).

(** The name of a keyword argument, when [=] follows it, with its position. *)
Definition call_name (args : list CallArgument) : P (Z * string) :=
  tok ← peek;
  named ← (if tok_Type tok =? Ident then p_AssignFollows else ret false);
  if (named : bool) then
    p_next Ident;;
    p_next (code "=");;
    assert_ (negb (existsb (fun '(MkCallArgument _ name _) => String.eqb name (tok_Value tok)) args)) tok
      ("Repeated argument " +:+ tok_Value tok);;
    ret (tok_Pos tok, tok_Value tok)
  else ret (0, "").

Fixpoint parseExpression (fuel : nat) : P Expression :=
  match fuel with
  | O => no_fuel
  | S fuel =>
      e ← parseUnconditionalExpression fuel;
      e ← parseInlineIf fuel e;
      endPos ← get_endPos;
      ret (with_EndPos e endPos)
  end
with parseInlineIf (fuel : nat) (e : Expression) : P Expression :=
  match fuel with
  | O => no_fuel
  | S fuel =>
      is_if ← optionalv "if";
      if (is_if : bool) then
        condition ← parseExpression fuel;
        nextv "else";;
        else_ ← parseExpression fuel;
        ret (with_If e (Some (MkInlineIf condition else_)))
      else ret e
  end
with parseUnconditionalExpression (fuel : nat) : P Expression :=
  match fuel with
  | O => no_fuel
  | S fuel =>
      start ← peek;
      unary ← parse_unary;
      v ← parseValueExpression fuel;
      op ← parse_binary;
      match op with
      | None => ret (MkExpression (tok_Pos start) 0 v unary None None)
      | Some op =>
          e ← parseUnconditionalExpression fuel;
          (* the operators of the operand are hoisted *)
          ret (MkExpression (tok_Pos start) 0 v (unary ++ MkOpExpression op (Some (with_Op e [])) :: ex_Op e) None None)
      end
  end
with parseValueExpression (fuel : nat) : P ValueExpression :=
  match fuel with
  | O => no_fuel
  | S fuel =>
      tok ← peek;
      if tok_Type tok =? TString then
        v ← (match tok_Value tok with
             | "" => lift (Err EIndex)
             | String c _ =>
                 if Ascii.eqb c "f" then f ← parseFString; ret (VFString f)
                 else advance_end;; ret (VString (tok_Value tok))
             end);
        after ← peek;
        if tok_Type after =? TString then
          rhs ← parseValueExpression fuel;
          lift (concatStrings (MkValueExpression v [] None) rhs)
        else parse_suffix fuel v
      else
        v ← parse_value fuel tok;
        parse_suffix fuel v
  end
(** the cases of a value that is not a string *)
with parse_value (fuel : nat) (tok : Token) : P Value :=
  match fuel with
  | O => no_fuel
  | S fuel =>
      if tok_Type tok =? Int then
        assert_ (String.length (tok_Value tok) <? 19)%nat tok ("int literal is too large: " +:+ Token_String tok);;
        match Atoi (tok_Value tok) with
        | None => fail tok ("invalid int value " +:+ Token_String tok)
        | Some i => advance_end;; ret (VInt i)
        end
      else if is_value "False" tok then advance_end;; ret VFalse
      else if is_value "True" tok then advance_end;; ret VTrue
      else if is_value "None" tok then advance_end;; ret VNone
      else if tok_Type tok =? code "[" then l ← parseList fuel (code "[") (code "]"); ret (VList l)
      else if tok_Type tok =? code "(" then l ← parseList fuel (code "(") (code ")"); ret (VTuple l)
      else if tok_Type tok =? code "{" then d ← parseDict fuel; ret (VDict d)
      else if is_value "lambda" tok then l ← parseLambda fuel; ret (VLambda l)
      else if tok_Type tok =? Ident then i ← set_end_of ie_EndPos (parseIdentExpr fuel); ret (VIdent i)
      else fail tok ("Unexpected token " +:+ Token_String tok)
  end
(** the slices after a value, then the property or call *)
with parse_suffix (fuel : nat) (v : Value) : P ValueExpression :=
  match fuel with
  | O => no_fuel
  | S fuel =>
      slices ← while fuel (is_type (code "[")) (parseSlice fuel);
      dot ← optional (code ".");
      if (dot : bool) then
        i ← set_end_of ie_EndPos (parseIdentExpr fuel);
        ret (MkValueExpression v slices (Some (VProperty i)))
      else
        call ← optional (code "(");
        if (call : bool) then c ← parseCall fuel; ret (MkValueExpression v slices (Some (VCall c)))
        else ret (MkValueExpression v slices None)
  end
with parseIdentExpr (fuel : nat) : P IdentExpr :=
  match fuel with
  | O => no_fuel
  | S fuel =>
      identTok ← p_next Ident;
      actions ← while fuel (fun tok => is_type (code ".") tok || is_type (code "(") tok)
        (tok ← advance;
         if tok_Type tok =? code "." then
           i ← parseIdentExpr fuel; ret (AProperty i, ie_EndPos i)
         else
           c ← parseCall fuel; endPos ← get_endPos; ret (ACall c, endPos));
      let endPos := default 0 (snd <$> last actions) in
      let endPos := if endPos =? 0 then EndPos identTok else endPos in
      ret (MkIdentExpr (tok_Pos identTok) endPos (tok_Value identTok) (fst <$> actions))
  end
(** after the opening bracket *)
with parseCall (fuel : nat) : P Call :=
  match fuel with
  | O => no_fuel
  | S fuel =>
      args ← comma_list fuel (stop_at (code ")"))
        (fun args =>
           '(pos, name) ← call_name args;
           e ← parseExpression fuel;
           ret (MkCallArgument pos name e)) [];
      set_end_of EndPos (p_next (code ")"));;
      ret (MkCall args)
  end
with parseList (fuel : nat) (opening closing : Z) : P List :=
  match fuel with
  | O => no_fuel
  | S fuel =>
      p_next opening;;
      values ← comma_list fuel (stop_at closing) (fun _ => parseExpression fuel) [];
      comp ← parse_comp values "item in a list comprehension" (parseComprehension fuel);
      set_end_of EndPos (p_next closing);;
      ret (MkList values comp)
  end
with parseDict (fuel : nat) : P Dict :=
  match fuel with
  | O => no_fuel
  | S fuel =>
      p_next (code "{");;
      items ← comma_list fuel (stop_at (code "}"))
        (fun _ =>
           key ← parseExpression fuel;
           p_next (code ":");;
           val ← parseExpression fuel;
           ret (MkDictItem key val)) [];
      comp ← parse_comp items "key:value pair in a dict comprehension" (parseComprehension fuel);
      set_end_of EndPos (p_next (code "}"));;
      ret (MkDict items comp)
  end
with parseSlice (fuel : nat) : P Slice :=
  match fuel with
  | O => no_fuel
  | S fuel =>
      p_next (code "[");;
      colon ← optional (code ":");
      '(start, colon) ←
        (if (colon : bool) then ret (None, ":")
         else
           e ← parseExpression fuel;
           colon ← optional (code ":");
           ret (Some e, if (colon : bool) then ":" else ""));
      tok ← peek;
      if tok_Type tok =? code "]" then advance_end;; ret (MkSlice start colon None)
      else
        e ← parseExpression fuel;
        set_end_of EndPos (p_next (code "]"));;
        ret (MkSlice start colon (Some e))
  end
with parseComprehension (fuel : nat) : P Comprehension :=
  match fuel with
  | O => no_fuel
  | S fuel =>
      nextv "for";;
      names ← parseIdentList fuel;
      nextv "in";;
      e ← parseUnconditionalExpression fuel;
      is_for ← optionalv "for";
      second ←
        (if (is_for : bool) then
           names ← parseIdentList fuel;
           nextv "in";;
           e ← parseUnconditionalExpression fuel;
           ret (Some (MkSecondComprehension names e))
         else ret None);
      is_if ← optionalv "if";
      if_ ← (if (is_if : bool) then e ← parseUnconditionalExpression fuel; ret (Some e) else ret None);
      ret (MkComprehension names e second if_)
  end
with parseLambda (fuel : nat) : P Lambda :=
  match fuel with
  | O => no_fuel
  | S fuel =>
      nextv "lambda";;
      args ← comma_list fuel (anythingBut Ident)
        (fun _ =>
           tok ← advance;
           assigned ← optional (code "=");
           value ← (if (assigned : bool) then e ← parseExpression fuel; ret (Some e) else ret None);
           ret (MkArgument (tok_Value tok) [] [] value false)) [];
      p_next (code ":");;
      e ← parseExpression fuel;
      ret (MkLambda args e)
  end.

(** ** Statements *)

(** The default value of an argument, unless the argument ends here. *)
Definition ends_argument (tok : Token) : bool := is_type (code ",") tok || is_type (code ")") tok.

Definition parseArgument_default (fuel : nat) (name : string) (types aliases : list string) : P Argument :=
  e ← parseExpression fuel;
  ret (MkArgument name types aliases (Some e) (has_prefix name "_")).

(** The aliases, after the first [&]. *)
Definition parseArgument_aliases (fuel : nat) (name : string) (types : list string) : P Argument :=
  aliases ← sep_list fuel (code "&") (tok ← p_next Ident; ret (tok_Value tok));
  tok ← peek;
  if ends_argument tok then ret (MkArgument name types aliases None (has_prefix name "_"))
  else p_next (code "=");; parseArgument_default fuel name types aliases.

Definition parseArgument (fuel : nat) : P Argument :=
  tok ← p_next Ident;
  let name := tok_Value tok in
  tok ← peek;
  if ends_argument tok then ret (MkArgument name [] [] None (has_prefix name "_"))
  else
    tok ← oneof [code ":"; code "&"; code "="];
    if tok_Type tok =? code ":" then
      types ← sep_list fuel (code "|")
        (tok ← oneofval ["bool"; "str"; "int"; "list"; "dict"; "function"; "config"]; ret (tok_Value tok));
      tok ← peek;
      if ends_argument tok then ret (MkArgument name types [] None (has_prefix name "_"))
      else
        tok ← oneof [code "&"; code "="];
        if tok_Type tok =? code "&" then parseArgument_aliases fuel name types
        else parseArgument_default fuel name types []
    else if tok_Type tok =? code "&" then parseArgument_aliases fuel name []
    else parseArgument_default fuel name [] [].

Definition parseReturn (fuel : nat) : P (list Expression) :=
  values ← comma_list fuel (is_type EOL) (fun _ => parseExpression fuel) [];
  p_next EOL;;
  ret values.

Definition parseIdentStatement (fuel : nat) : P IdentStatement :=
  tok ← peek;
  nameTok ← p_next Ident;
  let name := tok_Value nameTok in
  assert_ (negb (existsb (String.eqb name) keywords)) tok ("Cannot operate on keyword or constant " +:+ name);;
  tok ← peek;
  if tok_Type tok =? EOL then ret (MkIdentStatement name INone)
  else
    tok ← advance;
    rest ←
      (if tok_Type tok =? code "," then
         names ← parseIdentList fuel;
         p_next (code "=");;
         e ← parseExpression fuel;
         ret (IUnpack names e)
       else if tok_Type tok =? code "[" then
         index ← parseExpression fuel;
         set_end_of EndPos (p_next (code "]"));;
         tok ← oneofval ["="; "+="];
         e ← parseExpression fuel;
         ret (if tok_Type tok =? code "=" then IIndexAssign index e else IIndexAugAssign index e)
       else if tok_Type tok =? code "." then
         i ← set_end_of ie_EndPos (parseIdentExpr fuel);
         ret (IAction (ActProperty i))
       else if tok_Type tok =? code "(" then
         c ← parseCall fuel;
         ret (IAction (ActCall c))
       else if tok_Type tok =? code "=" then
         e ← parseExpression fuel;
         ret (IAction (ActAssign e))
       else
         assert_ (is_value "+=" tok) tok
           ("Unexpected token " +:+ Token_String tok +:+ ", expected one of , [ . ( = +=");;
         e ← parseExpression fuel;
         ret (IAction (ActAugAssign e)) : P IdentStatementRest);
    ret (MkIdentStatement name rest).

(** [continue] and [break]. *)
Definition loop_statement (what : string) (k : StatementKind) (tok : Token) : P StatementKind :=
  inFor ← get_inFor;
  assert_ inFor tok ("'" +:+ what +:+ "' outside loop");;
  advance_end;;
  p_next EOL;;
  ret k.

(** Runs [m] with [inFor] set, and puts it back. *)
Definition with_inFor {A} (b : bool) (m : P A) : P A :=
  before ← get_inFor;
  set_inFor b;;
  x ← m;
  set_inFor before;;
  ret x.

Definition parse_simple (fuel : nat) (tok : Token) : P StatementKind :=
  if is_value "pass" tok then advance_end;; p_next EOL;; ret SPass
  else if is_value "continue" tok then loop_statement "continue" SContinue tok
  else if is_value "break" tok then loop_statement "break" SBreak tok
  else if is_value "return" tok then
    advance_end;;
    values ← parseReturn fuel;
    ret (SReturn values)
  else if is_value "raise" tok then
    advance;;
    e ← parseExpression fuel;
    p_next EOL;;
    ret (SRaise e)
  else if is_value "assert" tok then
    advance;;
    e ← parseExpression fuel;
    comma ← optional (code ",");
    message ←
      (if (comma : bool) then m ← set_end_of ex_EndPos (parseExpression fuel); ret (Some m) else ret None
       : P (option Expression));
    p_next EOL;;
    ret (SAssert e message)
  else
    kind ←
      (if tok_Type tok =? Ident then i ← parseIdentStatement fuel; ret (SIdent i)
       else e ← parseExpression fuel; ret (SLiteral e) : P StatementKind);
    p_next EOL;;
    ret kind.

(** The return type of a function. *)
Definition parse_return_type : P string :=
  tok ← peek;
  if is_value "-" tok then
    p_next (code "-");;
    p_next (code ">");;
    tok ← oneofval knownTypeNames;
    ret (tok_Value tok)
  else ret "".

(** A docstring. *)
Definition parse_docstring : P string :=
  tok ← peek;
  if tok_Type tok =? TString then advance_end;; p_next EOL;; ret (tok_Value tok) else ret "".

(** [if c:], [elif c:]: the positions and the condition. *)
Definition parse_condition (fuel : nat) (keyword : string) : P (Z * Z * Expression) :=
  start ← nextv keyword;
  condition ← parseExpression fuel;
  end_ ← p_next (code ":");
  p_next EOL;;
  ret (tok_Pos start, EndPos end_, condition).

Fixpoint parseStatement (fuel : nat) : P Statement :=
  match fuel with
  | O => no_fuel
  | S fuel =>
      tok ← peek;
      kind ←
        (if is_value "def" tok then f ← with_inFor false (parseFuncDef fuel); ret (SFuncDef f)
         else if is_value "for" tok then f ← with_inFor true (parseFor fuel); ret (SFor f)
         else if is_value "if" tok then i ← parseIf fuel; ret (SIf i)
         else parse_simple fuel tok : P StatementKind);
      endPos ← get_endPos;
      ret (MkStatement (tok_Pos tok) endPos kind)
  end
with parseStatements (fuel : nat) : P (list Statement) :=
  match fuel with
  | O => no_fuel
  | S fuel =>
      stmts ← while fuel (anythingBut Unindent) (parseStatement fuel);
      p_next Unindent;;
      ret stmts
  end
with parseFuncDef (fuel : nat) : P FuncDef :=
  match fuel with
  | O => no_fuel
  | S fuel =>
      nextv "def";;
      name ← p_next Ident;
      p_next (code "(");;
      args ← comma_list fuel (stop_at (code ")")) (fun _ => parseArgument fuel) [];
      p_next (code ")");;
      return_ ← parse_return_type;
      eoDef ← p_next (code ":");
      p_next EOL;;
      docstring ← parse_docstring;
      stmts ← parseStatements fuel;
      ret (MkFuncDef (tok_Value name) args docstring stmts (tok_Pos eoDef) return_ (has_prefix (tok_Value name) "_"))
  end
with parseFor (fuel : nat) : P ForStatement :=
  match fuel with
  | O => no_fuel
  | S fuel =>
      nextv "for";;
      names ← parseIdentList fuel;
      nextv "in";;
      e ← parseExpression fuel;
      p_next (code ":");;
      p_next EOL;;
      stmts ← parseStatements fuel;
      ret (MkForStatement names e stmts)
  end
with parseIf (fuel : nat) : P IfStatement :=
  match fuel with
  | O => no_fuel
  | S fuel =>
      '(header, header_end, condition) ← parse_condition fuel "if";
      stmts ← parseStatements fuel;
      elifs ← while fuel (is_value "elif")
        ('(header, header_end, condition) ← parse_condition fuel "elif";
         stmts ← parseStatements fuel;
         ret (MkIfStatementElif header header_end condition stmts));
      tok ← peek;
      if is_value "else" tok then
        else_ ← nextv "else";
        else_end ← p_next (code ":");
        p_next EOL;;
        else_stmts ← parseStatements fuel;
        ret (MkIfStatement header header_end condition stmts elifs (tok_Pos else_) (EndPos else_end) else_stmts)
      else ret (MkIfStatement header header_end condition stmts elifs 0 0 [])
  end.

(** Enough fuel for a file of this length: a chain of calls that reads nothing is
    less than sixteen deep, and each token makes the lexer's [measure] smaller. *)
Definition parse_fuel (b : string) : nat := 16 * (8 + 2 * String.length b).

Definition parseFileInput (b : string) : res (list Statement) :=
  l ← newLexer ident_rune b;
  '(stmts, _) ← while (parse_fuel b) (anythingBut EOF) (parseStatement (parse_fuel b)) (MkParser l 0 false);
  Ok stmts.
End parser.

(** ** Running a parser *)

(** The lexer between tokens: what [Next] relies on and keeps. *)
Record next_ok (l : lex) : Prop := {
  no_inv : lex_inv l;
  no_tail : token_tail (next l) (rest l);
  no_wf : tok_wf (next l);
}.

Lemma Next_wf ident_rune l tok l' : Next ident_rune l = Ok (tok, l') -> tok_wf (next l').
Proof. unfold Next. intros [[t l1] [Ht Hn]]%bind_Ok. simplify_eq. by eapply nextToken_wf. Qed.

Lemma skip_EOL_wf ident_rune fuel l l' : tok_wf (next l) -> skip_EOL ident_rune fuel l = Ok l' -> tok_wf (next l').
Proof.
  revert l. induction fuel as [|fuel IH]; intros l Hl; cbn [skip_EOL]; [done|]. case_match; [|by intros [= <-]].
  intros [[tok l1] [Hn Hs]]%bind_Ok. eapply IH, Hs. by eapply Next_wf.
Qed.

Lemma newLexer_next_ok ident_rune b :
  good (fun l => next_ok l /\ measure l <= 2 * len b + 7) (newLexer ident_rune b).
Proof.
  eapply good_eq; [apply newLexer_good|]. intros l Hl (Hok & _ & Hm). split; [|done].
  destruct Hok as [Hinv Ht _ _]. split; [done|done|].
  unfold newLexer in Hl. apply bind_Ok in Hl as [[tok l0] [Hn Hs]]. eapply skip_EOL_wf, Hs. by eapply Next_wf.
Qed.

(** Past the end of the file there is one more NUL to read. *)
Lemma nextToken_end ident_rune fuel l :
  rest l = char_str nul -> good (fun _ => True) (nextToken ident_rune (S fuel) l).
Proof.
  intros Hr. cbn [nextToken]. rewrite Hr. cbn [stripSpaces char_str Ascii.eqb].
  change (Ascii.eqb nul " ") with false. cbn iota. rewrite bind_Ok_l. by case_match.
Qed.

Lemma Next_step ident_rune l :
  next_ok l ->
  good (fun '(tok, l') => tok = next l /\ (tok_Type tok <> EOF -> next_ok l' /\ measure l' + 1 <= measure l))
    (Next ident_rune l).
Proof.
  intros [Hinv Ht Hwf]. unfold Next. destruct Ht as [Ht|[He Hr]].
  - eapply good_bind.
    { eapply good_eq; [apply (nextToken_good _ (S (String.length (rest l)))); [done|done|lia]|].
      intros r Hr Hp. exact (conj Hr Hp). }
    intros [tok l'] (Hn & [Hu Hi Hb] & Ht' & Hm & _); cbn [fst snd] in *. cbn. split; [done|]. intros _.
    split; [split; cbn; [by split|done|by eapply nextToken_wf]|]. unfold measure in *. cbn. lia.
  - eapply good_bind; [by apply nextToken_end|]. intros [tok l'] _. cbn. by split.
Qed.

Lemma AssignFollows_step l :
  next_ok l -> tok_Type (next l) <> EOF ->
  good (fun '(_, l') => next_ok l' /\ next l' = next l /\ measure l' <= measure l) (AssignFollows l).
Proof.
  intros [[Hu Hi Hb] Ht Hwf] He. destruct Ht as [Ht|[? _]]; [|done]. unfold AssignFollows.
  eapply good_bind; [by apply stripSpaces_good|]. intros c [[Htc [_ Ha]] _]. cbn [fst snd rest move] in *.
  assert (forall b : bool, good (fun '(_, l') => next_ok l' /\ next l' = next l /\ measure l' <= measure l)
    (Ok (b, move l c))) as Hok.
  { intros b. cbn. split; [split; cbn; [by split|by left|done]|]. unfold measure. cbn. split; [done|lia]. }
  destruct c as [[|ch s] p]; cbn [fst snd] in *; [by apply tail_ok_nonempty in Htc as (? & ? & ?)|].
  destruct (Ascii.eqb_spec ch "=") as [->|]; [|apply Hok].
  assert (tail_ok s) as Hs by (by eapply tail_ok_next).
  destruct (tail_ok_nonempty s Hs) as (b & s' & ->). cbn [first_byte]. rewrite bind_Ok_l. apply Hok.
Qed.

(** ** What a parser function does to the state *)

Definition p_ok (s : parser) : Prop := next_ok (p_l s).
Definition p_measure (s : parser) : Z := measure (p_l s).
Definition p_tok (s : parser) : Token := next (p_l s).

(** The call returns, with a user error or with the panic of [concatStrings]. *)
Definition outcome {A} (Q : A -> Prop) (r : res A) : Prop :=
  match r with
  | Ok a => Q a
  | Err (EFail _ _) => True
  | Err e => e = vars_panic
  | NoFuel => False
  end.

Lemma outcome_good {A} (Q : A -> Prop) r : good Q r -> outcome Q r.
Proof. by destruct r as [a|[]|]. Qed.

Lemma outcome_bind {A B} (Q : A -> Prop) (R : B -> Prop) (r : res A) (f : A -> res B) :
  outcome Q r -> (forall a, Q a -> outcome R (f a)) -> outcome R (r ≫= f).
Proof. destruct r as [a|[]|]; cbn; auto; congruence. Qed.

Lemma outcome_mono {A} (Q R : A -> Prop) r : outcome Q r -> (forall a, Q a -> R a) -> outcome R r.
Proof. destruct r as [a|[]|]; cbn; auto. Qed.

(** [runs b N T d m Q]: from any state of measure at most [N] where the next token
    satisfies [T] and [inFor] is [b], [m] reads at least [d] and leaves [inFor] as it
    was; what it returns satisfies [Q]. *)
Definition runs {A} (b : bool) (N : Z) (T : Token -> Prop) (d : Z) (m : P A) (Q : A -> Prop) : Prop :=
  forall s, p_ok s -> inFor s = b -> p_measure s <= N -> T (p_tok s) ->
  outcome (fun '(a, s') => p_ok s' /\ inFor s' = b /\ p_measure s' + d <= p_measure s /\ Q a) (m s).

Definition any (_ : Token) : Prop := True.

Section runs.
Context {A B : Type}.
Implicit Types (m : P A) (f : A -> P B) (T : Token -> Prop).

Lemma runs_mono b N N' T T' d d' m (Q Q' : A -> Prop) :
  runs b N T d m Q -> N' <= N -> d' <= d -> (forall t, T' t -> T t) -> (forall a, Q a -> Q' a) -> runs b N' T' d' m Q'.
Proof.
  intros Hm HN Hd HT HQ s Hs Hb Hle Ht. eapply outcome_mono; [apply Hm; [done|done|lia|by apply HT]|].
  intros [a s'] (? & ? & ? & ?). split_and!; [done|done|lia|auto].
Qed.

Lemma runs_post b N T d m (Q Q' : A -> Prop) :
  runs b N T d m Q -> (forall a, Q a -> Q' a) -> runs b N T d m Q'.
Proof. intros Hm HQ. eapply runs_mono; [exact Hm|lia|lia|done|done]. Qed.

Lemma runs_ret b N T d a (Q : A -> Prop) : d <= 0 -> Q a -> runs b N T d (ret a) Q.
Proof. intros Hd HQ s Hs Hb _ _. cbn. split_and!; [done|done|lia|done]. Qed.

Lemma runs_fail b N T d tok msg (Q : A -> Prop) : runs b N T d (fail tok msg) Q.
Proof. intros s _ _ _ _. done. Qed.

Lemma runs_negative b N T d m (Q : A -> Prop) : N < 0 -> runs b N T d m Q.
Proof. intros HN s Hs _ Hm. pose proof (measure_nonneg _ (no_inv _ Hs)). unfold p_measure in Hm. lia. Qed.

(** The first step reads [d1], the rest starts from what is left. *)
Lemma runs_bind b N T d d1 m f (R : A -> Prop) (Q : B -> Prop) :
  runs b N T d1 m R -> (forall a, R a -> runs b (N - d1) any (d - d1) (f a) Q) -> runs b N T d (m ≫= f) Q.
Proof.
  intros Hm Hf s Hs Hb HN HT. change ((m ≫= f) s) with ('(a, s') ← m s; f a s').
  eapply outcome_bind; [by apply Hm|]. intros [a s1] (Hs1 & Hb1 & Hm1 & Ha).
  eapply outcome_mono; [apply (Hf a Ha); [done|done|lia|done]|].
  intros [b' s'] (? & ? & ? & ?). split_and!; [done|done|lia|done].
Qed.
End runs.

Lemma runs_peek {B} b N T d (f : Token -> P B) Q :
  (forall tok, T tok -> tok_wf tok -> runs b N (eq tok) d (f tok) Q) -> runs b N T d (peek ≫= f) Q.
Proof. intros Hf s Hs Hb HN HT. apply (Hf (p_tok s)); [done| |done..]. apply Hs. Qed.

(** Steps that leave the lexer alone. *)
Lemma runs_set_endPos {B} b N T d z (f : unit -> P B) Q :
  runs b N T d (f tt) Q -> runs b N T d (set_endPos z ≫= f) Q.
Proof. intros Hf s Hs Hb HN HT. by apply (Hf (MkParser (p_l s) z (inFor s))). Qed.

Lemma runs_get_endPos {B} b N T d (f : Z -> P B) Q :
  (forall z, runs b N T d (f z) Q) -> runs b N T d (get_endPos ≫= f) Q.
Proof. intros Hf s Hs Hb HN HT. by apply (Hf (endPos s)). Qed.

Lemma runs_get_inFor {B} b N T d (f : bool -> P B) Q :
  runs b N T d (f b) Q -> runs b N T d (get_inFor ≫= f) Q.
Proof. intros Hf s Hs <- HN HT. by apply (Hf s). Qed.

Lemma runs_assert {B} b N T d c tok msg (f : unit -> P B) Q :
  (c = true -> runs b N T d (f tt) Q) -> runs b N T d (assert_ c tok msg ≫= f) Q.
Proof. intros Hf. unfold assert_. destruct c; [by apply Hf|]. by intros s _ _ _ _. Qed.

Lemma runs_lift {A B} b N T d (r : res A) (f : A -> P B) (R : A -> Prop) Q :
  outcome R r -> (forall a, R a -> runs b N T d (f a) Q) -> runs b N T d (lift r ≫= f) Q.
Proof.
  intros Hr Hf s Hs Hb HN HT. change ((lift r ≫= f) s) with ('(a, s') ← (a ← r; Ok (a, s)); f a s').
  destruct r as [a|e|]; [by apply Hf|by destruct e|done].
Qed.

Lemma runs_lift_last {A} b N T d (r : res A) (R : A -> Prop) : d <= 0 -> outcome R r -> runs b N T d (lift r) R.
Proof.
  intros Hd Hr s Hs Hb HN HT. unfold lift. eapply outcome_bind; [exact Hr|]. intros a Ha. cbn.
  split_and!; [done|done|lia|done].
Qed.

(** A call as the last step. *)
Lemma runs_last {A} b N T d m (Q : A -> Prop) :
  runs b N T d (m ≫= ret) Q -> runs b N T d m Q.
Proof.
  intros Hm s Hs Hb HN HT. specialize (Hm s Hs Hb HN HT).
  change ((m ≫= ret) s) with ('(a, s') ← m s; Ok (a, s')) in Hm. by destruct (m s) as [[]| |].
Qed.

Lemma with_inFor_runs {A} b b' N T d (m : P A) (Q : A -> Prop) :
  runs b' N T d m Q -> runs b N T d (with_inFor b' m) Q.
Proof.
  intros Hm s Hs Hb HN HT. specialize (Hm (MkParser (p_l s) (endPos s) b') Hs eq_refl HN HT).
  unfold with_inFor. change (outcome _ _) with (outcome (fun '(a, s') => p_ok s' /\ inFor s' = b /\
    p_measure s' + d <= p_measure s /\ Q a) ('(x, s') ← m (MkParser (p_l s) (endPos s) b'); Ok (x, MkParser (p_l s') (endPos s') (inFor s)))).
  eapply outcome_bind; [exact Hm|]. intros [a s'] (? & ? & ? & ?). cbn. by split_and!.
Qed.

(** ** The specifications of the parser's functions *)

Definition trivial {A} (_ : A) : Prop := True.

Lemma trivial_intro {A} (a : A) : trivial a.
Proof. exact I. Qed.

#[export] Hint Resolve trivial_intro : core.

Section specs.
Context (ident_rune : Z -> bool).

Lemma advance_spec s :
  p_ok s ->
  outcome (fun '(tok, s') => tok = p_tok s /\ inFor s' = inFor s /\
    (tok_Type tok <> EOF -> p_ok s' /\ p_measure s' + 1 <= p_measure s)) (advance ident_rune s).
Proof.
  intros Hs. unfold advance. eapply outcome_bind; [by apply outcome_good, Next_step|].
  intros [t l'] [-> Hok]. by cbn.
Qed.

Lemma runs_advance b N T :
  (forall t, T t -> tok_wf t -> tok_Type t <> EOF) ->
  runs b N T 1 (advance ident_rune) (fun t => T t /\ tok_wf t).
Proof.
  intros He s Hs Hb HN HT. eapply outcome_mono; [by apply advance_spec|].
  intros [t s'] (-> & Hb' & Hok). pose proof (no_wf _ Hs) as Hwf.
  destruct Hok as [? ?]; [by apply He|]. split_and!; [done|by rewrite Hb'|done|done|done].
Qed.

(** A step that checks the token it has read, and fails at the end of the file. *)
Definition expect (c : Token -> bool) (msg : Token -> string) : P Token :=
  tok ← advance ident_rune; assert_ (c tok) tok (msg tok);; ret tok.

Lemma runs_expect b N T c msg :
  (forall t, c t = true -> tok_wf t -> tok_Type t <> EOF) ->
  runs b N T 1 (expect c msg) (fun t => T t /\ c t = true /\ tok_wf t).
Proof.
  intros Hc s Hs Hb HN HT.
  change (expect c msg s) with ('(tok, s') ← advance ident_rune s; (assert_ (c tok) tok (msg tok);; ret tok) s').
  eapply outcome_bind; [by apply advance_spec|]. intros [t s'] (-> & Hb' & Hok). pose proof (no_wf _ Hs) as Hwf.
  unfold assert_. destruct (c (p_tok s)) eqn:Hct; [|done]. cbn.
  destruct Hok as [? ?]; [by apply Hc|]. split_and!; [done|by rewrite Hb'|done|done|done|done].
Qed.

Lemma wf_type t ty : (tok_Type t =? ty) = true -> ty <> EOF -> tok_Type t <> EOF.
Proof. intros. lia. Qed.

Lemma wf_value t v : String.eqb (tok_Value t) v = true -> v <> "" -> tok_wf t -> tok_Type t <> EOF.
Proof. intros Hv Hne [Hwf _] He. apply String.eqb_eq in Hv. rewrite Hwf in Hv; congruence. Qed.

Lemma p_next_runs b N T ty :
  ty <> EOF -> runs b N T 1 (p_next ident_rune ty) (fun t => tok_Type t = ty /\ tok_wf t).
Proof.
  intros Hty. eapply runs_post; [apply (runs_expect _ _ _ (fun t => tok_Type t =? ty))|].
  - intros t Ht _. by eapply wf_type.
  - intros t (_ & ? & ?). split; [lia|done].
Qed.

Lemma nextv_runs b N T v : v <> "" -> runs b N T 1 (nextv ident_rune v) trivial.
Proof.
  intros Hv. eapply runs_post; [apply (runs_expect _ _ _ (fun t => String.eqb (tok_Value t) v))|]; [|done].
  intros t Ht. by eapply wf_value.
Qed.

Lemma oneof_runs b N T tys : existsb (Z.eqb EOF) tys = false -> runs b N T 1 (oneof ident_rune tys) trivial.
Proof.
  intros Hty. eapply runs_post; [apply (runs_expect _ _ _ (fun t => existsb (Z.eqb (tok_Type t)) tys))|]; [|done].
  intros t Ht _ He. rewrite He in Ht. congruence.
Qed.

Lemma oneofval_runs b N T vs : existsb (String.eqb "") vs = false -> runs b N T 1 (oneofval ident_rune vs) trivial.
Proof.
  intros Hvs. eapply runs_post; [apply (runs_expect _ _ _ (fun t => existsb (String.eqb (tok_Value t)) vs))|]; [|done].
  intros t Ht [Hwf _] He. rewrite Hwf in Ht; congruence.
Qed.

Lemma advance_end_runs b N T :
  (forall t, T t -> tok_wf t -> tok_Type t <> EOF) -> runs b N T 1 (advance_end ident_rune) trivial.
Proof.
  intros HT. unfold advance_end. eapply runs_bind; [by apply runs_advance|]. intros t _.
  apply runs_last, runs_set_endPos. apply runs_ret; [lia|auto].
Qed.

Lemma optional_runs b N T ty : ty <> EOF -> runs b N T 0 (optional ident_rune ty) trivial.
Proof.
  intros Hty. apply runs_peek. intros t _ Hwf. destruct (Z.eqb_spec (tok_Type t) ty) as [He|]; [|apply runs_ret; [lia|auto]].
  eapply runs_bind; [apply (runs_advance b N (eq t)); intros ? <- _; congruence|]. intros ? _.
  apply runs_ret; [lia|auto].
Qed.

(** What [optional] leaves when it returns true is smaller, but nothing needs that. *)
Lemma optionalv_runs b N T v : v <> "" -> runs b N T 0 (optionalv ident_rune v) trivial.
Proof.
  intros Hv. apply runs_peek. intros t _ Hwf. destruct (String.eqb (tok_Value t) v) eqn:He; [|apply runs_ret; [lia|auto]].
  eapply runs_bind; [apply (runs_advance b N (eq t)); intros ? <- _; by eapply wf_value|]. intros ? _.
  apply runs_ret; [lia|auto].
Qed.

(** ** Loops *)

Lemma while_runs {A} b N T fuel cond (body : P A) Q :
  (forall t, cond t = true -> tok_wf t -> runs b N (eq t) 1 body Q) ->
  N < Z.of_nat fuel -> runs b N T 0 (while fuel cond body) (Forall Q).
Proof.
  revert N T. induction fuel as [|fuel IH]; intros N T Hbody HN; cbn [while]; [apply runs_negative; lia|].
  apply runs_peek. intros t _ Hwf. destruct (cond t) eqn:Hc; [|apply runs_ret; [lia|constructor]].
  eapply runs_bind; [by apply Hbody|]. intros x Hx. eapply runs_bind.
  - apply IH; [|lia]. intros t' Hc' Hwf'. eapply runs_mono; [by apply Hbody|lia|lia|done|done].
  - intros xs Hxs. apply runs_ret; [lia|by constructor].
Qed.

Lemma comma_list_runs {A} b N T fuel stop (item : list A -> P A) acc :
  (forall acc t, stop t = false -> tok_wf t -> runs b N (eq t) 1 (item acc) trivial) ->
  N < Z.of_nat fuel -> runs b N T 0 (comma_list ident_rune fuel stop item acc) trivial.
Proof.
  revert N T acc. induction fuel as [|fuel IH]; intros N T acc Hitem HN; cbn [comma_list]; [apply runs_negative; lia|].
  apply runs_peek. intros t _ Hwf. destruct (stop t) eqn:Hc; [apply runs_ret; [lia|auto]|].
  eapply runs_bind; [by apply Hitem|]. intros x _. eapply runs_bind; [by apply optional_runs|]. intros more _.
  destruct more.
  - eapply runs_mono; [apply (IH (N - 1) any)|..]; [|lia|lia|lia|done|done].
    intros acc' t' Hc' Hwf'. eapply runs_mono; [by apply Hitem|lia|lia|done|done].
  - apply runs_ret; [lia|auto].
Qed.

Lemma sep_list_runs {A} b N T fuel sep (item : P A) :
  sep <> EOF -> (forall T, runs b N T 1 item trivial) -> N < Z.of_nat fuel ->
  runs b N T 1 (sep_list ident_rune fuel sep item) trivial.
Proof.
  intros Hsep. revert N T. induction fuel as [|fuel IH]; intros N T Hitem HN; cbn [sep_list]; [apply runs_negative; lia|].
  eapply runs_bind; [apply Hitem|]. intros x _. eapply runs_bind; [by apply optional_runs|]. intros more _.
  destruct more.
  - eapply runs_bind; [apply (IH (N - 1 - 0) any); [|lia]|].
    + intros T'. eapply runs_mono; [by apply Hitem|lia|lia|done|done].
    + intros xs _. apply runs_ret; [lia|auto].
  - apply runs_ret; [lia|auto].
Qed.
End specs.

(** ** Expressions *)

(** The operands of an expression have neither operators nor an [if] of their own:
    an expression is a flat list of operators. *)
Definition flat_operand (o : OpExpression) : Prop :=
  match op_Expr o with None => True | Some e => ex_Op e = [] /\ ex_If e = None end.

Definition flat (e : Expression) : Prop := Forall flat_operand (ex_Op e).

(** A string literal as the lexer makes them. *)
Definition is_string (v : Value) : Prop :=
  match v with VString s => quoted_value false s | VFString _ => True | _ => False end.

Definition is_string_expr (v : ValueExpression) : Prop := let 'MkValueExpression v _ _ := v in is_string v.

Lemma slice_quoted s : slice_last 1 (String double_quote (snoc s double_quote)) = Ok s.
Proof.
  unfold slice_last, snoc. cbn [String.length]. rewrite str_length_app. cbn [String.length char_str].
  replace (1 + 1 <=? S (String.length s + 1))%nat with true by (symmetry; apply Nat.leb_le; lia).
  unfold str_slice. cbn [str_drop]. f_equal.
  replace (S (String.length s + 1) - 1 - 1)%nat with (String.length s) by lia. apply str_take_app.
Qed.

Lemma concatStrings_outcome lv rhs :
  is_string lv -> is_string_expr rhs -> outcome is_string_expr (concatStrings (MkValueExpression lv [] None) rhs).
Proof.
  destruct rhs as [rv rs rsuf]. unfold concatStrings.
  destruct lv as [ls|lf| | | | | | | | |]; try done; destruct rv as [rs'|rf| | | | | | | | |]; try done; cbn [string_of is_string is_string_expr].
  - intros [s1 ->] [s2 ->]. cbn [String.append]. rewrite !slice_quoted. cbn -[String.append snoc].
    exists (s1 +:+ s2).
    cbn [String.append]. unfold snoc. by rewrite str_app_assoc.
  - intros [s1 ->] _. cbn [String.append]. destruct (Vars rf); [done|]. by rewrite slice_quoted.
  - intros _ [s2 ->]. cbn [String.append]. by rewrite slice_quoted.
  - by destruct (Vars rf).
Qed.

Lemma fstring_loop_outcome fuel pos vars s :
  (String.length s < fuel)%nat -> outcome (fun _ => True) (fstring_loop fuel pos vars s).
Proof.
  revert pos vars s. induction fuel as [|fuel IH]; intros pos vars s Hf; [lia|]. cbn [fstring_loop].
  destruct (findBrace s) as [i|] eqn:Hi; [|done]. destruct (index_byte "}" (str_drop (S i) s)) as [j|]; [|done].
  apply IH. rewrite !str_length_drop. destruct s; [done|]. cbn [String.length] in *. lia.
Qed.

Section expressions.
Context (ident_rune : Z -> bool).

Lemma set_end_of_runs {A} b N T d (end_ : A -> Z) m Q :
  runs b N T d m Q -> runs b N T d (set_end_of end_ m) Q.
Proof.
  intros Hm. unfold set_end_of. eapply runs_bind; [exact Hm|]. intros x Hx.
  apply runs_set_endPos, runs_ret; [lia|done].
Qed.

Lemma parseFString_runs b N T :
  (forall t, T t -> tok_wf t -> tok_Type t = TString -> quoted_value true (tok_Value t)) ->
  runs b N T 1 (parseFString ident_rune) trivial.
Proof.
  intros HT. unfold parseFString. eapply runs_bind.
  { apply (runs_expect _ _ _ _ (fun t => tok_Type t =? TString)). intros t Ht _. by eapply wf_type. }
  intros t (Ht & Hty & Hwf). destruct (HT t Ht Hwf) as [s Hs]; [lia|]. rewrite Hs.
  eapply (runs_lift _ _ _ _ _ _ trivial).
  { unfold slice_last. case_match eqn:Hl; [done|]. apply Nat.leb_gt in Hl. unfold snoc in Hl.
    cbn [String.append String.length] in Hl. rewrite str_length_app in Hl. cbn in Hl. lia. }
  intros s' _. apply runs_set_endPos. apply (runs_post _ _ _ _ _ (fun _ => True)); [|auto].
  apply runs_lift_last; [lia|]. apply fstring_loop_outcome. lia.
Qed.

Lemma AssignFollows_runs b N T :
  (forall t, T t -> tok_Type t <> EOF) -> runs b N T 0 (p_AssignFollows) trivial.
Proof.
  intros HT s Hs Hb HN Ht. unfold p_AssignFollows.
  eapply outcome_bind; [apply outcome_good, AssignFollows_step; [done|by apply HT]|].
  intros [r l'] (Hl & _ & Hm). cbn. split_and!; [done|done|unfold p_measure in *; cbn; lia|auto].
Qed.

(** Each function has a rank: it needs [16 * N + rank] fuel on a state of measure [N],
    and the functions it calls before reading anything have smaller ranks. *)
Definition enough (N rank : Z) (fuel : nat) : Prop := 16 * N + rank < Z.of_nat fuel.

Record exprs_ok (fuel : nat) : Prop := {
  eo_expr b N T : enough N 4 fuel -> runs b N T 1 (parseExpression ident_rune fuel) flat;
  eo_if b N T e : enough N 5 fuel -> flat e -> runs b N T 0 (parseInlineIf ident_rune fuel e) flat;
  eo_uncond b N T : enough N 3 fuel ->
    runs b N T 1 (parseUnconditionalExpression ident_rune fuel) (fun e => flat e /\ ex_If e = None);
  eo_value_expr b N T : enough N 2 fuel ->
    runs b N T 1 (parseValueExpression ident_rune fuel) (fun v => (forall t, T t -> tok_Type t = TString) -> is_string_expr v);
  eo_value b N t : enough N 1 fuel -> runs b N (eq t) 1 (parse_value ident_rune fuel t) trivial;
  eo_suffix b N T v : enough N 6 fuel ->
    runs b N T 0 (parse_suffix ident_rune fuel v) (fun e => let 'MkValueExpression v' _ _ := e in v' = v);
  eo_ident b N T : enough N 0 fuel -> runs b N T 1 (parseIdentExpr ident_rune fuel) trivial;
  eo_call b N T : enough N 5 fuel -> runs b N T 1 (parseCall ident_rune fuel) trivial;
  eo_list b N T o c : o <> EOF -> c <> EOF -> enough N 0 fuel -> runs b N T 1 (parseList ident_rune fuel o c) trivial;
  eo_dict b N T : enough N 0 fuel -> runs b N T 1 (parseDict ident_rune fuel) trivial;
  eo_slice b N T : enough N 0 fuel -> runs b N T 1 (parseSlice ident_rune fuel) trivial;
  eo_comp b N T : enough N 0 fuel -> runs b N T 1 (parseComprehension ident_rune fuel) trivial;
  eo_lambda b N T : enough N 0 fuel -> runs b N T 1 (parseLambda ident_rune fuel) trivial;
}.

Lemma runs_start b N T d {A} (m : P A) (Q : A -> Prop) :
  (0 <= N -> runs b N T d m Q) -> runs b N T d m Q.
Proof. intros Hm. destruct (Z.le_gt_cases 0 N); [auto|]. apply runs_negative. lia. Qed.

Lemma exprs_ok_0 : exprs_ok 0.
Proof. split; intros; unfold enough in *; apply runs_start; intros; lia. Qed.

Ltac not_EOF :=
  first [ done
        | let t := fresh in let H := fresh in
          intros t H; intros; try (rewrite <- H in *; clear H);
          first [ by eapply wf_type | by eapply wf_value | congruence ] ].

Ltac pcall IH :=
  first
    [ by apply optionalv_runs | by apply optional_runs | by apply nextv_runs | by apply p_next_runs
    | by apply oneof_runs | by apply oneofval_runs
    | apply (eo_expr _ IH); unfold enough; lia
    | apply (eo_if _ IH); [unfold enough; lia|done]
    | apply (eo_uncond _ IH); unfold enough; lia
    | apply (eo_value_expr _ IH); unfold enough; lia
    | apply (eo_suffix _ IH); unfold enough; lia
    | apply (eo_ident _ IH); unfold enough; lia
    | apply (eo_call _ IH); unfold enough; lia
    | apply (eo_list _ IH); [done|done|unfold enough; lia]
    | apply (eo_dict _ IH); unfold enough; lia
    | apply (eo_slice _ IH); unfold enough; lia
    | apply (eo_comp _ IH); unfold enough; lia
    | apply (eo_lambda _ IH); unfold enough; lia
    | apply runs_advance; not_EOF
    | apply advance_end_runs; not_EOF ].

Ltac pstep IH :=
  lazymatch goal with
  | |- runs _ _ _ _ (ret _) _ => apply runs_ret; [lia|auto]
  | |- runs _ _ _ _ (fail _ _) _ => apply runs_fail
  | |- runs _ _ _ _ (mbind _ peek) _ => apply runs_peek; intros ? ? ?
  | |- runs _ _ _ _ (mbind _ (set_endPos _)) _ => apply runs_set_endPos
  | |- runs _ _ _ _ (mbind _ get_endPos) _ => apply runs_get_endPos; intros ?
  | |- runs _ _ _ _ (mbind _ get_inFor) _ => apply runs_get_inFor
  | |- runs _ _ _ _ (mbind _ (assert_ _ _ _)) _ => apply runs_assert; intros ?
  | |- runs _ _ _ _ (if ?c then _ else _) _ => destruct c eqn:?
  | |- runs _ _ _ _ (mbind _ (set_end_of _ _)) _ => eapply runs_bind; [apply set_end_of_runs; pcall IH|intros ? ?]
  | |- runs _ _ _ _ (mbind _ _) _ => eapply runs_bind; [pcall IH|intros ? ?]
  end.

Section steps.
Context (fuel : nat) (IH : exprs_ok fuel).

Lemma parseInlineIf_step b N T e :
  enough N 5 (S fuel) -> flat e -> runs b N T 0 (parseInlineIf ident_rune (S fuel) e) flat.
Proof. intros HN He. unfold enough in HN. cbn [parseInlineIf]. repeat pstep IH. Qed.

Lemma parseExpression_step b N T :
  enough N 4 (S fuel) -> runs b N T 1 (parseExpression ident_rune (S fuel)) flat.
Proof.
  intros HN. unfold enough in HN. cbn [parseExpression].
  eapply runs_bind; [apply (eo_uncond _ IH); unfold enough; lia|]. intros e [He _]. repeat pstep IH.
Qed.

Lemma parse_unary_runs b N T : runs b N T 0 (parse_unary ident_rune) (Forall flat_operand).
Proof. unfold parse_unary. repeat pstep IH; repeat constructor. Qed.

Lemma lookup_nonempty op : Op.lookup "" = Some op -> False.
Proof. done. Qed.

Lemma take_operator_runs b N T name :
  (forall t, T t -> tok_wf t -> name <> "" -> tok_Type t <> EOF) -> runs b N T 0 (take_operator ident_rune name) trivial.
Proof.
  intros HT. unfold take_operator. destruct (Op.lookup name) as [op|] eqn:Ho; [|apply runs_ret; [lia|auto]].
  eapply runs_bind.
  { apply runs_advance. intros t Ht Hwf. apply (HT t Ht Hwf). intros ->. by apply lookup_nonempty in Ho. }
  intros t _. eapply (runs_bind _ _ _ _ 0 _ _ trivial); [|intros; apply runs_ret; [lia|auto]].
  unfold join_is_not. repeat pstep IH.
Qed.

Lemma parse_binary_runs b N T : runs b N T 0 (parse_binary ident_rune) trivial.
Proof.
  unfold parse_binary. repeat pstep IH.
  - lazymatch goal with |- runs _ ?N (eq ?t) _ _ _ => apply (runs_mono _ N N (eq t) (eq t) 0 _ _ trivial); [|lia|lia|done|done] end.
    apply take_operator_runs. intros t <- Hwf _. by eapply wf_value.
  - apply take_operator_runs. intros t <- [Hwf _] Hne He. by apply Hne, Hwf.
Qed.

Lemma parseUnconditionalExpression_step b N T :
  enough N 3 (S fuel) ->
  runs b N T 1 (parseUnconditionalExpression ident_rune (S fuel)) (fun e => flat e /\ ex_If e = None).
Proof.
  intros HN. unfold enough in HN. cbn [parseUnconditionalExpression]. apply runs_peek. intros start _ _.
  eapply runs_bind; [apply parse_unary_runs|]. intros unary Hu.
  eapply runs_bind; [apply (eo_value_expr _ IH); unfold enough; lia|]. intros v _.
  eapply runs_bind; [apply parse_binary_runs|]. intros [op|] _; [|apply runs_ret; [lia|done]].
  eapply runs_bind; [apply (eo_uncond _ IH); unfold enough; lia|]. intros e [He Hi].
  apply runs_ret; [lia|]. split; [|done]. apply Forall_app. split; [done|]. by constructor.
Qed.

Lemma string_value_runs b N tok :
  tok_wf tok -> tok_Type tok = TString ->
  runs b N (eq tok) 1
    (match tok_Value tok with
     | "" => lift (Err EIndex)
     | String c _ =>
         if Ascii.eqb c "f" then f ← parseFString ident_rune; ret (VFString f)
         else advance_end ident_rune;; ret (VString (tok_Value tok))
     end) is_string.
Proof.
  intros [_ Hwf] Hty. destruct (Hwf Hty) as [f [s Hs]]. rewrite Hs. destruct f; cbn [String.append].
  - rewrite Ascii.eqb_refl. eapply runs_bind; [apply parseFString_runs|intros ? _; by apply runs_ret].
    intros t <- _ _. by exists s.
  - change (Ascii.eqb double_quote "f") with false. cbn iota.
    eapply runs_bind; [apply advance_end_runs; intros t <- _; by rewrite Hty|]. intros _ _.
    apply runs_ret; [lia|]. by exists s.
Qed.

Lemma parseValueExpression_step b N T :
  enough N 2 (S fuel) ->
  runs b N T 1 (parseValueExpression ident_rune (S fuel))
    (fun v => (forall t, T t -> tok_Type t = TString) -> is_string_expr v).
Proof.
  intros HN. unfold enough in HN. cbn [parseValueExpression]. apply runs_peek. intros tok HT Hwf.
  destruct (Z.eqb_spec (tok_Type tok) TString) as [Hty|Hty].
  - eapply runs_bind; [by apply string_value_runs|]. intros v Hv. apply runs_peek. intros after _ _.
    destruct (Z.eqb_spec (tok_Type after) TString) as [Ha|Ha].
    + eapply runs_bind; [apply (eo_value_expr _ IH); unfold enough; lia|]. intros rhs Hrhs.
      eapply runs_post; [apply runs_lift_last; [lia|apply concatStrings_outcome; [done|]]|done].
      apply Hrhs. by intros t <-.
    + eapply runs_post; [eapply runs_mono; [apply (eo_suffix _ IH b (N - 1) any v); unfold enough; lia|lia|lia|done|]|].
      * intros e He. exact He.
      * intros [v' ? ?] ->. by intros _.
  - eapply runs_bind; [apply (eo_value _ IH); unfold enough; lia|]. intros v _.
    eapply runs_mono; [apply (eo_suffix _ IH b (N - 1) any v); unfold enough; lia|lia|lia|done|].
    intros e _ Hs. by apply Hs in HT.
Qed.

Lemma parse_value_step b N tok :
  enough N 1 (S fuel) -> runs b N (eq tok) 1 (parse_value ident_rune (S fuel) tok) trivial.
Proof.
  intros HN. unfold enough in HN. cbn [parse_value].
  repeat (pstep IH; try lazymatch goal with |- runs _ _ _ _ (match Atoi ?v with _ => _ end) _ => destruct (Atoi v) end).
Qed.

Lemma parse_suffix_step b N T v :
  enough N 6 (S fuel) ->
  runs b N T 0 (parse_suffix ident_rune (S fuel) v) (fun e => let 'MkValueExpression v' _ _ := e in v' = v).
Proof.
  intros HN. unfold enough in HN. cbn [parse_suffix]. apply runs_start. intros H0.
  eapply runs_bind; [apply while_runs; [|lia]|].
  { intros t Ht Hwf. apply (runs_post _ _ _ _ _ trivial); [|exact (fun _ _ => I)]. apply (eo_slice _ IH); unfold enough; lia. }
  intros slices _. repeat pstep IH.
Qed.

Lemma parseIdentExpr_step b N T :
  enough N 0 (S fuel) -> runs b N T 1 (parseIdentExpr ident_rune (S fuel)) trivial.
Proof.
  intros HN. unfold enough in HN. cbn [parseIdentExpr]. apply runs_start. intros H0.
  eapply runs_bind; [by apply p_next_runs|]. intros identTok _.
  eapply runs_bind; [apply (while_runs _ _ _ _ _ _ trivial); [|lia]|intros actions _; apply runs_ret; [lia|auto]].
  intros t Ht Hwf. eapply runs_bind.
  { apply runs_advance. intros t' <- _. unfold is_type in Ht. intros He. rewrite He in Ht. done. }
  intros tok _. repeat pstep IH.
Qed.

Lemma call_name_runs b N T args : runs b N T 0 (call_name ident_rune args) trivial.
Proof.
  unfold call_name. apply runs_peek. intros tok _ Hwf.
  eapply (runs_bind _ _ _ _ 0 _ _ trivial).
  { destruct (Z.eqb_spec (tok_Type tok) Ident) as [He|]; [|by apply runs_ret].
    apply AssignFollows_runs. intros t <-. by rewrite He. }
  intros named _. repeat pstep IH.
Qed.

Lemma parseCall_step b N T :
  enough N 5 (S fuel) -> runs b N T 1 (parseCall ident_rune (S fuel)) trivial.
Proof.
  intros HN. unfold enough in HN. cbn [parseCall]. apply runs_start. intros H0.
  eapply runs_bind; [apply comma_list_runs; [|lia]|intros args _; repeat pstep IH].
  intros acc t Ht Hwf. eapply runs_bind; [apply call_name_runs|]. intros [pos name] _. repeat pstep IH.
Qed.

Lemma parse_comp_runs {A} b N T (items : list A) what (comp : P Comprehension) :
  (forall T, runs b N T 1 comp trivial) -> runs b N T 0 (parse_comp items what comp) trivial.
Proof.
  intros Hc. unfold parse_comp. repeat pstep IH. eapply runs_bind; [apply Hc|]. intros ? _. repeat pstep IH.
Qed.

Lemma parseList_step b N T o c :
  o <> EOF -> c <> EOF -> enough N 0 (S fuel) -> runs b N T 1 (parseList ident_rune (S fuel) o c) trivial.
Proof.
  intros Ho Hc HN. unfold enough in HN. cbn [parseList]. apply runs_start. intros H0.
  eapply runs_bind; [by apply p_next_runs|]. intros _ _.
  eapply runs_bind; [apply comma_list_runs; [|lia]|].
  { intros acc t _ _. apply (runs_post _ _ _ _ _ flat); [|auto]. apply (eo_expr _ IH); unfold enough; lia. }
  intros values _. eapply runs_bind; [apply parse_comp_runs|intros comp _; repeat pstep IH].
  intros T'. apply (eo_comp _ IH); unfold enough; lia.
Qed.

Lemma parseDict_step b N T :
  enough N 0 (S fuel) -> runs b N T 1 (parseDict ident_rune (S fuel)) trivial.
Proof.
  intros HN. unfold enough in HN. cbn [parseDict]. apply runs_start. intros H0.
  eapply runs_bind; [by apply p_next_runs|]. intros _ _.
  eapply runs_bind; [apply comma_list_runs; [|lia]|].
  { intros acc t _ _. repeat pstep IH. }
  intros values _. eapply runs_bind; [apply parse_comp_runs|intros comp _; repeat pstep IH].
  intros T'. apply (eo_comp _ IH); unfold enough; lia.
Qed.

Lemma parseSlice_step b N T :
  enough N 0 (S fuel) -> runs b N T 1 (parseSlice ident_rune (S fuel)) trivial.
Proof.
  intros HN. unfold enough in HN. cbn [parseSlice]. apply runs_start. intros H0.
  eapply runs_bind; [by apply p_next_runs|]. intros _ _.
  eapply runs_bind; [by apply optional_runs|]. intros colon _.
  eapply (runs_bind _ _ _ _ 0 _ _ trivial).
  { repeat pstep IH. }
  intros [start colon'] _. repeat pstep IH.
Qed.

Lemma parseIdentList_runs b N T fuel' :
  N < Z.of_nat fuel' -> runs b N T 1 (parseIdentList ident_rune fuel') trivial.
Proof.
  intros HN. apply sep_list_runs; [done| |done]. intros T'. repeat pstep IH.
Qed.

Lemma parseComprehension_step b N T :
  enough N 0 (S fuel) -> runs b N T 1 (parseComprehension ident_rune (S fuel)) trivial.
Proof.
  intros HN. unfold enough in HN. cbn [parseComprehension]. apply runs_start. intros H0.
  eapply runs_bind; [by apply nextv_runs|]. intros _ _.
  eapply runs_bind; [apply parseIdentList_runs; lia|]. intros names _.
  do 3 pstep IH. eapply (runs_bind _ _ _ _ 0 _ _ trivial).
  { pstep IH; [|repeat pstep IH]. eapply runs_bind; [apply parseIdentList_runs; lia|]. intros names2 _. repeat pstep IH. }
  intros second _. pstep IH. eapply (runs_bind _ _ _ _ 0 _ _ trivial); [|intros if_ _]; repeat pstep IH.
Qed.

Lemma parseLambda_step b N T :
  enough N 0 (S fuel) -> runs b N T 1 (parseLambda ident_rune (S fuel)) trivial.
Proof.
  intros HN. unfold enough in HN. cbn [parseLambda]. apply runs_start. intros H0.
  eapply runs_bind; [by apply nextv_runs|]. intros _ _.
  eapply runs_bind; [apply comma_list_runs; [|lia]|intros args _; repeat pstep IH].
  intros acc t Ht Hwf. eapply runs_bind.
  { apply runs_advance. intros t' <- _ He. unfold anythingBut in Ht. by rewrite He in Ht. }
  intros tok _. pstep IH. eapply (runs_bind _ _ _ _ 0 _ _ trivial); [|intros value _]; repeat pstep IH.
Qed.
End steps.

Lemma exprs_ok_S fuel : exprs_ok fuel -> exprs_ok (S fuel).
Proof.
  intros IH. split; intros.
  - by apply parseExpression_step.
  - by apply parseInlineIf_step.
  - by apply parseUnconditionalExpression_step.
  - by apply parseValueExpression_step.
  - by apply parse_value_step.
  - by apply parse_suffix_step.
  - by apply parseIdentExpr_step.
  - by apply parseCall_step.
  - by apply parseList_step.
  - by apply parseDict_step.
  - by apply parseSlice_step.
  - by apply parseComprehension_step.
  - by apply parseLambda_step.
Qed.

Lemma all_exprs_ok fuel : exprs_ok fuel.
Proof. induction fuel; [apply exprs_ok_0|by apply exprs_ok_S]. Qed.

(** ** Statements *)

(** [continue] and [break] occur only in loops, and not in functions within them. *)
Fixpoint loops_ok (in_loop : bool) (s : Statement) : bool :=
  let 'MkStatement _ _ kind := s in
  match kind with
  | SFuncDef (MkFuncDef _ _ _ stmts _ _ _) => forallb (loops_ok false) stmts
  | SFor (MkForStatement _ _ stmts) => forallb (loops_ok true) stmts
  | SIf (MkIfStatement _ _ _ stmts elifs _ _ else_) =>
      forallb (loops_ok in_loop) stmts &&
      forallb (fun '(MkIfStatementElif _ _ _ stmts) => forallb (loops_ok in_loop) stmts) elifs &&
      forallb (loops_ok in_loop) else_
  | SContinue | SBreak => in_loop
  | _ => true
  end.

Definition kind_ok (in_loop : bool) (k : StatementKind) : Prop := loops_ok in_loop (MkStatement 0 0 k) = true.

Lemma parseArgument_default_runs b N T fuel name types aliases :
  enough N 4 fuel -> runs b N T 1 (parseArgument_default ident_rune fuel name types aliases) trivial.
Proof.
  intros HN. unfold parseArgument_default. pose proof (all_exprs_ok fuel) as IH. unfold enough in HN.
  repeat pstep IH.
Qed.

Lemma parseArgument_aliases_runs b N T fuel name types :
  0 <= N -> enough N 4 fuel -> runs b N T 1 (parseArgument_aliases ident_rune fuel name types) trivial.
Proof.
  intros H0 HN. unfold parseArgument_aliases, enough in *. pose proof (all_exprs_ok fuel) as IH.
  eapply runs_bind; [apply sep_list_runs; [done| |lia]|].
  { intros T'. repeat pstep IH. }
  intros aliases _. repeat pstep IH.
  eapply runs_mono; [apply (parseArgument_default_runs b (N - 1 - 1) any fuel); unfold enough; lia|lia|lia|done|done].
Qed.

Lemma parseArgument_runs b N T fuel :
  enough N 4 fuel -> runs b N T 1 (parseArgument ident_rune fuel) trivial.
Proof.
  intros HN. unfold parseArgument, enough in *. pose proof (all_exprs_ok fuel) as IH. apply runs_start. intros H0.
  assert (forall M d name types aliases, M <= N - 1 -> d <= 0 ->
    runs b M any d (parseArgument_default ident_rune fuel name types aliases) trivial) as Hd.
  { intros M d name types aliases HM Hd.
    eapply runs_mono; [apply (parseArgument_default_runs b M any fuel); unfold enough; lia|lia|lia|done|done]. }
  assert (forall M d name types, M <= N - 1 -> d <= 0 ->
    runs b M any d (parseArgument_aliases ident_rune fuel name types) trivial) as Ha.
  { intros M d name types HM Hd'. apply runs_start. intros HM0.
    eapply runs_mono; [apply (parseArgument_aliases_runs b M any fuel); unfold enough; lia|lia|lia|done|done]. }
  repeat pstep IH; try (apply Hd; lia); try (apply Ha; lia).
  eapply runs_bind; [apply sep_list_runs; [done| |lia]|].
  { intros T'. repeat pstep IH. }
  intros types _. repeat pstep IH; try (apply Hd; lia); apply Ha; lia.
Qed.

Lemma parseReturn_runs b N T fuel :
  enough N 4 fuel -> runs b N T 1 (parseReturn ident_rune fuel) trivial.
Proof.
  intros HN. unfold parseReturn, enough in *. pose proof (all_exprs_ok fuel) as IH. apply runs_start. intros H0.
  eapply runs_bind; [apply comma_list_runs; [|lia]|intros values _; repeat pstep IH].
  intros acc t _ _. apply (runs_post _ _ _ _ _ flat); [|auto]. apply (eo_expr _ IH); unfold enough; lia.
Qed.

(** Reading a token that the rest rejects when it is the end of the file. *)
Lemma runs_advance_checked {B} b N d tok (f : Token -> P B) Q :
  (tok_Type tok <> EOF -> runs b (N - 1) any (d - 1) (f tok) Q) ->
  (tok_Type tok = EOF -> forall s, outcome (fun _ => False) (f tok s)) ->
  runs b N (eq tok) d (advance ident_rune ≫= f) Q.
Proof.
  intros Hgo Hstop s Hs Hb HN HT.
  change ((advance ident_rune ≫= f) s) with ('(a, s') ← advance ident_rune s; f a s').
  eapply outcome_bind; [by apply advance_spec|]. intros [t s'] (-> & Hb' & Hok). rewrite <- HT in *.
  destruct (Z.eq_dec (tok_Type tok) EOF) as [He|He].
  - eapply outcome_mono; [by apply Hstop|done].
  - destruct (Hok He) as [Hs' Hm]. eapply outcome_mono; [apply (Hgo He); [done|congruence|lia|done]|].
    intros [x s2] (? & ? & ? & ?). split_and!; [done|done|lia|done].
Qed.

Lemma parseIdentStatement_runs b N T fuel :
  enough N 4 fuel -> runs b N T 1 (parseIdentStatement ident_rune fuel) trivial.
Proof.
  intros HN. unfold parseIdentStatement, enough in *. pose proof (all_exprs_ok fuel) as IH. apply runs_start. intros H0.
  do 4 pstep IH. pstep IH; [repeat pstep IH|]. apply runs_advance_checked.
  - intros He. eapply (runs_bind _ _ _ _ 0 _ _ trivial); [|intros rest _; repeat pstep IH].
    pstep IH; [|repeat pstep IH].
    eapply runs_bind; [apply parseIdentList_runs; lia|]. intros names _. repeat pstep IH.
  - intros He s. destruct H5 as [Hv _]. unfold is_value, Token_String. rewrite He, (Hv He). done.
Qed.

Lemma loop_statement_runs b N T what k tok :
  loops_ok true (MkStatement 0 0 k) = true -> (forall t, T t -> tok_wf t -> tok_Type t <> EOF) ->
  runs b N T 1 (loop_statement ident_rune what k tok) (fun k => kind_ok b k).
Proof.
  intros Hk HT. unfold loop_statement. apply runs_get_inFor, runs_assert. intros ->.
  eapply runs_bind; [by apply advance_end_runs|]. intros _ _.
  eapply runs_bind; [by apply p_next_runs|]. intros _ _. by apply runs_ret.
Qed.

Lemma parse_simple_runs b N fuel tok :
  enough N 4 fuel -> runs b N (eq tok) 1 (parse_simple ident_rune fuel tok) (kind_ok b).
Proof.
  intros HN. unfold parse_simple, enough in *. pose proof (all_exprs_ok fuel) as IH.
  pstep IH; [repeat pstep IH; reflexivity|].
  pstep IH; [apply loop_statement_runs; [done|not_EOF]|].
  pstep IH; [apply loop_statement_runs; [done|not_EOF]|].
  pstep IH.
  { pstep IH. eapply runs_bind; [apply parseReturn_runs; unfold enough; lia|]. intros values _.
    apply runs_ret; [lia|reflexivity]. }
  pstep IH; [repeat pstep IH; reflexivity|].
  pstep IH.
  { do 3 pstep IH. eapply (runs_bind _ _ _ _ 0 _ _ trivial); [repeat pstep IH|]. intros message _.
    repeat pstep IH; reflexivity. }
  eapply (runs_bind _ _ _ _ 1 _ _ (kind_ok b)); [|intros kind Hkind; repeat pstep IH; done].
  pstep IH; [|repeat pstep IH; reflexivity].
  eapply runs_bind; [apply parseIdentStatement_runs; unfold enough; lia|]. intros i _. by apply runs_ret.
Qed.

Record stmts_ok (fuel : nat) : Prop := {
  so_stmt b N T : enough N 6 fuel -> runs b N T 1 (parseStatement ident_rune fuel) (fun s => loops_ok b s = true);
  so_stmts b N T : enough N 7 fuel ->
    runs b N T 1 (parseStatements ident_rune fuel) (fun l => forallb (loops_ok b) l = true);
  so_def N T : enough N 0 fuel -> runs false N T 1 (parseFuncDef ident_rune fuel)
    (fun f => loops_ok false (MkStatement 0 0 (SFuncDef f)) = true);
  so_for N T : enough N 0 fuel -> runs true N T 1 (parseFor ident_rune fuel)
    (fun f => loops_ok true (MkStatement 0 0 (SFor f)) = true);
  so_if b N T : enough N 0 fuel -> runs b N T 1 (parseIf ident_rune fuel) (fun i => kind_ok b (SIf i));
}.

Lemma stmts_ok_0 : stmts_ok 0.
Proof. split; intros; unfold enough in *; apply runs_start; intros; lia. Qed.

Lemma Forall_forallb {A} (p : A -> bool) l : Forall (fun x => p x = true) l -> forallb p l = true.
Proof. intros H. apply forallb_forall. intros x Hx. rewrite Forall_forall in H. apply H. by apply list_elem_of_In. Qed.

Section stmt_steps.
Context (fuel : nat) (IH : stmts_ok fuel).

Lemma parseStatement_step b N T :
  enough N 6 (S fuel) -> runs b N T 1 (parseStatement ident_rune (S fuel)) (fun s => loops_ok b s = true).
Proof.
  intros HN. unfold enough in HN. cbn [parseStatement]. apply runs_peek. intros tok _ _.
  eapply (runs_bind _ _ _ _ 1 _ _ (kind_ok b)).
  - repeat case_match.
    + eapply runs_bind; [apply with_inFor_runs, (so_def _ IH); unfold enough; lia|]. intros f Hf. by apply runs_ret.
    + eapply runs_bind; [apply with_inFor_runs, (so_for _ IH); unfold enough; lia|]. intros f Hf. by apply runs_ret.
    + eapply runs_bind; [apply (so_if _ IH); unfold enough; lia|]. intros i Hi. by apply runs_ret.
    + apply parse_simple_runs. unfold enough. lia.
  - intros kind Hk. apply runs_get_endPos. intros z. by apply runs_ret.
Qed.

Lemma parseStatements_step b N T :
  enough N 7 (S fuel) ->
  runs b N T 1 (parseStatements ident_rune (S fuel)) (fun l => forallb (loops_ok b) l = true).
Proof.
  intros HN. unfold enough in HN. cbn [parseStatements]. apply runs_start. intros H0.
  eapply runs_bind; [apply while_runs; [|lia]|].
  { intros t _ _. apply (so_stmt _ IH). unfold enough. lia. }
  intros stmts Hs. eapply runs_bind; [by apply p_next_runs|]. intros _ _.
  apply runs_ret; [lia|]. by apply Forall_forallb.
Qed.

Lemma parseFuncDef_step N T :
  enough N 0 (S fuel) ->
  runs false N T 1 (parseFuncDef ident_rune (S fuel)) (fun f => loops_ok false (MkStatement 0 0 (SFuncDef f)) = true).
Proof.
  intros HN. unfold enough in HN. cbn [parseFuncDef]. apply runs_start. intros H0. pose proof (all_exprs_ok fuel) as IHe.
  do 3 pstep IHe.
  eapply runs_bind; [apply comma_list_runs; [|lia]|].
  { intros acc t _ _. apply parseArgument_runs. unfold enough. lia. }
  intros args _. pstep IHe. eapply (runs_bind _ _ _ _ 0 _ _ trivial).
  { unfold parse_return_type. repeat pstep IHe. }
  intros ret_ty _. do 2 pstep IHe. eapply (runs_bind _ _ _ _ 0 _ _ trivial).
  { unfold parse_docstring. repeat pstep IHe. }
  intros doc _. eapply runs_bind; [apply (so_stmts _ IH); unfold enough; lia|]. intros stmts Hs.
  apply runs_ret; [lia|exact Hs].
Qed.

Lemma parseFor_step N T :
  enough N 0 (S fuel) ->
  runs true N T 1 (parseFor ident_rune (S fuel)) (fun f => loops_ok true (MkStatement 0 0 (SFor f)) = true).
Proof.
  intros HN. unfold enough in HN. cbn [parseFor]. apply runs_start. intros H0. pose proof (all_exprs_ok fuel) as IHe.
  pstep IHe. eapply runs_bind; [apply parseIdentList_runs; lia|]. intros names _. do 4 pstep IHe.
  eapply runs_bind; [apply (so_stmts _ IH); unfold enough; lia|]. intros stmts Hs.
  apply runs_ret; [lia|exact Hs].
Qed.

Lemma parse_condition_runs b N T v :
  v <> "" -> 0 <= N -> enough N 0 (S fuel) -> runs b N T 3 (parse_condition ident_rune fuel v) trivial.
Proof.
  intros Hv H0 HN. unfold parse_condition, enough in *. pose proof (all_exprs_ok fuel) as IHe. repeat pstep IHe.
Qed.

Lemma parseIf_step b N T :
  enough N 0 (S fuel) -> runs b N T 1 (parseIf ident_rune (S fuel)) (fun i => kind_ok b (SIf i)).
Proof.
  intros HN. apply runs_start. intros H0. cbn [parseIf]. pose proof (all_exprs_ok fuel) as IHe.
  eapply runs_bind; [by apply parse_condition_runs|]. intros [[h he] c] _. unfold enough in HN.
  eapply runs_bind; [apply (so_stmts _ IH); unfold enough; lia|]. intros stmts Hs.
  eapply runs_bind.
  { apply (while_runs _ _ _ _ _ _ (fun '(MkIfStatementElif _ _ _ stmts) => forallb (loops_ok b) stmts = true)); [|lia].
    intros t _ _. apply runs_start. intros H1. eapply runs_bind; [apply parse_condition_runs; [done|lia|unfold enough; lia]|].
    intros [[h2 he2] c2] _. eapply runs_bind; [apply (so_stmts _ IH); unfold enough; lia|]. intros stmts2 Hs2.
    apply runs_ret; [lia|done]. }
  intros elifs He. apply runs_peek. intros tok _ _.
  assert (forall else_, forallb (loops_ok b) else_ = true ->
    forall p1 p2, kind_ok b (SIf (MkIfStatement h he c stmts elifs p1 p2 else_))) as Hk.
  { intros else_ Helse p1 p2. unfold kind_ok. cbn [loops_ok]. rewrite Hs, Helse, !andb_true_r.
    apply Forall_forallb. eapply Forall_impl; [exact He|]. by intros [? ? ? ?]. }
  pstep IHe; [|apply runs_ret; [lia|by apply Hk]].
  do 3 pstep IHe. eapply runs_bind; [apply (so_stmts _ IH); unfold enough; lia|]. intros stmts2 Hs2.
  apply runs_ret; [lia|by apply Hk].
Qed.
End stmt_steps.

Lemma all_stmts_ok fuel : stmts_ok fuel.
Proof.
  induction fuel as [|fuel IH]; [apply stmts_ok_0|]. split; intros.
  - by apply parseStatement_step.
  - by apply parseStatements_step.
  - by apply parseFuncDef_step.
  - by apply parseFor_step.
  - by apply parseIf_step.
Qed.

(** C13: parsing any file returns its statements or a user error, but for one panic,
    that of concatenating a string with a format string without variables; there is
    always enough fuel.  In the statements [continue] and [break] occur only in
    loops. *)
Theorem parseFileInput_total b :
  match parseFileInput ident_rune b with
  | Ok stmts => forallb (loops_ok false) stmts = true
  | Err (EFail _ _) => True
  | Err e => e = vars_panic
  | NoFuel => False
  end.
Proof.
  change (outcome (fun stmts => forallb (loops_ok false) stmts = true) (parseFileInput ident_rune b)).
  unfold parseFileInput. eapply outcome_bind; [apply outcome_good, newLexer_next_ok|]. intros l [Hl Hm].
  eapply outcome_bind.
  { apply (while_runs false (2 * len b + 7) any (parse_fuel b) (anythingBut EOF) _ (fun s => loops_ok false s = true)).
    - intros t _ _. apply (so_stmt _ (all_stmts_ok _)). unfold enough, parse_fuel, len. lia.
    - unfold parse_fuel, len. lia.
    - exact Hl.
    - done.
    - exact Hm.
    - done. }
  intros [stmts s'] (_ & _ & _ & Hs). by apply Forall_forallb.
Qed.
End expressions.

(** An expression is parsed to a flat list of operators: the operators of an
    operand are hoisted into the expression it is part of. *)
Theorem parseExpression_flat ident_rune fuel s :
  p_ok s -> 16 * p_measure s + 4 < Z.of_nat fuel ->
  outcome (fun '(e, _) => flat e) (parseExpression ident_rune fuel s).
Proof.
  intros Hs Hf. eapply outcome_mono.
  - apply (eo_expr _ _ (all_exprs_ok ident_rune fuel) (inFor s) (p_measure s) any); [exact Hf|done|done|lia|done].
  - by intros [e s'] (_ & _ & _ & He).
Qed.

Definition no_runes : Z -> bool := fun _ => false.

(** The parser at the beginning of a file. *)
Definition start (b : string) : parser :=
  MkParser (from_Ok (MkLex "" 0 0 zero_token 0 0 [] false) (newLexer no_runes b)) 0 false.

Lemma start_ok b l : newLexer no_runes b = Ok l -> p_ok (start b).
Proof. intros Hl. pose proof (newLexer_next_ok no_runes b) as H. unfold start, p_ok. rewrite Hl in *. apply H. Qed.

Lemma parseExpression_flat_witness :
  let s := start "1 + 2 * -x" in
  p_ok s /\ 16 * p_measure s + 4 < Z.of_nat 600 /\
  outcome (fun '(e, _) => flat e) (parseExpression no_runes 600 s) /\
  match parseExpression no_runes 600 s with Ok (e, _) => length (ex_Op e) = 3%nat | _ => False end.
Proof.
  assert (p_ok (start "1 + 2 * -x")) as Hs by (eapply start_ok; vm_compute; reflexivity).
  split; [exact Hs|]. split; [vm_compute; reflexivity|]. split; [|by vm_compute].
  apply parseExpression_flat; [exact Hs|vm_compute; reflexivity].
Defined.

(** A string of the BUILD language, as the parser holds it. *)
Definition quote (s : string) : string := String double_quote (snoc s double_quote).

(** of two adjacent strings the second one's subscripts and the property or call
    after it are lost, unless one is a format string with variables; a string before
    a format string without variables is a panic.  So ['a' 'b'.join(l)] is just ['ab'],
    and ['a' f'b'] does not parse. *)
Theorem adjacent_strings s1 s2 slices suffix text :
  concatStrings (MkValueExpression (VString (quote s1)) [] None) (MkValueExpression (VString (quote s2)) slices suffix)
    = Ok (MkValueExpression (VString (quote (s1 +:+ s2))) [] None) /\
  concatStrings (MkValueExpression (VString (quote s1)) [] None)
    (MkValueExpression (VFString (MkFString [] text)) slices suffix) = Err vars_panic /\
  parseFileInput no_runes "x = 'a' 'b'.join(l)" = Ok [MkStatement 0 19 (SIdent (MkIdentStatement "x"
    (IAction (ActAssign (MkExpression 4 19 (MkValueExpression (VString (quote "ab")) [] None) [] None None)))))] /\
  parseFileInput no_runes "x = 'a' f'b'" = Err vars_panic.
Proof.
  split_and!.
  - unfold concatStrings, quote. cbn [string_of]. rewrite !slice_quoted. cbn -[String.append snoc]. unfold snoc.
    by rewrite str_app_assoc.
  - done.
  - by vm_compute.
  - by vm_compute.
Qed.
