(* ===== verification/Objects.v ===== *)
(** The values of the BUILD language and their operators: [src/parse/asp/objects.go].

    The arrays of lists, the maps of dicts and the configurations are in a heap.  What
    functions do is the interpreter's.  JSON is left out.

    A panic with a message is [EPanic], an index or slice out of range [EIndex].
    [Sprintf] stands for Go's formatting of a user's format string, [grow] for the
    capacity the Go runtime chooses for a slice that no longer fits, and
    [unrepresentable] for what converting a float to an int gives when it does not
    fit, which the Go language leaves open. *)
From S2P Require Import Prelude GoStrings Lexer GoText Values Ast.
From Stdlib Require Import Ascii SpecFloat.

#[local] Open Scope Z_scope.

(** ** The heap *)

(** What a [pyConfig] points to: the dict all its copies share, and its own changes. *)
Record config := MkConfig { base : nat; overlay : option nat }.

#[export] Instance config_eq_dec : EqDecision config.
Proof. solve_decision. Defined.

Record heap := MkHeap {
  arrays : gmap nat (list pyObject);
  dicts : gmap nat (gmap string pyObject);
  configs : gmap nat config;
  (** above every address in use *)
  fresh : nat;
}.

Definition empty_heap : heap := MkHeap ∅ ∅ ∅ 0.

Definition H (A : Type) : Type := heap -> res (A * heap).

#[export] Instance H_ret : MRet H := fun A a h => Ok (a, h).
#[export] Instance H_bind : MBind H := fun A B f m h => '(a, h) ← m h; f a h.

Definition hret {A} (a : A) : H A := fun h => Ok (a, h).
Definition hfail {A} (e : err) : H A := fun _ => Err e.
Definition panic {A} (msg : string) : H A := hfail (EPanic msg).
Definition reads {A} (f : heap -> A) : H A := fun h => Ok (f h, h).

Definition array_of (h : heap) (a : nat) : list pyObject := default [] (arrays h !! a).
Definition dict_of (h : heap) (d : nat) : gmap string pyObject := default ∅ (dicts h !! d).

(** The elements of a list. *)
Definition elements (h : heap) (l : gslice) : list pyObject :=
  take (sl_len l) (drop (sl_off l) (array_of h (sl_arr l))).

Definition set_array (a : nat) (xs : list pyObject) (h : heap) : heap :=
  MkHeap (<[a := xs]> (arrays h)) (dicts h) (configs h) (fresh h).

Definition set_dict (d : nat) (m : gmap string pyObject) (h : heap) : heap :=
  MkHeap (arrays h) (<[d := m]> (dicts h)) (configs h) (fresh h).

Definition set_config (c : nat) (x : config) (h : heap) : heap :=
  MkHeap (arrays h) (dicts h) (<[c := x]> (configs h)) (fresh h).

(** [make(pyList, n, cap)] with these elements. *)
Definition alloc (xs : list pyObject) (cap : nat) : H gslice := fun h =>
  let a := fresh h in
  Ok (MkGslice a 0 (length xs) cap,
      MkHeap (<[a := xs ++ replicate (cap - length xs) pyNone]> (arrays h)) (dicts h) (configs h) (S a)).

Definition alloc_dict (m : gmap string pyObject) : H nat := fun h =>
  Ok (fresh h, MkHeap (arrays h) (<[fresh h := m]> (dicts h)) (configs h) (S (fresh h))).

Definition alloc_config (x : config) : H nat := fun h =>
  Ok (fresh h, MkHeap (arrays h) (dicts h) (<[fresh h := x]> (configs h)) (S (fresh h))).

(** Writing [xs] from index [i] on. *)
Definition overwrite (i : nat) (xs arr : list pyObject) : list pyObject :=
  take i arr ++ xs ++ drop (i + length xs) arr.

(** [slices.Clip] *)
Definition Clip (l : gslice) : gslice := MkGslice (sl_arr l) (sl_off l) (sl_len l) (sl_len l).

(** ** Integers *)

(** Go's [int]: 64 bits, two's complement. *)
Definition wrap (z : Z) : Z := (z + 2 ^ 63) mod 2 ^ 64 - 2 ^ 63.

Definition float64 (z : Z) : spec_float := binary_normalize 53 1024 z 0 false.
Definition float_div : spec_float -> spec_float -> spec_float := SFdiv 53 1024.

(** [math.Floor], as an integer where it is one. *)
Definition floor (x : spec_float) : option Z :=
  match x with
  | S754_zero _ => Some 0
  | S754_finite s m e =>
      let m := if s then Z.neg m else Z.pos m in
      Some (if 0 <=? e then m * 2 ^ e else m / 2 ^ (- e))
  | _ => None
  end.

(** ** Names, truth and text *)

Definition Type_ (o : pyObject) : string :=
  match o with
  | pyBool _ => "bool"
  | pyNone => "none"
  | pyInt _ => "int"
  | pyString _ => "str"
  | pyList _ | pyFrozenList _ => "list"
  | pyDict _ | pyFrozenDict _ => "dict"
  | pyFunc _ _ => "function"
  | pyRange _ _ _ _ => "range"
  | pyConfig _ | pyFrozenConfig _ => "config"
  | pySentinel s => s
  end.

Definition IsTruthy (h : heap) (o : pyObject) : bool :=
  match o with
  | pyBool b => b
  | pyNone | pySentinel _ => false
  | pyInt i => negb (i =? 0)
  | pyString s => negb (String.eqb s "")
  | pyList l | pyFrozenList l => (0 <? sl_len l)%nat
  | pyDict d | pyFrozenDict d => (0 <? size (dict_of h d))%nat
  | pyFunc _ _ | pyRange _ _ _ _ | pyConfig _ | pyFrozenConfig _ => true
  end.

(** [[]rune(s)], each rune as it is encoded. *)
Fixpoint runes (fuel : nat) (s : string) : list string :=
  match fuel, s with
  | S fuel, String c s' =>
      if 128 <=? code c then
        let n := snd (DecodeRune s) in rune_text n s :: runes fuel (str_drop n s)
      else char_str c :: runes fuel s'
  | _, _ => []
  end.

Definition to_runes (s : string) : list string := runes (String.length s) s.

(** [objLen]: the lengths of what has one. *)
Definition objLen (o : pyObject) (h : heap) : res Z :=
  match o with
  | pyString s => Ok (Z.of_nat (length (to_runes s)))
  | pyList l | pyFrozenList l => Ok (Z.of_nat (sl_len l))
  | pyDict d | pyFrozenDict d => Ok (Z.of_nat (size (dict_of h d)))
  | pyRange _ start stop step => if step =? 0 then Err (EPanic "runtime error: integer divide by zero")
                               else Ok (wrap (Z.quot (wrap (stop - start)) step))
  | _ => Err (EPanic ("object of type " +:+ Type_ o +:+ " has no len()"))
  end.

Section objects.
Context (Sprintf : string -> list pyObject -> heap -> string).
Context (grow : nat -> nat -> nat).
Context (unrepresentable : Z).

(** [append(l, xs...)]: in place while there is room, which overwrites whatever else
    is there. *)
Definition append (l : gslice) (xs : list pyObject) : H gslice := fun h =>
  let n := (sl_len l + length xs)%nat in
  if (n <=? sl_cap l)%nat then
    Ok (MkGslice (sl_arr l) (sl_off l) n (sl_cap l),
        set_array (sl_arr l) (overwrite (sl_off l + sl_len l) xs (array_of h (sl_arr l))) h)
  else alloc (elements h l ++ xs) (grow (sl_cap l) n) h.

(** ** Indices *)

Definition pyIndex (obj index : pyObject) (slice : bool) (h : heap) : res Z :=
  match index with
  | pyInt i =>
      l ← objLen obj h;
      if i <? 0 then Ok (wrap (l + i))
      else if l <? i then if slice then Ok l else Err (EPanic (Type_ obj +:+ " index out of range"))
      else Ok i
  | _ => Err (EPanic (Type_ obj +:+ " indices must be integers, not " +:+ Type_ index))
  end.

(** [l[i]] for Go's [l] *)
Definition nth_res {A} (l : list A) (i : Z) : res A :=
  if i <? 0 then Err EIndex
  else match l !! Z.to_nat i with Some x => Ok x | None => Err EIndex end.

(** ** Equality *)

(** Go's [==] on interfaces panics on two slices or two maps. *)
Definition same (a b : pyObject) : res bool :=
  match a, b with
  | pyList _, pyList _ | pyFrozenList _, pyFrozenList _ | pyDict _, pyDict _ | pyFrozenDict _, pyFrozenDict _ =>
      Err (EPanic "runtime error: comparing uncomparable type")
  | _, _ => Ok (bool_decide (a = b))
  end.

(** The loop of [in]: it stops at the first element that is the operand. *)
Fixpoint contains_same (items : list pyObject) (operand : pyObject) : res bool :=
  match items with
  | [] => Ok false
  | item :: items => b ← same item operand; if (b : bool) then Ok true else contains_same items operand
  end.

(** [reflect.DeepEqual]: by content, but values of different Go types are never
    equal.  What it makes of two functions, which it compares with their scopes and
    all they lead to, is not modelled: there is no answer. *)
Fixpoint DeepEqual (fuel : nat) (h : heap) (a b : pyObject) : res bool :=
  match fuel with
  | O => NoFuel
  | S fuel =>
      let lists l1 l2 :=
        if (sl_len l1 =? sl_len l2)%nat then
          foldM (fun (acc : bool) '(x, y) => if acc then DeepEqual fuel h x y else Ok false) true
            (combine (elements h l1) (elements h l2))
        else Ok false in
      let maps d1 d2 :=
        let m1 := dict_of h d1 in
        let m2 := dict_of h d2 in
        if (size m1 =? size m2)%nat then
          foldM (fun (acc : bool) '(k, x) =>
            if acc then match m2 !! k with Some y => DeepEqual fuel h x y | None => Ok false end else Ok false)
            true (map_to_list m1)
        else Ok false in
      match a, b with
      | pyList l1, pyList l2 | pyFrozenList l1, pyFrozenList l2 => lists l1 l2
      | pyDict d1, pyDict d2 | pyFrozenDict d1, pyFrozenDict d2 => maps d1 d2
      | pyConfig c1, pyConfig c2 | pyFrozenConfig c1, pyFrozenConfig c2 =>
          match configs h !! c1, configs h !! c2 with
          | Some x1, Some x2 =>
              same_base ← maps (base x1) (base x2);
              match overlay x1, overlay x2 with
              | Some o1, Some o2 => same_overlay ← maps o1 o2; Ok (same_base && same_overlay)
              | None, None => Ok same_base
              | _, _ => Ok false
              end
          | _, _ => Ok (bool_decide (c1 = c2))
          end
      | pyRange _ a1 b1 c1, pyRange _ a2 b2 c2 => Ok ((a1 =? a2) && (b1 =? b2) && (c1 =? c2))
      | pyFunc _ f1, pyFunc _ f2 => if bool_decide (f1 = f2) then Ok true else NoFuel
      | _, _ => Ok (bool_decide (a = b))
      end
  end.

(** ** Operators *)

Definition cannot_operate {A} (what : string) (operand : pyObject) : H A :=
  panic ("Cannot operate on " +:+ what +:+ " and " +:+ Type_ operand).

Definition Repeat_string (s : string) (n : Z) : H pyObject := fun h => r ← strings_Repeat s n; Ok (pyString r, h).

(** [make] with a negative capacity, or one that is too large, panics; an element takes 16 bytes. *)
Definition Repeat (l : gslice) (n : Z) : H pyObject := fun h =>
  let xs := elements h l in
  let cap := wrap (n * Z.of_nat (length xs)) in
  if (cap <? 0) || (maxAlloc <? 16 * cap) then Err (EPanic "runtime error: makeslice: cap out of range")
  else
    let xs := concat (replicate (Z.to_nat n) xs) in
    '(l, h) ← alloc xs (length xs) h;
    Ok (pyList l, h).

Definition FloorDiv (i o : Z) : Z :=
  match floor (float_div (float64 i) (float64 o)) with
  | Some q => if (- 2 ^ 63 <=? q) && (q <? 2 ^ 63) then q else unrepresentable
  | None => unrepresentable
  end.

(** Go's division and remainder, which truncate towards zero. *)
Definition go_div (f : Z -> Z -> Z) (i o : Z) : H pyObject :=
  if o =? 0 then panic "runtime error: integer divide by zero" else hret (pyInt (wrap (f i o))).

Definition int_Operator (i : Z) (op : Op.Operator) (operand : pyObject) : H pyObject :=
  match operand with
  | pyInt o =>
      match op with
      | Op.Add => hret (pyInt (wrap (i + o)))
      | Op.Subtract => hret (pyInt (wrap (i - o)))
      | Op.Multiply => hret (pyInt (wrap (i * o)))
      | Op.Divide => go_div Z.quot i o
      | Op.FloorDivide => hret (pyInt (FloorDiv i o))
      | Op.LessThan => hret (pyBool (i <? o))
      | Op.GreaterThan => hret (pyBool (o <? i))
      | Op.LessThanOrEqual => hret (pyBool (i <=? o))
      | Op.GreaterThanOrEqual => hret (pyBool (o <=? i))
      | Op.Modulo => go_div Z.rem i o
      | Op.In => panic "bad operator: 'in' int"
      | _ => panic "unknown operator"
      end
  | pyString s => if bool_decide (op = Op.Multiply) then Repeat_string s i else cannot_operate "int" operand
  | pyList l => if bool_decide (op = Op.Multiply) then Repeat l i else cannot_operate "int" operand
  | _ => cannot_operate "int" operand
  end.

(** The arguments of [%]. *)
Definition interpolation_args (operand : pyObject) (h : heap) : res (list pyObject) :=
  match operand with
  | pyString _ | pyInt _ => Ok [operand]
  | pyList l => Ok (elements h l)
  | _ => Err (EPanic ("Argument to string interpolation must be a string or list; was " +:+ Type_ operand))
  end.

Definition string_Operator (s : string) (op : Op.Operator) (operand : pyObject) : H pyObject :=
  match op, operand with
  | Op.Modulo, _ => fun h => args ← interpolation_args operand h; Ok (pyString (Sprintf s args h), h)
  | Op.Index, _ => fun h =>
      i ← pyIndex (pyString s) operand false h; r ← nth_res (to_runes s) i; Ok (pyString r, h)
  | Op.Multiply, pyInt i => Repeat_string s i
  | Op.Multiply, _ => panic ("Can only multiply string with int, not with " +:+ Type_ operand)
  | Op.Add, pyString s2 => hret (pyString (s +:+ s2))
  | Op.LessThan, pyString s2 => hret (pyBool (str_ltb s s2))
  | Op.GreaterThan, pyString s2 => hret (pyBool (str_ltb s2 s))
  | Op.LessThanOrEqual, pyString s2 => hret (pyBool (negb (str_ltb s2 s)))
  | Op.GreaterThanOrEqual, pyString s2 => hret (pyBool (negb (str_ltb s s2)))
  | Op.In, pyString s2 => hret (pyBool (contains s s2))
  | Op.NotIn, pyString s2 => hret (pyBool (negb (contains s s2)))
  | _, pyString _ => panic "Unknown operator for string"
  | _, _ => cannot_operate "str" operand
  end.

(** [slices.Clip(append(l, l2...))] *)
Definition list_add (l l2 : gslice) : H pyObject :=
  xs ← reads (fun h => elements h l2); r ← append l xs; hret (pyList (Clip r)).

Definition dict_Operator (d : nat) (op : Op.Operator) (operand : pyObject) : H pyObject := fun h =>
  match op with
  | Op.In | Op.NotIn =>
      match operand with
      | pyString s => Ok (pyBool (Bool.eqb (bool_decide (is_Some (dict_of h d !! s))) (bool_decide (op = Op.In))), h)
      | _ => Ok (pyBool (bool_decide (op = Op.NotIn)), h)
      end
  | Op.Index =>
      match operand with
      | pyString s =>
          match dict_of h d !! s with
          | Some v => Ok (v, h)
          | None => Err (EPanic ("unknown dict key: " +:+ s))
          end
      | _ => Err (EPanic ("Dict keys must be strings, not " +:+ Type_ operand))
      end
  | Op.Union =>
      match operand with
      | pyDict d2 => '(r, h) ← alloc_dict (dict_of h d2 ∪ dict_of h d) h; Ok (pyDict r, h)
      | _ => Err (EPanic ("Operator to | must be another dict, not " +:+ Type_ operand))
      end
  | _ => Err (EPanic "Unsupported operator on dict")
  end.

(** ** Configurations *)

Definition config_of (h : heap) (c : nat) : config := default (MkConfig 0 None) (configs h !! c).
Definition overlay_of (h : heap) (c : nat) : gmap string pyObject :=
  match overlay (config_of h c) with Some o => dict_of h o | None => ∅ end.

Definition config_Get (h : heap) (c : nat) (key : string) : option pyObject :=
  match overlay_of h c !! key with
  | Some v => Some v
  | None => dict_of h (base (config_of h c)) !! key
  end.

Definition MustGet (c : nat) (key : string) : H pyObject := fun h =>
  match config_Get h c key with
  | Some v => Ok (v, h)
  | None => Err (EPanic ("unknown config key " +:+ key))
  end.

Definition config_Operator (c : nat) (op : Op.Operator) (operand : pyObject) : H pyObject :=
  match operand with
  | pyString s =>
      match op with
      | Op.In | Op.NotIn =>
          reads (fun h => pyBool (Bool.eqb (bool_decide (is_Some (config_Get h c s))) (bool_decide (op = Op.In))))
      | Op.Index => MustGet c s
      | _ => panic "Cannot operate on config object"
      end
  | _ => panic "config keys must be strings"
  end.

(** [IndexAssign]: the first change makes the overlay. *)
Definition config_IndexAssign (c : nat) (index value : pyObject) : H unit := fun h =>
  match index with
  | pyString key =>
      match overlay (config_of h c) with
      | None => '(o, h) ← alloc_dict {[ key := value ]} h; Ok (tt, set_config c (MkConfig (base (config_of h c)) (Some o)) h)
      | Some o => Ok (tt, set_dict o (<[key := value]> (dict_of h o)) h)
      end
  | _ => Err (EPanic "interface conversion: asp.pyObject is not asp.pyString")
  end.

Definition config_Copy (c : nat) : H nat := fun h => alloc_config (MkConfig (base (config_of h c)) None) h.

Definition toPyDict (h : heap) (c : nat) : gmap string pyObject := overlay_of h c ∪ dict_of h (base (config_of h c)).

(** [Keys], in order. *)
Definition config_Keys (h : heap) (c : nat) : list string :=
  merge_sort (fun a b => str_ltb a b \/ a = b) (map fst (map_to_list (toPyDict h c))).

(** The copy shares the overlay. *)
Definition config_Freeze (c : nat) : H pyObject := fun h =>
  '(f, h) ← alloc_config (config_of h c) h; Ok (pyFrozenConfig f, h).

Definition Merge (c other : nat) : H unit := fun h =>
  let changes := overlay_of h other in
  match overlay (config_of h c) with
  | None => '(o, h) ← alloc_dict changes h; Ok (tt, set_config c (MkConfig (base (config_of h c)) (Some o)) h)
  | Some o => Ok (tt, set_dict o (changes ∪ dict_of h o) h)
  end.

(** ** Ranges *)

(** The elements of a range; the loop over it only ends if the step is positive. *)
Fixpoint range_elements (fuel : nat) (i stop step : Z) : res (list pyObject) :=
  if i <? stop then
    match fuel with
    | O => NoFuel
    | S fuel => xs ← range_elements fuel (wrap (i + step)) stop step; Ok (pyInt i :: xs)
    end
  else Ok [].

Definition not_implemented {A} (op : Op.Operator) (o : pyObject) : H A :=
  panic ("operator " +:+ Op.to_string op +:+ " not implemented on type " +:+ Type_ o).

Definition range_Operator (fuel : nat) (start stop step : Z) (op : Op.Operator) (operand : pyObject) : H pyObject :=
  match op, operand with
  | Op.Add, pyList l => fun h =>
      n ← objLen (pyRange 0 start stop step) h;
      if wrap (n + Z.of_nat (sl_len l)) <? 0 then Err (EPanic "runtime error: makeslice: cap out of range")
      else
        xs ← range_elements fuel start stop step;
        let cap := Z.to_nat (n + Z.of_nat (sl_len l)) in
        '(r, h) ← alloc xs (if (length xs <=? cap)%nat then cap else grow cap (length xs)) h;
        '(r, h) ← append r (elements h l) h;
        Ok (pyList r, h)
  | _, _ => not_implemented op (pyRange 0 start stop step)
  end.

(** [operatable]: everything but booleans, [None] and functions. *)
Definition operatable (o : pyObject) : bool :=
  match o with pyBool _ | pyNone | pyFunc _ _ | pySentinel _ => false | _ => true end.

Fixpoint Operator (fuel : nat) (op : Op.Operator) (obj operand : pyObject) : H pyObject :=
  match fuel with
  | O => fun _ => NoFuel
  | S fuel =>
      (* the elements of [l < l2], as Python compares lists *)
      let less := fix less (xs ys : list pyObject) : H pyObject :=
        match xs, ys with
        | [], [] => hret (pyBool false)
        | [], _ :: _ => hret (pyBool true)
        | _ :: _, [] => hret (pyBool false)
        | x :: xs, y :: ys =>
            if negb (operatable x) then not_implemented Op.LessThan x
            else if negb (operatable y) then not_implemented Op.LessThan y
            else
              b ← Operator fuel Op.LessThan y x;
              b ← reads (fun h => IsTruthy h b);
              if (b : bool) then hret (pyBool false)
              else
                b ← Operator fuel Op.LessThan x y;
                b ← reads (fun h => IsTruthy h b);
                if (b : bool) then hret (pyBool true) else less xs ys
        end in
      match obj with
      | pyInt i => int_Operator i op operand
      | pyString s => string_Operator s op operand
      | pyList l | pyFrozenList l =>
          match op, operand with
          | Op.Add, (pyList l2 | pyFrozenList l2) => list_add l l2
          | Op.Add, _ => panic ("Cannot add list and " +:+ Type_ operand)
          | (Op.In | Op.NotIn), _ => fun h =>
              b ← contains_same (elements h l) operand;
              Ok (pyBool (if (b : bool) then bool_decide (op = Op.In) else bool_decide (op = Op.NotIn)), h)
          | Op.Index, _ => fun h =>
              i ← pyIndex (pyList l) operand false h; x ← nth_res (elements h l) i; Ok (x, h)
          | Op.LessThan, pyList l2 => fun h => less (elements h l) (elements h l2) h
          | Op.LessThan, _ => panic ("Cannot compare list and " +:+ Type_ operand)
          | Op.Multiply, pyInt i => Repeat l i
          | Op.Multiply, _ => panic ("Can only multiply list with int, not with " +:+ Type_ operand)
          | _, _ => panic ("Unsupported operator on list: " +:+ Op.to_string op)
          end
      | pyDict d | pyFrozenDict d => dict_Operator d op operand
      | pyConfig c | pyFrozenConfig c => config_Operator c op operand
      | pyRange _ start stop step => range_Operator fuel start stop step op operand
      | _ => not_implemented op obj
      end
  end.
End objects.

(** ** Lists *)

(** A slice of an array there is. *)
Record valid (h : heap) (l : gslice) : Prop := {
  valid_len : (sl_len l <= sl_cap l)%nat;
  valid_cap : (sl_off l + sl_cap l <= length (array_of h (sl_arr l)))%nat;
  valid_arr : (sl_arr l < fresh h)%nat;
}.

Lemma elements_length h l : valid h l -> length (elements h l) = sl_len l.
Proof. intros []. unfold elements. rewrite length_take, length_drop. lia. Qed.

Lemma array_set_eq a xs h : array_of (set_array a xs h) a = xs.
Proof. unfold array_of, set_array. cbn. by rewrite lookup_insert_eq. Qed.

Lemma array_set_ne a b xs h : a <> b -> array_of (set_array a xs h) b = array_of h b.
Proof. intros. unfold array_of, set_array. cbn. by rewrite lookup_insert_ne. Qed.

(** Writing [xs] at [i]: what is read before it, what is read of it. *)
Lemma overwrite_before i xs arr off n :
  (off + n <= i)%nat -> (i <= length arr)%nat -> take n (drop off (overwrite i xs arr)) = take n (drop off arr).
Proof.
  intros Hn Hi. unfold overwrite. apply list_eq. intros k. destruct (decide (k < n)%nat) as [Hk|Hk].
  - rewrite !lookup_take_lt, !lookup_drop by done. rewrite lookup_app_l by (rewrite length_take; lia).
    rewrite lookup_take_lt by lia. done.
  - rewrite !lookup_take_ge by lia. done.
Qed.

Lemma overwrite_at i xs arr off :
  (off <= i)%nat -> (i + length xs <= length arr)%nat ->
  drop off (overwrite i xs arr) = take (i - off) (drop off arr) ++ xs ++ drop (i + length xs) arr.
Proof.
  intros Hn Hi. unfold overwrite. rewrite drop_app_le by (rewrite length_take; lia).
  rewrite skipn_firstn_comm. done.
Qed.

Lemma overwrite_length i xs arr : (i + length xs <= length arr)%nat -> length (overwrite i xs arr) = length arr.
Proof. intros. unfold overwrite. rewrite !length_app, length_take, length_drop. lia. Qed.

Section append.
Context (grow : nat -> nat -> nat).

(** There is room in place. *)
Lemma append_in_place l xs h :
  valid h l -> (sl_len l + length xs <= sl_cap l)%nat ->
  exists h', append grow l xs h = Ok (MkGslice (sl_arr l) (sl_off l) (sl_len l + length xs) (sl_cap l), h') /\
    h' = set_array (sl_arr l) (overwrite (sl_off l + sl_len l) xs (array_of h (sl_arr l))) h.
Proof. intros _ H. unfold append. rewrite (proj2 (Nat.leb_le _ _) H). eauto. Qed.

Lemma append_moves l xs h :
  (sl_cap l < sl_len l + length xs)%nat -> append grow l xs h = alloc (elements h l ++ xs) (grow (sl_cap l) (sl_len l + length xs)) h.
Proof. intros H. unfold append. by rewrite (proj2 (Nat.leb_gt _ _) H). Qed.

Lemma alloc_spec xs cap h :
  (length xs <= cap)%nat ->
  exists l h', alloc xs cap h = Ok (l, h') /\ valid h' l /\ sl_len l = length xs /\ sl_arr l = fresh h /\
    elements h' l = xs /\ forall a, (a < fresh h)%nat -> array_of h' a = array_of h a.
Proof.
  intros Hc. eexists _, _. split; [done|]. unfold array_of, elements; cbn. split_and!; try done.
  - split; cbn; [done| |lia]. unfold array_of. cbn. rewrite lookup_insert_eq. cbn. rewrite length_app, length_replicate. lia.
  - unfold array_of. cbn. rewrite lookup_insert_eq. cbn. by rewrite drop_0, take_app_length.
  - intros a Ha. rewrite lookup_insert_ne by lia. done.
Qed.

(** What Go promises of the capacity it chooses. *)
Context (grow_enough : forall cap n, (n <= grow cap n)%nat).

(** Appending gives the elements of both, in an array there is; nothing changes but
    what was behind the list. *)
Lemma append_spec l xs h :
  valid h l ->
  exists r h', append grow l xs h = Ok (r, h') /\ valid h' r /\ elements h' r = elements h l ++ xs /\
    sl_len r = (sl_len l + length xs)%nat /\
    (forall l', valid h l' -> sl_arr l' <> sl_arr l \/ (sl_off l' + sl_len l' <= sl_off l + sl_len l)%nat \/
                            (sl_cap l < sl_len l + length xs)%nat ->
       elements h' l' = elements h l').
Proof.
  intros Hl. destruct (decide (sl_len l + length xs <= sl_cap l)%nat) as [Hc|Hc].
  - destruct (append_in_place l xs h Hl Hc) as (h' & -> & ->). destruct Hl as [Hlen Hcap Harr].
    eexists _, _. split; [done|]. unfold elements. cbn. rewrite array_set_eq. split_and!.
    + split; cbn; [done| |done]. rewrite array_set_eq, overwrite_length by lia. done.
    + rewrite overwrite_at by lia.
      replace (sl_off l + sl_len l - sl_off l)%nat with (sl_len l) by lia.
      rewrite app_assoc. rewrite take_app_length'; [done|]. rewrite length_app, length_take, length_drop. lia.
    + done.
    + intros l' [Hlen' Hcap' Harr'] Hd. destruct (decide (sl_arr l' = sl_arr l)) as [He|He].
      * rewrite He, array_set_eq. apply overwrite_before; lia.
      * by rewrite array_set_ne.
  - rewrite append_moves by lia.
    destruct (alloc_spec (elements h l ++ xs) (grow (sl_cap l) (sl_len l + length xs)) h) as (r & h' & -> & Hv & Hlen & _ & He & Hf).
    { rewrite length_app, elements_length by done. apply grow_enough. }
    exists r, h'. split_and!; [done..| |].
    + rewrite Hlen, length_app. by rewrite elements_length.
    + intros l' [_ _ Ha] _. unfold elements. by rewrite Hf.
Qed.

Lemma Clip_elements h l : elements h (Clip l) = elements h l.
Proof. done. Qed.

(** the sum of two lists has the elements of both, in a list with no room to grow
    further, and neither changes; nor does any other list, unless it reaches beyond the
    end of the first in the same array, where there is room for the second. *)
Theorem list_add_spec l l2 h :
  valid h l -> valid h l2 ->
  exists r h', list_add grow l l2 h = Ok (pyList r, h') /\
    elements h' r = elements h l ++ elements h l2 /\ sl_cap r = sl_len r /\ valid h' r /\
    elements h' l = elements h l /\
    forall l', valid h l' ->
      sl_arr l' <> sl_arr l \/ (sl_off l' + sl_len l' <= sl_off l + sl_len l)%nat \/
      (sl_cap l < sl_len l + sl_len l2)%nat ->
      elements h' l' = elements h l'.
Proof.
  intros Hl Hl2. destruct (append_spec l (elements h l2) h Hl) as (r & h' & Ha & Hv & He & Hlen & Hf).
  exists (Clip r), h'. split_and!.
  - unfold list_add, reads, mbind, H_bind. cbn. by rewrite Ha.
  - done.
  - done.
  - destruct Hv. split; cbn; [done|lia|done].
  - apply Hf; [done|]. lia.
  - intros l' Hl' Hd. apply Hf; [done|]. by rewrite elements_length.
Qed.
End append.

(** but the beginning of a list shares its array and its capacity: adding [l2] to
    the first [k] elements of [l] overwrites the elements of [l] that follow them. *)
Theorem list_add_overwrites grow l l2 k h :
  valid h l -> valid h l2 -> (k + sl_len l2 <= sl_len l)%nat ->
  exists r h',
    list_add grow (MkGslice (sl_arr l) (sl_off l) k (sl_cap l)) l2 h = Ok (pyList r, h') /\
    elements h' l = take k (elements h l) ++ elements h l2 ++ drop (k + sl_len l2) (elements h l).
Proof.
  intros Hl Hl2 Hk. pose proof (elements_length h l2 Hl2) as Hn.
  set (p := MkGslice (sl_arr l) (sl_off l) k (sl_cap l)).
  destruct Hl as [Hlen Hcap Harr].
  assert (valid h p) as Hp by (split; cbn; [lia|done|done]).
  destruct (append_in_place grow p (elements h l2) h Hp) as (h' & Ha & ->); [cbn; lia|].
  eexists _, _. split.
  - unfold list_add, reads, mbind, H_bind. cbn. rewrite Ha. done.
  - clear Ha. revert Hn. generalize (elements h l2) as ys. intros ys Hn.
    unfold elements. cbn. rewrite array_set_eq.
    fold (overwrite (sl_off l + k) ys (array_of h (sl_arr l))). rewrite overwrite_at by lia.
    replace (sl_off l + k - sl_off l)%nat with k by lia.
    rewrite !take_app, !take_take, !length_take, length_drop, Hn.
    replace (sl_len l `min` k)%nat with k by lia. replace (k `min` sl_len l)%nat with k by lia.
    rewrite (take_ge ys) by lia. do 2 f_equal. rewrite skipn_firstn_comm, drop_drop. f_equal; [lia|]. f_equal. lia.
Qed.

(** [l = [1, 2, 3]] with room for a fourth, and [l2 = [9]]. *)
Definition two_lists : heap :=
  MkHeap {[ 1%nat := [pyInt 1; pyInt 2; pyInt 3; pyNone]; 2%nat := [pyInt 9] ]} ∅ ∅ 3.
Definition list1 : gslice := MkGslice 1 0 3 4.
Definition list2 : gslice := MkGslice 2 0 1 1.

Lemma two_lists_valid : valid two_lists list1 /\ valid two_lists list2.
Proof. split; split; cbn; vm_compute; lia. Qed.

Lemma list_add_spec_witness :
  exists r h', list_add (fun _ n => n) list1 list2 two_lists = Ok (pyList r, h') /\
    elements h' r = [pyInt 1; pyInt 2; pyInt 3; pyInt 9] /\ sl_cap r = sl_len r /\ valid h' r /\
    elements h' list1 = elements two_lists list1 /\
    forall l', valid two_lists l' ->
      sl_arr l' <> sl_arr list1 \/ (sl_off l' + sl_len l' <= sl_off list1 + sl_len list1)%nat \/
      (sl_cap list1 < sl_len list1 + sl_len list2)%nat ->
      elements h' l' = elements two_lists l'.
Proof. apply (list_add_spec (fun _ n => n)); [lia|apply two_lists_valid..]. Defined.

Lemma list_add_overwrites_witness :
  exists r h', list_add (fun _ n => n) (MkGslice 1 0 1 4) list2 two_lists = Ok (pyList r, h') /\
    elements h' list1 = [pyInt 1; pyInt 9; pyInt 3].
Proof. apply (list_add_overwrites (fun _ n => n) list1 list2 1 two_lists); [apply two_lists_valid..|cbn; lia]. Defined.

(** ** Integers *)

Definition is_int (z : Z) : Prop := - 2 ^ 63 <= z < 2 ^ 63.

Lemma wrap_is_int z : is_int (wrap z).
Proof. unfold is_int, wrap. pose proof (Z.mod_pos_bound (z + 2 ^ 63) (2 ^ 64) ltac:(lia)). lia. Qed.

Lemma wrap_id z : is_int z -> wrap z = z.
Proof. unfold is_int, wrap. intros. rewrite Z.mod_small by lia. lia. Qed.

Lemma wrap_cong z : (wrap z - z) mod 2 ^ 64 = 0.
Proof.
  unfold wrap. pose proof (Z.div_mod (z + 2 ^ 63) (2 ^ 64) ltac:(lia)) as H.
  replace ((z + 2 ^ 63) mod 2 ^ 64 - 2 ^ 63 - z) with ((- ((z + 2 ^ 63) / 2 ^ 64)) * 2 ^ 64) by lia.
  apply Z_mod_mult.
Qed.

(** *** Floor division *)

Lemma digits_log2 p : Zdigits2 (Zpos p) = Z.log2 (Zpos p) + 1.
Proof.
  cbn [Zdigits2]. induction p as [p IH|p IH|]; cbn [digits2_pos]; [| |done].
  - rewrite Pos2Z.inj_succ, IH, (Pos2Z.inj_xI p), Z.log2_succ_double by lia. lia.
  - rewrite Pos2Z.inj_succ, IH, (Pos2Z.inj_xO p), Z.log2_double by lia. lia.
Qed.

Lemma digits_of p k : 0 <= k -> 2 ^ k <= Zpos p < 2 ^ (k + 1) -> Zdigits2 (Zpos p) = k + 1.
Proof. intros Hk H. rewrite digits_log2. f_equal. apply Z.log2_unique; [lia|]. by rewrite <- Z.add_1_r. Qed.

Lemma fexp_normal e : -1021 <= e -> fexp 53 1024 e = e - 53.
Proof. unfold fexp, emin. lia. Qed.

(** Mantissas of 53 bits are not shifted, and those of 54 bits once. *)
Lemma shr_none p e l : 2 ^ 52 <= Zpos p < 2 ^ 53 -> -1074 <= e -> shr_fexp 53 1024 (Zpos p) e l = (shr_record_of_loc (Zpos p) l, e).
Proof.
  intros Hp He. unfold shr_fexp. rewrite (digits_of p 52), fexp_normal by lia. by replace (52 + 1 + e - 53 - e) with 0 by lia.
Qed.

Lemma shr_once p e l : 2 ^ 53 <= Zpos p < 2 ^ 54 -> -1074 <= e ->
  shr_fexp 53 1024 (Zpos p) e l = (shr_1 (shr_record_of_loc (Zpos p) l), e + 1).
Proof.
  intros Hp He. unfold shr_fexp. rewrite (digits_of p 53), fexp_normal by lia. by replace (53 + 1 + e - 53 - e) with 1 by lia.
Qed.

(** A value, as an integer that is scaled *)
Definition scaled (s : bool) (v e : Z) (x : spec_float) : Prop :=
  exists m k, x = S754_finite s m (e + k) /\ 0 <= k <= 1 /\ v = Zpos m * 2 ^ k.

(** What comes after rounding *)
Lemma finish_round s v e : 2 ^ 52 <= v <= 2 ^ 53 -> -1074 <= e <= 900 ->
  scaled s v e (let '(r, e') := shr_fexp 53 1024 v e loc_Exact in
    match shr_m r with
    | Z0 => S754_zero s
    | Zpos m => if Z.leb e' (1024 - 53) then S754_finite s m e' else S754_infinity s
    | _ => S754_nan
    end).
Proof.
  intros Hv He. destruct v as [|p|p]; [lia| |lia]. destruct (decide (Zpos p = 2 ^ 53)) as [E|Hne].
  - rewrite shr_once by lia. assert (p = xO (Pos.pow 2 52)) as -> by lia. cbn [shr_record_of_loc shr_1 shr_m].
    rewrite (proj2 (Z.leb_le (e + 1) (1024 - 53))) by lia. exists (Pos.pow 2 52), 1. done.
  - rewrite shr_none by lia. cbn [shr_record_of_loc shr_m]. rewrite (proj2 (Z.leb_le e (1024 - 53))) by lia.
    exists p, 0. rewrite Z.add_0_r. split_and!; [done|lia..].
Qed.

(** What the location of a remainder says *)
Definition located (d r : Z) (l : location) : Prop :=
  match l with
  | loc_Exact => r = 0
  | loc_Inexact Lt => 0 < r /\ 2 * r < d
  | loc_Inexact Eq => 0 < r /\ 2 * r = d
  | loc_Inexact Gt => d < 2 * r
  end.

Lemma new_location_spec d r : 0 <= r < d -> located d r (new_location d r).
Proof.
  intros Hr. unfold new_location. destruct (Z.even d) eqn:Ev; [unfold new_location_even|unfold new_location_odd];
    (destruct (Z.eqb_spec r 0) as [->|]; [done|]); cbn [located].
  - destruct (Z.compare_spec (2 * r) d); lia.
  - assert (Z.odd d = true) as [k ->]%Z.odd_spec by (by rewrite <- Z.negb_even, Ev).
    destruct (Z.compare_spec (2 * r + 1) (2 * k + 1)); lia.
Qed.

(** Rounding [p + r / d] gives the nearest. *)
Lemma round_aux s p e d r : 2 ^ 52 <= Zpos p < 2 ^ 54 -> -1074 <= e <= 800 -> 0 <= r < d ->
  exists n v, 0 <= n <= 1 /\ 2 ^ 52 <= v <= 2 ^ 53 /\ 2 ^ 52 * 2 ^ n <= Zpos p /\
    2 * Z.abs (v * 2 ^ n * d - (Zpos p * d + r)) <= 2 ^ n * d /\
    scaled s v (e + n) (binary_round_aux 53 1024 s (Zpos p) e (new_location d r)).
Proof.
  intros Hp He Hr. pose proof (new_location_spec d r Hr) as Hl. generalize dependent (new_location d r). intros l Hl.
  destruct (decide (Zpos p < 2 ^ 53)) as [Hlt|Hge].
  - exists 0, (round_nearest_even (Zpos p) l). unfold binary_round_aux. rewrite shr_none by lia.
    assert (forall l, round_nearest_even (shr_m (shr_record_of_loc (Zpos p) l)) (loc_of_shr_record (shr_record_of_loc (Zpos p) l)) =
      round_nearest_even (Zpos p) l) as -> by (by intros [|[]]). rewrite Z.add_0_r, Z.pow_0_r, Z.mul_1_r.
    assert (Zpos p <= round_nearest_even (Zpos p) l <= Zpos p + 1 /\
      2 * Z.abs (round_nearest_even (Zpos p) l * d - (Zpos p * d + r)) <= d) as [Hb Hd].
    { destruct l as [|[]]; cbn [round_nearest_even located] in *; [..|destruct (Z.even (Zpos p))| |]; nia. }
    split_and!; try lia. apply finish_round; lia.
  - assert (exists m b, p = (if b : bool then xI m else xO m) /\ 2 ^ 52 <= Zpos m < 2 ^ 53) as (m & b & -> & Hm).
    { destruct p as [m|m|]; [exists m, true; lia|exists m, false; lia|lia]. }
    set (inexact := match l with loc_Exact => false | _ => true end).
    assert (shr_1 (shr_record_of_loc (Zpos (if b then xI m else xO m)) l) = Build_shr_record (Zpos m) b inexact) as Hs.
    { by destruct l as [|[]], b. }
    set (v := if b && inexact || b && Z.odd (Zpos m) then Zpos m + 1 else Zpos m).
    exists 1, v. unfold binary_round_aux. rewrite shr_once by (destruct b; lia). rewrite Hs. cbn [shr_m].
    assert (round_nearest_even (Zpos m) (loc_of_shr_record (Build_shr_record (Zpos m) b inexact)) = v) as ->.
    { unfold v. rewrite <- Z.negb_even. destruct b, inexact; cbn [loc_of_shr_record round_nearest_even andb orb negb]; try done.
      by destruct (Z.even (Zpos m)). }
    assert (inexact = false -> r = 0) as Hi by (unfold inexact; destruct l; done).
    assert (Zpos (if b then xI m else xO m) = 2 * Zpos m + Z.b2z b) as -> by (destruct b; cbn [Z.b2z]; lia).
    assert (Zpos m <= v <= Zpos m + 1 /\ 2 * Z.abs (v * 2 * d - ((2 * Zpos m + Z.b2z b) * d + r)) <= 2 * d) as [Hb Hd].
    { unfold v. destruct b, inexact, (Z.odd (Zpos m)); cbn [andb orb Z.b2z]; try rewrite (Hi eq_refl) in *; nia. }
    rewrite Z.pow_1_r. split_and!; try exact Hd; try (destruct b; cbn [Z.b2z]; lia). apply finish_round; lia.
Qed.

Lemma iter_double p j : Zpos (Pos.iter xO p j) = Zpos p * 2 ^ Zpos j.
Proof.
  induction j as [|j IH] using Pos.peano_ind; [cbn; lia|]. rewrite Pos.iter_succ, Pos2Z.inj_succ, Z.pow_succ_r by lia.
  rewrite Pos2Z.inj_xO, IH. lia.
Qed.

(** An integer below 2^53 is exact. *)
Lemma float64_exact z : z <> 0 -> Z.abs z < 2 ^ 53 ->
  exists m k, float64 z = S754_finite (z <? 0) m (- k) /\ 0 <= k <= 52 /\ Zpos m = Z.abs z * 2 ^ k /\ 2 ^ 52 <= Zpos m < 2 ^ 53.
Proof.
  intros Hz Hlt.
  assert (forall s p, Zpos p < 2 ^ 53 -> exists m k, binary_round 53 1024 s p 0 = S754_finite s m (- k) /\ 0 <= k <= 52 /\
    Zpos m = Zpos p * 2 ^ k /\ 2 ^ 52 <= Zpos m < 2 ^ 53) as H.
  { intros s p Hp. set (k := 52 - Z.log2 (Zpos p)).
    assert (0 <= Z.log2 (Zpos p) < 53) as Hl by (split; [apply Z.log2_nonneg|apply Z.log2_lt_pow2; lia]).
    pose proof (Z.log2_spec (Zpos p) ltac:(lia)) as Hs. rewrite <- Z.add_1_r in Hs.
    assert (2 ^ 52 <= Zpos p * 2 ^ k < 2 ^ 53) as Hm.
    { replace (2 ^ 52) with (2 ^ Z.log2 (Zpos p) * 2 ^ k) by (rewrite <- Z.pow_add_r by lia; f_equal; lia).
      replace (2 ^ 53) with (2 ^ (Z.log2 (Zpos p) + 1) * 2 ^ k) by (rewrite <- Z.pow_add_r by lia; f_equal; lia).
      pose proof (Z.pow_pos_nonneg 2 k ltac:(lia) ltac:(lia)). nia. }
    assert (exists m, shl_align p 0 (fexp 53 1024 (Zpos (digits2_pos p) + 0)) = (m, - k) /\ Zpos m = Zpos p * 2 ^ k) as (m & Ha & Em).
    { change (Zpos (digits2_pos p)) with (Zdigits2 (Zpos p)). rewrite digits_log2, fexp_normal by lia.
      replace (Z.log2 (Zpos p) + 1 + 0 - 53) with (- k) by lia. unfold shl_align. rewrite Z.sub_0_r.
      destruct k as [|j|j] eqn:Ek; [exists p; split; [done|lia]| |lia]. eexists. split; [done|]. apply iter_double. }
    exists m, k. unfold binary_round. rewrite Ha. unfold binary_round_aux. rewrite <- Em in Hm.
    rewrite shr_none by lia. cbn [shr_record_of_loc shr_m loc_of_shr_record round_nearest_even].
    rewrite shr_none by lia. cbn [shr_record_of_loc shr_m]. rewrite (proj2 (Z.leb_le (- k) (1024 - 53))) by lia. split_and!; (done || lia). }
  unfold float64. destruct z as [|p|p]; [done| |]; cbn [binary_normalize Z.abs Z.ltb Z.compare] in *; by apply H.
Qed.

Lemma floor_scaled s v t : 0 <= t -> 0 <= v -> forall x, scaled s v (- t) x -> floor x = Some ((if s then - v else v) / 2 ^ t).
Proof.
  intros Ht Hv x (m & k & -> & Hk & ->). cbn [floor]. f_equal.
  assert ((if s then - (Zpos m * 2 ^ k) else Zpos m * 2 ^ k) = (if s then Z.neg m else Z.pos m) * 2 ^ k) as -> by (destruct s; lia).
  generalize (if s then Z.neg m else Z.pos m). intros w. destruct (Z.leb_spec 0 (- t + k)) as [H|H].
  - replace k with (t + (- t + k)) at 2 by lia. rewrite (Z.pow_add_r 2 t (- t + k)), (Z.mul_comm (2 ^ t)), Z.mul_assoc by lia.
    rewrite Z.div_mul; [done|]. pose proof (Z.pow_pos_nonneg 2 t). lia.
  - replace t with (k + (- (- t + k))) at 2 by lia. rewrite Z.pow_add_r by lia.
    rewrite (Z.mul_comm (2 ^ k)). rewrite Z.div_mul_cancel_r; [done|..]; pose proof (Z.pow_pos_nonneg 2 k); pose proof (Z.pow_pos_nonneg 2 (- (- t + k))); lia.
Qed.

(** A value that is nearest to a quotient of integers below 2^53, and has 53 bits, lies between the same integers. *)
Lemma nearest_floor a b v t : 0 < b -> 0 < a < 2 ^ 53 -> 0 <= t -> 2 * Z.abs (v * b - a * 2 ^ t) <= b -> 2 ^ 52 * b <= a * 2 ^ t ->
  v / 2 ^ t = a / b /\ (- v) / 2 ^ t = (- a) / b.
Proof.
  intros Hb Ha Ht Hn Hbig. pose proof (Z.pow_pos_nonneg 2 t ltac:(lia) Ht) as Hp. set (p := 2 ^ t) in *. clearbody p.
  assert (b < 2 * p) as Hbp by nia.
  split; symmetry.
  - pose proof (Z.div_mod a b ltac:(lia)) as E. pose proof (Z.mod_pos_bound a b Hb) as Hr.
    set (q := a / b) in *. apply (Z.div_unique _ _ _ (v - p * q)); [left|lia]. clearbody q. nia.
  - pose proof (Z.div_mod (- a) b ltac:(lia)) as E. pose proof (Z.mod_pos_bound (- a) b Hb) as Hr.
    set (q := (- a) / b) in *. apply (Z.div_unique _ _ _ (- v - p * q)); [left|lia]. clearbody q. nia.
Qed.
Lemma FloorDiv_is_int unrep i o : is_int unrep -> is_int (FloorDiv unrep i o).
Proof.
  intros Hu. unfold FloorDiv. destruct (floor _) as [q|]; [|done]. destruct ((- 2 ^ 63 <=? q) && (q <? 2 ^ 63)) eqn:E; [|done].
  unfold is_int. lia.
Qed.

(** [//] is exact for integers below 2^53. *)
Lemma FloorDiv_exact unrep i o : Z.abs i < 2 ^ 53 -> Z.abs o < 2 ^ 53 -> o <> 0 -> FloorDiv unrep i o = i / o.
Proof.
  intros Hi Ho Hne.
  assert (floor (float_div (float64 i) (float64 o)) = Some (i / o)) as Hf; [|unfold FloorDiv; rewrite Hf].
  2: { assert (- 2 ^ 53 <= i / o <= 2 ^ 53) as Hq.
       { pose proof (Z.div_mod i o Hne) as E. destruct (Z.lt_trichotomy o 0) as [Hlt|[?|Hgt]]; [|done|].
         - pose proof (Z.mod_neg_bound i o Hlt). nia.
         - pose proof (Z.mod_pos_bound i o Hgt). nia. }
       by rewrite (proj2 (Z.leb_le (- 2 ^ 63) (i / o))), (proj2 (Z.ltb_lt (i / o) (2 ^ 63))) by lia. }
  destruct (float64_exact o Hne Ho) as (m2 & k2 & -> & Hk2 & E2 & Hm2). destruct (decide (i = 0)) as [->|Hi0]; [done|].
  destruct (float64_exact i Hi0 Hi) as (m1 & k1 & -> & Hk1 & E1 & Hm1).
  unfold float_div, SFdiv, SFdiv_core_binary. rewrite !(digits_of _ 52) by lia. rewrite fexp_normal by lia.
  rewrite Z.min_l by lia. replace (52 + 1 + - k1 - (52 + 1 + - k2) - 53) with (k2 - k1 - 53) by lia.
  replace (- k1 - - k2 - (k2 - k1 - 53)) with 53 by lia. rewrite Z.shiftl_mul_pow2 by lia.
  destruct (Z.div_eucl (Zpos m1 * 2 ^ 53) (Zpos m2)) as [q r] eqn:Eq.
  pose proof (Z_div_mod_full (Zpos m1 * 2 ^ 53) (Zpos m2) ltac:(lia)) as Hd. rewrite Eq in Hd. destruct Hd as [Ed Hr].
  assert (0 <= r < Zpos m2) as Hr' by (destruct Hr; lia). clear Hr Eq.
  assert (2 ^ 52 <= q < 2 ^ 54) as Hq by nia. destruct q as [|q|q]; [lia| |lia].
  destruct (round_aux (xorb (i <? 0) (o <? 0)) q (k2 - k1 - 53) (Zpos m2) r) as (n & v & Hn & Hv & Hqn & Hnear & Hsc); [lia..|].
  set (t := 53 + k1 - k2 - n). replace (k2 - k1 - 53 + n) with (- t) in Hsc by (unfold t; lia).
  apply floor_scaled in Hsc; [|unfold t; lia..]. rewrite Hsc. f_equal.
  assert (0 < Z.abs o /\ 0 < Z.abs i) as [Ha Hb] by lia.
  assert (Z.abs i * 2 ^ t * 2 ^ (n + k2) = Zpos m1 * 2 ^ 53) as Et.
  { rewrite <- Z.mul_assoc, <- Z.pow_add_r by (unfold t; lia). replace (t + (n + k2)) with (k1 + 53) by (unfold t; lia).
    rewrite Z.pow_add_r by lia. rewrite E1. lia. }
  rewrite Z.mul_comm in Ed. assert (Zpos m2 * Zpos q + r = Zpos m1 * 2 ^ 53) as Ed' by lia.
  pose proof (Z.pow_pos_nonneg 2 (n + k2) ltac:(lia) ltac:(lia)) as Hp.
  assert (Zpos m2 * 2 ^ n = Z.abs o * 2 ^ (n + k2)) as Em2 by (rewrite E2, (Z.pow_add_r 2 n k2) by lia; lia).
  destruct (nearest_floor (Z.abs i) (Z.abs o) v t) as [Hpos Hneg]; [lia..|unfold t; lia| | |].
  - apply (Z.mul_le_mono_pos_r _ _ (2 ^ (n + k2))); [done|].
    assert (v * 2 ^ n * Zpos m2 - (Zpos q * Zpos m2 + r) = (v * Z.abs o - Z.abs i * 2 ^ t) * 2 ^ (n + k2)) as E.
    { rewrite Z.mul_sub_distr_r, Et. rewrite <- (Z.mul_assoc v (Z.abs o)), <- Em2. lia. }
    rewrite E, Z.abs_mul, (Z.abs_eq (2 ^ (n + k2))) in Hnear by lia. rewrite <- Em2. lia.
  - apply (Z.mul_le_mono_pos_r _ _ (2 ^ (n + k2))); [done|]. rewrite Et, <- Ed', <- Z.mul_assoc, <- Em2.
    transitivity (Zpos m2 * (2 ^ 52 * 2 ^ n)); [lia|]. transitivity (Zpos m2 * Zpos q); [|lia]. by apply Z.mul_le_mono_nonneg_l.
  - destruct (Z.ltb_spec i 0), (Z.ltb_spec o 0); cbn [xorb].
    + rewrite Hpos, <- (Z.div_opp_opp i o) by done. f_equal; lia.
    + rewrite Hneg. f_equal; lia.
    + rewrite Hneg, <- (Z.div_opp_opp i o) by done. f_equal; lia.
    + rewrite Hpos. f_equal; lia.
Qed.

(** The exact result of an operator that rounds towards zero. *)
Definition exact (op : Op.Operator) (i o : Z) : option Z :=
  match op with
  | Op.Add => Some (i + o)
  | Op.Subtract => Some (i - o)
  | Op.Multiply => Some (i * o)
  | Op.Divide => Some (Z.quot i o)
  | Op.Modulo => Some (Z.rem i o)
  | _ => None
  end.

Lemma quot_is_int i o : is_int i -> is_int o -> (i, o) <> (- 2 ^ 63, -1) -> is_int (Z.quot i o).
Proof.
  unfold is_int. intros Hi Ho Hne. destruct (decide (o = 0)) as [->|]; [rewrite Z.quot_0_r_ext; lia|].
  destruct (decide (o = -1)) as [->|].
  - change (-1) with (Z.opp 1). rewrite Z.quot_opp_r, Z.quot_1_r by lia. assert (i <> - 2 ^ 63) by congruence. lia.
  - pose proof (Z.quot_abs i o ltac:(done)) as Ha.
    destruct (decide (Z.abs o = 1)) as [Ho1|Ho1].
    + assert (o = 1) as -> by lia. rewrite Z.quot_1_r. lia.
    + assert (Z.quot (Z.abs i) (Z.abs o) <= Z.abs i / 2).
      { rewrite Z.quot_div_nonneg by lia. apply Z.div_le_compat_l; lia. }
      assert (Z.abs i / 2 < 2 ^ 63) by (apply Z.div_lt_upper_bound; lia). lia.
Qed.

Lemma rem_is_int i o : is_int i -> is_int o -> o <> 0 -> is_int (Z.rem i o).
Proof.
  unfold is_int. intros Hi Ho Hne. pose proof (Z.rem_bound_abs i o Hne). pose proof (Z.rem_sign_mul i o Hne).
  destruct (decide (0 <= i)); [pose proof (Z.rem_nonneg i o Hne)|pose proof (Z.rem_nonpos i o Hne)]; lia.
Qed.

(** C21: An operator on two integers. [+], [-] and [*] are those of 64 bits: the result is the exact one when
    it fits and is otherwise off by a multiple of 2^64; [/] and [%] truncate towards zero, panic for zero, and
    only the smallest integer by -1 does not fit. [//] goes through floating point: it never panics, not even
    for zero, gives an integer of 64 bits, and is the quotient rounded down for integers below 2^53 - from there
    on it need not be ([FloorDiv_inexact]). Comparisons are exact, and any other operator panics. *)
Theorem int_Operator_bounds unrep op i o h :
  is_int unrep -> is_int i -> is_int o ->
  let r := int_Operator unrep i op (pyInt o) h in
  match op with
  | Op.Add | Op.Subtract | Op.Multiply | Op.Divide | Op.Modulo =>
      exists z, exact op i o = Some z /\
        if bool_decide (o = 0) && (bool_decide (op = Op.Divide) || bool_decide (op = Op.Modulo))
        then r = Err (EPanic "runtime error: integer divide by zero")
        else exists x, r = Ok (pyInt x, h) /\ is_int x /\ (x - z) mod 2 ^ 64 = 0 /\ (is_int z -> x = z) /\
          (op = Op.Divide -> (i, o) <> (- 2 ^ 63, -1) -> x = z) /\ (op = Op.Modulo -> x = z)
  | Op.FloorDivide => exists x, r = Ok (pyInt x, h) /\ is_int x /\ (Z.abs i < 2 ^ 53 -> Z.abs o < 2 ^ 53 -> o <> 0 -> x = i / o)
  | Op.LessThan => exists b, r = Ok (pyBool b, h) /\ (b = true <-> i < o)
  | Op.GreaterThan => exists b, r = Ok (pyBool b, h) /\ (b = true <-> i > o)
  | Op.LessThanOrEqual => exists b, r = Ok (pyBool b, h) /\ (b = true <-> i <= o)
  | Op.GreaterThanOrEqual => exists b, r = Ok (pyBool b, h) /\ (b = true <-> i >= o)
  | _ => exists msg, r = Err (EPanic msg)
  end.
Proof.
  intros Hu Hi Ho r.
  assert (forall z, exists x, Ok (pyInt (wrap z), h) = Ok (pyInt x, h) /\ is_int x /\ (x - z) mod 2 ^ 64 = 0 /\
    (is_int z -> x = z)) as Hw.
  { intros z. exists (wrap z). split_and!; [done|apply wrap_is_int|apply wrap_cong|apply wrap_id]. }
  destruct op; try (by eexists); try (eexists; split; [done|lia]).
  1-3: eexists; (split; [done|]); rewrite andb_false_r; edestruct Hw as (x & H1 & H2 & H3 & H4); exists x; split_and!; [exact H1|done..].
  - eexists. split; [done|]. rewrite orb_true_l, andb_true_r. unfold r, int_Operator, go_div. case_bool_decide as H0.
    + by rewrite (proj2 (Z.eqb_eq o 0) H0).
    + rewrite (proj2 (Z.eqb_neq o 0) H0). edestruct Hw as (x & H1 & H2 & H3 & H4). exists x.
      split_and!; try done. intros _ Hne. apply H4. by apply quot_is_int.
  - eexists. split; [done|]. split; [apply FloorDiv_is_int, Hu|]. intros. by apply FloorDiv_exact.
  - eexists. split; [done|]. rewrite orb_true_r, andb_true_r. unfold r, int_Operator, go_div. case_bool_decide as H0.
    + by rewrite (proj2 (Z.eqb_eq o 0) H0).
    + rewrite (proj2 (Z.eqb_neq o 0) H0). edestruct Hw as (x & H1 & H2 & H3 & H4). exists x.
      split_and!; try done. intros _. apply H4. by apply rem_is_int.
Qed.

Lemma int_Operator_bounds_witness :
  int_Operator 0 (2 ^ 62) Op.Add (pyInt (2 ^ 62)) empty_heap = Ok (pyInt (- 2 ^ 63), empty_heap) /\
  exists x, int_Operator 0 (-7) Op.FloorDivide (pyInt 2) empty_heap = Ok (pyInt x, empty_heap) /\ is_int x /\
    (Z.abs (-7) < 2 ^ 53 -> Z.abs 2 < 2 ^ 53 -> 2 <> 0 -> x = -7 / 2).
Proof. split; [by vm_compute|]. apply (int_Operator_bounds 0 Op.FloorDivide (-7) 2 empty_heap); unfold is_int; lia. Defined.

(** [//] goes through floating point: it is not exact from 2^53 on. *)
Lemma FloorDiv_inexact :
  FloorDiv 0 (-7) 2 = -4 /\ FloorDiv 0 (2 ^ 53 + 1) 1 = 2 ^ 53 /\ FloorDiv 0 (3 * 2 ^ 60 - 1) 3 = 2 ^ 60.
Proof. split_and!; by vm_compute. Qed.
