(* ===== verification/Interp.v ===== *)
(** The interpreter of the BUILD language: [src/parse/asp/interpreter.go], with the
    functions of [objects.go].

    Scopes, functions and the heap of values make up the state.  The recursion is on
    fuel, which bounds the depth of calls and the iterations of loops: a program may
    well not terminate.  An error is [EPanic] with the message; the stack frames that
    are added to it as it goes up are left out, as is the metadata that is recorded
    about statements.

    The functions written in Go ([builtins.go]) are a table, [natives];
    [stringMethods], [dictMethods] and [configMethods] are the methods of strings,
    dicts and configurations, by their numbers in the table of functions. *)
From S2P Require Import Prelude GoStrings Lexer Values Ast Parser Objects.
From Stdlib Require Import Ascii.

#[local] Open Scope Z_scope.

(** ** State *)

Record scope := MkScope { locals : nat; parent : option nat; sc_config : nat }.

Record func := MkFunc {
  fn_name : string;
  fn_scope : nat;
  fn_args : list string;
  fn_argIndices : gmap string nat;
  fn_constants : list (option pyObject);
  fn_defaults : list (option Expression);
  (** for each argument, the tags of the types it may have, or 0 *)
  fn_types : list Z;
  fn_code : list Statement;
  fn_returnType : string;
  (** the name of the native function that implements it *)
  fn_nativeCode : option string;
  fn_self : option pyObject;
  fn_varargs : bool;
  fn_kwargs : bool;
  fn_kwargsonly : bool;
}.

Record state := MkState {
  hp : heap;
  scopes : gmap nat scope;
  funcs : gmap nat func;
  next_id : nat;
}.

Definition I (A : Type) : Type := state -> res (A * state).

#[export] Instance I_ret : MRet I := fun A a s => Ok (a, s).
#[export] Instance I_bind : MBind I := fun A B f m s => '(a, s) ← m s; f a s.

Definition iret {A} (a : A) : I A := fun s => Ok (a, s).
Definition ifail {A} (e : err) : I A := fun _ => Err e.
Definition out_of_fuel {A} : I A := fun _ => NoFuel.
Definition Error {A} (msg : string) : I A := ifail (EPanic msg).
Definition Assert (b : bool) (msg : string) : I unit := if b then iret tt else Error msg.
Definition gets {A} (f : state -> A) : I A := fun s => Ok (f s, s).

Definition set_heap (h : heap) (s : state) : state := MkState h (scopes s) (funcs s) (next_id s).

(** An operation on the heap. *)
Definition on_heap {A} (m : H A) : I A := fun s => '(a, h) ← m (hp s); Ok (a, set_heap h s).
Definition read_heap {A} (f : heap -> res A) : I A := fun s => a ← f (hp s); Ok (a, s).

Fixpoint mapI {A B} (f : A -> I B) (l : list A) : I (list B) :=
  match l with
  | [] => iret []
  | x :: l => y ← f x; ys ← mapI f l; iret (y :: ys)
  end.

Fixpoint iterI {A} (f : A -> I unit) (l : list A) : I unit :=
  match l with
  | [] => iret tt
  | x :: l => f x;; iterI f l
  end.

(** ** Scopes *)

Definition locals_of (s : state) (sc : nat) : gmap string pyObject :=
  match scopes s !! sc with Some x => dict_of (hp s) (locals x) | None => ∅ end.

(** A scope's parent is older than it is. *)
Fixpoint Lookup_in (fuel : nat) (sc : nat) (name : string) : I pyObject :=
  match fuel with
  | O => out_of_fuel
  | S fuel =>
      vars ← gets (fun s => locals_of s sc);
      match vars !! name with
      | Some o => iret o
      | None =>
          up ← gets (fun s => match scopes s !! sc with Some x => parent x | None => None end);
          match up with
          | Some p => Lookup_in fuel p name
          | None => Error ("name '" +:+ name +:+ "' is not defined")
          end
      end
  end.

Definition Lookup (sc : nat) (name : string) : I pyObject := Lookup_in (S sc) sc name.
Definition LocalLookup (sc : nat) (name : string) : I (option pyObject) := gets (fun s => locals_of s sc !! name).

Definition Set_ (sc : nat) (name : string) (value : pyObject) : I unit := fun s =>
  match scopes s !! sc with
  | Some x => Ok (tt, set_heap (set_dict (locals x) (<[name := value]> (dict_of (hp s) (locals x))) (hp s)) s)
  | None => Ok (tt, s)
  end.

Definition config_in (s : state) (sc : nat) : nat :=
  match scopes s !! sc with Some x => sc_config x | None => 0%nat end.

(** [s.config = c] *)
Definition set_config_in (sc c : nat) : I unit := fun s =>
  Ok (tt, MkState (hp s) (alter (fun x => MkScope (locals x) (parent x) c) sc (scopes s)) (funcs s) (next_id s)).

Definition NewScope (sc : nat) : I nat := fun s =>
  '(d, h) ← alloc_dict ∅ (hp s);
  let id := next_id s in
  Ok (id, MkState h (<[id := MkScope d (Some sc) (config_in s sc)]> (scopes s)) (funcs s) (S id)).

Definition new_func (f : func) : I pyObject := fun s =>
  let id := next_id s in
  Ok (pyFunc (fn_name f) id, MkState (hp s) (scopes s) (<[id := f]> (funcs s)) (S id)).

(** ** Small pieces *)

Definition TypeTag (o : pyObject) : Z :=
  match o with
  | pyNone => 1
  | pyBool _ => 2
  | pyInt _ => 4
  | pyString _ => 8
  | pyList _ | pyFrozenList _ => 16
  | pyDict _ | pyFrozenDict _ => 32
  | pyFunc _ _ => 64
  | pyConfig _ | pyFrozenConfig _ => 128
  | pyRange _ _ _ _ | pySentinel _ => 0
  end.

Definition knownTypeNameToTag : list (string * Z) :=
  [("bool", 2); ("str", 8); ("int", 4); ("list", 16); ("dict", 32); ("function", 64); ("config", 128); ("none", 1)].

Definition type_tag (name : string) : Z := default 0 (Op.lookup_by (String.eqb name) knownTypeNameToTag).

(** [stringLiteral] *)
Definition stringLiteral (s : string) : res string := slice_last 1 s.

Definition continueIteration : pyObject := pySentinel "ContinueIteration".
Definition stopIteration : pyObject := pySentinel "StopIteration".

(** [String()]. *)
Fixpoint to_str (fuel : nat) (h : heap) (o : pyObject) : res string :=
  match fuel with
  | O => NoFuel
  | S fuel =>
      let dict m :=
        items ← foldM (fun acc '(k, x) => s ← to_str fuel h x;
                        Ok (acc ++ [char_str double_quote +:+ k +:+ char_str double_quote +:+ ": " +:+ s])) []
                  (merge_sort (fun a b : string * pyObject => str_ltb a.1 b.1 \/ a.1 = b.1) (map_to_list m));
        Ok ("{" +:+ join ", " items +:+ "}") in
      match o with
      | pyBool b => Ok (if b then "True" else "False")
      | pyNone => Ok "None"
      | pyInt i => Ok (Itoa i)
      | pyString s => Ok s
      | pyList l | pyFrozenList l =>
          items ← foldM (fun acc x => s ← to_str fuel h x; Ok (acc ++ [s])) [] (elements h l);
          Ok ("[" +:+ join " " items +:+ "]")
      | pyDict d | pyFrozenDict d => dict (dict_of h d)
      | pyConfig c | pyFrozenConfig c => dict (toPyDict h c)
      | pyFunc name _ => Ok ("<function " +:+ name +:+ ">")
      | pyRange _ a b c => Ok ("range(" +:+ Itoa a +:+ ", " +:+ Itoa b +:+ ", " +:+ Itoa c +:+ ")")
      | pySentinel s => Err (EPanic ("non stringable type " +:+ s))
      end
  end.

(** [IndexAssign] *)
Definition IndexAssign (obj index value : pyObject) : H unit := fun h =>
  match obj with
  | pyList l =>
      match index with
      | pyInt i =>
          if (0 <=? i) && (i <? Z.of_nat (sl_len l)) then
            Ok (tt, set_array (sl_arr l) (<[(sl_off l + Z.to_nat i)%nat := value]> (array_of h (sl_arr l))) h)
          else Err EIndex
      | _ => Err (EPanic ("List indices must be integers, not " +:+ Type_ index))
      end
  | pyFrozenList _ => Err (EPanic "list is immutable")
  | pyDict d =>
      match index with
      | pyString key => Ok (tt, set_dict d (<[key := value]> (dict_of h d)) h)
      | _ => Err (EPanic ("Dict keys must be strings, not " +:+ Type_ index))
      end
  | pyFrozenDict _ => Err (EPanic "dict is immutable")
  | pyConfig c => config_IndexAssign c index value h
  | pyFrozenConfig _ => Err (EPanic "Config object is not assignable in this scope")
  | _ => Err (EPanic ("Object of type " +:+ Type_ obj +:+ " cannot be assigned into"))
  end.

(** [Freeze]: the elements of a list are frozen in a copy that is thrown away. *)
Fixpoint Freeze (fuel : nat) (o : pyObject) : H pyObject :=
  match fuel with
  | O => fun _ => NoFuel
  | S fuel =>
      match o with
      | pyList l => fun h =>
          '(_, h) ← foldM (fun '(_, h) x => '(_, h) ← Freeze fuel x h; Ok (tt, h)) (tt, h) (elements h l);
          Ok (pyFrozenList l, h)
      | pyFrozenList l => fun h =>
          '(_, h) ← foldM (fun '(_, h) x => '(_, h) ← Freeze fuel x h; Ok (tt, h)) (tt, h) (elements h l);
          Ok (pyFrozenList l, h)
      | pyDict d | pyFrozenDict d => fun h =>
          '(m, h) ← foldM (fun '(m, h) '(k, x) => '(x, h) ← Freeze fuel x h; Ok (<[k := x]> m, h))
                      (∅ : gmap string pyObject, h) (map_to_list (dict_of h d));
          '(d, h) ← alloc_dict m h;
          Ok (pyFrozenDict d, h)
      | pyConfig c | pyFrozenConfig c => config_Freeze c
      | _ => fun h => Ok (o, h)
      end
  end.

(** ** Iterating *)

(** Go reads the length of a slice once, but its elements as it gets to them. *)
Inductive iterator :=
  | IterList (l : gslice) (i : nat)
  | IterRange (i stop step : Z).

Definition iter_next (it : iterator) (h : heap) : option (pyObject * iterator) :=
  match it with
  | IterList l i =>
      if (i <? sl_len l)%nat then x ← elements h l !! i; Some (x, IterList l (S i)) else None
  | IterRange i stop step =>
      if i <? stop then Some (pyInt i, IterRange (wrap (i + step)) stop step) else None
  end.

Definition iterable (o : pyObject) : I iterator :=
  match o with
  | pyList l | pyFrozenList l => iret (IterList l 0)
  | pyRange _ start stop step => iret (IterRange start stop step)
  | _ => Error ("Non-iterable type " +:+ Type_ o)
  end.

(** The capacity a comprehension starts with. *)
Definition length_hint (o : pyObject) : I Z :=
  match o with
  | pyList _ | pyFrozenList _ | pyRange _ _ _ _ => read_heap (objLen o)
  | _ => iret 4
  end.

(** [for x := range it]: [body] says whether to go on. *)
Fixpoint loop {A} (fuel : nat) (it : iterator) (body : A -> pyObject -> I (bool * A)) (acc : A) : I A :=
  match fuel with
  | O => out_of_fuel
  | S fuel =>
      n ← gets (fun s => iter_next it (hp s));
      match n with
      | None => iret acc
      | Some (x, it) =>
          '(go, acc) ← body acc x;
          if (go : bool) then loop fuel it body acc else iret acc
      end
  end.

Section interp.
Context (Sprintf : string -> list pyObject -> heap -> string).
Context (grow : nat -> nat -> nat).
Context (unrepresentable : Z).
(** a native function gets the scope it is called from and its arguments *)
Context (natives : string -> nat -> list (option pyObject) -> I pyObject).
Context (stringMethods dictMethods configMethods : gmap string nat).
Context (bazel_compat : bool).

Definition operator (fuel : nat) (op : Op.Operator) (obj operand : pyObject) : I pyObject :=
  on_heap (Operator Sprintf grow unrepresentable fuel op obj operand).

Definition truthy (o : pyObject) : I bool := gets (fun s => IsTruthy (hp s) o).
Definition negate (o : pyObject) : I pyObject := b ← truthy o; iret (pyBool (negb b)).

(** ** Operators and precedence *)

Section ops.
Context (fuel : nat) (interpretExpression : Expression -> I pyObject).

(** An operand: an expression, unless the value is already there. *)
Definition operand_of (o : OpExpression) : I pyObject :=
  match op_Expr o with
  | Some e => interpretExpression e
  | None => Error "runtime error: invalid memory address or nil pointer dereference"
  end.

Definition interpretIs (obj operand : pyObject) : bool :=
  match obj, operand with
  | pyNone, pyNone => true
  | pyBool a, pyBool b => Bool.eqb a b
  | _, _ => false
  end.

Definition interpretOp (obj : pyObject) (op : Op.Operator) (operand : I pyObject) : I pyObject :=
  match op with
  | Op.And | Op.Or =>
      b ← truthy obj;
      if Bool.eqb b (bool_decide (op = Op.And)) then operand else iret obj
  | Op.Not => negate obj
  | Op.Equal => y ← operand; b ← read_heap (fun h => DeepEqual fuel h obj y); iret (pyBool b)
  | Op.NotEqual => y ← operand; b ← read_heap (fun h => DeepEqual fuel h obj y); iret (pyBool (negb b))
  | Op.Is => y ← operand; iret (pyBool (interpretIs obj y))
  | Op.IsNot => y ← operand; negate (pyBool (interpretIs obj y))
  | Op.In | Op.NotIn => y ← operand; operator fuel op y obj
  | Op.Negate =>
      match obj with
      | pyInt i => iret (pyInt (wrap (- i)))
      | _ => Error "Unary - can only be applied to an integer"
      end
  | _ => y ← operand; operator fuel op obj y
  end.

Fixpoint interpretOps (obj : pyObject) (ops : list OpExpression) : I pyObject :=
  match ops with
  | [] => ifail EIndex
  | [o] => interpretOp obj (op_Op o) (operand_of o)
  | o :: ((o2 :: _) as rest) =>
      if Op.Precedence (op_Op o2) <=? Op.Precedence (op_Op o) then
        obj ← interpretOp obj (op_Op o) (operand_of o);
        interpretOps obj rest
      else
        b ← truthy obj;
        if Op.Lazy (op_Op o) && negb (Bool.eqb b (bool_decide (op_Op o = Op.And))) then iret obj
        else
          match op_Expr o with
          | None => v ← interpretOps obj rest; interpretOp v (op_Op o) (operand_of o)
          | Some e =>
              y ← interpretExpression e;
              nobj ← interpretOps y rest;
              interpretOp obj (op_Op o) (iret nobj)
          end
  end.
End ops.

(** ** Values *)

(** A method of a native type, bound to its object. *)
Definition Member (f : nat) (self : pyObject) : I pyObject :=
  o ← gets (fun s => funcs s !! f);
  match o with
  | None => Error "no such method"
  | Some f =>
      new_func (MkFunc (fn_name f) (fn_scope f) (fn_args f) (fn_argIndices f) (fn_constants f) (fn_defaults f)
        (fn_types f) (fn_code f) "" (fn_nativeCode f) (Some self) (fn_varargs f) (fn_kwargs f) false)
  end.

Definition property (obj : pyObject) (name : string) : I pyObject :=
  match obj with
  | pyString s =>
      match stringMethods !! name with
      | Some f => Member f obj
      | None => Error ("str object has no property " +:+ name)
      end
  | pyDict d | pyFrozenDict d =>
      if match obj with pyFrozenDict _ => String.eqb name "setdefault" | _ => false end
      then Error "dict is immutable"
      else
        v ← gets (fun s => dict_of (hp s) d !! name);
        match v with
        | Some v => iret v
        | None =>
            match dictMethods !! name with
            | Some f => Member f (pyDict d)
            | None => Error ("dict object has no property " +:+ name)
            end
        end
  | pyConfig c | pyFrozenConfig c =>
      if match obj with pyFrozenConfig _ => String.eqb name "setdefault" | _ => false end
      then Error "Config object is not assignable in this scope"
      else
        v ← gets (fun s => config_Get (hp s) c name);
        match v with
        | Some v => iret v
        | None =>
            match configMethods !! name with
            | Some f => Member f (pyConfig c)
            | None => Error ("Config has no such property " +:+ name)
            end
        end
  | _ => Error (Type_ obj +:+ " object has no property " +:+ name)
  end.

(** [t[start:end]]: the list shares its array, and may extend to its end. *)
Definition slice_list (l : gslice) (start end_ : Z) : res pyObject :=
  if (0 <=? start) && (start <=? end_) && (end_ <=? Z.of_nat (sl_cap l)) then
    Ok (pyList (MkGslice (sl_arr l) (sl_off l + Z.to_nat start) (Z.to_nat (end_ - start)) (sl_cap l - Z.to_nat start)))
  else Err EIndex.

Definition slice_string (s : string) (start end_ : Z) : res pyObject :=
  if (0 <=? start) && (start <=? end_) && (end_ <=? len s) then
    Ok (pyString (str_slice (Z.to_nat start) (Z.to_nat end_) s))
  else Err EIndex.

(** Unpacking an object into variables. *)
Definition unpackNames (sc : nat) (names : list string) (obj : pyObject) : I unit :=
  match names with
  | [name] => Set_ sc name obj
  | _ =>
      match obj with
      | pyList l =>
          Assert (sl_len l =? length names)%nat "Incorrect number of values to unpack";;
          xs ← gets (fun s => elements (hp s) l);
          iterI (fun '(name, x) => Set_ sc name x) (combine names xs)
      | _ => Error ("Cannot unpack " +:+ Type_ obj)
      end
  end.

(** The arguments of a native function, all unset, with [self] first. *)
Definition native_args (f : func) : I (list (option pyObject)) :=
  match fn_self f, replicate (length (fn_args f)) None with
  | Some o, _ :: args => iret (Some o :: args)
  | Some _, [] => ifail EIndex
  | None, args => iret args
  end.

Definition is_EmptyList (l : List) : bool :=
  let 'MkList values comp := l in match values, comp with [], None => true | _, _ => false end.

(** ** Evaluation *)

(** The functions that call themselves, each call with less fuel. *)
Record fns := MkFns {
  eval : nat -> Expression -> I pyObject;
  exec : nat -> list Statement -> I (option pyObject);
  ident : nat -> pyObject -> IdentExpr -> I pyObject;
  const : nat -> Expression -> I (option pyObject);
}.

Section step.
Context (fuel : nat) (r : fns).

Definition evaluateExpressions (sc : nat) (es : list Expression) : I gslice :=
  xs ← mapI (eval r sc) es;
  on_heap (alloc xs (length xs)).

(** The loops of a comprehension; [callback] adds to what has been collected. *)
Definition evaluateComprehension {A : Type} (cs : nat) (it : iterator) (comp : Comprehension)
    (callback : A -> pyObject -> I A) (acc : A) : I A :=
  let 'MkComprehension names _ second if_ := comp in
  let item names acc x :=
    unpackNames cs names x;;
    keep ← (match if_ with
            | None => iret true
            | Some e => o ← eval r cs e; truthy o
            end);
    acc ← (if (keep : bool) then callback acc x else iret acc);
    iret (true, acc) in
  match second with
  | None => loop fuel it (item names) acc
  | Some (MkSecondComprehension names2 e2) =>
      loop fuel it (fun acc x =>
        unpackNames cs names x;;
        o ← eval r cs e2;
        it2 ← iterable o;
        acc ← loop fuel it2 (item names2) acc;
        iret (true, acc)) acc
  end.

Definition interpretList (sc : nat) (l : List) : I gslice :=
  let 'MkList values comp := l in
  match comp with
  | None => evaluateExpressions sc values
  | Some (MkComprehension _ e _ _ as comp) =>
      cs ← NewScope sc;
      o ← eval r sc e;
      it ← iterable o;
      hint ← length_hint o;
      Assert (0 <=? hint) "runtime error: makeslice: cap out of range";;
      l ← on_heap (alloc [] (Z.to_nat hint));
      evaluateComprehension cs it comp (fun l _ =>
        x ← (match values with
             | [e] => eval r cs e
             | _ => x ← evaluateExpressions cs values; iret (pyList x)
             end);
        on_heap (append grow l [x])) l
  end.

Definition interpretDict (sc : nat) (d : Dict) : I pyObject :=
  let 'MkDict items comp := d in
  let add sc d '(MkDictItem key val) :=
    k ← eval r sc key;
    v ← eval r sc val;
    on_heap (IndexAssign (pyDict d) k v) in
  match comp with
  | None =>
      d ← on_heap (alloc_dict ∅);
      iterI (add sc d) items;;
      iret (pyDict d)
  | Some (MkComprehension _ e _ _ as comp) =>
      cs ← NewScope sc;
      o ← eval r sc e;
      it ← iterable o;
      length_hint o;;
      d ← on_heap (alloc_dict ∅);
      match items with
      | item :: _ => evaluateComprehension cs it comp (fun _ _ => add cs d item) tt
      | [] => iret tt
      end;;
      iret (pyDict d)
  end.

(** [' '.join([...])] without making the list. *)
Definition interpretJoin (sc : nat) (base : string) (l : List) : I pyObject :=
  let 'MkList values comp := l in
  let text o :=
    match o with
    | pyString s => iret s
    | _ => Error ("invalid expression of type " +:+ Type_ o +:+ " to str.join (must be a string)")
    end in
  match comp with
  | None =>
      parts ← mapI (fun e => o ← eval r sc e; text o) values;
      iret (pyString (join base parts))
  | Some (MkComprehension _ e _ _ as comp) =>
      cs ← NewScope sc;
      o ← eval r sc e;
      it ← iterable o;
      parts ← evaluateComprehension cs it comp (fun parts _ =>
        match values with
        | e :: _ => o ← eval r cs e; t ← text o; iret (parts ++ [t])
        | [] => ifail EIndex
        end) [];
      iret (pyString (join base parts))
  end.

Definition defaultArg (sc : nat) (f : func) (i : nat) (arg : string) : I pyObject :=
  match mjoin (fn_constants f !! i), mjoin (fn_defaults f !! i) with
  | Some c, _ => iret c
  | None, Some e => eval r sc e
  | None, None => Error ("Missing required argument to " +:+ fn_name f +:+ ": " +:+ arg)
  end.

(** The type check of the [i]th argument, once it has been evaluated. *)
Definition validateType (sc : nat) (f : func) (i : nat) (val : pyObject) : I pyObject :=
  match fn_types f !! i with
  | None => if fn_varargs f || fn_kwargs f then iret val else ifail EIndex
  | Some types =>
      if types =? 0 then iret val
      else if bool_decide (val = pyNone) then
        match mjoin (fn_constants f !! i), mjoin (fn_defaults f !! i) with
        | None, None => iret val
        | _, _ => defaultArg sc f i (default "" (fn_args f !! i))
        end
      else if negb (Z.land (TypeTag val) types =? 0) then iret val
      else if bazel_compat && negb (Z.land types (type_tag "bool") =? 0) && (TypeTag val =? type_tag "bool") then iret val
      else
        let names := filter (fun name => Z.land types (type_tag name) <> 0) knownTypeNames in
        Error ("Invalid type for argument " +:+ default "" (fn_args f !! i) +:+ " to " +:+ fn_name f
               +:+ "; expected " +:+ join " or " names +:+ ", was " +:+ Type_ val)
  end.

(** The arguments of a call of a native function, from the [i]th on. *)
Fixpoint passNative (sc : nat) (f : func) (i : nat) (args : list CallArgument) (vals : list (option pyObject)) :
    I (list (option pyObject)) :=
  match args with
  | [] => iret vals
  | MkCallArgument _ name e :: args =>
      let offset := match fn_self f with Some _ => 1%nat | None => 0%nat end in
      vals ←
        (if negb (String.eqb name "") then
           match fn_argIndices f !! name with
           | Some idx =>
               o ← eval r sc e;
               o ← validateType sc f idx o;
               iret (<[idx := Some o]> vals)
           | None =>
               Assert (fn_kwargs f) ("Unknown argument to " +:+ fn_name f +:+ ": " +:+ name);;
               o ← eval r sc e;
               Set_ sc name o;;
               iret vals
           end
         else if (length vals <=? i)%nat then
           Assert (fn_varargs f) ("Too many arguments to " +:+ fn_name f);;
           o ← eval r sc e;
           iret (vals ++ [Some o])
         else
           Assert (negb (fn_kwargsonly f))
             ("Function " +:+ fn_name f +:+ " can only be called with keyword arguments");;
           o ← eval r sc e;
           o ← validateType sc f (i + offset) o;
           iret (if (length vals <=? i + offset)%nat then vals ++ [Some o]
                 else <[(i + offset)%nat := Some o]> vals));
      passNative sc f (S i) args vals
  end.

(** The defaults of those that were not passed, from the [i]th on. *)
Fixpoint fillNative (sc : nat) (f : func) (i : nat) (names : list string) (vals : list (option pyObject)) :
    I (list (option pyObject)) :=
  match names with
  | [] => iret vals
  | name :: names =>
      vals ← (match vals !! i with
              | Some None => o ← defaultArg sc f i name; iret (<[i := Some o]> vals)
              | _ => iret vals
              end);
      fillNative sc f (S i) names vals
  end.

Definition callNative (sc : nat) (f : func) (native : string) (args : list CallArgument) : I pyObject :=
  vals ← native_args f;
  vals ← passNative sc f 0 args vals;
  vals ← fillNative sc f 0 (fn_args f) vals;
  natives native sc vals.

(** The arguments of a call, from the [i]th on, each with its name: they are evaluated
    in the scope of the call and set in that of the function. *)
Fixpoint passArgs (sc cs : nat) (f : func) (i : nat) (args : list (string * I pyObject)) : I unit :=
  match args with
  | [] => iret tt
  | (name, value) :: args =>
      (if negb (String.eqb name "") then
         match fn_argIndices f !! name with
         | Some idx =>
             o ← value;
             o ← validateType sc f idx o;
             Set_ cs (default "" (fn_args f !! idx)) o
         | None =>
             Assert (fn_kwargs f) ("Unknown argument to " +:+ fn_name f +:+ ": " +:+ name);;
             o ← value;
             o ← validateType sc f 0 o;
             Set_ cs name o
         end
       else
         match fn_args f !! i with
         | None => Error ("Too many arguments to " +:+ fn_name f)
         | Some arg =>
             Assert (negb (fn_kwargsonly f))
               ("Function " +:+ fn_name f +:+ " can only be called with keyword arguments");;
             o ← value;
             o ← validateType sc f i o;
             Set_ cs arg o
         end);;
      passArgs sc cs f (S i) args
  end.

(** [pyFunc.Call]: the arguments are evaluated in the scope of the call, and so are
    the defaults of those that are not passed. *)
Definition call (sc : nat) (f : func) (c : Call) : I pyObject :=
  let 'MkCall args := c in
  match fn_nativeCode f with
  | Some native =>
      ns ← (if fn_kwargs f then NewScope sc else iret sc);
      callNative ns f native args
  | None =>
      cs ← NewScope (fn_scope f);
      c ← gets (fun s => config_in s sc);
      set_config_in cs c;;
      Set_ cs "CONFIG" (pyConfig c);;
      let self := match fn_self f with Some o => [("", iret o)] | None => [] end in
      passArgs sc cs f 0 (self ++ map (fun '(MkCallArgument _ name e) => (name, eval r sc e)) args);;
      iterI (fun '(i, arg) =>
        set ← LocalLookup cs arg;
        match set with
        | Some _ => iret tt
        | None => o ← defaultArg sc f i arg; Set_ cs arg o
        end) (imap pair (fn_args f));;
      ret ← exec r cs (fn_code f);
      match ret with
      | None => iret pyNone
      | Some o =>
          Assert (String.eqb (fn_returnType f) "" || String.eqb (Type_ o) (fn_returnType f))
            ("Invalid return type " +:+ Type_ o +:+ " from function " +:+ fn_name f +:+ ", expecting " +:+ fn_returnType f);;
          iret o
      end
  end.

Definition callObject (sc : nat) (name : string) (obj : pyObject) (c : Call) : I pyObject :=
  match obj with
  | pyFunc _ id =>
      f ← gets (fun s => funcs s !! id);
      match f with
      | Some f => call sc f c
      | None => Error "no such function"
      end
  | _ => Error ("Non-callable object '" +:+ name +:+ "' (is a " +:+ Type_ obj +:+ ")")
  end.

Fixpoint interpretActions (sc : nat) (name : string) (obj : pyObject) (actions : list IdentExprAction) : I pyObject :=
  match actions with
  | [] => iret obj
  | AProperty (MkIdentExpr _ _ name _ as ie) :: actions =>
      p ← property obj name;
      obj ← ident r sc p ie;
      interpretActions sc name obj actions
  | ACall c :: actions =>
      obj ← callObject sc name obj c;
      interpretActions sc name obj actions
  end.

Definition interpretIdent (sc : nat) (obj : pyObject) (ie : IdentExpr) : I pyObject :=
  let 'MkIdentExpr _ _ name actions := ie in interpretActions sc name obj actions.

(** [a.b.c] *)
Fixpoint properties (obj : pyObject) (keys : list string) : I pyObject :=
  match keys with
  | [] => iret obj
  | key :: keys => obj ← property obj key; properties obj keys
  end.

Definition interpretFString (sc : nat) (f : FString) : I pyObject :=
  parts ← mapI (fun v =>
    match Var v with
    | [] => ifail EIndex
    | name :: keys =>
        obj ← Lookup sc name;
        obj ← properties obj keys;
        text ← read_heap (fun h => to_str fuel h obj);
        iret (Prefix v +:+ text)
    end) (Vars f);
  iret (pyString (join "" parts +:+ Suffix f)).

Definition interpretSlice (sc : nat) (obj : pyObject) (sl : Slice) : I pyObject :=
  let 'MkSlice start _ end_ := sl in
  let bound e def :=
    match e with
    | None => iret def
    | Some e => i ← eval r sc e; read_heap (pyIndex obj i true)
    end in
  start ← bound start 0;
  match obj with
  | pyList l => end_ ← bound end_ (Z.of_nat (sl_len l)); read_heap (fun _ => slice_list l start end_)
  | pyString s => end_ ← bound end_ (len s); read_heap (fun _ => slice_string s start end_)
  | _ => Error ("Unsliceable type " +:+ Type_ obj)
  end.

(** A new function: the defaults that are constant are evaluated once, here. *)
Definition newPyFunc (sc : nat) (name : string) (args : list Argument) (code : list Statement)
    (return_ : string) : I pyObject :=
  constants ← mapI (fun '(MkArgument _ _ _ value _) =>
    match value with Some e => const r sc e | None => iret None end) args;
  let index := imap (fun i '(MkArgument name _ aliases _ _) => map (fun n => (n, i)) (name :: aliases)) args in
  let defaults := zip_with (fun '(MkArgument _ _ _ value _) (c : option pyObject) =>
    match c with Some _ => None | None => value end) args constants in
  new_func (MkFunc name sc (map (fun '(MkArgument name _ _ _ _) => name) args)
    (list_to_map (rev (concat index))) constants defaults
    (map (fun '(MkArgument _ types _ _ _) => foldr (fun t acc => Z.lor (type_tag t) acc) 0 types) args)
    code return_ None None false false false).

Definition interpretValueExpressionPart (sc : nat) (v : Value) : I pyObject :=
  match v with
  | VIdent (MkIdentExpr _ _ name _ as ie) =>
      obj ← Lookup sc name;
      interpretIdent sc obj ie
  | VString s => s ← read_heap (fun _ => stringLiteral s); iret (pyString s)
  | VFString f => interpretFString sc f
  | VInt i => iret (pyInt i)
  | VTrue => iret (pyBool true)
  | VFalse => iret (pyBool false)
  | VNone => iret pyNone
  | VList l =>
      if is_EmptyList l then iret (pyList (MkGslice 0 0 0 0))
      else l ← interpretList sc l; iret (pyList l)
  | VDict d => interpretDict sc d
  | VTuple (MkList _ comp as l) =>
      l ← interpretList sc l;
      xs ← gets (fun s => elements (hp s) l);
      match xs, comp with [x], None => iret x | _, _ => iret (pyList l) end
  | VLambda (MkLambda args e) =>
      newPyFunc sc "<lambda>" args [MkStatement 0 0 (SReturn [e])] ""
  end.

Fixpoint interpretSlices (sc : nat) (obj : pyObject) (slices : list Slice) : I pyObject :=
  match slices with
  | [] => iret obj
  | (MkSlice start colon end_ as sl) :: slices =>
      obj ←
        (if String.eqb colon "" then
           Assert (bool_decide (end_ = None)) "Invalid syntax";;
           match start with
           | Some e => i ← eval r sc e; operator fuel Op.Index obj i
           | None => Error "runtime error: invalid memory address or nil pointer dereference"
           end
         else interpretSlice sc obj sl);
      interpretSlices sc obj slices
  end.

Definition interpretValueExpression (sc : nat) (v : ValueExpression) : I pyObject :=
  let 'MkValueExpression val slices suffix := v in
  obj ← interpretValueExpressionPart sc val;
  obj ← interpretSlices sc obj slices;
  match suffix with
  | Some (VProperty (MkIdentExpr _ _ name _ as ie)) =>
      p ← property obj name;
      interpretIdent sc p ie
  | Some (VCall c) => callObject sc "" obj c
  | None => iret obj
  end.

(** [scope.Constant]: the value of an expression that is a literal. *)
Definition Constant (sc : nat) (e : Expression) : I (option pyObject) :=
  let 'MkExpression _ _ (MkValueExpression val slices suffix as ve) ops if_ optimised := e in
  match optimised with
  | Some (OptConstant c) => iret (Some c)
  | Some (OptConfig _ | OptJoin _ _) => iret None
  | _ =>
      match slices, suffix, ops, if_ with
      | [], None, [], None =>
          match val with
          | VTrue | VFalse | VNone | VInt _ | VString _ =>
              o ← interpretValueExpression sc ve; iret (Some o)
          | VList (MkList values None) =>
              constants ← mapI (const r sc) values;
              if forallb (fun c : option pyObject => bool_decide (is_Some c)) constants
              then o ← interpretValueExpression sc ve; iret (Some o)
              else iret None
          | VFString f => match Vars f with [] => iret (Some (pyString (Suffix f))) | _ => iret None end
          | _ => iret None
          end
      | _, _, _, _ => iret None
      end
  end.

Definition interpretExpression (sc : nat) (e : Expression) : I pyObject :=
  let 'MkExpression _ _ val ops if_ optimised := e in
  match optimised with
  | Some (OptConstant c) => iret c
  | Some (OptLocal name) => Lookup sc name
  | Some (OptConfig name) => c ← gets (fun s => config_in s sc); property (pyConfig c) name
  | Some (OptJoin base l) =>
      base ← read_heap (fun _ => stringLiteral base);
      interpretJoin sc base l
  | None =>
      otherwise ←
        (match if_ with
         | None => iret None
         | Some (MkInlineIf condition else_) =>
             o ← eval r sc condition;
             b ← truthy o;
             iret (if (b : bool) then None else Some else_)
         end);
      match otherwise with
      | Some else_ => eval r sc else_
      | None =>
          obj ← interpretValueExpression sc val;
          match ops with
          | [] => iret obj
          | _ => interpretOps fuel (eval r sc) obj ops
          end
      end
  end.

Definition interpretIdentStatement (sc : nat) (i : IdentStatement) : I unit :=
  let name := is_Name i in
  match is_rest i with
  | INone => Lookup sc name;; iret tt
  | IIndexAssign e assign =>
      obj ← Lookup sc name;
      idx ← interpretExpression sc e;
      v ← interpretExpression sc assign;
      on_heap (IndexAssign obj idx v)
  | IIndexAugAssign e aug =>
      obj ← Lookup sc name;
      idx ← interpretExpression sc e;
      old ← operator fuel Op.Index obj idx;
      v ← interpretExpression sc aug;
      v ← operator fuel Op.Add old v;
      on_heap (IndexAssign obj idx v)
  | IUnpack names e =>
      obj ← interpretExpression sc e;
      match obj with
      | pyList l =>
          Assert (sl_len l =? S (length names))%nat "Wrong number of items to unpack";;
          xs ← gets (fun s => elements (hp s) l);
          iterI (fun '(name, x) => Set_ sc name x) (combine (name :: names) xs)
      | _ => Error "Cannot unpack type list"
      end
  | IAction (ActProperty (MkIdentExpr _ _ pname _ as ie)) =>
      obj ← Lookup sc name;
      p ← property obj pname;
      interpretIdent sc p ie;; iret tt
  | IAction (ActCall c) =>
      obj ← Lookup sc name;
      callObject sc name obj c;; iret tt
  | IAction (ActAssign e) =>
      v ← interpretExpression sc e;
      Set_ sc name v
  | IAction (ActAugAssign e) =>
      old ← Lookup sc name;
      v ← interpretExpression sc e;
      v ← operator fuel Op.Add old v;
      Set_ sc name v
  end.

Fixpoint interpretElifs (sc : nat) (elifs : list IfStatementElif) (else_ : list Statement) : I (option pyObject) :=
  match elifs with
  | [] => exec r sc else_
  | MkIfStatementElif _ _ condition stmts :: elifs =>
      o ← eval r sc condition;
      b ← truthy o;
      if (b : bool) then exec r sc stmts else interpretElifs sc elifs else_
  end.

Definition interpretIf (sc : nat) (i : IfStatement) : I (option pyObject) :=
  let 'MkIfStatement _ _ condition stmts elifs _ _ else_ := i in
  o ← eval r sc condition;
  b ← truthy o;
  if (b : bool) then exec r sc stmts else interpretElifs sc elifs else_.

Definition interpretStatement (sc : nat) (stmt : Statement) : I (option pyObject) :=
  let 'MkStatement _ _ kind := stmt in
  match kind with
  | SFuncDef (MkFuncDef name args _ code _ return_ _) =>
      f ← newPyFunc sc name args code return_;
      Set_ sc name f;;
      iret None
  | SIf i => interpretIf sc i
  | SFor (MkForStatement names e body) =>
      o ← interpretExpression sc e;
      it ← iterable o;
      loop fuel it (fun _ x =>
        unpackNames sc names x;;
        ret ← exec r sc body;
        match ret with
        | None => iret (true, None)
        | Some r =>
            if bool_decide (r = continueIteration) then iret (true, None)
            else if bool_decide (r = stopIteration) then iret (false, None)
            else iret (false, Some r)
        end) None
  | SReturn values =>
      match values with
      | [] => iret (Some pyNone)
      | [e] => o ← interpretExpression sc e; iret (Some o)
      | _ => l ← evaluateExpressions sc values; iret (Some (pyList l))
      end
  | SIdent i => interpretIdentStatement sc i;; iret None
  | SAssert e message =>
      o ← interpretExpression sc e;
      b ← truthy o;
      if (b : bool) then iret None
      else
        match message with
        | None => Error "assertion failed"
        | Some m =>
            o ← interpretExpression sc m;
            text ← read_heap (fun h => to_str fuel h o);
            Error text
        end
  | SRaise e =>
      o ← interpretExpression sc e;
      text ← read_heap (fun h => to_str fuel h o);
      Error text
  | SLiteral e => interpretExpression sc e;; iret None
  | SContinue => iret (Some continueIteration)
  | SBreak => iret (Some stopIteration)
  | SPass => iret None
  end.

Fixpoint interpretStatements (sc : nat) (stmts : list Statement) : I (option pyObject) :=
  match stmts with
  | [] => iret None
  | stmt :: stmts =>
      ret ← interpretStatement sc stmt;
      match ret with Some o => iret (Some o) | None => interpretStatements sc stmts end
  end.

End step.

Fixpoint run (fuel : nat) : fns :=
  match fuel with
  | O => MkFns (fun _ _ => out_of_fuel) (fun _ _ => out_of_fuel) (fun _ _ _ => out_of_fuel) (fun _ _ => out_of_fuel)
  | S fuel =>
      let r := run fuel in
      MkFns (interpretExpression fuel r) (interpretStatements fuel r) (interpretIdent r) (Constant fuel r)
  end.
End interp.

(** ** Whole programs *)

(** A root scope with an empty configuration. *)
Definition root : state :=
  MkState (MkHeap ∅ {[ 1%nat := ∅; 2%nat := ∅ ]} {[ 3%nat := MkConfig 2 None ]} 4) {[ 0%nat := MkScope 1 None 3 ]} ∅ 1.

Definition newline : string := char_str (Ascii.ascii_of_nat 10).

(** Running a program without native functions, and the variable [x] after it. *)
Definition run_program (fuel : nat) (program : string) : res string :=
  stmts ← parseFileInput no_runes program;
  '(_, s) ← exec (run (fun s _ _ => s) (fun _ n => n) 0 (fun _ _ _ => iret pyNone) ∅ ∅ ∅ false fuel) 0 stmts root;
  match locals_of s 0 !! "x" with Some o => to_str fuel (hp s) o | None => Err EIndex end.

(** *** Programs that share what they should not *)

(** The sum overwrites [x]; so does the sum of a filtered comprehension, whose list has
    room for what was filtered out. *)
Lemma sums_overwrite :
  run_program 12 ("x = [1, 2, 3]" +:+ newline +:+ "y = x[:2] + [9]" +:+ newline) = Ok "[1 2 9]" /\
  run_program 12 ("l = [i for i in [1, 2, 3, 4] if i < 3]" +:+ newline +:+ "x = l + [7]" +:+ newline +:+
                  "y = l + [8]" +:+ newline) = Ok "[1 2 8]".
Proof. split; by vm_compute. Qed.

(** A default that is a list is the same list in every call. *)
Lemma default_lists_are_shared :
  run_program 14 ("def f(l=[1]):" +:+ newline +:+ "    l[0] += 1" +:+ newline +:+ "    return l" +:+ newline +:+
                  "f()" +:+ newline +:+ "x = f()" +:+ newline) = Ok "[3]".
Proof. by vm_compute. Qed.

(** A default that is not constant sees the variables of the caller. *)
Lemma defaults_in_the_callers_scope :
  run_program 14 ("y = 1" +:+ newline +:+ "def f(x=y):" +:+ newline +:+ "    return x" +:+ newline +:+
                  "def g():" +:+ newline +:+ "    y = 2" +:+ newline +:+ "    return f()" +:+ newline +:+
                  "x = g()" +:+ newline) = Ok "2".
Proof. by vm_compute. Qed.
