(* ===== verification/Builtins.v ===== *)
(** The builtin functions of the BUILD language that work on values:
    [src/parse/asp/builtins.go].

    Each function is given the scope it is called from and its arguments, as
    [callNative] passes them.  A Go type assertion that fails is a panic
    ([conversion]); [Assert] is the error of a builtin that checks its arguments.
    Functions that call back into the language ([sorted], [filter], [map], [reduce],
    [min], [max]) go through [call_function], which [Builtins.natives] ties to the
    interpreter.

    Parameters: [sort_Slice] for Go's [sort.Slice], which sorts a slice in place given
    a comparison of two indices; [unicode_upper] and [unicode_lower] for the case of
    letters beyond ASCII; [regexp_match] for [regexp]; [Marshal] for [encoding/json];
    [strict_version] and [check_version] for the semver package; [Atoi_error] for the
    text of the errors of [strconv.Atoi]. The functions that work on packages and
    targets are in [TargetBuiltins]. *)
From S2P Require Import Prelude GoStrings Lexer GoText Labels Values Ast Parser Objects Interp.
From Stdlib Require Import Ascii.

#[local] Open Scope Z_scope.

(** ** Arguments *)

(** The Go type of a value, as [reflect.TypeOf] tells them apart. *)
Definition go_type (o : pyObject) : string :=
  match o with
  | pyBool _ => "asp.pyBool"
  | pyNone => "asp.pyNone"
  | pyInt _ => "asp.pyInt"
  | pyString _ => "asp.pyString"
  | pyList _ => "asp.pyList"
  | pyFrozenList _ => "asp.pyFrozenList"
  | pyDict _ => "asp.pyDict"
  | pyFrozenDict _ => "asp.pyFrozenDict"
  | pyFunc _ _ => "*asp.pyFunc"
  | pyRange _ _ _ _ => "*asp.pyRange"
  | pyConfig _ => "*asp.pyConfig"
  | pyFrozenConfig _ => "*asp.pyFrozenConfig"
  | pySentinel _ => "asp.pySentinel"
  end.

Definition conversion {A} (o : pyObject) (want : string) : I A :=
  Error ("interface conversion: asp.pyObject is " +:+ go_type o +:+ ", not " +:+ want).

Definition nil_dereference {A} : I A := Error "runtime error: invalid memory address or nil pointer dereference".

Definition arg (args : list (option pyObject)) (i : nat) : I pyObject :=
  match args !! i with
  | Some (Some o) => iret o
  | Some None => nil_dereference
  | None => ifail EIndex
  end.

(** [args[i].(pyString)] and the like *)
Definition as_str (o : pyObject) : I string :=
  match o with pyString s => iret s | _ => conversion o "asp.pyString" end.
Definition as_int (o : pyObject) : I Z :=
  match o with pyInt i => iret i | _ => conversion o "asp.pyInt" end.
Definition as_dict (o : pyObject) : I nat :=
  match o with pyDict d => iret d | _ => conversion o "asp.pyDict" end.
Definition as_config (o : pyObject) : I nat :=
  match o with pyConfig c => iret c | _ => conversion o "*asp.pyConfig" end.

Definition str_arg (args : list (option pyObject)) (i : nat) : I string := o ← arg args i; as_str o.
Definition int_arg (args : list (option pyObject)) (i : nat) : I Z := o ← arg args i; as_int o.

(** A list that is not frozen; [msg] begins the error for anything else. *)
Definition list_or (o : pyObject) (msg : string) : I gslice :=
  match o with pyList l => iret l | _ => Error (msg +:+ Type_ o) end.

(** ** Lists *)

Definition new_list (xs : list pyObject) : I pyObject := l ← on_heap (alloc xs (length xs)); iret (pyList l).

Definition fromStringList (l : list string) : I pyObject := new_list (map pyString l).

Definition asStringList (o : pyObject) (name : string) : I (list string) :=
  match o with
  | pyFrozenList l | pyList l =>
      xs ← gets (fun s => elements (hp s) l);
      mapI (fun x => match x with
        | pyString s => iret s
        | _ => Error (name +:+ " must be a list of strings")
        end) xs
  | _ => Error ("argument " +:+ name +:+ " must be a list")
  end.

Definition pyStrOrListAsList (o : pyObject) (name : string) : I (list string) :=
  match o with pyString s => iret [s] | _ => asStringList o name end.

(** [l[i]] *)
Definition elem (l : gslice) (i : nat) : I pyObject := fun s =>
  match elements (hp s) l !! i with Some x => Ok (x, s) | None => Err EIndex end.

(** [for _, x := range l]: the length is read once, the elements as they are got to. *)
Fixpoint each {A} (n i : nat) (l : gslice) (body : A -> pyObject -> I A) (acc : A) : I A :=
  match n with
  | O => iret acc
  | S n => x ← elem l i; acc ← body acc x; each n (S i) l body acc
  end.

Definition over {A} (l : gslice) (body : A -> pyObject -> I A) (acc : A) : I A := each (sl_len l) 0 l body acc.

(** [dict.Keys], in order. *)
Definition dict_Keys (m : gmap string pyObject) : list string :=
  merge_sort (fun a b => str_ltb a b \/ a = b) (map fst (map_to_list m)).

(** ** Types *)

Definition isType (o : pyObject) (name : string) : bool :=
  match o with
  | pyBool _ => String.eqb name "bool" || String.eqb name "int"
  | pyInt _ => String.eqb name "int"
  | pyString _ => String.eqb name "str"
  | pyRange _ _ _ _ => String.eqb name "range"
  | pyList _ => String.eqb name "list"
  | pyDict _ => String.eqb name "dict"
  | pyConfig _ => String.eqb name "config"
  | pyFunc _ _ => String.eqb name "callable"
  | _ => false
  end.

Definition is_func (o : pyObject) : bool := match o with pyFunc _ _ => true | _ => false end.

Definition same_type (a b : pyObject) : bool := String.eqb (go_type a) (go_type b).

(** One of the types [isinstance] is given. *)
Definition matches_type (obj li : pyObject) : bool :=
  match li with
  | pyFunc name _ => isType obj name || (negb (is_func obj) && same_type obj li)
  | _ => negb (is_func obj) && same_type obj li
  end.

Definition isinstance (args : list (option pyObject)) : I pyObject :=
  obj ← arg args 0;
  typesArg ← arg args 1;
  types ← (match typesArg with pyList l => gets (fun s => elements (hp s) l) | _ => iret [typesArg] end);
  iret (pyBool (existsb (matches_type obj) types || (negb (is_func obj) && same_type obj typesArg))).

(** ** Strings *)

Definition strJoin (args : list (option pyObject)) : I pyObject :=
  self ← str_arg args 0;
  o ← arg args 1;
  seq ← asStringList o "seq";
  iret (pyString (join self seq)).

Definition strSplit (args : list (option pyObject)) : I pyObject :=
  self ← str_arg args 0;
  on ← str_arg args 1;
  fromStringList (Split self on).

Definition strReplace (args : list (option pyObject)) : I pyObject :=
  self ← str_arg args 0;
  old ← str_arg args 1;
  new ← str_arg args 2;
  iret (pyString (ReplaceAll self old new)).

(** The text around the separator at [idx]. *)
Definition cut_at (self sep : string) (idx : nat) : I pyObject :=
  let n := String.length sep in
  fromStringList [str_take idx self; str_slice idx (idx + n) self; str_drop (idx + n) self].

Definition strPartition (args : list (option pyObject)) : I pyObject :=
  self ← str_arg args 0;
  sep ← str_arg args 1;
  match index_str sep self with
  | Some idx => cut_at self sep idx
  | None => fromStringList [self; ""; ""]
  end.

Definition strRPartition (args : list (option pyObject)) : I pyObject :=
  self ← str_arg args 0;
  sep ← str_arg args 1;
  match last_index_str sep self with
  | Some idx => cut_at self sep idx
  | None => fromStringList [""; ""; self]
  end.

Definition strStartsWith (args : list (option pyObject)) : I pyObject :=
  self ← str_arg args 0; x ← str_arg args 1; iret (pyBool (has_prefix self x)).
Definition strEndsWith (args : list (option pyObject)) : I pyObject :=
  self ← str_arg args 0; x ← str_arg args 1; iret (pyBool (has_suffix self x)).

Definition strJust (args : list (option pyObject)) (left_ : bool) : I pyObject :=
  self ← str_arg args 0;
  width ← int_arg args 1;
  fillchar ← str_arg args 2;
  Assert (RuneCount fillchar =? 1)%nat "fillchar must be exactly one character long";;
  let count := wrap (width - Z.of_nat (RuneCount self)) in
  if count <=? 0 then iret (pyString self)
  else
    fill ← (fun s => r ← strings_Repeat fillchar count; Ok (r, s));
    iret (pyString (if left_ then self +:+ fill else fill +:+ self)).

Definition strLStrip (args : list (option pyObject)) : I pyObject :=
  self ← str_arg args 0; cutset ← str_arg args 1; iret (pyString (TrimLeft self cutset)).
Definition strRStrip (args : list (option pyObject)) : I pyObject :=
  self ← str_arg args 0; cutset ← str_arg args 1; iret (pyString (TrimRight self cutset)).
Definition strStrip (args : list (option pyObject)) : I pyObject :=
  self ← str_arg args 0; cutset ← str_arg args 1; iret (pyString (Trim self cutset)).
Definition strRemovePrefix (args : list (option pyObject)) : I pyObject :=
  self ← str_arg args 0; prefix ← str_arg args 1; iret (pyString (TrimPrefix self prefix)).
Definition strRemoveSuffix (args : list (option pyObject)) : I pyObject :=
  self ← str_arg args 0; suffix ← str_arg args 1; iret (pyString (TrimSuffix self suffix)).

(** An index, or -1. *)
Definition index_or (i : option nat) : pyObject := pyInt (match i with Some i => Z.of_nat i | None => -1 end).

Definition strFind (args : list (option pyObject)) : I pyObject :=
  self ← str_arg args 0; needle ← str_arg args 1; iret (index_or (index_str needle self)).
Definition strRFind (args : list (option pyObject)) : I pyObject :=
  self ← str_arg args 0; needle ← str_arg args 1; iret (index_or (last_index_str needle self)).
Definition strCount (args : list (option pyObject)) : I pyObject :=
  self ← str_arg args 0; needle ← str_arg args 1; iret (pyInt (Z.of_nat (Count self needle))).

(** *** [format] *)

Section format.
Context (fuel : nat) (sc : nat) (args : list (option pyObject)).

Definition text (o : pyObject) : I string := read_heap (fun h => to_str fuel h o).

(** The next positional argument. *)
Definition positional (n : nat) : I string :=
  Assert (n <? length args)%nat
    ("format string specifies at least " +:+ Itoa (Z.of_nat n) +:+ " positional arguments, but only "
     +:+ Itoa (Z.of_nat (length args) - 1) +:+ " were supplied");;
  o ← arg args n;
  text o.

(** What stands for the braces from [start] to [end_], and the next argument. *)
Definition format_field (self : string) (start end_ n : nat) : I (string * nat) :=
  let key := str_slice (S start) end_ self in
  let as_is := str_slice start (S end_) self in
  if match start with O => false | S i => match String.get i self with Some c => Ascii.eqb c "$" | None => false end end
  then
    if match String.get (S start) self with Some c => Ascii.eqb c "{" | None => false end then iret (key, n)
    else if (S start =? end_)%nat then t ← positional n; iret (t, S n)
    else iret (as_is, n)
  else if String.eqb key "" then t ← positional n; iret (t, S n)
  else
    val ← LocalLookup sc key;
    match val with
    | Some o => t ← text o; iret (t, n)
    | None => iret (as_is, n)
    end.

(** [steps] bounds the fields. *)
Fixpoint format_loop (steps : nat) (buf self : string) (n : nat) : I string :=
  match steps with
  | O => out_of_fuel
  | S steps =>
      match index_byte "{" self with
      | None => iret (buf +:+ self)
      | Some start =>
          match index_byte "}" (str_drop start self) with
          | None => iret (buf +:+ self)
          | Some e =>
              let end_ := (start + e)%nat in
              '(t, n) ← format_field self start end_ n;
              format_loop steps (buf +:+ str_take start self +:+ t) (str_drop (S end_) self) n
          end
      end
  end.

Definition strFormat : I pyObject :=
  self ← str_arg args 0;
  t ← format_loop (S (String.length self)) "" self 1;
  iret (pyString t).
End format.

(** ** Configurations and dicts *)

Definition configGet (args : list (option pyObject)) : I pyObject :=
  o ← arg args 0;
  self ← as_config o;
  key ← str_arg args 1;
  fallback ← arg args 2;
  v ← gets (fun s => config_Get (hp s) self key);
  iret (default fallback v).

Definition configKeys (args : list (option pyObject)) : I pyObject :=
  o ← arg args 0;
  self ← as_config o;
  keys ← gets (fun s => config_Keys (hp s) self);
  fromStringList keys.

Definition configValues (args : list (option pyObject)) : I pyObject :=
  o ← arg args 0;
  self ← as_config o;
  keys ← gets (fun s => config_Keys (hp s) self);
  vs ← mapI (fun k => on_heap (MustGet self k)) keys;
  new_list vs.

(** A pair of a key and its value, as a list. *)
Definition item_pair (k : string) (v : pyObject) : I pyObject := new_list [pyString k; v].

Definition configItems (args : list (option pyObject)) : I pyObject :=
  o ← arg args 0;
  self ← as_config o;
  keys ← gets (fun s => config_Keys (hp s) self);
  items ← mapI (fun k => v ← on_heap (MustGet self k); item_pair k v) keys;
  new_list items.

Definition dictGet (args : list (option pyObject)) : I pyObject :=
  o ← arg args 0;
  self ← as_dict o;
  k ← arg args 1;
  match k with
  | pyString k =>
      v ← gets (fun s => dict_of (hp s) self !! k);
      match v with Some v => iret v | None => arg args 2 end
  | _ => Error ("dict keys must be strings, not " +:+ Type_ k)
  end.

Definition dict_arg (args : list (option pyObject)) : I (gmap string pyObject) :=
  o ← arg args 0;
  d ← as_dict o;
  gets (fun s => dict_of (hp s) d).

Definition dictKeys (args : list (option pyObject)) : I pyObject :=
  m ← dict_arg args;
  fromStringList (dict_Keys m).

(** [self[k]], which is nil for a key there is not *)
Definition at_key (m : gmap string pyObject) (k : string) : I pyObject :=
  match m !! k with Some v => iret v | None => nil_dereference end.

Definition dictValues (args : list (option pyObject)) : I pyObject :=
  m ← dict_arg args;
  vs ← mapI (at_key m) (dict_Keys m);
  new_list vs.

Definition dictItems (args : list (option pyObject)) : I pyObject :=
  m ← dict_arg args;
  items ← mapI (fun k => v ← at_key m k; item_pair k v) (dict_Keys m);
  new_list items.

Definition dictCopy (args : list (option pyObject)) : I pyObject :=
  m ← dict_arg args;
  d ← on_heap (alloc_dict m);
  iret (pyDict d).

(** ** Functions on lists that do not call back *)

Definition reversed (args : list (option pyObject)) : I pyObject :=
  o ← arg args 0;
  match o with
  | pyList l => fun s =>
      let h := hp s in
      Ok (o, set_heap (set_array (sl_arr l) (overwrite (sl_off l) (rev (elements h l)) (array_of h (sl_arr l))) h) s)
  | _ => Error ("irreversible type " +:+ Type_ o)
  end.

Definition enumerate (args : list (option pyObject)) : I pyObject :=
  o ← arg args 0;
  l ← list_or o "Argument to enumerate must be a list, not ";
  xs ← gets (fun s => elements (hp s) l);
  items ← mapI (fun '(i, x) => new_list [pyInt (Z.of_nat i); x]) (imap pair xs);
  new_list items.

Definition anyFunc (args : list (option pyObject)) : I pyObject :=
  o ← arg args 0;
  l ← list_or o "Argument to any must be a list, not ";
  gets (fun s => pyBool (existsb (IsTruthy (hp s)) (elements (hp s) l))).

Definition allFunc (args : list (option pyObject)) : I pyObject :=
  o ← arg args 0;
  l ← list_or o "Argument to all must be a list, not ";
  gets (fun s => pyBool (forallb (IsTruthy (hp s)) (elements (hp s) l))).

(** The lists [zip] is given, all of the same length; the error for anything else
    names the type of the list there is not. *)
Fixpoint zip_lists (first : bool) (lastLen : nat) (args : list (option pyObject)) : I (list gslice * nat) :=
  match args with
  | [] => iret ([], lastLen)
  | Some (pyList l) :: args =>
      Assert (first || (lastLen =? sl_len l)%nat) "All arguments to zip must have the same length";;
      '(ls, n) ← zip_lists false (sl_len l) args;
      iret (l :: ls, n)
  | _ => Error "Arguments to zip must be lists, not list"
  end.

Definition zip (args : list (option pyObject)) : I pyObject :=
  '(ls, n) ← zip_lists true 0 args;
  rows ← mapI (fun i => row ← mapI (fun l => elem l i) ls; new_list row) (seq 0 n);
  new_list rows.

(** The address of a new range. *)
Definition new_ref : H nat := fun h => Ok (fresh h, MkHeap (arrays h) (dicts h) (configs h) (S (fresh h))).

Definition pyRangeFunc (args : list (option pyObject)) : I pyObject :=
  start ← int_arg args 0;
  stop ← arg args 1;
  step ← int_arg args 2;
  r ← on_heap new_ref;
  iret (match stop with
        | pyInt stop => pyRange r start stop step
        | _ => pyRange r 0 start step
        end).

(** ** Characters, conversions, paths and names *)

Definition lenFunc (args : list (option pyObject)) : I pyObject :=
  o ← arg args 0;
  n ← read_heap (objLen o);
  iret (pyInt n).

Definition chr (args : list (option pyObject)) : I pyObject :=
  o ← arg args 0;
  match o with
  | pyInt i =>
      Assert ((0 <=? i) && (i <=? 1114111)) "Argument i must be within the Unicode code point range";;
      iret (pyString (EncodeRune i))
  | _ => Error ("Argument i must be an integer, not " +:+ Type_ o)
  end.

Definition ord (args : list (option pyObject)) : I pyObject :=
  o ← arg args 0;
  match o with
  | pyString c =>
      match rune_values c with
      | [r] => iret (pyInt r)
      | _ => Error "Argument c must be a string containing a single Unicode character"
      end
  | _ => Error ("Argument c must be a string, not " +:+ Type_ o)
  end.

Definition boolType (args : list (option pyObject)) : I pyObject :=
  o ← arg args 0; b ← truthy o; iret (pyBool b).

Definition strType (fuel : nat) (args : list (option pyObject)) : I pyObject :=
  o ← arg args 0; t ← text fuel o; iret (pyString t).

Definition joinPath (args : list (option pyObject)) : I pyObject :=
  parts ← mapI (fun a => match a with Some o => as_str o | None => nil_dereference end) args;
  iret (pyString (path_join parts)).

(** [tagName]: a name that is not hidden becomes so. *)
Definition tagName (name tag : string) : res string :=
  match name with
  | "" => Err EIndex
  | String c _ =>
      let name := if Ascii.eqb c "_" then name else "_" +:+ name in
      Ok (name +:+ (if contains_byte "#" name then "_" else "#") +:+ tag)
  end.

Definition tag (fuel : nat) (args : list (option pyObject)) : I pyObject :=
  name ← arg args 0;
  name ← text fuel name;
  t ← arg args 1;
  t ← text fuel t;
  r ← read_heap (fun _ => tagName name t);
  iret (pyString r).

Definition looksLikeBuildLabel (fuel : nat) (args : list (option pyObject)) : I pyObject :=
  o ← arg args 0; t ← text fuel o; iret (pyBool (LooksLikeABuildLabel t)).

Definition builtinFail (args : list (option pyObject)) : I pyObject :=
  msg ← str_arg args 0; Error msg.

Section builtins.
Context (Sprintf : string -> list pyObject -> heap -> string).
Context (grow : nat -> nat -> nat).
Context (unrepresentable : Z).
Context (sort_Slice : gslice -> (nat -> nat -> I bool) -> I unit).
Context (unicode_upper unicode_lower : string -> string).
(** whether the pattern matches, or the text of the error of compiling it *)
Context (regexp_match : string -> string -> string + bool).
Context (Marshal : bool -> heap -> pyObject -> option string).
Context (strict_version : string -> bool).
Context (check_version : string -> string -> string + bool).
Context (Atoi_error : string -> string).

(** Calling a function with these values, from this scope. *)
Context (call_function : nat -> pyObject -> list pyObject -> I pyObject).

Section natives.
Context (fuel : nat) (sc : nat) (args : list (option pyObject)).

Definition strUpper : I pyObject := self ← str_arg args 0; iret (pyString (ToUpper unicode_upper self)).
Definition strLower : I pyObject := self ← str_arg args 0; iret (pyString (ToLower unicode_lower self)).

Definition strMatches : I pyObject :=
  self ← str_arg args 0;
  pattern ← str_arg args 1;
  match regexp_match pattern self with inr b => iret (pyBool b) | inl e => Error e end.

Definition intType : I pyObject :=
  s ← str_arg args 0;
  match Atoi s with Some i => iret (pyInt i) | None => Error (Atoi_error s) end.

Definition valueAsJSON : I pyObject :=
  pretty ← arg args 1;
  match pretty with
  | pyBool b =>
      o ← arg args 0;
      r ← gets (fun s => Marshal b (hp s) o);
      match r with Some t => iret (pyString t) | None => Error "Could not marshal object as JSON" end
  | _ => conversion pretty "asp.pyBool"
  end.

Definition isSemver : I pyObject :=
  s ← str_arg args 0; iret (pyBool (strict_version (TrimPrefix s "v"))).

Definition semverCheck : I pyObject :=
  v ← str_arg args 0;
  c ← str_arg args 1;
  match check_version v c with inr b => iret (pyBool b) | inl e => Error e end.

Definition compare (op : Op.Operator) (x y : pyObject) : I bool :=
  o ← operator Sprintf grow unrepresentable fuel op x y; truthy o.

(** The comparison of two indices that [sorted] gives [sort.Slice]. *)
Definition sort_less (l : gslice) (key : option pyObject) (order : Op.Operator) (i j : nat) : I bool :=
  match key with
  | None => x ← elem l i; y ← elem l j; compare order x y
  | Some key =>
      x ← elem l i;
      iKey ← call_function sc key [x];
      y ← elem l j;
      jKey ← call_function sc key [y];
      compare order iKey jKey
  end.

(** The function among the arguments, if it is one. *)
Definition key_arg (o : pyObject) : option pyObject := if is_func o then Some o else None.

(** [sorted] sorts its argument in place. *)
Definition sorted : I pyObject :=
  o ← arg args 0;
  key ← arg args 1;
  reverse ← arg args 2;
  match o, reverse with
  | pyList l, pyBool reverse =>
      sort_Slice l (sort_less l (key_arg key) (if reverse then Op.GreaterThan else Op.LessThan));;
      iret o
  | pyList _, _ => Error ("Argument reverse must be a bool, not " +:+ Type_ reverse)
  | _, _ => Error ("Argument seq must be a list, not " +:+ Type_ o)
  end.

(** The two arguments of [filter], [map] and [reduce]. *)
Definition func_and_list (what : string) : I (pyObject * gslice) :=
  f ← arg args 0;
  o ← arg args 1;
  Assert (is_func f) ("Argument " +:+ what +:+ " must be callable, not " +:+ Type_ f);;
  l ← list_or o "Argument seq must be a list, not ";
  iret (f, l).

Definition filterFunc : I pyObject :=
  '(f, l) ← func_and_list "filter";
  r ← over l (fun r li =>
    o ← call_function sc f [li];
    b ← truthy o;
    if (b : bool) then on_heap (append grow r [li]) else iret r) (MkGslice 0 0 0 0);
  iret (pyList r).

Definition mapFunc : I pyObject :=
  '(f, l) ← func_and_list "mapper";
  xs ← over l (fun r li => o ← call_function sc f [li]; iret (r ++ [o])) [];
  new_list xs.

Definition reduce : I pyObject :=
  '(f, l) ← func_and_list "reducer";
  init ← arg args 2;
  match sl_len l with
  | O => iret init
  | S n =>
      let step r li := call_function sc f [r; li] in
      if bool_decide (init = pyNone) then first ← elem l 0; each n 1 l step first
      else over l step init
  end.

(** The first of the least, by [cmp]. *)
Definition extreme (cmp : Op.Operator) : I pyObject :=
  o ← arg args 0;
  key ← arg args 1;
  l ← list_or o "Argument seq must be a list, not ";
  Assert (0 <? sl_len l)%nat "Argument seq must contain at least one item";;
  r ← over l (fun (best : option (pyObject * pyObject)) li =>
    cli ← (match key_arg key with Some f => call_function sc f [li] | None => iret li end);
    match best with
    | None => iret (Some (cli, li))
    | Some (cret, ret) =>
        b ← compare cmp cli cret;
        iret (Some (if (b : bool) then (cli, li) else (cret, ret)))
    end) None;
  iret (match r with Some (_, ret) => ret | None => pyNone end).

End natives.
End builtins.

(** ** The table of builtins *)

Section table.
Context (Sprintf : string -> list pyObject -> heap -> string).
Context (grow : nat -> nat -> nat).
Context (unrepresentable : Z).
Context (sort_Slice : gslice -> (nat -> nat -> I bool) -> I unit).
Context (unicode_upper unicode_lower : string -> string).
Context (regexp_match : string -> string -> string + bool).
Context (Marshal : bool -> heap -> pyObject -> option string).
Context (strict_version : string -> bool).
Context (check_version : string -> string -> string + bool).
Context (Atoi_error : string -> string).
(** the builtins that are not here *)
Context (other : string -> nat -> list (option pyObject) -> I pyObject).

Section entries.
Context (call_function : nat -> pyObject -> list pyObject -> I pyObject).
Context (fuel : nat) (sc : nat) (args : list (option pyObject)).

(** The methods of strings. *)
Definition string_natives : list (string * I pyObject) :=
  [("join", strJoin args); ("split", strSplit args); ("replace", strReplace args);
   ("partition", strPartition args); ("rpartition", strRPartition args);
   ("startswith", strStartsWith args); ("endswith", strEndsWith args);
   ("ljust", strJust args true); ("rjust", strJust args false);
   ("lstrip", strLStrip args); ("rstrip", strRStrip args); ("strip", strStrip args);
   ("removeprefix", strRemovePrefix args); ("removesuffix", strRemoveSuffix args);
   ("find", strFind args); ("rfind", strRFind args); ("count", strCount args);
   ("format", strFormat fuel sc args);
   ("upper", strUpper unicode_upper args); ("lower", strLower unicode_lower args);
   ("matches", strMatches regexp_match args)].

Definition value_natives : list (string * I pyObject) :=
  [("fail", builtinFail args); ("tag", tag fuel args);
   ("sorted", sorted Sprintf grow unrepresentable sort_Slice call_function fuel sc args);
   ("reversed", reversed args);
   ("filter", filterFunc grow call_function sc args); ("map", mapFunc call_function sc args);
   ("reduce", reduce call_function sc args); ("isinstance", isinstance args);
   ("range", pyRangeFunc args); ("enumerate", enumerate args); ("zip", zip args);
   ("any", anyFunc args); ("all", allFunc args);
   ("min", extreme Sprintf grow unrepresentable call_function fuel sc args Op.LessThan);
   ("max", extreme Sprintf grow unrepresentable call_function fuel sc args Op.GreaterThan);
   ("chr", chr args); ("ord", ord args); ("len", lenFunc args);
   ("bool", boolType args); ("int", intType Atoi_error args); ("str", strType fuel args);
   ("join_path", joinPath args); ("json", valueAsJSON Marshal args);
   ("is_semver", isSemver strict_version args); ("semver_check", semverCheck check_version args);
   ("looks_like_build_label", looksLikeBuildLabel fuel args)].

Definition dict_natives : list (string * I pyObject) :=
  [("get", dictGet args); ("keys", dictKeys args); ("items", dictItems args); ("values", dictValues args);
   ("copy", dictCopy args);
   ("config_get", configGet args); ("config_keys", configKeys args); ("config_items", configItems args);
   ("config_values", configValues args)].

Definition native_table : list (string * I pyObject) := string_natives ++ value_natives ++ dict_natives.

Definition native (name : string) : I pyObject :=
  match Op.lookup_by (String.eqb name) native_table with
  | Some m => m
  | None => other name sc args
  end.
End entries.

(** An argument of a call that is already a value. *)
Definition const_arg (o : pyObject) : CallArgument :=
  MkCallArgument 0 "" (MkExpression 0 0 (MkValueExpression VNone [] None) [] None (Some (OptConstant o))).

Context (stringMethods dictMethods configMethods : gmap string nat).
Context (bazel_compat : bool).

(** The builtins that call functions of the language, which call builtins: [fuel]
    bounds how deep. *)
Fixpoint natives (fuel : nat) (name : string) (sc : nat) (args : list (option pyObject)) : I pyObject :=
  match fuel with
  | O => out_of_fuel
  | S fuel =>
      let call_function sc f xs :=
        callObject (natives fuel) bazel_compat
          (run Sprintf grow unrepresentable (natives fuel) stringMethods dictMethods configMethods bazel_compat fuel)
          sc "" f (MkCall (map const_arg xs)) in
      native call_function fuel sc args name
  end.
End table.

(** ** Registration *)

(** [setNativeCode], which gives a function that is declared its Go code. *)
Definition setNativeCode (sc : nat) (name : string) (varargs kwargs : bool) : I nat :=
  o ← Lookup sc name;
  match o with
  | pyFunc _ id => fun s =>
      Ok (id, MkState (hp s) (scopes s)
        (alter (fun f => MkFunc (fn_name f) (fn_scope f) (fn_args f) (fn_argIndices f) (fn_constants f) (fn_defaults f)
           (fn_types f) [] (fn_returnType f) (Some name) (fn_self f) varargs kwargs (fn_kwargsonly f)) id (funcs s))
        (next_id s))
  | _ => conversion o "*asp.pyFunc"
  end.

(** The functions registered by name, with whether they take variable or keyword arguments. *)
Definition registered : list (string * bool * bool) :=
  [("build_rule", false, false); ("tag", false, false); ("subrepo", false, false); ("fail", false, false);
   ("subinclude", true, false); ("load", true, false); ("package", false, true); ("sorted", false, false);
   ("reversed", false, false); ("filter", false, false); ("map", false, false); ("reduce", false, false);
   ("isinstance", false, false); ("range", false, false); ("enumerate", false, false); ("zip", true, false);
   ("any", false, false); ("all", false, false); ("min", false, false); ("max", false, false);
   ("chr", false, false); ("ord", false, false); ("len", false, false); ("glob", false, false);
   ("bool", false, false); ("int", false, false); ("str", false, false); ("join_path", true, false);
   ("get_base_path", false, false); ("package_name", false, false); ("subrepo_name", false, false);
   ("canonicalise", false, false); ("get_labels", false, false); ("add_label", false, false);
   ("add_dep", false, false); ("add_data", false, false); ("add_out", false, false); ("get_outs", false, false);
   ("get_named_outs", false, false); ("add_entry_point", false, false); ("get_entry_points", false, false);
   ("add_licence", false, false); ("get_licences", false, false); ("get_command", false, false);
   ("set_command", false, false); ("json", false, false); ("breakpoint", false, false);
   ("is_semver", false, false); ("semver_check", false, false); ("looks_like_build_label", false, false)].

Definition string_methods : list string :=
  ["join"; "split"; "replace"; "partition"; "rpartition"; "startswith"; "endswith"; "ljust"; "rjust"; "lstrip";
   "rstrip"; "removeprefix"; "removesuffix"; "strip"; "find"; "rfind"; "format"; "count"; "upper"; "lower"; "matches"].

(** The method tables: a method by its name, implemented by the function of another. *)
Definition dict_methods : list (string * string) :=
  [("get", "get"); ("keys", "keys"); ("items", "items"); ("values", "values"); ("copy", "copy")].
Definition config_methods : list (string * string) :=
  [("get", "config_get"); ("keys", "config_keys"); ("items", "config_items"); ("values", "config_values")].

Definition registerMethods (sc : nat) (ms : list (string * string)) : I (gmap string nat) :=
  ids ← mapI (fun '(m, f) => id ← setNativeCode sc f false (String.eqb m "format"); iret (m, id)) ms;
  iret (list_to_map ids).

(** [s.Lookup("setdefault").( *pyFunc)]: the method that is written in the language. *)
Definition setdefault_method (sc : nat) : I nat :=
  o ← Lookup sc "setdefault";
  match o with pyFunc _ id => iret id | _ => conversion o "*asp.pyFunc" end.

(** [registerBuiltins], from [declared] on: the methods of strings, dicts and
    configurations. *)
Definition registerBuiltins (sc : nat) (declared : list (string * bool * bool)) :
    I (gmap string nat * gmap string nat * gmap string nat) :=
  iterI (fun '(name, varargs, kwargs) => setNativeCode sc name varargs kwargs;; iret tt) declared;;
  strs ← registerMethods sc (map (fun m => (m, m)) string_methods);
  sd ← setdefault_method sc;
  dicts ← registerMethods sc dict_methods;
  configs ← registerMethods sc config_methods;
  iret (strs, <["setdefault" := sd]> dicts, <["setdefault" := sd]> configs).
