(* ===== verification/BuiltinStrings.v ===== *)
(** The methods of strings of the BUILD language: what splitting, joining, partitioning,
    searching, [chr] and [ord] do, and the types of what the methods return. *)
From S2P Require Import Prelude GoStrings Lexer GoText Labels Values Ast Parser Objects Interp Builtins.
From Stdlib Require Import Ascii.

#[local] Open Scope Z_scope.

(** ** Evaluating a builtin *)

Lemma bind_iret {A B} (a : A) (f : A -> I B) : (iret a ≫= f) = f a.
Proof. done. Qed.

Lemma bind_gets {A B} (f : state -> A) (k : A -> I B) s : (gets f ≫= k) s = k (f s) s.
Proof. done. Qed.

Lemma bind_I {A B} (m : I A) (f : A -> I B) s a s' : m s = Ok (a, s') -> (m ≫= f) s = f a s'.
Proof. intros H. unfold mbind, I_bind. by rewrite H. Qed.

(** A call returns [r] with what it allocated; nothing there was before has changed. *)
Record allocates (s s' : state) : Prop := {
  alloc_scopes : scopes s' = scopes s;
  alloc_funcs : funcs s' = funcs s;
  alloc_arrays : forall a, (a < fresh (hp s))%nat -> array_of (hp s') a = array_of (hp s) a;
  alloc_dicts : dicts (hp s') = dicts (hp s);
  alloc_fresh : (fresh (hp s) <= fresh (hp s'))%nat;
}.

Lemma allocates_refl s : allocates s s.
Proof. done. Qed.

Lemma allocates_trans s1 s2 s3 : allocates s1 s2 -> allocates s2 s3 -> allocates s1 s3.
Proof.
  intros [] []. split; try congruence; [|lia]. intros a Ha. rewrite alloc_arrays1 by lia. auto.
Qed.

(** A list allocated before is still what it was. *)
Lemma allocates_elements s s' l :
  allocates s s' -> valid (hp s) l -> valid (hp s') l /\ elements (hp s') l = elements (hp s) l.
Proof.
  intros Ha Hv. pose proof (valid_arr _ _ Hv) as Hl. pose proof (alloc_arrays _ _ Ha _ Hl) as He.
  split; [|unfold elements; by rewrite He].
  destruct Hv. split; [done|by rewrite He|]. pose proof (alloc_fresh _ _ Ha). lia.
Qed.

Lemma new_list_spec xs s :
  exists l s', new_list xs s = Ok (pyList l, s') /\ allocates s s' /\ valid (hp s') l /\
    elements (hp s') l = xs /\ sl_arr l = fresh (hp s).
Proof.
  destruct (alloc_spec xs (length xs) (hp s) (le_n _)) as (l & h' & Ha & Hv & _ & Hf & He & Ho).
  exists l, (set_heap h' s). unfold new_list, mbind, I_bind, on_heap. rewrite Ha.
  split_and!; try done. unfold alloc in Ha. injection Ha as _ <-. split; try done; cbn; lia.
Qed.

Lemma mapI_strings (l : list string) name s :
  mapI (fun x => match x with pyString s => iret s | _ => Error (name +:+ " must be a list of strings") end)
    (map pyString l) s = Ok (l, s).
Proof. induction l as [|x l IH]; cbn; [done|]. unfold mbind, I_bind. cbn. by rewrite IH. Qed.

Lemma asStringList_spec l parts name s :
  elements (hp s) l = map pyString parts -> asStringList (pyList l) name s = Ok (parts, s).
Proof. intros He. unfold asStringList. rewrite bind_gets, He. apply mapI_strings. Qed.

Section strings.
Context (Sprintf : string -> list pyObject -> heap -> string).
Context (grow : nat -> nat -> nat).
Context (unrepresentable : Z).
Context (sort_Slice : gslice -> (nat -> nat -> I bool) -> I unit).
Context (unicode_upper unicode_lower : string -> string).
Context (regexp_match : string -> string -> string + bool).
Context (Marshal : bool -> heap -> pyObject -> option string).
Context (strict_version : string -> bool).
Context (check_version : string -> string -> string + bool).
Context (Atoi_error : string -> string).
Context (other : string -> nat -> list (option pyObject) -> I pyObject).
Context (call_function : nat -> pyObject -> list pyObject -> I pyObject).
Context (fuel sc : nat).

#[local] Abbreviation builtin name args :=
  (native Sprintf grow unrepresentable sort_Slice unicode_upper unicode_lower regexp_match Marshal strict_version
    check_version Atoi_error other call_function fuel sc (map Some args) name).

(** ** Splitting and joining *)

(** [self.split(sep)] returns the parts between the occurrences of the separator,
    none of which has it, or every character of its own for an empty separator; joining
    them with the separator gives the string back. *)
Theorem split_join self sep s :
  exists l parts s',
    builtin "split" [pyString self; pyString sep] s = Ok (pyList l, s') /\ allocates s s' /\
    elements (hp s') l = map pyString parts /\
    (sep <> "" -> Forall (fun p => contains p sep = false) parts) /\
    (sep = "" -> parts = explode self) /\
    builtin "join" [pyString sep; pyList l] s' = Ok (pyString self, s').
Proof.
  destruct (new_list_spec (map pyString (Split self sep)) s) as (l & s' & Hn & Ha & Hv & He & _).
  exists l, (Split self sep), s'. split_and!; try done.
  - unfold Split. intros Hne. destruct (String.eqb_spec sep ""); [done|]. by apply split_on_parts.
  - unfold Split. intros ->. done.
  - change (strJoin [Some (pyString sep); Some (pyList l)] s' = Ok (pyString self, s')).
    unfold strJoin. erewrite bind_I by reflexivity. erewrite bind_I by reflexivity.
    erewrite bind_I by (by apply asStringList_spec). unfold iret. do 3 f_equal. f_equal.
    unfold Split. destruct (String.eqb_spec sep "") as [->|]; [apply join_explode|apply join_split_on].
Qed.

(** ** Partitioning *)

(** [partition] cuts a string around the first occurrence of the separator, with
    none in the text before it, and [rpartition] around the last, with none that begins
    after it; without an occurrence the string comes back whole. *)
Theorem partition_spec self sep s :
  exists l s' r s'' a b c d e f,
    builtin "partition" [pyString self; pyString sep] s = Ok (pyList l, s') /\
    builtin "rpartition" [pyString self; pyString sep] s = Ok (pyList r, s'') /\
    elements (hp s') l = map pyString [a; b; c] /\ elements (hp s'') r = map pyString [d; e; f] /\
    a +:+ b +:+ c = self /\ d +:+ e +:+ f = self /\
    (contains self sep = true ->
       b = sep /\ e = sep /\ (sep <> "" -> contains a sep = false) /\
       forall j, (String.length d < j <= String.length self)%nat -> has_prefix (str_drop j self) sep = false) /\
    (contains self sep = false -> a = self /\ f = self).
Proof.
  assert (forall parts, exists l s', fromStringList parts s = Ok (pyList l, s') /\ elements (hp s') l = map pyString parts) as Hl.
  { intros parts. destruct (new_list_spec (map pyString parts) s) as (l & s' & Hn & _ & _ & He & _). eauto. }
  assert (forall i, str_slice i (i + String.length sep) self = str_take (String.length sep) (str_drop i self)) as Hs.
  { intros i. unfold str_slice. do 2 f_equal. lia. }
  assert (forall i, self = str_take i self +:+ sep +:+ str_drop (i + String.length sep) self ->
            (i + String.length sep <= String.length self)%nat ->
            str_slice i (i + String.length sep) self = sep /\ String.length (str_take i self) = i) as Hcut.
  { intros i Hi Hlen. rewrite Hs.
    assert (String.length (str_take i self) = i) as Ht.
    { pose proof (f_equal String.length (str_take_drop i self)) as Hd.
      rewrite str_length_app, str_length_drop in Hd. lia. }
    split; [|done]. rewrite Hi at 1. rewrite <- Ht at 1. rewrite str_drop_app. apply str_take_app. }
  change (builtin "partition" [pyString self; pyString sep] s) with (strPartition [Some (pyString self); Some (pyString sep)] s).
  change (builtin "rpartition" [pyString self; pyString sep] s) with (strRPartition [Some (pyString self); Some (pyString sep)] s).
  unfold strPartition, strRPartition.
  repeat (erewrite (bind_I (str_arg _ _)) by reflexivity).
  destruct (index_str sep self) as [i|] eqn:Ei.
  - destruct (last_index_str sep self) as [k|] eqn:Ek;
      [|apply last_index_str_None in Ek; congruence].
    pose proof (index_str_Some _ _ _ Ei) as (Hi & _ & Hil).
    pose proof (last_index_str_Some _ _ _ Ek) as (Hk & Hkj & Hkl).
    destruct (Hcut i Hi Hil) as [Hi1 Hi2], (Hcut k Hk Hkl) as [Hk1 Hk2].
    unfold cut_at. rewrite Hi1, Hk1.
    destruct (Hl [str_take i self; sep; str_drop (i + String.length sep) self]) as (l & s' & -> & He).
    destruct (Hl [str_take k self; sep; str_drop (k + String.length sep) self]) as (r & s'' & -> & Hr).
    exists l, s', r, s''. do 6 eexists. split_and!; [done..| | | |]; rewrite ?Hk2; try done.
    + intros _. split_and!; [done..| |done]. intros Hne. by eapply index_str_first.
    + rewrite contains_None. congruence.
  - rewrite (proj2 (last_index_str_None _ _) Ei).
    destruct (Hl [self; ""; ""]) as (l & s' & -> & He). destruct (Hl [""; ""; self]) as (r & s'' & -> & Hr).
    exists l, s', r, s''. do 6 eexists. split_and!; [done..| |done| |done]; [by rewrite !str_app_nil_r|].
    apply contains_None in Ei. congruence.
Qed.

(** ** Finding *)

Definition occurs_at (self sub : string) (i : nat) : Prop := exists a c, self = a +:+ sub +:+ c /\ String.length a = i.

Lemma occurs_prefix self sub i : occurs_at self sub i <-> (i <= String.length self)%nat /\ has_prefix (str_drop i self) sub = true.
Proof.
  split.
  - intros (a & c & -> & <-). rewrite str_drop_app, has_prefix_spec, str_length_app. split; [lia|eauto].
  - intros (Hi & [c Hc]%has_prefix_spec). exists (str_take i self), c. rewrite <- Hc, str_take_drop. split; [done|by apply str_length_take].
Qed.

(** The place that was found among all, or -1 for none *)
Definition finds (self sub : string) (best : nat -> nat -> Prop) (i : Z) : Prop :=
  (exists n, i = Z.of_nat n /\ occurs_at self sub n /\ forall m, occurs_at self sub m -> best n m) \/
  i = -1 /\ contains self sub = false.

Lemma finds_first self sub : finds self sub le (match index_str sub self with Some i => Z.of_nat i | None => -1 end).
Proof.
  destruct (index_str sub self) as [i|] eqn:E; [|right; split; [done|by apply contains_None]].
  apply index_str_Some in E as (Hs & Hj & Hl). left. exists i. split; [done|]. split.
  - apply occurs_prefix. split; [lia|]. apply has_prefix_spec. exists (str_drop (i + String.length sub) self).
    rewrite Hs at 1. rewrite <- (str_length_take i self) at 1 by lia. by rewrite str_drop_app.
  - intros m [_ Hm]%occurs_prefix. destruct (decide (i <= m)%nat); [done|]. rewrite Hj in Hm; [done|lia].
Qed.

Lemma finds_last self sub : finds self sub ge (match last_index_str sub self with Some i => Z.of_nat i | None => -1 end).
Proof.
  destruct (last_index_str sub self) as [i|] eqn:E; [|right; split; [done|by apply contains_None, last_index_str_None]].
  apply last_index_str_Some in E as (Hs & Hj & Hl). left. exists i. split; [done|]. split.
  - apply occurs_prefix. split; [lia|]. apply has_prefix_spec. exists (str_drop (i + String.length sub) self).
    rewrite Hs at 1. rewrite <- (str_length_take i self) at 1 by lia. by rewrite str_drop_app.
  - intros m [Hm1 Hm]%occurs_prefix. destruct (decide (m <= i)%nat) as [|Hn]; [lia|]. rewrite Hj in Hm; [done|lia].
Qed.

(** C40: Searching in a string. [find] gives the first place where the text occurs and [rfind]
    the last, or -1; [startswith] and [endswith] say whether it occurs at the start or the end,
    and [removeprefix] and [removesuffix] then leave the rest. For a text that is not empty,
    [split] gives parts that the text does not occur in, the first of which ends where
    [find] says, and which [join] puts together again; [count] is one less than their number;
    and [replace] puts them together with the other text. All this changes no other object. *)
Theorem string_search_spec self sep new s :
  (exists i, builtin "find" [pyString self; pyString sep] s = Ok (pyInt i, s) /\ finds self sep le i) /\
  (exists i, builtin "rfind" [pyString self; pyString sep] s = Ok (pyInt i, s) /\ finds self sep ge i) /\
  (exists b r, builtin "startswith" [pyString self; pyString sep] s = Ok (pyBool b, s) /\
     builtin "removeprefix" [pyString self; pyString sep] s = Ok (pyString r, s) /\
     (b = true <-> occurs_at self sep 0) /\ self = if b then sep +:+ r else r) /\
  (exists b r, builtin "endswith" [pyString self; pyString sep] s = Ok (pyBool b, s) /\
     builtin "removesuffix" [pyString self; pyString sep] s = Ok (pyString r, s) /\
     (b = true <-> exists a, self = a +:+ sep) /\ self = if b then r +:+ sep else r) /\
  (sep <> "" -> exists part parts l s',
     builtin "split" [pyString self; pyString sep] s = Ok (pyList l, s') /\ allocates s s' /\
     elements (hp s') l = map pyString (part :: parts) /\ Forall (fun p => contains p sep = false) (part :: parts) /\
     (parts <> [] -> builtin "find" [pyString self; pyString sep] s = Ok (pyInt (Z.of_nat (String.length part)), s)) /\
     builtin "join" [pyString sep; pyList l] s' = Ok (pyString self, s') /\
     builtin "count" [pyString self; pyString sep] s = Ok (pyInt (Z.of_nat (length parts)), s) /\
     builtin "replace" [pyString self; pyString sep; pyString new] s = Ok (pyString (join new (part :: parts)), s)).
Proof.
  split_and!.
  - eexists. split; [reflexivity|]. apply finds_first.
  - eexists. split; [reflexivity|]. apply finds_last.
  - eexists _, _. split_and!; [reflexivity..| |].
    + rewrite occurs_prefix. split; [intros; split; [lia|done]|by intros []].
    + unfold TrimPrefix. destruct (has_prefix self sep) eqn:E; [|done]. apply has_prefix_spec in E as [r ->]. by rewrite str_drop_app.
  - eexists _, _. split_and!; [reflexivity..|by rewrite has_suffix_spec|].
    unfold TrimSuffix. destruct (has_suffix self sep) eqn:E; [|done]. apply has_suffix_spec in E as [r ->].
    rewrite str_length_app, Nat.add_sub. by rewrite str_take_app.
  - intros Hne. destruct (split_join self sep s) as (l & parts & s' & H1 & H2 & H3 & H4 & _ & H5).
    assert (parts = split_on (String.length self) sep self) as ->.
    { destruct (new_list_spec (map pyString (Split self sep)) s) as (l0 & s0 & Hn & _ & _ & He & _).
      change (builtin "split" [pyString self; pyString sep] s) with (new_list (map pyString (Split self sep)) s) in H1.
      rewrite Hn in H1. injection H1 as -> ->. rewrite He in H3. unfold Split in H3. rewrite (proj2 (String.eqb_neq _ _) Hne) in H3.
      assert (Inj (=) (=) pyString) by (by intros ?? [= ->]). symmetry. exact (inj (fmap pyString) _ _ H3). }
    assert (forall n, exists part rest, split_on n sep self = part :: rest) as Hc.
    { intros [|n]; cbn; [eauto|]. destruct (index_str sep self); eauto. }
    destruct (Hc (String.length self)) as (part & rest & Hp). exists part, rest, l, s'. rewrite <- Hp.
    split_and!; [done|done|done|by apply H4| |done| |].
    + intros Hr. change (Ok (index_or (index_str sep self), s) = Ok (pyInt (Z.of_nat (String.length part)), s)).
      revert Hp. destruct (String.length self) as [|n]; cbn; [by intros [= <- <-]|].
      destruct (index_str sep self) as [i|] eqn:E; [|by intros [= <- <-]]. intros [= <- _]. cbn.
      apply index_str_Some in E as (_ & _ & Hl).
      by rewrite str_length_take by lia.
    + change (Ok (pyInt (Z.of_nat (Count self sep)), s) = Ok (pyInt (Z.of_nat (length rest)), s)).
      unfold Count. rewrite (proj2 (String.eqb_neq _ _) Hne), Hp. cbn. by rewrite Nat.sub_0_r.
    + change (Ok (pyString (ReplaceAll self sep new), s) = Ok (pyString (join new (split_on (String.length self) sep self)), s)).
      unfold ReplaceAll. by rewrite (proj2 (String.eqb_neq _ _) Hne).
Qed.

(** ** Characters *)

Lemma rune_values_EncodeRune r : valid_rune r -> rune_values (EncodeRune r) = [r].
Proof. intros H. unfold rune_values. by rewrite Runes_EncodeRune. Qed.

Lemma chr_int i s :
  chr [Some (pyInt i)] s =
  if (0 <=? i) && (i <=? 1114111) then Ok (pyString (EncodeRune i), s)
  else Err (EPanic "Argument i must be within the Unicode code point range").
Proof. unfold chr, Assert, mbind, I_bind. cbn. by destruct (_ && _). Qed.

Lemma ord_str c s :
  ord [Some (pyString c)] s =
  match rune_values c with
  | [r] => Ok (pyInt r, s)
  | _ => Err (EPanic "Argument c must be a string containing a single Unicode character")
  end.
Proof. unfold ord, mbind, I_bind. cbn. by destruct (rune_values c) as [|r [|]]. Qed.

(** [ord(chr(i))] is [i] for every code point that can be encoded, and the
    replacement character for half of a surrogate pair; outside the range of code
    points [chr] is an error. *)
Theorem ord_chr i s :
  (valid_rune i ->
     exists c, builtin "chr" [pyInt i] s = Ok (pyString c, s) /\ builtin "ord" [pyString c] s = Ok (pyInt i, s)) /\
  (55296 <= i <= 57343 ->
     exists c, builtin "chr" [pyInt i] s = Ok (pyString c, s) /\ builtin "ord" [pyString c] s = Ok (pyInt rune_error, s)) /\
  (i < 0 \/ 1114111 < i ->
     builtin "chr" [pyInt i] s = Err (EPanic "Argument i must be within the Unicode code point range")).
Proof.
  change (builtin "chr" [pyInt i] s) with (chr [Some (pyInt i)] s).
  assert (forall c, builtin "ord" [pyString c] s = ord [Some (pyString c)] s) as Ho by done.
  rewrite chr_int.
  assert (0 <= i <= 1114111 -> (0 <=? i) && (i <=? 1114111) = true) as Hin by lia.
  split_and!.
  - intros Hv. exists (EncodeRune i). rewrite Hin by apply Hv. split; [done|]. rewrite Ho. by rewrite ord_str, rune_values_EncodeRune.
  - intros Hs. exists (EncodeRune i). rewrite Hin by lia. split; [done|]. rewrite Ho, ord_str.
    replace (EncodeRune i) with (EncodeRune rune_error); [done|]. unfold EncodeRune.
    by rewrite (proj2 (orb_true_iff _ ((55296 <=? i) && (i <=? 57343)))) by lia.
  - intros Hout. by rewrite (proj2 (andb_false_iff _ _)) by lia.
Qed.

(** ** Types *)

(** The types of the arguments of the methods, as tags, and of what they return, as
    [rules/builtins.build_defs] declares them ([replace] declares no result). *)
Definition string_signatures : list (string * (list Z * string)) :=
  let str := type_tag "str" in
  let list_ := type_tag "list" in
  let int := type_tag "int" in
  [("join", ([str; list_], "str")); ("split", ([str; str], "list")); ("replace", ([str; str; str], "str"));
   ("partition", ([str; str], "list")); ("rpartition", ([str; str], "list"));
   ("startswith", ([str; str], "bool")); ("endswith", ([str; str], "bool"));
   ("ljust", ([str; int; str], "str")); ("rjust", ([str; int; str], "str"));
   ("lstrip", ([str; str], "str")); ("rstrip", ([str; str], "str")); ("strip", ([str; str], "str"));
   ("removeprefix", ([str; str], "str")); ("removesuffix", ([str; str], "str"));
   ("find", ([str; str], "int")); ("rfind", ([str; str], "int")); ("count", ([str; str], "int"));
   ("upper", ([str], "str")); ("lower", ([str], "str")); ("matches", ([str; str], "bool"))].

Definition has_tag (tag : Z) (o : pyObject) : Prop := Z.land (TypeTag o) tag <> 0.

Lemma has_tag_str o : has_tag (type_tag "str") o -> exists t, o = pyString t.
Proof. unfold has_tag. destruct o; cbn; try done. eauto. Qed.

Lemma has_tag_int o : has_tag (type_tag "int") o -> exists i, o = pyInt i.
Proof. unfold has_tag. destruct o; cbn; try done. eauto. Qed.

Lemma has_tag_list o : has_tag (type_tag "list") o -> exists l, o = pyList l \/ o = pyFrozenList l.
Proof. unfold has_tag. destruct o; cbn; try done; eauto. Qed.

(** The outcome of a method: a value of the type it declares, or one of the errors it
    raises itself. *)
Definition typed_outcome (name ret : string) (s : state) (r : res (pyObject * state)) : Prop :=
  match r with
  | Ok (o, s') => Type_ o = ret /\ allocates s s'
  | Err e =>
      (name ∈ ["ljust"; "rjust"] /\
         (e = EPanic "fillchar must be exactly one character long" \/ exists fill count, strings_Repeat fill count = Err e)) \/
      (name = "join" /\ e = EPanic "seq must be a list of strings") \/
      (name = "matches" /\ exists p self msg, regexp_match p self = inl msg /\ e = EPanic msg)
  | NoFuel => False
  end.

Lemma fromStringList_typed name parts s : typed_outcome name "list" s (fromStringList parts s).
Proof.
  unfold fromStringList. destruct (new_list_spec (map pyString parts) s) as (l & s' & -> & Ha & _). done.
Qed.

Lemma asStringList_typed l name s o :
  o = pyList l \/ o = pyFrozenList l ->
  (exists parts, asStringList o name s = Ok (parts, s)) \/
  asStringList o name s = Err (EPanic (name +:+ " must be a list of strings")).
Proof.
  intros Ho. assert (asStringList o name s = mapI (fun x => match x with
    | pyString s => iret s | _ => Error (name +:+ " must be a list of strings") end) (elements (hp s) l) s) as ->
    by (destruct Ho as [-> | ->]; done).
  induction (elements (hp s) l) as [|x xs IH]; cbn; [eauto|]. unfold mbind, I_bind. cbn.
  destruct x; cbn; eauto. destruct IH as [[parts ->]| ->]; cbn; eauto.
Qed.

Lemma join_typed self o l s :
  o = pyList l \/ o = pyFrozenList l ->
  typed_outcome "join" "str" s (builtin "join" [pyString self; o] s).
Proof.
  intros Ho. change (typed_outcome "join" "str" s (strJoin [Some (pyString self); Some o] s)). unfold strJoin.
  erewrite bind_I by reflexivity. erewrite bind_I by reflexivity.
  destruct (asStringList_typed l "seq" s o Ho) as [[parts He]|He].
  - erewrite bind_I by done. by split.
  - unfold mbind, I_bind. rewrite He. right; left. done.
Qed.

Lemma partition_typed self sep s :
  typed_outcome "partition" "list" s (builtin "partition" [pyString self; pyString sep] s) /\
  typed_outcome "rpartition" "list" s (builtin "rpartition" [pyString self; pyString sep] s).
Proof.
  change (typed_outcome "partition" "list" s (strPartition [Some (pyString self); Some (pyString sep)] s) /\
          typed_outcome "rpartition" "list" s (strRPartition [Some (pyString self); Some (pyString sep)] s)).
  unfold strPartition, strRPartition, cut_at. repeat (erewrite (bind_I (str_arg _ _)) by reflexivity).
  split; case_match; apply fromStringList_typed.
Qed.

Lemma strings_Repeat_total s n : strings_Repeat s n <> NoFuel.
Proof. unfold strings_Repeat. by repeat case_match. Qed.

Lemma strJust_eq self w fill left_ s :
  strJust [Some (pyString self); Some (pyInt w); Some (pyString fill)] left_ s =
  if (RuneCount fill =? 1)%nat then
    let count := wrap (w - Z.of_nat (RuneCount self)) in
    if count <=? 0 then Ok (pyString self, s)
    else pad ← strings_Repeat fill count; Ok (pyString (if left_ then self +:+ pad else pad +:+ self), s)
  else Err (EPanic "fillchar must be exactly one character long").
Proof.
  change (strJust [Some (pyString self); Some (pyInt w); Some (pyString fill)] left_ s) with
    ((Assert (RuneCount fill =? 1)%nat "fillchar must be exactly one character long";;
      let count := wrap (w - Z.of_nat (RuneCount self)) in
      if count <=? 0 then iret (pyString self)
      else
        pad ← (fun s => r ← strings_Repeat fill count; Ok (r, s));
        iret (pyString (if left_ then self +:+ pad else pad +:+ self))) s).
  unfold Assert. destruct (RuneCount fill =? 1)%nat; [|done].
  rewrite bind_iret. cbv zeta. destruct (_ <=? 0); [done|]. unfold mbind at 1, I_bind. by destruct (strings_Repeat _ _).
Qed.

Lemma just_typed name left_ self w fill s :
  name ∈ ["ljust"; "rjust"] ->
  typed_outcome name "str" s (strJust [Some (pyString self); Some (pyInt w); Some (pyString fill)] left_ s).
Proof.
  intros Hn. rewrite strJust_eq. destruct (_ =? 1)%nat; cbv zeta; [|left; auto].
  destruct (_ <=? 0); [split; [done|apply allocates_refl]|]. destruct (strings_Repeat _ _) as [pad|e|] eqn:E.
  - split; [done|apply allocates_refl].
  - left. eauto.
  - by destruct (strings_Repeat_total _ _ E).
Qed.

Lemma matches_typed self pattern s :
  typed_outcome "matches" "bool" s (builtin "matches" [pyString self; pyString pattern] s).
Proof.
  change (builtin "matches" [pyString self; pyString pattern] s) with
    (match regexp_match pattern self with inr b => iret (pyBool b) | inl e => Error e end s).
  destruct (regexp_match pattern self) as [msg|b] eqn:E.
  - right; right. eauto 10.
  - split; [done|apply allocates_refl].
Qed.

#[local] Ltac typed_args :=
  repeat match goal with
    | H : Forall2 has_tag (_ :: _) _ |- _ => apply Forall2_cons_inv_l in H as (? & ? & ? & H & ->)
    | H : Forall2 has_tag [] _ |- _ => apply Forall2_nil_inv_l in H as ->
    | H : has_tag (type_tag "str") _ |- _ => apply has_tag_str in H as [? ->]
    | H : has_tag (type_tag "int") _ |- _ => apply has_tag_int in H as [? ->]
    | H : has_tag (type_tag "list") _ |- _ => apply has_tag_list in H as [? H]
    end.

(** A method of strings, other than [format], that is called with arguments of the types it
    declares returns a value of the type it declares and changes nothing there was before, or
    raises its own error: a fill that is not one character or would be too long, a list to join
    with something other than strings, or a pattern that does not compile. It never fails
    in a conversion. *)
Theorem string_methods_typed name tags ret args s :
  (name, (tags, ret)) ∈ string_signatures -> Forall2 has_tag tags args ->
  typed_outcome name ret s (builtin name args s).
Proof.
  intros Hs Ht. unfold string_signatures in Hs.
  repeat (apply elem_of_cons in Hs as [[= -> -> ->]|Hs]); [..|by apply elem_of_nil in Hs]; typed_args.
  all: try (split; [done|apply allocates_refl]).
  - eapply join_typed; eassumption.
  - apply fromStringList_typed.
  - exact (proj1 (partition_typed _ _ _)).
  - exact (proj2 (partition_typed _ _ _)).
  - apply (just_typed "ljust" true). set_solver.
  - apply (just_typed "rjust" false). set_solver.
  - apply matches_typed.
Qed.
End strings.

Lemma string_methods_typed_witness :
  typed_outcome (fun _ _ => inr true) "join" "str" root
    (native (fun s _ _ => s) (fun _ n => n) 0 (fun _ _ => iret tt) (fun s => s) (fun s => s) (fun _ _ => inr true)
       (fun _ _ _ => None) (fun _ => true) (fun _ _ => inr true) (fun s => s) (fun _ _ _ => iret pyNone)
       (fun _ _ _ => iret pyNone) 1 0 (map Some [pyString ","; pyList (MkGslice 0 0 0 0)]) "join" root).
Proof.
  apply (string_methods_typed (fun s _ _ => s) (fun _ n => n) 0 (fun _ _ => iret tt) (fun s => s) (fun s => s)
    (fun _ _ => inr true) (fun _ _ _ => None) (fun _ => true) (fun _ _ => inr true) (fun s => s)
    (fun _ _ _ => iret pyNone) (fun _ _ _ => iret pyNone) 1 0 "join" [type_tag "str"; type_tag "list"] "str").
  - apply list_elem_of_here.
  - by repeat constructor.
Defined.
