(* ===== verification/BuiltinLists.v ===== *)
(** The builtin functions on lists and dicts of the BUILD language: [sorted] and
    [reversed] work in place, [min] and [max] find the first extreme, [items] gives
    back a dict; and programs that run with the builtins registered. *)
From S2P Require Import Prelude GoStrings Lexer GoText Labels Values Ast Parser Objects Interp Builtins BuiltinStrings.
From Stdlib Require Import Sorted Permutation.

#[local] Open Scope Z_scope.

(** ** Writing a list in place *)

Definition write (l : gslice) (xs : list pyObject) (s : state) : state :=
  set_heap (set_array (sl_arr l) (overwrite (sl_off l) xs (array_of (hp s) (sl_arr l))) (hp s)) s.

Lemma elements_write l xs s :
  valid (hp s) l -> length xs = sl_len l -> elements (hp (write l xs s)) l = xs.
Proof.
  intros [] Hl. unfold elements, write. cbn. rewrite array_set_eq, overwrite_at by lia.
  rewrite Nat.sub_diag, take_0. cbn. by rewrite <- Hl, take_app_length.
Qed.

Lemma elements_write_other l l' xs s :
  sl_arr l' <> sl_arr l -> elements (hp (write l xs s)) l' = elements (hp s) l'.
Proof. intros Hne. unfold elements, write. cbn. by rewrite array_set_ne by done. Qed.

Lemma valid_write l xs s : valid (hp s) l -> length xs = sl_len l -> valid (hp (write l xs s)) l.
Proof. intros [] Hl. split; cbn; [done| |done]. rewrite array_set_eq, overwrite_length; lia. Qed.

(** ** What [sort.Slice] promises *)

(** The state is [s], but for the order of the elements of [l]. *)
Definition arranged (l : gslice) (s s' : state) : Prop :=
  elements (hp s') l ≡ₚ elements (hp s) l /\ (s' = s \/ s' = write l (elements (hp s') l) s).

(** Given a comparison of indices that compares the elements there and does nothing
    else, it sorts the slice in place. *)
Definition Slice_contract (sort_Slice : gslice -> (nat -> nat -> I bool) -> I unit) : Prop :=
  forall l less lt s,
    valid (hp s) l -> weak_order lt (elements (hp s) l) ->
    (forall s' i j x y, arranged l s s' -> elements (hp s') l !! i = Some x -> elements (hp s') l !! j = Some y ->
       less i j s' = Ok (lt x y, s')) ->
    exists s', sort_Slice l less s = Ok (tt, s') /\ arranged l s s' /\
      StronglySorted (fun x y => lt y x = false) (elements (hp s') l).

(** *** A sort that keeps the promise: it inserts indices, then writes the elements *)

Fixpoint insert_index (less : nat -> nat -> I bool) (i : nat) (js : list nat) : I (list nat) :=
  match js with
  | [] => iret [i]
  | j :: js =>
      b ← less i j;
      if (b : bool) then iret (i :: j :: js) else js' ← insert_index less i js; iret (j :: js')
  end.

Fixpoint sort_indices (less : nat -> nat -> I bool) (is_ : list nat) : I (list nat) :=
  match is_ with
  | [] => iret []
  | i :: is_ => js ← sort_indices less is_; insert_index less i js
  end.

Definition insertion_sort (l : gslice) (less : nat -> nat -> I bool) : I unit :=
  is_ ← sort_indices less (seq 0 (sl_len l));
  xs ← mapI (elem l) is_;
  (fun s => Ok (tt, write l xs s)) : I unit.

Section insertion.
Context (lt : pyObject -> pyObject -> bool) (xs : list pyObject) (ord : weak_order lt xs).
Context (less : nat -> nat -> I bool) (s : state).
Context (less_spec : forall i j x y, xs !! i = Some x -> xs !! j = Some y -> less i j s = Ok (lt x y, s)).

#[local] Abbreviation at_ i x := (xs !! i = Some x).

Lemma insert_index_spec i x js ys :
  at_ i x -> Forall2 (fun j y => at_ j y) js ys -> StronglySorted (fun x y => lt y x = false) ys ->
  exists js' ys', insert_index less i js s = Ok (js', s) /\ Forall2 (fun j y => at_ j y) js' ys' /\
    js' ≡ₚ i :: js /\ ys' ≡ₚ x :: ys /\ StronglySorted (fun x y => lt y x = false) ys'.
Proof.
  intros Hx. revert ys. induction js as [|j js IH]; intros ys Hys Hs; inversion Hys as [|? y ? ys' Hy Hys']; subst.
  - exists [i], [x]. split_and!; try done; repeat constructor; done.
  - cbn. unfold mbind, I_bind. rewrite (less_spec i j x y) by done. cbn.
    apply StronglySorted_inv in Hs as [Hs Hall].
    assert (forall z, z ∈ ys' -> z ∈ xs) as Hin.
    { intros z Hz. apply list_elem_of_lookup in Hz as [k Hk].
      destruct (Forall2_lookup_r _ _ _ _ _ Hys' Hk) as (? & _ & Hz). by eapply list_elem_of_lookup_2. }
    assert (x ∈ xs /\ y ∈ xs) as [Hxi Hyi] by (split; by eapply list_elem_of_lookup_2).
    destruct (lt x y) eqn:E; cbn.
    + exists (i :: j :: js), (x :: y :: ys'). split_and!; [done|by repeat constructor|done|done|].
      constructor; [by constructor|]. constructor; [by apply (order_asym _ _ ord)|].
      rewrite Forall_forall in Hall |- *. intros z Hz.
      apply (order_negative _ _ ord z y x); auto. by apply (order_asym _ _ ord).
    + destruct (IH ys' Hys' Hs) as (js1 & ys1 & -> & H1 & H2 & H3 & H4). cbn.
      exists (j :: js1), (y :: ys1). split_and!; [done|by constructor| | |].
      * rewrite H2. apply Permutation_swap.
      * rewrite H3. apply Permutation_swap.
      * constructor; [done|]. rewrite H3. by constructor.
Qed.

Lemma sort_indices_spec is_ xs0 :
  Forall2 (fun j y => at_ j y) is_ xs0 ->
  exists js ys, sort_indices less is_ s = Ok (js, s) /\ Forall2 (fun j y => at_ j y) js ys /\
    ys ≡ₚ xs0 /\ StronglySorted (fun x y => lt y x = false) ys.
Proof.
  revert xs0. induction is_ as [|i is_ IH]; intros xs0 Hxs; inversion Hxs as [|? x ? xs1 Hx Hxs1]; subst; cbn.
  - exists [], []. split_and!; try done. constructor.
  - destruct (IH xs1 Hxs1) as (js & ys & Hjs & H1 & H2 & H3). unfold mbind, I_bind. rewrite Hjs. cbn.
    destruct (insert_index_spec i x js ys Hx H1 H3) as (js' & ys' & Hi & H4 & _ & H5 & H6).
    exists js', ys'. split_and!; try done. by rewrite H5, H2.
Qed.
End insertion.

Lemma elem_at l i x s : elements (hp s) l !! i = Some x -> elem l i s = Ok (x, s).
Proof. unfold elem. by intros ->. Qed.

Lemma mapI_elem l js ys s :
  Forall2 (fun j y => elements (hp s) l !! j = Some y) js ys -> mapI (elem l) js s = Ok (ys, s).
Proof.
  induction 1 as [|j y js ys Hj _ IH]; cbn; [done|].
  by rewrite (bind_I _ _ _ _ _ (elem_at _ _ _ _ Hj)), (bind_I _ _ _ _ _ IH).
Qed.

Lemma Forall2_seq {A} (xs : list A) k :
  Forall2 (fun j y => xs !! (j - k)%nat = Some y) (seq k (length xs)) xs.
Proof.
  apply Forall2_same_length_lookup_2; [by rewrite length_seq|].
  intros i j y Hj Hy. apply lookup_seq in Hj as [-> _]. by replace (k + i - k)%nat with i by lia.
Qed.

Lemma insertion_sort_contract : Slice_contract insertion_sort.
Proof.
  intros l less lt s Hv Hord Hless.
  destruct (sort_indices_spec lt (elements (hp s) l) Hord less s) with (is_ := seq 0 (sl_len l)) (xs0 := elements (hp s) l)
    as (js & ys & Hjs & H1 & H2 & H3).
  - intros. apply Hless; [|done..]. split; [done|by left].
  - rewrite <- (elements_length _ _ Hv). eapply Forall2_impl; [apply Forall2_seq|]. cbn. intros i y. by rewrite Nat.sub_0_r.
  - assert (length ys = sl_len l) as Hlen.
    { rewrite <- (elements_length _ _ Hv). by apply Permutation_length. }
    exists (write l ys s). unfold insertion_sort.
    rewrite (bind_I _ _ _ _ _ Hjs), (bind_I _ _ _ _ _ (mapI_elem l js ys s H1)).
    unfold arranged. rewrite !(elements_write l ys s) by done. by split_and!; [..|right|].
Qed.

(** ** Values that can be compared *)

Definition is_int (o : pyObject) : Prop := exists i, o = pyInt i.
Definition is_str (o : pyObject) : Prop := exists t, o = pyString t.
Definition comparable (xs : list pyObject) : Prop := Forall is_int xs \/ Forall is_str xs.

(** [<] on integers and on strings. *)
Definition value_lt (x y : pyObject) : bool :=
  match x, y with
  | pyInt a, pyInt b => a <? b
  | pyString a, pyString b => str_ltb a b
  | _, _ => false
  end.

Lemma str_ltb_negative a b c : str_ltb a b = false -> str_ltb b c = false -> str_ltb a c = false.
Proof.
  intros H1 H2. destruct (decide (a = b)) as [->|Hne]; [done|].
  destruct (str_ltb a c) eqn:E; [|done].
  assert (str_ltb b a = true) as H3 by (rewrite (str_ltb_total a b) in H1 by done; by destruct (str_ltb b a)).
  by rewrite (str_ltb_trans _ _ _ H3 E) in H2.
Qed.

Lemma str_ltb_asym a b : str_ltb a b = true -> str_ltb b a = false.
Proof.
  intros H1. destruct (str_ltb b a) eqn:E; [|done]. by rewrite <- (str_ltb_irrefl a), (str_ltb_trans _ _ _ H1 E).
Qed.

(** By [value_lt], or by its reverse. *)
Definition value_order (reverse : bool) (x y : pyObject) : bool := if reverse then value_lt y x else value_lt x y.

Lemma value_weak_order reverse xs : comparable xs -> weak_order (value_order reverse) xs.
Proof.
  unfold comparable. rewrite !Forall_forall. intros Hc.
  assert (forall x y, x ∈ xs -> y ∈ xs -> value_lt x y = true -> value_lt y x = false) as Ha.
  { intros x y Hx Hy. destruct Hc as [Hc|Hc]; destruct (Hc x Hx) as [? ->], (Hc y Hy) as [? ->]; cbn; [lia|].
    apply str_ltb_asym. }
  assert (forall x y z, x ∈ xs -> y ∈ xs -> z ∈ xs -> value_lt x y = false -> value_lt y z = false -> value_lt x z = false) as Hn.
  { intros x y z Hx Hy Hz. destruct Hc as [Hc|Hc]; destruct (Hc x Hx) as [? ->], (Hc y Hy) as [? ->], (Hc z Hz) as [? ->];
      cbn; [lia|]. apply str_ltb_negative. }
  split; destruct reverse; cbn; eauto.
Qed.

(** An element of [xs], and one of its list. *)
Lemma comparable_lookup xs x y :
  comparable xs -> x ∈ xs -> y ∈ xs -> (is_int x /\ is_int y) \/ (is_str x /\ is_str y).
Proof. unfold comparable. rewrite !Forall_forall. naive_solver. Qed.

Section lists.
Context (Sprintf : string -> list pyObject -> heap -> string).
Context (grow : nat -> nat -> nat).
Context (unrepresentable : Z).
Context (sort_Slice : gslice -> (nat -> nat -> I bool) -> I unit).
Context (unicode_upper unicode_lower : string -> string).
Context (regexp_match : string -> string -> string + bool).
Context (Marshal : bool -> heap -> pyObject -> option string).
Context (strict_version : string -> bool).
Context (check_version : string -> string -> string + bool).
Context (Atoi_error : string -> string).
Context (other : string -> nat -> list (option pyObject) -> I pyObject).
Context (call_function : nat -> pyObject -> list pyObject -> I pyObject).
Context (fuel sc : nat).

#[local] Abbreviation builtin name args :=
  (native Sprintf grow unrepresentable sort_Slice unicode_upper unicode_lower regexp_match Marshal strict_version
    check_version Atoi_error other call_function (S fuel) sc (map Some args) name).

Lemma compare_values (reverse : bool) x y s :
  (is_int x /\ is_int y) \/ (is_str x /\ is_str y) ->
  Builtins.compare Sprintf grow unrepresentable (S fuel) (if reverse then Op.GreaterThan else Op.LessThan) x y s =
    Ok (value_order reverse x y, s).
Proof.
  intros [[[a ->] [b ->]]|[[a ->] [b ->]]]; destruct s, reverse; done.
Qed.

(** C39: Given what Go promises of [sort.Slice], [sorted] on integers or on strings
    puts the elements in order, descending when it is asked to reverse them, in the
    list it is given, which is also what it returns; no list of another array changes. *)
Theorem sorted_spec l (reverse : bool) s :
  Slice_contract sort_Slice -> valid (hp s) l -> comparable (elements (hp s) l) ->
  exists s', builtin "sorted" [pyList l; pyNone; pyBool reverse] s = Ok (pyList l, s') /\
    elements (hp s') l ≡ₚ elements (hp s) l /\
    StronglySorted (fun x y => value_order reverse y x = false) (elements (hp s') l) /\
    forall l', sl_arr l' <> sl_arr l -> elements (hp s') l' = elements (hp s) l'.
Proof.
  intros Hsort Hv Hc.
  destruct (Hsort l (sort_less Sprintf grow unrepresentable call_function (S fuel) sc l None
    (if reverse then Op.GreaterThan else Op.LessThan)) (value_order reverse) s) as (s' & Hs & [Hp Ha] & Hsorted).
  - done.
  - by apply value_weak_order.
  - intros s1 i j x y [Hp _] Hx Hy. unfold sort_less.
    rewrite (bind_I _ _ _ _ _ (elem_at _ _ _ _ Hx)), (bind_I _ _ _ _ _ (elem_at _ _ _ _ Hy)).
    apply compare_values, (comparable_lookup (elements (hp s) l)); [done|..]; rewrite <- Hp; by eapply list_elem_of_lookup_2.
  - exists s'. split_and!; try done.
    + change (builtin "sorted" [pyList l; pyNone; pyBool reverse] s) with
        ((sort_Slice l (sort_less Sprintf grow unrepresentable call_function (S fuel) sc l None
            (if reverse then Op.GreaterThan else Op.LessThan));; iret (pyList l)) s).
      by rewrite (bind_I _ _ _ _ _ Hs).
    + intros l' Hne. destruct Ha as [->|Ha]; [done|]. rewrite Ha. by apply elements_write_other.
Qed.

(** [reversed] reverses in place. *)
Lemma reversed_spec l s :
  valid (hp s) l ->
  exists s', builtin "reversed" [pyList l] s = Ok (pyList l, s') /\ elements (hp s') l = rev (elements (hp s) l).
Proof.
  intros Hv. exists (write l (rev (elements (hp s) l)) s). split; [done|].
  apply elements_write; [done|]. by rewrite length_rev, elements_length.
Qed.

(** ** Extremes *)

Definition best_of (xs : list pyObject) (reverse : bool) (best : option (pyObject * pyObject)) : Prop :=
  match best with
  | None => xs = []
  | Some (c, r) =>
      c = r /\ exists i, xs !! i = Some r /\
        (forall j y, xs !! j = Some y -> value_order reverse y r = false) /\
        (forall j y, (j < i)%nat -> xs !! j = Some y -> value_order reverse r y = true)
  end.

(** The loop of [extreme] without a key. *)
Definition extreme_step (reverse : bool) (best : option (pyObject * pyObject)) (li : pyObject) : I (option (pyObject * pyObject)) :=
  cli ← iret li;
  match best with
  | None => iret (Some (cli, li))
  | Some (cret, ret) =>
      b ← Builtins.compare Sprintf grow unrepresentable (S fuel) (if reverse then Op.GreaterThan else Op.LessThan) cli cret;
      iret (Some (if (b : bool) then (cli, li) else (cret, ret)))
  end.

Lemma extreme_step_best reverse xs best li s :
  comparable (xs ++ [li]) -> best_of xs reverse best ->
  exists best', extreme_step reverse best li s = Ok (best', s) /\ best_of (xs ++ [li]) reverse best'.
Proof.
  intros Hc Hb. pose proof (value_weak_order reverse _ Hc) as Hord.
  assert (li ∈ xs ++ [li]) as Hli by set_solver.
  assert (value_order reverse li li = false) as Hirr.
  { destruct (value_order reverse li li) eqn:E; [|done]. rewrite <- E. by apply (order_asym _ _ Hord). }
  destruct best as [[c r]|]; cbn in Hb.
  - destruct Hb as (-> & i & Hi & Hle & Hlt). assert (r ∈ xs) as Hr by (by eapply list_elem_of_lookup_2).
    unfold extreme_step. rewrite bind_iret.
    assert (r ∈ xs ++ [li]) as Hr' by set_solver.
    rewrite (bind_I _ _ _ _ _ (compare_values reverse li r s (comparable_lookup _ li r Hc Hli Hr'))).
    eexists. split; [done|]. destruct (value_order reverse li r) eqn:E; cbn; split; try done.
    + exists (length xs). rewrite lookup_app_r, Nat.sub_diag by lia. split_and!; [done|..].
      * intros j y [Hj|[Hj Hy]]%lookup_app_Some.
        { apply (order_negative _ _ Hord y r li); [|done|done|eauto|by apply (order_asym _ _ Hord)].
          apply elem_of_app. left. by eapply list_elem_of_lookup_2. }
        { destruct (j - length xs)%nat; [|done]. by injection Hy as <-. }
      * intros j y Hj Hy. rewrite lookup_app_l in Hy by done.
        assert (y ∈ xs ++ [li]) as Hyin by (apply elem_of_app; left; by eapply list_elem_of_lookup_2).
        destruct (value_order reverse li y) eqn:E2; [done|].
        by rewrite (order_negative _ _ Hord li y r) in E by eauto.
    + exists i. rewrite lookup_app_l by (by eapply lookup_lt_Some). split_and!; [done|..].
      * intros j y [Hj|[Hj Hy]]%lookup_app_Some; [eauto|]. destruct (j - length xs)%nat; [|done]. by injection Hy as <-.
      * intros j y Hj Hy. rewrite lookup_app_l in Hy; [eauto|]. apply lookup_lt_Some in Hi. lia.
  - subst xs. eexists. split; [done|]. split; [done|]. exists 0%nat. split_and!; [done| |intros; lia].
    intros [|j] y [= <-]; done.
Qed.

(** A loop whose body leaves the state alone, with an invariant of what it has seen. *)
Lemma each_inv {A} (l : gslice) (body : A -> pyObject -> I A) (J : list pyObject -> A -> Prop) s :
  (forall done x acc, done ++ [x] `prefix_of` elements (hp s) l -> J done acc ->
     exists acc', body acc x s = Ok (acc', s) /\ J (done ++ [x]) acc') ->
  forall n i acc, (i + n = length (elements (hp s) l))%nat -> J (take i (elements (hp s) l)) acc ->
  exists acc', each n i l body acc s = Ok (acc', s) /\ J (elements (hp s) l) acc'.
Proof.
  intros Hbody. induction n as [|n IH]; intros i acc Hn HJ; cbn [each].
  - exists acc. split; [done|]. by rewrite take_ge in HJ by lia.
  - destruct (lookup_lt_is_Some_2 (elements (hp s) l) i) as [x Hx]; [lia|].
    rewrite (bind_I _ _ _ _ _ (elem_at _ _ _ _ Hx)).
    destruct (Hbody (take i (elements (hp s) l)) x acc) as (acc' & Hb & HJ'); [|done|].
    + rewrite <- take_S_r by done. apply prefix_take.
    + rewrite (bind_I _ _ _ _ _ Hb). apply IH; [lia|]. by rewrite (take_S_r _ _ _ Hx).
Qed.

Lemma comparable_prefix xs ys : xs `prefix_of` ys -> comparable ys -> comparable xs.
Proof. intros [zs ->] [H|H]; [left|right]; by apply Forall_app in H as [? _]. Qed.

(** [min] (and [max]) of integers or strings without a key returns the first of the
    least (the greatest), and does nothing else; of an empty list it is an error. *)
Theorem extreme_spec (reverse : bool) l s :
  valid (hp s) l -> comparable (elements (hp s) l) ->
  (sl_len l = 0%nat ->
     builtin (if reverse then "max" else "min") [pyList l; pyNone] s =
       Err (EPanic "Argument seq must contain at least one item")) /\
  (sl_len l <> 0%nat ->
     exists i x, builtin (if reverse then "max" else "min") [pyList l; pyNone] s = Ok (x, s) /\
       elements (hp s) l !! i = Some x /\
       (forall y, y ∈ elements (hp s) l -> value_order reverse y x = false) /\
       (forall j y, (j < i)%nat -> elements (hp s) l !! j = Some y -> value_order reverse x y = true)).
Proof.
  intros Hv Hc.
  assert (builtin (if reverse then "max" else "min") [pyList l; pyNone] s =
    (Assert (0 <? sl_len l)%nat "Argument seq must contain at least one item";;
     r ← over l (extreme_step reverse) None;
     iret (match r with Some (_, ret) => ret | None => pyNone end)) s) as -> by (destruct reverse; done).
  unfold Assert. split; intros Hl; [by rewrite Hl|].
  rewrite (proj2 (Nat.ltb_lt 0 (sl_len l))) by lia. rewrite bind_iret.
  destruct (each_inv l (extreme_step reverse) (fun done best => best_of done reverse best) s) with
    (n := sl_len l) (i := 0%nat) (acc := @None (pyObject * pyObject)) as (best & He & Hb).
  - intros dn x acc Hp Hb. apply extreme_step_best; [|done]. by eapply comparable_prefix.
  - by rewrite elements_length.
  - done.
  - unfold over. rewrite (bind_I _ _ _ _ _ He). destruct best as [[c r]|]; cbn in Hb.
    + destruct Hb as (-> & i & Hi & H1 & H2). exists i, r. split_and!; try done.
      intros y [j Hj]%list_elem_of_lookup. eauto.
    + rewrite <- (elements_length _ _ Hv), Hb in Hl. done.
Qed.

(** ** Dicts *)

Lemma dict_Keys_spec m :
  StronglySorted (fun a b => str_ltb a b = true) (dict_Keys m) /\ forall k, k ∈ dict_Keys m <-> is_Some (m !! k).
Proof.
  unfold dict_Keys. split.
  - assert (NoDup (merge_sort (fun a b => str_ltb a b \/ a = b) (map fst (map_to_list m)))) as Hn.
    { rewrite merge_sort_Permutation. apply NoDup_fst_map_to_list. }
    assert (StronglySorted (fun a b => str_ltb a b \/ a = b) (merge_sort (fun a b => str_ltb a b \/ a = b) (map fst (map_to_list m)))) as Hs.
    { apply StronglySorted_merge_sort.
      - intros a b c [H1| ->] [H2| ->]; auto. left. apply Is_true_true in H1, H2. apply Is_true_true. by eapply str_ltb_trans.
      - intros a b. destruct (decide (a = b)); [by left; right|].
        rewrite (str_ltb_total a b) by done. destruct (str_ltb b a) eqn:E; [by right; left|by left; left]. }
    revert Hn Hs. generalize (merge_sort (fun a b => str_ltb a b \/ a = b) (map fst (map_to_list m))).
    intros l Hn Hs. induction Hs as [|a l Hs IH Ha]; [constructor|].
    apply NoDup_cons in Hn as [Hni Hn]. constructor; [auto|].
    rewrite Forall_forall in Ha |- *. intros b Hb. destruct (Ha b Hb) as [H| ->]; [by apply Is_true_true in H|done].
  - intros k. rewrite merge_sort_Permutation, list_elem_of_fmap. split.
    + intros ([k' v] & -> & Hv%elem_of_map_to_list). by eexists.
    + intros [v Hv]. exists (k, v). split; [done|]. by apply elem_of_map_to_list.
Qed.

(** The rows of [items]: each a new list of a key and its value. *)
Definition row_of (m : gmap string pyObject) (s : state) (row : pyObject) (k : string) : Prop :=
  exists l v, row = pyList l /\ valid (hp s) l /\ m !! k = Some v /\ elements (hp s) l = [pyString k; v].

Lemma row_of_allocates m s s' row k : allocates s s' -> row_of m s row k -> row_of m s' row k.
Proof.
  intros Ha (l & v & -> & Hv & Hk & He). destruct (allocates_elements _ _ _ Ha Hv) as [Hv' He'].
  exists l, v. split_and!; try done. by rewrite He'.
Qed.

Lemma items_rows m keys s :
  (forall k, k ∈ keys -> is_Some (m !! k)) ->
  exists rows s', mapI (fun k => v ← at_key m k; item_pair k v) keys s = Ok (rows, s') /\ allocates s s' /\
    Forall2 (row_of m s') rows keys.
Proof.
  revert s. induction keys as [|k keys IH]; intros s Hk.
  - exists [], s. split_and!; [done|apply allocates_refl|done].
  - destruct (Hk k) as [v Hv]; [set_solver|].
    destruct (new_list_spec [pyString k; v] s) as (l & s1 & Hn & Ha & Hvl & He & _).
    destruct (IH s1) as (rows & s2 & Hr & Ha2 & Hrows); [set_solver|].
    exists (pyList l :: rows), s2.
    assert ((v ← at_key m k; item_pair k v) s = Ok (pyList l, s1)) as Hrow.
    { unfold at_key. rewrite Hv. done. }
    cbn [mapI]. rewrite (bind_I _ _ _ _ _ Hrow), (bind_I _ _ _ _ _ Hr). split_and!; [done|by eapply allocates_trans|].
    constructor; [|done]. eapply row_of_allocates; [done|]. exists l, v. done.
Qed.

(** [items] of a dict returns a new list of pairs of a key and its value, in the
    order of the keys, that together are the dict: a key is among them exactly if it is
    in the dict, once, with its value there. [keys] returns the keys in that order. *)
Theorem items_spec d s :
  let m := dict_of (hp s) d in
  exists l s' keys l2 s2,
    builtin "items" [pyDict d] s = Ok (pyList l, s') /\ allocates s s' /\
    Forall2 (row_of m s') (elements (hp s') l) keys /\
    builtin "keys" [pyDict d] s = Ok (pyList l2, s2) /\ elements (hp s2) l2 = map pyString keys /\
    StronglySorted (fun a b => str_ltb a b = true) keys /\ forall k, k ∈ keys <-> is_Some (m !! k).
Proof.
  intros m. destruct (dict_Keys_spec m) as [Hs Hk].
  destruct (items_rows m (dict_Keys m) s) as (rows & s1 & Hr & Ha & Hrows); [by intros; apply Hk|].
  destruct (new_list_spec rows s1) as (l & s2 & Hn & Ha2 & _ & He & _).
  destruct (new_list_spec (map pyString (dict_Keys m)) s) as (l2 & s3 & Hn3 & _ & _ & He3 & _).
  exists l, s2, (dict_Keys m), l2, s3. split_and!; try done.
  - change (builtin "items" [pyDict d] s) with
      ((items ← mapI (fun k => v ← at_key m k; item_pair k v) (dict_Keys m); new_list items) s).
    by rewrite (bind_I _ _ _ _ _ Hr).
  - by eapply allocates_trans.
  - rewrite He. eapply Forall2_impl; [done|]. intros. by eapply row_of_allocates.
Qed.
End lists.

(** ** Examples *)

(** The builtins, with simple functions for what is not in the repository. *)
Abbreviation plain_native := (native (fun s _ _ => s) (fun _ n => n) 0 insertion_sort (fun s => s) (fun s => s)
  (fun _ _ => inr true) (fun _ _ _ => None) (fun _ => true) (fun _ _ => inr true) (fun s => s)
  (fun _ _ _ => iret pyNone) (fun _ _ _ => iret pyNone)).

(** A state with the list [3, 1, 2]. *)
Definition three : list pyObject := [pyInt 3; pyInt 1; pyInt 2].
Definition list_state : state := set_heap (MkHeap {[ 0%nat := three ]} ∅ ∅ 4) root.
Definition three_list : gslice := MkGslice 0 0 3 3.

Lemma three_valid : valid (hp list_state) three_list.
Proof. split; [apply le_n..|]. by apply Nat.ltb_lt. Qed.

Lemma three_comparable : comparable (elements (hp list_state) three_list).
Proof. left. repeat constructor; by eexists. Qed.

Lemma sorted_spec_witness :
  exists s', plain_native 5 0 (map Some [pyList three_list; pyNone; pyBool true]) "sorted" list_state
    = Ok (pyList three_list, s') /\
    elements (hp s') three_list ≡ₚ three /\
    StronglySorted (fun x y => value_order true y x = false) (elements (hp s') three_list) /\
    forall l', sl_arr l' <> 0%nat -> elements (hp s') l' = elements (hp list_state) l'.
Proof.
  apply (sorted_spec (fun s _ _ => s) (fun _ n => n) 0 insertion_sort (fun s => s) (fun s => s)
    (fun _ _ => inr true) (fun _ _ _ => None) (fun _ => true) (fun _ _ => inr true) (fun s => s)
    (fun _ _ _ => iret pyNone) (fun _ _ _ => iret pyNone) 4 0 three_list true list_state).
  - apply insertion_sort_contract.
  - apply three_valid.
  - apply three_comparable.
Defined.

Lemma extreme_spec_witness :
  exists i x, plain_native 5 0 (map Some [pyList three_list; pyNone]) "min" list_state = Ok (x, list_state) /\
    three !! i = Some x /\ (forall y, y ∈ three -> value_lt y x = false) /\
    (forall j y, (j < i)%nat -> three !! j = Some y -> value_lt x y = true).
Proof.
  apply (extreme_spec (fun s _ _ => s) (fun _ n => n) 0 insertion_sort (fun s => s) (fun s => s)
    (fun _ _ => inr true) (fun _ _ _ => None) (fun _ => true) (fun _ _ => inr true) (fun s => s)
    (fun _ _ _ => iret pyNone) (fun _ _ _ => iret pyNone) 4 0 false three_list list_state).
  - apply three_valid.
  - apply three_comparable.
  - done.
Defined.

(** *** Programs with the builtins registered *)

Definition lines (l : list string) : string := join newline l +:+ newline.

(** Some of the declarations of [rules/builtins.build_defs]. *)
Definition declarations : string := lines
  ["def len(obj:list|dict|str) -> int:"; "    pass";
   "def zip(args):"; "    pass";
   "def isinstance(obj, types:function|list) -> bool:"; "    pass";
   "def int(s:str) -> int:"; "    pass";
   "def join(self:str, seq:list) -> str:"; "    pass";
   "def split(self:str, on:str=' ') -> list:"; "    pass";
   "def find(self:str, needle:str) -> int:"; "    pass";
   "def format(self:str) -> str:"; "    pass";
   "def sorted(seq:list, key:function=None, reverse:bool=False) -> list:"; "    pass";
   "def get(self:dict, key:str, default=None):"; "    pass";
   "def setdefault(self:config, key:str, default=None) -> config:";
   "    if key in self:"; "        return self[key]"; "    self[key] = default"; "    return default"].

Definition register (sc : nat) : I (gmap string nat * gmap string nat) :=
  iterI (fun '(name, varargs, kwargs) => setNativeCode sc name varargs kwargs;; iret tt)
    [("len", false, false); ("zip", true, false); ("isinstance", false, false); ("int", false, false);
     ("sorted", false, false)];;
  strs ← registerMethods sc [("join", "join"); ("split", "split"); ("find", "find"); ("format", "format")];
  sd ← setdefault_method sc;
  dicts ← registerMethods sc [("get", "get")];
  iret (strs, <["setdefault" := sd]> dicts).

(** The variable [x] after a program. *)
Definition run_with_builtins (fuel : nat) (program : string) : res string :=
  decls ← parseFileInput no_runes declarations;
  '(_, s) ← exec (run (fun s _ _ => s) (fun _ n => n) 0 (fun _ _ _ => iret pyNone) ∅ ∅ ∅ false fuel) 0 decls root;
  '((strs, dicts), s) ← register 0 s;
  stmts ← parseFileInput no_runes program;
  let builtins := natives (fun s _ _ => s) (fun _ n => n) 0 insertion_sort (fun s => s) (fun s => s)
    (fun _ _ => inr true) (fun _ _ _ => None) (fun _ => true) (fun _ _ => inr true) (fun s => s)
    (fun _ _ _ => iret pyNone) strs dicts ∅ false fuel in
  '(_, s) ← exec (run (fun s _ _ => s) (fun _ n => n) 0 builtins strs dicts ∅ false fuel) 0 stmts s;
  match locals_of s 0 !! "x" with Some o => to_str fuel (hp s) o | None => Err EIndex end.

Lemma builtins_run :
  run_with_builtins 30 (lines ["x = '{} and {b}: {}'.format('a', len([1, 2]), b = 'c')"]) = Ok "a and c: 2" /\
  run_with_builtins 30 (lines ["x = zip(['a', 'b'], ['c', 'd'])"]) = Ok "[[a c] [b d]]" /\
  run_with_builtins 30 (lines ["x = sorted(['bb', 'c', 'aaa'], key = lambda s: len(s))"]) = Ok "[c bb aaa]".
Proof. split_and!; by vm_compute. Qed.

(** [sorted] returns the list it is given, sorted. *)
Lemma sorted_in_place : run_with_builtins 30 (lines ["x = ['b', 'a']"; "sorted(x)"]) = Ok "[a b]".
Proof. by vm_compute. Qed.

(** [setdefault] is declared on configurations, so that it fails on dicts. *)
Lemma dict_setdefault_fails :
  run_with_builtins 30 (lines ["d = {}"; "x = d.setdefault('k', 'v')"]) =
    Err (EPanic "Invalid type for argument self to setdefault; expected config, was dict").
Proof. by vm_compute. Qed.

(** A list is an instance of any list of types. *)
Lemma list_is_instance : run_with_builtins 30 (lines ["x = isinstance([], [int])"]) = Ok "True".
Proof. by vm_compute. Qed.

(** [None] passes for an argument that has no default, and is converted. *)
Lemma None_is_converted :
  run_with_builtins 30 (lines ["x = 'a'.find(None)"]) =
    Err (EPanic "interface conversion: asp.pyObject is asp.pyNone, not asp.pyString").
Proof. by vm_compute. Qed.

(** The error of [zip] names the wrong type. *)
Lemma zip_error : run_with_builtins 30 (lines ["x = zip(1)"]) = Err (EPanic "Arguments to zip must be lists, not list").
Proof. by vm_compute. Qed.
