(* ===== verification/BuildRules.v ===== *)
(** Creating targets: [src/parse/asp/targets.go], with [build_rule] of
    [src/parse/asp/builtins.go] and the parsing of labels in a package of
    [src/parse/asp/interpreter.go].

    The arguments of [build_rule] are values of the BUILD language, read from the
    interpreter's state; nothing here changes that state, so that the functions return
    a result directly.  What they change is the target they make, the package it is
    added to and the graph.  A dict is ranged over in the order [range_order] gives. *)
From S2P Require Import Prelude GoStrings Labels Cmap Targets Graph Inputs Lexer GoText Values Ast Parser Objects Interp Builtins.
From Stdlib Require Import Ascii.

#[local] Open Scope Z_scope.

(** ** The configuration *)

(** What is read of the state and its configuration. Timeouts are in nanoseconds. *)
Record settings := MkSettings {
  Bazel_Compatibility : bool;
  Size : gmap string Z;
  Build_Timeout : Z;
  Test_Timeout : Z;
  Build_Config : string;
  ExcludeableTargets : list BuildLabel;
  ExperimentalDir : list string;
  config_Path : list string;
  HostArch : string;
  CurrentSubrepo : string;
  PluginName : string;
}.

Definition assert (b : bool) (msg : string) : res unit := guard_res b (EPanic msg).

(** ** Labels in a package *)

Section labels.
Context (c : settings).

Definition parseLabelInPackage (label : string) (pkg : Package) : res BuildLabel :=
  let '(p, name, subrepo) := ParseBuildLabelParts label (pkg_Name pkg) (SubrepoName pkg) in
  if String.eqb name "" then ParseBuildLabel label (pkg_Name pkg)
  else
    let '(subrepo, subrepoArch) := SplitSubrepoArch subrepo in
    let subrepo := if String.eqb subrepo (HostArch c) then "" else subrepo in
    let subrepoArch := if String.eqb subrepoArch (HostArch c) then "" else subrepoArch in
    let subrepo :=
      if String.eqb (CurrentSubrepo c) "" && String.eqb subrepo (PluginName c) then "" else subrepo in
    let '(subrepo, subrepoArch) :=
      if String.eqb subrepo "" && String.eqb subrepoArch "" && negb (String.eqb (SubrepoName pkg) "")
           && (negb (has_prefix label "@") && negb (has_prefix label "///"))
      then SplitSubrepoArch (SubrepoName pkg) else (subrepo, subrepoArch) in
    let pkgArch :=
      match pkg_Subrepo pkg with
      | Some s => if String.eqb (sub_Arch s) (HostArch c) then "" else sub_Arch s
      | None => ""
      end in
    let subrepo :=
      if String.eqb subrepoArch "" && negb (String.eqb pkgArch "") && negb (String.eqb pkgArch subrepo)
      then pkg_SubrepoArchName pkg subrepo else subrepo in
    Ok (MkBuildLabel p name (JoinSubrepoArch subrepo subrepoArch)).

Definition parseAnnotatedLabelInPackage (label : string) (pkg : Package) : res BuildInput :=
  let '(label, annotation) := SplitLabelAnnotation label in
  l ← parseLabelInPackage label pkg;
  Ok (if String.eqb annotation "" then LabelInput l else AnnotatedOutputLabel l annotation).

Definition assertNotPseudoLabel (label : BuildLabel) : res BuildLabel :=
  assert (negb (IsAllTargets label)) ":all labels are not permitted here";;
  assert (negb (IsAllSubpackages label)) "... labels are not permitted here";;
  Ok label.

(** ** Inputs *)

Definition parseSource (pkg : Package) (src : string) (systemAllowed tool : bool) : res BuildInput :=
  if LooksLikeABuildLabel src then
    let cross := match pkg_Subrepo pkg with Some s => IsCrossCompile s | None => false end in
    input ← parseAnnotatedLabelInPackage src (if tool && cross then NewPackage (pkg_Name pkg) "" else pkg);
    match input_Label input with
    | Some l => assertNotPseudoLabel l;; Ok input
    | None => Ok input
    end
  else
    assert (negb (String.eqb src "")) "Empty source path";;
    assert (negb (contains src "../")) (src +:+ " is an invalid path; build target paths can't contain ../");;
    if has_prefix src "/" || has_prefix src "~" then
      assert systemAllowed (src +:+ " is an absolute path; that's not allowed");;
      Ok (SystemFileLabel (trim_right src "/"))
    else if tool then Ok (SystemPathLabel src (config_Path c))
    else Ok (NewFileLabel (TrimPrefix src "./") (pkg_Name pkg) (pkg_Subrepo pkg)).

(** [None] is skipped. *)
Definition parseBuildInput (pkg : Package) (in_ : pyObject) (name : string) (systemAllowed tool : bool) :
    res (option BuildInput) :=
  match in_ with
  | pyString src => i ← parseSource pkg src systemAllowed tool; Ok (Some i)
  | pyNone => Ok None
  | _ => Err (EPanic ("Items in " +:+ name +:+ " must be strings"))
  end.

Definition parseVisibility (pkg : Package) (vis : string) : res BuildLabel :=
  if String.eqb vis "PUBLIC" || (Bazel_Compatibility c && String.eqb vis "//visibility:public")
  then Ok (MkBuildLabel "" "..." "")
  else
    l ← parseLabelInPackage vis pkg;
    Ok (if Bazel_Compatibility c then
          if String.eqb (Name l) "__pkg__" then MkBuildLabel (PackageName l) "all" (Subrepo l)
          else if String.eqb (Name l) "__subpackages__" then MkBuildLabel (PackageName l) "..." (Subrepo l)
          else l
        else l).
End labels.

(** ** Values as lists, dicts and strings *)

Definition asList (o : pyObject) : option gslice :=
  match o with pyList l | pyFrozenList l => Some l | _ => None end.
Definition asDict (o : pyObject) : option nat :=
  match o with pyDict d | pyFrozenDict d => Some d | _ => None end.

(** An argument that may be unset. *)
Definition arg_at (args : list (option pyObject)) (i : nat) : option pyObject := mjoin (args !! i).

(** [mustList] *)
Definition mustList (h : heap) (o : option pyObject) : list pyObject :=
  match o ≫= asList with Some l => elements h l | None => [] end.

(** A conversion that fails, or that is of nil. *)
Definition bad_conversion {A} (o : option pyObject) (want : string) : res A :=
  Err (EPanic ("interface conversion: interface is " +:+
    match o with Some o => go_type o | None => "nil" end +:+ ", not " +:+ want)).

Definition must_str (o : option pyObject) : res string :=
  match o with Some (pyString s) => Ok s | _ => bad_conversion o "asp.pyString" end.

(** [asStringList], without changing anything *)
Definition string_list (h : heap) (o : option pyObject) (name : string) : res (list string) :=
  match o ≫= asList with
  | Some l =>
      mapM (fun x => match x with
        | pyString s => Ok s
        | _ => Err (EPanic (name +:+ " must be a list of strings"))
        end) (elements h l)
  | None => Err (EPanic ("argument " +:+ name +:+ " must be a list"))
  end.

(** ** The arguments of [build_rule], by position *)

Module Idx.
Definition name := 0%nat.
Definition cmd := 1%nat.
Definition testCMD := 2%nat.
Definition debugCMD := 3%nat.
Definition srcs := 4%nat.
Definition data := 5%nat.
Definition debugData := 6%nat.
Definition outs := 7%nat.
Definition deps := 8%nat.
Definition exportedDeps := 9%nat.
Definition runtimeDeps := 10%nat.
Definition runtimeDepsFromSrcs := 11%nat.
Definition runtimeDepsFromDeps := 12%nat.
Definition secrets := 13%nat.
Definition tools := 14%nat.
Definition testTools := 15%nat.
Definition debugTools := 16%nat.
Definition labels := 17%nat.
Definition visibility := 18%nat.
Definition hashes := 19%nat.
Definition binary := 20%nat.
Definition test := 21%nat.
Definition testOnly := 22%nat.
Definition buildingDescription := 23%nat.
Definition needsTransitiveDeps := 24%nat.
Definition outputIsComplete := 25%nat.
Definition sandbox := 26%nat.
Definition testSandbox := 27%nat.
Definition noTestOutput := 28%nat.
Definition flaky := 29%nat.
Definition buildTimeout := 30%nat.
Definition testTimeout := 31%nat.
Definition preBuild := 32%nat.
Definition postBuild := 33%nat.
Definition requires := 34%nat.
Definition provides := 35%nat.
Definition licences := 36%nat.
Definition testOutputs := 37%nat.
Definition systemSrcs := 38%nat.
Definition stamp := 39%nat.
Definition tag := 40%nat.
Definition optionalOuts := 41%nat.
Definition progress := 42%nat.
Definition size := 43%nat.
Definition urls := 44%nat.
Definition internalDeps := 45%nat.
Definition passEnv := 46%nat.
Definition local := 47%nat.
Definition outDirs := 48%nat.
Definition exitOnError := 49%nat.
Definition entryPoints := 50%nat.
Definition env := 51%nat.
Definition fileContent := 52%nat.
Definition subrepo := 53%nat.
Definition noTestCoverage := 54%nat.
Definition srcListFiles := 55%nat.
Definition testCmdArgsPlaceholder := 56%nat.
(** Their number. *)
Definition count := 57%nat.
End Idx.

Definition filegroupCommand : pyObject := pyString "filegroup".
Definition textFileCommand : pyObject := pyString "text_file".
Definition defaultFlakiness : Z := 3.

Section create.
Context (c : settings).
Context (st : state) (args : list (option pyObject)).

#[local] Abbreviation h := (hp st).

Definition isTruthy (i : nat) : bool :=
  match arg_at args i with Some o => IsTruthy h o | None => false end.

(** A value that is neither nil nor [None]. *)
Definition given (i : nat) : option pyObject :=
  match arg_at args i with Some pyNone | None => None | o => o end.

Definition mustSize (name : string) : res Z :=
  match Size c !! name with Some t => Ok t | None => Err (EPanic ("Unknown size " +:+ name)) end.

Definition sizeAndTimeout (size : option Z) (timeout : option pyObject) (defaultTimeout : Z) : res Z :=
  match timeout with
  | Some (pyString name) => mustSize name
  | Some (pyInt t) =>
      Ok (if 0 <? t then wrap (t * 1000000000) else default defaultTimeout size)
  | _ => Ok (default defaultTimeout size)
  end.

(** The commands that are not [None] of a dict. *)
Definition decode_dict (m : gmap string pyObject) : res (gmap string string) :=
  foldM (fun acc '(k, v) =>
    match v with
    | pyNone => Ok acc
    | pyString sv => Ok (<[k := TrimSpace sv]> acc)
    | _ => Err (EPanic "Unknown type for command")
    end) ∅ (map_to_list m).

Definition decodeCommands (o : option pyObject) : res (string * option (gmap string string)) :=
  match o with
  | None | Some pyNone => Ok ("", None)
  | Some (pyString cmd) => Ok (TrimSpace cmd, None)
  | Some o =>
      match asDict o with
      | Some d => m ← decode_dict (dict_of h d); Ok ("", Some m)
      | None => Err (EPanic ("Unknown type for command [" +:+ Type_ o +:+ "]"))
      end
  end.

Definition validateSandbox (target : BuildTarget) : bool :=
  IsFilegroup target || bool_decide (ExcludeableTargets c = [])
  || (negb (IsRemoteFile target)
      && (Sandbox target && match target_Test target with Some f => test_Sandbox f | None => true end))
  || String.eqb (PackageName (Label target)) "_please"
  || existsb (fun whitelist => label_Matches whitelist (Label target)) (ExcludeableTargets c)
  || existsb (fun dir => has_prefix (PackageName (Label target)) dir) (ExperimentalDir c).

(** The number of runs of a flaky test, and whether it is labelled as one. *)
Definition flakiness (flaky : option pyObject) : option (Z * bool) :=
  match flaky with
  | None => Some (1, false)
  | Some (pyBool true) => Some (defaultFlakiness, true)
  | Some (pyBool false) => Some (1, false)
  | Some (pyInt i) => Some (if i <=? 1 then (1, false) else (i mod 2 ^ 8, true))
  | Some _ => None
  end.

(** The fields of a test. *)
Definition create_test (size : option Z) (target : BuildTarget) : res BuildTarget :=
  let '(runs, labelled) := default (0, false) (flakiness (arg_at args Idx.flaky)) in
  let target := if labelled then AddLabel target "flaky" else target in
  '(command, commands) ← match given Idx.testCMD with Some cmd => decodeCommands (Some cmd) | None => Ok ("", None) end;
  timeout ← sizeAndTimeout size (arg_at args Idx.testTimeout) (Test_Timeout c);
  placeholder ← match given Idx.testCmdArgsPlaceholder with Some p => must_str (Some p) | None => Ok "" end;
  let noOutput := isTruthy Idx.noTestOutput in
  Ok (upd_Test (fun _ => Some (MkTest command commands [] ∅ [] noOutput (noOutput || isTruthy Idx.noTestCoverage)
                  (isTruthy Idx.testSandbox) placeholder timeout runs)) target).

(** The name of the target, with its tag. *)
Definition target_name (name : string) : res string :=
  match arg_at args Idx.tag with
  | None => Ok name
  | tag => t ← must_str tag; if String.eqb t "" then Ok name else tagName name t
  end.

Definition is_arg (i : nat) (o : pyObject) : bool := bool_decide (arg_at args i = Some o).

(** What is set of a target before its commands and tests. *)
Definition create_basics (pkg : Package) (label : BuildLabel) (outDirs : list string) : BuildTarget :=
  let t := NewBuildTarget label in
  let t := upd_Subrepo (fun _ => pkg_Subrepo pkg) t in
  let t := upd_IsBinary (fun _ => isTruthy Idx.binary) t in
  let t := upd_IsSubrepo (fun _ => isTruthy Idx.subrepo) t in
  let t := upd_NeedsTransitiveDependencies (fun _ => isTruthy Idx.needsTransitiveDeps) t in
  let t := upd_OutputIsComplete (fun _ => isTruthy Idx.outputIsComplete) t in
  let t := upd_Sandbox (fun _ => isTruthy Idx.sandbox) t in
  let t := upd_TestOnly (fun _ => isTruthy Idx.test || isTruthy Idx.testOnly) t in
  let t := upd_showProgress (fun _ => isTruthy Idx.progress) t in
  let t := upd_IsRemoteFile (fun _ => isTruthy Idx.urls) t in
  let t := upd_IsTextFile (fun _ => is_arg Idx.cmd textFileCommand) t in
  let t := upd_Local (fun _ => isTruthy Idx.local) t in
  let t := upd_ExitOnError (fun _ => isTruthy Idx.exitOnError) t in
  let t := upd_SrcListFiles (fun _ => isTruthy Idx.srcListFiles) t in
  foldl AddOutputDirectory t outDirs.

(** What the name of the size is a label of. *)
Definition create_size (t : BuildTarget) : res (option Z * BuildTarget) :=
  match arg_at args Idx.size with
  | Some pyNone => Ok (None, t)
  | o => name ← must_str o; size ← mustSize name; Ok (Some size, AddLabel t name)
  end.

Definition createTarget (pkg : Package) : res BuildTarget :=
  name ← must_str (arg_at args Idx.name);
  assert (negb (String.eqb name "all")) "'all' is a reserved build target name.";;
  assert (negb (String.eqb name "")) "Target name is empty";;
  assert (negb (contains_byte "/" name)) "/ is a reserved character in build target names";;
  assert (negb (contains_byte ":" name)) ": is a reserved character in build target names";;
  name ← target_name name;
  label ← match TryNewBuildLabel (pkg_Name pkg) name with
          | inr l => Ok (MkBuildLabel (PackageName l) (Labels.Name l) (SubrepoName pkg))
          | inl _ => Err (EPanic ("Invalid build target name " +:+ name))
          end;
  outDirs ← string_list h (arg_at args Idx.outDirs) "output_dirs";
  let t := create_basics pkg label outDirs in
  '(size, t) ← create_size t;
  passEnv ← match arg_at args Idx.passEnv with
            | Some pyNone => Ok None
            | o => l ← mapM (fun x => match x with
                       | pyString s => Ok s
                       | _ => Err (EPanic "pass_env must be a list of strings")
                       end) (mustList h o); Ok (Some l)
            end;
  timeout ← sizeAndTimeout size (arg_at args Idx.buildTimeout) (Build_Timeout c);
  let t := upd_Stamp (fun _ => isTruthy Idx.stamp)
             (upd_BuildTimeout (fun _ => timeout) (upd_PassEnv (fun _ => passEnv) t)) in
  let t := upd_IsFilegroup (fun _ => is_arg Idx.cmd filegroupCommand) t in
  description ← match given Idx.buildingDescription with
                | Some d => must_str (Some d)
                | None => Ok (BuildingDescription t)
                end;
  let t := upd_BuildingDescription (fun _ => description) t in
  let t := if IsBinary t then AddLabel t "bin" else t in
  let t := if IsRemoteFile t then AddLabel t "remote" else t in
  let t := upd_RuntimeDependenciesFromSources (fun _ => IsFilegroup t || isTruthy Idx.runtimeDepsFromSrcs) t in
  let t := upd_RuntimeDependenciesFromDependencies (fun _ => isTruthy Idx.runtimeDepsFromDeps) t in
  '(command, commands) ← decodeCommands (arg_at args Idx.cmd);
  let t := upd_Commands (fun _ => commands) (upd_Command (fun _ => command) t) in
  t ← (if isTruthy Idx.test then create_test size t else Ok t);
  (if validateSandbox t then Ok tt
   else Err (EFatal (target_String t +:+ " is not whitelisted to opt out of the sandbox")));;
  if String.eqb (Build_Config c) "dbg" then
    '(command, _) ← decodeCommands (arg_at args Idx.debugCMD);
    Ok (upd_Debug (fun _ => Some (MkDebug [] ∅ [] ∅ command)) t)
  else Ok t.
End create.

(** ** Filling in a target *)

(** A target that is being made, and its package. *)
Definition T : Type := BuildTarget * Package.

Definition on_target (f : BuildTarget -> res BuildTarget) (t : T) : res T := x ← f t.1; Ok (x, t.2).

Section populate.
Context (c : settings).
Context (range_order : gmap string pyObject -> list (string * pyObject)).
(** the target a label of the graph stands for *)
Context (deref : BuildLabel -> BuildTarget).
Context (st : state) (args : list (option pyObject)).

#[local] Abbreviation h := (hp st).

Definition elements_of (l : gslice) : list pyObject := elements h l.
Definition entries_of (d : nat) : list (string * pyObject) := range_order (dict_of h d).

(** [MustRegisterOutput]: the target is not in the graph yet. *)
Definition MustRegisterOutput (fileName : string) (t : T) : res T :=
  let '(target, pkg) := t in
  match RegisterOutput (fun l => if decide (l = Label target) then target else deref l) pkg fileName (Label target) with
  | Some pkg => Ok (target, pkg)
  | None => Err (EPanic ("rule " +:+ target_String target +:+ " attempts to output " +:+ fileName +:+ " twice"))
  end.

Definition not_list_or_dict {A} (name : string) (o : pyObject) : res A :=
  Err (EPanic ("Argument " +:+ name +:+ " must be a list or dict, not " +:+ Type_ o)).

Definition not_a_dict {A} (name : string) : res A := Err (EPanic (name +:+ " cannot be given as a dict")).

(** An input of a group, if it is one. *)
Definition add_input (name : string) (systemAllowed tool : bool) (add : BuildTarget -> BuildInput -> res BuildTarget)
    (t : T) (li : pyObject) : res T :=
  i ← parseBuildInput c t.2 li name systemAllowed tool;
  match i with Some i => on_target (fun x => add x i) t | None => Ok t end.

Definition addMaybeNamed (name : string) (o : option pyObject) (anon : BuildTarget -> BuildInput -> res BuildTarget)
    (named : option (BuildTarget -> string -> BuildInput -> res BuildTarget)) (systemAllowed tool : bool) (t : T) : res T :=
  match o with
  | None => Ok t
  | Some o =>
      match asList o, asDict o with
      | Some l, _ => foldM (add_input name systemAllowed tool anon) t (elements_of l)
      | None, Some d =>
          match named with
          | None => not_a_dict name
          | Some named =>
              foldM (fun t '(k, v) =>
                match v with
                | pyNone => Ok t
                | pyString _ => add_input name systemAllowed tool (fun x i => named x k i) t v
                | _ =>
                    match asList v with
                    | Some l => foldM (add_input name systemAllowed tool (fun x i => named x k i)) t (elements_of l)
                    | None => Err (EPanic ("Values of " +:+ name +:+ " must be a string or lists of strings"))
                    end
                end) t (entries_of d)
          end
      | None, None => if bool_decide (o = pyNone) then Ok t else not_list_or_dict name o
      end
  end.

Definition addMaybeNamedOrString (name : string) (o : option pyObject)
    (anon : BuildTarget -> BuildInput -> res BuildTarget)
    (named : option (BuildTarget -> string -> BuildInput -> res BuildTarget)) (systemAllowed tool : bool) (t : T) : res T :=
  match o with
  | Some (pyString _ as str) => add_input name systemAllowed tool anon t str
  | _ => addMaybeNamed name o anon named systemAllowed tool t
  end.

(** An output, which the package learns of. *)
Definition add_output (add : BuildTarget -> string -> res BuildTarget) (optional : bool) (t : T) (li : pyObject) : res T :=
  match li with
  | pyNone => Ok t
  | pyString out =>
      t ← on_target (fun x => add x out) t;
      if negb optional || negb (has_prefix out "*") then MustRegisterOutput out t else Ok t
  | _ => Err (EPanic "outs must be strings")
  end.

(** The values of a dict of lists. *)
Definition add_lists (f : string -> T -> pyObject -> res T) (d : nat) (t : T) : res T :=
  foldM (fun t '(k, v) =>
    match asList v with
    | Some l => foldM (f k) t (elements_of l)
    | None => Err (EPanic "Values must be lists of strings")
    end) t (entries_of d).

Definition addMaybeNamedOutput (name : string) (o : option pyObject) (anon : BuildTarget -> string -> res BuildTarget)
    (named : option (BuildTarget -> string -> string -> res BuildTarget)) (optional : bool) (t : T) : res T :=
  match o with
  | None => Ok t
  | Some o =>
      match asList o, asDict o with
      | Some l, _ => foldM (add_output anon optional) t (elements_of l)
      | None, Some d =>
          match named with
          | None => not_a_dict name
          | Some named => add_lists (fun k => add_output (fun x out => named x k out) optional) d t
          end
      | None, None => if bool_decide (o = pyNone) then Ok t else not_list_or_dict name o
      end
  end.

Definition validateSecret (t : BuildTarget) (secret : string) : res unit :=
  assert (negb (has_prefix secret "//"))
    ("Secret " +:+ secret +:+ " of " +:+ Name (Label t) +:+ " cannot be a build label");;
  assert (has_prefix secret "/" || has_prefix secret "~")
    ("Secret '" +:+ secret +:+ "' of " +:+ Name (Label t) +:+ " is not an absolute path").

Definition add_secret (msg : string) (add : BuildTarget -> string -> BuildTarget) (t : T) (li : pyObject) : res T :=
  match li with
  | pyNone => Ok t
  | pyString out => validateSecret t.1 out;; Ok (add t.1 out, t.2)
  | _ => Err (EPanic msg)
  end.

Definition addMaybeNamedSecret (name : string) (o : option pyObject) (t : T) : res T :=
  match o with
  | None => Ok t
  | Some o =>
      match asList o, asDict o with
      | Some l, _ => foldM (add_secret "secrets must be strings" AddSecret) t (elements_of l)
      | None, Some d =>
          add_lists (fun k => add_secret "outs must be strings" (fun x out => AddNamedSecret x k out)) d t
      | None, None => if bool_decide (o = pyNone) then Ok t else not_list_or_dict name o
      end
  end.

(** Strings of a list: [None] and empty ones are skipped. *)
Definition addStrings (name : string) (o : option pyObject) (f : T -> string -> res T) (t : T) : res T :=
  match o with
  | None | Some pyNone => Ok t
  | Some o =>
      match asList o with
      | None => Err (EPanic ("Argument " +:+ name +:+ " must be a list, not " +:+ Type_ o))
      | Some l =>
          foldM (fun t li =>
            match li with
            | pyString str => if String.eqb str "" then Ok t else f t str
            | pyNone => Ok t
            | _ => Err (EPanic (name +:+ " must be strings"))
            end) t (elements_of l)
      end
  end.

Definition addDependencies (name : string) (o : option pyObject) (exported internal runtime : bool) (t : T) : res T :=
  addStrings name o (fun t str =>
    let str := if Bazel_Compatibility c && negb (LooksLikeABuildLabel str) && negb (has_prefix str "@")
               then ":" +:+ str else str in
    l ← parseLabelInPackage c str t.2;
    l ← assertNotPseudoLabel l;
    on_target (fun x => AddMaybeExportedDependency x l exported false internal runtime) t) t.

(** [AddLicence] of [build_target.go] *)
Definition AddLicence (t : BuildTarget) (licence : string) : BuildTarget :=
  let licence := TrimSpace licence in
  upd_Licences (fun l => if decide (licence ∈ l) then l else l ++ [licence]) t.

(** [AddTestOutput] of [build_target.go] *)
Definition AddTestOutput (t : BuildTarget) (output : string) : res BuildTarget :=
  match target_Test t with
  | None => Err (EPanic "nil pointer dereference")
  | Some f =>
      outs ← insert_output (test_Outputs f) output;
      Ok (upd_Test (fun _ => Some (MkTest (test_Command f) (test_Commands f) (test_tools f) (test_namedTools f) outs
            (NoOutput f) (NoCoverage f) (test_Sandbox f) (ArgsPlaceholder f) (test_Timeout f) (Flakiness f))) t)
  end.

(** A change that cannot fail. *)
Definition pure_change (f : BuildTarget -> string -> BuildTarget) (t : T) (str : string) : res T :=
  Ok (f t.1 str, t.2).

Definition addEntryPoints (o : option pyObject) (t : T) : res T :=
  match o ≫= asDict with
  | None => Err (EPanic "entry_points must be a dict")
  | Some d =>
      foldM (fun t '(name, v) =>
        match v with
        | pyString entryPoint => on_target (fun x => AddEntryPoint x name entryPoint) t
        | _ => Err (EPanic ("Values of entry_points must be strings, found " +:+ Type_ v +:+ " at key " +:+ name))
        end) t (entries_of d)
  end.

Definition addEnv (o : option pyObject) (t : T) : res T :=
  match o ≫= asDict with
  | None => Err (EPanic "env must be a dict")
  | Some d =>
      env ← foldM (fun (env : gmap string string) '(name, v) =>
        match v with
        | pyString v => Ok (<[name := v]> env)
        | _ => Err (EPanic ("Values of env must be strings, found " +:+ Type_ v +:+ " at key " +:+ name))
        end) ∅ (entries_of d);
      Ok (upd_Env (fun _ => env) t.1, t.2)
  end.

(** A label that a target provides. *)
Definition provided_label (pkg : Package) (str : string) : res BuildLabel :=
  l ← parseLabelInPackage c str pkg; assertNotPseudoLabel l.

Definition addProvides (name : string) (o : option pyObject) (t : T) : res T :=
  let bad := name +:+ " values must be strings or lists of strings" in
  match o with
  | None | Some pyNone => Ok t
  | Some o =>
      match asDict o with
      | None => Err (EPanic ("Argument " +:+ name +:+ " must be a dict, not " +:+ Type_ o))
      | Some d =>
          foldM (fun (t : T) '(k, v) =>
            ls ← match v with
                 | pyString str => l ← provided_label t.2 str; Ok [l]
                 | pyList l =>
                     mapM (fun x => match x with
                       | pyString str => provided_label t.2 str
                       | _ => Err (EPanic bad)
                       end) (elements_of l)
                 | _ => Err (EPanic bad)
                 end;
            Ok (AddProvide t.1 k ls, t.2)) t (entries_of d)
      end
  end.

Definition addVisibility (o : option pyObject) (t : T) : res T :=
  match mustList h o with
  | [] => Ok t
  | v :: _ =>
      if bool_decide (v = pyString "PUBLIC") then Ok (upd_Visibility (fun _ => WholeGraph) t.1, t.2)
      else
        addStrings "visibility" o (fun t str =>
          l ← parseVisibility c t.2 str; Ok (upd_Visibility (fun vis => vis ++ [l]) t.1, t.2)) t
  end.

(** Whether there is a callback, which takes so many arguments. *)
Definition callbackFunction (name : string) (o : option pyObject) (requiredArguments : nat) : res bool :=
  match o with
  | None | Some pyNone => Ok false
  | Some (pyFunc _ id) =>
      match funcs st !! id with
      | Some f =>
          assert (length (fn_args f) =? requiredArguments)%nat
            (name +:+ " callbacks must take exactly " +:+ Itoa (Z.of_nat requiredArguments) +:+ " arguments");;
          Ok true
      | None => bad_conversion o "*asp.pyFunc"
      end
  | _ => bad_conversion o "*asp.pyFunc"
  end.

(** The URLs of a remote file. *)
Definition add_url (t : T) (url : pyObject) : res T :=
  s ← must_str (Some url); on_target (fun x => AddSource x (URLLabel s)) t.

#[local] Abbreviation a i := (arg_at args i).

Definition add_content (t : T) : res T :=
  if IsRemoteFile t.1 then foldM add_url t (mustList h (a Idx.urls))
  else if IsTextFile t.1 then s ← must_str (a Idx.fileContent); Ok (upd_FileContent (fun _ => s) t.1, t.2)
  else Ok t.

(** The inputs, outputs and dependencies. *)
Definition populate_files (t : T) : res T :=
  t ← add_content t;
  t ← addMaybeNamed "srcs" (a Idx.srcs) AddSource (Some AddNamedSource) false false t;
  t ← addMaybeNamedOrString "tools" (a Idx.tools) AddTool (Some AddNamedTool) true true t;
  t ← addMaybeNamed "system_srcs" (a Idx.systemSrcs) AddSource None true false t;
  t ← addMaybeNamed "data" (a Idx.data) AddDatum (Some AddNamedDatum) false false t;
  t ← addMaybeNamedOutput "outs" (a Idx.outs) AddOutput (Some AddNamedOutput) false t;
  t ← addMaybeNamedOutput "optional_outs" (a Idx.optionalOuts) AddOptionalOutput None true t;
  t ← addDependencies "deps" (a Idx.deps) false false false t;
  t ← addDependencies "exported_deps" (a Idx.exportedDeps) true false false t;
  t ← addDependencies "internal_deps" (a Idx.internalDeps) false true false t;
  addDependencies "runtime_deps" (a Idx.runtimeDeps) false false true t.

(** The lists of strings, the visibility and the dicts. *)
Definition populate_metadata (t : T) : res T :=
  t ← addStrings "labels" (a Idx.labels) (pure_change AddLabel) t;
  t ← addStrings "hashes" (a Idx.hashes) (pure_change AddHash) t;
  t ← addStrings "licences" (a Idx.licences) (pure_change AddLicence) t;
  t ← addStrings "requires" (a Idx.requires) (pure_change AddRequire) t;
  t ← addVisibility (a Idx.visibility) t;
  t ← addEntryPoints (a Idx.entryPoints) t;
  t ← addEnv (a Idx.env) t;
  t ← addMaybeNamedSecret "secrets" (a Idx.secrets) t;
  t ← addProvides "provides" (a Idx.provides) t;
  pre ← callbackFunction "pre_build" (a Idx.preBuild) 1;
  post ← callbackFunction "post_build" (a Idx.postBuild) 2;
  Ok (upd_PreBuildFunction (fun _ => pre) (upd_PostBuildFunction (fun _ => post) t.1), t.2).

(** What only tests and debugged targets have. *)
Definition populate_test (t : T) : res T :=
  t ← (if IsTest t.1 then
         t ← addMaybeNamedOrString "test_tools" (a Idx.testTools) AddTestTool (Some AddNamedTestTool) true true t;
         addMaybeNamedOutput "test_outputs" (a Idx.testOutputs)
           AddTestOutput None false t
       else Ok t);
  if bool_decide (is_Some (Debug t.1)) then
    t ← addMaybeNamed "debug_data" (a Idx.debugData) AddDebugDatum (Some AddDebugNamedDatum) false false t;
    addMaybeNamedOrString "debug_tools" (a Idx.debugTools) AddDebugTool (Some AddNamedDebugTool) true true t
  else Ok t.

Definition populateTarget (t : T) : res T :=
  t ← populate_files t;
  t ← populate_metadata t;
  populate_test t.
End populate.

(** ** Adding a target *)

(** The target a label of a package stands for. *)
Definition deref_in (g : BuildGraph) (l : BuildLabel) : BuildTarget := default (NewBuildTarget l) (Target g l).

(** Changes the target that a pointer leads to. *)
Definition update_target (l : BuildLabel) (f : BuildTarget -> BuildTarget) (g : BuildGraph) : BuildGraph :=
  MkGraph (alter (fun v => AV (f <$> Val v) (Wait v)) l (g_targets g)) (g_packages g) (g_subrepos g)
    (subincludeSubincludes g) (g_chans g).

Definition IsGlob (pattern : string) : bool := contains_any pattern "*?[".

(** [AllLocalSourceLocalPaths] *)
Definition AllLocalSourceLocalPaths (t : BuildTarget) : list string :=
  omap (fun src => match src with FileLabel f _ => Some f | _ => None end) (AllSources t).

(** What a new target registers as its outputs. *)
Definition registered_outputs (target : BuildTarget) : list string :=
  if IsFilegroup target then AllLocalSourceLocalPaths target
  else outputs target ++
       match target_Test target with
       | Some f => base.filter (fun out => IsGlob out = false) (test_Outputs f)
       | None => []
       end.

(** [BuildState.AddTarget] *)
Definition state_AddTarget (pkg : Package) (g : BuildGraph) (target : BuildTarget) : res (Package * BuildGraph) :=
  let pkg := pkg_AddTarget pkg (Label target) in
  g ← AddTarget g target;
  '(_, pkg) ← foldM (fun t out => MustRegisterOutput (deref_in g) out t) (target, pkg) (registered_outputs target);
  Ok (pkg, g).

(** ** build_rule *)

(** The scope that a rule is called in: its package, configuration, and whether it is
    that of a callback. *)
Record rule_scope := MkRuleScope {
  s_pkg : option Package;
  s_config : nat;
  s_Callback : bool;
}.

Definition defaultFromConfig (h : heap) (config : nat) (arg : option pyObject) (name : string) : option pyObject :=
  match arg with
  | None | Some pyNone => match config_Get h config name with Some v => Some v | None => arg end
  | Some _ => arg
  end.

Section rule.
Context (c : settings).
Context (range_order : gmap string pyObject -> list (string * pyObject)).
Context (st : state) (s : rule_scope).

(** The arguments, with the defaults of the configuration. *)
Definition rule_arguments (args : list (option pyObject)) : list (option pyObject) :=
  let dflt i name args := <[i := defaultFromConfig (hp st) (s_config s) (arg_at args i) name]> args in
  let args := dflt Idx.visibility "DEFAULT_VISIBILITY" args in
  let args := dflt Idx.testOnly "DEFAULT_TESTONLY" args in
  let args := dflt Idx.licences "DEFAULT_LICENCES" args in
  let args := dflt Idx.sandbox "BUILD_SANDBOX" args in
  let args := dflt Idx.testSandbox "TEST_SANDBOX" args in
  if bool_decide (arg_at args Idx.systemSrcs = Some pyNone) then args
  else <[Idx.local := Some (pyString "True")]> args.

(** The value of the call, the target it made, and the package and the graph after it. *)
Definition buildRule (g : BuildGraph) (args : list (option pyObject)) : res (pyObject * Package * BuildGraph) :=
  match s_pkg s with
  | None => Err (EPanic "Cannot create new build rules in this scope")
  | Some pkg =>
      let args := rule_arguments args in
      target ← createTarget c st args pkg;
      assert (negb (bool_decide (is_Some (pkg_Target pkg (Labels.Name (Label target))))))
        ("Duplicate build target in " +:+ pkg_Name pkg +:+ ": " +:+ Labels.Name (Label target));;
      '(target, pkg) ← populateTarget c range_order (deref_in g) st args (target, pkg);
      '(pkg, g) ← state_AddTarget pkg g target;
      let g := if s_Callback s then update_target (Label target) (upd_AddedPostBuild (fun _ => true)) g else g in
      Ok (pyString (":" +:+ Labels.Name (Label target)), pkg, g)
  end.

Definition filegroup (g : BuildGraph) (args : list (option pyObject)) : res (pyObject * Package * BuildGraph) :=
  buildRule g (<[Idx.cmd := Some filegroupCommand]> args).
End rule.
