(* ===== verification/RuleInvariants.v ===== *)
(** What [build_rule] guarantees ([BuildRules]): the target it makes is well formed and
    is added under its own name; the outputs of the rules of a package do not clash. *)
From S2P Require Import Prelude GoStrings Labels Cmap Targets Graph Inputs Lexer GoText Values Ast Parser Objects Interp.
From S2P Require Import Builtins BuildRules.
From Stdlib Require Import Ascii.

#[local] Open Scope Z_scope.

(** ** What filling in a target keeps *)

(** The fields of a target that are set once, when it is created. *)
Record kept (x y : BuildTarget) : Prop := {
  k_label : Label y = Label x;
  k_filegroup : IsFilegroup y = IsFilegroup x;
  k_binary : IsBinary y = IsBinary x;
  k_deps : deps_wf x -> deps_wf y;
}.

#[export] Instance kept_preorder : PreOrder kept.
Proof.
  split; [by split|]. intros x y z [] []. split; [congruence..|auto].
Qed.

Lemma kept_same x y :
  Label y = Label x -> IsFilegroup y = IsFilegroup x -> IsBinary y = IsBinary x ->
  dep_set y = dep_set x -> runtimeDependencies y = runtimeDependencies x -> all_inputs y = all_inputs x ->
  kept x y.
Proof.
  intros HL HF HB HD HR HI. split; [done..|]. intros [? ? Hin ?]. by split; rewrite ?HL, ?HD, ?HB, ?HR, ?HI.
Qed.

(** An addition that can fail keeps the target. *)
Definition keeping (f : BuildTarget -> res BuildTarget) : Prop := forall x y, f x = Ok y -> kept x y.

Lemma AddMaybeExportedDependency_kept t dep e s i r t' :
  AddMaybeExportedDependency t dep e s i r = Ok t' -> kept t t'.
Proof.
  intros H. pose proof (AddMaybeExportedDependency_Ok _ _ _ _ _ _ _ H) as (_ & _ & ds & He & _).
  split; [by subst t'; destruct r..|]. intros Hwf. by eapply AddMaybeExportedDependency_wf.
Qed.

Lemma add_input_dep_frame t i t' :
  add_input_dep t i = Ok t' -> Label t' = Label t /\ IsFilegroup t' = IsFilegroup t /\ IsBinary t' = IsBinary t.
Proof.
  unfold add_input_dep, AddDependency. destruct (input_Label i); [|by intros [= <-]].
  intros []%AddMaybeExportedDependency_kept. done.
Qed.

Lemma add_data_dep_frame t i t' :
  add_data_dep t i = Ok t' -> Label t' = Label t /\ IsFilegroup t' = IsFilegroup t /\ IsBinary t' = IsBinary t.
Proof.
  unfold add_data_dep, AddDependency. destruct (input_Label i); [|by intros [= <-]].
  intros (t1 & []%AddMaybeExportedDependency_kept & [= <-])%bind_Ok. done.
Qed.

Lemma addSource_kept t l i t' l' : addSource t l i = Ok (t', l') -> kept t t'.
Proof.
  unfold addSource. intros ([] & _ & H)%bind_Ok; [by injection H as <- _|].
  apply bind_Ok in H as (t1 & H & [= <- _]). destruct (input_Label i); [|by injection H as <-].
  by eapply AddMaybeExportedDependency_kept.
Qed.

Lemma add_step_kept t t' : add_step t t' -> kept t t'.
Proof.
  intros Hs. pose proof (add_step_wf t t' Hs) as Hwf.
  assert (Label t' = Label t /\ IsFilegroup t' = IsFilegroup t /\ IsBinary t' = IsBinary t) as (?&?&?);
    [|by split].
  destruct Hs as [? ? ? ? ? ? ? H|? ? ? H|? ? ? ? H|? ? ? H|? ? ? ? H|? ? ? H
    |? ? ? ? H|? ? ? H|? ? ? ? H|? ? ? H|? ? ? ? H|? ? ? H|? ? ? ? H].
  - by apply AddMaybeExportedDependency_kept in H as [].
  - apply bind_Ok in H as ([t1 l] & []%addSource_kept & [= <-]). done.
  - apply bind_Ok in H as ([t1 l] & []%addSource_kept & [= <-]). done.
  - by apply add_input_dep_frame in H.
  - by apply add_input_dep_frame in H.
  - unfold AddTestTool in H. destruct (target_Test t); [|done]. by apply add_input_dep_frame in H.
  - by apply add_input_dep_frame in H.
  - by apply add_input_dep_frame in H.
  - by apply add_input_dep_frame in H.
  - by apply add_data_dep_frame in H.
  - by apply add_data_dep_frame in H.
  - by apply add_data_dep_frame in H.
  - by apply add_data_dep_frame in H.
Qed.

(** ** What filling in a target does to its package *)

(** Registrations of outputs by a target [l]: an output is taken over only between
    filegroups. *)
Record claims (d : BuildLabel -> BuildTarget) (l : BuildLabel) (filegroup : bool)
    (o o' : gmap string BuildLabel) : Prop := {
  c_mine : forall k l', o' !! k = Some l' -> o !! k = Some l' \/ l' = l;
  c_kept : forall k l', o !! k = Some l' -> o' !! k = Some l' \/
    (o' !! k = Some l /\ (l' = l \/ (filegroup = true /\ IsFilegroup (d l') = true)));
}.

#[export] Instance claims_preorder d l f : PreOrder (claims d l f).
Proof.
  split.
  - intros o. by split; [left|left].
  - intros o1 o2 o3 [A1 B1] [A2 B2]. split.
    + intros k l' H. destruct (A2 k l' H) as [H'| ->]; eauto.
    + intros k l' H. destruct (B1 k l' H) as [H'|[H' Hl]].
      * destruct (B2 k l' H') as [?|[]]; eauto.
      * destruct (B2 k l H') as [?|[? _]]; eauto.
Qed.

Definition with_outputs (o : gmap string BuildLabel) (pkg : Package) : Package :=
  MkPackage (pkg_Name pkg) (SubrepoName pkg) (Filename pkg) (Subincludes pkg) (pkg_Subrepo pkg) (pkg_targets pkg) o.

(** A target, with its package, grows into another. *)
Record grows (d : BuildLabel -> BuildTarget) (t t' : T) : Prop := {
  g_target : kept t.1 t'.1;
  g_pkg : t'.2 = with_outputs (pkg_Outputs t'.2) t.2;
  g_claims : claims d (Label t.1) (IsFilegroup t.1) (pkg_Outputs t.2) (pkg_Outputs t'.2);
}.

#[export] Instance grows_preorder d : PreOrder (grows d).
Proof.
  split.
  - intros [x p]. split; [done| |done]. by destruct p.
  - intros t1 t2 t3 [K1 P1 C1] [K2 P2 C2]. split; [by etrans| |].
    + cbn in *. rewrite P2, P1. done.
    + destruct K1 as [L F _ _]. rewrite L, F in C2. by etrans.
Qed.

(** ** Operations under which a target grows *)

Definition growing (d : BuildLabel -> BuildTarget) (f : T -> res T) : Prop := forall t t', f t = Ok t' -> grows d t t'.

Section growing.
Context (d : BuildLabel -> BuildTarget).

Lemma growing_bind f k : growing d f -> growing d k -> growing d (fun t => f t ≫= k).
Proof. intros Hf Hk t t' (t1 & H1 & H2)%bind_Ok. etrans; eauto. Qed.

Lemma growing_res {A} (r : T -> res A) k : (forall a, growing d (k a)) -> growing d (fun t => r t ≫= fun a => k a t).
Proof. intros Hk t t' (a & _ & H)%bind_Ok. by apply (Hk a). Qed.

Lemma growing_ret : growing d Ok.
Proof. by intros t t' [= <-]. Qed.

Lemma growing_if (b : T -> bool) f k : growing d f -> growing d k -> growing d (fun t => if b t then f t else k t).
Proof. intros Hf Hk t t'. destruct (b t); eauto. Qed.

Lemma growing_foldM {A} (f : T -> A -> res T) l :
  (forall a, growing d (fun t => f t a)) -> growing d (fun t => foldM f t l).
Proof.
  intros Hf t t'. apply (foldM_Ok_inv f (grows d t)); [|done].
  intros s a s' Hs Hg. etrans; [exact Hg|]. by apply (Hf a).
Qed.

Lemma growing_target f : keeping f -> growing d (on_target f).
Proof.
  intros Hf [x p] t' (y & Hy & [= <-])%bind_Ok. split; [by apply Hf| |done]. by destruct p.
Qed.

Lemma growing_update (f : T -> BuildTarget) : (forall t, kept t.1 (f t)) -> growing d (fun t => Ok (f t, t.2)).
Proof. intros Hf [x p] t' [= <-]. split; [apply (Hf (x, p))| |done]. by destruct p. Qed.
End growing.

(** ** The operations *)

(** The name an output is registered under. *)
Definition out_key (t : BuildTarget) (out : string) : string :=
  if IsBinary t then ":_bin_" +:+ out else out.

Section operations.
Context (c : settings).
Context (range_order : gmap string pyObject -> list (string * pyObject)).
Context (d : BuildLabel -> BuildTarget).
Context (st : state) (args : list (option pyObject)).

Lemma MustRegisterOutput_spec out x p t' :
  MustRegisterOutput d out (x, p) = Ok t' ->
  t' = (x, with_outputs (<[out_key x out := Label x]> (pkg_Outputs p)) p) /\
  forall l', pkg_Outputs p !! out_key x out = Some l' ->
    l' = Label x \/ (IsFilegroup x = true /\ IsFilegroup (d l') = true).
Proof.
  unfold MustRegisterOutput, RegisterOutput. rewrite decide_True by done.
  fold (out_key x out). destruct (pkg_Outputs p !! out_key x out) as [l|] eqn:Hl; [|by intros [= <-]].
  case_bool_decide as He; cbn; [intros [= <-]; split; [done|]; intros l' [= <-]; by left|].
  rewrite decide_False by done.
  destruct (IsFilegroup x), (IsFilegroup (d l)) eqn:Hd; try done.
  intros [= <-]. split; [done|]. intros l' [= <-]. by right.
Qed.

Lemma MustRegisterOutput_growing out : growing d (MustRegisterOutput d out).
Proof.
  intros [x p] t' [-> Hc]%MustRegisterOutput_spec. split; [done..|]. cbn. split.
  - intros k l' [[<- <-]|[_ ?]]%lookup_insert_Some; auto.
  - intros k l' Hk. destruct (decide (k = out_key x out)) as [->|].
    + right. rewrite lookup_insert_eq. auto.
    + left. by rewrite lookup_insert_ne.
Qed.

Lemma add_input_growing name sys tool add li :
  (forall i, keeping (fun x => add x i)) -> growing d (fun t => add_input c name sys tool add t li).
Proof.
  intros Ha t t' ([i|] & _ & H)%bind_Ok; [|by injection H as <-]. by apply (growing_target d (fun x => add x i)).
Qed.

(** The two ways to add one of a group. *)
Lemma addMaybeNamed_growing name o anon named sys tool :
  (forall i, keeping (fun x => anon x i)) ->
  (forall add, named = Some add -> forall k i, keeping (fun x => add x k i)) ->
  growing d (addMaybeNamed c range_order st name o anon named sys tool).
Proof.
  intros Ha Hn t t'. unfold addMaybeNamed. destruct o as [o|]; [|by intros [= <-]].
  destruct (asList o) as [l|].
  - revert t t'. refine (growing_foldM d _ _ _). intros a. by apply add_input_growing.
  - destruct (asDict o) as [m|]; [|by case_bool_decide; [intros [= <-]|]].
    destruct named as [named|]; [|done]. revert t t'. refine (growing_foldM d _ _ _).
    intros [k v]. assert (forall a, growing d (fun t => add_input c name sys tool (fun x i => named x k i) t a)) as Hv.
    { intros a. apply add_input_growing. intros i. by apply Hn. }
    destruct v; try (intros t t' H; done); try exact (Hv _); try apply growing_ret.
    all: cbn; refine (growing_foldM d _ _ _); exact Hv.
Qed.

Lemma addMaybeNamedOrString_growing name o anon named sys tool :
  (forall i, keeping (fun x => anon x i)) ->
  (forall add, named = Some add -> forall k i, keeping (fun x => add x k i)) ->
  growing d (addMaybeNamedOrString c range_order st name o anon named sys tool).
Proof.
  intros Ha Hn. unfold addMaybeNamedOrString.
  destruct o as [[]|]; first [by apply add_input_growing|by apply addMaybeNamed_growing].
Qed.

Lemma add_output_growing add optional li :
  (forall out, keeping (fun x => add x out)) -> growing d (fun t => add_output d add optional t li).
Proof.
  intros Ha. unfold add_output. destruct li; try (intros t t' H; done); [apply growing_ret|].
  apply growing_bind; [by apply (growing_target d (fun x => add x s))|].
  apply (growing_if d (fun _ => _)); [apply MustRegisterOutput_growing|apply growing_ret].
Qed.

Lemma add_lists_growing f m :
  (forall k a, growing d (fun t => f k t a)) -> growing d (add_lists range_order st f m).
Proof.
  intros Hf. refine (growing_foldM d _ _ _). intros [k v].
  destruct (asList v); [|by intros t t' H]. refine (growing_foldM d _ _ _). apply Hf.
Qed.

Lemma addMaybeNamedOutput_growing name o anon named optional :
  (forall out, keeping (fun x => anon x out)) ->
  (forall add, named = Some add -> forall k out, keeping (fun x => add x k out)) ->
  growing d (addMaybeNamedOutput range_order d st name o anon named optional).
Proof.
  intros Ha Hn t t'. unfold addMaybeNamedOutput. destruct o as [o|]; [|by intros [= <-]].
  destruct (asList o) as [l|].
  - revert t t'. refine (growing_foldM d _ _ _). intros a. by apply add_output_growing.
  - destruct (asDict o) as [m|]; [|by case_bool_decide; [intros [= <-]|]].
    destruct named as [named|]; [|done]. apply add_lists_growing. intros k a.
    apply add_output_growing. intros out. by apply Hn.
Qed.

Lemma add_secret_growing msg add li :
  (forall x out, kept x (add x out)) -> growing d (fun t => add_secret msg add t li).
Proof.
  intros Ha. unfold add_secret. destruct li; try (intros t t' H; done); [apply growing_ret|].
  apply (growing_res d (fun t => validateSecret t.1 s) (fun _ t => Ok (add t.1 s, t.2))).
  intros _. by apply (growing_update d (fun t => add t.1 s)).
Qed.

Lemma addMaybeNamedSecret_growing name o : growing d (addMaybeNamedSecret range_order st name o).
Proof.
  intros t t'. unfold addMaybeNamedSecret. destruct o as [o|]; [|by intros [= <-]].
  destruct (asList o) as [l|].
  - revert t t'. refine (growing_foldM d _ _ _). intros a. apply add_secret_growing. intros. by apply kept_same.
  - destruct (asDict o) as [m|]; [|by case_bool_decide; [intros [= <-]|]].
    apply add_lists_growing. intros k a. apply add_secret_growing. intros. by apply kept_same.
Qed.

Lemma addStrings_growing name o f :
  (forall str, growing d (fun t => f t str)) -> growing d (addStrings st name o f).
Proof.
  intros Hf t t'. unfold addStrings. destruct o as [o|]; [|by intros [= <-]].
  destruct (decide (o = pyNone)) as [->|Ho]; [by intros [= <-]|].
  replace (match o with pyNone => Ok t | _ => _ end) with
    (match asList o with None => Err (EPanic ("Argument " +:+ name +:+ " must be a list, not " +:+ Type_ o))
     | Some l => foldM (fun t li => match li with
            | pyString str => if String.eqb str "" then Ok t else f t str
            | pyNone => Ok t
            | _ => Err (EPanic (name +:+ " must be strings"))
            end) t (elements_of st l) end) by (by destruct o).
  destruct (asList o) as [l|]; [|done]. revert t t'. refine (growing_foldM d _ _ _).
  intros a. destruct a; try (intros t t' H; done); [apply growing_ret|].
  apply (growing_if d (fun _ => _)); [apply growing_ret|apply Hf].
Qed.

Lemma AddLabel_kept x str : kept x (AddLabel x str).
Proof. unfold AddLabel. destruct (HasLabel x str); [done|]. by apply kept_same. Qed.

Lemma addDependencies_growing name o exported internal runtime :
  growing d (addDependencies c st name o exported internal runtime).
Proof.
  apply addStrings_growing. intros str t t' (l & _ & (l' & _ & H)%bind_Ok)%bind_Ok.
  revert H. apply growing_target. intros x y. apply AddMaybeExportedDependency_kept.
Qed.

Lemma addEntryPoints_growing o : growing d (addEntryPoints range_order st o).
Proof.
  unfold addEntryPoints. destruct (o ≫= asDict); [|by intros t t' H].
  refine (growing_foldM d _ _ _). intros [k v]. destruct v; try (intros t t' H; done).
  apply growing_target. intros x y. unfold AddEntryPoint.
  repeat (case_match; [done|]). intros [= <-]. by apply kept_same.
Qed.

Lemma addEnv_growing o : growing d (addEnv range_order st o).
Proof.
  unfold addEnv. destruct (o ≫= asDict); [|by intros t t' H]. intros t t' (env & _ & [= <-])%bind_Ok.
  by apply (growing_update d (fun t => upd_Env (fun _ => env) t.1)); [intros; apply kept_same|].
Qed.

Lemma addProvides_growing name o : growing d (addProvides c range_order st name o).
Proof.
  unfold addProvides. destruct o as [o|]; [|apply growing_ret].
  destruct (decide (o = pyNone)) as [->|Ho]; [apply growing_ret|].
  intros t t'. destruct o; try done; cbn; revert t t'; refine (growing_foldM d _ _ _); intros [k v];
    (apply (growing_res d _ (fun ls t => Ok (AddProvide t.1 k ls, t.2))); intros ls;
     apply (growing_update d (fun t => AddProvide t.1 k ls)); intros; by apply kept_same).
Qed.

Lemma addVisibility_growing o : growing d (addVisibility c st o).
Proof.
  unfold addVisibility. destruct (mustList (hp st) o) as [|v l]; [apply growing_ret|].
  case_bool_decide.
  - apply (growing_update d (fun t => upd_Visibility (fun _ => WholeGraph) t.1)). intros. by apply kept_same.
  - apply addStrings_growing. intros str.
    apply (growing_res d _ (fun l t => Ok (upd_Visibility (fun vis => vis ++ [l]) t.1, t.2))). intros l'.
    apply (growing_update d (fun t => upd_Visibility (fun vis => vis ++ [l']) t.1)). intros. by apply kept_same.
Qed.

Lemma pure_strings_growing name o f :
  (forall x str, kept x (f x str)) -> growing d (addStrings st name o (pure_change f)).
Proof.
  intros Hf. apply addStrings_growing. intros str. by apply (growing_update d (fun t => f t.1 str)).
Qed.

Lemma insert_output_keeping (f : list string -> BuildTarget -> BuildTarget) (o : BuildTarget -> list string) out :
  (forall l x, kept x (f l x)) -> keeping (fun x => outs ← insert_output (o x) out; Ok (f outs x)).
Proof. intros Hf x y (outs & _ & [= <-])%bind_Ok. apply Hf. Qed.

Lemma AddTestOutput_keeping out : keeping (fun x => AddTestOutput x out).
Proof.
  intros x y. unfold AddTestOutput. destruct (target_Test x) as [f|] eqn:Hf; [|done].
  intros (outs & _ & [= <-])%bind_Ok. apply kept_same; try done.
  unfold all_inputs, test_tool_inputs. cbn -[combinedBuildInputs]. by rewrite Hf.
Qed.

Lemma add_content_growing : growing d (add_content st args).
Proof.
  apply (growing_if d (fun t => IsRemoteFile t.1)).
  - refine (growing_foldM d _ _ _). intros url t t' (str & _ & H)%bind_Ok. revert H.
    apply growing_target. intros x y H. eapply add_step_kept, add_source, H.
  - apply (growing_if d (fun t => IsTextFile t.1)); [|apply growing_ret].
    apply (growing_res d _ (fun str t => Ok (upd_FileContent (fun _ => str) t.1, t.2))). intros str.
    apply (growing_update d (fun t => upd_FileContent (fun _ => str) t.1)). intros. by apply kept_same.
Qed.
Lemma AddOutput_kept x out y : AddOutput x out = Ok y -> kept x y.
Proof.
  apply (insert_output_keeping (fun outs => upd_outputs (fun _ => outs)) outputs out). intros. by apply kept_same.
Qed.

Lemma AddOptionalOutput_kept x out y : AddOptionalOutput x out = Ok y -> kept x y.
Proof.
  apply (insert_output_keeping (fun outs => upd_OptionalOutputs (fun _ => outs)) OptionalOutputs out).
  intros. by apply kept_same.
Qed.

Lemma AddNamedOutput_kept x k out y : AddNamedOutput x k out = Ok y -> kept x y.
Proof.
  apply (insert_output_keeping (fun outs => upd_namedOutputs (insert k outs))
    (fun x => default [] (namedOutputs x !! k)) out). intros. by apply kept_same.
Qed.

Ltac solve_keeping :=
  repeat intro; simplify_eq;
  first
    [ eapply add_step_kept; econstructor; eassumption
    | by eapply AddOutput_kept | by eapply AddOptionalOutput_kept | by eapply AddNamedOutput_kept
    | by eapply AddTestOutput_keeping ].

Lemma populate_files_growing : growing d (populate_files c range_order d st args).
Proof.
  unfold populate_files.
  repeat first
    [ apply growing_bind | apply add_content_growing | apply addDependencies_growing
    | apply addMaybeNamed_growing | apply addMaybeNamedOrString_growing | apply addMaybeNamedOutput_growing
    | solve [solve_keeping] ].
Qed.

Lemma populate_metadata_growing : growing d (populate_metadata c range_order st args).
Proof.
  unfold populate_metadata.
  repeat first
    [ apply growing_bind | apply addVisibility_growing | apply addEntryPoints_growing | apply addEnv_growing
    | apply addMaybeNamedSecret_growing | apply addProvides_growing | apply pure_strings_growing ].
  - intros. apply AddLabel_kept.
  - intros. by apply kept_same.
  - intros. by apply kept_same.
  - intros. unfold AddRequire. etrans; [|apply AddLabel_kept]. by apply kept_same.
  - intros t t' (pre & _ & (post & _ & [= <-])%bind_Ok)%bind_Ok.
    by apply (growing_update d (fun t => upd_PreBuildFunction (fun _ => pre) (upd_PostBuildFunction (fun _ => post) t.1)));
      [intros; apply kept_same|].
Qed.

Lemma populate_test_growing : growing d (populate_test c range_order d st args).
Proof.
  unfold populate_test. apply growing_bind.
  - apply (growing_if d (fun t => IsTest t.1)); [|apply growing_ret].
    apply growing_bind; [apply addMaybeNamedOrString_growing|apply addMaybeNamedOutput_growing];
      solve_keeping.
  - apply (growing_if d (fun t => bool_decide (is_Some (Debug t.1)))); [|apply growing_ret].
    apply growing_bind; [apply addMaybeNamed_growing|apply addMaybeNamedOrString_growing]; solve_keeping.
Qed.

Lemma populateTarget_growing : growing d (populateTarget c range_order d st args).
Proof.
  apply growing_bind; [apply populate_files_growing|].
  apply growing_bind; [apply populate_metadata_growing|apply populate_test_growing].
Qed.
End operations.

(** ** A new target *)

(** The target [l] before any input or dependency is added to it. *)
Definition made (l : BuildLabel) (x : BuildTarget) : Prop :=
  Label x = l /\ dependencies x = [] /\ runtimeDependencies x = [] /\
  AllBuildInputs x = [] /\ test_tool_inputs x = [] /\ AllDebugData x = [] /\ AllDebugTools x = [].

Lemma made_wf l x : made l x -> deps_wf x.
Proof.
  intros (_ & Hd & Hr & Hb & Ht & Hg & Hgt).
  split; unfold dep_set; rewrite ?Hd, ?Hr; [apply NoDup_nil_2|apply not_elem_of_nil| |done].
  unfold all_inputs. rewrite Hb, Ht, Hg, Hgt. intros i l' Hi. by apply not_elem_of_nil in Hi.
Qed.

Lemma made_AddLabel l x str : made l x -> made l (AddLabel x str).
Proof. intros H. unfold AddLabel. destruct (HasLabel x str); exact H. Qed.

Lemma made_if l (b : bool) x str : made l x -> made l (if b then AddLabel x str else x).
Proof. destruct b; [apply made_AddLabel|done]. Qed.

Lemma made_basics l st args pkg outDirs : made l (create_basics st args pkg l outDirs).
Proof.
  unfold create_basics. lazymatch goal with |- made _ (foldl _ ?t _) => assert (made l t) as H; [|revert H; generalize t] end.
  { repeat (split; [done|]). done. }
  induction outDirs as [|dir dirs IH]; intros t H; [exact H|]. apply (IH (AddOutputDirectory t dir)). exact H.
Qed.

Lemma made_size c args l x size y : made l x -> create_size c args x = Ok (size, y) -> made l y.
Proof.
  intros Hx. unfold create_size.
  destruct (decide (arg_at args Idx.size = Some pyNone)) as [->|Ho]; [by intros [= _ <-]|].
  intros H. assert (exists name, y = AddLabel x name) as [name ->]; [|by apply made_AddLabel].
  destruct (arg_at args Idx.size) as [[]|]; try done;
    by apply bind_Ok in H as (name & _ & (sz & _ & [= _ <-])%bind_Ok); exists name.
Qed.

Lemma made_test c st args size l x y : made l x -> create_test c st args size x = Ok y -> made l y.
Proof.
  intros Hx. unfold create_test. destruct (default _ _) as [runs labelled].
  intros ([cmd cmds] & _ & (timeout & _ & (placeholder & _ & [= <-])%bind_Ok)%bind_Ok)%bind_Ok.
  assert (made l (if labelled then AddLabel x "flaky" else x)) as (?&?&?&?&?&?&?)
    by (destruct labelled; [by apply made_AddLabel|done]).
  by repeat (split; [done|]).
Qed.

Lemma assert_Ok b msg : assert b msg = Ok tt -> b = true.
Proof. by destruct b. Qed.

(** What [createTarget] checks of a name. *)
Record good_name (pkg : Package) (name : string) (label : BuildLabel) : Prop := {
  gn_pkg : PackageName label = pkg_Name pkg;
  gn_subrepo : Subrepo label = SubrepoName pkg;
  gn_valid : validateTargetName (Name label) = true;
  gn_all : name <> "all";
  gn_chars : contains_byte "/"%char name = false /\ contains_byte ":"%char name = false;
}.

Lemma createTarget_spec c st args pkg x :
  createTarget c st args pkg = Ok x ->
  exists name, arg_at args Idx.name = Some (pyString name) /\ target_name args name = Ok (Name (Label x)) /\
    good_name pkg name (Label x) /\ deps_wf x.
Proof.
  unfold createTarget. intros (name & Hname & H)%bind_Ok.
  apply bind_Ok in H as ([] & Ha%assert_Ok & H). apply bind_Ok in H as ([] & _ & H).
  apply bind_Ok in H as ([] & Hs%assert_Ok & H). apply bind_Ok in H as ([] & Hc%assert_Ok & H).
  apply negb_true_iff in Ha, Hs, Hc. apply String.eqb_neq in Ha.
  apply bind_Ok in H as (n & Hn & H). apply bind_Ok in H as (l & Hl & H).
  assert (good_name pkg name l /\ Name l = n) as [Hg Hln].
  { unfold TryNewBuildLabel, validateNames in Hl.
    destruct (validatePackageName (pkg_Name pkg)), (validateTargetName n) eqn:Hv; cbn in Hl; try done.
    destruct (validateSuffixes (pkg_Name pkg) n); [done|]. injection Hl as <-. by split. }
  assert (made l x) as Hx.
  { apply bind_Ok in H as (dirs & _ & H). apply bind_Ok in H as ([size t] & Hsize & H).
    apply made_size with (l := l) in Hsize; [|apply made_basics].
    apply bind_Ok in H as (passEnv & _ & H). apply bind_Ok in H as (timeout & _ & H).
    apply bind_Ok in H as (desc & _ & H). apply bind_Ok in H as ([cmd cmds] & _ & H).
    apply bind_Ok in H as (t1 & Ht & H). apply bind_Ok in H as ([] & _ & H).
    assert (made l t1) as Ht1.
    { clear H. match type of Ht with context [upd_Commands ?f (upd_Command ?g ?t0)] =>
        assert (made l (upd_Commands f (upd_Command g t0))) as Hu end.
      { match goal with |- made l (upd_Commands _ (upd_Command _ (upd_RuntimeDependenciesFromDependencies _
          (upd_RuntimeDependenciesFromSources _ ?t2)))) => change (made l t2) end.
        apply made_if, made_if. exact Hsize. }
      destruct (isTruthy _ _ _); [by eapply made_test|by injection Ht as <-]. }
    destruct (String.eqb _ _); [|by injection H as <-].
    apply bind_Ok in H as ([dcmd ?] & _ & [= <-]). destruct Ht1 as (?&?&?&?&?&?&?).
    by repeat (split; [done|]). }
  exists name. destruct Hx as [Hxl Hx']. rewrite Hxl, Hln. split_and!; [|done|done|by eapply (made_wf l)].
  destruct (arg_at args Idx.name) as [[]|]; try done. cbn in Hname. by injection Hname as ->.
Qed.

(** ** The graph and the package *)

Lemma AddTarget_lookup g t g' :
  graph_wf g -> AddTarget g t = Ok g' ->
  Target g (Label t) = None /\ Target g' (Label t) = Some t /\
  forall l, l <> Label t -> Target g' l = Target g l.
Proof.
  unfold AddTarget, shard_Set. intros Hwf ([[b ts] ch] & Hs & H)%bind_Ok.
  destruct b; [|done]. injection H as <-.
  assert (ts = <[Label t := AV (Some t) None]> (g_targets g) /\ Target g (Label t) = None) as [-> Hn].
  { unfold Target, shard_Get. destruct (g_targets g !! Label t) as [[v [w|]]|] eqn:Hl; cbn in Hs.
    - apply bind_Ok in Hs as (c' & _ & [= <- _]). split; [done|]. exact (Hwf _ _ Hl).
    - done.
    - by injection Hs as <- _. }
  unfold Target, shard_Get. cbn. split_and!; [done|by rewrite lookup_insert_eq|].
  intros l Hl. by rewrite lookup_insert_ne.
Qed.

Lemma update_target_lookup l f g l' :
  Target (update_target l f g) l' = if decide (l' = l) then f <$> Target g l else Target g l'.
Proof.
  unfold Target, shard_Get, update_target. cbn. case_decide as Hl.
  - subst l'. rewrite lookup_alter_eq. by destruct (g_targets g !! l).
  - by rewrite lookup_alter_ne.
Qed.

Lemma update_target_wf l f g : (forall t, Label (f t) = Label t) -> graph_wf g -> graph_wf (update_target l f g).
Proof.
  intros Hf Hwf l' v Hl. cbn in Hl. destruct (decide (l' = l)) as [->|Hne].
  - rewrite lookup_alter_eq in Hl. destruct (g_targets g !! l) as [v'|] eqn:Hv; [|done]. injection Hl as <-.
    specialize (Hwf l v' Hv). cbn. destruct (Wait v'); [by rewrite Hwf|].
    destruct Hwf as (t & -> & <-). exists (f t). by rewrite Hf.
  - rewrite lookup_alter_ne in Hl by done. exact (Hwf l' v Hl).
Qed.

(** A package whose targets are in the graph, under their names, and whose outputs
    are those of its targets. *)
Record pkg_ok (g : BuildGraph) (p : Package) : Prop := {
  po_targets : forall name l, pkg_targets p !! name = Some l ->
    Name l = name /\ PackageName l = pkg_Name p /\ Subrepo l = SubrepoName p /\ is_Some (Target g l);
  po_owner : forall k l, pkg_Outputs p !! k = Some l -> is_Some (Target g l);
  po_registered : forall name l t out, pkg_targets p !! name = Some l -> Target g l = Some t ->
    out ∈ registered_outputs t ->
    exists l', pkg_Outputs p !! out_key t out = Some l' /\
      (l' = l \/ (IsFilegroup t = true /\ IsFilegroup (deref_in g l') = true));
}.

(** Nothing that is in the graph [g] changes in [g']. *)
Definition extends (g g' : BuildGraph) : Prop := forall l, is_Some (Target g l) -> Target g' l = Target g l.

Lemma deref_in_extends g g' l : extends g g' -> is_Some (Target g l) -> deref_in g' l = deref_in g l.
Proof. intros He Hl. unfold deref_in. by rewrite He. Qed.

(** Registering all the outputs of a target. *)
Lemma register_all d outs x p t' :
  foldM (fun t out => MustRegisterOutput d out t) (x, p) outs = Ok t' ->
  t'.1 = x /\ t'.2 = with_outputs (pkg_Outputs t'.2) p /\
  claims d (Label x) (IsFilegroup x) (pkg_Outputs p) (pkg_Outputs t'.2) /\
  forall out, out ∈ outs -> pkg_Outputs t'.2 !! out_key x out = Some (Label x).
Proof.
  revert p. induction outs as [|out outs IH]; intros p; cbn [foldM].
  - intros [= <-]. split_and!; [done|by destruct p|done|]. intros out Ho. by apply not_elem_of_nil in Ho.
  - intros (t1 & H1 & H2)%bind_Ok. pose proof (MustRegisterOutput_growing d out _ _ H1) as [_ _ C1].
    apply MustRegisterOutput_spec in H1 as [-> _]. apply IH in H2 as (Hx & Hp & C2 & Ho).
    split_and!; [done|rewrite Hp; by destruct p|etrans; [exact C1|exact C2]|].
    intros o [->|Hin]%elem_of_cons; [|by apply Ho]. cbn in C2.
    destruct (c_kept _ _ _ _ _ C2 (out_key x out) (Label x)) as [?|[? _]]; [|done..].
    cbn. by rewrite lookup_insert_eq.
Qed.

(** A package stays as it should when its rules claim the outputs [o] for a new target. *)
Lemma pkg_ok_add g g' p t o :
  pkg_ok g p -> extends g g' -> Target g (Label t) = None -> Target g' (Label t) = Some t ->
  PackageName (Label t) = pkg_Name p -> Subrepo (Label t) = SubrepoName p ->
  pkg_targets p !! Name (Label t) = None ->
  claims (deref_in g') (Label t) (IsFilegroup t) (pkg_Outputs p) o ->
  (forall out, out ∈ registered_outputs t -> o !! out_key t out = Some (Label t)) ->
  pkg_ok g' (with_outputs o (pkg_AddTarget p (Label t))).
Proof.
  intros [Ht Ho Hr] He Hn Hs Hp Hsub Hfresh C Hreg. split; cbn.
  - intros name l [[<- <-]|[_ Hl]]%lookup_insert_Some; [by eauto|].
    destruct (Ht name l Hl) as (?&?&?&Hl'). split_and!; [done..|]. by rewrite He.
  - intros k l [Hk| ->]%(c_mine _ _ _ _ _ C); [|by eauto]. rewrite He; eauto.
  - intros name l u out [[<- <-]|[_ Hl]]%lookup_insert_Some Hu Hout.
    + assert (u = t) as -> by congruence. eauto.
    + destruct (Ht name l Hl) as (_ & _ & _ & Hlg). rewrite He in Hu by done.
      destruct (Hr name l u out Hl Hu Hout) as (l' & Hl' & Hor).
      pose proof (Ho _ _ Hl') as Hg. rewrite <- (deref_in_extends g g' l' He Hg) in Hor.
      destruct (c_kept _ _ _ _ _ C _ _ Hl') as [?|(Hk & [->|[Hf Hf']])]; [by eauto|by destruct Hg; simplify_eq|].
      exists (Label t). split; [done|]. right.
      assert (deref_in g' (Label t) = t) as -> by (unfold deref_in; by rewrite Hs).
      split; [|done]. destruct Hor as [->|[? _]]; [|done].
      rewrite (deref_in_extends g g' l He Hg) in Hf'. unfold deref_in in Hf'. by rewrite Hu in Hf'.
Qed.

Lemma claims_ext d d' l f o o' :
  (forall k l', o !! k = Some l' -> IsFilegroup (d l') = IsFilegroup (d' l')) ->
  claims d l f o o' -> claims d' l f o o'.
Proof. intros Hd [Hm Hk]. split; [done|]. intros k l' Ho. rewrite <- (Hd k l' Ho). by apply Hk. Qed.

(** Marking a target as added by a callback. *)
Lemma mark_callback g l :
  let g' := update_target l (upd_AddedPostBuild (fun _ => true)) g in
  (graph_wf g -> graph_wf g') /\ (forall l', l' <> l -> Target g' l' = Target g l') /\
  Target g' l = upd_AddedPostBuild (fun _ => true) <$> Target g l /\
  forall l', IsFilegroup (deref_in g' l') = IsFilegroup (deref_in g l').
Proof.
  intros g'. split_and!.
  - by apply update_target_wf.
  - intros l' Hl. unfold g'. by rewrite update_target_lookup, decide_False.
  - unfold g'. by rewrite update_target_lookup, decide_True.
  - intros l'. unfold deref_in, g'. rewrite update_target_lookup. case_decide; [|done]. subst l'.
    by destruct (Target g l).
Qed.

Lemma arg_at_insert args i j o : i <> j -> arg_at (<[i:=o]> args) j = arg_at args j.
Proof. intros Hij. unfold arg_at. by rewrite list_lookup_insert_ne. Qed.

(** The defaults of the configuration do not change the other arguments. *)
Lemma rule_arguments_other st s args j :
  j ∉ [Idx.visibility; Idx.testOnly; Idx.licences; Idx.sandbox; Idx.testSandbox; Idx.local] ->
  arg_at (rule_arguments st s args) j = arg_at args j.
Proof.
  intros Hj. unfold rule_arguments. cbv zeta. rewrite !not_elem_of_cons in Hj. destruct Hj as (?&?&?&?&?&?&_).
  case_bool_decide; by rewrite !arg_at_insert.
Qed.

Lemma state_AddTarget_spec p g t p' g' :
  graph_wf g -> state_AddTarget p g t = Ok (p', g') ->
  AddTarget g t = Ok g' /\
  claims (deref_in g') (Label t) (IsFilegroup t) (pkg_Outputs p) (pkg_Outputs p') /\
  p' = with_outputs (pkg_Outputs p') (pkg_AddTarget p (Label t)) /\
  forall out, out ∈ registered_outputs t -> pkg_Outputs p' !! out_key t out = Some (Label t).
Proof.
  intros Hwf (g1 & Hg & ([x p1] & Hr & [= <- <-])%bind_Ok)%bind_Ok.
  by apply register_all in Hr as (_ & Hp & Hc & Ho).
Qed.

Section rules.
Context (c : settings).
Context (range_order : gmap string pyObject -> list (string * pyObject)).

(** A call of [build_rule] that returns, taken apart. *)
Lemma buildRule_Ok st s g args p v p' g' :
  s_pkg s = Some p -> buildRule c range_order st s g args = Ok (v, p', g') ->
  exists t0 t p1 g1, createTarget c st (rule_arguments st s args) p = Ok t0 /\
    pkg_Target p (Name (Label t0)) = None /\
    grows (deref_in g) (t0, p) (t, p1) /\
    state_AddTarget p1 g t = Ok (p', g1) /\ v = pyString (":" +:+ Name (Label t)) /\
    g' = if s_Callback s then update_target (Label t) (upd_AddedPostBuild (fun _ => true)) g1 else g1.
Proof.
  unfold buildRule. intros -> (t0 & Ht0 & H)%bind_Ok. apply bind_Ok in H as ([] & Hd%assert_Ok & H).
  apply bind_Ok in H as ([t p1] & Hp & H). apply bind_Ok in H as ([p2 g1] & Hs & [= <- <- <-]).
  apply populateTarget_growing in Hp. apply negb_true_iff in Hd. exists t0, t, p1, g1. split_and!; try done.
  by destruct (pkg_Target p _); [case_bool_decide as Hb; [|destruct Hb]|].
Qed.

(** What a call of [build_rule] in a package promises: one target is added, which was
    in neither the package nor the graph, under a label of the package; everything else
    stays as it is; the package and the graph are well formed again, so that every
    output of each target of the package is registered for it. *)
Record adds_target (callback : bool) (p : Package) (g : BuildGraph) (p' : Package) (g' : BuildGraph)
    (t : BuildTarget) : Prop := {
  at_new : pkg_targets p !! Name (Label t) = None /\ Target g (Label t) = None;
  at_graph : Target g' (Label t) = Some t;
  at_package : pkg_targets p' = <[Name (Label t) := Label t]> (pkg_targets p);
  at_others : forall l, l <> Label t -> Target g' l = Target g l;
  at_pkg : pkg_Name p' = pkg_Name p /\ SubrepoName p' = SubrepoName p;
  at_deps : deps_wf t;
  at_callback : callback = true -> target_AddedPostBuild t = true;
  at_wf : graph_wf g';
  at_ok : pkg_ok g' p';
}.

Lemma buildRule_adds st s g args p v p' g' :
  graph_wf g -> pkg_ok g p -> s_pkg s = Some p ->
  buildRule c range_order st s g args = Ok (v, p', g') ->
  exists name t, arg_at args Idx.name = Some (pyString name) /\ target_name args name = Ok (Name (Label t)) /\
    good_name p name (Label t) /\ v = pyString (":" +:+ Name (Label t)) /\ adds_target (s_Callback s) p g p' g' t.
Proof.
  intros Hwf Hok Hs Hb.
  destruct (buildRule_Ok st s g args p v p' g' Hs Hb) as (t0 & t & p1 & g1 & Hc & Hfresh & [[HL HF HB HD] Hp1 C1] & Ha & -> & ->).
  cbn in *. apply createTarget_spec in Hc as (name & Hname & Hn & Hg & Hd0).
  unfold target_name in Hn. rewrite rule_arguments_other in Hname, Hn by set_solver. rewrite <- HL in Hn, Hg, Hfresh.
  apply state_AddTarget_spec in Ha as (Ha & C2 & Hp' & Ho); [|done].
  pose proof (AddTarget_wf _ _ _ Hwf Ha) as Hwf1. apply AddTarget_lookup in Ha as (Hn0 & Hn1 & Hext1); [|done].
  set (u := if s_Callback s then upd_AddedPostBuild (fun _ => true) t else t).
  set (g' := if s_Callback s then _ else g1).
  assert (Label u = Label t /\ IsFilegroup u = IsFilegroup t /\ registered_outputs u = registered_outputs t
    /\ out_key u = out_key t) as (HuL & HuF & HuR & HuK) by (unfold u; by destruct (s_Callback s)).
  destruct (mark_callback g1 (Label t)) as (M1 & M2 & M3 & M4).
  assert (graph_wf g' /\ Target g' (Label u) = Some u /\ (forall l, l <> Label t -> Target g' l = Target g l)
    /\ forall l, IsFilegroup (deref_in g1 l) = IsFilegroup (deref_in g' l)) as (Hwf' & Hu & Hext & Hfg).
  { unfold g', u. destruct (s_Callback s); [|by split_and!].
    split_and!; [by apply M1|by change (Label (upd_AddedPostBuild (fun _ => true) t)) with (Label t); rewrite M3, Hn1|
      intros l Hl; rewrite M2 by done; by apply Hext1|intros; by rewrite M4]. }
  assert (extends g g') as He by (intros l Hl; apply Hext; intros ->; rewrite Hn0 in Hl; by destruct Hl).
  assert (deps_wf u).
  { unfold u. destruct (s_Callback s); [|by auto]. apply (k_deps t); [by apply kept_same|by auto]. }
  assert (pkg_ok g' p').
  { assert (p' = with_outputs (pkg_Outputs p') (pkg_AddTarget p (Label u))) as ->.
    { rewrite HuL, Hp', Hp1. done. }
    destruct Hg. apply (pkg_ok_add g g' p u); rewrite ?HuL, ?HuF; try done; [by rewrite <- HuL| |].
    + cbn. etrans.
      * apply (claims_ext (deref_in g)); [|rewrite HL, HF; exact C1].
        intros k l' Hl'. by rewrite (deref_in_extends g g') by eauto using po_owner.
      * apply (claims_ext (deref_in g1)); [|exact C2]. auto.
    + rewrite HuR, HuK. exact Ho. }
  exists name, u. rewrite HuL. split_and!; [done..|]. split; rewrite ?HuL; try done.
  - by rewrite <- HuL.
  - by rewrite Hp', Hp1.
  - by rewrite Hp', Hp1.
  - intros Hcb. unfold u. by rewrite Hcb.
Qed.

(** C23: [build_rule], in a package and a graph that are well formed, adds one target to
    both, as [adds_target] says, under the name that it is given (and the tag), and its
    value is that name; and it fails if it is not given a name, for a name that is
    reserved or has a reserved character, and for the name of another target of the
    package. *)
Theorem buildRule_spec st s g args p :
  graph_wf g -> pkg_ok g p -> s_pkg s = Some p ->
  (forall v p' g', buildRule c range_order st s g args = Ok (v, p', g') ->
    exists name t, arg_at args Idx.name = Some (pyString name) /\ target_name args name = Ok (Name (Label t)) /\
      good_name p name (Label t) /\ v = pyString (":" +:+ Name (Label t)) /\ adds_target (s_Callback s) p g p' g' t) /\
  ((forall name, arg_at args Idx.name = Some (pyString name) ->
      name = "all" \/ contains_byte "/" name = true \/ contains_byte ":" name = true \/
      exists n, target_name args name = Ok n /\ (validateTargetName n = false \/ is_Some (pkg_targets p !! n))) ->
   forall r, buildRule c range_order st s g args <> Ok r).
Proof.
  intros Hwf Hok Hs. split; [intros; by apply (buildRule_adds st)|].
  intros Hbad [[v p'] g'] H. eapply buildRule_adds in H as (name & t & Hname & Hn & [? ? Hv Hall [Hc1 Hc2]] & _ & [[Hf _] _]); [|done..].
  destruct (Hbad name Hname) as [|[|[|(n & Hn' & Hor)]]]; [congruence..|].
  assert (n = Name (Label t)) as -> by congruence. rewrite Hv, Hf in Hor. by destruct Hor as [|[]].
Qed.

(** Calls of [build_rule], one after the other, each from its own scope and state. *)
Inductive rule_calls : Package * BuildGraph -> Package * BuildGraph -> Prop :=
  | calls_none pg : rule_calls pg pg
  | calls_one pg p g st s args v p' g' :
      rule_calls pg (p, g) -> s_pkg s = Some p -> buildRule c range_order st s g args = Ok (v, p', g') ->
      rule_calls pg (p', g').

Lemma rule_calls_ok pg pg' :
  rule_calls pg pg' -> graph_wf pg.2 -> pkg_ok pg.2 pg.1 -> graph_wf pg'.2 /\ pkg_ok pg'.2 pg'.1.
Proof.
  induction 1 as [|pg p g st s args v p' g' _ IH Hs Hb]; [done|]. intros Hwf Hok.
  destruct (IH Hwf Hok) as [Hwf1 Hok1]. cbn in *.
  destruct (buildRule_adds st s g args p v p' g') as (name & t & _ & _ & _ & _ & []); done.
Qed.

Lemma pkg_ok_new g name subrepo : pkg_ok g (NewPackage name subrepo).
Proof. split; cbn; intros *; by rewrite lookup_empty. Qed.

End rules.

(** ** A concrete package *)

Definition ex_settings : settings :=
  MkSettings false ∅ 600 600 "opt" [] [] [] "linux_amd64" "" "".

(** The lists [[x]], [[./x]] and [[]], dicts with the first two as [a], and an empty dict. *)
Definition ex_list (a n : nat) : pyObject := pyList (MkGslice a 0 n n).
Definition ex_heap : heap :=
  MkHeap {[0%nat := [pyString "x"]; 1%nat := [pyString "./x"]; 2%nat := []]}
    {[3%nat := {["a" := ex_list 0 1]}; 4%nat := {["a" := ex_list 1 1]}; 5%nat := ∅]} {[6%nat := MkConfig 5 None]} 7.
Definition ex_state : state := set_heap ex_heap root.

(** The arguments of a call, over the defaults of [build_rule]. *)
Definition ex_args (given : list (nat * pyObject)) : list (option pyObject) :=
  foldl (fun args '(i, o) => <[i := Some o]> args) (replicate Idx.count (Some pyNone))
    ([(Idx.tag, pyString ""); (Idx.outDirs, ex_list 2 0); (Idx.entryPoints, pyDict 5); (Idx.env, pyDict 5)] ++ given).

Definition ex_rule (pg : Package * BuildGraph) (given : list (nat * pyObject)) : res (pyObject * Package * BuildGraph) :=
  buildRule ex_settings map_to_list ex_state (MkRuleScope (Some pg.1) 6 false) pg.2 (ex_args given).

Lemma ex_rule_eq pg given :
  ex_rule pg given =
  buildRule ex_settings map_to_list ex_state (MkRuleScope (Some pg.1) 6 false) pg.2 (ex_args given).
Proof. reflexivity. Qed.

Definition ex_new : Package * BuildGraph := (NewPackage "p" "", NewGraph).
Definition ex_lib : list (nat * pyObject) :=
  [(Idx.name, pyString "lib"); (Idx.cmd, pyString "true"); (Idx.outs, ex_list 0 1)].

Lemma ex_calls pg given v p g :
  ex_rule pg given = Ok (v, p, g) ->
  rule_calls ex_settings map_to_list ex_new pg -> rule_calls ex_settings map_to_list ex_new (p, g).
Proof. destruct pg as [p0 g0]. intros H Hc. by eapply calls_one; [exact Hc| |exact H]. Qed.

Lemma buildRule_spec_witness :
  exists p' g', ex_rule ex_new ex_lib = Ok (pyString ":lib", p', g') /\
    exists t, adds_target false ex_new.1 ex_new.2 p' g' t /\ Label t = MkBuildLabel "p" "lib" "".
Proof.
  assert (match ex_rule ex_new ex_lib with Ok (v, _, _) => bool_decide (v = pyString ":lib") | _ => false end = true)
    as Hv by (vm_compute; reflexivity).
  destruct (ex_rule ex_new ex_lib) as [[[v p'] g']| |] eqn:H; [|done..]. apply bool_decide_eq_true in Hv as ->.
  exists p', g'. split; [done|]. rewrite ex_rule_eq in H.
  destruct (buildRule_spec ex_settings map_to_list ex_state (MkRuleScope (Some ex_new.1) 6 false) ex_new.2
    (ex_args ex_lib) ex_new.1) as [Hok _]; [apply NewGraph_wf|apply pkg_ok_new|done|].
  destruct (Hok (pyString ":lib") p' g' H) as (name & t & Hn & Ht & [Hp Hs _ _ _] & _ & Ha). exists t. split; [exact Ha|].
  assert (arg_at (ex_args ex_lib) Idx.name = Some (pyString "lib") /\ target_name (ex_args ex_lib) "lib" = Ok "lib")
    as [Hn' Ht'] by (split; vm_compute; reflexivity).
  rewrite Hn' in Hn. injection Hn as <-. rewrite Ht' in Ht. injection Ht as Ht.
  destruct (Label t); cbn in *. by subst.
Defined.

(** A filegroup of [x], and another: they share an output, as filegroups may. *)
Definition ex_group (name : string) : list (nat * pyObject) :=
  [(Idx.name, pyString name); (Idx.cmd, filegroupCommand); (Idx.srcs, ex_list 0 1)].

Definition ex_after (pg : Package * BuildGraph) (given : list (nat * pyObject)) : Package * BuildGraph :=
  match ex_rule pg given with Ok (_, p, g) => (p, g) | _ => pg end.

Definition ex_groups : Package * BuildGraph := ex_after (ex_after ex_new (ex_group "f")) (ex_group "g").
Definition ex_target (pg : Package * BuildGraph) (name : string) : BuildTarget := deref_in pg.2 (MkBuildLabel "p" name "").

Lemma ex_after_calls pg given :
  rule_calls ex_settings map_to_list ex_new pg -> rule_calls ex_settings map_to_list ex_new (ex_after pg given).
Proof. unfold ex_after. destruct (ex_rule pg given) as [[[v p] g]| |] eqn:H; [by eapply ex_calls|done..]. Qed.


(** A second rule with the output [x] is refused; but one whose output is the named
    output [./x], which is the same file, is not, because it is registered as it is
    written. *)
Lemma named_output_clash_missed :
  let named name d := [(Idx.name, pyString name); (Idx.cmd, pyString "true"); (Idx.outs, pyDict d)] in
  let first := ex_after ex_new (named "lib" 3%nat) in
  ex_rule first [(Idx.name, pyString "other"); (Idx.cmd, pyString "true"); (Idx.outs, ex_list 0 1)]
    = Err (EPanic "rule //p:other attempts to output x twice") /\
  let both := ex_after first (named "other" 4%nat) in
  namedOutputs (ex_target both "lib") = {["a" := ["x"]]} /\ namedOutputs (ex_target both "other") = {["a" := ["x"]]}.
Proof. split; [by vm_compute|]. split; by vm_compute. Qed.
