(* ===== verification/TargetBuiltins.v ===== *)
(** The builtins that read and change targets: the second half of
    [src/parse/asp/builtins.go].

    These functions run in a scope ([target_scope]) and act on the values of the
    interpreter ([state]) and on the package being parsed and the graph ([world]). The
    target that a name stands for is the one the graph has under the label the package
    has for it; a Go pointer to a target is that label. *)
From S2P Require Import Prelude GoStrings Labels Cmap Targets Graph Inputs Lexer GoText Values Ast Parser Objects Interp Builtins BuildRules.

#[local] Open Scope Z_scope.

(** ** The monad *)

Record world := MkWorld {
  w_pkg : option Package;
  w_graph : BuildGraph;
}.

Definition B (A : Type) : Type := state * world -> res (A * (state * world)).

#[export] Instance B_ret : MRet B := fun A a s => Ok (a, s).
#[export] Instance B_bind : MBind B := fun A C f m s => '(a, s) ← m s; f a s.

Definition bret {A} (a : A) : B A := fun s => Ok (a, s).
Definition bfail {A} (e : err) : B A := fun _ => Err e.
Definition bassert (b : bool) (msg : string) : B unit := if b then bret tt else bfail (EPanic msg).
(** Something of the interpreter, or of a result. *)
Definition interp {A} (m : I A) : B A := fun s => '(a, st) ← m s.1; Ok (a, (st, s.2)).
Definition of_res {A} (r : world -> res A) : B A := fun s => a ← r s.2; Ok (a, s).
Definition world_of : B world := fun s => Ok (s.2, s).
Definition set_pkg (p : Package) : B unit := fun s => Ok (tt, (s.1, MkWorld (Some p) (w_graph s.2))).

Definition nil_pointer : err := EPanic "runtime error: invalid memory address or nil pointer dereference".

(** The package of the scope, which is dereferenced. *)
Definition the_pkg : B Package := of_res (fun w => match w_pkg w with Some p => Ok p | None => Err nil_pointer end).

(** Changes the target under a label, which may fail. *)
Definition change_target (l : BuildLabel) (f : BuildTarget -> res BuildTarget) : B unit := fun s =>
  t ← TargetOrDie (w_graph s.2) l;
  t ← f t;
  Ok (tt, (s.1, MkWorld (w_pkg s.2) (update_target l (fun _ => t) (w_graph s.2)))).

Definition iterB {A} (f : A -> B unit) : list A -> B unit :=
  fix go l := match l with [] => bret tt | x :: l => f x;; go l end.

(** ** Finding targets *)

Definition getTargetPost (name : string) : B BuildTarget :=
  of_res (fun w =>
    match w_pkg w with
    | None => Err nil_pointer
    | Some pkg =>
        match pkg_Target pkg name with
        | None => Err (EPanic ("Unknown build target " +:+ name +:+ " in " +:+ pkg_Name pkg))
        | Some l =>
            let t := deref_in (w_graph w) l in
            if (state_number (target_state t) <? state_number Built)%nat then Ok t
            else Err (EPanic ("Attempted to modify target " +:+ target_String t +:+ ", but it's already built"))
        end
    end).

(** A target of this package by its name, or one of any by its label. *)
Definition any_target (name : string) : B BuildTarget :=
  if LooksLikeABuildLabel name then
    pkg ← the_pkg;
    of_res (fun w => l ← ParseBuildLabel name (pkg_Name pkg); TargetOrDie (w_graph w) l)
  else getTargetPost name.

(** ** Labels of targets *)

Section labels.
Context (g : BuildGraph) (prefix : string) (root : BuildLabel) (all : bool).

(** What a target adds to the map of labels. *)
Definition own_labels (t : BuildTarget) : list string :=
  map (fun label => TrimSpace (TrimPrefix label prefix))
    (base.filter (fun label => has_prefix label prefix = true) (target_Labels t)).

(** The function that [getLabelsInternal] calls itself: the targets that are done, and
    the keys that were put into the map of labels. *)
Fixpoint get_labels (fuel : nat) (depth : Z) (s : gset BuildLabel * list string) (l : BuildLabel) :
    res (gset BuildLabel * list string) :=
  match fuel with
  | O => NoFuel
  | S fuel =>
      t ← TargetOrDie g l;
      let s := ({[l]} ∪ s.1, s.2 ++ own_labels t) in
      if depth =? 0 then Ok s
      else if negb (OutputIsComplete t) || bool_decide (l = root) || all then
        let '(deps, unresolved) := Dependencies g t in
        if bool_decide (unresolved = []) then
          foldM (fun s dep => if decide (dep ∈ s.1) then Ok s else get_labels fuel (Z.max (depth - 1) (-1)) s dep) s deps
        else Err (EFatal ("get_labels called on " +:+ target_String t +:+ ", but its dependencies aren't in the build graph"))
      else Ok s
  end.
End labels.

Definition getLabelsInternal (fuel : nat) (g : BuildGraph) (target : BuildTarget) (prefix : string)
    (minState : BuildTargetState) (all : bool) (maxDepth : Z) : res (list string) :=
  if (state_number (target_state target) <? state_number minState)%nat then
    Err (EFatal ("get_labels called on a target that is not yet built: " +:+ target_String target))
  else if all && negb (maxDepth =? -1) then
    Err (EFatal "get_labels: if all is True, transitive must be True or maxdepth must be -1")
  else
    '(_, labels) ← get_labels g prefix (Label target) all fuel maxDepth (∅, []) (Label target);
    Ok (sort_strings (base.elements (list_to_set labels : gset string))).

(** Enough for each target to be done once. *)
Definition labels_fuel (g : BuildGraph) : nat := S (length (graph_AllTargets g)).

Definition getLabels (args : list (option pyObject)) : B pyObject :=
  name ← interp (str_arg args 0);
  prefix ← interp (str_arg args 1);
  all ← interp (arg args 2 ≫= truthy);
  maxDepth ← interp (int_arg args 4);
  maxDepth ← match arg_at args 3 with
             | Some (pyBool t) =>
                 bassert (maxDepth =? -1) "get_labels: only one of transitive and maxdepth may be specified, not both";;
                 bret (if t then maxDepth else 0)
             | _ => bret maxDepth
             end;
  target ← any_target name;
  labels ← of_res (fun w => getLabelsInternal (labels_fuel (w_graph w)) (w_graph w) target prefix
             (if LooksLikeABuildLabel name then Built else Building) all maxDepth);
  interp (fromStringList labels).

Definition addLabel (fuel : nat) (args : list (option pyObject)) : B pyObject :=
  name ← interp (str_arg args 0);
  target ← any_target name;
  label ← interp (arg args 1 ≫= text fuel);
  change_target (Label target) (fun t => Ok (AddLabel t label));;
  bret pyNone.

(** ** Changing targets *)

Section builtins.
Context (c : settings).
Context (range_order : gmap string pyObject -> list (string * pyObject)).
(** whether the scope is that of a callback *)
Context (Callback : bool) (home : string).
Context (args : list (option pyObject)).

Definition in_callback : B unit := bassert Callback "can only be called from a pre- or post-build callback".

Definition modified (l : BuildLabel) : B unit := change_target l (fun t => Ok (upd_ModifiedByCallback (fun _ => true) t)).

Definition addDep : B pyObject :=
  in_callback;;
  name ← interp (str_arg args 0);
  target ← getTargetPost name;
  dep ← interp (str_arg args 1);
  pkg ← the_pkg;
  dep ← of_res (fun _ => parseLabelInPackage c dep pkg);
  exported ← interp (arg args 2 ≫= truthy);
  runtime ← interp (arg args 3 ≫= truthy);
  change_target (Label target) (fun t => AddMaybeExportedDependency t dep exported false false runtime);;
  modified (Label target);;
  bret pyNone.

(** A datum, or one of them. *)
Definition add_datum (l : BuildLabel) (name : string) (add : BuildTarget -> BuildInput -> res BuildTarget)
    (o : pyObject) : B unit :=
  pkg ← the_pkg;
  i ← of_res (fun _ => parseBuildInput c pkg o name false false);
  match i with Some i => change_target l (fun t => add t i) | None => bret tt end.

Definition list_elements (l : gslice) : B (list pyObject) := interp (gets (fun st => elements (hp st) l)).

Definition addData : B pyObject :=
  in_callback;;
  label ← interp (arg args 0);
  datum ← interp (arg args 1);
  name ← interp (as_str label);
  target ← getTargetPost name;
  match datum with
  | pyString _ => add_datum (Label target) name AddDatum datum
  | pyList l => xs ← list_elements l; iterB (add_datum (Label target) name AddDatum) xs
  | pyDict d =>
      kvs ← interp (gets (fun st => range_order (dict_of (hp st) d)));
      iterB (fun '(k, v) =>
        match v with
        | pyList l => xs ← list_elements l; iterB (add_datum (Label target) name (fun t => AddNamedDatum t k)) xs
        | _ => interp (conversion v "asp.pyList")
        end) kvs
  | _ => bfail (EPanic "Unrecognised data type passed to add_data")
  end;;
  modified (Label target);;
  bret pyNone.

(** [MustRegisterOutput] of a target that is in the graph. *)
Definition register_output (out : string) (l : BuildLabel) : B unit :=
  pkg ← the_pkg;
  '(_, pkg) ← of_res (fun w => t ← TargetOrDie (w_graph w) l; MustRegisterOutput (deref_in (w_graph w)) out (t, pkg));
  set_pkg pkg.

Definition addOut : B pyObject :=
  target ← interp (str_arg args 0) ≫= getTargetPost;
  name ← interp (str_arg args 1);
  out ← interp (str_arg args 2);
  (if String.eqb out "" then
     change_target (Label target) (fun t => AddOutput t name);;
     register_output name (Label target)
   else
     bassert (negb (bool_decide (is_Some (EntryPoints target !! name)))) "Named outputs can't have the same name as entry points";;
     change_target (Label target) (fun t => AddNamedOutput t name out);;
     register_output out (Label target));;
  bret pyNone.

Definition addEntryPoint : B pyObject :=
  target ← interp (str_arg args 0) ≫= getTargetPost;
  name ← interp (str_arg args 1);
  output ← interp (str_arg args 2);
  change_target (Label target) (fun t => AddEntryPoint t name output);;
  bret pyNone.

Definition addLicence : B pyObject :=
  target ← interp (str_arg args 0) ≫= getTargetPost;
  licence ← interp (str_arg args 1);
  change_target (Label target) (fun t => Ok (AddLicence t licence));;
  bret pyNone.

(** With one argument it is the command, with two that of a configuration. *)
Definition setCommand : B pyObject :=
  target ← interp (str_arg args 0) ≫= getTargetPost;
  config ← interp (str_arg args 1);
  command ← interp (str_arg args 2);
  change_target (Label target) (fun t =>
    if String.eqb command "" then Ok (upd_Command (fun _ => config) t) else AddCommand t config command);;
  bret pyNone.

(** ** Reading targets *)

(** A new dict of these entries. *)
Definition new_dict (m : gmap string pyObject) : I pyObject := d ← on_heap (alloc_dict m); iret (pyDict d).

Definition getOuts (fuel : nat) : B pyObject :=
  target ← interp (arg args 0 ≫= text fuel) ≫= any_target;
  outs ← of_res (fun w => Outputs home (w_graph w) target);
  interp (fromStringList outs).

(** The lists are made one after the other, in the order of the map. *)
Fixpoint dict_of_lists (l : list (string * list string)) (m : gmap string pyObject) : I pyObject :=
  match l with
  | [] => new_dict m
  | (k, v) :: l => o ← fromStringList v; dict_of_lists l (<[k := o]> m)
  end.

Definition getNamedOuts (fuel : nat) : B pyObject :=
  target ← interp (arg args 0 ≫= text fuel) ≫= any_target;
  interp (dict_of_lists
    (map_to_list (if IsFilegroup target then map input_String <$> NamedSources target else namedOutputs target)) ∅).

Definition getEntryPoints (fuel : nat) : B pyObject :=
  target ← interp (arg args 0 ≫= text fuel) ≫= any_target;
  interp (new_dict (pyString <$> EntryPoints target)).

Definition getLicences : B pyObject :=
  target ← interp (str_arg args 0) ≫= getTargetPost;
  interp (fromStringList (Licences target)).

Definition getCommand : B pyObject :=
  target ← interp (str_arg args 0) ≫= getTargetPost;
  config ← interp (str_arg args 1);
  if negb (String.eqb config "") then bret (pyString (GetCommandConfig target config))
  else if bool_decide (default ∅ (Commands target) = ∅) then bret (pyString (Command target))
  else interp (new_dict (pyString <$> default ∅ (Commands target))).
End builtins.

(** ** Names in a package *)

Section names.
Context (c : settings).
(** the label of the subinclude that is being interpreted *)
Context (subincludeLabel : option BuildLabel).
Context (args : list (option pyObject)).

Definition subincludePackage (w : world) : option Package :=
  l ← subincludeLabel;
  Some (default (NewPackage (PackageName l) (Subrepo l)) (graph_Package (w_graph w) (PackageName l) (Subrepo l))).

Definition contextPackage (w : world) : option Package :=
  match w_pkg w with None => subincludePackage w | Some p => Some p end.

(** The package that is asked for; [what] begins the error when there is none. *)
Definition scopeOrSubincludePackage (what : string) (subinclude : bool) : B (option Package) :=
  of_res (fun w =>
    if subinclude then
      match subincludePackage w with
      | Some p => Ok (Some p)
      | None => Err (EPanic (what +:+ " from this scope: not in a subinclude scope"))
      end
    else Ok (contextPackage w)).

Definition deref_pkg (p : option Package) : B Package :=
  of_res (fun _ => match p with Some p => Ok p | None => Err nil_pointer end).

Definition parseLabelInContextPkg (label : string) : B BuildLabel :=
  of_res (fun w => match contextPackage w with Some p => parseLabelInPackage c label p | None => Err nil_pointer end).

Definition packageName : B pyObject :=
  subinclude ← interp (arg args 1 ≫= truthy);
  pkg ← scopeOrSubincludePackage "cannot call package_name()" subinclude;
  given ← interp (arg args 0 ≫= truthy);
  if (given : bool) then
    label ← interp (str_arg args 0);
    pkg ← deref_pkg pkg;
    l ← of_res (fun _ => parseLabelInPackage c label pkg);
    bret (pyString (PackageName l))
  else pkg ← deref_pkg pkg; bret (pyString (pkg_Name pkg)).

Definition subrepoName : B pyObject :=
  subinclude ← interp (arg args 1 ≫= truthy);
  pkg ← scopeOrSubincludePackage "cannot call subrepo_name()" subinclude;
  given ← interp (arg args 0 ≫= truthy);
  named ← (if (given : bool) then
             label ← interp (str_arg args 0);
             pkg ← deref_pkg pkg;
             i ← of_res (fun _ => parseAnnotatedLabelInPackage c label pkg);
             bret (match input_Label i with Some l => Subrepo l | None => "" end)
           else bret "");
  if String.eqb named "" then pkg ← deref_pkg pkg; bret (pyString (SubrepoName pkg))
  else bret (pyString named).

Definition canonicalise : B pyObject :=
  subinclude ← interp (arg args 1 ≫= truthy);
  pkg ← scopeOrSubincludePackage "Cannot call canonicalise()" subinclude;
  label ← interp (str_arg args 0);
  pkg ← deref_pkg pkg;
  l ← of_res (fun _ => parseLabelInPackage c label pkg);
  bret (pyString (label_String l)).

(** ** select *)

(** how the target of another package is built, or waited for *)
Context (subincludeTarget : BuildLabel -> B BuildTarget).

Definition selectTarget (l : BuildLabel) : B BuildTarget :=
  w ← world_of;
  match w_pkg w with
  | Some pkg =>
      if String.eqb (PackageName l) (pkg_Name pkg) then
        match pkg_Target pkg (Labels.Name l) with
        | Some l => bret (deref_in (w_graph w) l)
        | None => bfail (EPanic ("Target " +:+ Labels.Name l +:+ " in select() call has not been defined yet"))
        end
      else subincludeTarget l
  | None => subincludeTarget l
  end.

Definition is_default (k : string) : bool := String.eqb k "//conditions:default" || String.eqb k "default".

(** The keys, from the last one on. *)
Fixpoint select_key (d : gmap string pyObject) (keys : list string) (def : option pyObject) : B pyObject :=
  match keys with
  | [] => match def with Some v => bret v | None => bfail (EPanic "None of the select() conditions matched") end
  | k :: keys =>
      if is_default k then select_key d keys (d !! k)
      else
        l ← parseLabelInContextPkg k;
        t ← selectTarget l;
        if HasLabel t "config:on" then bret (default pyNone (d !! k)) else select_key d keys def
  end.

Definition selectFunc : B pyObject :=
  let dict st := match arg_at args 0 ≫= asDict with Some d => dict_of (hp st) d | None => ∅ end in
  d ← interp (gets dict);
  select_key d (rev (dict_Keys d)) None.

(** ** package *)

(** how letters that are not ASCII are put in upper case *)
Context (unicode_upper : string -> string).
Context (range_order : gmap string pyObject -> list (string * pyObject)).

(** The dict of a plugin, with what is given for it. *)
Definition overridden (k : string) (m : gmap string pyObject) (l : list (string * pyObject)) :
    res (gmap string pyObject) :=
  foldM (fun m '(key, v) =>
    let key := ToUpper unicode_upper key in
    if bool_decide (is_Some (m !! key)) then Ok (<[key := v]> m)
    else Err (EPanic ("error calling package(): " +:+ k +:+ "." +:+ key +:+ " is not a known config value"))) m l.

(** One of the arguments of [package], for the configuration [conf]. *)
Definition package_arg (conf : nat) (kv : string * pyObject) : I unit :=
  let k := ToUpper unicode_upper kv.1 in
  configVal ← gets (fun st => config_Get (hp st) conf k);
  match configVal with
  | None => Error ("error calling package(): " +:+ k +:+ " is not a known config value")
  | Some configVal =>
      v ← match kv.2, configVal with
          | pyDict overrides, pyDict plugin =>
              m ← read_heap (fun h => overridden k (dict_of h plugin) (range_order (dict_of h overrides)));
              d ← on_heap (alloc_dict m);
              iret (pyDict d)
          | pyDict _, _ => Error ("error calling package(): can't assign a dict to " +:+ k +:+ " as it's not a dict")
          | v, _ => iret v
          end;
      on_heap (config_IndexAssign conf (pyString k) v)
  end.

(** [pkg], called with [sc] as its scope *)
Definition package (conf sc : nat) : B pyObject :=
  pkg ← the_pkg;
  bassert (NumTargets pkg =? 0)%nat "package() must be called before any build targets are defined";;
  kvs ← interp (gets (fun st => range_order (locals_of st sc)));
  interp (iterI (package_arg conf) kvs);;
  bret pyNone.
End names.

(** The builtins that change a target, which they are given the name of. *)
Definition modifiers (c : settings) (range_order : gmap string pyObject -> list (string * pyObject))
    (Callback : bool) (args : list (option pyObject)) : list (string * B pyObject) :=
  [("add_dep", addDep c Callback args); ("add_data", addData c range_order Callback args); ("add_out", addOut args);
   ("add_entry_point", addEntryPoint args); ("add_licence", addLicence args); ("set_command", setCommand args)].
