(* ===== verification/TargetChanges.v ===== *)
(** What the builtins that read and change targets guarantee ([TargetBuiltins]). *)
From S2P Require Import Prelude GoStrings Labels Cmap Targets Reach Graph Inputs Lexer GoText Values Ast Parser Objects.
From S2P Require Import Interp Builtins BuiltinLists BuildRules RuleInvariants TargetBuiltins.

#[local] Open Scope Z_scope.

#[local] Instance str_le_total : Total str_le.
Proof.
  intros a b. unfold str_le. destruct (str_ltb b a) eqn:H; [|by left]. right.
  destruct (str_ltb a b) eqn:H'; [|done]. pose proof (str_ltb_trans _ _ _ H H') as Hr. by rewrite str_ltb_irrefl in Hr.
Qed.

#[local] Instance str_le_trans : Transitive str_le.
Proof.
  intros a b c0. unfold str_le. intros Hab Hbc. destruct (str_ltb c0 a) eqn:H; [|done].
  destruct (decide (a = b)) as [->|Hne]; [congruence|].
  assert (str_ltb a b = true) as H' by (by rewrite str_ltb_total, Hab).
  by rewrite (str_ltb_trans _ _ _ H H') in Hbc.
Qed.

(** ** get_labels *)

Section labels.
Context (g : BuildGraph) (Hwf : graph_wf g).
Context (prefix : string) (root : BuildLabel) (all : bool).

#[local] Abbreviation nodes := (list_to_set (graph_AllTargets g) : gset BuildLabel).

Lemma in_nodes l : l ∈ nodes <-> is_Some (Target g l).
Proof. by rewrite elem_of_list_to_set, elem_of_AllTargets. Qed.

(** The targets whose labels are asked for next. *)
Definition label_succ (l : BuildLabel) : list BuildLabel :=
  match Target g l with
  | Some t => if negb (OutputIsComplete t) || bool_decide (l = root) || all then (Dependencies g t).1 else []
  | None => []
  end.

Definition emitted (l : BuildLabel) : list string :=
  match Target g l with Some t => own_labels prefix t | None => [] end.

(** Every dependency of every target is in the graph. *)
Definition resolved : Prop := forall l t, Target g l = Some t -> (Dependencies g t).2 = [].

Lemma label_succ_nodes : closed_set label_succ nodes.
Proof.
  intros x y Hx Hxy. apply in_nodes. unfold edge, label_succ in Hxy.
  destruct (Target g x) as [t|]; [|by apply not_elem_of_nil in Hxy].
  destruct (_ || all); [|by apply not_elem_of_nil in Hxy].
  apply elem_of_Dependencies in Hxy as (l & d & p & t' & _ & _ & _ & Hp & ->).
  rewrite (Target_Label g p t') by done. eauto.
Qed.

Lemma get_labels_step fuel s x :
  resolved -> x ∈ nodes ->
  get_labels g prefix root all (S fuel) (-1) s x =
  foldM (visit_new (fun fuel s l => get_labels g prefix root all fuel (-1) s l) fuel)
    ({[x]} ∪ s.1, s.2 ++ emitted x) (label_succ x).
Proof.
  intros Hr [t Ht]%in_nodes. cbn [get_labels]. unfold label_succ, emitted, TargetOrDie. rewrite Ht. cbn.
  destruct (_ || all); [|done]. rewrite (bool_decide_eq_true_2 _ (Hr x t Ht)). done.
Qed.

Lemma elem_of_own_labels t x :
  x ∈ own_labels prefix t <->
  exists label, label ∈ target_Labels t /\ has_prefix label prefix = true /\ x = TrimSpace (TrimPrefix label prefix).
Proof.
  unfold own_labels. rewrite list_elem_of_fmap. setoid_rewrite list_elem_of_filter. naive_solver.
Qed.
End labels.

(** [get_labels] without a depth limit ends, however the targets depend on each other,
    and gives - in order and without repetitions - what is left of the labels with the
    prefix, of the target and of everything that is reached from it through targets
    whose output is not complete (or through all of them, if asked). *)
Theorem get_labels_spec g target prefix minState all :
  graph_wf g -> resolved g -> Target g (Label target) = Some target ->
  (state_number minState <= state_number (target_state target))%nat ->
  exists ls, getLabelsInternal (labels_fuel g) g target prefix minState all (-1) = Ok ls /\
    NoDup ls /\ StronglySorted str_le ls /\
    forall x, x ∈ ls <-> exists l t label,
      rtc (edge (label_succ g (Label target) all)) (Label target) l /\ Target g l = Some t /\
      label ∈ target_Labels t /\ has_prefix label prefix = true /\ x = TrimSpace (TrimPrefix label prefix).
Proof.
  intros Hwf Hr Ht Hstate.
  destruct (visit_emit_root (label_succ g (Label target) all) (emitted g prefix) (list_to_set (graph_AllTargets g))
    (fun fuel s l => get_labels g prefix (Label target) all fuel (-1) s l)
    (label_succ_nodes g Hwf (Label target) all)) with (fuel := labels_fuel g) (out := @nil string) (x := Label target)
    as (news & Hs & _ & Hnews).
  - intros fuel s x Hx. by apply get_labels_step.
  - apply in_nodes; [done|by eexists].
  - unfold labels_fuel. pose proof (size_list_to_set_le (graph_AllTargets g)). lia.
  - unfold getLabelsInternal. rewrite (proj2 (Nat.ltb_ge _ _)) by done.
    assert (all && negb (-1 =? -1) = false) as -> by (by destruct all). rewrite Hs. cbn [mbind res_bind after fst snd].
    eexists. split; [reflexivity|]. split_and!.
    + unfold sort_strings. rewrite merge_sort_Permutation. apply NoDup_elements.
    + unfold sort_strings. apply (StronglySorted_merge_sort str_le).
    + intros x. unfold sort_strings. rewrite merge_sort_Permutation, elem_of_elements, elem_of_list_to_set. cbn.
      rewrite list_elem_of_bind. unfold emitted. split.
      * intros (l & Hx & Hl%Hnews). destruct (Target g l) as [t|] eqn:Hlt; [|by apply not_elem_of_nil in Hx].
        apply elem_of_own_labels in Hx as (label & ? & ? & ->). eauto 10.
      * intros (l & t & label & Hl & Hlt & Hin & Hp & ->). exists l. split; [|by apply Hnews].
        rewrite Hlt. apply elem_of_own_labels. eauto.
Qed.

(** A chain [//p:a] - [//p:c] - [//p:d], and [//p:r] that depends on [a] and on [c]; [d]
    has a label. *)
Definition labelled (name : string) (deps ls : list string) : BuildTarget :=
  upd_state (fun _ => Built) (upd_Labels (fun _ => ls)
    (upd_dependencies (fun _ => map (fun d => MkDep (MkBuildLabel "p" d "") false false false false false) deps)
      (NewBuildTarget (MkBuildLabel "p" name "")))).

Definition labels_example : BuildGraph :=
  build_graph [labelled "r" ["a"; "c"] ["go:root"]; labelled "a" ["c"] ["py:a"]; labelled "c" ["d"] [];
               labelled "d" [] ["go: deep "]].
Definition labels_root : BuildTarget := labelled "r" ["a"; "c"] ["go:root"].

Lemma labels_example_resolved : resolved labels_example.
Proof.
  intros l t Ht.
  assert (all_targets labels_example (fun t => bool_decide ((Dependencies labels_example t).2 = [])) = true) as Ha
    by (vm_compute; reflexivity).
  eapply all_targets_spec in Ha; [|apply build_graph_wf|exact Ht]. by apply bool_decide_eq_true in Ha.
Qed.

Lemma get_labels_spec_witness :
  exists ls, getLabelsInternal (labels_fuel labels_example) labels_example labels_root "go:" Built false (-1) = Ok ls /\
    "deep" ∈ ls.
Proof.
  destruct (get_labels_spec labels_example labels_root "go:" Built false) as (ls & Hls & _ & _ & Hin).
  - apply build_graph_wf.
  - apply labels_example_resolved.
  - vm_compute. reflexivity.
  - vm_compute. lia.
  - exists ls. split; [exact Hls|].
    assert (getLabelsInternal (labels_fuel labels_example) labels_example labels_root "go:" Built false (-1)
      = Ok ["deep"; "root"]) as Hc by (vm_compute; reflexivity).
    rewrite Hc in Hls. injection Hls as <-. left.
Defined.

(** With a depth of two, [d], which is two steps from the root, is missed: [c] is first
    got to through [a], where the depth is used up, and is then done. *)
Lemma get_labels_depth_missed :
  getLabelsInternal (labels_fuel labels_example) labels_example labels_root "go:" Built false 2 = Ok ["root"] /\
  edge (label_succ labels_example (Label labels_root) false) (Label labels_root) (MkBuildLabel "p" "c" "") /\
  edge (label_succ labels_example (Label labels_root) false) (MkBuildLabel "p" "c" "") (MkBuildLabel "p" "d" "").
Proof.
  assert (label_succ labels_example (Label labels_root) false (Label labels_root) = [MkBuildLabel "p" "a" ""; MkBuildLabel "p" "c" ""]
    /\ label_succ labels_example (Label labels_root) false (MkBuildLabel "p" "c" "") = [MkBuildLabel "p" "d" ""]) as [H1 H2]
    by (split; vm_compute; reflexivity).
  split; [vm_compute; reflexivity|]. unfold edge. rewrite H1, H2. split; set_solver.
Qed.

(** ** Changing one target *)

(** From one state of the world to another: only the target [l] changes, and of the
    package only its outputs. *)
Record changed (l : BuildLabel) (w w' : world) : Prop := {
  ch_others : forall l', l' <> l -> Target (w_graph w') l' = Target (w_graph w) l';
  ch_target : forall t, Target (w_graph w) l = Some t -> exists t', Target (w_graph w') l = Some t' /\ kept t t';
  ch_wf : graph_wf (w_graph w) -> graph_wf (w_graph w');
  ch_pkg : forall p, w_pkg w = Some p -> exists o, w_pkg w' = Some (with_outputs o p) /\
    forall t, Target (w_graph w) l = Some t -> Label t = l ->
      claims (deref_in (w_graph w)) l (IsFilegroup t) (pkg_Outputs p) o;
}.

#[export] Instance changed_preorder l : PreOrder (changed l).
Proof.
  split.
  - intros w. split; try done; [intros t Ht; by exists t|]. intros p Hp. exists (pkg_Outputs p).
    split; [rewrite Hp; by destruct p|]. by intros.
  - intros w1 w2 w3 [O1 T1 W1 P1] [O2 T2 W2 P2]. split.
    + intros l' Hl. by rewrite O2, O1.
    + intros t (t1 & H1 & K1)%T1. destruct (T2 t1 H1) as (t2 & H2 & K2). exists t2. split; [done|by etrans].
    + auto.
    + intros p (o & Hp & C1)%P1. destruct (P2 _ Hp) as (o' & Hp' & C2). exists o'. split; [by destruct p|].
      intros t Ht HL. destruct (T1 t Ht) as (t1 & Ht1 & K1). etrans; [by apply C1|].
      apply (claims_ext (deref_in (w_graph w2))).
      * intros k l' _. unfold deref_in. destruct (decide (l' = l)) as [->|Hl]; [|by rewrite O1].
        rewrite Ht, Ht1. by apply K1.
      * rewrite <- (k_filegroup _ _ K1). apply C2; [done|]. rewrite (k_label _ _ K1). done.
Qed.

Definition changes {A} (l : BuildLabel) (m : B A) : Prop := forall s a s', m s = Ok (a, s') -> changed l s.2 s'.2.

Lemma B_bind_Ok {A C} (m : B A) (k : A -> B C) s v s' :
  (m ≫= k) s = Ok (v, s') <-> exists a s1, m s = Ok (a, s1) /\ k a s1 = Ok (v, s').
Proof.
  unfold mbind, B_bind. rewrite bind_Ok. split.
  - intros ([a s1] & ? & ?). eauto.
  - intros (a & s1 & ? & ?). by exists (a, s1).
Qed.

Section changes.
Context (l : BuildLabel).

Lemma changes_bind {A C} (m : B A) (k : A -> B C) :
  changes l m -> (forall a, changes l (k a)) -> changes l (m ≫= k).
Proof. intros Hm Hk s v s' (a & s1 & H1 & H2)%B_bind_Ok. etrans; [by eapply Hm|by eapply Hk]. Qed.

Lemma changes_ret {A} (a : A) : changes l (bret a).
Proof. by intros s v s' [= <- <-]. Qed.

Lemma changes_fail {A} e : changes l (bfail e : B A).
Proof. done. Qed.

Lemma changes_assert b msg : changes l (bassert b msg).
Proof. destruct b; [apply changes_ret|apply changes_fail]. Qed.

Lemma changes_interp {A} (m : I A) : changes l (interp m).
Proof. intros s v s' ([a st] & _ & [= <- <-])%bind_Ok. done. Qed.

Lemma changes_of_res {A} (r : world -> res A) : changes l (of_res r).
Proof. intros s v s' (a & _ & [= <- <-])%bind_Ok. done. Qed.

Lemma changes_iter {A} (f : A -> B unit) xs : (forall x, changes l (f x)) -> changes l (iterB f xs).
Proof.
  intros Hf. induction xs as [|x xs IH]; [apply changes_ret|]. apply changes_bind; [apply Hf|]. intros _. exact IH.
Qed.

Lemma changes_target f : keeping f -> changes l (change_target l f).
Proof.
  intros Hf [st w] v s' (t & Ht%TargetOrDie_Ok & (t' & H & [= <- <-])%bind_Ok)%bind_Ok. cbn in Ht |- *.
  pose proof (Hf _ _ H) as Hk. split; cbn.
  - intros l' Hl. by rewrite update_target_lookup, decide_False.
  - intros t0 Ht0. rewrite update_target_lookup, decide_True, Ht0 by done. exists t'. split; [done|].
    assert (t0 = t) as -> by congruence. done.
  - intros Hwf l' v Hl. cbn in Hl. destruct (decide (l' = l)) as [->|Hne].
    + rewrite lookup_alter_eq in Hl. unfold Target, shard_Get in Ht.
      destruct (g_targets (w_graph w) !! l) as [v'|] eqn:Hv; [|done]. injection Hl as <-. cbn.
      specialize (Hwf l v' Hv). destruct (Wait v'); [congruence|].
      destruct Hwf as (t1 & Ht1 & <-). assert (t1 = t) as -> by congruence. exists t'.
      rewrite Ht1. split; [done|]. apply Hk.
    + rewrite lookup_alter_ne in Hl by done. exact (Hwf l' v Hl).
  - intros p Hp. exists (pkg_Outputs p). split; [rewrite Hp; by destruct p|]. by intros.
Qed.

Lemma changes_register out : changes l (register_output out l).
Proof.
  intros s v s' (p & s1 & Hp & H)%B_bind_Ok.
  assert (s1 = s /\ w_pkg s.2 = Some p) as [-> Hpkg].
  { apply bind_Ok in Hp as (p' & Hp & [= <- <-]). destruct (w_pkg s.2); [|done]. by injection Hp as ->. }
  apply B_bind_Ok in H as ([x p'] & s2 & H & [= <- <-]).
  apply bind_Ok in H as ([x' q] & (t & Ht%TargetOrDie_Ok & H)%bind_Ok & Heq).
  injection Heq as -> -> ->. apply MustRegisterOutput_spec in H as [[= -> ->] Hc].
  split; cbn; try done; [intros t0 Ht0; by exists t0|]. rewrite Hpkg. intros p0 [= <-]. eexists. split; [reflexivity|].
  intros t0 Ht0 HL. assert (t0 = t) as -> by congruence. rewrite HL. split.
  - intros k l' [[<- <-]|[_ ?]]%lookup_insert_Some; auto.
  - intros k l' Hk. destruct (decide (k = out_key t out)) as [->|].
    + right. rewrite lookup_insert_eq. split; [done|]. rewrite <- HL. by apply Hc.
    + left. by rewrite lookup_insert_ne.
Qed.
End changes.

(** ** The builtins that change a target *)

(** A function that finds the target of the name it is given, if that is not built,
    and changes nothing else. *)
Definition modifies (args : list (option pyObject)) (m : B pyObject) : Prop :=
  forall s v s', m s = Ok (v, s') ->
  exists name p l, arg_at args 0 = Some (pyString name) /\ w_pkg s.2 = Some p /\ pkg_Target p name = Some l /\
    (state_number (target_state (deref_in (w_graph s.2) l)) < state_number Built)%nat /\
    changed (Label (deref_in (w_graph s.2) l)) s.2 s'.2.

Lemma getTargetPost_Ok name s t s' :
  getTargetPost name s = Ok (t, s') ->
  s' = s /\ exists p l, w_pkg s.2 = Some p /\ pkg_Target p name = Some l /\ t = deref_in (w_graph s.2) l /\
    (state_number (target_state t) < state_number Built)%nat.
Proof.
  intros (t' & H & [= <- <-])%bind_Ok. split; [done|]. destruct (w_pkg s.2) as [p|] eqn:Hp; [|done].
  destruct (pkg_Target p name) as [l|] eqn:Hl; [|done].
  cbv zeta in H. destruct (Nat.ltb_spec (state_number (target_state (deref_in (w_graph s.2) l))) (state_number Built));
    [|done]. injection H as <-. eauto 10.
Qed.

Lemma interp_Ok {A} (m : I A) s a s' : interp m s = Ok (a, s') -> m s.1 = Ok (a, s'.1) /\ s'.2 = s.2.
Proof. by intros ([a' st] & H & [= <- <-])%bind_Ok. Qed.

Lemma arg_Ok args i st o st' : Builtins.arg args i st = Ok (o, st') -> arg_at args i = Some o.
Proof. unfold Builtins.arg, arg_at. destruct (args !! i) as [[]|]; try done. by intros [= <- _]. Qed.

Lemma as_str_Ok o st x st' : as_str o st = Ok (x, st') -> o = pyString x.
Proof. destruct o; try done. by intros [= <- _]. Qed.

Lemma str_arg_Ok args i st x st' : str_arg args i st = Ok (x, st') -> arg_at args i = Some (pyString x).
Proof.
  unfold str_arg. intros ([o st1] & Ho%arg_Ok & H)%bind_Ok. by apply as_str_Ok in H as ->.
Qed.

(** What is done with the target. *)
Lemma modifies_get args name k :
  arg_at args 0 = Some (pyString name) -> (forall t, changes (Label t) (k t)) -> modifies args (getTargetPost name ≫= k).
Proof.
  intros Hn Hk s v s' (t & s1 & Ht & H)%B_bind_Ok.
  apply getTargetPost_Ok in Ht as (-> & p & l & Hp & Hl & -> & Hb).
  exists name, p, l. split_and!; try done. by apply Hk in H.
Qed.

(** What comes before that. *)
Lemma modifies_pre {A} (P : A -> Prop) args (m : B A) k :
  (forall s a s', m s = Ok (a, s') -> s'.2 = s.2 /\ P a) -> (forall a, P a -> modifies args (k a)) ->
  modifies args (m ≫= k).
Proof.
  intros Hm Hk s v s' (a & s1 & [Hs Ha]%Hm & H)%B_bind_Ok. rewrite <- Hs. exact (Hk a Ha s1 v s' H).
Qed.

Lemma modifies_name args k :
  (forall name, arg_at args 0 = Some (pyString name) -> modifies args (k name)) ->
  modifies args (interp (str_arg args 0) ≫= k).
Proof. apply modifies_pre. intros s a s' [H%str_arg_Ok Hs]%interp_Ok. done. Qed.

Lemma modifies_named args k :
  (forall t, changes (Label t) (k t)) -> modifies args ((interp (str_arg args 0) ≫= getTargetPost) ≫= k).
Proof.
  intros Hk s v s' (t & s2 & (name & s1 & H1 & H2)%B_bind_Ok & H3)%B_bind_Ok.
  assert (modifies args (interp (str_arg args 0) ≫= fun name => getTargetPost name ≫= k)) as Hm.
  { apply modifies_name. intros name' Hn. by apply modifies_get. }
  apply (Hm s v s'). apply B_bind_Ok. exists name, s1. split; [done|]. apply B_bind_Ok. eauto.
Qed.

Lemma modifies_callback args cb k : (forall u, modifies args (k u)) -> modifies args (in_callback cb ≫= k).
Proof.
  intros Hk. apply (modifies_pre (fun _ => True)); [|auto]. intros s [] s' H.
  unfold in_callback, bassert in H. destruct cb; [|done]. by injection H as <-.
Qed.

Lemma modified_changes l : changes l (modified l).
Proof. apply changes_target. intros x y [= <-]. by apply kept_same. Qed.

Lemma add_datum_changes c l name add o :
  (forall i, keeping (fun t => add t i)) -> changes l (add_datum c l name add o).
Proof.
  intros Ha. apply changes_bind; [apply changes_of_res|]. intros p. apply changes_bind; [apply changes_of_res|].
  intros [i|]; [by apply changes_target|apply changes_ret].
Qed.


Lemma modifies_value args k :
  (forall datum name, arg_at args 0 = Some (pyString name) -> modifies args (k datum name)) ->
  modifies args (label ← interp (Builtins.arg args 0); datum ← interp (Builtins.arg args 1);
    name ← interp (as_str label); k datum name).
Proof.
  intros Hk. apply (modifies_pre (fun o => arg_at args 0 = Some o)).
  { intros s a s' [H%arg_Ok Hs]%interp_Ok. done. }
  intros label Hl. apply (modifies_pre (fun _ => True)).
  { intros s a s' [_ Hs]%interp_Ok. done. }
  intros datum _. apply (modifies_pre (fun name => arg_at args 0 = Some (pyString name))).
  { intros s a s' [H%as_str_Ok Hs]%interp_Ok. by subst label. }
  intros name Hn. by apply Hk.
Qed.

Lemma AddEntryPoint_kept x name out y : AddEntryPoint x name out = Ok y -> kept x y.
Proof. unfold AddEntryPoint. repeat (case_match; [done|]). intros [= <-]. by apply kept_same. Qed.

(** Changes, step by step. *)
Ltac changes_steps :=
  repeat first
    [ apply modified_changes | apply changes_ret | apply changes_fail | apply changes_assert | apply changes_interp
    | apply changes_of_res | apply changes_register | apply changes_bind; [|intro] ].

Lemma addDep_modifies c cb args : modifies args (addDep c cb args).
Proof.
  apply modifies_callback. intros _. apply modifies_name. intros name Hn. apply modifies_get; [done|]. intros t.
  changes_steps. apply changes_target. intros x y. apply AddMaybeExportedDependency_kept.
Qed.

Lemma addData_modifies c ro cb args : modifies args (addData c ro cb args).
Proof.
  apply modifies_callback. intros _. apply modifies_value. intros datum name Hn. apply modifies_get; [done|]. intros t.
  assert (forall o, changes (Label t) (add_datum c (Label t) name AddDatum o)) as Hd.
  { intros o. apply add_datum_changes. intros i x y H. eapply add_step_kept, Targets.add_datum, H. }
  assert (forall k o, changes (Label t) (add_datum c (Label t) name (fun t => AddNamedDatum t k) o)) as Hn'.
  { intros k o. apply add_datum_changes. intros i x y H. eapply add_step_kept, add_named_datum, H. }
  apply changes_bind; [|intros _; changes_steps].
  destruct datum; try apply changes_fail; [apply Hd|changes_steps; by apply changes_iter|].
  changes_steps. apply changes_iter. intros [k v]. destruct v; try apply changes_interp.
  changes_steps. by apply changes_iter.
Qed.

Lemma addOut_modifies args : modifies args (addOut args).
Proof.
  apply modifies_named. intros t. apply changes_bind; [apply changes_interp|]. intros name.
  apply changes_bind; [apply changes_interp|]. intros out. apply changes_bind; [|intros _; apply changes_ret].
  destruct (String.eqb out ""); changes_steps; apply changes_target; intros x y;
    [apply AddOutput_kept|apply AddNamedOutput_kept].
Qed.

Lemma addEntryPoint_modifies args : modifies args (addEntryPoint args).
Proof.
  apply modifies_named. intros t. changes_steps. apply changes_target. intros x y. apply AddEntryPoint_kept.
Qed.

Lemma addLicence_modifies args : modifies args (addLicence args).
Proof.
  apply modifies_named. intros t. changes_steps. apply changes_target. intros x y [= <-]. by apply kept_same.
Qed.

Lemma setCommand_modifies args : modifies args (setCommand args).
Proof.
  apply modifies_named. intros t. changes_steps. apply changes_target. intros x y.
  match goal with |- context [String.eqb ?s ""] => destruct (String.eqb s "") end; [intros [= <-]; by apply kept_same|].
  unfold AddCommand. destruct (negb _); [done|]. intros [= <-]. by apply kept_same.
Qed.

(** The builtins that change a target of the package by its name - add_dep, add_data,
    add_out, add_entry_point, add_licence, set_command - change, when they succeed,
    only that target, which is in the package and not built; what is left of it has the same label and kind, its
    dependencies stay well formed, and so does the graph. Of the package only the outputs
    change, and an output is taken over only between filegroups. *)
Theorem modifiers_spec c range_order callback args name op st w p v st' w' :
  (name, op) ∈ modifiers c range_order callback args -> op (st, w) = Ok (v, (st', w')) ->
  w_pkg w = Some p -> graph_wf (w_graph w) -> pkg_ok (w_graph w) p ->
  exists target t t', arg_at args 0 = Some (pyString target) /\ pkg_Target p target = Some (Label t) /\
    Target (w_graph w) (Label t) = Some t /\ (state_number (target_state t) < state_number Built)%nat /\
    Target (w_graph w') (Label t) = Some t' /\ kept t t' /\
    (forall l, l <> Label t -> Target (w_graph w') l = Target (w_graph w) l) /\ graph_wf (w_graph w') /\
    exists o, w_pkg w' = Some (with_outputs o p) /\
      claims (deref_in (w_graph w)) (Label t) (IsFilegroup t) (pkg_Outputs p) o.
Proof.
  intros Hop H Hp Hwf Hok.
  assert (modifies args op) as Hm.
  { unfold modifiers in Hop. repeat apply elem_of_cons in Hop as [[= -> ->]|Hop]; [..|by apply not_elem_of_nil in Hop].
    - apply addDep_modifies.
    - apply addData_modifies.
    - apply addOut_modifies.
    - apply addEntryPoint_modifies.
    - apply addLicence_modifies.
    - apply setCommand_modifies. }
  destruct (Hm _ _ _ H) as (target & p' & l & Ha & Hp' & Hl & Hb & [Ho Ht Hw Hpk]). cbn in *.
  assert (p' = p) as -> by congruence.
  destruct (po_targets _ _ Hok target l Hl) as (_ & _ & _ & [t Hlt]).
  pose proof (Target_Label _ _ _ Hwf Hlt) as <-.
  assert (deref_in (w_graph w) (Label t) = t) as Hd by (unfold deref_in; by rewrite Hlt). rewrite Hd in *.
  destruct (Ht t Hlt) as (t' & Ht' & Hk). destruct (Hpk p Hp) as (o & Hpo & Hc).
  exists target, t, t'. split_and!; try done; [by apply Hw|]. exists o. split; [done|]. by apply Hc.
Qed.

Definition licence_world : world := MkWorld (Some (ex_after ex_new ex_lib).1) (ex_after ex_new ex_lib).2.
Definition licence_args : list (option pyObject) := [Some (pyString "lib"); Some (pyString "MIT")].

Lemma modifiers_spec_witness :
  exists t t', Label t = MkBuildLabel "p" "lib" "" /\ kept t t' /\
    Target (w_graph licence_world) (Label t) = Some t /\ Licences t = [] /\ Licences t' = ["MIT"].
Proof.
  assert (rule_calls ex_settings map_to_list ex_new (ex_after ex_new ex_lib)) as Hc by (apply ex_after_calls, calls_none).
  apply rule_calls_ok in Hc as [Hwf Hok]; [|apply NewGraph_wf|apply pkg_ok_new].
  assert (match addLicence licence_args (ex_state, licence_world) with
          | Ok (v, (st, w)) => bool_decide (v = pyNone)
              && bool_decide (Licences <$> Target (w_graph w) (MkBuildLabel "p" "lib" "") = Some ["MIT"])
          | _ => false end = true) as Hr by (vm_compute; reflexivity).
  destruct (addLicence licence_args (ex_state, licence_world)) as [[v [st' w']]| |] eqn:H; [|done..].
  apply andb_true_iff in Hr as [_ Hr%bool_decide_eq_true].
  destruct (modifiers_spec ex_settings map_to_list false licence_args "add_licence" (addLicence licence_args)
    ex_state licence_world (ex_after ex_new ex_lib).1 v st' w')
    as (target & t & t' & Ha & Hp & Ht & _ & Ht' & Hk & _); [| |reflexivity|exact Hwf|exact Hok|].
  - unfold modifiers. do 4 right. left.
  - exact H.
  - assert (target = "lib") as -> by (vm_compute in Ha; congruence).
    assert (pkg_Target (ex_after ex_new ex_lib).1 "lib" = Some (MkBuildLabel "p" "lib" "")) as Hl by (vm_compute; reflexivity).
    rewrite Hl in Hp. injection Hp as Hp. exists t, t'. split_and!; [done|done|exact Ht| |].
    + assert (Licences <$> Target (w_graph licence_world) (MkBuildLabel "p" "lib" "") = Some []) as Hn by (vm_compute; reflexivity).
      rewrite Hp, Ht in Hn. by injection Hn.
    + rewrite Hp, Ht' in Hr. by injection Hr.
Defined.

(** [add_label] given a label, and not a name, also changes targets that are built, and
    those of other packages. *)
Lemma add_label_changes_built :
  let g := labels_example in
  let w := MkWorld (Some (NewPackage "q" "")) g in
  match addLabel 1 [Some (pyString "//p:c"); Some (pyString "late")] (ex_state, w) with
  | Ok (_, (_, w')) =>
      target_state <$> Target g (MkBuildLabel "p" "c" "") = Some Built /\
      target_Labels <$> Target g (MkBuildLabel "p" "c" "") = Some [] /\
      target_Labels <$> Target (w_graph w') (MkBuildLabel "p" "c" "") = Some ["late"]
  | _ => False
  end.
Proof. vm_compute. auto. Qed.

(** [select] compares only the names of packages: for a key in the package of the same
    name of another repository, the target of this one is used. *)
Lemma select_ignores_subrepo :
  let lib := upd_Labels (fun _ => ["config:on"]) (NewBuildTarget (MkBuildLabel "p" "c" "")) in
  let p := pkg_AddTarget (NewPackage "p" "") (Label lib) in
  let elsewhere l := bfail (EPanic ("waits for " +:+ label_String l)) in
  let st := set_heap (MkHeap ∅ {[0%nat := {["///other//p:c" := pyString "chosen"]}]} ∅ 1) root in
  selectFunc ex_settings None [Some (pyDict 0)] elsewhere (st, MkWorld (Some p) (build_graph [lib]))
    = Ok (pyString "chosen", (st, MkWorld (Some p) (build_graph [lib]))).
Proof. vm_compute. reflexivity. Qed.

(** ** select *)

Section select.
Context (c : settings) (subincludeLabel : option BuildLabel) (subincludeTarget : BuildLabel -> B BuildTarget).
Context (s : state * world) (on : string -> bool).

(** Whether the target that a key stands for is on. *)
Definition key_on (k : string) : B bool :=
  l ← parseLabelInContextPkg c subincludeLabel k;
  t ← selectTarget subincludeTarget l;
  bret (HasLabel t "config:on").

(** Every key of a dict has a target, and finding it changes nothing. *)
Definition keys_resolve (d : gmap string pyObject) : Prop :=
  forall k, is_Some (d !! k) -> is_default k = false -> key_on k s = Ok (on k, s).

Lemma select_key_cons d k keys def :
  is_default k = false -> key_on k s = Ok (on k, s) ->
  select_key c subincludeLabel subincludeTarget d (k :: keys) def s =
  if on k then Ok (default pyNone (d !! k), s) else select_key c subincludeLabel subincludeTarget d keys def s.
Proof.
  intros Hk (l & s1 & Hl & (t & s2 & Ht & [= Hon ->])%B_bind_Ok)%B_bind_Ok.
  cbn [select_key]. rewrite Hk. unfold mbind, B_bind. rewrite Hl. cbn. rewrite Ht. cbn. rewrite Hon. by destruct (on k).
Qed.

Lemma select_key_spec d keys def :
  keys_resolve d -> (forall k, k ∈ keys -> is_Some (d !! k)) ->
  select_key c subincludeLabel subincludeTarget d keys def s =
  match list_find (fun k => is_default k = false /\ on k = true) keys with
  | Some (_, k) => Ok (default pyNone (d !! k), s)
  | None =>
      match foldl (fun def k => if is_default k then d !! k else def) def keys with
      | Some v => Ok (v, s)
      | None => Err (EPanic "None of the select() conditions matched")
      end
  end.
Proof.
  intros Hr. revert def. induction keys as [|k keys IH]; intros def Hd; [by destruct def|].
  assert (forall k, k ∈ keys -> is_Some (d !! k)) as Hd' by (intros; apply Hd; by right).
  destruct (is_default k) eqn:Hk.
  - cbn [select_key list_find foldl]. rewrite Hk, (IH (d !! k) Hd'), decide_False by naive_solver.
    by destruct (list_find _ keys) as [[]|].
  - rewrite select_key_cons by (first [done|apply Hr; [apply Hd; left|done]]). cbn [list_find foldl]. rewrite Hk.
    destruct (on k) eqn:Hon; [by rewrite decide_True|]. rewrite (IH def Hd'), decide_False by naive_solver.
    by destruct (list_find _ keys) as [[]|].
Qed.

(** The last default of the keys. *)
Lemma foldl_default (d : gmap string pyObject) l1 k l2 def :
  is_default k = true -> (forall k', k' ∈ l2 -> is_default k' = false) ->
  foldl (fun def k => if is_default k then d !! k else def) def (l1 ++ k :: l2) = d !! k.
Proof.
  intros Hk Hl2. rewrite foldl_app. cbn. rewrite Hk. generalize (d !! k) as v. clear -Hl2.
  induction l2 as [|k' l2 IH]; intros v; cbn; [done|]. rewrite (Hl2 k') by left. apply IH. intros. apply Hl2. by right.
Qed.

Lemma foldl_no_default (d : gmap string pyObject) l def :
  (forall k, k ∈ l -> is_default k = false) -> foldl (fun def k => if is_default k then d !! k else def) def l = def.
Proof.
  intros Hl. induction l as [|k l IH]; cbn; [done|]. rewrite (Hl k) by left. apply IH. intros. apply Hl. by right.
Qed.

(** What comes before and after a key when the keys are gone through from the last. *)
Lemma keys_split (m : gmap string pyObject) k :
  is_Some (m !! k) -> exists l1 l2, rev (dict_Keys m) = l1 ++ k :: l2 /\
    (forall k', k' ∈ l1 -> str_ltb k k' = true) /\ (forall k', k' ∈ l2 -> str_ltb k' k = true /\ is_Some (m !! k')).
Proof.
  destruct (dict_Keys_spec m) as [Hsort Hkeys]. intros Hk%Hkeys.
  apply list_elem_of_split in Hk as (l2 & l1 & Hl). exists (rev l1), (rev l2).
  rewrite Hl, rev_app_distr in *. cbn. rewrite <- app_assoc. split; [done|].
  assert (forall k' (l : list string), k' ∈ rev l <-> k' ∈ l) as Hrev by (intros; by rewrite !list_elem_of_In, <- in_rev).
  split; intros k' Hk'; rewrite Hrev in Hk'.
  - apply StronglySorted_app_1_r, StronglySorted_inv in Hsort as [_ Hf]. rewrite Forall_forall in Hf. exact (Hf k' Hk').
  - split; [|apply Hkeys; rewrite elem_of_app; by left].
    apply (StronglySorted_app_1_elem_of _ _ _ _ _ Hsort); [done|by left].
Qed.
End select.

(** [select] gives the value of the last key, in the order of strings, whose target is
    on; if there is none, that of //conditions:default, or else of default; and if there
    is none of these either, it fails. *)
Theorem select_spec c subincludeLabel subincludeTarget s on args d :
  arg_at args 0 = Some (pyDict d) -> let m := dict_of (hp s.1) d in
  keys_resolve c subincludeLabel subincludeTarget s on m ->
  (forall k v, m !! k = Some v -> is_default k = false -> on k = true ->
    (forall k', is_Some (m !! k') -> is_default k' = false -> on k' = true -> k' = k \/ str_ltb k' k = true) ->
    selectFunc c subincludeLabel args subincludeTarget s = Ok (v, s)) /\
  ((forall k, is_Some (m !! k) -> is_default k = false -> on k = false) ->
    selectFunc c subincludeLabel args subincludeTarget s =
      match m !! "//conditions:default", m !! "default" with
      | Some v, _ | None, Some v => Ok (v, s)
      | None, None => Err (EPanic "None of the select() conditions matched")
      end).
Proof.
  intros Ha m Hr. destruct (dict_Keys_spec m) as [Hsort Hkeys].
  assert (selectFunc c subincludeLabel args subincludeTarget s
    = select_key c subincludeLabel subincludeTarget m (rev (dict_Keys m)) None s) as ->.
  { unfold selectFunc. rewrite Ha. by destruct s. }
  assert (forall k, k ∈ rev (dict_Keys m) <-> is_Some (m !! k)) as Hrev.
  { intros k. rewrite <- Hkeys, !list_elem_of_In. by rewrite <- in_rev. }
  rewrite (select_key_spec c subincludeLabel subincludeTarget s on) by (done || intros k; apply Hrev).
  split.
  - intros k v Hv Hk Hon Hlast.
    destruct (keys_split m k) as (l1 & l2 & Hl & H1 & H2); [by eexists|].
    assert (list_find (fun k => is_default k = false /\ on k = true) (rev (dict_Keys m)) = Some (length l1, k)) as ->;
      [|by rewrite Hv].
    apply list_find_Some. rewrite Hl. split_and!; [by apply list_lookup_middle|done|done|].
    intros j k' Hj Hlt [Hd' Hon']. rewrite lookup_app_l in Hj by done.
    assert (k' ∈ l1) as Hin by (apply list_elem_of_lookup; eauto).
    destruct (Hlast k') as [->|Hk']; [apply Hrev; rewrite Hl, elem_of_app; by left|done..| |].
    + specialize (H1 k Hin). by rewrite str_ltb_irrefl in H1.
    + pose proof (str_ltb_trans _ _ _ Hk' (H1 k' Hin)) as Hr'. by rewrite str_ltb_irrefl in Hr'.
  - intros Hnone.
    assert (list_find (fun k => is_default k = false /\ on k = true) (rev (dict_Keys m)) = None) as ->.
    { apply list_find_None, Forall_forall. intros k Hk%Hrev [Hd Hon]. by rewrite (Hnone k) in Hon. }
    assert (forall k, is_default k = true -> k = "//conditions:default" \/ k = "default") as Hdef.
    { intros k. unfold is_default. rewrite orb_true_iff, !String.eqb_eq. done. }
    destruct (m !! "//conditions:default") as [v|] eqn:H1; [|destruct (m !! "default") as [v|] eqn:H2].
    + destruct (keys_split m "//conditions:default") as (l1 & l2 & -> & _ & Hl2); [by eexists|].
      rewrite foldl_default, H1; [done..|]. intros k [Hk _]%Hl2. destruct (is_default k) eqn:Hd; [|done].
      by apply Hdef in Hd as [-> | ->].
    + destruct (keys_split m "default") as (l1 & l2 & -> & _ & Hl2); [by eexists|].
      rewrite foldl_default, H2; [done..|]. intros k [Hk Hin]%Hl2. destruct (is_default k) eqn:Hd; [|done].
      apply Hdef in Hd as [-> | ->]; [by rewrite H1 in Hin; destruct Hin|done].
    + rewrite foldl_no_default; [done|]. intros k Hk%Hrev. destruct (is_default k) eqn:Hd; [|done].
      apply Hdef in Hd as [-> | ->]; [rewrite H1 in Hk|rewrite H2 in Hk]; by destruct Hk.
Qed.

Definition select_lib : BuildTarget := upd_Labels (fun _ => ["config:on"]) (NewBuildTarget (MkBuildLabel "p" "c" "")).
Definition select_dict : gmap string pyObject := {["//p:c" := pyString "chosen"; "default" := pyString "other"]}.
Definition select_state : state * world :=
  (set_heap (MkHeap ∅ {[0%nat := select_dict]} ∅ 1) root,
   MkWorld (Some (pkg_AddTarget (NewPackage "p" "") (Label select_lib))) (build_graph [select_lib])).

Lemma select_spec_witness :
  selectFunc ex_settings None [Some (pyDict 0)] (fun _ => bfail EIndex) select_state = Ok (pyString "chosen", select_state).
Proof.
  assert (forall k, is_Some (select_dict !! k) -> is_default k = false -> k = "//p:c") as Hk.
  { intros k [v Hv] Hd. unfold select_dict in Hv. apply lookup_insert_Some in Hv as [[<- _]|[_ Hv]]; [done|].
    by apply lookup_singleton_Some in Hv as [<- _]. }
  destruct (select_spec ex_settings None (fun _ => bfail EIndex) select_state (fun _ => true) [Some (pyDict 0)] 0%nat)
    as [Hs _]; [reflexivity| |].
  - intros k Hin Hd. rewrite (Hk k) by (exact Hin || exact Hd). vm_compute. reflexivity.
  - apply (Hs "//p:c"); [reflexivity..|]. intros k Hin Hd _. left. apply Hk; [exact Hin|exact Hd].
Defined.
