(* ===== verification/Commands.v ===== *)
(** The replacement of sequences in commands: [src/core/command_replacements.go].

    The regular expressions are one pattern for each keyword, [replace_all], and that of
    workers, [worker_match]. A panic in a replacement is caught and becomes an error
    ([catch]); exiting is not. *)
From S2P Require Import Prelude GoStrings Labels Targets Graph Inputs Lexer GoText.
From Stdlib Require Import Ascii.

#[local] Open Scope Z_scope.

(** A panic unless [b]. *)
Definition panic_unless (b : bool) (msg : string) : res unit := guard_res b (EPanic msg).

(** ** Text *)

(** [quote], which does not look at what else is in the text. *)
Definition quote (s : string) : string :=
  if contains_any s "|&;()<>" then char_str double_quote +:+ s +:+ char_str double_quote else s.

(** [handleDir] *)
Definition handleDir (outDir output : string) (dir : bool) : string :=
  if dir then outDir else path_join [outDir; output].

Definition splitEntryPoint (label : string) : string * string :=
  match split_byte "|" label with
  | p0 :: p1 :: _ => (p0, p1)
  | _ => (label, "")
  end.

(** [base64.RawURLEncoding.EncodeToString], or that of [RawStdEncoding] *)
Definition base64_digit (url : bool) (z : Z) : string :=
  let c := if z <? 26 then 65 + z else if z <? 52 then 71 + z else if z <? 62 then z - 4
           else if url then if z =? 62 then 45 else 95 else if z =? 62 then 43 else 47 in
  byte c.

Fixpoint base64 (url : bool) (s : string) : string :=
  let base64_digit := base64_digit url in
  match s with
  | "" => ""
  | String a "" => base64_digit (code a / 4) +:+ base64_digit (code a mod 4 * 16)
  | String a (String b "") =>
      base64_digit (code a / 4) +:+ base64_digit (code a mod 4 * 16 + code b / 16) +:+ base64_digit (code b mod 16 * 4)
  | String a (String b (String c s)) =>
      base64_digit (code a / 4) +:+ base64_digit (code a mod 4 * 16 + code b / 16)
        +:+ base64_digit (code b mod 16 * 4 + code c / 64) +:+ base64_digit (code c mod 64) +:+ base64 url s
  end.

(** ** Patterns *)

(** The match of [\$\(kw ([^\)]+)\)] at the start of a text: the group, and what is left. *)
Definition match_here (kw s : string) : option (string * string) :=
  let start := "$(" +:+ kw +:+ " " in
  if has_prefix s start then
    let r := str_drop (String.length start) s in
    match index_byte ")" r with
    | Some (S i) => Some (str_take (S i) r, str_drop (S (S i)) r)
    | _ => None
    end
  else None.

(** [ReplaceAllStringFunc], with what replaces the group; from left to right. *)
Fixpoint replace_fuel (fuel : nat) (kw : string) (f : string -> res string) (s : string) : res string :=
  match fuel with
  | O => NoFuel
  | S fuel =>
      match s with
      | "" => Ok ""
      | String c s' =>
          match match_here kw s with
          | Some (arg, rest) => v ← f arg; r ← replace_fuel fuel kw f rest; Ok (v +:+ r)
          | None => r ← replace_fuel fuel kw f s'; Ok (String c r)
          end
      end
  end.

Definition replace_all (kw : string) (f : string -> res string) (s : string) : res string :=
  replace_fuel (S (String.length s)) kw f s.

(** A panic that is recovered from is an error. *)
Definition catch {A} (r : res A) : res (string + A) :=
  match r with
  | Ok a => Ok (inr a)
  | Err (EPanic msg) | Err (EFail _ msg) => Ok (inl msg)
  | Err EIndex => Ok (inl "runtime error: index out of range")
  | Err (EFatal msg) => Err (EFatal msg)
  | NoFuel => NoFuel
  end.

(** What a kind of sequence asks for. *)
Record sequence := MkSequence {
  runnable : bool;
  multiple : bool;
  seq_dir : bool;
  outPrefix : bool;
  seq_hash : bool;
}.

(** The passes over a command, in order. *)
Definition passes : list (string * sequence) :=
  [("location", MkSequence false false false false false); ("locations", MkSequence false true false false false);
   ("exe", MkSequence true false false false false); ("out_location", MkSequence false false false true false);
   ("out_locations", MkSequence false true false true false); ("out_exe", MkSequence true false false true false);
   ("dir", MkSequence false true true false false); ("out_dir", MkSequence false true true true false);
   ("hash", MkSequence false true true false true)].

(** Make variables, as Bazel has them. *)
Definition bazel_variables : list (string * string) :=
  [("$<", "$SRCS"); ("$(<)", "$SRCS"); ("$@D", "$TMP_DIR"); ("$(@D)", "$TMP_DIR"); ("$@", "$OUTS"); ("$(@)", "$OUTS");
   ("$(SRCS)", "$SRCS"); ("$(OUTS)", "$OUTS")].

Section commands.
(** the home and the current directory *)
Context (home cwd : string).
Context (g : BuildGraph).
(** [PathHasher.MustHash], which panics where this is [None], and [TargetHasher.OutputHash] *)
Context (path_hash : string -> option string) (output_hash : BuildTarget -> string + string).
Context (WillRunRemotely : BuildTarget -> bool).
Context (bazel : bool).
Context (target : BuildTarget).

Definition Abs (p : string) : string := if has_prefix p "/" then path_clean p else path_join [cwd; p].

Definition fileDestination (dep : BuildTarget) (out : string) (dir outPrefix test : bool) : string :=
  if outPrefix then handleDir (target_OutDir dep) out dir
  else if test && bool_decide (Label target = Label dep) then "./" +:+ out
  else handleDir (PackageName (Label dep)) out dir.

Definition sourcesOrTools (runnable : bool) : list BuildInput := if runnable then Tools target else AllSources target.

(** The text for one output. *)
Definition output_text (q : sequence) (dep : BuildTarget) (test tool : bool) (out : string) : string :=
  quote (if tool && negb (WillRunRemotely target) then Abs (handleDir (target_OutDir dep) out (seq_dir q))
         else fileDestination dep out (seq_dir q) (outPrefix q) test).

Definition checkAndReplaceSequence (q : sequence) (dep : BuildTarget) (ep in_ : string) (test allOutputs tool : bool) :
    res string :=
  many ← (if allOutputs && negb (multiple q) then outs ← Outputs home g dep; Ok ((1 <? length outs)%nat && String.eqb ep "")
          else Ok false);
  panic_unless (negb many) ("Rule " +:+ target_String target +:+ " can't use " +:+ in_ +:+ "; " +:+ target_String dep +:+ " has multiple outputs.");;
  panic_unless (negb (runnable q && negb (IsBinary dep)))
    ("Rule " +:+ target_String target +:+ " can't $(exe " +:+ target_String dep +:+ "), it's not executable");;
  none ← (if runnable q then outs ← Outputs home g dep; Ok (bool_decide (outs = [])) else Ok false);
  panic_unless (negb none) ("Rule " +:+ target_String dep +:+ " is tagged as binary but produces no output.");;
  panic_unless (negb (test && tool)) ("Rule " +:+ target_String target +:+ " uses " +:+ target_String dep
    +:+ " in its test command, but tools are not accessible at test time");;
  if seq_hash q then
    match output_hash dep with inl e => Err (EPanic e) | inr h => Ok (base64 true h) end
  else if String.eqb ep "" then
    outs ← Outputs home g dep;
    let outs := filter (fun out => allOutputs || String.eqb out in_ = true) outs in
    let outs := if seq_dir q then take 1 outs else outs in
    Ok (trim_right (join "" (map (fun out => output_text q dep test tool out +:+ " ") outs)) " ")
  else
    match EntryPoints dep !! ep with
    | Some out => Ok (quote (fileDestination dep out (seq_dir q) (outPrefix q) test))
    | None => Err (EFatal (target_String dep +:+ " has no entry point " +:+ ep))
    end.

Definition replaceSequenceLabel (q : sequence) (label : BuildLabel) (ep in_ : string) (test allOutputs : bool) : res string :=
  if decide (label = Label target) then checkAndReplaceSequence q target ep in_ test allOutputs false
  else
    let '(label, ok) := ResolveDependencySubrepo target label in
    panic_unless ok ("Rule " +:+ target_String target +:+ " can't use " +:+ in_ +:+ "; doesn't depend on target "
      +:+ label_String label);;
    t ← TargetOrDie g label;
    match ProvideFor t target with
    | [] => Err EIndex
    | d :: _ => dep ← TargetOrDie g d; checkAndReplaceSequence q dep ep in_ test allOutputs (IsTool target label)
    end.

(** The input that a text names, with its label if it has one. *)
Definition named_input (q : sequence) (in_ : string) : option (option BuildLabel * BuildInput) :=
  snd <$> list_find (fun _ => True) (omap (fun src =>
    if String.eqb (input_String src) in_ then
      match input_Label src with
      | Some l => Some (Some l, src)
      | None => if runnable q then Some (None, src) else None
      end
    else None) (sourcesOrTools (runnable q))).

Definition replaceSequence (q : sequence) (in_ : string) (test : bool) : res string :=
  if LooksLikeABuildLabel in_ then
    let '(in_, ep) := splitEntryPoint in_ in
    match TryParseBuildLabel in_ (PackageName (Label target)) (Subrepo (Label target)) with
    | inl _ => Err (EPanic ("Invalid build label: " +:+ in_))
    | inr label => replaceSequenceLabel q label ep in_ test true
    end
  else
    match named_input q in_ with
    | Some (Some label, _) => replaceSequenceLabel q label "" in_ test false
    | Some (None, src) => Ok (input_String src)
    | None =>
        if seq_hash q then
          match path_hash (path_join [PackageName (Label target); in_]) with
          | Some h => Ok (base64 true h)
          | None => Err (EPanic "cannot calculate hash")
          end
        else if has_prefix in_ "/" then Ok in_
        else Ok (quote (path_join [PackageName (Label target); in_]))
    end.

(** [replaceWorkerSequence] *)
Definition replaceWorkerSequence (q : sequence) (in_ : string) (test : bool) : res string :=
  if negb (LooksLikeABuildLabel in_) then Ok in_ else replaceSequence q in_ test.

Definition replace_sequences (command : string) (test : bool) : res string :=
  cmd ← foldM (fun cmd '(kw, q) => replace_all kw (fun arg => replaceSequence q arg test) cmd) command passes;
  let cmd := if bazel then foldl (fun cmd '(old, new) => ReplaceAll cmd old new) cmd bazel_variables else cmd in
  Ok (ReplaceAll cmd "\$" "$").

(** [replaceSequencesInternal]: an error, or the command *)
Definition replaceSequencesInternal (command : string) (test : bool) : res (string + string) :=
  catch (replace_sequences command test).

Definition ReplaceSequences (command : string) : res (string + string) := replaceSequencesInternal command false.

(** ** Workers *)

(** What follows the sequence of a worker: its arguments up to the first ampersand, and
    the command after two of them. *)
Definition worker_rest (s : string) : option (string * string) :=
  let s := trim_left s " " in
  match index_byte "&" s with
  | None => Some (s, "")
  | Some i =>
      if has_prefix (str_drop i s) "&&" then
        let rest := trim_left (str_drop (i + 2) s) " " in
        if contains_byte newline rest then None else Some (str_take i s, rest)
      else None
  end.

Definition worker_here (s : string) : option (string * string * string * string) :=
  '(worker, rest) ← match_here "worker" s;
  '(args, cmd) ← worker_rest rest;
  Some ("", worker, args, cmd).

(** The groups of the pattern of workers: the last sequence that fits, with no line
    ending before it. *)
Fixpoint worker_match (s : string) : option (string * string * string * string) :=
  match s with
  | "" => None
  | String c s' =>
      let later :=
        if Ascii.eqb c newline then None
        else '(before, worker, args, cmd) ← worker_match s'; Some (String c before, worker, args, cmd) in
      match later with Some m => Some m | None => worker_here s end
  end.

(** The worker, its arguments and the command after it; without a worker, the command. *)
Definition workerAndArgs (command : string) : res (string + (string * string * string)) :=
  match worker_match command with
  | None =>
      r ← ReplaceSequences command;
      Ok (match r with inl e => inl e | inr cmd => inr ("", "", cmd) end)
  | Some (before, worker, args, cmd) =>
      panic_unless (String.eqb before "") "$(worker) replacements cannot have any commands preceding them.";;
      r1 ← replaceSequencesInternal (TrimSpace args) false;
      match r1 with
      | inl e => Ok (inl e)
      | inr cmd1 =>
          r2 ← replaceSequencesInternal cmd false;
          w ← replaceWorkerSequence (MkSequence true false false true false) (ExpandHomePath home worker) false;
          Ok (match r2 with inl e => inl e | inr cmd2 => inr (w, cmd1, cmd2) end)
      end
  end.

Definition ReplaceTestSequences (command : string) : res (string + string) :=
  if String.eqb command "" then replaceSequencesInternal ("$(exe :" +:+ Name (Label target) +:+ ")") true
  else if has_prefix command "$(worker" then
    r ← workerAndArgs command;
    Ok (match r with inl e => inl e | inr (_, _, cmd) => inr cmd end)
  else replaceSequencesInternal command true.

(** [TestCommand], for the command that the configuration selects *)
Definition TestCommand (command : string) (TestArgs : list string) : res (string + string) :=
  r ← ReplaceTestSequences command;
  Ok (match r with
      | inl e => inl e
      | inr cmd =>
          let placeholder := match target_Test target with Some f => ArgsPlaceholder f | None => "" end in
          if String.eqb placeholder "" then
            inr (if bool_decide (TestArgs = []) then cmd else cmd +:+ " " +:+ join " " TestArgs)
          else if contains cmd placeholder then inr (ReplaceAll cmd placeholder (join " " TestArgs))
          else inl ("command " +:+ cmd +:+ " does not contain expected arguments placeholder " +:+ placeholder)
      end).
End commands.

(** ** Replacing in a text *)

Lemma match_here_shorter kw s arg rest : match_here kw s = Some (arg, rest) -> (String.length rest < String.length s)%nat.
Proof.
  unfold match_here. destruct (has_prefix s _) eqn:Hp; [|done]. apply has_prefix_spec in Hp as [r ->].
  rewrite str_drop_app. destruct (index_byte ")" r) as [[|i]|]; [done| |done]. intros [= <- <-].
  rewrite str_length_app, str_length_drop. cbn. lia.
Qed.

Lemma replace_fuel_enough kw f n m s :
  (String.length s < n)%nat -> (String.length s < m)%nat -> replace_fuel n kw f s = replace_fuel m kw f s.
Proof.
  revert m s. induction n as [|n IH]; intros [|m] s Hn Hm; [lia..|]. cbn. destruct s as [|c s]; [done|]. cbn in Hn, Hm.
  destruct (match_here kw (String c s)) as [[arg rest]|] eqn:Hh.
  - apply match_here_shorter in Hh. cbn in Hh. by rewrite (IH m rest) by lia.
  - by rewrite (IH m s) by lia.
Qed.

(** The equation of the loop. *)
Lemma replace_all_eq kw f s :
  replace_all kw f s =
  match s with
  | "" => Ok ""
  | String c s' =>
      match match_here kw s with
      | Some (arg, rest) => v ← f arg; r ← replace_all kw f rest; Ok (v +:+ r)
      | None => r ← replace_all kw f s'; Ok (String c r)
      end
  end.
Proof.
  unfold replace_all at 1. cbn [replace_fuel]. destruct s as [|c s]; [done|].
  destruct (match_here kw (String c s)) as [[arg rest]|] eqn:Hh; [|done].
  apply match_here_shorter in Hh. cbn in Hh. unfold replace_all.
  by rewrite (replace_fuel_enough kw f _ (S (String.length rest))) by (cbn; lia).
Qed.

(** Text in which no sequence starts, whatever follows it. *)
Fixpoint plain (s : string) : bool :=
  match s with
  | "" => true
  | String c s' =>
      (if Ascii.eqb c "$" then match s' with "" => false | String d _ => negb (Ascii.eqb d "(") end else true) && plain s'
  end.

Lemma match_here_plain kw c l s : plain (String c l) = true -> match_here kw (String c l +:+ s) = None.
Proof.
  cbn [plain]. intros [Hc _]%andb_true_iff. unfold match_here. cbn [String.append].
  rewrite has_prefix_cons. destruct (Ascii.eqb_spec c "$") as [->|Hne].
  - destruct l as [|d l]; [done|]. apply negb_true_iff, Ascii.eqb_neq in Hc. cbn [String.append].
    rewrite has_prefix_cons. rewrite (proj2 (Ascii.eqb_neq "(" d)) by congruence. by rewrite andb_false_r.
  - by rewrite (proj2 (Ascii.eqb_neq "$" c)) by congruence.
Qed.

Lemma replace_plain kw f l s :
  plain l = true -> replace_all kw f (l +:+ s) = r ← replace_all kw f s; Ok (l +:+ r).
Proof.
  induction l as [|c l IH]; intros Hl; [cbn [String.append]; by destruct (replace_all kw f s)|].
  rewrite replace_all_eq. cbn [String.append].
  change (String c (l +:+ s)) with (String c l +:+ s). rewrite match_here_plain by done.
  cbn in Hl. apply andb_true_iff in Hl as [_ Hl]. rewrite IH by done. by destruct (replace_all kw f s).
Qed.

Lemma plain_app a b : plain a = true -> plain b = true -> plain (a +:+ b) = true.
Proof.
  intros Ha Hb. induction a as [|c a IH]; [done|]. cbn in *. apply andb_true_iff in Ha as [Hc Ha].
  rewrite IH by done. rewrite andb_true_r. destruct (Ascii.eqb c "$"); [|done]. by destruct a.
Qed.

Lemma plain_no_dollar s : contains_byte "$" s = false -> plain s = true.
Proof.
  induction s as [|c s IH]; [done|]. rewrite contains_byte_cons. intros [Hc Hs]%orb_false_iff. cbn.
  by rewrite Hc, IH.
Qed.

Definition seq_text (kw arg : string) : string := "$(" +:+ kw +:+ " " +:+ arg +:+ ")".

(** An argument that the pattern can have, and that has no sequence in it. *)
Definition good_arg (arg : string) : Prop :=
  arg <> "" /\ contains_byte ")" arg = false /\ plain arg = true.

Lemma match_here_seq kw arg s : good_arg arg -> match_here kw (seq_text kw arg +:+ s) = Some (arg, s).
Proof.
  intros (Hne & Hp & _). unfold match_here, seq_text.
  replace (("$(" +:+ kw +:+ " " +:+ arg +:+ ")") +:+ s) with (("$(" +:+ kw +:+ " ") +:+ arg +:+ String ")" s)
    by (by rewrite !str_app_assoc).
  rewrite has_prefix_app, str_drop_app. rewrite index_byte_app by done.
  pose proof (str_take_app arg (String ")" s)) as Ht. pose proof (str_drop_app_S arg ")" s) as Hd.
  revert Ht Hd. destruct arg as [|c arg]; [done|]. cbn [String.length]. by intros -> ->.
Qed.

(** A sequence of another keyword does not match, and none starts inside of it. *)
Lemma match_here_other_seq kw kw' arg s :
  kw <> kw' -> contains_byte " " kw = false -> contains_byte " " kw' = false ->
  match_here kw (seq_text kw' arg +:+ s) = None.
Proof.
  intros Hne Hk Hk'. unfold match_here. destruct (has_prefix _ _) eqn:H; [|done].
  exfalso. apply Hne. apply has_prefix_spec in H as [r Hr]. unfold seq_text in Hr. cbn in Hr. injection Hr as Hr.
  clear Hne. revert kw' Hk' Hr. induction kw as [|a kw IH]; intros [|b kw'] Hk' Hr; cbn in Hr; [done| | |].
  - injection Hr as Hb _. subst b. by rewrite contains_byte_cons in Hk'.
  - injection Hr as Hb _. subst a. by rewrite contains_byte_cons in Hk.
  - injection Hr as -> Hr. rewrite contains_byte_cons in Hk, Hk'. apply orb_false_iff in Hk as [_ Hk].
    apply orb_false_iff in Hk' as [_ Hk']. by rewrite (IH Hk kw' Hk' Hr).
Qed.

(** ** Commands as pieces *)

Inductive piece :=
  | Lit (s : string)
  | Seq (kw arg : string).

Definition piece_text (p : piece) : string := match p with Lit s => s | Seq kw arg => seq_text kw arg end.
Definition command_text (ps : list piece) : string := join "" (map piece_text ps).

Definition seq_named (kw : string) : option sequence :=
  snd <$> (snd <$> list_find (fun p : string * sequence => p.1 = kw) passes).

Definition good_piece (p : piece) : Prop :=
  match p with Lit s => plain s = true | Seq kw arg => is_Some (seq_named kw) /\ good_arg arg end.

Lemma join_empty_cons x l : join "" (x :: l) = x +:+ join "" l.
Proof. destruct l; [by rewrite str_app_nil_r|done]. Qed.

Lemma command_text_cons p ps : command_text (p :: ps) = piece_text p +:+ command_text ps.
Proof. apply join_empty_cons. Qed.

Lemma keyword_plain kw : is_Some (seq_named kw) -> contains_byte " " kw = false /\ contains_byte "$" kw = false.
Proof.
  intros [q Hq]. unfold seq_named in Hq. destruct (list_find _ passes) as [[i [kw' q']]|] eqn:Hf; [|done].
  apply list_find_Some in Hf as (Hi & He & _). cbn in He. subst kw'. apply list_elem_of_lookup_2 in Hi.
  unfold passes in Hi. rewrite !elem_of_cons in Hi.
  repeat destruct Hi as [[= -> _]|Hi]; try done. by apply not_elem_of_nil in Hi.
Qed.

Lemma seq_text_cons kw arg : seq_text kw arg = String "$" ("(" +:+ kw +:+ " " +:+ arg +:+ ")").
Proof. done. Qed.

(** The pass of a keyword replaces its sequences, and nothing else. *)
Lemma replace_pass kw f ps :
  contains_byte " " kw = false -> Forall good_piece ps ->
  replace_all kw f (command_text ps) =
  ps' ← mapM (fun p => match p with
    | Seq kw' arg => if String.eqb kw' kw then v ← f arg; Ok (Lit v) else Ok p
    | Lit _ => Ok p
    end) ps;
  Ok (command_text ps').
Proof.
  intros Hkw. induction 1 as [|p ps Hp _ IH]; [done|].
  rewrite command_text_cons. cbn [mapM].
  destruct p as [s|kw' arg]; cbn [piece_text].
  - rewrite replace_plain by done. rewrite IH. cbn [mbind res_bind mret res_ret]. destruct (mapM _ ps) as [ps'| |]; [|done..]. cbn [mbind res_bind mret res_ret].
    by rewrite command_text_cons.
  - destruct Hp as [Hk Ha]. destruct (String.eqb_spec kw' kw) as [->|Hne].
    + pose proof (match_here_seq kw arg (command_text ps) Ha) as Hm. rewrite replace_all_eq.
      rewrite seq_text_cons in Hm |- *. cbn [String.append] in Hm |- *. rewrite Hm, IH.
      destruct (f arg) as [v| |]; [|done..]. cbn [mbind res_bind mret res_ret]. destruct (mapM _ ps) as [ps'| |]; [|done..]. cbn [mbind res_bind mret res_ret].
      by rewrite command_text_cons.
    + destruct (keyword_plain kw' Hk) as [Hsp Hd].
      pose proof (match_here_other_seq kw kw' arg (command_text ps) (not_eq_sym Hne) Hkw Hsp) as Hm.
      rewrite replace_all_eq. rewrite seq_text_cons in Hm |- *. cbn [String.append] in Hm |- *. rewrite Hm.
      change (String "(" ((kw' +:+ String " " (arg +:+ ")")) +:+ command_text ps))
        with (("(" +:+ kw' +:+ " " +:+ arg +:+ ")") +:+ command_text ps).
      rewrite replace_plain.
      * rewrite IH. cbn [mbind res_bind mret res_ret]. destruct (mapM _ ps) as [ps'| |]; [|done..]. cbn [mbind res_bind mret res_ret].
        by rewrite command_text_cons.
      * destruct Ha as (_ & _ & Ha). apply (plain_app "("); [done|]. apply plain_app; [by apply plain_no_dollar|].
        apply (plain_app " "); [done|]. by apply plain_app.
Qed.

(** ** Whole commands *)

Section specification.
Context (home cwd : string) (g : BuildGraph).
Context (path_hash : string -> option string) (output_hash : BuildTarget -> string + string).
Context (WillRunRemotely : BuildTarget -> bool) (bazel : bool) (target : BuildTarget) (test : bool).

#[local] Abbreviation replaced q arg :=
  (replaceSequence home cwd g path_hash output_hash WillRunRemotely target q arg test).

(** What a piece stands for. *)
Definition value (p : piece) : res string :=
  match p with
  | Lit s => Ok s
  | Seq kw arg => match seq_named kw with Some q => replaced q arg | None => Err EIndex end
  end.

(** What is done at the end. *)
Definition finish (cmd : string) : string :=
  ReplaceAll (if bazel then foldl (fun cmd '(old, new) => ReplaceAll cmd old new) cmd bazel_variables else cmd) "\$" "$".

(** An error that is recovered from. *)
Definition recoverable (e : err) : Prop := match e with EFatal _ => False | _ => True end.

(** The piece has a value, in which no sequence starts, or fails without exiting. *)
Definition fine (p : piece) : Prop :=
  match value p with Ok v => plain v = true | Err e => recoverable e | NoFuel => False end.

#[local] Abbreviation pass cmd kq := (replace_all kq.1 (fun arg => replaced kq.2 arg) cmd).

Definition one_pass (kw : string) (q : sequence) (p : piece) : res piece :=
  match p with
  | Seq kw' arg => if String.eqb kw' kw then v ← replaced q arg; Ok (Lit v) else Ok p
  | Lit _ => Ok p
  end.

Definition outcome (ps : list piece) (r : res string) : Prop :=
  match mapM value ps with
  | Ok vs => r = Ok (join "" vs)
  | _ => exists e, recoverable e /\ r = Err e
  end.

Lemma mapM_failed (ps : list piece) p e :
  (forall p, p ∈ ps -> fine p) -> p ∈ ps -> value p = Err e -> forall r, mapM value ps <> Ok r.
Proof.
  intros Hf Hp He. induction ps as [|p' ps IH]; [by apply not_elem_of_nil in Hp|]. intros r. cbn.
  apply elem_of_cons in Hp as [<-|Hp]; [by rewrite He|]. destruct (value p'); [|done..]. cbn.
  assert (forall r, mapM value ps <> Ok r) as H by (apply IH; [intros; apply Hf; by right|done]).
  destruct (mapM value ps); [|done..]. by destruct (H a0).
Qed.

(** One pass over pieces: it gives pieces of the same values, or fails as one of them does. *)
Lemma one_pass_spec kw q ps :
  seq_named kw = Some q -> (forall p, p ∈ ps -> good_piece p /\ fine p) ->
  match mapM (one_pass kw q) ps with
  | Ok ps' => mapM value ps' = mapM value ps /\ (forall p, p ∈ ps' -> good_piece p /\ fine p) /\
      (forall k arg, Seq k arg ∈ ps' -> k <> kw /\ Seq k arg ∈ ps)
  | Err e => recoverable e /\ exists p, p ∈ ps /\ value p = Err e
  | NoFuel => False
  end.
Proof.
  intros Hq. induction ps as [|p ps IH]; intros Hps.
  { cbn. split_and!; [done|by intros p ?%not_elem_of_nil|by intros k arg ?%not_elem_of_nil]. }
  assert (forall p, p ∈ ps -> good_piece p /\ fine p) as Hps' by (intros; apply Hps; by right).
  specialize (IH Hps'). destruct (Hps p) as [Hg Hf]; [by left|].
  assert (match one_pass kw q p with
    | Ok p' => value p' = value p /\ good_piece p' /\ fine p' /\ forall k arg, p' = Seq k arg -> k <> kw /\ p = Seq k arg
    | Err e => recoverable e /\ value p = Err e | NoFuel => False end) as H1.
  { unfold one_pass. destruct p as [s|k arg]; [done|]. destruct (String.eqb_spec k kw) as [->|Hne].
    - unfold fine, value in Hf |- *. rewrite Hq in Hf |- *. destruct (replaced q arg) as [v| |]; [|done..]. done.
    - split_and!; try done. by intros k' arg' [= -> ->]. }
  cbn. destruct (one_pass kw q p) as [p'|e|]; [|destruct H1; split; [done|exists p; split; [by left|done]]|done].
  destruct H1 as (Hv & Hg' & Hf' & Hk). cbn.
  destruct (mapM (one_pass kw q) ps) as [ps'|e|]; [|by destruct IH as (? & p0 & ? & ?); split; [done|];
    exists p0; split; [by right|]|done].
  destruct IH as (IH & Hall & Hseq). cbn. rewrite Hv, IH. split_and!; [done| |].
  - by intros p0 [->|?]%elem_of_cons; auto.
  - intros k arg [Heq|Hin]%elem_of_cons; [destruct (Hk k arg) as [? ->]; [done|split; [done|by left]]|].
    destruct (Hseq k arg Hin). split; [done|by right].
Qed.

Lemma value_NoFuel ps : (forall p, p ∈ ps -> fine p) -> mapM value ps <> NoFuel.
Proof.
  induction ps as [|p ps IH]; intros Hf; cbn; [done|].
  assert (fine p) as H by (apply Hf; by left). unfold fine in H. destruct (value p); [|done..]. cbn.
  assert (mapM value ps <> NoFuel) as H' by (apply IH; intros; apply Hf; by right). by destruct (mapM value ps).
Qed.

(** The passes, one after the other. *)
Lemma passes_spec todo ps :
  (forall kw q, (kw, q) ∈ todo -> seq_named kw = Some q) ->
  (forall p, p ∈ ps -> good_piece p /\ fine p) ->
  (forall k arg, Seq k arg ∈ ps -> k ∈ todo.*1) ->
  outcome ps (foldM (fun cmd '(kw, q) => replace_all kw (fun arg => replaced q arg) cmd) (command_text ps) todo).
Proof.
  revert ps. induction todo as [|[kw q] todo IH]; intros ps Htodo Hps Hseq.
  - assert (Hlit : forall p, p ∈ ps -> exists s, p = Lit s).
    { intros [s|k arg] Hp; [eauto|]. by apply Hseq, not_elem_of_nil in Hp. }
    unfold outcome. assert (mapM value ps = Ok (map piece_text ps)) as ->; [|done].
    clear -Hlit. induction ps as [|p ps IH]; [done|]. cbn. destruct (Hlit p) as [s ->]; [by left|]. cbn.
    rewrite IH; [done|]. intros. apply Hlit. by right.
  - cbn [foldM]. assert (seq_named kw = Some q) as Hq by (apply Htodo; by left).
    rewrite (replace_pass kw).
    2: { by destruct (keyword_plain kw); [eexists|]. }
    2: { apply Forall_forall. intros p Hp. by apply Hps. }
    pose proof (one_pass_spec kw q ps Hq Hps) as H1. fold (one_pass kw q).
    destruct (mapM (one_pass kw q) ps) as [ps'|e|] eqn:Hm; [|cbn|done].
    + destruct H1 as (Hv & Hps' & Hk). cbn. unfold outcome. rewrite <- Hv.
      apply IH; [intros; apply Htodo; by right|done|].
      intros k arg Hin. destruct (Hk k arg Hin) as [Hne Hin']. apply Hseq in Hin'. cbn in Hin'.
      by apply elem_of_cons in Hin' as [->|].
    + destruct H1 as (He & p & Hp & Hpe). unfold outcome.
      pose proof (mapM_failed ps p e ltac:(intros; by apply Hps) Hp Hpe) as Hno.
      destruct (mapM value ps) as [vs| |]; [by destruct (Hno vs)|eauto..].
Qed.

(** C25: A command made of text in which no sequence starts and of sequences of the known
    keywords is replaced as it should be, whatever the order of the passes: when every
    sequence has a value (in which no sequence starts), the result is the text with the
    values in their places, with the Make variables replaced and dollar signs
    unescaped; and when one fails, other than by exiting, it is an error. *)
Theorem replaceSequences_spec ps :
  (forall p, p ∈ ps -> good_piece p /\ fine p) ->
  match mapM value ps with
  | Ok vs =>
      replaceSequencesInternal home cwd g path_hash output_hash WillRunRemotely bazel target (command_text ps) test
        = Ok (inr (finish (join "" vs)))
  | _ =>
      exists msg, replaceSequencesInternal home cwd g path_hash output_hash WillRunRemotely bazel target (command_text ps) test
        = Ok (inl msg)
  end.
Proof.
  intros Hps. pose proof (passes_spec passes ps) as H. unfold outcome in H.
  assert (forall kw q, (kw, q) ∈ passes -> seq_named kw = Some q) as Hnamed.
  { intros kw q Hin. unfold passes in Hin. rewrite !elem_of_cons in Hin.
    repeat destruct Hin as [[= -> ->]|Hin]; try done. by apply not_elem_of_nil in Hin. }
  specialize (H Hnamed Hps). assert (forall k arg, Seq k arg ∈ ps -> k ∈ passes.*1) as Hk.
  { intros k arg Hin. destruct (Hps _ Hin) as [[[q Hq] _] _]. unfold seq_named in Hq.
    destruct (list_find _ passes) as [[i [k' q']]|] eqn:Hf; [|done].
    apply list_find_Some in Hf as (Hi & He & _). cbn in He. subst k'.
    apply list_elem_of_fmap. exists (k, q'). split; [done|]. by eapply list_elem_of_lookup_2. }
  specialize (H Hk). unfold replaceSequencesInternal, replace_sequences.
  pose proof (value_NoFuel ps ltac:(intros; by apply Hps)) as Hno.
  destruct (mapM value ps) as [vs|e|]; [by rewrite H| |done].
  destruct H as (e' & He' & ->). destruct e'; cbn in *; try done; eauto.
Qed.

Lemma all_outputs (outs : list string) (P : string -> Prop) `{!forall x, Decision (P x)} : (forall x, P x) -> filter P outs = outs.
Proof.
  intros HP. induction outs as [|o outs IH]; [done|]. rewrite filter_cons_True by apply HP. by rewrite IH.
Qed.

Lemma checkAndReplace_Ok q dep ep in_ all tool v :
  checkAndReplaceSequence home cwd g output_hash WillRunRemotely target q dep ep in_ test all tool = Ok v ->
  (runnable q = true -> IsBinary dep = true) /\ (test = true -> tool = false) /\
  (all = true -> seq_hash q = false -> ep = "" -> exists outs, Outputs home g dep = Ok outs /\
     (multiple q = false -> (length outs <= 1)%nat) /\ (runnable q = true -> outs <> []) /\
     v = trim_right (join "" (map (fun out => output_text cwd WillRunRemotely target q dep test tool out +:+ " ")
           (if seq_dir q then take 1 outs else outs))) " ").
Proof.
  unfold checkAndReplaceSequence. intros (many & Hmany & H)%bind_Ok.
  apply bind_Ok in H as ([] & H1 & H). destruct many; [done|]. clear H1.
  apply bind_Ok in H as ([] & H1 & H). apply bind_Ok in H as (none & Hnone & H).
  apply bind_Ok in H as ([] & H2 & H). destruct none; [done|]. clear H2. apply bind_Ok in H as ([] & H2 & H).
  split_and!; [by destruct (runnable q), (IsBinary dep)|by destruct test, tool|].
  intros -> Hh ->. rewrite Hh in H. apply bind_Ok in H as (outs & Ho & [= <-]). exists outs.
  rewrite Ho in Hmany, Hnone. split_and!; [done| | |].
  - intros Hm. rewrite Hm in Hmany. change (Ok ((1 <? length outs)%nat && true) = Ok false) in Hmany. injection Hmany as Hl. rewrite andb_true_r in Hl.
    apply Nat.ltb_ge in Hl. done.
  - intros Hr. rewrite Hr in Hnone. cbn in Hnone. injection Hnone as Hl. by apply bool_decide_eq_false in Hl.
  - rewrite (all_outputs outs (fun out => (true || String.eqb out in_) = true)) by done. done.
Qed.

(** C24: A sequence with a build label has a value only if the target that it names may be
    used: it is the target of the command itself, or one that the target declares a dependency
    on (in its own repository, if the label has none), or the first that this
    provides to it. It is a binary if it is to be run, and not a tool in
    the command of a test; and the value is the places of its outputs, of which there is just one if
    one is asked for. *)
Theorem sequence_needs_dependency q in_ v :
  LooksLikeABuildLabel in_ = true -> replaced q in_ = Ok v ->
  exists label dep, TryParseBuildLabel (splitEntryPoint in_).1 (PackageName (Label target)) (Subrepo (Label target)) = inr label /\
    (runnable q = true -> IsBinary dep = true) /\
    ((label = Label target /\ dep = target) \/
     exists l t d, ResolveDependencySubrepo target label = (l, true) /\ HasDependency target l = true /\
       Target g l = Some t /\ d ∈ ProvideFor t target /\ Target g d = Some dep /\ (test = true -> IsTool target l = false)) /\
    (seq_hash q = false -> (splitEntryPoint in_).2 = "" -> exists outs tool, Outputs home g dep = Ok outs /\
       (multiple q = false -> (length outs <= 1)%nat) /\ (runnable q = true -> outs <> []) /\
       v = trim_right (join "" (map (fun out => output_text cwd WillRunRemotely target q dep test tool out +:+ " ")
             (if seq_dir q then take 1 outs else outs))) " ").
Proof.
  intros Hl. unfold replaceSequence. rewrite Hl. destruct (splitEntryPoint in_) as [text ep] eqn:Hs. cbn [fst snd].
  destruct (TryParseBuildLabel _ _ _) as [|label] eqn:Hp; [done|].
  unfold replaceSequenceLabel. case_decide as Heq.
  - intros (Hb & _ & Ho)%checkAndReplace_Ok. exists label, target. split_and!; [done|done|by left|].
    intros Hh Hep. destruct (Ho eq_refl Hh Hep) as (outs & ? & ? & ? & ?). by exists outs, false.
  - destruct (ResolveDependencySubrepo target label) as [l ok] eqn:Hr.
    intros ([] & H1 & (t & Ht%TargetOrDie_Ok & H)%bind_Ok)%bind_Ok. destruct ok; [|done].
    destruct (ProvideFor t target) as [|d ds] eqn:Hpf; [done|].
    apply bind_Ok in H as (dep & Hd%TargetOrDie_Ok & (Hb & Htool & Ho)%checkAndReplace_Ok).
    exists label, dep. split_and!; [done|done| |].
    + right. exists l, t, d. split_and!; try done; [|rewrite Hpf; by left].
      revert Hr. unfold ResolveDependencySubrepo. destruct (HasDependency target label) eqn:Hd1; [by intros [= <-]|].
      destruct (_ && _); [|done]. intros Hr. injection Hr as Hl1 Hr. rewrite <- Hl1. exact Hr.
    + intros Hh Hep. destruct (Ho eq_refl Hh Hep) as (outs & ? & ? & ? & ?). by exists outs, (IsTool target l).
Qed.
End specification.

(** ** A concrete target *)

Definition ex_name (name : string) : BuildLabel := MkBuildLabel "p" name "".
(** [//p:bin], a test that depends on [//p:lib]. *)
Definition ex_lib : BuildTarget := upd_outputs (fun _ => ["lib.a"]) (NewBuildTarget (ex_name "lib")).
Definition ex_bin : BuildTarget :=
  upd_Test (fun _ => Some new_TestFields) (upd_IsBinary (fun _ => true) (upd_outputs (fun _ => ["bin"])
    (upd_dependencies (fun _ => [MkDep (ex_name "lib") false false false false false]) (NewBuildTarget (ex_name "bin"))))).
Definition ex_graph : BuildGraph := build_graph [ex_lib; ex_bin].

Definition ex_replace (command : string) (test : bool) : res (string + string) :=
  replaceSequencesInternal "/home" "/repo" ex_graph (fun _ => None) (fun _ => inl "no hash") (fun _ => false) false ex_bin
    command test.

(** [ld $(location :lib) -o $OUT] *)
Definition ex_pieces : list piece := [Lit "ld "; Seq "location" ":lib"; Lit " -o $OUT"].

Lemma replaceSequences_spec_witness : ex_replace "ld $(location :lib) -o $OUT" false = Ok (inr "ld p/lib.a -o $OUT").
Proof.
  pose proof (replaceSequences_spec "/home" "/repo" ex_graph (fun _ => None) (fun _ => inl "no hash") (fun _ => false)
    false ex_bin false ex_pieces) as H.
  assert (mapM (value "/home" "/repo" ex_graph (fun _ => None) (fun _ => inl "no hash") (fun _ => false) ex_bin false)
    ex_pieces = Ok ["ld "; "p/lib.a"; " -o $OUT"]) as Hv by (vm_compute; reflexivity).
  rewrite Hv in H. apply H. unfold ex_pieces. intros p Hp. rewrite !elem_of_cons in Hp.
  destruct Hp as [->|[->|[->|Hp]]]; [split; reflexivity| |split; reflexivity|by apply not_elem_of_nil in Hp].
  split; [|vm_compute; reflexivity]. split; [by eexists|]. split_and!; [discriminate|reflexivity|reflexivity].
Defined.

Lemma sequence_needs_dependency_witness :
  exists dep, Target ex_graph (ex_name "lib") = Some dep /\ IsBinary ex_bin = true /\
    exists outs, Outputs "/home" ex_graph dep = Ok outs /\ (length outs <= 1)%nat.
Proof.
  destruct (sequence_needs_dependency "/home" "/repo" ex_graph (fun _ => None) (fun _ => inl "no hash") (fun _ => false)
    ex_bin false (MkSequence false false false false false) ":lib" "p/lib.a")
    as (label & dep & Hl & _ & Hor & Ho); [reflexivity|vm_compute; reflexivity|].
  assert (label = ex_name "lib") as -> by (vm_compute in Hl; injection Hl as <-; reflexivity).
  destruct Hor as [[Hne _]|(l & t & d & Hr & _ & Ht & Hd & Hdep & _)]; [discriminate Hne|].
  assert (l = ex_name "lib") as -> by (vm_compute in Hr; injection Hr as <-; reflexivity).
  assert (d = ex_name "lib") as ->.
  { assert (ProvideFor ex_lib ex_bin = [ex_name "lib"]) as Hpf by (vm_compute; reflexivity).
    assert (Target ex_graph (ex_name "lib") = Some ex_lib) as Ht' by (vm_compute; reflexivity).
    assert (t = ex_lib) as -> by congruence. rewrite Hpf in Hd. by apply list_elem_of_singleton in Hd. }
  exists dep. split; [exact Hdep|]. split; [reflexivity|].
  destruct (Ho eq_refl eq_refl) as (outs & _ & Houts & Hlen & _). exists outs. split; [exact Houts|]. by apply Hlen.
Defined.

(** After a worker, the command of a test is replaced as that of a build would be: the
    test itself is not where tests are. *)
Lemma worker_test_command :
  let test := ReplaceTestSequences "/home" "/repo" ex_graph (fun _ => None) (fun _ => inl "no hash") (fun _ => false) false ex_bin in
  test "$(exe :bin)" = Ok (inr "./bin") /\ test "$(worker /w) x && $(exe :bin)" = Ok (inr "p/bin").
Proof. split; vm_compute; reflexivity. Qed.

(** Only some characters are quoted: a file with a space in its name is two words of the
    command. *)
Lemma quote_keeps_spaces : quote "a b" = "a b" /\ quote "a;b" = char_str double_quote +:+ "a;b" +:+ char_str double_quote.
Proof. split; reflexivity. Qed.
