(* ===== verification/Environment.v ===== *)
(** The environment variables of actions: [src/core/build_env.go], with [getBuildEnv] of
    [src/core/config.go] and [toolPath] of [src/core/build_target.go].

    The environment of the host is a map, which also says where [~] is. The order in which Go ranges over a map is a
    parameter, which may be different for each loop. A target's [PassUnsafeEnv] is left out:
    nothing sets it. The platform is not Windows. *)
From S2P Require Import Prelude GoStrings Labels Targets Graph Inputs Lexer GoText Commands.
From Stdlib Require Import Ascii.

#[local] Open Scope Z_scope.

Abbreviation BuildEnv := (gmap string string).

(** What the environments use of the configuration and of the state. *)
Record Settings := MkSettings {
  Lang : string;
  Arch : string;
  OS : string;
  PkgConfigPath : string;
  config_BuildEnv : gmap string string;
  PassUnsafeEnv : list string;
  config_PassEnv : list string;
  Location : string;
  Path : list string;
  RemoteURL : string;
  BuildConfig : string;
  SandboxDirs : list string;
  bazel_compatibility : bool;
  DisableCoverage : list string;
  RepoRoot : string;
  TestArgs : list string;
  state_NeedCoverage : bool;
  DebugFailingTests : bool;
}.

(** ** Expanding variables *)

Definition isShellSpecialVar (c : ascii) : bool :=
  contains_byte c "*#$@!?-0123456789".

Definition isAlphaNum (c : ascii) : bool :=
  let z := code c in
  Ascii.eqb c "_" || (48 <=? z) && (z <=? 57) || (97 <=? z) && (z <=? 122) || (65 <=? z) && (z <=? 90).

(** The letters, digits and underscores at the start of a text. *)
Fixpoint alphanums (s : string) : string :=
  match s with String c s' => if isAlphaNum c then String c (alphanums s') else "" | "" => "" end.

(** [getShellName]: the name at the start of a text, and how many bytes of the text it takes. *)
Definition getShellName (s : string) : string * nat :=
  match s with
  | "" => ("", O)
  | String c s' =>
      let to_brace :=
        match index_byte "}" s' with
        | Some O => ("", 2%nat)
        | Some i => (str_take i s', (i + 2)%nat)
        | None => ("", 1%nat)
        end in
      if Ascii.eqb c "{" then
        match s' with
        | String d (String e _) => if isShellSpecialVar d && Ascii.eqb e "}" then (String d "", 3%nat) else to_brace
        | _ => to_brace
        end
      else if isShellSpecialVar c then (String c "", 1%nat)
      else (alphanums s, String.length (alphanums s))
  end.

(** [os.Expand] *)
Fixpoint Expand_fuel (fuel : nat) (mapping : string -> string) (s : string) : string :=
  match fuel with
  | O => s
  | S fuel =>
      match s with
      | "" => ""
      | String c s' =>
          if Ascii.eqb c "$" && negb (String.eqb s' "") then
            let '(name, w) := getShellName s' in
            (if String.eqb name "" then if (0 <? w)%nat then "" else "$" else mapping name)
              +:+ Expand_fuel fuel mapping (str_drop w s')
          else String c (Expand_fuel fuel mapping s')
      end
  end.

Definition Expand (s : string) (mapping : string -> string) : string := Expand_fuel (String.length s) mapping s.

(** The mapping of [withUserProvidedEnv] *)
Definition expand_or_keep (env : BuildEnv) (k : string) : string :=
  match env !! k with Some v => v | None => "$" +:+ k end.

(** ** Operations on environments *)

(** [Add] *)
Definition Add (env that : BuildEnv) : BuildEnv := that ∪ env.

Definition set_all (vars : list (string * string)) (env : BuildEnv) : BuildEnv :=
  foldl (fun env '(k, v) => <[k := v]> env) env vars.

#[global] Arguments set_all : simpl never.

Definition ReplaceEnvironment (env : BuildEnv) (s : string) : string := default "" (env !! s).

(** [Replace] *)
Definition Replace (env : BuildEnv) (key value : string) : BuildEnv :=
  if bool_decide (is_Some (env !! key)) then <[key := value]> env else env.

Definition Redacted (env : BuildEnv) : BuildEnv :=
  map_imap (fun k v => Some (if contains k "SECRET" || contains k "PASSWORD" then "************" else v)) env.

Definition ToSlice (env : BuildEnv) : list string :=
  sort_strings ((fun kv : string * string => kv.1 +:+ "=" +:+ kv.2) <$> map_to_list env).

(** [String] *)
Definition env_String (env : BuildEnv) : string := join (String newline "") (ToSlice env).

(** ** The variables of every action *)

Definition XOS (os : string) : string := if String.eqb os "darwin" then "osx" else os.

Definition XArch (arch : string) : string :=
  if String.eqb arch "amd64" then "x86_64" else if String.eqb arch "x86" then "x86_32"
  else if String.eqb arch "arm64" then "aarch_64" else arch.

Section environments.
(** the operating system, the files and the environment of the host; upper case
    outside ASCII; the orders in which Go ranges over the keys of a map *)
Context (goos : string) (exists_file : string -> bool) (host : gmap string string) (unicode : string -> string).
Context (order : nat -> list string -> list string).
Context (sha256 : string -> string).
Context (g : BuildGraph) (state : Settings).

(** where [~] is *)
#[local] Abbreviation home := (UserHomeDir host).

(** The entries of a map, in the order of a loop. *)
Definition range {A} (i : nat) (m : gmap string A) : list (string * A) :=
  omap (fun k => (k,.) <$> m !! k) (order i (sorted_keys m)).

(** A key of [BuildEnv] in the configuration *)
Definition config_key (k : string) : string := ReplaceAll (ToUpper unicode k) "-" "_".

(** [addEnv]: the environment, and whether the path is still to be added. *)
Definition addEnv (vars : list string) (acc : BuildEnv * bool) : BuildEnv * bool :=
  foldl (fun '(env, includePath) k =>
    match host !! k with
    | Some v => if String.eqb k "PATH" then (<[k := Location state +:+ ":" +:+ v]> env, false) else (<[k := v]> env, includePath)
    | None => (env, includePath)
    end) acc vars.

Definition getBuildEnv (includePath includeUnsafe : bool) : BuildEnv :=
  let env := set_all ((fun '(k, v) => (config_key k, v)) <$> range 0 (config_BuildEnv state)) ∅ in
  let acc := if includeUnsafe then addEnv (PassUnsafeEnv state) (env, includePath) else (env, includePath) in
  let '(env, includePath) := addEnv (config_PassEnv state) acc in
  if includePath then <["PATH" := join ":" (Location state :: Path state)]> env else env.

(** [GetBuildEnv] *)
Definition GetBuildEnv : BuildEnv := getBuildEnv true true.

(** [GeneralBuildEnvironment] *)
Definition GeneralBuildEnvironment : BuildEnv :=
  let env := set_all [("PLZ_ENV", "1"); ("LANG", Lang state); ("ARCH", Arch state); ("OS", OS state);
                      ("XARCH", XArch (Arch state)); ("XOS", XOS (OS state))] ∅ in
  let env := if String.eqb (PkgConfigPath state) "" then env else <["PKG_CONFIG_PATH" := PkgConfigPath state]> env in
  Add env GetBuildEnv.

(** [TargetEnvironment] *)
Definition TargetEnvironment (target : BuildTarget) : BuildEnv :=
  let env := set_all [("PKG", PackageName (Label target)); ("PKG_DIR", target_PackageDir target);
                      ("NAME", Name (Label target))] GeneralBuildEnvironment in
  let env :=
    if String.eqb (RemoteURL state) "" || Local target then
      set_all [("BUILD_CONFIG", BuildConfig state); ("CONFIG", BuildConfig state)] env
    else env in
  set_all ((fun e => (e, Getenv host e)) <$> default [] (PassEnv target)) env.

Definition resolveOut (out dir : string) (sandbox : bool) : string :=
  if sandbox && String.eqb goos "linux" && negb (has_prefix (RepoRoot state) "/tmp/") && negb (String.eqb dir ".")
  then path_join ["/tmp/plz_sandbox"; out]
  else path_join [dir; out].

(** [toolPath] of a target *)
Definition outToolPath (target : BuildTarget) (abs : bool) (outputs : list string) : string :=
  join " " ((fun o => if abs then path_join [RepoRoot state; target_OutDir target; o]
                      else path_join [target_PackageDir target; o]) <$> outputs).

Definition target_toolPath (target : BuildTarget) (abs : bool) (namedOutput : string) : res string :=
  if String.eqb namedOutput "" then outs ← Outputs home g target; Ok (outToolPath target abs outs)
  else
    match EntryPoints target !! namedOutput, namedOutputs target !! namedOutput with
    | Some o, _ => Ok (outToolPath target abs [o])
    | None, Some outs => Ok (outToolPath target abs outs)
    | None, None =>
        Err (EPanic (label_String (Label target) +:+ " has no named output or entry point " +:+ namedOutput))
    end.

Definition first_of (paths : list string) : res string := match paths with p :: _ => Ok p | [] => Err EIndex end.

Definition toolPath (tool : BuildInput) (abs : bool) : res string :=
  match input_Label tool with
  | Some label =>
      let entryPoint := match tool with AnnotatedOutputLabel _ a => a | _ => "" end in
      t ← TargetOrDie g label;
      path ← target_toolPath t abs entryPoint;
      Ok (if contains_byte "/" path then path else "./" +:+ path)
  | None =>
      paths ← (if abs then Paths home exists_file g tool else LocalPaths home g tool);
      first_of paths
  end.

Definition toolPaths (tools : list BuildInput) (abs : bool) : res (list string) :=
  mapM (fun tool => toolPath tool abs) tools.

(** Variables for the groups of a map: their names in upper case after a prefix. *)
Definition group_vars {A} (i : nat) (prefix : string) (f : A -> res string) (m : gmap string A) : res BuildEnv :=
  vars ← mapM (fun '(name, x) => v ← f x; Ok (prefix +:+ ToUpper unicode name, v)) (range i m);
  Ok (set_all vars ∅).

Definition toolsEnv (i : nat) (allTools : list BuildInput) (named : gmap string (list BuildInput)) (prefix : string)
    (abs : bool) : res BuildEnv :=
  let paths tools := ps ← toolPaths tools abs; Ok (join " " ps) in
  all ← paths allTools;
  one ← match allTools with [tool] => p ← toolPath tool abs; Ok {[ prefix +:+ "TOOL" := p ]} | _ => Ok ∅ end;
  groups ← group_vars i (prefix +:+ "TOOLS_") paths named;
  Ok (Add (Add {[ prefix +:+ "TOOLS" := all ]} one) groups).

Definition runtimeDataPaths (data : list BuildInput) (fullPath : bool) : res (list string) :=
  flat_mapM (fun in_ => if fullPath : bool then FullPaths home exists_file g in_ else Paths home exists_file g in_) data.

Definition dataEnv (i : nat) (allData : list BuildInput) (named : gmap string (list BuildInput)) (prefix : string)
    (inTmpDir : bool) : res BuildEnv :=
  let paths data := ps ← runtimeDataPaths data (negb inTmpDir); Ok (join " " ps) in
  all ← paths allData;
  groups ← group_vars i (prefix +:+ "DATA_") paths named;
  Ok (Add {[ prefix +:+ "DATA" := all ]} groups).

(** ** The environments *)

(** [withUserProvidedEnv] *)
Definition withUserProvidedEnv (i : nat) (target : BuildTarget) (env : BuildEnv) : BuildEnv :=
  foldl (fun env '(k, v) =>
    <[k := if contains v "$" then Expand v (expand_or_keep env) else v]> env) env (range i (Env target)).

(** The variables for the sources of a target. *)
Definition source_vars (target : BuildTarget) (sources : list string) : res BuildEnv :=
  if SrcListFiles target then Ok ∅
  else
    groups ← group_vars 1 "SRCS_" (fun srcs =>
      ps ← flat_mapM (sourcePaths g target (Paths home exists_file g)) srcs; Ok (join " " ps)) (NamedSources target);
    Ok (Add (Add {[ "SRCS" := join " " sources ]} match sources with [s] => {[ "SRC" := s ]} | _ => ∅ end) groups).

(** Those for its secrets. *)
Definition secret_value (secrets : list string) : string := ReplaceAll (ExpandHomePath home (join ":" secrets)) ":" " ".
Definition secret_vars (target : BuildTarget) : res BuildEnv :=
  groups ← group_vars 4 "SECRETS_" (fun secrets => Ok (secret_value secrets)) (NamedSecrets target);
  Ok (Add (if bool_decide (Secrets target = []) then ∅ else {[ "SECRETS" := secret_value (Secrets target) ]}) groups).

(** Before the variables that the target gives. *)
Definition build_environment (target : BuildTarget) (tmpDir : string) : res BuildEnv :=
  let env := TargetEnvironment target in
  sources ← allSourcePaths g target (Paths home exists_file g);
  outs ← Outputs home g target;
  let outEnv := GetTmpOutputAll target outs in
  let env := set_all [("TMP_DIR", tmpDir); ("TMPDIR", tmpDir); ("OUTS", join " " outEnv); ("HOME", tmpDir);
                      ("PYTHONHASHSEED", "42")] env in
  let env := match outEnv with [out] => <["OUT" := resolveOut out tmpDir (Sandbox target)]> env | _ => env end in
  srcs ← source_vars target sources;
  named_outs ← group_vars 2 "OUTS_" (fun outs => Ok (join " " (GetTmpOutputAll target outs))) (namedOutputs target);
  tools ← toolsEnv 3 (AllTools target) (namedTools target) "" (has_prefix tmpDir "/");
  secrets ← secret_vars target;
  let env := Add (Add (Add (Add env srcs) named_outs) tools) secrets in
  let env :=
    if Sandbox target && bool_decide (SandboxDirs state <> []) then <["SANDBOX_DIRS" := join "," (SandboxDirs state)]> env
    else env in
  Ok (if bazel_compatibility state then
        set_all [("GENDIR", path_join [RepoRoot state; GenDir]); ("BINDIR", path_join [RepoRoot state; BinDir])] env
      else env).

Definition BuildEnvironment (target : BuildTarget) (tmpDir : string) : res BuildEnv :=
  env ← build_environment target tmpDir; Ok (withUserProvidedEnv 5 target env).

(** The base of those for running. *)
Definition RuntimeEnvironment (target : BuildTarget) (abs inTmpDir : bool) : res BuildEnv :=
  let env := TargetEnvironment target in
  data ← dataEnv 6 (AllData target) (NamedData target) "" inTmpDir;
  tools ← match target_Test target with
          | Some f => all ← AllTestTools target; toolsEnv 7 all (test_namedTools f) "" abs
          | None => Ok ∅
          end;
  debug ← match Debug target with
          | Some d =>
              data ← dataEnv 8 (AllDebugData target) (debug_namedData d) "DEBUG_" inTmpDir;
              tools ← toolsEnv 9 (AllDebugTools target) (debug_namedTools d) "DEBUG_" abs;
              Ok (Add data tools)
          | None => Ok ∅
          end;
  Ok (Add (Add (Add env data) tools) debug).

Definition NeedCoverage (target : BuildTarget) : bool :=
  match target_Test target with
  | None => false
  | Some f =>
      state_NeedCoverage state && negb (NoOutput f) && negb (NoCoverage f) && negb (HasAnyLabel target (DisableCoverage state))
  end.

Definition test_id (target : BuildTarget) (run : Z) : string :=
  base64 false (str_take 12 (sha256 (label_String (Label target) +:+ Itoa run))).

Definition TestEnvironment (target : BuildTarget) (testDir : string) (run : Z) : res BuildEnv :=
  env ← RuntimeEnvironment target (has_prefix testDir "/") true;
  let resultsFile := path_join [testDir; "test.results"] in
  let env := set_all [("TEST_DIR", testDir); ("TMP_DIR", testDir); ("TMPDIR", testDir); ("HOME", testDir);
                      ("TEST_ARGS", join "," (TestArgs state)); ("RESULTS_FILE", resultsFile);
                      ("GTEST_OUTPUT", "xml:" +:+ resultsFile); ("PEX_NOCACHE", "true");
                      ("_TEST_ID", test_id target run)] env in
  let env :=
    if NeedCoverage target then
      set_all [("COVERAGE", "true"); ("COVERAGE_FILE", path_join [testDir; "test.coverage"])] env
    else env in
  outputs ← Outputs home g target;
  sandbox ← match target_Test target with Some f => Ok (test_Sandbox f) | None => Err (EPanic "nil pointer dereference") end;
  let env := match outputs with out :: _ => <["TEST" := resolveOut out testDir sandbox]> env | [] => env end in
  let env :=
    if HasLabel target "cc" then <["GCNO_DIR" := path_join [RepoRoot state; GenDir; PackageName (Label target)]]> env
    else env in
  let env := if DebugFailingTests state then <["DEBUG_TEST_FAILURE" := "true"]> env else env in
  let env :=
    if sandbox && bool_decide (SandboxDirs state <> []) then <["SANDBOX_DIRS" := join "," (SandboxDirs state)]> env
    else env in
  let env := if bool_decide (TestArgs state = []) then env else <["TESTS" := join " " (TestArgs state)]> env in
  Ok (withUserProvidedEnv 10 target env).

(** [RunEnvironment] *)
Definition RunEnvironment (target : BuildTarget) (inTmpDir : bool) : res BuildEnv :=
  env ← RuntimeEnvironment target true inTmpDir;
  outEnv ← Outputs home g target;
  let env := <["OUTS" := join " " outEnv]> env in
  let env := match outEnv with [out] => <["OUT" := resolveOut out "." false]> env | _ => env end in
  Ok (withUserProvidedEnv 11 target env).

(** [ExecEnvironment] *)
Definition ExecEnvironment (target : BuildTarget) (execDir : string) : res BuildEnv :=
  env ← RuntimeEnvironment target true true;
  let env := set_all [("TMP_DIR", execDir); ("TMPDIR", execDir); ("HOME", execDir); ("TERM", Getenv host "TERM")] env in
  outEnv ← Outputs home g target;
  let env := <["OUTS" := join " " outEnv]> env in
  let env :=
    match outEnv with
    | [out] =>
        let env := <["OUT" := resolveOut out "." (Sandbox target)]> env in
        match target_Test target with Some f => <["TEST" := resolveOut out "." (test_Sandbox f)]> env | None => env end
    | _ => env
    end in
  Ok (withUserProvidedEnv 12 target env).

Definition StampFileName (target : BuildTarget) : string := ".stamp_" +:+ Name (Label target).

(** [initStampEnv], from what the repository's version control says *)
Definition initStampEnv (commitDate revision describe : string) : BuildEnv :=
  set_all [("SCM_COMMIT_DATE", commitDate); ("SCM_REVISION", revision); ("SCM_DESCRIBE", describe)] ∅.

(** [StampedBuildEnvironment] *)
Definition StampedBuildEnvironment (stampEnv : BuildEnv) (target : BuildTarget) (stamp tmpDir : string) (shouldStamp : bool) :
    res BuildEnv :=
  env ← BuildEnvironment target tmpDir;
  let encStamp := base64 true stamp in
  let env :=
    if shouldStamp then set_all [("STAMP_FILE", StampFileName target); ("STAMP", encStamp)] (Add env stampEnv)
    else env in
  Ok (<["RULE_HASH" := encStamp]> env).

(** ** Variables by their names *)

Lemma range_perm {A} i (m : gmap string A) : (forall i l, order i l ≡ₚ l) -> range i m ≡ₚ map_to_list m.
Proof.
  intros Hord. unfold range. rewrite Hord. unfold sort_strings.
  etrans; [apply omap_Permutation, merge_sort_Permutation|].
  assert (forall l : list (string * A), (forall kv, kv ∈ l -> m !! kv.1 = Some kv.2) ->
    omap (fun k => (k,.) <$> m !! k) l.*1 = l) as H; [|by rewrite H; [|intros [k x] ?%elem_of_map_to_list]].
  induction l as [|[k x] l IH]; intros Hl; [done|]. cbn. pose proof (Hl (k, x) ltac:(by left)) as Hk. cbn in Hk.
  rewrite Hk. cbn. f_equal. apply IH. intros. apply Hl. by right.
Qed.

Lemma set_all_None vars env k : k ∉ vars.*1 -> set_all vars env !! k = env !! k.
Proof.
  revert env. induction vars as [|[k' v] vars IH]; intros env Hk; [done|]. cbn in Hk.
  apply not_elem_of_cons in Hk as [Hne Hk]. change (set_all vars (<[k' := v]> env) !! k = env !! k). rewrite IH by done. by apply lookup_insert_ne.
Qed.

Lemma Add_None env that k : that !! k = None -> Add env that !! k = env !! k.
Proof. intros H. unfold Add. by rewrite lookup_union, H, (left_id None union). Qed.

Lemma Add_Some env that k v : that !! k = Some v -> Add env that !! k = Some v.
Proof. intros H. unfold Add. by apply lookup_union_Some_l. Qed.

Lemma mapM_Ok {A B} (f : A -> res B) l r : mapM f l = Ok r -> Forall2 (fun x y => f x = Ok y) l r.
Proof.
  revert r. induction l as [|x l IH]; intros r; cbn; [by intros [= <-]|].
  intros (y & Hy & (r' & Hr & [= <-])%bind_Ok)%bind_Ok. constructor; [done|by apply IH].
Qed.

(** The variables of groups all start with the prefix. *)
Lemma group_vars_None {A} i prefix f (m : gmap string A) vars k :
  group_vars i prefix f m = Ok vars -> has_prefix k prefix = false -> vars !! k = None.
Proof.
  unfold group_vars. intros (vs & Hvs%mapM_Ok & [= <-])%bind_Ok Hk. rewrite set_all_None; [done|].
  intros ([k' v] & -> & Hin)%list_elem_of_fmap. cbn in Hk.
  apply list_elem_of_lookup in Hin as [j Hj]. destruct (Forall2_lookup_r _ _ _ _ _ Hvs Hj) as ([n x] & _ & Hf).
  apply bind_Ok in Hf as (v' & _ & [= <- _]). by rewrite has_prefix_app_self in Hk.
Qed.

Lemma toolsEnv_None i all named prefix abs vars k :
  toolsEnv i all named prefix abs = Ok vars -> has_prefix k (prefix +:+ "TOOL") = false -> vars !! k = None.
Proof.
  unfold toolsEnv. intros (s & _ & (one & Hone & (groups & Hg & [= <-])%bind_Ok)%bind_Ok)%bind_Ok Hk.
  assert (forall suffix, k <> prefix +:+ "TOOL" +:+ suffix) as Hne.
  { intros suffix ->. rewrite <- (str_app_assoc prefix "TOOL" suffix), has_prefix_app_self in Hk. done. }
  rewrite Add_None. 2: { eapply group_vars_None; [exact Hg|]. destruct (has_prefix k (prefix +:+ "TOOLS_")) eqn:Hp; [|done].
    apply has_prefix_spec in Hp as [r Hr]. destruct (Hne ("S_" +:+ r)). by rewrite Hr, str_app_assoc. }
  rewrite Add_None.
  - apply lookup_singleton_ne. intros <-. by apply (Hne "S").
  - destruct all as [|tool [|]]; [by injection Hone as <-| |by injection Hone as <-].
    apply bind_Ok in Hone as (p & _ & [= <-]). apply lookup_singleton_ne. intros <-. by apply (Hne "").
Qed.

(** ** What the user gives *)

(** The names that expanding a text looks up. *)
Fixpoint mentions_fuel (fuel : nat) (s : string) : list string :=
  match fuel with
  | O => []
  | S fuel =>
      match s with
      | "" => []
      | String c s' =>
          if Ascii.eqb c "$" && negb (String.eqb s' "") then
            let '(name, w) := getShellName s' in
            (if String.eqb name "" then [] else [name]) ++ mentions_fuel fuel (str_drop w s')
          else mentions_fuel fuel s'
      end
  end.

Definition mentions (s : string) : list string := mentions_fuel (String.length s) s.

Lemma Expand_fuel_ext fuel s m1 m2 :
  (forall k, k ∈ mentions_fuel fuel s -> m1 k = m2 k) -> Expand_fuel fuel m1 s = Expand_fuel fuel m2 s.
Proof.
  revert s. induction fuel as [|fuel IH]; intros s Hm; [done|]. cbn in Hm |- *. destruct s as [|c s]; [done|].
  destruct (_ && _); [|by rewrite (IH s)]. destruct (getShellName s) as [name w].
  rewrite (IH (str_drop w s)); [|intros; apply Hm, elem_of_app; by right]. f_equal.
  destruct (String.eqb name ""); [done|]. apply Hm. by left.
Qed.

Lemma Expand_ext s m1 m2 : (forall k, k ∈ mentions s -> m1 k = m2 k) -> Expand s m1 = Expand s m2.
Proof. apply Expand_fuel_ext. Qed.

(** Text without a dollar sign. *)
Lemma Expand_plain s m : contains s "$" = false -> Expand s m = s.
Proof.
  unfold Expand. induction s as [|c s IH]; intros Hs; [done|]. cbn. pose proof (proj1 (contains_false _ _) Hs) as Hno.
  destruct (Ascii.eqb_spec c "$") as [->|_]; [by destruct (Hno "" s)|]. cbn. rewrite IH; [done|].
  apply contains_false. intros p r ->. by apply (Hno (String c p) r).
Qed.

Definition user_value (env : BuildEnv) (v : string) : string :=
  if contains v "$" then Expand v (expand_or_keep env) else v.

Lemma user_value_eq env v : user_value env v = Expand v (expand_or_keep env).
Proof. unfold user_value. destruct (contains v "$") eqn:E; [done|]. by rewrite Expand_plain. Qed.

Lemma user_value_ext env env' v : (forall k, k ∈ mentions v -> env !! k = env' !! k) -> user_value env v = user_value env' v.
Proof. rewrite !user_value_eq. intros H. apply Expand_ext. intros k Hk. unfold expand_or_keep. by rewrite H. Qed.

(** Setting variables one after the other, none of which mentions another. *)
Lemma user_loop (l : list (string * string)) (env0 env : BuildEnv) :
  NoDup l.*1 ->
  (forall k v k', (k, v) ∈ l -> k' ∈ mentions v -> env !! k' = env0 !! k' /\ (k' ∈ l.*1 -> k' = k)) ->
  foldl (fun env '(k, v) => <[k := user_value env v]> env) env l = (user_value env0 <$> list_to_map l) ∪ env.
Proof.
  revert env. induction l as [|[k v] l IH]; intros env Hnd Hl; cbn.
  { by rewrite fmap_empty, (left_id_L ∅ (∪)). }
  cbn in Hnd. apply NoDup_cons in Hnd as [Hk Hnd]. rewrite IH; [|done|].
  - rewrite fmap_insert, <- insert_union_l, (user_value_ext env env0).
    2: { intros k' Hk'. by apply (Hl k v); [left|]. }
    apply map_eq. intros j. destruct (decide (j = k)) as [->|Hne].
    + rewrite lookup_insert_eq. rewrite lookup_union_r; [by rewrite lookup_insert_eq|].
      by rewrite lookup_fmap, not_elem_of_list_to_map_1.
    + rewrite lookup_insert_ne by done. rewrite !lookup_union. by rewrite lookup_insert_ne.
  - intros k2 v2 k' Hin Hk'. destruct (Hl k2 v2 k') as [H1 H2]; [by right|done|].
    assert (k' <> k) as Hne.
    { intros ->. assert (k = k2) as -> by (apply H2; by left). apply Hk. by apply (list_elem_of_fmap_2 fst) in Hin. }
    rewrite lookup_insert_ne by done. split; [done|]. intros Hl'. apply H2. by right.
Qed.

Lemma user_env_lookup i target env k :
  Env target !! k = None -> withUserProvidedEnv i target env !! k = env !! k.
Proof.
  intros Hk. unfold withUserProvidedEnv.
  assert (k ∉ (range i (Env target)).*1) as Hr.
  { intros ([k' v] & -> & Hin)%list_elem_of_fmap. apply list_elem_of_omap in Hin as (k0 & _ & Heq).
    destruct (Env target !! k0) eqn:E; [|done]. injection Heq as -> _. cbn in Hk. congruence. }
  revert env Hr. generalize (range i (Env target)) as l. induction l as [|[k' v] l IH]; intros env Hr; [done|].
  cbn in Hr |- *. apply not_elem_of_cons in Hr as [Hne Hr]. rewrite IH by done. by apply lookup_insert_ne.
Qed.

(** Whatever the order in which the variables that a target gives are visited, if none of them
    mentions another (it may mention itself, which then stands for the value that the
    variable had), each gets its text expanded in the environment without them, and
    all others stay. *)
Theorem withUserProvidedEnv_simultaneous i target env :
  (forall i l, order i l ≡ₚ l) ->
  (forall k v k', Env target !! k = Some v -> k' ∈ mentions v -> is_Some (Env target !! k') -> k' = k) ->
  withUserProvidedEnv i target env = ((fun v => Expand v (expand_or_keep env)) <$> Env target) ∪ env.
Proof.
  intros Hord Hind. pose proof (range_perm i (Env target) (fun i l => Hord i l)) as Hp.
  assert (NoDup (range i (Env target)).*1) as Hnd by (rewrite Hp; apply NoDup_fst_map_to_list).
  unfold withUserProvidedEnv. etrans; [apply (user_loop _ env env Hnd)|].
  - intros k v k' Hin Hk'. split; [done|]. rewrite Hp in Hin |- *. apply elem_of_map_to_list in Hin.
    intros ([k2 v2] & -> & Hin2)%list_elem_of_fmap. apply elem_of_map_to_list in Hin2. by eapply Hind.
  - f_equal. rewrite (list_to_map_proper _ (map_to_list (Env target))), list_to_map_to_list by done.
    apply map_fmap_ext. intros. apply user_value_eq.
Qed.

(** ** What a build gets *)

Lemma source_vars_None target sources vars k :
  source_vars target sources = Ok vars -> has_prefix k "SRC" = false -> vars !! k = None.
Proof.
  unfold source_vars. destruct (SrcListFiles target); [by intros [= <-]|].
  intros (groups & Hg & [= <-])%bind_Ok Hk.
  assert (forall suffix, k <> "SRC" +:+ suffix) as Hne.
  { intros suffix ->. by rewrite has_prefix_app_self in Hk. }
  rewrite !Add_None; [apply lookup_singleton_ne; intros <-; by apply (Hne "S")| |].
  - destruct sources as [|s [|]]; [done| |done]. apply lookup_singleton_ne. intros <-. by apply (Hne "").
  - eapply group_vars_None; [exact Hg|]. destruct (has_prefix k "SRCS_") eqn:Hp; [|done].
    apply has_prefix_spec in Hp as [r ->]. by destruct (Hne ("S_" +:+ r)).
Qed.

Lemma secret_vars_None target vars k :
  secret_vars target = Ok vars -> has_prefix k "SECRETS" = false -> vars !! k = None.
Proof.
  unfold secret_vars. intros (groups & Hg & [= <-])%bind_Ok Hk.
  assert (forall suffix, k <> "SECRETS" +:+ suffix) as Hne.
  { intros suffix ->. by rewrite has_prefix_app_self in Hk. }
  rewrite Add_None.
  - case_bool_decide; [done|]. apply lookup_singleton_ne. intros <-. by apply (Hne "").
  - eapply group_vars_None; [exact Hg|]. destruct (has_prefix k "SECRETS_") eqn:Hp; [|done].
    apply has_prefix_spec in Hp as [r ->]. by destruct (Hne ("_" +:+ r)).
Qed.

Ltac not_listed := apply (bool_decide_eq_true_1 _); vm_compute; reflexivity.

(** The variables that say nothing of sources, tools, secrets or groups of outputs. *)
Definition base_environment (target : BuildTarget) (tmpDir : string) (outEnv : list string) : BuildEnv :=
  let env := set_all [("TMP_DIR", tmpDir); ("TMPDIR", tmpDir); ("OUTS", join " " outEnv); ("HOME", tmpDir);
                      ("PYTHONHASHSEED", "42")] (TargetEnvironment target) in
  match outEnv with [out] => <["OUT" := resolveOut out tmpDir (Sandbox target)]> env | _ => env end.

Lemma build_environment_lookup target tmpDir env :
  build_environment target tmpDir = Ok env ->
  exists sources outs srcs, allSourcePaths g target (Paths home exists_file g) = Ok sources /\ Outputs home g target = Ok outs /\
    source_vars target sources = Ok srcs /\
    forall k, has_prefix k "TOOL" = false -> has_prefix k "SECRETS" = false -> has_prefix k "OUTS_" = false ->
      k ∉ ["SANDBOX_DIRS"; "GENDIR"; "BINDIR"] ->
      env !! k = Add (base_environment target tmpDir (GetTmpOutputAll target outs)) srcs !! k.
Proof.
  unfold build_environment. intros (sources & Hsrcs & (outs & Houts & (srcs & Hs & H)%bind_Ok)%bind_Ok)%bind_Ok.
  apply bind_Ok in H as (named & Hn & (tools & Ht & (secrets & Hsec & [= <-])%bind_Ok)%bind_Ok).
  exists sources, outs, srcs. split_and!; [done..|]. intros k Hk1 Hk2 Hk3 Hk4.
  apply not_elem_of_cons in Hk4 as [Hd1 Hk4].
  assert (forall env, (if bazel_compatibility state then
    set_all [("GENDIR", path_join [RepoRoot state; GenDir]); ("BINDIR", path_join [RepoRoot state; BinDir])] env else env) !! k
    = env !! k) as ->.
  { intros env. destruct (bazel_compatibility state); [|done]. by apply set_all_None. }
  assert (forall (b : bool) v (env : BuildEnv), (if b then <["SANDBOX_DIRS" := v]> env else env) !! k = env !! k) as ->.
  { intros [] v env; [|done]. by apply lookup_insert_ne. }
  rewrite Add_None by (by eapply secret_vars_None). rewrite Add_None by (by eapply toolsEnv_None).
  rewrite Add_None by (by eapply group_vars_None). done.
Qed.

(** The variables of the host that may be passed to a target. *)
Definition passed (target : BuildTarget) : list string :=
  PassUnsafeEnv state ++ config_PassEnv state ++ default [] (PassEnv target).

Lemma addEnv_None vars acc k : k ∉ vars -> (addEnv vars acc).1 !! k = acc.1 !! k.
Proof.
  unfold addEnv. revert acc. induction vars as [|k' vars IH]; intros [env b] Hk; [done|]. cbn.
  apply not_elem_of_cons in Hk as [Hne Hk]. destruct (host !! k'); [|by rewrite IH].
  case_match; rewrite IH by done; by apply lookup_insert_ne.
Qed.

Lemma addEnv_path vars acc : "PATH" ∉ vars -> (addEnv vars acc).2 = acc.2.
Proof.
  unfold addEnv. revert acc. induction vars as [|k' vars IH]; intros [env b] Hk; [done|]. cbn.
  apply not_elem_of_cons in Hk as [Hne Hk]. destruct (host !! k'); [|by rewrite IH].
  destruct (String.eqb_spec k' "PATH") as [->|_]; [done|by rewrite IH].
Qed.

Lemma TargetEnvironment_path target :
  "PATH" ∉ passed target -> TargetEnvironment target !! "PATH" = Some (join ":" (Location state :: Path state)).
Proof.
  unfold passed. intros [Hu [Hc Ht]%not_elem_of_app]%not_elem_of_app. unfold TargetEnvironment.
  rewrite set_all_None.
  2: { intros ([k v] & Heq & (k' & [= -> ->] & Hin)%list_elem_of_fmap)%list_elem_of_fmap. cbn in Heq. congruence. }
  assert (forall b env, (if b : bool then set_all [("BUILD_CONFIG", BuildConfig state); ("CONFIG", BuildConfig state)] env else env)
    !! "PATH" = env !! "PATH") as ->.
  { intros [] env; [|done]. apply set_all_None. not_listed. }
  rewrite set_all_None by not_listed. unfold GeneralBuildEnvironment. apply Add_Some. unfold GetBuildEnv, getBuildEnv.
  destruct (addEnv _ _) as [env b] eqn:E. assert (b = true) as ->; [|by rewrite lookup_insert_eq].
  change b with (env, b).2. rewrite <- E. by rewrite !addEnv_path.
Qed.

(** What a variable has unless the target gives it. *)
Definition has_value (target : BuildTarget) (env : BuildEnv) (k v : string) : Prop :=
  Env target !! k = None -> env !! k = Some v.

(** C26: The environment of a build, where the target does not give the variables itself: the
    temporary directory stands in for the home, [PATH] is that of the configuration
    unless it is passed from the host, and the outputs and sources are those of the target,
    with a variable for a single one. *)
Theorem BuildEnvironment_spec target tmpDir env :
  BuildEnvironment target tmpDir = Ok env ->
  exists sources outs, allSourcePaths g target (Paths home exists_file g) = Ok sources /\ Outputs home g target = Ok outs /\
    has_value target env "TMP_DIR" tmpDir /\ has_value target env "TMPDIR" tmpDir /\ has_value target env "HOME" tmpDir /\
    ("PATH" ∉ passed target -> has_value target env "PATH" (join ":" (Location state :: Path state))) /\
    has_value target env "OUTS" (join " " (GetTmpOutputAll target outs)) /\
    (forall out, outs = [out] -> has_value target env "OUT" (resolveOut (GetTmpOutput target out) tmpDir (Sandbox target))) /\
    (SrcListFiles target = false -> has_value target env "SRCS" (join " " sources) /\ forall src, sources = [src] -> has_value target env "SRC" src).
Proof.
  unfold BuildEnvironment. intros (env0 & Henv & [= <-])%bind_Ok.
  destruct (build_environment_lookup _ _ _ Henv) as (sources & outs & srcs & Hs & Ho & Hsv & Hl).
  exists sources, outs. split; [done|]. split; [done|].
  assert (forall k v, Add (base_environment target tmpDir (GetTmpOutputAll target outs)) srcs !! k = Some v ->
    has_prefix k "TOOL" = false -> has_prefix k "SECRETS" = false -> has_prefix k "OUTS_" = false ->
    k ∉ ["SANDBOX_DIRS"; "GENDIR"; "BINDIR"] -> has_value target (withUserProvidedEnv 5 target env0) k v) as Hset.
  { intros k v Hk H1 H2 H3 H4 Hu. unfold has_value. rewrite user_env_lookup, Hl by done. done. }
  assert (forall k v, base_environment target tmpDir (GetTmpOutputAll target outs) !! k = Some v ->
    has_prefix k "SRC" = false -> Add (base_environment target tmpDir (GetTmpOutputAll target outs)) srcs !! k = Some v) as Hbase.
  { intros k v Hk Hp. rewrite Add_None by (by eapply source_vars_None). done. }
  assert (forall k v, k ∈ ["TMP_DIR"; "TMPDIR"; "OUTS"; "HOME"; "PATH"] -> set_all [("TMP_DIR", tmpDir); ("TMPDIR", tmpDir);
    ("OUTS", join " " (GetTmpOutputAll target outs)); ("HOME", tmpDir); ("PYTHONHASHSEED", "42")] (TargetEnvironment target)
    !! k = Some v -> has_value target (withUserProvidedEnv 5 target env0) k v) as Hone.
  { intros k v Hk Hv. assert (base_environment target tmpDir (GetTmpOutputAll target outs) !! k = Some v) as Hb.
    - unfold base_environment. destruct (GetTmpOutputAll target outs) as [|out [|]]; [done| |done].
      rewrite lookup_insert_ne; [done|]. intros <-. revert Hk. not_listed.
    - rewrite !elem_of_cons in Hk. repeat destruct Hk as [->|Hk]; [apply Hset; try done; [by apply Hbase|not_listed]..|].
      by apply not_elem_of_nil in Hk. }
  split_and!; try (apply Hone; [not_listed|unfold set_all; cbn; by simplify_map_eq]).
  - intros Hp. apply Hone; [not_listed|]. rewrite set_all_None by not_listed. by apply TargetEnvironment_path.
  - intros out ->. apply Hset; [|reflexivity..|not_listed]. apply Hbase; [|reflexivity].
    unfold base_environment. cbn. by rewrite lookup_insert_eq.
  - intros Hf. unfold source_vars in Hsv. rewrite Hf in Hsv. apply bind_Ok in Hsv as (groups & Hg & [= <-]).
    assert (forall k, has_prefix k "SRCS_" = false -> groups !! k = None) as Hno by (intros; by eapply group_vars_None).
    split; [|intros src ->].
    + apply Hset; [|reflexivity..|not_listed]. apply Add_Some. rewrite Add_None by (by apply Hno).
      destruct sources as [|s [|]]; [done| |done]. by rewrite Add_None.
    + apply Hset; [|reflexivity..|not_listed]. apply Add_Some. rewrite Add_None by (by apply Hno). done.
Qed.
End environments.

(** ** What of the host matters *)

Section hosts.
Context (goos : string) (exists_file : string -> bool) (unicode : string -> string).
Context (order : nat -> list string -> list string) (sha256 : string -> string).
Context (g : BuildGraph) (state : Settings) (host host' : gmap string string).

Lemma addEnv_host vars acc : (forall k, k ∈ vars -> host !! k = host' !! k) -> addEnv host state vars acc = addEnv host' state vars acc.
Proof.
  unfold addEnv. revert acc. induction vars as [|k vars IH]; intros [env b] Hk; [done|]. cbn.
  rewrite (Hk k) by (by left). assert (forall k, k ∈ vars -> host !! k = host' !! k) by (intros; apply Hk; by right).
  destruct (host' !! k); [destruct (String.eqb k "PATH")|]; by apply IH.
Qed.

Lemma TargetEnvironment_host target :
  (forall k, k ∈ passed state target -> host !! k = host' !! k) ->
  TargetEnvironment host unicode order state target = TargetEnvironment host' unicode order state target.
Proof.
  unfold passed. intros Hk. unfold TargetEnvironment, GeneralBuildEnvironment, GetBuildEnv, getBuildEnv.
  rewrite !(addEnv_host (PassUnsafeEnv state)) by (intros; apply Hk, elem_of_app; by left).
  rewrite !(addEnv_host (config_PassEnv state)) by (intros; apply Hk; rewrite !elem_of_app; auto).
  f_equal. apply list_fmap_ext. intros i k Hi. unfold Getenv. rewrite Hk; [done|].
  rewrite !elem_of_app. right; right. by eapply list_elem_of_lookup_2.
Qed.

(** What a list of variables is given does not depend on how often it names them. *)
Lemma set_all_fn (f : string -> string) ks env k : k ∈ ks -> set_all ((fun e => (e, f e)) <$> ks) env !! k = Some (f k).
Proof.
  revert env. induction ks as [|k' ks IH]; intros env Hk; [by apply elem_of_nil in Hk|]. rewrite fmap_cons.
  change (set_all ((fun e => (e, f e)) <$> ks) (<[k' := f k']> env) !! k = Some (f k)).
  destruct (decide (k ∈ ks)) as [Hin|Hnin]; [by apply IH|]. apply elem_of_cons in Hk as [->|]; [|done].
  rewrite set_all_None; [by rewrite lookup_insert_eq|]. intros ([? ?] & Hq & (? & [= -> ->] & Hin)%list_elem_of_fmap)%list_elem_of_fmap.
  cbn in Hq. by subst.
Qed.

(** C27: Of the environment of the host, only the variables that the configuration or the
    target pass on, and [HOME], matter to the environment of a build, a test or a run, and for
    what is executed in a shell also [TERM]. [HOME] is not given to the action: it says
    where [~] is in the paths of sources, tools and secrets ([home_reaches_secrets]). What the
    target passes on does have the host's value in the variables that all of these
    start from. *)
Theorem environments_hermetic target dir run inTmpDir :
  (forall k, k ∈ "HOME" :: passed state target -> host !! k = host' !! k) ->
  let build host := BuildEnvironment goos exists_file host unicode order g state target dir in
  let test host := TestEnvironment goos exists_file host unicode order sha256 g state target dir run in
  let run host := RunEnvironment goos exists_file host unicode order g state target inTmpDir in
  let exec host := ExecEnvironment goos exists_file host unicode order g state target dir in
  build host = build host' /\ test host = test host' /\ run host = run host' /\
  (host !! "TERM" = host' !! "TERM" -> exec host = exec host') /\
  forall k, k ∈ default [] (PassEnv target) ->
    TargetEnvironment host unicode order state target !! k = Some (default "" (host !! k)).
Proof.
  intros Hk build test run' exec.
  assert (UserHomeDir host = UserHomeDir host') as Hh by (unfold UserHomeDir, Getenv; rewrite Hk by (by left); done).
  assert (TargetEnvironment host unicode order state target = TargetEnvironment host' unicode order state target) as Ht.
  { apply TargetEnvironment_host. intros k Hin. apply Hk. by right. }
  unfold build, test, run', exec, BuildEnvironment, build_environment, TestEnvironment, RunEnvironment, ExecEnvironment, RuntimeEnvironment,
    source_vars, secret_vars, secret_value, dataEnv, runtimeDataPaths, toolsEnv, toolPaths, toolPath, target_toolPath.
  split_and!; [by rewrite Ht, Hh..| |].
  - intros HT. rewrite Ht, Hh. unfold Getenv. by rewrite HT.
  - intros k Hin. unfold TargetEnvironment. by apply (set_all_fn (Getenv host)).
Qed.
End hosts.

(** ** A concrete target *)

Definition ex_settings : Settings := {|
  Lang := "en_GB.UTF-8"; Arch := "amd64"; OS := "linux"; PkgConfigPath := ""; config_BuildEnv := {[ "my-var" := "1" ]};
  PassUnsafeEnv := []; config_PassEnv := ["USER"]; Location := "/plz"; Path := ["/usr/bin"; "/bin"]; RemoteURL := "";
  BuildConfig := "opt"; SandboxDirs := []; bazel_compatibility := false; DisableCoverage := []; RepoRoot := "/repo";
  TestArgs := []; state_NeedCoverage := false; DebugFailingTests := false |}.

(** [//p:t], with one source and one output. *)
Definition ex_target (env : gmap string string) : BuildTarget :=
  upd_Env (fun _ => env) (upd_Sources (fun _ => [FileLabel "in" "p"]) (upd_outputs (fun _ => ["out"])
    (NewBuildTarget (MkBuildLabel "p" "t" "")))).

Definition in_order (i : nat) (l : list string) : list string := l.

Definition ex_build (host env : gmap string string) : res (gmap string string) :=
  BuildEnvironment "linux" (fun _ => false) host id in_order (build_graph []) ex_settings (ex_target env) "/tmp/b".

Definition ex_host : gmap string string := list_to_map [("USER", "me"); ("PATH", "/evil"); ("HOME", "/home/me")].

Definition shown (r : res (gmap string string)) (keys : list string) : list (option string) :=
  match r with Ok env => (env !!.) <$> keys | _ => [] end.

Example ex_build_shown :
  shown (ex_build ex_host {[ "FLAGS" := "$MY_VAR:${SRC}:$NONE" ]}) ["HOME"; "PATH"; "OUT"; "SRC"; "USER"; "FLAGS"; "XARCH"]
  = Some <$> ["/tmp/b"; "/plz:/usr/bin:/bin"; "/tmp/b/out"; "p/in"; "me"; "1:p/in:$NONE"; "x86_64"].
Proof. vm_compute. reflexivity. Qed.

Lemma BuildEnvironment_spec_witness :
  exists env, ex_build ex_host ∅ = Ok env /\ env !! "HOME" = Some "/tmp/b" /\ env !! "PATH" = Some "/plz:/usr/bin:/bin" /\
    env !! "OUT" = Some "/tmp/b/out" /\ env !! "SRC" = Some "p/in".
Proof.
  assert (match ex_build ex_host ∅ with Ok _ => true | _ => false end = true) as Hok by (vm_compute; reflexivity).
  destruct (ex_build ex_host ∅) as [env| |] eqn:E; [|discriminate Hok..]. exists env.
  destruct (BuildEnvironment_spec "linux" (fun _ => false) ex_host id in_order (build_graph []) ex_settings (ex_target ∅)
    "/tmp/b" env E) as (sources & outs & Hs & Ho & _ & _ & Hhome & Hpath & _ & Hout & Hsrc).
  assert (sources = ["p/in"]) as -> by (vm_compute in Hs; injection Hs as <-; reflexivity).
  assert (outs = ["out"]) as -> by (vm_compute in Ho; injection Ho as <-; reflexivity).
  split; [reflexivity|]. split; [by apply Hhome|]. split; [|split].
  - apply Hpath; [|reflexivity]. apply (bool_decide_eq_true_1 _). vm_compute. reflexivity.
  - rewrite (Hout "out" eq_refl eq_refl). reflexivity.
  - destruct (Hsrc eq_refl) as [_ H]. by rewrite (H "p/in" eq_refl eq_refl).
Defined.

Definition ex_user_env : gmap string string := {[ "FLAGS" := "-I $SRC"; "PATH" := "/x:$PATH" ]}.

Lemma withUserProvidedEnv_simultaneous_witness :
  withUserProvidedEnv in_order 0 (ex_target ex_user_env) {[ "PATH" := "/bin"; "SRC" := "p/in" ]} !! "PATH" = Some "/x:/bin" /\
  withUserProvidedEnv in_order 0 (ex_target ex_user_env) {[ "PATH" := "/bin"; "SRC" := "p/in" ]} !! "FLAGS" = Some "-I p/in".
Proof.
  rewrite (withUserProvidedEnv_simultaneous in_order 0 (ex_target ex_user_env)); [vm_compute; split; reflexivity|done|].
  intros k v k' Hv Hk' [v' Hv']. change (Env (ex_target ex_user_env)) with ex_user_env in *.
  assert (forall k v, ex_user_env !! k = Some v -> (k, v) = ("FLAGS", "-I $SRC") \/ (k, v) = ("PATH", "/x:$PATH")) as Hall.
  { intros k0 v0 H%elem_of_map_to_list.
    assert (map_to_list ex_user_env = [("FLAGS", "-I $SRC"); ("PATH", "/x:$PATH")]) as Hl by (vm_compute; reflexivity).
    rewrite Hl, !elem_of_cons, elem_of_nil in H. tauto. }
  assert (mentions "-I $SRC" = ["SRC"] /\ mentions "/x:$PATH" = ["PATH"]) as [Hm1 Hm2] by (split; vm_compute; reflexivity).
  apply Hall in Hv as [[= -> ->]|[= -> ->]], Hv' as Hv2; apply Hall in Hv' as [[= -> ->]|[= -> ->]]; try done;
    rewrite ?Hm1, ?Hm2, elem_of_cons, elem_of_nil in Hk'; by destruct Hk'.
Defined.

Definition ex_host' : gmap string string := {[ "USER" := "me"; "HOME" := "/home/me" ]}.

Lemma environments_hermetic_witness : ex_build ex_host ∅ = ex_build ex_host' ∅.
Proof.
  destruct (environments_hermetic "linux" (fun _ => false) id in_order id (build_graph []) ex_settings ex_host ex_host'
    (ex_target ∅) "/tmp/b" 1 true) as [H _]; [|exact H].
  assert (passed ex_settings (ex_target ∅) = ["USER"]) as -> by (vm_compute; reflexivity).
  intros k [->|Hk]%elem_of_cons; [vm_compute; reflexivity|]. apply list_elem_of_singleton in Hk as ->. vm_compute. reflexivity.
Defined.

(** Where [~] is shows in the secrets of an action that is not given [HOME]. *)
Lemma home_reaches_secrets :
  let secrets host := shown (BuildEnvironment "linux" (fun _ => false) host id in_order (build_graph []) ex_settings
    (upd_Secrets (fun _ => ["~/key"]) (ex_target ∅)) "/tmp/b") ["HOME"; "SECRETS"] in
  secrets ex_host = [Some "/tmp/b"; Some "/home/me/key"] /\
  secrets {[ "USER" := "me"; "HOME" := "/home/you" ]} = [Some "/tmp/b"; Some "/home/you/key"].
Proof. vm_compute. split; reflexivity. Qed.

(** A variable that mentions another that the target gives depends on which is visited first. *)
Lemma user_variables_race :
  let env order := withUserProvidedEnv order 0 (ex_target {[ "A" := "$B"; "B" := "1" ]}) ∅ !! "A" in
  env in_order = Some "$B" /\ env (fun _ => @rev string) = Some "1".
Proof. vm_compute. split; reflexivity. Qed.

(** A variable that is not known loses its braces, and may run into what follows. *)
Lemma unknown_variable_loses_braces : Expand "${NONE}x" (expand_or_keep ∅) = "$NONEx".
Proof. vm_compute. reflexivity. Qed.
