(* ===== verification/Disk.v ===== *)
(** The file system: a map from paths to files, directories and links, with the
    attributes the program records on them, and the operations of [src/fs/fs.go] on it.

    Nothing is shared between paths: a hard link is a copy. A path of a file has no
    trailing slash; permissions and times are left out. *)
From S2P Require Import Prelude GoStrings Targets Incrementality.
From Stdlib Require Import Ascii.

Inductive node :=
  | NFile (data : string)
  | NDir
  | NLink (dest : string).

#[export] Instance node_eq_dec : EqDecision node.
Proof. solve_decision. Defined.

Record disk := MkDisk {
  nodes : gmap string node;
  (** the attribute with the hash of a rule, and that with the hash of the contents *)
  rule_attrs : gmap string string;
  hash_attrs : gmap string string;
  (** the files that stand in for the first, by their names *)
  stand_ins : gmap string string;
}.

(** ** Trees of paths *)

(** Whether what is left of a path is the path itself, or below it. *)
Definition is_below (rest : string) : bool := String.eqb rest "" || has_prefix rest "/".

Definition under (p q : string) : bool := has_prefix q p && is_below (str_drop (String.length p) q).

Section trees.
Context {A : Type}.
Implicit Types m : gmap string A.

Definition remove_under (p : string) m : gmap string A := filter (fun kv => under p kv.1 = false) m.

(** What is at a path and below it, by what follows the path. *)
Definition subtree (p : string) m : gmap string A :=
  list_to_map (omap (fun kv : string * A =>
    if under p kv.1 then Some (str_drop (String.length p) kv.1, kv.2) else None) (map_to_list m)).

Definition graft (p : string) (t m : gmap string A) : gmap string A := kmap (fun s => p +:+ s) t ∪ remove_under p m.

Definition move (p q : string) m : gmap string A := graft q (subtree p m) (remove_under p m).
End trees.

Definition disk_map (f : forall A, gmap string A -> gmap string A) (d : disk) : disk :=
  MkDisk (f _ (nodes d)) (f _ (rule_attrs d)) (f _ (hash_attrs d)) (f _ (stand_ins d)).

(** ** Operations *)

Definition path_exists (d : disk) (p : string) : bool := bool_decide (is_Some (nodes d !! p)).
Definition file_exists (d : disk) (p : string) : bool :=
  match nodes d !! p with Some NDir | None => false | _ => true end.

(** [RemoveAll] *)
Definition RemoveAll (d : disk) (p : string) : disk := disk_map (fun _ => remove_under p) d.

(** [os.Rename], to where nothing is or a file. *)
Definition Rename (d : disk) (p q : string) : disk := disk_map (fun _ => move p q) d.

(** [RecursiveCopyOrLinkFile]: a copy of a tree over what is there, without its attributes. *)
Definition RecursiveCopy (d : disk) (p q : string) : disk :=
  let t := kmap (fun s => q +:+ s) (subtree p (nodes d)) in
  let keep (m : gmap string string) := filter (fun kv => t !! kv.1 = None) m in
  MkDisk (t ∪ nodes d) (keep (rule_attrs d)) (keep (hash_attrs d)) (stand_ins d).

(** [WriteFile]: a new file takes the place of what was there. *)
Definition WriteFile (d : disk) (p data : string) : disk :=
  MkDisk (<[p := NFile data]> (nodes d)) (delete p (rule_attrs d)) (delete p (hash_attrs d)) (stand_ins d).

(** The directories on the way to a path, and the path. *)
Definition parents (p : string) : list string :=
  omap (fun i => let q := str_take i p in
    if (0 <? i)%nat && is_below (str_drop i p) then Some q else None) (seq 0 (S (String.length p))).

(** [os.MkdirAll]; [None] if one of them is a file. *)
Definition MkdirAll (d : disk) (p : string) : option disk :=
  if existsb (fun q => match nodes d !! q with Some (NFile _) => true | _ => false end) (parents p) then None
  else Some (MkDisk (foldr (fun q m => if m !! q then m else <[q := NDir]> m) (nodes d) (parents p)) (rule_attrs d)
               (hash_attrs d) (stand_ins d)).

(** [filepath.Dir] *)
Definition path_dir (p : string) : string := path_clean (path_split p).1.

(** [EnsureDir] *)
Definition EnsureDir (d : disk) (filename : string) : option disk :=
  let dir := path_dir filename in
  match MkdirAll d dir with
  | Some d => Some d
  | None => if file_exists d dir then MkdirAll (RemoveAll d dir) dir else None
  end.

Definition is_link (n : node) : bool := match n with NLink _ => true | _ => false end.

(** What the hashes of rules are recorded on. *)
Definition files_of (d : disk) : files :=
  MkFiles (dom (nodes d)) (dom (filter (fun kv => kv.2 = NDir) (nodes d)))
    (dom (filter (fun kv => is_link kv.2 = true) (nodes d))) (rule_attrs d) (stand_ins d).

Definition with_files (d : disk) (fs : files) : disk := MkDisk (nodes d) (xattrs fs) (hash_attrs d) (attr_files fs).

(** ** Lookups *)

Lemma under_spec p q : under p q = true <-> exists s, is_below s = true /\ q = p +:+ s.
Proof.
  unfold under. rewrite andb_true_iff. split.
  - intros [(s & ->)%has_prefix_spec Hs]. rewrite str_drop_app in Hs. eauto.
  - intros (s & Hs & ->). rewrite str_drop_app. split; [|done]. apply has_prefix_spec. eauto.
Qed.

Lemma under_app p s : under p (p +:+ s) = is_below s.
Proof.
  unfold under. rewrite str_drop_app. assert (has_prefix (p +:+ s) p = true) as -> by (apply has_prefix_spec; eauto). done.
Qed.

Lemma under_refl p : under p p = true.
Proof. apply under_spec. exists "". by rewrite str_app_nil_r. Qed.

#[global] Instance str_app_inj p : Inj (=) (=) (fun s => p +:+ s).
Proof. intros a b. induction p as [|c p IH]; cbn; [done|]. intros [= H]. by apply IH. Qed.

Section lookups.
Context {A : Type}.
Implicit Types m : gmap string A.

Lemma lookup_remove_under p m k : remove_under p m !! k = if under p k then None else m !! k.
Proof.
  unfold remove_under. destruct (under p k) eqn:E.
  - apply map_lookup_filter_None. right. intros x _. cbn. congruence.
  - destruct (m !! k) as [x|] eqn:Hx; [by apply map_lookup_filter_Some|]. apply map_lookup_filter_None. by left.
Qed.

Lemma lookup_subtree p m s : subtree p m !! s = if is_below s then m !! (p +:+ s) else None.
Proof.
  unfold subtree. apply option_eq. intros x.
  set (l := omap _ (map_to_list m)).
  assert (forall s' x', (s', x') ∈ l <-> is_below s' = true /\ m !! (p +:+ s') = Some x') as Hl.
  { intros s' x'. unfold l. rewrite list_elem_of_omap. split.
    - intros ([k y] & Hin & Heq). apply elem_of_map_to_list in Hin. cbn in Heq.
      destruct (under p k) eqn:E; [|done]. apply under_spec in E as (s2 & Hs2 & ->). rewrite str_drop_app in Heq.
      by injection Heq as -> ->.
    - intros [Hb Hm]. exists (p +:+ s', x'). split; [by apply elem_of_map_to_list|]. cbn. by rewrite under_app, Hb, str_drop_app. }
  assert (NoDup l.*1) as Hnd.
  { unfold l. pose proof (NoDup_fst_map_to_list m) as H. revert H. generalize (map_to_list m) as l0.
    induction l0 as [|[k y] l0 IH]; [constructor|]. cbn. intros [Hk H]%NoDup_cons.
    destruct (under p k) eqn:E; [|by apply IH]. cbn. apply NoDup_cons. split; [|by apply IH].
    apply under_spec in E as (s2 & Hs2 & ->). rewrite str_drop_app.
    intros ([s3 y3] & -> & Hin)%list_elem_of_fmap. apply list_elem_of_omap in Hin as ([k4 y4] & Hin & Heq). cbn in Heq.
    destruct (under p k4) eqn:E4; [|done]. apply under_spec in E4 as (s4 & _ & ->). rewrite str_drop_app in Heq.
    injection Heq as -> ->. cbn in Hk. apply Hk. by apply (list_elem_of_fmap_2 fst) in Hin. }
  rewrite <- elem_of_list_to_map by done. rewrite Hl. destruct (is_below s); [tauto|]. split; [by intros []|done].
Qed.

Lemma lookup_graft p t m k :
  (forall s, is_Some (t !! s) -> is_below s = true) ->
  graft p t m !! k = if under p k then t !! str_drop (String.length p) k else m !! k.
Proof.
  intros Ht. unfold graft. destruct (under p k) eqn:E.
  - apply under_spec in E as (s & Hs & ->). rewrite str_drop_app, lookup_union, lookup_kmap by apply _.
    rewrite lookup_remove_under, under_app, Hs. by destruct (t !! s).
  - rewrite lookup_union, lookup_remove_under, E.
    assert (kmap (fun s => p +:+ s) t !! k = None) as ->; [|by rewrite (left_id None _)].
    apply lookup_kmap_None; [apply _|]. intros s ->. destruct (t !! s) eqn:Hs; [|done].
    rewrite under_app, Ht in E by eauto. done.
Qed.

Lemma subtree_below p m s : is_Some (subtree p m !! s) -> is_below s = true.
Proof. rewrite lookup_subtree. destruct (is_below s); [done|]. by intros []. Qed.

Lemma lookup_move p q m k :
  move p q m !! k =
  if under q k then m !! (p +:+ str_drop (String.length q) k) else if under p k then None else m !! k.
Proof.
  unfold move. rewrite lookup_graft by apply subtree_below. destruct (under q k) eqn:E.
  - apply under_spec in E as (s & Hs & ->). by rewrite str_drop_app, lookup_subtree, Hs.
  - apply lookup_remove_under.
Qed.

Lemma subtree_move p q m : subtree q (move p q m) = subtree p m.
Proof.
  apply map_eq. intros s. rewrite !lookup_subtree. destruct (is_below s) eqn:E; [|done].
  by rewrite lookup_move, under_app, E, str_drop_app.
Qed.
End lookups.
