(* ===== verification/Paths.v ===== *)
(** Paths of good components: what [path.Clean], [path.Join] and [filepath.Dir] make of
    them, and which directories they are below. *)
From S2P Require Import Prelude GoStrings Targets Incrementality Disk.
From Stdlib Require Import Ascii.

(** ** Components *)

(** A component that [path.Clean] leaves alone. *)
Definition good (c : string) : bool :=
  negb (String.eqb c "") && negb (String.eqb c ".") && negb (String.eqb c "..") && negb (contains_byte "/" c).

(** A path that stays below the directory it is joined to. *)
Definition local (p : string) : bool := forallb good (split_byte "/" p).

(** An absolute path that is clean, but not the root. *)
Definition absolute (p : string) : bool :=
  match p with String "/" p => local p | _ => false end.

Lemma good_spec c : good c = true <-> c <> "" /\ c <> "." /\ c <> ".." /\ contains_byte "/" c = false.
Proof.
  unfold good. rewrite !andb_true_iff, !negb_true_iff, !String.eqb_neq. tauto.
Qed.

Lemma good_no_slash l : Forall (fun c => good c = true) l -> Forall (fun c => contains_byte "/" c = false) l.
Proof. intros H. eapply Forall_impl; [exact H|]. intros c Hc. by apply good_spec in Hc as (_ & _ & _ & ?). Qed.

Lemma split_byte_join c l :
  l <> [] -> Forall (fun x => contains_byte c x = false) l -> split_byte c (join (String c "") l) = l.
Proof.
  induction l as [|x [|y l] IH]; intros Hne Hl; [done|by apply Forall_cons in Hl as [Hl _]; apply split_byte_none|].
  apply Forall_cons in Hl as [Hx Hl]. change (join (String c "") (x :: y :: l)) with (x +:+ String c (join (String c "") (y :: l))).
  rewrite split_byte_app by done. by rewrite IH.
Qed.

Lemma split_byte_no_byte c s : Forall (fun x => contains_byte c x = false) (split_byte c s).
Proof.
  induction s as [|a s IH]; cbn; [by constructor|]. destruct (Ascii.eqb a c) eqn:E; [by constructor|].
  destruct (split_byte c s) as [|x xs]; [constructor; [cbn; by rewrite contains_byte_cons, E|done]|].
  apply Forall_cons in IH as [Hx Hxs]. constructor; [by rewrite contains_byte_cons, E|done].
Qed.

(** [p] by its components *)
Lemma local_components p :
  local p = true <-> exists cs, cs <> [] /\ Forall (fun c => good c = true) cs /\ p = join "/" cs.
Proof.
  unfold local. rewrite forallb_forall. split.
  - intros H. exists (split_byte "/" p). split_and!; [apply split_byte_not_nil| |by rewrite join_split].
    apply Forall_forall. intros c Hc. apply H. by apply list_elem_of_In.
  - intros (cs & Hne & Hg & ->). rewrite split_byte_join; [|done|]; [|by apply good_no_slash].
    intros c Hc%list_elem_of_In. by eapply Forall_forall in Hg.
Qed.

Lemma good_local c : good c = true -> local c = true.
Proof. intros H. apply local_components. exists [c]. split_and!; [done|by constructor|done]. Qed.

Lemma join_app sep l l' : l <> [] -> l' <> [] -> join sep (l ++ l') = join sep l +:+ sep +:+ join sep l'.
Proof.
  induction l as [|x [|y l] IH]; intros Hne Hne'; [done|by destruct l'|].
  change (x +:+ sep +:+ join sep ((y :: l) ++ l') = (x +:+ sep +:+ join sep (y :: l)) +:+ sep +:+ join sep l').
  rewrite IH by done. by rewrite !str_app_assoc.
Qed.

Lemma join_not_nil l : l <> [] -> Forall (fun c => good c = true) l -> join "/" l <> "".
Proof.
  destruct l as [|x [|y l]]; intros Hne Hl; [done| |]; apply Forall_cons in Hl as [(Hx & _)%good_spec _]; by destruct x.
Qed.

Lemma join_no_root l : Forall (fun c => good c = true) l -> has_prefix (join "/" l) "/" = false.
Proof.
  destruct l as [|x l]; intros Hl; [done|]. apply Forall_cons in Hl as [(Hx & _ & _ & Hs)%good_spec _].
  destruct x as [|a x]; [done|]. rewrite contains_byte_cons in Hs. apply orb_false_iff in Hs as [Hs _].
  assert (exists s, join "/" (String a x :: l) = String a s) as (s & ->) by (destruct l; by eexists).
  rewrite has_prefix_cons, has_prefix_nil, andb_true_r. rewrite Ascii.eqb_sym in Hs.
  first [exact Hs | by rewrite Ascii.eqb_sym].
Qed.

(** ** Cleaning *)

Lemma clean_stack_good r cs st : Forall (fun c => good c = true) cs -> clean_stack r cs st = rev cs ++ st.
Proof.
  intros H. revert st. induction H as [|c cs (H1 & H2 & H3 & _)%good_spec Hcs IH]; intros st; [done|]. cbn [clean_stack].
  rewrite decide_False by (intros [|]; done). rewrite decide_False by done. rewrite IH. cbn [rev]. by rewrite <- app_assoc.
Qed.

Lemma path_clean_local p : local p = true -> path_clean p = p.
Proof.
  intros (cs & Hne & Hg & ->)%local_components. unfold path_clean. rewrite join_no_root by done.
  rewrite split_byte_join; [|done|]; [|by apply good_no_slash].
  rewrite clean_stack_good, app_nil_r, rev_involutive by done. rewrite decide_False; [done|]. by apply join_not_nil.
Qed.

Lemma path_clean_absolute p : absolute p = true -> path_clean p = p.
Proof.
  destruct p as [|a p]; [done|]. intros H. assert (a = "/"%char /\ local p = true) as [-> Hl] by
    (cbn in H; by repeat (destruct a as [[] [] [] [] [] [] [] []]; try done)).
  apply local_components in Hl as (cs & Hne & Hg & ->). unfold path_clean.
  rewrite has_prefix_cons, has_prefix_nil. cbn [split_byte]. rewrite Ascii.eqb_refl.
  rewrite split_byte_join; [|done|]; [|by apply good_no_slash].
  cbn [clean_stack andb]. rewrite decide_True by auto. by rewrite clean_stack_good, app_nil_r, rev_involutive.
Qed.

(** ** Joining *)

Lemma local_join p q : local p = true -> local q = true -> local (p +:+ "/" +:+ q) = true.
Proof.
  intros (cs & Hc & Hcs & ->)%local_components (ds & Hd & Hds & ->)%local_components. apply local_components.
  exists (cs ++ ds). split_and!; [by destruct cs|by apply Forall_app|by rewrite join_app].
Qed.

Lemma absolute_join p q : absolute p = true -> local q = true -> absolute (p +:+ "/" +:+ q) = true.
Proof.
  destruct p as [|a p]; [done|]. intros H Hq. assert (a = "/"%char /\ local p = true) as [-> Hl] by
    (cbn in H; by repeat (destruct a as [[] [] [] [] [] [] [] []]; try done)). by apply local_join.
Qed.

(** A path that [path.Clean] leaves alone and other than [.] and [/] *)
Definition clean (p : string) : bool := absolute p || local p.

Lemma clean_not_nil p : clean p = true -> p <> "".
Proof. by intros H ->. Qed.

Lemma path_clean_clean p : clean p = true -> path_clean p = p.
Proof. intros [H|H]%orb_true_iff; [by apply path_clean_absolute|by apply path_clean_local]. Qed.

Lemma clean_join p q : clean p = true -> local q = true -> clean (p +:+ "/" +:+ q) = true.
Proof.
  intros [H|H]%orb_true_iff Hq; apply orb_true_iff; [left; by apply absolute_join|right; by apply local_join].
Qed.

Lemma path_join_clean p q : clean p = true -> local q = true -> path_join [p; q] = p +:+ "/" +:+ q.
Proof.
  intros Hp Hq. unfold path_join. rewrite !filter_cons. rewrite decide_True by (by apply clean_not_nil).
  assert (q <> "") as Hne by (by intros ->). rewrite decide_True by done. rewrite filter_nil.
  change (path_clean (p +:+ "/" +:+ q) = p +:+ "/" +:+ q). apply path_clean_clean. by apply clean_join.
Qed.

(** ** Directories *)

Lemma parents_spec q p : q ∈ parents p <-> q <> "" /\ under q p = true.
Proof.
  unfold parents. rewrite list_elem_of_omap. setoid_rewrite elem_of_seq. split.
  - intros (i & Hi & H). destruct (0 <? i)%nat eqn:E; [|done]. destruct (is_below (str_drop i p)) eqn:Hb; [|done].
    injection H as <-. apply Nat.ltb_lt in E. split.
    + intros H. apply (f_equal String.length) in H. rewrite <- (str_take_drop i p) in Hi. rewrite str_length_app, H in Hi.
      cbn in Hi, H. assert (str_take i p = "") as Ht by (by destruct (str_take i p)). destruct i; [lia|]. destruct p as [|a p]; cbn in *; lia || done.
    + apply under_spec. exists (str_drop i p). split; [done|by rewrite str_take_drop].
  - intros [Hne (s & Hs & ->)%under_spec]. exists (String.length q). rewrite str_take_app, str_drop_app, Hs, str_length_app.
    assert (0 < String.length q) by (destruct q; [done|cbn; lia]). split; [lia|]. by rewrite (proj2 (Nat.ltb_lt _ _)).
Qed.

Lemma is_below_slash s : is_below (String "/" s) = true.
Proof. unfold is_below. rewrite has_prefix_cons, has_prefix_nil. done. Qed.

Lemma is_below_cases s : is_below s = true -> s = "" \/ exists s', s = String "/" s'.
Proof.
  unfold is_below. intros [->%String.eqb_eq|(r & ->)%has_prefix_spec]%orb_true_iff; [by left|right]. by exists r.
Qed.

Lemma path_clean_slash p : clean p = true -> path_clean (p +:+ "/") = p.
Proof.
  assert (forall r cs, cs <> [] -> Forall (fun c => good c = true) cs ->
    join "/" (rev (clean_stack r (split_byte "/" (join "/" cs +:+ "/")) [])) = join "/" cs) as Hs.
  { intros r cs Hne Hg. assert (split_byte "/" (join "/" cs +:+ "/") = cs ++ [""]) as ->.
    { rewrite <- (split_byte_join "/" (cs ++ [""])); [|by destruct cs|apply Forall_app; split; [by apply good_no_slash|by constructor]].
      by rewrite join_app. }
    assert (forall st, clean_stack r (cs ++ [""]) st = rev cs ++ st) as ->; [|by rewrite app_nil_r, rev_involutive].
    clear Hne. induction Hg as [|c cs (H1 & H2 & H3 & _)%good_spec Hcs IH]; intros st; cbn [app clean_stack].
    - by rewrite decide_True by auto.
    - rewrite decide_False by (intros [|]; done). rewrite decide_False by done. rewrite IH. cbn [rev]. by rewrite <- app_assoc. }
  intros [H|H]%orb_true_iff.
  - destruct p as [|a p]; [done|]. assert (a = "/"%char /\ local p = true) as [-> Hl] by
      (cbn in H; by repeat (destruct a as [[] [] [] [] [] [] [] []]; try done)).
    apply local_components in Hl as (cs & Hne & Hg & ->). unfold path_clean. cbn [String.append].
    rewrite has_prefix_cons, has_prefix_nil. cbn [split_byte]. rewrite Ascii.eqb_refl. cbn [andb clean_stack].
    rewrite decide_True by auto. by rewrite Hs.
  - apply local_components in H as (cs & Hne & Hg & ->). unfold path_clean. rewrite Hs by done.
    assert (has_prefix (join "/" cs +:+ "/") "/" = false) as ->; [|rewrite decide_False; [done|by apply join_not_nil]].
    pose proof (join_no_root cs Hg) as Hr. pose proof (join_not_nil cs Hne Hg) as Hn. destruct (join "/" cs) as [|a s]; [done|].
    cbn [String.append]. rewrite has_prefix_cons, has_prefix_nil in *. done.
Qed.

Lemma path_dir_join p c : clean p = true -> good c = true -> path_dir (p +:+ "/" +:+ c) = p.
Proof.
  intros Hp (_ & _ & _ & Hc)%good_spec. unfold path_dir, path_split. change (p +:+ "/" +:+ c) with (p +:+ String "/" c).
  rewrite last_index_byte_app by done. cbn [fst].
  assert (str_take (S (String.length p)) (p +:+ String "/" c) = p +:+ "/") as ->.
  { clear. induction p as [|a p IH]; [done|]. cbn in *. by rewrite IH. }
  by apply path_clean_slash.
Qed.

(** The last component *)
Lemma local_last q : local q = true -> good q = true \/ exists p c, q = p +:+ "/" +:+ c /\ local p = true /\ good c = true.
Proof.
  intros (cs & Hne & Hg & ->)%local_components. destruct cs as [|c cs _] using rev_ind; [done|].
  apply Forall_app in Hg as [Hg [Hc _]%Forall_cons]. destruct (decide (cs = [])) as [->|Hcs]; [by left|right].
  exists (join "/" cs), c. rewrite join_app by done. split_and!; [done| |done]. apply local_components. eauto.
Qed.

Lemma clean_last p q : clean p = true -> local q = true ->
  exists p' c, p +:+ "/" +:+ q = p' +:+ "/" +:+ c /\ clean p' = true /\ good c = true /\ under p p' = true.
Proof.
  intros Hp [Hq|(p' & c & -> & Hp' & Hc)]%local_last.
  - exists p, q. by rewrite under_refl.
  - exists (p +:+ "/" +:+ p'), c. split_and!; [by rewrite !str_app_assoc|by apply clean_join|done|].
    rewrite under_app. apply is_below_slash.
Qed.

(** What is above a file is what its directory is below, or the directory. *)
Lemma under_dir p c q : contains_byte "/" c = false -> under q (p +:+ "/" +:+ c) = true <-> q = p +:+ "/" +:+ c \/ under q p = true.
Proof.
  intros Hc. split.
  - intros (s & [->|[s' ->]]%is_below_cases & H)%under_spec; [left; by rewrite str_app_nil_r in H|right].
    revert q H. induction p as [|a p IH]; intros q H; destruct q as [|b q]; cbn in H.
    + done.
    + injection H as <- H. exfalso. assert (contains_byte "/" (q +:+ String "/" s') = true) as Hs.
      { rewrite contains_byte_app, contains_byte_cons, Ascii.eqb_refl. by rewrite orb_true_r. }
      by rewrite <- H, Hc in Hs.
    + injection H as -> _. apply under_spec. exists (String "/" p). split; [apply is_below_slash|done].
    + injection H as <- H. apply IH in H. apply under_spec in H as (r & Hr & ->). apply under_spec. by exists r.
  - intros [->|(s & [->|[s' ->]]%is_below_cases & ->)%under_spec]; [apply under_refl| |]; apply under_spec.
    + exists ("/" +:+ c). split; [apply is_below_slash|by rewrite str_app_nil_r].
    + exists (String "/" s' +:+ "/" +:+ c). split; [apply is_below_slash|by rewrite str_app_assoc].
Qed.

Lemma under_trans p q r : under p q = true -> under q r = true -> under p r = true.
Proof.
  intros (s & Hs & ->)%under_spec (s' & Hs' & ->)%under_spec. apply under_spec. exists (s +:+ s').
  split; [|by rewrite str_app_assoc]. apply is_below_cases in Hs as [->|[s1 ->]]; [done|apply is_below_slash].
Qed.

(** Of two paths above a third, one is above the other. *)
Lemma under_comparable p q k : under p k = true -> under q k = true -> under p q = true \/ under q p = true.
Proof.
  intros (s & Hs & ->)%under_spec (s' & Hs' & He)%under_spec. revert q He. induction p as [|a p IH]; intros q He; cbn in He.
  - subst s. left. apply under_spec. exists q. split; [|done]. destruct q as [|b q]; [done|].
    apply is_below_cases in Hs as [[=]|[s1 [= -> _]]]. apply is_below_slash.
  - destruct q as [|b q]; cbn in He.
    + right. apply under_spec. exists (String a p). split; [|done]. subst s'. apply is_below_cases in Hs' as [[=]|[s1 [= -> _]]].
      apply is_below_slash.
    + injection He as -> He. destruct (IH _ He) as [(r & Hr & Hq)%under_spec|(r & Hr & Hq)%under_spec]; [left|right];
        apply under_spec; exists r; (split; [done|]); cbn; by rewrite Hq.
Qed.

Lemma under_antisym p q : under p q = true -> under q p = true -> p = q.
Proof.
  intros (s & _ & ->)%under_spec (s' & _ & H)%under_spec. apply (f_equal String.length) in H. rewrite !str_length_app in H.
  destruct s; [by rewrite str_app_nil_r|cbn in H; lia].
Qed.

(** Two paths of which neither is above the other have nothing below them in common. *)
Definition apart (p q : string) : Prop := under p q = false /\ under q p = false.

Lemma apart_sym p q : apart p q -> apart q p.
Proof. by intros []. Qed.

Lemma apart_below p q k : apart p q -> under p k = true -> under q k = false.
Proof. intros [H1 H2] Hp. destruct (under q k) eqn:Hq; [|done]. destruct (under_comparable p q k Hp Hq); congruence. Qed.

Lemma apart_under p q p' : apart p q -> under p p' = true -> apart p' q.
Proof.
  intros [H1 H2] Hp. split; apply not_true_iff_false; intros Hq.
  - apply not_true_iff_false in H1. apply H1. by eapply under_trans.
  - destruct (under_comparable p q p' Hp Hq); congruence.
Qed.
