(* ===== verification/PathHasher.v ===== *)
(** Hashes of paths: the hasher of [src/fs/hash.go], with what it remembers in memory and
    on files.

    The hash function is a parameter, and so is the order in which a directory is walked;
    what a link out of the repository leads to, and the time a file was changed, are
    texts. Only one call is at work at a time: the map of pending hashes, by which calls
    for the same path wait for each other, is left out. *)
From S2P Require Import Prelude GoStrings GoText Targets Incrementality Disk.
From Stdlib Require Import Ascii.

Section hasher.
Context (new_hash : string -> string) (walk : list string -> list string).
(** What a link to outside of the repository reads as, if it can be read. *)
Context (link_contents : string -> option string) (mod_time : string -> string).
Context (root : string) (useXattrs : bool).

(** The memo: [None] marks a file whose attributes are not to be read. *)
Abbreviation memo := (gmap string (option string)).

Definition ensureRelative (path : string) : string :=
  if has_prefix path root then TrimLeft (TrimPrefix path root) "/" else path.

Definition IsAbs (path : string) : bool := has_prefix path "/".

Definition in_outputs (path : string) : bool := has_prefix path "plz-out/".

(** What a directory contributes: the data of the files below it, and a mark for each link. *)
Definition tree_contents (t : gmap string node) : string :=
  join "" ((fun s => match t !! s with
                     | Some (NFile data) => data
                     | Some (NLink _) => hashBool true
                     | _ => ""
                     end) <$> walk (sorted_keys t)).

(** The contents that are hashed; [None] is an error. *)
Definition contents (d : disk) (path : string) (timestamp : bool) : option string :=
  match nodes d !! path with
  | None => None
  | Some (NLink dest) =>
      let rel := ensureRelative dest in
      if (negb (String.eqb rel dest) || negb (IsAbs dest)) && negb (IsAbs path) then Some (hashBool true +:+ rel)
      else option_map (fun data => hashBool true +:+ data) (link_contents path)
  | Some NDir => Some (tree_contents (subtree path (nodes d)))
  | Some (NFile data) => Some (if timestamp then mod_time path else data)
  end.

Definition is_link_at (d : disk) (path : string) : bool :=
  match nodes d !! path with Some (NLink _) => true | _ => false end.

(** [storeHash] *)
Definition storeHash (d : disk) (path hash : string) : disk :=
  if in_outputs path && path_exists d path
  then MkDisk (nodes d) (rule_attrs d) (<[path := hash]> (hash_attrs d)) (stand_ins d)
  else d.

(** [hash]: the hash, unless there is an error. *)
Definition hash_path (d : disk) (path : string) (store read timestamp : bool) : disk * option string :=
  match (if read && in_outputs path && useXattrs then hash_attrs d !! path else None) with
  | Some b => (d, Some b)
  | None =>
      match contents d path timestamp with
      | None => (d, None)
      | Some c =>
          let hash := new_hash c in
          (if store && useXattrs && negb (is_link_at d path) then storeHash d path hash else d, Some hash)
      end
  end.

(** [Hash]: the memo, the disk, and the hash or an error. *)
Definition hasher_Hash (h : memo) (d : disk) (path : string) (recalc store timestamp : bool) :
    memo * disk * option string :=
  let path := ensureRelative path in
  match (if recalc then None else h !! path) with
  | Some (Some cached) => (h, d, Some cached)
  | marked =>
      let '(store, recalc) := match marked with Some None => (false, true) | _ => (store, recalc) end in
      if negb (path_exists d path) then (h, d, None)
      else
        let '(d, result) := hash_path d path store (negb recalc) timestamp in
        (match result with Some hash => <[path := Some hash]> h | None => h end, d, result)
  end.

(** [moveOrCopyHash] *)
Definition moveOrCopyHash (h : memo) (oldPath newPath : string) (copy : bool) : memo :=
  let oldPath := ensureRelative oldPath in
  let newPath := ensureRelative newPath in
  match h !! oldPath with
  | Some oldHash =>
      let h := <[newPath := oldHash]> h in
      if negb copy && has_prefix oldPath "plz-out/tmp" then delete oldPath h else h
  | None => if copy then <[newPath := None]> h else h
  end.

Definition CopyHash (h : memo) (oldPath newPath : string) : memo := moveOrCopyHash h oldPath newPath true.
Definition MoveHash (h : memo) (oldPath newPath : string) : memo := moveOrCopyHash h oldPath newPath false.

(** [SetHash] *)
Definition SetHash (h : memo) (d : disk) (path hash : string) : memo * disk := (<[path := Some hash]> h, storeHash d path hash).

(** ** What it promises *)

(** The hash of what is at a path now. *)
Definition hash_of (d : disk) (path : string) : option string :=
  option_map new_hash (contents d (ensureRelative path) false).

(** What is remembered, in memory and on files, is true. An attribute is only read where
    nothing is in memory. *)
Record valid (h : memo) (d : disk) : Prop := {
  valid_memo : forall p c, h !! p = Some (Some c) -> option_map new_hash (contents d p false) = Some c;
  valid_attr : forall p c, h !! p = None -> in_outputs p = true -> hash_attrs d !! p = Some c ->
    option_map new_hash (contents d p false) = Some c }.

Lemma contents_ext d d' p timestamp :
  (forall k, under p k = true -> nodes d' !! k = nodes d !! k) -> contents d' p timestamp = contents d p timestamp.
Proof.
  intros H. unfold contents. rewrite (H p) by apply under_refl.
  assert (subtree p (nodes d') = subtree p (nodes d)) as ->; [|done].
  apply map_eq. intros s. rewrite !lookup_subtree. destruct (is_below s) eqn:E; [|done]. apply H. by rewrite under_app.
Qed.

Lemma contents_nodes d d' p timestamp : nodes d' = nodes d -> contents d' p timestamp = contents d p timestamp.
Proof. intros H. apply contents_ext. by rewrite H. Qed.

Lemma contents_exists d p timestamp : path_exists d p = false -> contents d p timestamp = None.
Proof. unfold path_exists, contents. intros H%bool_decide_eq_false. by destruct (nodes d !! p); [destruct H|]. Qed.

Lemma hash_path_spec h d path store read d' r :
  valid h d -> (read = true -> h !! path = None) -> hash_path d path store read false = (d', r) ->
  r = option_map new_hash (contents d path false) /\ nodes d' = nodes d /\ rule_attrs d' = rule_attrs d /\
  stand_ins d' = stand_ins d /\ (hash_attrs d' = hash_attrs d \/ exists c, r = Some c /\ hash_attrs d' = <[path := c]> (hash_attrs d)).
Proof.
  intros [_ Hattr] Hread. unfold hash_path. destruct (if read && in_outputs path && useXattrs then hash_attrs d !! path else None) as [b|] eqn:E.
  - intros [= <- <-]. destruct (read && in_outputs path && useXattrs) eqn:Hr; [|done].
    rewrite !andb_true_iff in Hr. destruct Hr as [[Hr Ho] _]. rewrite (Hattr path b) by auto. auto 6.
  - destruct (contents d path false) as [c|]; [|by intros [= <- <-]; auto 6]. intros [= <- <-]. cbn.
    destruct (store && useXattrs && _); [|auto 6]. unfold storeHash. destruct (in_outputs path && _); [|auto 6].
    split_and!; try done. right. eauto.
Qed.

(** C11: Asked for the hash of contents - not of the time of the last modification, which
    the same memory is used for - the hasher gives the hash of what is at a path now,
    however it comes by it: from memory, from an attribute or by reading files, if what it
    remembered before was the hash of contents; and then so is what it remembers afterwards.
    It changes no file. *)
Theorem hasher_Hash_spec h d path recalc store h' d' r :
  valid h d -> hasher_Hash h d path recalc store false = (h', d', r) ->
  r = hash_of d path /\ valid h' d' /\ nodes d' = nodes d /\ rule_attrs d' = rule_attrs d /\ stand_ins d' = stand_ins d.
Proof.
  intros Hv. unfold hasher_Hash, hash_of. set (p := ensureRelative path).
  assert (forall store read : bool, (read = true -> h !! p = None) ->
    (if negb (path_exists d p) then (h, d, None)
     else let '(d, result) := hash_path d p store read false in
       (match result with Some hash => <[p := Some hash]> h | None => h end, d, result)) = (h', d', r) ->
    r = option_map new_hash (contents d p false) /\ valid h' d' /\ nodes d' = nodes d /\ rule_attrs d' = rule_attrs d /\
    stand_ins d' = stand_ins d) as Hmain.
  { intros store' read Hread. destruct (path_exists d p) eqn:He; cbn [negb]; [|by intros [= <- <- <-]; rewrite contents_exists].
    destruct (hash_path d p store' read false) as [d1 r1] eqn:Hp. intros [= <- <- <-].
    destruct (hash_path_spec h d p store' read d1 r1 Hv Hread Hp) as (Hr & Hn & Hra & Hs & Ha). split_and!; try done.
    destruct Hv as [Hmemo Hattr]. split.
    - intros k c Hk. rewrite (contents_nodes d d1) by done. destruct r1 as [c1|]; [|by apply Hmemo].
      destruct (decide (k = p)) as [->|Hne]; [|rewrite lookup_insert_ne in Hk by done; by apply Hmemo].
      rewrite lookup_insert_eq in Hk. congruence.
    - intros k c Hk Ho Hc. rewrite (contents_nodes d d1) by done.
      destruct (decide (k = p)) as [->|Hne].
      + destruct r1; [by rewrite lookup_insert_eq in Hk|]. destruct Ha as [Ha|(? & ? & _)]; [|done].
        rewrite Ha in Hc. by apply Hattr.
      + assert (h !! k = None) by (destruct r1; [by rewrite lookup_insert_ne in Hk|done]).
        apply Hattr; [done..|]. destruct Ha as [Ha|(? & _ & Ha)]; rewrite Ha in Hc; [done|].
        by rewrite lookup_insert_ne in Hc. }
  destruct recalc; [apply Hmain; done|]. destruct (h !! p) as [[c|]|] eqn:E; [|by apply Hmain|by apply Hmain].
  intros [= <- <- <-]. rewrite (valid_memo h d Hv p c E). done.
Qed.

(** ** Moving files *)

(** Whether what is at one path is part of what is at the other. *)
Definition touches (p k : string) : Prop := under p k = true \/ under k p = true.

Lemma Rename_nodes d p q k :
  nodes (Rename d p q) !! k =
  if under q k then nodes d !! (p +:+ str_drop (String.length q) k) else if under p k then None else nodes d !! k.
Proof. apply lookup_move. Qed.

Lemma Rename_attrs d p q k :
  hash_attrs (Rename d p q) !! k =
  if under q k then hash_attrs d !! (p +:+ str_drop (String.length q) k)
  else if under p k then None else hash_attrs d !! k.
Proof. apply lookup_move. Qed.

Lemma contents_moved d p q timestamp :
  link_contents p = link_contents q -> IsAbs p = IsAbs q -> timestamp = false ->
  contents (Rename d p q) q timestamp = contents d p timestamp.
Proof.
  intros Hl Ha ->. unfold contents. rewrite Rename_nodes, under_refl.
  assert (str_drop (String.length q) q = "") as -> by (rewrite <- (str_app_nil_r q) at 2; by rewrite str_drop_app).
  rewrite str_app_nil_r, Hl, Ha. replace (subtree q (nodes (Rename d p q))) with (subtree p (nodes d)); [done|].
  symmetry. apply subtree_move.
Qed.

Lemma is_below_cons a x y : is_below (String a x) = true -> is_below (String a y) = true.
Proof.
  unfold is_below. cbn. intros [r Hr]%has_prefix_spec. cbn in Hr. injection Hr as -> _. apply has_prefix_spec. by exists y.
Qed.

Lemma under_both p q k : under p k = true -> under q k = true -> touches p q.
Proof.
  unfold touches. intros (s & Hs & ->)%under_spec (s' & Hs' & Heq)%under_spec. revert q Heq.
  induction p as [|a p IH]; intros q Heq.
  - cbn in Heq. subst s. left. apply under_spec. exists q. split; [|done].
    destruct q as [|c q]; [done|]. by eapply is_below_cons.
  - destruct q as [|b q].
    + right. apply under_spec. exists (String a p). split; [|done]. cbn in Heq. subst s'. by eapply is_below_cons.
    + cbn in Heq. injection Heq as <- Heq. destruct (IH q Heq) as [(s2 & Hs2 & ->)%under_spec|(s2 & Hs2 & ->)%under_spec].
      * left. apply under_spec. by exists s2.
      * right. apply under_spec. by exists s2.
Qed.

(** A file that has been hashed and is moved out of the temporary directory: what is
    remembered stays true, as long as nothing is remembered of what is below it, of
    what was below its new place, or of the directories above the two. *)
Lemma MoveHash_valid h d p q c :
  valid h d -> h !! p = Some (Some c) -> ensureRelative p = p -> ensureRelative q = q -> has_prefix p "plz-out/tmp" = true ->
  link_contents p = link_contents q -> IsAbs p = IsAbs q -> p <> q -> ~ touches p q ->
  (forall k, k <> p -> k <> q -> touches p k \/ touches q k -> h !! k = None /\ hash_attrs d !! k = None) ->
  valid (MoveHash h p q) (Rename d p q).
Proof.
  intros [Hmemo Hattr] Hc Hp Hq Htmp Hl Ha Hne Hnt Hclear. unfold MoveHash, moveOrCopyHash. rewrite Hp, Hq, Hc, Htmp. cbn.
  assert (forall k, k <> p -> k <> q -> is_Some (h !! k) \/ is_Some (hash_attrs d !! k) -> ~ (touches p k \/ touches q k)) as Hfree.
  { intros k H1 H2 H3 Ht. destruct (Hclear k H1 H2 Ht) as [E1 E2]. rewrite E1, E2 in H3. destruct H3 as [[]|[]]; done. }
  assert (forall k, ~ (touches p k \/ touches q k) -> contents (Rename d p q) k false = contents d k false) as Hsame.
  { intros k Hk. apply contents_ext. intros j Hj. rewrite Rename_nodes.
    destruct (under q j) eqn:E1; [destruct Hk; right; by eapply (under_both _ _ j)|].
    destruct (under p j) eqn:E2; [|done]. destruct Hk. left. by eapply (under_both _ _ j). }
  split.
  - intros k c' Hk. destruct (decide (k = p)) as [->|Hkp]; [by rewrite lookup_delete_eq in Hk|].
    rewrite lookup_delete_ne in Hk by done. destruct (decide (k = q)) as [->|Hkq].
    + rewrite lookup_insert_eq in Hk. injection Hk as <-. rewrite contents_moved by done. by apply Hmemo.
    + rewrite lookup_insert_ne in Hk by done. rewrite Hsame by eauto. by apply Hmemo.
  - intros k c' Hk Ho Hkc. destruct (decide (k = p)) as [->|Hkp].
    { rewrite Rename_attrs, under_refl in Hkc. destruct (under q p) eqn:E; [|done]. destruct Hnt. by right. }
    rewrite lookup_delete_ne in Hk by done. destruct (decide (k = q)) as [->|Hkq]; [by rewrite lookup_insert_eq in Hk|].
    rewrite lookup_insert_ne in Hk by done. rewrite Rename_attrs in Hkc. destruct (under q k) eqn:E1.
    { exfalso. apply under_spec in E1 as (s & Hs & ->). rewrite str_drop_app in Hkc.
      assert (s <> "") as Hs0 by (intros ->; by rewrite str_app_nil_r in Hkq).
      assert (p +:+ s <> p) as H1 by (intros H; apply Hs0, (str_app_inj p); by rewrite H, str_app_nil_r).
      assert (under p (p +:+ s) = true) as H3 by (by rewrite under_app).
      destruct (decide (p +:+ s = q)) as [Hps|H2]; [destruct Hnt; left; by rewrite <- Hps|].
      destruct (Hclear (p +:+ s)) as [_ H]; [done|done|left; by left|congruence]. }
    destruct (under p k) eqn:E2; [done|]. rewrite Hsame by eauto. by apply Hattr.
Qed.
End hasher.

(** ** A concrete disk *)

Definition ex_disk : disk :=
  MkDisk (list_to_map [("a", NFile "x"); ("plz-out/gen/o", NFile "y"); ("d", NDir); ("d/e", NLink "../a")]) ∅
    {[ "plz-out/gen/o" := "h(y)" ]} ∅.

Definition ex_hash (s : string) : string := "h(" +:+ s +:+ ")".

Definition ex_Hash (h : gmap string (option string)) (path : string) : option string :=
  (hasher_Hash ex_hash id (fun _ => None) (fun _ => "") "/repo" true h ex_disk path false true false).2.

Example ex_Hash_shown :
  [ex_Hash ∅ "/repo/a"; ex_Hash ∅ "plz-out/gen/o"; ex_Hash ∅ "d"; ex_Hash ∅ "d/e"; ex_Hash ∅ "none"]
  = [Some "h(x)"; Some "h(y)"; Some ("h(" +:+ hashBool true +:+ ")"); Some ("h(" +:+ hashBool true +:+ "../a)"); None].
Proof. vm_compute. reflexivity. Qed.

Lemma hasher_Hash_spec_witness :
  (hasher_Hash ex_hash id (fun _ => None) (fun _ => "") "/repo" true {[ "a" := Some "h(x)" ]} ex_disk "/repo/a" false true false).2
  = Some "h(x)".
Proof.
  destruct (hasher_Hash ex_hash id (fun _ => None) (fun _ => "") "/repo" true {[ "a" := Some "h(x)" ]} ex_disk "/repo/a"
    false true false) as [[h' d'] r] eqn:E.
  destruct (hasher_Hash_spec ex_hash id (fun _ => None) (fun _ => "") "/repo" true {[ "a" := Some "h(x)" ]} ex_disk "/repo/a"
    false true h' d' r) as (Hr & _); [|exact E|rewrite Hr; vm_compute; reflexivity].
  split.
  - intros p c [<- [= <-]]%lookup_singleton_Some. vm_compute. reflexivity.
  - intros p c _ _ Hc. unfold ex_disk, hash_attrs in Hc. apply lookup_singleton_Some in Hc as [<- <-]. vm_compute. reflexivity.
Defined.

(** A path outside of the repository whose name starts as that of the repository does is
    taken to be inside of it. *)
Lemma ensureRelative_no_boundary : ensureRelative "/repo" "/repository/tool" = "sitory/tool".
Proof. vm_compute. reflexivity. Qed.
