(* ===== verification/BuildStep.v ===== *)
(** Carrying out the build of a target: [src/build/build_step.go] and
    [src/build/filegroup.go], over the disk of [Disk].

    An error is [EPanic] with its text, which is what a recovered panic is too, and is
    compared by it. What the hasher
    remembers is left out: by [PathHasher.hasher_Hash_spec] it does not matter to the
    hashes it gives. Remote execution, locks, permissions, links to generated sources and
    reporting are left out as well. What a command does to the disk, what is fetched, the
    callbacks and the encoding of metadata are parameters. *)
From S2P Require Import Prelude GoStrings Labels Targets Graph Inputs Lexer GoText.
From S2P Require Import Commands Environment Incrementality Disk PathHasher.
From Stdlib Require Import Ascii.

(** ** State *)

(** [core.BuildMetadata] *)
Record BuildMetadata := MkMetadata {
  Stdout : string;
  md_OptionalOutputs : list string;
  OutputDirOuts : list string;
}.

(** [core.Cache]: what is stored under a target and a key. Retrieving says whether
    everything was there, and may have changed the disk if it was not. *)
Class Cache (C : Type) := {
  Store : C -> disk -> BuildTarget -> string -> list string -> C;
  Retrieve : C -> disk -> BuildTarget -> string -> list string -> C * disk * bool;
  Clean : C -> BuildTarget -> C;
}.

(** What a build uses of the configuration and of the world. *)
Record Conf := MkConf {
  c_state : build_state;
  c_settings : Settings;
  c_cwd : string;
  c_goos : string;
  c_unicode : string -> string;
  c_order : nat -> list string -> list string;
  c_stampEnv : gmap string string;
  new_hash : string -> string;
  walk : list string -> list string;
  link_contents : string -> option string;
  mod_time : string -> string;
  (** [OutputHashCheckers]: the name, the hash and its size in bytes *)
  checkers : list (string * (string -> string) * nat);
  experimental : list BuildLabel;
  BuildFileName : list string;
  Reject : list string;
  Accept : list string;
  equal_fold : string -> string -> bool;
  VerifyHashes : bool;
  (** [NeedHashesOnly] and [PrepareOnly], for targets asked for *)
  hashes_only : BuildTarget -> bool;
  prepare_only : BuildTarget -> bool;
  CleanWorkdirs : bool;
  has_cache : bool;
  HTTPURL : string;
  RunPreBuildFunction : BuildTarget -> res BuildTarget;
  RunPostBuildFunction : string -> BuildTarget -> res BuildTarget;
  (** a command, with the environment it is given: the disk, and the output or an error *)
  exec : BuildTarget -> list string -> string -> disk -> disk * (string + string);
  (** a URL: the disk, and whether there was an error *)
  fetchOneRemoteFile : BuildTarget -> string -> disk -> disk * option string;
  Glob : disk -> string -> list string -> list string;
  StampFile : BuildTarget -> string;
  SourceListFiles : BuildTarget -> list (string * string);
  encode : BuildMetadata -> string;
  decode : string -> option BuildMetadata;
}.

Section build.
Context {C : Type} `{!Cache C}.
Context (sha1 : string -> string) (spare : string -> string).
Context (p : Conf).

Record world := MkWorld {
  w_disk : disk;
  w_cache : C;
  w_target : BuildTarget;
  (** what [targetHasher] remembers of the target *)
  w_hash : option string;
  (** [filegroupBuilder.built] *)
  w_built : gmap string bool;
}.

Definition M (A : Type) : Type := world -> world * res A.

#[global] Instance M_ret : MRet M := fun _ a w => (w, Ok a).
#[global] Instance M_bind : MBind M := fun _ _ k m w =>
  let '(w, r) := m w in
  match r with Ok a => k a w | Err e => (w, Err e) | NoFuel => (w, NoFuel) end.

Definition of_res {A} (r : res A) : M A := fun w => (w, r).
Definition error {A} (msg : string) : M A := of_res (Err (EPanic msg)).
Definition the_target : M BuildTarget := fun w => (w, Ok (w_target w)).
Definition the_disk : M disk := fun w => (w, Ok (w_disk w)).
Definition set_disk (d : disk) : M unit := fun w => (MkWorld d (w_cache w) (w_target w) (w_hash w) (w_built w), Ok ()).
Definition set_target (t : BuildTarget) : M unit := fun w => (MkWorld (w_disk w) (w_cache w) t (w_hash w) (w_built w), Ok ()).
Definition set_cache (c : C) : M unit := fun w => (MkWorld (w_disk w) c (w_target w) (w_hash w) (w_built w), Ok ()).
Definition set_hash (h : option string) : M unit := fun w => (MkWorld (w_disk w) (w_cache w) (w_target w) h (w_built w), Ok ()).
Definition set_built (m : gmap string bool) : M unit := fun w => (MkWorld (w_disk w) (w_cache w) (w_target w) (w_hash w) m, Ok ()).

(** An operation on the disk that may fail. *)
Definition on_disk (f : disk -> option disk) (msg : string) : M unit :=
  d ← the_disk;
  match f d with Some d => set_disk d | None => error msg end.

Fixpoint each {A} (f : A -> M unit) (l : list A) : M unit :=
  match l with [] => mret () | x :: l => _ ← f x; each f l end.

(** What is left of an error that is dealt with; exiting is not. *)
Definition try {A} (m : M A) : M (string + A) := fun w =>
  let '(w, r) := m w in (w, catch r).

Definition SetTargetState (s : BuildTargetState) : M unit := t ← the_target; set_target (SetState s t).

Definition graph : BuildGraph := st_graph (c_state p).
Definition c_host : gmap string string := st_host (c_state p).
Definition root : string := RepoRoot (c_settings p).
Definition host_home : string := UserHomeDir c_host.

Definition hash_at (d : disk) (path : string) : option string := hash_of (new_hash p) (walk p) (link_contents p) (mod_time p) root d path.

(** The state that the decisions about building are made in. *)
Definition state_now (d : disk) : build_state :=
  let s := c_state p in
  MkState (st_graph s) (Hashes_Config s) (Incrementality.BuildConfig s) (FallbackConfig s) (XattrsSupported s) (ForceRebuild s)
    (st_host s) (path_exists d)
    (fun path => match hash_at d path with Some h => inl h | None => inr false end)
    (fun path => path_exists d (ensureRelative root path)).

Definition TargetOutputs : M (list string) := t ← the_target; of_res (Outputs host_home graph t).
Definition TargetFullOutputs : M (list string) := t ← the_target; of_res (FullOutputs host_home graph t).

(** ** Checks before a build *)

Definition IsPackage (d : disk) (name : string) : bool :=
  existsb (fun f => file_exists d (path_join [name; f])) (BuildFileName p).

(** [FindOwningPackage], the name *)
Fixpoint owning_package (fuel : nat) (d : disk) (f : string) : string :=
  match fuel with
  | O => ""
  | S fuel => if String.eqb f "." then "" else if IsPackage d f then f else owning_package fuel d (path_dir f)
  end.

Definition FindOwningPackage (d : disk) (file : string) : string :=
  owning_package (S (String.length file)) d (path_dir file).

(** The first that is in the list before. *)
Fixpoint first_duplicate (seen : gset string) (l : list string) : option string :=
  match l with
  | [] => None
  | x :: l => if bool_decide (x ∈ seen) then Some x else first_duplicate ({[ x ]} ∪ seen) l
  end.

(** [CheckDuplicateOutputs] *)
Definition CheckDuplicateOutputs : M unit :=
  t ← the_target;
  outs ← TargetOutputs;
  match first_duplicate ∅ outs with
  | Some output => error ("Target " +:+ target_String t +:+ " declares output file " +:+ output +:+ " multiple times")
  | None => mret ()
  end.

Definition checkTargetOwnsFileAndSubDirectories (file : string) : M unit :=
  t ← the_target;
  d ← the_disk;
  let pkg := FindOwningPackage d file in
  if negb (String.eqb (PackageName (Label t)) pkg) then
    error ("package " +:+ PackageName (Label t) +:+ " is trying to use file " +:+ file +:+ ", but that belongs to another package ("
      +:+ pkg +:+ ")")
  else if bool_decide (nodes d !! file = Some NDir) then
    match find (fun s => bool_decide (subtree file (nodes d) !! s = Some NDir) && IsPackage d (file +:+ s))
            (walk p (sorted_keys (subtree file (nodes d)))) with
    | Some s => error ("cannot include " +:+ file +:+ " as it contains subpackage " +:+ (file +:+ s))
    | None => mret ()
    end
  else mret ().

Definition checkTargetOwnsBuildInput (input : BuildInput) : M unit :=
  match input with
  | FileLabel f pkg => checkTargetOwnsFileAndSubDirectories (path_join [pkg; f])
  | _ => mret ()
  end.

(** [CheckTargetOwnsBuildInputs] *)
Definition CheckTargetOwnsBuildInputs : M unit :=
  t ← the_target;
  _ ← each checkTargetOwnsBuildInput (AllSources t);
  each checkTargetOwnsBuildInput (AllData t).

(** [CheckTargetOwnsBuildOutputs] *)
Definition CheckTargetOwnsBuildOutputs : M unit :=
  t ← the_target;
  if target_Subrepo t then mret ()
  else
    outs ← TargetOutputs;
    each (fun output =>
      d ← the_disk;
      let out := path_join [PackageName (Label t); output] in
      if IsPackage d out then error ("trying to output file " +:+ out +:+ ", but that directory is another package")
      else if String.eqb (path_dir output) "." then mret ()
      else if String.eqb (PackageName (Label t)) (FindOwningPackage d out) then mret ()
      else error ("trying to output file " +:+ out +:+ ", but that directory belongs to another package ("
             +:+ FindOwningPackage d out +:+ ")")) outs.

Definition graph_targets : gmap BuildLabel BuildTarget := list_to_map (omap (fun l => (l,.) <$> Target graph l) (graph_AllTargets graph)).

(** [validateBuildTargetBeforeBuild] *)
Definition validateBuildTargetBeforeBuild : M unit :=
  t ← the_target;
  _ ← (match CheckDependencyVisibility (experimental p) graph_targets t with
       | Some _ => error "not visible"
       | None => mret ()
       end);
  _ ← CheckDuplicateOutputs;
  _ ← CheckTargetOwnsBuildInputs;
  CheckTargetOwnsBuildOutputs.

(** ** Directories *)

(** [checkForStaleOutput]: the disk without a file that is in the way of a directory. *)
Fixpoint stale_output (fuel : nat) (d : disk) (dir : string) : option disk :=
  match fuel with
  | O => None
  | S fuel =>
      if String.eqb dir "." || String.eqb dir "/" || String.eqb (path_base dir) "plz-out" then None
      else if file_exists d dir then Some (RemoveAll d dir)
      else stale_output fuel d (path_dir dir)
  end.

Definition checkForStaleOutput (d : disk) (filename : string) : option disk :=
  stale_output (S (String.length filename)) d filename.

Definition prepare_directory (directory : string) (remove : bool) (d : disk) : option disk :=
  let d := if remove then RemoveAll d directory else d in
  match MkdirAll d directory with
  | Some d => Some d
  | None => d ← checkForStaleOutput d directory; MkdirAll d directory
  end.

(** [prepareDirectory] *)
Definition prepareDirectory (directory : string) (remove : bool) : M unit :=
  on_disk (prepare_directory directory remove) ("mkdir " +:+ directory +:+ ": not a directory").

Definition mkdir_all (dir : string) : M unit := on_disk (fun d => MkdirAll d dir) ("mkdir " +:+ dir +:+ ": not a directory").

(** [prepareParentDirs] *)
Definition prepareParentDirs (out : string) : M unit :=
  t ← the_target;
  let dir := path_dir out in
  if String.eqb dir "." then mret ()
  else
    d ← the_disk;
    let outPath := path_join [target_TmpDir t; dir] in
    if path_exists d outPath then mret () else mkdir_all outPath.

(** [OutputDirectory.Dir] is [output_dir] *)
Definition prepareOutputDirectories : M unit :=
  t ← the_target;
  _ ← each (fun dir => prepareParentDirs (OutputDirectory_Dir dir)) (OutputDirectories t);
  outs ← TargetOutputs;
  each prepareParentDirs outs.

(** [prepareDirectories] *)
Definition prepareDirectories : M unit :=
  t ← the_target;
  _ ← prepareDirectory (target_TmpDir t) true;
  _ ← prepareOutputDirectories;
  prepareDirectory (target_OutDir t) false.

(** [PrepareSource] *)
Definition PrepareSource (sourcePath tmpPath : string) : M unit :=
  let sourcePath := ensureRelative root (if has_prefix sourcePath "/" then sourcePath else path_join [root; sourcePath]) in
  d ← the_disk;
  let dir := path_dir tmpPath in
  _ ← (if path_exists d dir then mret () else mkdir_all dir);
  d ← the_disk;
  if path_exists d sourcePath then set_disk (RecursiveCopy d sourcePath tmpPath)
  else error ("Source file " +:+ sourcePath +:+ " does not exist").

(** [fs.WriteFile] *)
Definition write_file (path data : string) : M unit :=
  _ ← mkdir_all (path_dir path);
  d ← the_disk;
  set_disk (Disk.WriteFile d path data).

Definition prepareSources : M unit :=
  t ← the_target;
  srcs ← (fun w => of_res (IterSources host_home (path_exists (w_disk w)) graph t false) w);
  _ ← each (fun '(src, tmp) => PrepareSource src tmp) srcs;
  _ ← (if Stamp t then write_file (path_join [target_TmpDir t; StampFileName t]) (StampFile p t) else mret ());
  if SrcListFiles t then each (fun '(name, data) => write_file (path_join [target_TmpDir t; name]) data) (SourceListFiles p t)
  else mret ().

(** ** Running the action *)

Definition sourceOf (i : BuildInput) : string := input_String i.

(** [fetchRemoteFile]: the first source that can be fetched. *)
Fixpoint fetch_first (t : BuildTarget) (urls : list string) (err : option string) : M unit :=
  match urls with
  | [] => match err with Some e => error e | None => mret () end
  | url :: urls =>
      d ← the_disk;
      let '(d, e) := fetchOneRemoteFile p t url d in
      _ ← set_disk d;
      match e with Some e => fetch_first t urls (Some e) | None => mret () end
  end.

Definition fetchRemoteFile : M unit :=
  t ← the_target;
  _ ← prepareDirectory (target_OutDir t) false;
  _ ← prepareDirectory (target_TmpDir t) false;
  fetch_first t (map sourceOf (Sources t)) None.

Definition HashLastModified (t : BuildTarget) : bool := IsFilegroup t && HasLabel t "fg:hash-modified-time".

(** [OutputHash], and [outputHash], with the name of each output unless hashes are given *)
Fixpoint combined_input (hash : string -> option string) (names : bool) (outputs : list string) : option string :=
  match outputs with
  | [] => Some ""
  | o :: outputs =>
      h ← hash o;
      rest ← combined_input hash names outputs;
      Some (h +:+ (if names then o else "") +:+ rest)
  end.

(** Without [combine] the first output is hashed directly. *)
Definition outputHash (new : string -> string) (combine : bool) (d : disk) (t : BuildTarget) (outputs : list string) :
    res (option string) :=
  let hash path := option_map new (contents (walk p) (link_contents p) (mod_time p) root d (ensureRelative root path) (HashLastModified t)) in
  if combine then Ok (option_map new (combined_input hash (bool_decide (Hashes t = [])) outputs))
  else match outputs with o :: _ => Ok (hash o) | [] => Err EIndex end.

Definition OutputHash : M string :=
  fun w =>
    match w_hash w with
    | Some h => (w, Ok h)
    | None =>
        (outs ← TargetFullOutputs;
         t ← the_target;
         d ← the_disk;
         let combine := match outs with [o] => negb (file_exists d o) | _ => true end in
         h ← of_res (outputHash (new_hash p) combine d t outs);
         match h with
         | Some h => _ ← set_hash (Some h); mret h
         | None => error "cannot calculate hash"
         end) w
    end.

Definition commandOf (t : BuildTarget) : string :=
  GetCommand (Incrementality.BuildConfig (c_state p)) (FallbackConfig (c_state p)) t.

(** Another target's outputs are hashed afresh. *)
Definition hash_of_outputs (d : disk) (t : BuildTarget) : string + string :=
  match (outs ← FullOutputs host_home graph t;
         outputHash (new_hash p) (match outs with [o] => negb (file_exists d o) | _ => true end) d t outs) with
  | Ok (Some h) => inr h
  | _ => inl "cannot calculate hash"
  end.

(** [buildTextFile] *)
Definition buildTextFile : M unit :=
  t ← the_target;
  outs ← TargetOutputs;
  match outs with
  | [out] =>
      d ← the_disk;
      content ← of_res (ReplaceSequences host_home (c_cwd p) graph (hash_at d) (hash_of_outputs d) (fun _ => false)
                          (bazel_compatibility (c_settings p)) t (FileContent t));
      match content with
      | inl e => error e
      | inr content =>
          let outFile := path_join [target_TmpDir t; out] in
          on_disk (fun d => if bool_decide (nodes d !! path_dir outFile = Some NDir) then Some (Disk.WriteFile d outFile content)
                            else None) "no such file or directory"
      end
  | _ => error ("text_file " +:+ target_String t +:+ " should have a single output")
  end.

(** [runBuildCommand]: the output *)
Definition runBuildCommand (command inputHash : string) : M string :=
  t ← the_target;
  if IsRemoteFile t then _ ← fetchRemoteFile; mret ""
  else if IsTextFile t then _ ← buildTextFile; mret ""
  else
    d ← the_disk;
    env ← of_res (StampedBuildEnvironment (c_goos p) (path_exists d) c_host (c_unicode p) (c_order p) graph
                    (c_settings p) (c_stampEnv p) t inputHash (path_join [root; target_TmpDir t]) (Stamp t));
    let '(d, r) := exec p t (ToSlice env) command d in
    _ ← set_disk d;
    match r with
    | inl e => error ("Error building target " +:+ target_String t +:+ ": " +:+ e)
    | inr out => mret out
    end.

Definition run_build (inputHash : string) : M BuildMetadata :=
  t ← the_target;
  d ← the_disk;
  r ← of_res (workerAndArgs host_home (c_cwd p) graph (hash_at d) (hash_of_outputs d) (fun _ => false)
                (bazel_compatibility (c_settings p)) t (commandOf t));
  match r with
  | inl e => error e
  | inr (workerCmd, _, localCmd) =>
      if String.eqb workerCmd "" then out ← runBuildCommand localCmd inputHash; mret (MkMetadata out [] [])
      else error ("Persistent workers are no longer supported, found worker command: " +:+ workerCmd)
  end.

(** ** Collecting outputs *)

Definition add_output (out : string) : M unit := t ← the_target; t ← of_res (AddOutput t out); set_target t.

(** The names of what is in a directory, in order. *)
Definition ReadDir (d : disk) (dir : string) : list string :=
  omap (fun s => match s with
                 | String _ name => if contains_byte "/" name then None else Some name
                 | "" => None
                 end) (sorted_keys (subtree dir (nodes d))).

(** [copyOutDir] *)
Definition relativeToTmpdir (t : BuildTarget) (path : string) : string :=
  trim_prefix (trim_prefix path (target_TmpDir t)) "/".

Fixpoint copy_tree (from to : string) (entries : list string) : M (list string) :=
  match entries with
  | [] => mret []
  | s :: entries =>
      t ← the_target;
      d ← the_disk;
      let dest := path_join [to; s] in
      out ← (if bool_decide (nodes d !! (from +:+ s) = Some NDir) then _ ← mkdir_all dest; mret []
             else
               let outName := relativeToTmpdir t dest in
               _ ← add_output outName;
               d ← the_disk;
               _ ← set_disk (Rename d (from +:+ s) dest);
               mret [outName]);
      outs ← copy_tree from to entries;
      mret (out ++ outs)
  end.

Definition copyOutDir (from to : string) : M (list string) :=
  t ← the_target;
  d ← the_disk;
  match nodes d !! from with
  | None => error ("lstat " +:+ from +:+ ": no such file or directory")
  | Some NDir => copy_tree from to (walk p (sorted_keys (subtree from (nodes d))))
  | Some _ =>
      let out := relativeToTmpdir t to in
      _ ← add_output out;
      d ← the_disk;
      _ ← set_disk (Rename d from to);
      mret [out]
  end.

Fixpoint add_files (dir : string) (all : bool) (names : list string) : M (list string) :=
  match names with
  | [] => mret []
  | name :: names =>
      t ← the_target;
      let from := path_join [dir; name] in
      let to := path_join [target_TmpDir t; name] in
      new ← (if all then copyOutDir from to
             else
               _ ← add_output name;
               d ← the_disk;
               _ ← set_disk (Rename d from to);
               mret [name]);
      outs ← add_files dir all names;
      mret (new ++ outs)
  end.

Definition addOutputDirectoryToBuildOutput (dir : string) : M (list string) :=
  t ← the_target;
  d ← the_disk;
  let fullDir := path_join [target_TmpDir t; OutputDirectory_Dir dir] in
  if bool_decide (nodes d !! fullDir = Some NDir) then add_files fullDir (OutputDirectory_ShouldAddFiles dir) (ReadDir d fullDir)
  else error ("failed to move output dir (" +:+ dir +:+ ") contents to rule root").

Fixpoint add_directories (dirs : list string) : M (list string) :=
  match dirs with
  | [] => mret []
  | dir :: dirs => o ← addOutputDirectoryToBuildOutput dir; outs ← add_directories dirs; mret (o ++ outs)
  end.

(** [addOutputDirectoriesToBuildOutput] *)
Definition addOutputDirectoriesToBuildOutput : M (list string) := t ← the_target; add_directories (OutputDirectories t).

(** [moveOutput]: whether the output has changed. *)
Definition moveOutput (tmpOutput realOutput : string) : M bool :=
  t ← the_target;
  d ← the_disk;
  match hash_at d tmpOutput with
  | None => error ("cannot calculate hash for " +:+ tmpOutput)
  | Some newHash =>
      same ← (if path_exists d realOutput then
                match hash_at d realOutput with
                | None => error ("cannot calculate hash for " +:+ realOutput)
                | Some oldHash =>
                    if String.eqb oldHash newHash then mret true
                    else _ ← set_disk (RemoveAll d realOutput); mret false
                end
              else mret false);
      if same : bool then mret false
      else
        d ← the_disk;
        let dir := path_dir realOutput in
        _ ← (if path_exists d dir then mret () else mkdir_all dir);
        d ← the_disk;
        _ ← set_disk (if has_prefix tmpOutput (target_TmpDir t) then Rename d tmpOutput realOutput
                      else RecursiveCopy d tmpOutput realOutput);
        mret true
  end.

(** The outputs that must be there; whether any has changed. *)
Fixpoint move_outputs (outs : list string) : M bool :=
  match outs with
  | [] => mret false
  | output :: outs =>
      t ← the_target;
      d ← the_disk;
      let tmpOutput := path_join [target_TmpDir t; GetTmpOutput t output] in
      if path_exists d tmpOutput then
        changed ← moveOutput tmpOutput (path_join [target_OutDir t; output]);
        others ← move_outputs outs;
        mret (changed || others)
      else error ("rule " +:+ target_String t +:+ " failed to create output " +:+ tmpOutput)
  end.

(** The outputs, and whether any has changed. *)
Definition moveOutputs : M (list string * bool) :=
  outs ← TargetOutputs;
  changed ← move_outputs outs;
  t ← the_target;
  d ← the_disk;
  _ ← each (fun '(ep, out) =>
        if path_exists d (path_join [target_OutDir t; out]) then mret ()
        else error ("failed to produce output " +:+ out +:+ " for entry point " +:+ ep)) (map_to_list (EntryPoints t));
  let optional := Glob p d (target_TmpDir t) (OptionalOutputs t) in
  _ ← each (fun output =>
        _ ← moveOutput (path_join [target_TmpDir t; output]) (path_join [target_OutDir t; output]); mret ()) optional;
  mret (outs ++ optional, changed).

(** [RemoveOutputs] *)
Definition RemoveOutputs : M unit :=
  t ← the_target;
  outs ← TargetOutputs;
  each (fun output =>
    let out := path_join [target_OutDir t; output] in
    d ← the_disk;
    _ ← set_disk (RemoveAll d out);
    on_disk (fun d => EnsureDir d out) "not a directory") outs.

(** ** Hashes of outputs *)

(** [writeRuleHash] *)
Definition write_rule_hash : M unit := fun w =>
  match writeRuleHash sha1 (state_now (w_disk w)) (files_of (w_disk w)) (w_target w) with
  | Ok (fs, t, ok) =>
      (_ ← set_disk (with_files (w_disk w) fs);
       _ ← set_target t;
       if ok : bool then mret () else error "Attempting to record rule hash") w
  | Err e => (w, Err e)
  | NoFuel => (w, NoFuel)
  end.

(** [needsBuilding] *)
Definition needs_building (postBuild : bool) : M bool := fun w =>
  match needsBuilding sha1 spare (state_now (w_disk w)) (files_of (w_disk w)) (w_target w) postBuild with
  | Ok (b, t) => (_ ← set_target t; mret b) w
  | Err e => (w, Err e)
  | NoFuel => (w, NoFuel)
  end.

(** [CollapseHash]: the exclusive or of the parts, the first only once if it is repeated. *)
Definition xor_bytes (a b : string) : string :=
  String.string_of_list_ascii (zip_with (fun x y => ascii_of_N (N.lxor (N_of_ascii x) (N_of_ascii y)))
    (String.list_ascii_of_string a) (String.list_ascii_of_string b)).

Definition CollapseHash (key : string) : string :=
  let part i := str_take 20 (str_drop (20 * i) key) in
  if String.eqb (part 0%nat) (part 1%nat) then xor_bytes (xor_bytes (part 0%nat) (part 2%nat)) (part 3%nat)
  else xor_bytes (xor_bytes (xor_bytes (part 0%nat) (part 1%nat)) (part 2%nat)) (part 3%nat).

Definition mustShortTargetHash : M string := fun w =>
  match targetHash sha1 (state_now (w_disk w)) (w_target w) with
  | Ok (Some h, t) => (_ ← set_target t; mret (CollapseHash h)) w
  | Ok (None, t) => (_ ← set_target t; error "cannot calculate hash") w
  | Err e => (w, Err e)
  | NoFuel => (w, NoFuel)
  end.

(** [hex.EncodeToString] *)
Definition hex_digit (n : N) : string := byte (Z.of_N (if (n <? 10)%N then 48 + n else 87 + n)).
Definition hex (s : string) : string :=
  join "" (map (fun c => hex_digit (N_of_ascii c / 16) +:+ hex_digit (N_of_ascii c mod 16)) (String.list_ascii_of_string s)).

(** [UnprefixedHashes], which changes the hashes of the target itself. *)
Definition unprefixed (h : string) : string :=
  match last_index_byte ":" h with Some i => TrimSpace (str_drop (S i) h) | None => h end.

Definition UnprefixedHashes : M (list string) :=
  t ← the_target;
  _ ← set_target (upd_Hashes (map unprefixed) t);
  mret (map unprefixed (Hashes t)).

(** [checkRuleHashesOfType] *)
Fixpoint checkRuleHashesOfType (d : disk) (t : BuildTarget) (hashes outputs : list string) (combine : bool)
    (hashers : list (string * (string -> string) * nat)) : res bool :=
  match hashers with
  | [] => Ok false
  | (name, new, size) :: hashers =>
      h ← outputHash new combine d t outputs;
      let hashString := hex (default "" h) in
      if existsb (fun h => (String.length h =? size * 2)%nat && String.eqb hashString h) hashes then Ok true
      else checkRuleHashesOfType d t hashes outputs combine hashers
  end.

(** Whether the outputs have one of the hashes given. *)
Definition checkRuleHashes (hash : string) : M bool :=
  t ← the_target;
  if bool_decide (Hashes t = []) then mret true
  else
    outputs ← TargetFullOutputs;
    hashes ← UnprefixedHashes;
    if bool_decide (hex hash ∈ hashes) then mret true
    else
      t ← the_target;
      d ← the_disk;
      of_res (checkRuleHashesOfType d t hashes outputs (negb (length outputs =? 1)%nat) (checkers p)).

Definition calculateAndCheckRuleHash : M string :=
  hash ← OutputHash;
  ok ← checkRuleHashes hash;
  t ← the_target;
  _ ← (if negb ok && negb (hashes_only p t) && VerifyHashes p
       then error ("Bad output hash for rule " +:+ target_String t) else mret ());
  _ ← (if IsFilegroup t then mret () else write_rule_hash);
  mret hash.

(** [outputHashOrNil] *)
Definition outputHashOrNil : M (option string) :=
  outs ← TargetFullOutputs;
  t ← the_target;
  d ← the_disk;
  of_res (outputHash (new_hash p) true d t outs).

(** ** Callbacks, metadata and the cache *)

(** [runPostBuildFunction] *)
Definition runPostBuildFunction (output prevOutput : string) : M unit :=
  if String.eqb prevOutput "" then t ← the_target; t ← of_res (RunPostBuildFunction p output t); set_target t
  else mret ().

(** [checkLicences] *)
Definition checkLicences : M unit :=
  t ← the_target;
  match CheckLicences (equal_fold p) (Reject p) (Accept p) t with
  | inl _ => mret ()
  | inr _ => error ("licence of " +:+ target_String t)
  end.

(** [CheckSecrets] *)
Definition CheckSecrets : M unit :=
  t ← the_target;
  d ← the_disk;
  match find (fun s => negb (path_exists d (ExpandHomePath host_home s))) (AllSecrets t) with
  | Some s => error ("Path " +:+ s +:+ " doesn't exist; it's required to build " +:+ target_String t)
  | None => mret ()
  end.

(** [loadTargetMetadata] *)
Definition loadTargetMetadata : M BuildMetadata :=
  t ← the_target;
  d ← the_disk;
  match nodes d !! targetBuildMetadataFileName t with
  | Some (NFile data) => match decode p data with Some md => mret md | None => error "cannot decode metadata" end
  | _ => error "no metadata"
  end.

(** [StoreTargetMetadata] *)
Definition StoreTargetMetadata (md : BuildMetadata) : M unit :=
  t ← the_target;
  let filename := targetBuildMetadataFileName t in
  d ← the_disk;
  _ ← set_disk (RemoveAll d filename);
  _ ← mkdir_all (path_dir filename);
  d ← the_disk;
  set_disk (Disk.WriteFile d filename (encode p md)).

Definition TargetBuildMetadataFileName (t : BuildTarget) : string := ".target_build_metadata_" +:+ Name (Label t).

Definition addOutDirOutsFromMetadata (md : BuildMetadata) : M unit := each add_output (OutputDirOuts md).

Definition retrieve (key : string) (files : list string) : M bool := fun w =>
  let '(c, d, ok) := Retrieve (w_cache w) (w_disk w) (w_target w) key files in
  (_ ← set_cache c; _ ← set_disk d; mret ok) w.

(** [retrieveFromCache] *)
Definition retrieveFromCache (key : string) (files : list string) : M (option BuildMetadata) :=
  t ← the_target;
  ok ← retrieve key (files ++ [TargetBuildMetadataFileName t]);
  if ok : bool then
    md ← try loadTargetMetadata;
    mret (match md with inr md => Some md | inl _ => None end)
  else mret None.

(** [storeInCache] *)
Definition storeInCache (key : string) (files : list string) : M unit := fun w =>
  set_cache (Store (w_cache w) (w_disk w) (w_target w) key (files ++ [TargetBuildMetadataFileName (w_target w)])) w.

(** ** Links *)

(** Whether a link is symbolic; and whether the label is the destination itself. *)
Definition link_kinds : list (string * bool * bool) :=
  [("link:", false, true); ("hlink:", false, false); ("dlink:", true, true); ("dhlink:", true, false)].

(** [LinkDestination]: a link at the destination for each file, if there is nothing there;
    failures are only reported. *)
Definition make_links (symbolic : bool) (src dest : string) (d : disk) : disk :=
  foldl (fun d s =>
    if bool_decide (nodes d !! (src +:+ s) = Some NDir) then d
    else
      let fullDest := path_join [dest; s] in
      match EnsureDir d fullDest with
      | None => d
      | Some d =>
          if path_exists d fullDest then d
          else
            match nodes d !! (src +:+ s) with
            | Some n => MkDisk (<[fullDest := if symbolic then NLink (path_join [root; src +:+ s]) else n]> (nodes d)) (rule_attrs d)
                          (hash_attrs d) (stand_ins d)
            | None => d
            end
      end) d (walk p (sorted_keys (subtree src (nodes d)))).

Definition LinkIfNotExists (symbolic : bool) (src dest : string) (d : disk) : disk :=
  if path_exists d dest then d else make_links symbolic src dest d.

(** [buildLinksOfType] *)
Definition buildLinksOfType (prefix : string) (direct symbolic : bool) : M unit :=
  t ← the_target;
  let env := TargetEnvironment c_host (c_unicode p) (c_order p) (c_settings p) t in
  each (fun dest =>
    let destDir := path_join [root; Expand dest (ReplaceEnvironment env)] in
    outs ← TargetOutputs;
    each (fun out =>
      d ← the_disk;
      let src := path_join [target_OutDir t; out] in
      set_disk (if direct then make_links symbolic src (ensureRelative root destDir) d
                else LinkIfNotExists symbolic src (ensureRelative root (path_join [destDir; out])) d)) outs)
    (PrefixedLabels t prefix).

(** [buildLinks] *)
Definition buildLinks : M unit := each (fun '(prefix, direct, symbolic) => buildLinksOfType prefix direct symbolic) link_kinds.

(** ** Filegroups *)

Definition file_hash (d : disk) (t : BuildTarget) (path : string) : option string :=
  option_map (new_hash p) (contents (walk p) (link_contents p) (mod_time p) root d (ensureRelative root path) (HashLastModified t)).

(** [isSameFileContent], for files that are not links to each other *)
Definition isSameFileContent (d : disk) (t : BuildTarget) (from to : string) : res bool :=
  if negb (path_exists d to) then Ok false
  else if String.eqb from to then Ok true
  else
    match file_hash d t from, file_hash d t to with
    | Some h1, Some h2 => Ok (String.eqb h1 h2)
    | _, _ => Err (EPanic "cannot calculate hash")
    end.

(** [filegroupBuilder.Build]: whether the file is changed. *)
Definition filegroup_Build (from to : string) : M bool :=
  t ← the_target;
  d ← the_disk;
  if negb (path_exists d from) then error ("Can't build " +:+ target_String t +:+ ": input " +:+ from +:+ " does not exist")
  else
    built ← (fun w => (w, Ok (w_built w)));
    match built !! to with
    | Some changed => mret changed
    | None =>
        same ← of_res (isSameFileContent d t from to);
        if same : bool then _ ← set_built (<[to := false]> built); mret false
        else
          _ ← set_disk (RemoveAll d to);
          _ ← on_disk (fun d => EnsureDir d to) "not a directory";
          d ← the_disk;
          _ ← set_disk (RecursiveCopy d from to);
          _ ← set_built (<[to := true]> built);
          mret true
    end.

Fixpoint build_files (sources : list (string * string)) : M bool :=
  match sources with
  | [] => mret false
  | (from, to) :: sources => c ← filegroup_Build from to; cs ← build_files sources; mret (c || cs)
  end.

(** Sources in the same package may have changed in place. *)
Definition source_changed (t : BuildTarget) : res bool :=
  foldM (fun changed bi =>
    if changed : bool then Ok true
    else
      match input_Label bi with
      | Some l =>
          if InSamePackageAs (Label t) l then
            dep ← TargetOrDie graph l; Ok (state_number (target_state dep) <? state_number Unchanged)%nat
          else Ok false
      | None => Ok false
      end) false (AllSources t).

(** [createInitPy]: an empty file, here and in the directories above. *)
Fixpoint createInitPy (fuel : nat) (dir : string) (d : disk) : disk :=
  match fuel with
  | O => d
  | S fuel =>
      let initPy := path_join [dir; "__init__.py"] in
      if path_exists d initPy then d
      else
        let d := if bool_decide (nodes d !! dir = Some NDir) then Disk.WriteFile d initPy "" else d in
        let dir := path_dir dir in
        if negb (String.eqb dir GenDir) && negb (String.eqb dir ".") && negb (path_exists d (path_join [dir; "__init__.py"]))
        then createInitPy fuel dir d else d
  end.

(** [writeGoMod] *)
Definition writeGoMod (d : disk) : disk :=
  let filename := "plz-out/go.mod" in
  if path_exists d filename || negb (bool_decide (nodes d !! "plz-out" = Some NDir)) then d
  else Disk.WriteFile d filename ("module please-ignore  // Dummy module to exclude this directory from other tools" +:+ String newline "").

Definition buildFilegroup : M bool :=
  t ← the_target;
  _ ← prepareDirectory (target_OutDir t) false;
  d ← the_disk;
  locals ← of_res (allSourcePaths graph t (LocalPaths host_home graph));
  fulls ← of_res (allSourcePaths graph t (FullPaths host_home (path_exists d) graph));
  changed ← build_files (zip fulls ((fun l => path_join [target_OutDir t; l]) <$> locals));
  in_place ← (if changed : bool then mret true else of_res (source_changed t));
  _ ← (if HasLabel t "py" && negb (IsBinary t) then
         let other := match PackageByLabel graph (Label t) with
                      | Some pkg => HasOutput pkg "__init__.py"
                      | None => false
                      end in
         if other then mret ()
         else d ← the_disk; set_disk (createInitPy (S (String.length (target_OutDir t))) (target_OutDir t) d)
       else mret ());
  _ ← (if HasLabel t "go" then d ← the_disk; set_disk (writeGoMod d) else mret ());
  mret (changed || in_place).

(** ** Building *)

(** [findFilegroupSourcesWithTmpDir] only adds to the message. *)
Definition errStop : string := "stopping build".

(** [prepareOnly], which always stops the build. *)
Definition prepareOnly : M unit :=
  t ← the_target;
  if IsFilegroup t then error ("can't prepare temporary directory for " +:+ target_String t
                               +:+ "; filegroups don't have temporary directories")
  else
    _ ← prepareDirectories;
    _ ← prepareSources;
    _ ← mustShortTargetHash;
    error errStop.

(** [retrieveArtifacts]: whether the outputs are those of the cache. *)
Definition retrieveArtifacts (oldOutputHash : option string) : M bool :=
  t ← the_target;
  if bool_decide (outputs t = [] /\ namedOutputs t = ∅) then _ ← SetTargetState Unchanged; mret true
  else
    cacheKey ← mustShortTargetHash;
    outs ← TargetOutputs;
    md ← retrieveFromCache cacheKey outs;
    match md with
    | None => mret false
    | Some md =>
        _ ← (if bool_decide (md_OptionalOutputs md = []) then mret ()
             else _ ← retrieve cacheKey (md_OptionalOutputs md); mret ());
        _ ← checkLicences;
        newOutputHash ← try calculateAndCheckRuleHash;
        match newOutputHash with
        | inl _ => _ ← try RemoveOutputs; mret false
        | inr h =>
            _ ← SetTargetState (if bool_decide (oldOutputHash = Some h) then Unchanged else Cached);
            _ ← buildLinks;
            if String.eqb (HTTPURL p) "" then mret true
            else ok ← try write_rule_hash; mret (match ok with inl _ => false | inr _ => true end)
        end
    end.

(** Where the target may be that of the last time: its metadata is applied again. *)
Definition reapply_metadata : M unit :=
  t ← the_target;
  if BuildCouldModifyTarget t then
    md ← loadTargetMetadata;
    _ ← addOutDirOutsFromMetadata md;
    if PostBuildFunction t then _ ← try (runPostBuildFunction (Stdout md) ""); mret () else mret ()
  else mret ().

(** Whether there is nothing to do, and whether the post-build function has run. *)
Definition reuse : M (bool * bool) :=
  t ← the_target;
  needed ← (if IsFilegroup t then mret true else needs_building false);
  if needed : bool then mret (false, false)
  else
    _ ← reapply_metadata;
    still ← (if BuildCouldModifyTarget t then needs_building true else mret false);
    if still : bool then mret (false, true)
    else _ ← SetTargetState Reused; _ ← buildLinks; mret (true, true).

(** The outputs from the cache: whether that is all, and the output that the post-build
    function has seen. *)
Definition from_cache (cacheKey : string) (oldOutputHash : option string) (haveRun : bool) : M (bool * string) :=
  t ← the_target;
  if negb (has_cache p) || ForceRebuild (c_state p) (Label t) then mret (false, "")
  else if BuildCouldModifyTarget t then
    md ← retrieveFromCache cacheKey [];
    match md with
    | None => mret (false, "")
    | Some md =>
        _ ← addOutDirOutsFromMetadata md;
        seen ← (if PostBuildFunction t && negb haveRun then _ ← runPostBuildFunction (Stdout md) ""; mret (Stdout md)
                else mret "");
        got ← retrieveArtifacts oldOutputHash;
        if got : bool then _ ← write_rule_hash; mret (true, seen) else mret (false, seen)
    end
  else got ← retrieveArtifacts oldOutputHash; mret (got, "").

(** After the outputs are in place: the cache, and the temporary directory. *)
Definition store_outputs (cacheKey : string) (outs : list string) : M unit :=
  t ← the_target;
  _ ← (if has_cache p then
         newCacheKey ← mustShortTargetHash;
         _ ← (if BuildCouldModifyTarget t && negb (String.eqb newCacheKey cacheKey) then storeInCache cacheKey [] else mret ());
         storeInCache newCacheKey outs
       else mret ());
  if CleanWorkdirs p then d ← the_disk; set_disk (RemoveAll d (target_TmpDir t)) else mret ().

(** The action itself, from the sources to the outputs. *)
Definition run_action (cacheKey : string) (prevOutput : string) : M unit :=
  _ ← CheckSecrets;
  _ ← prepareSources;
  md ← run_build cacheKey;
  t ← the_target;
  d ← the_disk;
  let optional := Glob p d (target_TmpDir t) (OptionalOutputs t) in
  dirs ← addOutputDirectoriesToBuildOutput;
  let md := MkMetadata (Stdout md) optional dirs in
  _ ← (if PostBuildFunction t then runPostBuildFunction (Stdout md) prevOutput else mret ());
  _ ← checkLicences;
  _ ← StoreTargetMetadata md;
  '(outs, outputsChanged) ← moveOutputs;
  _ ← calculateAndCheckRuleHash;
  _ ← SetTargetState (if outputsChanged : bool then Built else Unchanged);
  _ ← buildLinks;
  store_outputs cacheKey outs.

(** [buildTarget], for a build that is not remote *)
Definition buildTarget : M unit :=
  _ ← validateBuildTargetBeforeBuild;
  t ← the_target;
  _ ← (if PreBuildFunction t then t ← of_res (RunPreBuildFunction p t); set_target t else mret ());
  t ← the_target;
  if prepare_only p t then prepareOnly
  else
    _ ← (if HasLabel t "go" then d ← the_disk; set_disk (writeGoMod d) else mret ());
    '(done, haveRun) ← reuse;
    if done : bool then mret ()
    else
      t ← the_target;
      if IsFilegroup t then
        changed ← buildFilegroup;
        _ ← (if changed : bool then _ ← calculateAndCheckRuleHash; SetTargetState Built else SetTargetState Unchanged);
        buildLinks
      else
        _ ← prepareDirectories;
        oldOutputHash ← outputHashOrNil;
        cacheKey ← mustShortTargetHash;
        '(got, seen) ← from_cache cacheKey oldOutputHash haveRun;
        if got : bool then mret () else run_action cacheKey seen.

(** [Build]: the error, if there is one. *)
Definition Build : M (option string) :=
  _ ← SetTargetState Building;
  r ← try buildTarget;
  match r with
  | inr _ => mret None
  | inl e =>
      if String.eqb e errStop then _ ← SetTargetState Stopped; mret None
      else _ ← try RemoveOutputs; _ ← SetTargetState Failed; mret (Some e)
  end.
End build.
