(* ===== verification/BuildRuns.v ===== *)
(** What carrying out a build achieves, with concrete runs: the steps of a build as changes
    of the world, and that a failed build leaves no output behind. *)
From S2P Require Import Prelude GoStrings Labels Targets Graph Inputs Lexer GoText.
From S2P Require Import Commands Environment Incrementality Disk PathHasher BuildStep.
From Stdlib Require Import Ascii.

(** ** Steps of a build *)

Section runs.
Context {C : Type} `{!Cache C}.
Context (sha1 : string -> string) (spare : string -> string) (p : Conf).

Abbreviation world := (BuildStep.world (C := C)).
Abbreviation M := (BuildStep.M (C := C)).

Lemma bind_run {A B} (m : M A) (k : A -> M B) w w' b :
  (a ← m; k a) w = (w', Ok b) -> exists w1 a, m w = (w1, Ok a) /\ k a w1 = (w', Ok b).
Proof. unfold mbind, M_bind. destruct (m w) as [w1 [a|e|]]; [|done..]. eauto. Qed.

Lemma run_bind {A B} (m : M A) (k : A -> M B) w w1 a : m w = (w1, Ok a) -> (x ← m; k x) w = k a w1.
Proof. unfold mbind, M_bind. by intros ->. Qed.

Lemma each_run {A} (f : A -> M unit) x l w w' :
  each f (x :: l) w = (w', Ok ()) -> exists w1, f x w = (w1, Ok ()) /\ each f l w1 = (w', Ok ()).
Proof. intros (w1 & [] & H1 & H2)%bind_run. eauto. Qed.

Lemma try_run {A} (m : M A) w w' r : try m w = (w', Ok r) -> exists r0, m w = (w', r0) /\ catch r0 = Ok r.
Proof. unfold try. destruct (m w) as [w1 r0]. intros [= -> H]. eauto. Qed.

(** What does not change the world. *)
Definition reads {A} (m : M A) : Prop := forall w, (m w).1 = w.

(** What changes only the disk. *)
Definition disk_only {A} (m : M A) : Prop :=
  forall w, w_target (m w).1 = w_target w /\ w_hash (m w).1 = w_hash w /\ w_cache (m w).1 = w_cache w /\ w_built (m w).1 = w_built w.

Lemma reads_disk_only {A} (m : M A) : reads m -> disk_only m.
Proof. intros H w. by rewrite H. Qed.

Lemma reads_ret {A} (a : A) : reads (mret a).
Proof. done. Qed.
Lemma reads_of_res {A} (r : res A) : reads (of_res r).
Proof. done. Qed.
Lemma reads_bind {A B} (m : M A) (k : A -> M B) : reads m -> (forall a, reads (k a)) -> reads (m ≫= k).
Proof.
  intros Hm Hk w. specialize (Hm w). unfold mbind, M_bind. destruct (m w) as [w1 [a|e|]]; cbn in *; subst; [|done..]. apply Hk.
Qed.
Lemma reads_each {A} (f : A -> M unit) l : (forall x, reads (f x)) -> reads (each f l).
Proof. intros Hf. induction l as [|x l IH]; [done|]. by apply reads_bind. Qed.

Lemma disk_only_bind {A B} (m : M A) (k : A -> M B) : disk_only m -> (forall a, disk_only (k a)) -> disk_only (m ≫= k).
Proof.
  intros Hm Hk w. specialize (Hm w). unfold mbind, M_bind. destruct (m w) as [w1 [a|e|]]; cbn in *; [|done..].
  destruct Hm as (H1 & H2 & H3 & H4). specialize (Hk a w1). by rewrite <- H1, <- H2, <- H3, <- H4.
Qed.
Lemma disk_only_each {A} (f : A -> M unit) l : (forall x, disk_only (f x)) -> disk_only (each f l).
Proof. intros Hf. induction l as [|x l IH]; [done|]. by apply disk_only_bind. Qed.
Lemma disk_only_set_disk d : disk_only (set_disk d).
Proof. done. Qed.
Lemma disk_only_error {A} msg : disk_only (error (A := A) msg).
Proof. done. Qed.
Lemma disk_only_ret {A} (a : A) : disk_only (mret a).
Proof. done. Qed.
Lemma disk_only_of_res {A} (r : res A) : disk_only (of_res r).
Proof. done. Qed.
Lemma disk_only_target : disk_only the_target.
Proof. done. Qed.
Lemma disk_only_disk : disk_only the_disk.
Proof. done. Qed.
Lemma disk_only_on_disk f msg : disk_only (on_disk f msg).
Proof. intros w. unfold on_disk, the_disk, mbind, M_bind. destruct (f _); done. Qed.
Lemma disk_only_if {A} (b : bool) (m m' : M A) : disk_only m -> disk_only m' -> disk_only (if b then m else m').
Proof. by destruct b. Qed.
End runs.

Create HintDb disk_only.
#[export] Hint Resolve disk_only_bind disk_only_each disk_only_set_disk disk_only_error disk_only_ret disk_only_of_res : disk_only.
#[export] Hint Resolve disk_only_target disk_only_disk disk_only_on_disk disk_only_if : disk_only.

(** ** Directories *)

Definition no_file (d : disk) (k : string) : Prop := nodes d !! k = None \/ nodes d !! k = Some NDir.

Lemma MkdirAll_nodes d dir d' k :
  MkdirAll d dir = Some d' -> nodes d' !! k = nodes d !! k \/ nodes d !! k = None /\ nodes d' !! k = Some NDir.
Proof.
  unfold MkdirAll. destruct (existsb _ _); [done|]. intros [= <-]. cbn [nodes]. generalize (parents dir). intros l.
  induction l as [|q l IH]; cbn; [by left|].
  destruct (foldr _ (nodes d) l !! q) eqn:Hq; [exact IH|]. destruct (decide (k = q)) as [->|Hne].
  - rewrite lookup_insert_eq. rewrite Hq in IH. destruct IH as [IH|[_ IH]]; [right; by split|done].
  - by rewrite lookup_insert_ne.
Qed.

Lemma MkdirAll_present d dir d' k n : MkdirAll d dir = Some d' -> nodes d !! k = Some n -> nodes d' !! k = Some n.
Proof. intros H Hk. destruct (MkdirAll_nodes _ _ _ k H) as [E|[E _]]; congruence. Qed.

Lemma RemoveAll_nodes d q k : nodes (RemoveAll d q) !! k = if under q k then None else nodes d !! k.
Proof. apply lookup_remove_under. Qed.

Lemma RemoveAll_no_file d q k : no_file d k -> no_file (RemoveAll d q) k.
Proof. unfold no_file. rewrite RemoveAll_nodes. destruct (under q k); auto. Qed.

Lemma MkdirAll_no_file d dir d' k : MkdirAll d dir = Some d' -> no_file d k -> no_file d' k.
Proof. intros H Hk. unfold no_file in *. destruct (MkdirAll_nodes _ _ _ k H) as [->|[_ ->]]; auto. Qed.

Lemma EnsureDir_no_file d f d' k : EnsureDir d f = Some d' -> no_file d k -> no_file d' k.
Proof.
  unfold EnsureDir. destruct (MkdirAll d (path_dir f)) as [d1|] eqn:E; [intros [= <-]; by eapply MkdirAll_no_file|].
  destruct (file_exists d (path_dir f)); [|done]. intros H Hk. eapply MkdirAll_no_file; [done|]. by apply RemoveAll_no_file.
Qed.

(** A file above a directory is why it cannot be made. *)
Definition blocked (d : disk) (dir : string) : Prop := exists q data, q ∈ parents dir /\ nodes d !! q = Some (NFile data).

Lemma MkdirAll_None d dir : MkdirAll d dir = None -> blocked d dir.
Proof.
  unfold MkdirAll. destruct (existsb _ _) eqn:E; [|done]. intros _. apply existsb_exists in E as (q & Hq & Hf).
  apply list_elem_of_In in Hq. destruct (nodes d !! q) as [[data| |]|] eqn:Hn; [|done..]. by exists q, data.
Qed.

Lemma EnsureDir_None d f : EnsureDir d f = None -> blocked d (path_dir f).
Proof.
  unfold EnsureDir. destruct (MkdirAll d (path_dir f)) eqn:E; [done|]. destruct (file_exists d (path_dir f)).
  - intros (q & data & Hq & Hn)%MkdirAll_None. exists q, data. split; [done|]. rewrite RemoveAll_nodes in Hn.
    by destruct (under (path_dir f) q).
  - intros _. by apply MkdirAll_None.
Qed.

Section failures.
Context {C : Type} `{!Cache C}.
Context (sha1 : string -> string) (spare : string -> string) (p : Conf).

Lemma remove_outputs_spec (outputs : list string) (w : BuildStep.world (C := C)) :
  let path out := path_join [target_OutDir (w_target w); out] in
  let '(w', r) := each (fun output =>
    d ← the_disk;
    _ ← set_disk (RemoveAll d (path output));
    on_disk (fun d => EnsureDir d (path output)) "not a directory") outputs w in
  w_target w' = w_target w /\ (forall k, no_file (w_disk w) k -> no_file (w_disk w') k) /\
  match r with
  | Ok _ => forall out, out ∈ outputs -> no_file (w_disk w') (path out)
  | Err e => recoverable e /\ exists out, out ∈ outputs /\ blocked (w_disk w') (path_dir (path out))
  | NoFuel => False
  end.
Proof.
  revert w. induction outputs as [|o outputs IH]; intros w path.
  { cbn. split_and!; [done|done|]. by intros out ?%not_elem_of_nil. }
  cbn [each]. unfold mbind at 1, M_bind at 1.
  set (w1 := MkWorld (RemoveAll (w_disk w) (path o)) (w_cache w) (w_target w) (w_hash w) (w_built w)).
  change ((d ← the_disk; _ ← set_disk (RemoveAll d (path o)); on_disk (fun d => EnsureDir d (path o)) "not a directory") w)
    with (on_disk (fun d => EnsureDir d (path o)) "not a directory" w1).
  unfold on_disk, the_disk, mbind at 1, M_bind at 1. cbn [w_disk w1].
  assert (forall k, no_file (w_disk w) k -> no_file (RemoveAll (w_disk w) (path o)) k) as Hr by (intros; by apply RemoveAll_no_file).
  destruct (EnsureDir (RemoveAll (w_disk w) (path o)) (path o)) as [d2|] eqn:He; cbn.
  - assert (forall k, no_file (w_disk w) k -> no_file d2 k) as Hd by (intros; eapply EnsureDir_no_file; eauto).
    specialize (IH (MkWorld d2 (w_cache w) (w_target w) (w_hash w) (w_built w))). cbn in IH.
    change (target_OutDir (w_target (MkWorld d2 (w_cache w) (w_target w) (w_hash w) (w_built w)))) with (target_OutDir (w_target w)) in IH.
    destruct (each _ outputs _) as [w' r]. destruct IH as (Ht & Hk & Hr'). split_and!; [done|by auto|].
    destruct r as [[]|e|]; [|destruct Hr' as (? & out & ? & ?); split; [done|exists out; split; [by right|done]]|done].
    intros out [->|Hin]%elem_of_cons; [|by apply Hr']. apply Hk. eapply EnsureDir_no_file; [done|].
    left. by rewrite RemoveAll_nodes, under_refl.
  - split_and!; [done|done|done|]. exists o. split; [by left|]. by apply EnsureDir_None in He.
Qed.

Lemma RemoveOutputs_eq (w : BuildStep.world (C := C)) :
  RemoveOutputs p w =
  match Outputs (host_home p) (st_graph (c_state p)) (w_target w) with
  | Ok outs => each (fun output =>
      d ← the_disk;
      _ ← set_disk (RemoveAll d (path_join [target_OutDir (w_target w); output]));
      on_disk (fun d => EnsureDir d (path_join [target_OutDir (w_target w); output])) "not a directory") outs w
  | Err e => (w, Err e)
  | NoFuel => (w, NoFuel)
  end.
Proof.
  unfold RemoveOutputs, TargetOutputs, host_home, graph, mbind, M_bind, the_target, of_res. cbn.
  by destruct (Outputs (host_home p) (st_graph (c_state p)) (w_target w)).
Qed.

(** C7: When the build of a target fails, the target is marked as failed and none of its
    outputs is left as a file: they are removed, unless there is a file where a directory
    for one of them would have to be. *)
Theorem failed_build_removes_outputs (w w' : BuildStep.world (C := C)) e outs :
  Build sha1 spare p w = (w', Ok (Some e)) -> Outputs (host_home p) (st_graph (c_state p)) (w_target w') = Ok outs ->
  target_state (w_target w') = Failed /\
  let path out := path_join [target_OutDir (w_target w'); out] in
  ((forall out, out ∈ outs -> no_file (w_disk w') (path out)) \/
   exists out, out ∈ outs /\ blocked (w_disk w') (path_dir (path out))).
Proof.
  unfold Build. intros (w1 & [] & _ & (w2 & r & _ & H)%bind_run)%bind_run Hout.
  destruct r as [e'|[]]; [|done].
  destruct (String.eqb e' errStop); [apply bind_run in H as (? & ? & _ & [= _])|].
  apply bind_run in H as (w3 & r3 & (r4 & Hrem & Hc)%try_run & H).
  assert (w' = MkWorld (w_disk w3) (w_cache w3) (SetState Failed (w_target w3)) (w_hash w3) (w_built w3)) as -> by (by injection H as <- _).
  split; [done|]. cbn [w_target w_disk] in *.
  change (Outputs (host_home p) (st_graph (c_state p)) (SetState Failed (w_target w3)))
    with (Outputs (host_home p) (st_graph (c_state p)) (w_target w3)) in Hout.
  change (target_OutDir (SetState Failed (w_target w3))) with (target_OutDir (w_target w3)).
  rewrite RemoveOutputs_eq in Hrem.
  assert (w_target w3 = w_target w2 -> Outputs (host_home p) (st_graph (c_state p)) (w_target w2) = Ok outs) as Ho by (by intros <-).
  destruct (Outputs (host_home p) (st_graph (c_state p)) (w_target w2)) as [outs2|e2|] eqn:E2.
  2-3: assert (w3 = w2) as -> by congruence; by specialize (Ho eq_refl).
  pose proof (remove_outputs_spec outs2 w2) as Hspec. cbn zeta beta in Hspec. rewrite Hrem in Hspec.
  destruct Hspec as (Ht & _ & Hr). specialize (Ho Ht). injection Ho as ->. rewrite Ht.
  destruct r4 as [[]|e4|]; [left; exact Hr|right; apply Hr|done].
Qed.
End failures.

(** ** What each step changes *)

Ltac disk_only_step :=
  first [ apply disk_only_bind; [|intro] | apply disk_only_each; intro | apply disk_only_set_disk | apply disk_only_error
        | apply disk_only_ret | apply disk_only_of_res | apply disk_only_target | apply disk_only_disk
        | apply disk_only_on_disk | apply disk_only_if | progress cbn zeta ].

Ltac disk_only := repeat (disk_only_step || case_match).

Ltac reads_only :=
  repeat first [ apply reads_bind; [|intro] | apply reads_each; intro | apply reads_ret | apply reads_of_res
               | progress cbn zeta | case_match | (intros ?; done) ].

Section steps.
Context {C : Type} `{!Cache C}.
Context (sha1 : string -> string) (spare : string -> string) (p : Conf).

Lemma validate_reads : reads (C := C) (validateBuildTargetBeforeBuild p).
Proof.
  unfold validateBuildTargetBeforeBuild, CheckDuplicateOutputs, CheckTargetOwnsBuildInputs, checkTargetOwnsBuildInput,
    checkTargetOwnsFileAndSubDirectories, CheckTargetOwnsBuildOutputs, TargetOutputs. reads_only.
Qed.

Lemma CheckSecrets_reads : reads (C := C) (CheckSecrets p).
Proof. unfold CheckSecrets. reads_only. Qed.

Lemma checkLicences_reads : reads (C := C) (checkLicences p).
Proof. unfold checkLicences. reads_only. Qed.

Lemma outputHashOrNil_reads : reads (C := C) (outputHashOrNil p).
Proof. unfold outputHashOrNil, TargetFullOutputs. reads_only. Qed.

Lemma mkdir_all_disk dir : disk_only (C := C) (mkdir_all dir).
Proof. unfold mkdir_all. disk_only. Qed.

Lemma prepareDirectories_disk : disk_only (C := C) (prepareDirectories p).
Proof.
  unfold prepareDirectories, prepareDirectory, prepareOutputDirectories, prepareParentDirs, mkdir_all, TargetOutputs. disk_only.
Qed.

Lemma write_file_disk path data : disk_only (C := C) (write_file path data).
Proof. unfold write_file, mkdir_all. disk_only. Qed.

Lemma prepareSources_disk : disk_only (C := C) (prepareSources p).
Proof.
  unfold prepareSources, PrepareSource, write_file, mkdir_all. disk_only.
Qed.

Lemma fetch_first_disk t urls e : disk_only (C := C) (fetch_first p t urls e).
Proof. revert e. induction urls as [|url urls IH]; intros e; cbn; disk_only. apply IH. Qed.

Lemma run_build_disk key : disk_only (C := C) (run_build p key).
Proof.
  unfold run_build, runBuildCommand, fetchRemoteFile, buildTextFile, prepareDirectory, TargetOutputs. disk_only.
  apply fetch_first_disk.
Qed.

Lemma StoreTargetMetadata_disk md : disk_only (C := C) (StoreTargetMetadata p md).
Proof. unfold StoreTargetMetadata, mkdir_all. disk_only. Qed.

Lemma moveOutput_disk tmp real : disk_only (C := C) (moveOutput p tmp real).
Proof. unfold moveOutput, mkdir_all. disk_only. Qed.

Lemma move_outputs_disk outs : disk_only (C := C) (move_outputs p outs).
Proof. induction outs as [|o outs IH]; cbn; disk_only; first [apply moveOutput_disk | exact IH]. Qed.

Lemma moveOutputs_disk : disk_only (C := C) (moveOutputs p).
Proof.
  unfold moveOutputs, TargetOutputs. disk_only; first [apply move_outputs_disk | apply moveOutput_disk].
Qed.
End steps.
(** ** A concrete build *)

(** A cache that is never hit, and one that keeps what is below each file. *)
#[export] Instance no_cache : Cache unit := { Store c _ _ _ _ := c; Retrieve c d _ _ _ := (c, d, false); Clean c _ := c }.

Definition kept : Type := gmap (string * string) (gmap string (gmap string node)).

Definition out_path (t : BuildTarget) (file : string) : string := path_join [target_OutDir t; file].

#[export] Instance memory_cache : Cache kept := {
  Store c d t key files :=
    <[(label_String (Label t), key) := list_to_map (map (fun f => (f, subtree (out_path t f) (nodes d))) files)]> c;
  Retrieve c d t key files :=
    match
      stored ← c !! (label_String (Label t), key);
      foldl (fun d f => d ← d; tree ← (stored : gmap string (gmap string node)) !! f;
        Some (MkDisk (graft (out_path t f) tree (nodes d)) (remove_under (out_path t f) (rule_attrs d))
          (remove_under (out_path t f) (hash_attrs d)) (stand_ins d))) (Some d) files
    with
    | Some d' => (c, d', true)
    | None => (c, d, false)
    end;
  Clean c t := filter (fun kv => kv.1.1 <> label_String (Label t)) c }.

(** [//p:t], which copies its source to its output. *)
Definition ex_target (f : BuildTarget -> BuildTarget) : BuildTarget :=
  f (upd_Command (fun _ => "cp $SRC $OUT") (upd_Sources (fun _ => [FileLabel "in" "p"]) (upd_outputs (fun _ => ["out"])
    (NewBuildTarget (MkBuildLabel "p" "t" ""))))).

Definition ex_graph : BuildGraph := build_graph [ex_target id].

(** The action puts what is in the file named by SRC into that named by OUT. *)
Definition var (name : string) (env : list string) : string :=
  match find (fun s => has_prefix s (name +:+ "=")) env with
  | Some s => str_drop (S (String.length name)) s
  | None => ""
  end.

Definition ex_exec (t : BuildTarget) (env : list string) (command : string) (d : disk) : disk * (string + string) :=
  if String.eqb command "cp $SRC $OUT" then
    match nodes d !! path_join [target_TmpDir t; var "SRC" env] with
    | Some n => (MkDisk (<[ensureRelative "/repo" (var "OUT" env) := n]> (nodes d)) (rule_attrs d) (hash_attrs d) (stand_ins d), inr "done")
    | None => (d, inl "no source")
    end
  else (d, inl "command not found").

Definition ex_encode (md : BuildMetadata) : string := Stdout md.

(** Hashes of contents; those of rules are of 20 bytes. *)
Definition angle (s : string) : string := "<" +:+ s +:+ ">".

Definition ex_conf (g : BuildGraph) (cache : bool) (post : string -> BuildTarget -> res BuildTarget) : Conf :=
  MkConf (MkState g noSecrets "opt" "opt" true (fun _ => false) {[ "HOME" := "/home" ]} (fun _ => false) inl (fun _ => false))
    Environment.ex_settings "/repo" "linux" id in_order ∅ angle id (fun _ => None) (fun _ => "") [] []
    ["BUILD"] [] [] String.eqb true (fun _ => false) (fun _ => false) true cache "" (fun t => Ok t) post ex_exec
    (fun _ _ d => (d, Some "offline")) (fun _ _ _ => []) (fun _ => "") (fun _ => []) ex_encode
    (fun s => Some (MkMetadata s [] [])).

Definition ex_disk : disk := MkDisk (list_to_map [("p", NDir); ("p/BUILD", NFile ""); ("p/in", NFile "hello")]) ∅ ∅ ∅.

Definition ex_world (t : BuildTarget) (d : disk) : BuildStep.world (C := unit) := MkWorld d () t None ∅.

Definition no_post (_ : string) (t : BuildTarget) : res BuildTarget := Ok t.

Definition ex_build (t : BuildTarget) (d : disk) : BuildStep.world (C := unit) * res (option string) :=
  Build pad (fun _ => "") (ex_conf ex_graph false no_post) (ex_world t d).

(** A build, and the next one of the same target, for which nothing is left to do. *)
Example ex_built_and_reused :
  let '(w1, r1) := ex_build (ex_target id) ex_disk in
  let '(w2, r2) := ex_build (ex_target id) (w_disk w1) in
  r1 = Ok None /\ target_state (w_target w1) = Built /\ nodes (w_disk w1) !! "plz-out/gen/p/out" = Some (NFile "hello") /\
  r2 = Ok None /\ target_state (w_target w2) = Reused /\ w_disk w2 = w_disk w1.
Proof. vm_compute. done. Qed.

(** The output of a build before is there when the next one fails. *)
Definition ex_failing : BuildTarget := upd_Command (fun _ => "false") (ex_target id).

Definition ex_old_output : disk :=
  MkDisk (list_to_map (map_to_list (nodes ex_disk) ++
    [("plz-out", NDir); ("plz-out/gen", NDir); ("plz-out/gen/p", NDir); ("plz-out/gen/p/out", NFile "old")])) ∅ ∅ ∅.

Definition ex_failed : BuildStep.world (C := unit) * res (option string) := ex_build ex_failing ex_old_output.

Lemma failed_build_removes_outputs_witness :
  target_state (w_target ex_failed.1) = Failed /\
  ((forall out, out ∈ ["out"] -> no_file (w_disk ex_failed.1) (path_join [target_OutDir (w_target ex_failed.1); out])) \/
   exists out, out ∈ ["out"] /\ blocked (w_disk ex_failed.1) (path_dir (path_join [target_OutDir (w_target ex_failed.1); out]))).
Proof.
  apply (failed_build_removes_outputs pad (fun _ => "") (ex_conf ex_graph false no_post) (ex_world ex_failing ex_old_output) ex_failed.1
    (default "" (from_Ok None ex_failed.2)) ["out"]).
  - vm_compute. reflexivity.
  - vm_compute. reflexivity.
Defined.
