(* ===== verification/Rebuilds.v ===== *)
(** What is left after a build that succeeded: its outputs are there, they have the hashes
    that the target gives, and building it again does nothing. *)
From S2P Require Import Prelude GoStrings Labels Targets Graph Inputs Lexer GoText.
From S2P Require Import Commands Environment Incrementality Disk PathHasher BuildStep BuildRuns.
From Stdlib Require Import Ascii.

(** ** What does not matter to a target's inputs and outputs *)

(** A target without what changes while it is built. *)
Definition core (t : BuildTarget) : BuildTarget := SetState Inactive (upd_RuleHash (fun _ => "") (upd_Hashes (fun _ => []) t)).

Lemma bind_ext {A B} (m : res A) (f f' : A -> res B) : (forall a, m = Ok a -> f a = f' a) -> (m ≫= f) = (m ≫= f').
Proof. destruct m; [intros H; exact (H _ eq_refl)|done..]. Qed.

Lemma bind_ext_l {A B} (m m' : res A) (f : A -> res B) : m = m' -> (m ≫= f) = (m' ≫= f).
Proof. by intros ->. Qed.

Lemma flat_mapM_ext {A B} (f f' : A -> res (list B)) l : (forall x, f x = f' x) -> flat_mapM f l = flat_mapM f' l.
Proof.
  intros H. unfold flat_mapM. assert (mapM f l = mapM f' l) as ->; [|done].
  induction l as [|x l IH]; [done|]. cbn. by rewrite H, IH.
Qed.

Lemma core_ProvideFor dep t t' : core t = core t' -> ProvideFor dep t = ProvideFor dep t'.
Proof. intros H. change (ProvideFor dep (core t) = ProvideFor dep (core t')). by rewrite H. Qed.

Lemma core_recursivelyProvideFor fuel g t t' d d' dep :
  core t = core t' -> core d = core d' -> recursivelyProvideFor fuel g t d dep = recursivelyProvideFor fuel g t' d' dep.
Proof.
  intros Ht Hd. revert dep. induction fuel as [|fuel IH]; intros dep; [done|]. cbn [recursivelyProvideFor].
  destruct (TargetOrDie g dep) as [dt| |]; [|done..]. rewrite !bind_Ok_l, (core_ProvideFor dt d d' Hd), (core_ProvideFor dt t t' Ht).
  apply flat_mapM_ext. intros r. case_decide; [done|apply IH].
Qed.

Lemma core_inner_deps g t t' d d' : core t = core t' -> core d = core d' -> inner_deps g t d = inner_deps g t' d'.
Proof.
  intros Ht Hd. unfold inner_deps.
  assert (forall l, flat_mapM (provide_for g t d) l = flat_mapM (provide_for g t' d') l) as Hp
    by (intros l; apply flat_mapM_ext; intros; by apply core_recursivelyProvideFor).
  assert (forall l, flat_mapM (fun dep => x ← TargetOrDie g dep; Ok (ProvideFor x d)) l =
    flat_mapM (fun dep => x ← TargetOrDie g dep; Ok (ProvideFor x d')) l) as Hq.
  { intros l. apply flat_mapM_ext. intros dep. destruct (TargetOrDie g dep); [|done..]. rewrite !bind_Ok_l. f_equal. by apply core_ProvideFor. }
  change (Label d) with (Label (core d)). change (Label t) with (Label (core t)).
  change (NeedsTransitiveDependencies t) with (NeedsTransitiveDependencies (core t)).
  change (OutputIsComplete d) with (OutputIsComplete (core d)). change (BuildDependencies d) with (BuildDependencies (core d)).
  change (ExportedDependencies d) with (ExportedDependencies (core d)). change (IsTool d) with (IsTool (core d)).
  rewrite Ht, Hd, Hq, Hp.
  destruct (bool_decide _ || _); [|done]. apply bind_ext. intros provided _. by rewrite Hp.
Qed.

Lemma core_inner fuel g t t' s dep : core t = core t' -> inner fuel g t s dep = inner fuel g t' s dep.
Proof.
  intros H. revert s dep. induction fuel as [|fuel IH]; intros s dep; [done|]. cbn [inner].
  assert (Label t = Label t') as Hl by (change (Label (core t) = Label t'); by rewrite H). rewrite <- Hl.
  assert (forall d d', core d = core d' ->
    (out ← (if decide (dep = Label t) then Ok [] else with_runtime g dep);
     deps ← inner_deps g t d;
     foldM (fun st dep2 => if decide (dep2 ∈ st.1) then Ok st else inner fuel g t st dep2) ({[dep]} ∪ s.1, s.2 ++ out) deps) =
    (out ← (if decide (dep = Label t) then Ok [] else with_runtime g dep);
     deps ← inner_deps g t' d';
     foldM (fun st dep2 => if decide (dep2 ∈ st.1) then Ok st else inner fuel g t' st dep2) ({[dep]} ∪ s.1, s.2 ++ out) deps)) as Hd.
  { intros d d' Hd. apply bind_ext. intros out _. rewrite (core_inner_deps g t t' d d') by done. apply bind_ext. intros deps _.
    apply foldM_ext. intros st dep2 _. case_decide; [done|apply IH]. }
  destruct (decide (dep = Label t)).
  - rewrite !bind_Ok_l. by apply (Hd t t').
  - destruct (TargetOrDie g dep) as [d| |]; [|done..]. rewrite !bind_Ok_l. by apply (Hd d d).
Qed.

Lemma core_IterSources home on_path g t t' tools : core t = core t' -> IterSources home on_path g t tools = IterSources home on_path g t' tools.
Proof.
  intros H. unfold IterSources, IterInputs.
  assert (forall l, flat_mapM (recursivelyProvideSource g t) l = flat_mapM (recursivelyProvideSource g t') l) as Hs.
  { intros l. apply flat_mapM_ext. intros src. unfold recursivelyProvideSource. destruct (nonOutputLabel src); [|done].
    apply bind_ext_l. by apply core_recursivelyProvideFor. }
  change (AllSources t) with (AllSources (core t)). change (AllTools t) with (AllTools (core t)). change (Label t) with (Label (core t)).
  change (target_TmpDir t) with (target_TmpDir (core t)). rewrite H, !Hs.
  apply bind_ext_l. apply bind_ext. intros srcs _. apply bind_ext. intros ts _. by rewrite (core_inner _ _ t t').
Qed.

Section same_core.
Context (t t' : BuildTarget) (H : core t = core t').

Lemma core_Outputs home g : Outputs home g t = Outputs home g t'.
Proof. change (Outputs home g (core t) = Outputs home g t'). by rewrite H. Qed.
Lemma core_FullOutputs home g : FullOutputs home g t = FullOutputs home g t'.
Proof. change (FullOutputs home g (core t) = FullOutputs home g t'). by rewrite H. Qed.
Lemma core_OutDir : target_OutDir t = target_OutDir t'.
Proof. change (target_OutDir (core t) = target_OutDir t'). by rewrite H. Qed.
Lemma core_TmpDir : target_TmpDir t = target_TmpDir t'.
Proof. change (target_TmpDir (core t) = target_TmpDir t'). by rewrite H. Qed.
Lemma core_Label : Label t = Label t'.
Proof. change (Label (core t) = Label t'). by rewrite H. Qed.
Lemma core_metadata : targetBuildMetadataFileName t = targetBuildMetadataFileName t'.
Proof. change (targetBuildMetadataFileName (core t) = targetBuildMetadataFileName t'). by rewrite H. Qed.
Lemma core_fallback : fallback_of t = fallback_of t'.
Proof. change (fallback_of (core t) = fallback_of t'). by rewrite H. Qed.
Lemma core_sourceHash sha1 st : sourceHash sha1 st t = sourceHash sha1 st t'.
Proof.
  unfold sourceHash, source_input. change (AllTools t) with (AllTools (core t)).
  by rewrite (core_IterSources _ _ _ t t' false H), H.
Qed.
Lemma core_secretHash sha1 st : secretHash sha1 st t = secretHash sha1 st t'.
Proof. change (secretHash sha1 st (core t) = secretHash sha1 st t'). by rewrite H. Qed.
Lemma core_links prefix : PrefixedLabels t prefix = PrefixedLabels t' prefix.
Proof. change (PrefixedLabels (core t) prefix = PrefixedLabels t' prefix). by rewrite H. Qed.
Lemma core_tmp out : GetTmpOutput t out = GetTmpOutput t' out.
Proof. change (GetTmpOutput (core t) out = GetTmpOutput t' out). by rewrite H. Qed.
Lemma core_outputHash (p : Conf) new combine d outs :
  bool_decide (Hashes t = []) = bool_decide (Hashes t' = []) -> outputHash p new combine d t outs = outputHash p new combine d t' outs.
Proof.
  intros Hh. unfold outputHash. rewrite Hh.
  change (HashLastModified t) with (HashLastModified (core t)). change (HashLastModified t') with (HashLastModified (core t')). by rewrite H.
Qed.
End same_core.

(** ** The hash a target remembers *)

Section hashed.
Context (sha1 : string -> string) (spare : string -> string).
Context (sha1_length : forall s, String.length (sha1 s) = 20).
Context (st0 : build_state) (t0 : BuildTarget).

(** A target that is being built remembers the hash of its rule as it was, or nothing yet. *)
Definition hashed (t : BuildTarget) : Prop := core t = core t0 /\ ruleHash sha1 st0 t0 false = Ok (target_RuleHash t).

Definition pending (t : BuildTarget) : Prop :=
  core t = core t0 /\ Hashes t = Hashes t0 /\ (target_RuleHash t = "" \/ hashed t).

(** Where hashes of rules are the same. *)
Definition same_rules (st : build_state) : Prop :=
  BuildConfig st = BuildConfig st0 /\ FallbackConfig st = FallbackConfig st0 /\ st_host st = st_host st0.

Lemma ruleHash_core st t :
  same_rules st -> core t = core t0 -> Hashes t = Hashes t0 -> ruleHash sha1 st t false = ruleHash sha1 st0 t0 false.
Proof.
  intros (E1 & E2 & E3) H Hh.
  change (ruleHash sha1 st t false) with (ruleHash sha1 st (upd_Hashes (fun _ => Hashes t) (core t)) false).
  rewrite H, Hh. unfold ruleHash, rule_input, getenv. rewrite E1, E2, E3. reflexivity.
Qed.

Lemma hashed_nonempty t : hashed t -> target_RuleHash t <> "".
Proof.
  intros [_ H] E. unfold ruleHash, rule_input in H. cbn [mbind res_bind] in H. injection H as H.
  apply (f_equal String.length) in H. by rewrite sha1_length, E in H.
Qed.

Lemma hashed_stored t : hashed t -> stored_ok t.
Proof.
  intros [_ H]. right. unfold ruleHash, rule_input in H. cbn [mbind res_bind] in H. injection H as <-. apply sha1_length.
Qed.

Lemma RuleHash_hashed st t postBuild :
  hashed t -> BuildCouldModifyTarget t0 = false -> RuleHash sha1 st t false postBuild = Ok (target_RuleHash t, t).
Proof.
  intros H Hm. unfold RuleHash.
  assert (BuildCouldModifyTarget t = false) as ->
    by (change (BuildCouldModifyTarget (core t) = false); rewrite (proj1 H); exact Hm).
  rewrite andb_false_r. cbn [orb]. by rewrite decide_True by by apply hashed_nonempty.
Qed.

Lemma RuleHash_pending st t h t' :
  same_rules st -> pending t -> BuildCouldModifyTarget t0 = false ->
  RuleHash sha1 st t false false = Ok (h, t') -> hashed t' /\ Hashes t' = Hashes t0.
Proof.
  intros Hst (Hc & Hh & [He|Ht]) Hm; [|rewrite RuleHash_hashed by done; by intros [= <- <-]].
  unfold RuleHash. cbn [orb andb]. rewrite decide_False by (by intros E). rewrite (ruleHash_core st t Hst Hc Hh).
  destruct (ruleHash_build sha1 st0 t0) as [h0 H0]. rewrite H0, bind_Ok_l. intros [= <- <-]. split; [|exact Hh]. split; [exact Hc|exact H0].
Qed.

Lemma targetHash_pending st t o t' :
  same_rules st -> pending t -> BuildCouldModifyTarget t0 = false -> targetHash sha1 st t = Ok (o, t') ->
  hashed t' /\ Hashes t' = Hashes t0.
Proof.
  intros Hst Hp Hm. unfold targetHash. destruct (RuleHash sha1 st t false false) as [[h t1]| |] eqn:E; [|done..].
  apply RuleHash_pending in E as [Ht1 Hh1]; [|done..]. rewrite bind_Ok_l, (RuleHash_hashed st t1 true Ht1 Hm), bind_Ok_l.
  destruct (sourceHash sha1 st t1); [|done..]. rewrite bind_Ok_l. by intros [= _ <-].
Qed.

Lemma targetHash_hashed st t o t' :
  hashed t -> BuildCouldModifyTarget t0 = false -> targetHash sha1 st t = Ok (o, t') -> t' = t.
Proof.
  intros Ht Hm. unfold targetHash. rewrite (RuleHash_hashed st t false Ht Hm), bind_Ok_l, (RuleHash_hashed st t true Ht Hm), bind_Ok_l.
  destruct (sourceHash sha1 st t); [|done..]. rewrite bind_Ok_l. by intros [= _ <-].
Qed.

Lemma needsBuilding_pending st fs t b t' :
  same_rules st -> pending t -> BuildCouldModifyTarget t0 = false -> needsBuilding sha1 spare st fs t false = Ok (b, t') -> pending t'.
Proof.
  intros Hst Hp Hm. unfold needsBuilding. destruct (negb _); [by intros [= _ <-]|].
  destruct (readRuleHashFromXattrs _ _ _ _ _); [rewrite bind_Ok_l|done..].
  case_decide; [by intros [= _ <-]|].
  destruct (RuleHash sha1 st t false false) as [[h t1]| |] eqn:E; [rewrite bind_Ok_l|done..].
  apply RuleHash_pending in E as [Ht1 Hh1]; [|done..].
  assert (pending t1) as Hp1 by (split_and!; [apply Ht1|done|by right]).
  case_decide; [by intros [= _ <-]|]. destruct (sourceHash sha1 st t1); [rewrite bind_Ok_l|done..].
  case_decide; [by intros [= _ <-]|]. case_decide; [by intros [= _ <-]|].
  destruct (Outputs _ _ _); [rewrite bind_Ok_l|done..]. destruct (existsb _ _); by intros [= _ <-].
Qed.
End hashed.

(** ** Files stay where they are *)

Lemma RemoveAll_keeps d q k n : under q k = false -> nodes d !! k = Some n -> nodes (RemoveAll d q) !! k = Some n.
Proof. intros Hu Hn. by rewrite RemoveAll_nodes, Hu. Qed.

Lemma Rename_keeps d q r k n :
  under q k = false -> under r k = false -> nodes d !! k = Some n -> nodes (Rename d q r) !! k = Some n.
Proof. intros Hq Hr Hn. by rewrite Rename_nodes, Hr, Hq. Qed.

Lemma RecursiveCopy_keeps d q r k n : under r k = false -> nodes d !! k = Some n -> nodes (RecursiveCopy d q r) !! k = Some n.
Proof.
  intros Hr Hn. unfold RecursiveCopy. cbn [nodes]. rewrite lookup_union_r; [done|].
  apply lookup_kmap_None; [apply _|]. intros s -> . rewrite under_app in Hr. rewrite lookup_subtree. by rewrite Hr.
Qed.

(** Attributes do not change what the files are. *)
Lemma RecordAttr_shape e fs f h fs' :
  RecordAttr e fs f h = Some fs' -> present fs' = present fs /\ directories fs' = directories fs /\ symlinks fs' = symlinks fs.
Proof. unfold RecordAttr. repeat case_match; try done; by intros [= <-]. Qed.

Lemma record_all_shape e h fs outputs fs' ok :
  record_all e h fs outputs = (fs', ok) -> present fs' = present fs /\ directories fs' = directories fs /\ symlinks fs' = symlinks fs.
Proof.
  unfold record_all. revert fs. induction outputs as [|o outputs IH]; intros fs; cbn; [by intros [= <- _]|].
  destruct (RecordAttr e fs o h) as [fs1|] eqn:E; [|rewrite record_all_false; by intros [= <- _]].
  intros H. apply RecordAttr_shape in E as (<- & <- & <-). by apply IH.
Qed.

Lemma writeRuleHash_shape sha1 st fs t fs' t' ok :
  writeRuleHash sha1 st fs t = Ok (fs', t', ok) -> present fs' = present fs /\ directories fs' = directories fs /\ symlinks fs' = symlinks fs.
Proof.
  unfold writeRuleHash. destruct (targetHash sha1 st t) as [[hash t1]| |]; [rewrite bind_Ok_l|done..].
  destruct hash as [hash|]; [|by intros [= <- _ _]]. destruct (secretHash sha1 st t1) as [secret|]; [|by intros [= <- _ _]].
  destruct (FullOutputs _ _ t1) as [outs| |]; [rewrite bind_Ok_l|done..].
  case_decide; [by intros [= <- _ _]|].
  change (foldl _ (fs, true) outs) with (record_all (XattrsSupported st) (hash +:+ secret) fs outs).
  destruct (record_all _ _ fs outs) as [fs1 ok1] eqn:E. apply record_all_shape in E as (<- & <- & <-).
  destruct (negb ok1); [by intros [= <- _ _]|]. destruct (FileExists _ _); [|by intros [= <- _ _]].
  destruct (RecordAttr _ _ _ _) as [fs2|] eqn:E; [apply RecordAttr_shape in E as (<- & <- & <-)|]; by intros [= <- _ _].
Qed.

Lemma writeRuleHash_target sha1 st fs t fs' t' ok :
  writeRuleHash sha1 st fs t = Ok (fs', t', ok) -> exists o, targetHash sha1 st t = Ok (o, t').
Proof.
  unfold writeRuleHash. destruct (targetHash sha1 st t) as [[hash t1]| |]; [rewrite bind_Ok_l|done..].
  intros H. exists hash. do 2 f_equal.
  destruct hash as [hash|]; [|by injection H]. destruct (secretHash sha1 st t1) as [secret|]; [|by injection H].
  destruct (FullOutputs _ _ t1) as [outs| |]; [rewrite bind_Ok_l in H|done..].
  case_decide; [by injection H|]. destruct (foldl _ _ _) as [fs1 [|]]; [|by injection H]. cbn [negb] in H.
  destruct (FileExists _ _); [|by injection H]. destruct (RecordAttr _ _ _ _); by injection H.
Qed.

Lemma files_with_files d fs :
  present fs = present (files_of d) -> directories fs = directories (files_of d) -> symlinks fs = symlinks (files_of d) ->
  files_of (with_files d fs) = fs.
Proof. destruct fs. cbn. by intros -> -> ->. Qed.

Lemma present_at d d' k : nodes d !! k = nodes d' !! k -> (k ∈ present (files_of d) <-> k ∈ present (files_of d')).
Proof. intros H. cbn. by rewrite !elem_of_dom, H. Qed.

Lemma dom_filter_at (Q : node -> Prop) `{!forall n, Decision (Q n)} (m m' : gmap string node) k :
  m !! k = m' !! k -> (k ∈ dom (filter (fun kv => Q kv.2) m) <-> k ∈ dom (filter (fun kv => Q kv.2) m')).
Proof. intros Hk. rewrite !elem_of_dom. unfold is_Some. setoid_rewrite map_lookup_filter_Some. by rewrite Hk. Qed.

Lemma PathExists_at d d' k : nodes d !! k = nodes d' !! k -> PathExists (files_of d) k = PathExists (files_of d') k.
Proof. intros H. by apply bool_decide_ext, present_at. Qed.

Lemma FileExists_at d d' k : nodes d !! k = nodes d' !! k -> FileExists (files_of d) k = FileExists (files_of d') k.
Proof.
  intros H. apply bool_decide_ext. rewrite (present_at d d' k) by done.
  pose proof (dom_filter_at (fun n => n = NDir) _ _ k H) as E. cbn in *. by rewrite E.
Qed.

Lemma IsSymlink_at d d' k : nodes d !! k = nodes d' !! k -> IsSymlink (files_of d) k = IsSymlink (files_of d') k.
Proof.
  intros H. apply bool_decide_ext. rewrite (present_at d d' k) by done.
  pose proof (dom_filter_at (fun n => is_link n = true) _ _ k H) as E. cbn in *. by rewrite E.
Qed.

(** ** The steps of a build that succeeds *)

Section steps.
Context {C : Type} `{!Cache C}.
Context (sha1 : string -> string) (spare : string -> string) (p : Conf).

Abbreviation world := (BuildStep.world (C := C)).
Abbreviation M := (BuildStep.M (C := C)).
Abbreviation outputs_of t := (Outputs (host_home p) (st_graph (c_state p)) t).

(** A world with another disk. *)
Definition with_disk (w : world) (d : disk) : world := MkWorld d (w_cache w) (w_target w) (w_hash w) (w_built w).
Definition with_target (w : world) (t : BuildTarget) : world := MkWorld (w_disk w) (w_cache w) t (w_hash w) (w_built w).

Lemma run_disk_only {A} (m : M A) w w' r : disk_only m -> m w = (w', r) -> w' = with_disk w (w_disk w').
Proof. intros H E. specialize (H w). rewrite E in H. destruct w, w', H as (H1 & H2 & H3 & H4). cbn in *. by subst. Qed.

Lemma run_reads {A} (m : M A) w w' r : reads m -> m w = (w', r) -> w' = w.
Proof. intros H E. specialize (H w). by rewrite E in H. Qed.

(** What a step does not change of the files. *)
Lemma on_disk_keeps (f : disk -> option disk) msg (w w' : world) r k n :
  (forall d d', f d = Some d' -> nodes d !! k = Some n -> nodes d' !! k = Some n) ->
  on_disk f msg w = (w', r) -> nodes (w_disk w) !! k = Some n -> nodes (w_disk w') !! k = Some n.
Proof.
  intros Hf. unfold on_disk, the_disk, mbind, M_bind. destruct (f (w_disk w)) as [d|] eqn:E; intros [= <- _]; [|done]. by apply Hf.
Qed.

Lemma mkdir_all_keeps dir (w w' : world) r k n :
  mkdir_all dir w = (w', r) -> nodes (w_disk w) !! k = Some n -> nodes (w_disk w') !! k = Some n.
Proof. apply on_disk_keeps. intros d d' H. by apply (MkdirAll_present d dir). Qed.

Lemma moveOutput_keeps tmp real (w w' : world) b k n :
  under tmp k = false -> under real k = false -> moveOutput p tmp real w = (w', Ok b) ->
  nodes (w_disk w) !! k = Some n -> nodes (w_disk w') !! k = Some n.
Proof.
  intros Htmp Hreal H Hk. unfold moveOutput in H. apply bind_run in H as (w1 & t & [= <- <-] & H).
  apply bind_run in H as (w1 & d & [= <- <-] & H). destruct (hash_at p (w_disk w) tmp) as [newHash|]; [|done].
  apply bind_run in H as (w1 & same & Hs & H).
  assert (nodes (w_disk w1) !! k = Some n) as Hk1.
  { destruct (Disk.path_exists _ _); [|by injection Hs as <- _]. destruct (hash_at p (w_disk w) real) as [oldHash|]; [|done].
    destruct (String.eqb _ _); [by injection Hs as <- _|]. apply bind_run in Hs as (w2 & [] & [= <-] & [= <- _]). by apply RemoveAll_keeps. }
  clear Hs Hk. destruct same; [by injection H as <- _|].
  apply bind_run in H as (w2 & d & [= <- <-] & H). apply bind_run in H as (w2 & [] & Hm & H).
  assert (nodes (w_disk w2) !! k = Some n) as Hk2.
  { destruct (Disk.path_exists _ _); [by injection Hm as <-|]. by eapply mkdir_all_keeps. }
  apply bind_run in H as (w3 & d & [= <- <-] & H). apply bind_run in H as (w3 & [] & [= <-] & [= <- _]). cbn [w_disk].
  destruct (has_prefix _ _); [by apply Rename_keeps|by apply RecursiveCopy_keeps].
Qed.

Lemma move_outputs_keeps outs (w w' : world) b k n :
  (forall out, out ∈ outs -> under (path_join [target_TmpDir (w_target w); GetTmpOutput (w_target w) out]) k = false /\
     under (path_join [target_OutDir (w_target w); out]) k = false) ->
  move_outputs p outs w = (w', Ok b) -> nodes (w_disk w) !! k = Some n -> nodes (w_disk w') !! k = Some n.
Proof.
  revert w b. induction outs as [|out outs IH]; intros w b Hu H Hk; [by injection H as <- _|].
  cbn [move_outputs] in H. apply bind_run in H as (w1 & t & [= <- <-] & H). apply bind_run in H as (w1 & d & [= <- <-] & H).
  destruct (Disk.path_exists _ _); [|done].
  apply bind_run in H as (w1 & c & Hm & H). apply bind_run in H as (w2 & b' & Hms & [= <- _]).
  pose proof (run_disk_only _ _ _ _ (moveOutput_disk p _ _) Hm) as Hw1.
  destruct (Hu out) as [Ht Ho]; [by left|]. apply (IH w1 b'); [|done|exact (moveOutput_keeps _ _ w w1 c k n Ht Ho Hm Hk)].
  rewrite Hw1. intros o Hin. apply Hu. by right.
Qed.

Lemma moveOutputs_keeps (w w' : world) r k n outs :
  outputs_of (w_target w) = Ok outs -> (forall d, Glob p d (target_TmpDir (w_target w)) (OptionalOutputs (w_target w)) = []) ->
  (forall out, out ∈ outs -> under (path_join [target_TmpDir (w_target w); GetTmpOutput (w_target w) out]) k = false /\
     under (path_join [target_OutDir (w_target w); out]) k = false) ->
  moveOutputs p w = (w', Ok r) -> nodes (w_disk w) !! k = Some n -> nodes (w_disk w') !! k = Some n.
Proof.
  intros Hout Hglob Hu H Hk. unfold moveOutputs in H. apply bind_run in H as (w1 & outs' & Ho & H).
  unfold TargetOutputs in Ho. apply bind_run in Ho as (w2 & t & [= <- <-] & Ho). unfold of_res, graph in Ho.
  rewrite Hout in Ho. injection Ho as <- <-.
  apply bind_run in H as (w1 & changed & Hm & H).
  pose proof (run_disk_only _ _ _ _ (move_outputs_disk p _) Hm) as Hw1.
  eapply move_outputs_keeps in Hm; [|done..].
  apply bind_run in H as (w2 & t & [= <- <-] & H). apply bind_run in H as (w2 & d & [= <- <-] & H).
  apply bind_run in H as (w2 & [] & He & H).
  apply run_reads in He; [|apply reads_each; intros [ep out]; destruct (Disk.path_exists _ _); done]. subst w2.
  rewrite Hw1 in H. cbn [with_disk w_target w_disk] in H. rewrite Hglob in H. cbn in H. injection H as <- _. by rewrite Hw1 in Hm.
Qed.

(** *** Hashing the outputs *)

Lemma outputHash_ext outs (hash hash' : string -> option string) (new : string -> string) combine names (e : res (option string)) :
  (forall out, out ∈ outs -> hash out = hash' out) ->
  (if combine : bool then Ok (option_map new (combined_input hash names outs)) else match outs with o :: _ => Ok (hash o) | [] => e end) =
  (if combine then Ok (option_map new (combined_input hash' names outs)) else match outs with o :: _ => Ok (hash' o) | [] => e end).
Proof.
  intros H. destruct combine; [|destruct outs; [done|rewrite H; [done|by left]]]. do 2 f_equal.
  induction outs as [|o outs IH]; [done|]. cbn. rewrite H by by left. destruct (hash' o); [cbn|done].
  rewrite IH; [done|]. intros. apply H. by right.
Qed.

Lemma combined_input_all hash names outs s o : combined_input hash names outs = Some s -> o ∈ outs -> is_Some (hash o).
Proof.
  revert s. induction outs as [|x outs IH]; intros s H Ho; [by apply not_elem_of_nil in Ho|]. cbn in H.
  apply bind_Some in H as (h & Hh & (rest & Hr & _)%bind_Some). apply elem_of_cons in Ho as [->|Ho]; eauto.
Qed.

Lemma outputHash_exist new combine d t outs h o :
  outputHash p new combine d t outs = Ok (Some h) -> (combine = false -> length outs = 1%nat) -> o ∈ outs ->
  Disk.path_exists d (ensureRelative (root p) o) = true.
Proof.
  intros H Hc Ho. set (hash path := option_map new (contents (walk p) (link_contents p) (mod_time p) (root p) d
    (ensureRelative (root p) path) (HashLastModified t))).
  assert (is_Some (hash o)) as [c Hhash].
  { unfold outputHash in H. destruct combine.
    - injection H as H. change (option_map new (combined_input hash (bool_decide (Hashes t = [])) outs) = Some h) in H.
      destruct (combined_input hash _ outs) as [s|] eqn:E; [|done]. by eapply combined_input_all.
    - specialize (Hc eq_refl). destruct outs as [|x [|y outs]]; [done| |done]. apply list_elem_of_singleton in Ho as ->.
      injection H as H. by exists h. }
  apply not_false_iff_true. intros Hn. unfold hash in Hhash. by rewrite contents_exists in Hhash.
Qed.

Lemma OutputHash_run (w w' : world) h :
  w_hash w = None -> OutputHash p w = (w', Ok h) ->
  exists outs combine, FullOutputs (host_home p) (st_graph (c_state p)) (w_target w) = Ok outs /\
    outputHash p (new_hash p) combine (w_disk w) (w_target w) outs = Ok (Some h) /\ (combine = false -> length outs = 1%nat) /\
    w' = MkWorld (w_disk w) (w_cache w) (w_target w) (Some h) (w_built w).
Proof.
  intros Hn H. unfold OutputHash in H. rewrite Hn in H. apply bind_run in H as (w1 & outs & Ho & H).
  unfold TargetFullOutputs in Ho. apply bind_run in Ho as (w2 & t & [= <- <-] & [= <- Ho]).
  apply bind_run in H as (w2 & t & [= <- <-] & H). apply bind_run in H as (w2 & d & [= <- <-] & H). cbv zeta in H.
  apply bind_run in H as (w2 & r & [= <- Hr] & H). destruct r as [h'|]; [|done].
  apply bind_run in H as (w2 & [] & [= <-] & [= <- <-]).
  exists outs, (match outs with [o] => negb (file_exists (w_disk w) o) | _ => true end). split_and!; [exact Ho|exact Hr| |done].
  by destruct outs as [|? [|]].
Qed.

(** The outputs have a hash that the target gives, if it gives any. *)
Definition verified (d : disk) (t : BuildTarget) (outs : list string) : Prop :=
  Hashes t = [] \/
  exists new combine bytes, (new = new_hash p \/ exists name size, (name, new, size) ∈ checkers p) /\
    outputHash p new combine d t outs = Ok (Some bytes) /\ hex bytes ∈ map unprefixed (Hashes t).

Lemma checkRuleHashesOfType_true d t hashes outs combine hashers :
  (forall name new size, (name, new, size) ∈ hashers -> (0 < size)%nat) ->
  checkRuleHashesOfType p d t hashes outs combine hashers = Ok true ->
  exists name new size bytes, (name, new, size) ∈ hashers /\ outputHash p new combine d t outs = Ok (Some bytes) /\ hex bytes ∈ hashes.
Proof.
  induction hashers as [|[[name new] size] hashers IH]; intros Hs H; [done|]. cbn in H.
  destruct (outputHash p new combine d t outs) as [o| |] eqn:Eo; [|done..]. rewrite bind_Ok_l in H.
  destruct (existsb _ hashes) eqn:E.
  - apply existsb_exists in E as (x & Hx & [Hl%Nat.eqb_eq <-%String.eqb_eq]%andb_true_iff).
    destruct o as [bytes|]; [|assert (0 < size)%nat by (apply (Hs name new); by left); cbn in Hl; lia].
    exists name, new, size, bytes. split_and!; [by left|done|by apply list_elem_of_In].
  - destruct IH as (name' & new' & size' & bytes & Hin & Ho & Hh); [intros; eapply Hs; by right|done|].
    exists name', new', size', bytes. split_and!; [by right|done..].
Qed.

Lemma checkRuleHashes_run (w w' : world) h ok outs combine :
  (forall name new size, (name, new, size) ∈ checkers p -> (0 < size)%nat) ->
  FullOutputs (host_home p) (st_graph (c_state p)) (w_target w) = Ok outs ->
  outputHash p (new_hash p) combine (w_disk w) (w_target w) outs = Ok (Some h) ->
  checkRuleHashes p h w = (w', Ok ok) ->
  exists t, w' = with_target w t /\ (t = w_target w \/ t = upd_Hashes (map unprefixed) (w_target w)) /\
    (ok = true -> verified (w_disk w) (w_target w) outs).
Proof.
  intros Hs Hout Hh H. unfold checkRuleHashes in H. apply bind_run in H as (w1 & t & [= <- <-] & H).
  destruct (bool_decide _) eqn:E; [|].
  { injection H as <- <-. exists (w_target w). split_and!; [by destruct w|by left|]. intros _. left. by apply bool_decide_eq_true in E. }
  apply bind_run in H as (w1 & outs' & Ho & H). unfold TargetFullOutputs in Ho. apply bind_run in Ho as (w2 & t & [= <- <-] & Ho).
  unfold of_res, graph in Ho. rewrite Hout in Ho. injection Ho as <- <-.
  apply bind_run in H as (w1 & hashes & Hu & H). unfold UnprefixedHashes in Hu.
  apply bind_run in Hu as (w2 & t & [= <- <-] & Hu). apply bind_run in Hu as (w2 & [] & [= <-] & [= <- <-]).
  exists (upd_Hashes (map unprefixed) (w_target w)).
  case_bool_decide as Hin; [injection H as <- <-; split_and!; [done|by right|intros _; right; exists (new_hash p), combine, h; auto]|].
  apply bind_run in H as (w2 & t & [= <- <-] & H). apply bind_run in H as (w2 & d & [= <- <-] & H).
  injection H as <- H. cbn [w_target w_disk] in H. split_and!; [done|by right|]. intros ->.
  apply checkRuleHashesOfType_true in H as (name & new & size & bytes & Hc & Hb & Hx); [|done].
  right. exists new, (negb (length outs =? 1)%nat), bytes. split_and!; [right; eauto| |done]. rewrite <- Hb. symmetry. apply core_outputHash; [done|].
  apply bool_decide_ext. cbn. split; [apply map_eq_nil|by intros ->].
Qed.

Lemma write_rule_hash_run (w w' : world) :
  write_rule_hash sha1 p w = (w', Ok ()) ->
  exists fs t, writeRuleHash sha1 (state_now p (w_disk w)) (files_of (w_disk w)) (w_target w) = Ok (fs, t, true) /\
    w' = with_target (with_disk w (with_files (w_disk w) fs)) t.
Proof.
  unfold write_rule_hash. destruct (writeRuleHash _ _ _ _) as [[[fs t] [|]]| |]; intros [= <-]. by exists fs, t.
Qed.

Lemma calculateAndCheckRuleHash_run (w w' : world) h :
  (forall name new size, (name, new, size) ∈ checkers p -> (0 < size)%nat) ->
  w_hash w = None -> IsFilegroup (w_target w) = false -> calculateAndCheckRuleHash sha1 p w = (w', Ok h) ->
  exists outs combine t1 fs t2,
    FullOutputs (host_home p) (st_graph (c_state p)) (w_target w) = Ok outs /\
    outputHash p (new_hash p) combine (w_disk w) (w_target w) outs = Ok (Some h) /\ (combine = false -> length outs = 1%nat) /\
    (t1 = w_target w \/ t1 = upd_Hashes (map unprefixed) (w_target w)) /\
    (VerifyHashes p = true -> hashes_only p t1 = false -> verified (w_disk w) (w_target w) outs) /\
    writeRuleHash sha1 (state_now p (w_disk w)) (files_of (w_disk w)) t1 = Ok (fs, t2, true) /\
    w' = MkWorld (with_files (w_disk w) fs) (w_cache w) t2 (Some h) (w_built w).
Proof.
  intros Hs Hn Hf H. unfold calculateAndCheckRuleHash in H. apply bind_run in H as (w1 & h1 & Ho & H).
  apply OutputHash_run in Ho as (outs & combine & Hout & Hh & Hc & ->); [|done].
  apply bind_run in H as (w2 & ok & Hr & H). eapply checkRuleHashes_run in Hr as (t1 & -> & Ht1 & Hv); [|done|exact Hout|exact Hh].
  apply bind_run in H as (w3 & t & [= <- <-] & H). cbn [w_target with_target] in H.
  apply bind_run in H as (w3 & [] & Hcheck & H). apply bind_run in H as (w4 & [] & Hw & [= <- <-]).
  assert (IsFilegroup t1 = false) as Hf1 by (by destruct Ht1 as [->| ->]).
  rewrite Hf1 in Hw.
  assert (w3 = with_target (MkWorld (w_disk w) (w_cache w) (w_target w) (Some h1) (w_built w)) t1 /\
    (VerifyHashes p = true -> hashes_only p t1 = false -> verified (w_disk w) (w_target w) outs)) as [-> Hver].
  { destruct ok; cbn [negb andb] in Hcheck.
    - injection Hcheck as <-. split; [done|]. intros _ _. by apply Hv.
    - destruct (hashes_only p t1); cbn [negb andb] in Hcheck; [by injection Hcheck as <-|].
      destruct (VerifyHashes p); [done|]. by injection Hcheck as <-. }
  apply write_rule_hash_run in Hw as (fs & t2 & Hw & ->). exists outs, combine, t1, fs, t2. by split_and!.
Qed.

(** *** A target that only its action builds *)

(** The clean-up of the directory it was built in, at the end of a build. *)
Definition cleaned (t : BuildTarget) (d : disk) : disk :=
  if CleanWorkdirs p then RemoveAll d (target_TmpDir t) else d.

(** What a target leaves and what it is built from is not in the directory it is built in:
    neither its outputs, with the files that stand in for their attributes, nor its
    metadata; and without that directory its sources and secrets have the same hashes. *)
Record apart (t : BuildTarget) : Prop := {
  apart_kept f : f = targetBuildMetadataFileName t \/ f = fallback_of t \/
    (exists outs, FullOutputs (host_home p) (st_graph (c_state p)) t = Ok outs /\ f ∈ outs) ->
    under (target_TmpDir t) f = false /\ under f (target_TmpDir t) = false /\
    under (target_TmpDir t) (fallbackFileName f) = false;
  apart_inputs d :
    sourceHash sha1 (state_now p (RemoveAll d (target_TmpDir t))) t = sourceHash sha1 (state_now p d) t /\
    secretHash sha1 (state_now p (RemoveAll d (target_TmpDir t))) t = secretHash sha1 (state_now p d) t }.

(** Targets that no callback changes, with outputs that are known before the build, no
    links and no cache, none of whose outputs is in the way of the metadata. *)
Record plain (t : BuildTarget) : Prop := {
  plain_pre : PreBuildFunction t = false;
  plain_post : PostBuildFunction t = false;
  plain_dirs : OutputDirectories t = [];
  plain_filegroup : IsFilegroup t = false;
  plain_go : HasLabel t "go" = false;
  plain_links prefix direct symbolic : (prefix, direct, symbolic) ∈ link_kinds -> PrefixedLabels t prefix = [];
  plain_optional d : Glob p d (target_TmpDir t) (OptionalOutputs t) = [];
  plain_prepare : prepare_only p (SetState Building t) = false;
  plain_cache : has_cache p = false;
  plain_apart : apart t;
  plain_memo : target_RuleHash t = "";
  plain_forced : ForceRebuild (c_state p) (Label t) = false;
  plain_checkers name new size : (name, new, size) ∈ checkers p -> (0 < size)%nat;
  plain_outputs outs out : outputs_of t = Ok outs -> out ∈ outs ->
    under (path_join [target_TmpDir t; GetTmpOutput t out]) (targetBuildMetadataFileName t) = false /\
    under (path_join [target_OutDir t; out]) (targetBuildMetadataFileName t) = false /\
    has_prefix (path_join [target_OutDir t; out]) (root p) = false }.

Context (sha1_length : forall s, String.length (sha1 s) = 20).
Context (t0 : BuildTarget) (Hplain : plain t0).

Lemma core_plain_bool (f : BuildTarget -> bool) t : (forall t, f (core t) = f t) -> core t = core t0 -> f t = f t0.
Proof. intros Hf H. by rewrite <- Hf, H, Hf. Qed.

Lemma buildLinks_none (w : world) : core (w_target w) = core t0 -> buildLinks p w = (w, Ok ()).
Proof.
  intros H. unfold buildLinks.
  assert (forall kinds, (forall k, k ∈ kinds -> k ∈ link_kinds) ->
    each (fun '(prefix, direct, symbolic) => buildLinksOfType p prefix direct symbolic) kinds w = (w, Ok ())) as Hk; [|by apply Hk].
  induction kinds as [|[[prefix direct] symbolic] kinds IH]; intros Hin; [done|]. cbn [each].
  rewrite (run_bind _ _ w w ()); [apply IH; intros; apply Hin; by right|].
  unfold buildLinksOfType, the_target, mbind, M_bind. rewrite (core_links _ _ H).
  rewrite (plain_links t0 Hplain prefix direct symbolic); [done|]. apply Hin. by left.
Qed.

Lemma plain_modify t : core t = core t0 -> BuildCouldModifyTarget t = false.
Proof.
  intros H. change (BuildCouldModifyTarget (core t) = false). rewrite H. change (BuildCouldModifyTarget t0 = false).
  unfold BuildCouldModifyTarget. by rewrite (plain_post _ Hplain), (plain_dirs _ Hplain).
Qed.

Abbreviation hashed0 := (hashed sha1 (c_state p) t0).
Abbreviation pending0 := (pending sha1 (c_state p) t0).

Lemma state_now_same d : same_rules (c_state p) (state_now p d).
Proof. done. Qed.

(** Whether there is anything to do. *)
Lemma reuse_plain (w w' : world) done haveRun :
  pending0 (w_target w) -> reuse sha1 spare p w = (w', Ok (done, haveRun)) ->
  exists t, needsBuilding sha1 spare (state_now p (w_disk w)) (files_of (w_disk w)) (w_target w) false = Ok (negb done, t) /\
    pending0 t /\ haveRun = done /\
    w' = with_target w (if done then SetState Reused t else t).
Proof.
  intros Hp H. unfold reuse in H. apply bind_run in H as (w1 & t & [= <- <-] & H).
  assert (IsFilegroup (w_target w) = false) as Hf.
  { rewrite (core_plain_bool IsFilegroup _ (fun _ => eq_refl) (proj1 Hp)). apply (plain_filegroup _ Hplain). }
  rewrite Hf in H. apply bind_run in H as (w1 & needed & Hn & H). unfold needs_building in Hn.
  destruct (needsBuilding _ _ _ _ _ _) as [[b t]| |] eqn:E; [|done..]. injection Hn as <- <-. exists t.
  assert (pending0 t) as Hpt.
  { eapply needsBuilding_pending; [done|apply state_now_same|exact Hp|by apply plain_modify|exact E]. }
  destruct b.
  - injection H as <- <- <-. by split_and!.
  - apply bind_run in H as (w2 & [] & Hr & H). unfold reapply_metadata in Hr. apply bind_run in Hr as (w3 & t2 & [= <- <-] & Hr).
    cbn [w_target] in Hr. rewrite (plain_modify t (proj1 Hpt)) in Hr. injection Hr as <-.
    rewrite (plain_modify (w_target w) (proj1 Hp)) in H. rewrite (run_bind _ _ _ _ false eq_refl) in H.
    apply bind_run in H as (w2 & [] & [= <-] & H). cbn [w_target w_disk] in H.
    apply bind_run in H as (w2 & [] & Hl & [= <- <- <-]). rewrite buildLinks_none in Hl by apply Hpt. injection Hl as <-. by split_and!.
Qed.

Lemma mustShortTargetHash_run (w w' : world) key :
  pending0 (w_target w) -> mustShortTargetHash sha1 p w = (w', Ok key) ->
  exists t, hashed0 t /\ Hashes t = Hashes t0 /\ w' = with_target w t.
Proof.
  intros Hp H. unfold mustShortTargetHash in H. destruct (targetHash _ _ _) as [[[h|] t]| |] eqn:E; [|done..].
  injection H as <- _. apply (targetHash_pending sha1 sha1_length (c_state p) t0) in E as [Ht Hh]; [|apply state_now_same|done|by apply plain_modify].
  by exists t.
Qed.

(** What a build leaves: the disk before the hashes are recorded, and the world after. *)
Record finished (w w' : world) (d : disk) (outs : list string) : Prop := {
  finished_metadata : exists data, nodes d !! targetBuildMetadataFileName t0 = Some (NFile data);
  finished_outs : FullOutputs (host_home p) (st_graph (c_state p)) t0 = Ok outs;
  finished_exist out : out ∈ outs -> Disk.path_exists d out = true;
  finished_verified : VerifyHashes p = true -> (forall t, core t = core t0 -> hashes_only p t = false) -> verified d t0 outs;
  finished_recorded : exists t1 fs t2, hashed0 t1 /\
    writeRuleHash sha1 (state_now p d) (files_of d) t1 = Ok (fs, t2, true) /\ w_disk w' = cleaned t0 (with_files d fs);
}.

(** *** The clean-up *)

Lemma cleaned_nodes d k : under (target_TmpDir t0) k = false -> nodes (cleaned t0 d) !! k = nodes d !! k.
Proof. intros H. unfold cleaned. destruct (CleanWorkdirs p); [|done]. by rewrite RemoveAll_nodes, H. Qed.

Lemma cleaned_hash d f timestamp :
  under (target_TmpDir t0) f = false -> under f (target_TmpDir t0) = false ->
  contents (walk p) (link_contents p) (mod_time p) (root p) (cleaned t0 d) f timestamp =
  contents (walk p) (link_contents p) (mod_time p) (root p) d f timestamp.
Proof.
  intros H1 H2. apply contents_ext. intros k Hk. apply cleaned_nodes. apply not_true_iff_false. intros Ht.
  destruct (under_both _ _ _ Ht Hk) as [E|E]; congruence.
Qed.

Lemma cleaned_FileExists d k : under (target_TmpDir t0) k = false -> FileExists (files_of (cleaned t0 d)) k = FileExists (files_of d) k.
Proof. intros H. by apply FileExists_at, cleaned_nodes. Qed.

Lemma cleaned_ReadAttr e d f :
  under (target_TmpDir t0) f = false -> under (target_TmpDir t0) (fallbackFileName f) = false ->
  ReadAttr e (files_of (cleaned t0 d)) f = ReadAttr e (files_of d) f.
Proof.
  intros H1 H2. unfold ReadAttr. rewrite (IsSymlink_at (cleaned t0 d) d), (PathExists_at (cleaned t0 d) d) by by apply cleaned_nodes.
  assert (ReadAttrFile (files_of (cleaned t0 d)) f = ReadAttrFile (files_of d) f) as ->.
  { unfold ReadAttrFile, cleaned. destruct (CleanWorkdirs p); [|done]. cbn. by rewrite lookup_remove_under, H2. }
  assert (xattrs (files_of (cleaned t0 d)) !! f = xattrs (files_of d) !! f) as ->; [|done].
  unfold cleaned. destruct (CleanWorkdirs p); [|done]. cbn. by rewrite lookup_remove_under, H1.
Qed.

Lemma cleaned_recorded d outs h :
  FullOutputs (host_home p) (st_graph (c_state p)) t0 = Ok outs -> recorded (state_now p d) (files_of d) t0 outs h ->
  recorded (state_now p (cleaned t0 d)) (files_of (cleaned t0 d)) t0 outs h.
Proof.
  intros Ho [R1 R2 R3]. pose proof (apart_kept _ (plain_apart _ Hplain)) as Hk. split.
  - intros f Hf. destruct (Hk f) as (H1 & _ & H3); [by eauto|]. rewrite cleaned_ReadAttr by done. by apply R1.
  - intros E. destruct (Hk (fallback_of t0)) as (H1 & _ & H3); [by eauto|]. rewrite <- R2 by done.
    unfold ReadAttrFile, cleaned. destruct (CleanWorkdirs p); [|done]. cbn. by rewrite lookup_remove_under, H3.
  - destruct (Hk (targetBuildMetadataFileName t0)) as (H1 & _ & H3); [by eauto|].
    rewrite cleaned_FileExists, cleaned_ReadAttr by done. exact R3.
Qed.

Lemma cleaned_inputs d :
  sourceHash sha1 (state_now p (cleaned t0 d)) t0 = sourceHash sha1 (state_now p d) t0 /\
  secretHash sha1 (state_now p (cleaned t0 d)) t0 = secretHash sha1 (state_now p d) t0.
Proof. unfold cleaned. destruct (CleanWorkdirs p); [|done]. apply (apart_inputs _ (plain_apart _ Hplain)). Qed.

Lemma StoreTargetMetadata_run md (w w' : world) :
  StoreTargetMetadata p md w = (w', Ok ()) ->
  w' = with_disk w (w_disk w') /\ nodes (w_disk w') !! targetBuildMetadataFileName (w_target w) = Some (NFile (encode p md)).
Proof.
  intros H. split; [eapply run_disk_only; [apply StoreTargetMetadata_disk|exact H]|]. unfold StoreTargetMetadata in H.
  apply bind_run in H as (w4 & t & [= <- <-] & H). apply bind_run in H as (w4 & d & [= <- <-] & H).
  apply bind_run in H as (w4 & [] & [= <-] & H). apply bind_run in H as (w4 & [] & _ & H).
  apply bind_run in H as (w5 & d & [= <- <-] & [= <-]). cbn [w_disk Disk.WriteFile nodes]. by rewrite lookup_insert_eq.
Qed.

Lemma output_relative outs out :
  FullOutputs (host_home p) (st_graph (c_state p)) t0 = Ok outs -> out ∈ outs -> ensureRelative (root p) out = out.
Proof.
  unfold FullOutputs. destruct (outputs_of t0) as [os| |] eqn:Eo; [|done..]. rewrite bind_Ok_l. intros [= <-].
  intros (o & <- & Ho%list_elem_of_In)%list_elem_of_In%in_map_iff.
  destruct (plain_outputs _ Hplain os o Eo Ho) as (_ & _ & E). unfold ensureRelative. by rewrite E.
Qed.

(** From the sources to the outputs: the metadata is stored, the outputs are moved. *)
Lemma run_action_steps (w w' : world) key prev :
  core (w_target w) = core t0 -> run_action sha1 p key prev w = (w', Ok ()) ->
  exists d3 w4 outs changed w5 h,
    (exists data, nodes d3 !! targetBuildMetadataFileName t0 = Some (NFile data)) /\
    moveOutputs p (with_disk w d3) = (w4, Ok (outs, changed)) /\ calculateAndCheckRuleHash sha1 p w4 = (w5, Ok h) /\
    (_ ← SetTargetState (if changed : bool then Built else Unchanged); _ ← buildLinks p; store_outputs sha1 p key outs) w5 = (w', Ok ()).
Proof.
  intros Hc H. unfold run_action in H.
  apply bind_run in H as (w1 & [] & H1 & H). apply run_reads in H1; [|apply CheckSecrets_reads]. subst w1.
  apply bind_run in H as (w1 & [] & H1 & H). apply run_disk_only in H1; [|apply prepareSources_disk].
  apply bind_run in H as (w2 & md & H2 & H). apply run_disk_only in H2; [|apply run_build_disk].
  apply bind_run in H as (w3 & t & [= <- <-] & H). apply bind_run in H as (w3 & d & [= <- <-] & H).
  assert (w2 = with_disk w (w_disk w2)) as E2 by (rewrite H2, H1; done). rewrite E2 in H. clear H1 H2 E2 w1.
  cbn [with_disk w_target] in H.
  assert (OutputDirectories (w_target w) = [] /\ PostBuildFunction (w_target w) = false) as [Ed Ep].
  { change (OutputDirectories (core (w_target w)) = [] /\ PostBuildFunction (core (w_target w)) = false). rewrite Hc. by destruct Hplain. }
  apply bind_run in H as (w3 & dirs & H3 & H). unfold addOutputDirectoriesToBuildOutput in H3.
  apply bind_run in H3 as (w4 & t & [= <- <-] & H3). cbn [w_target with_disk] in H3. rewrite Ed in H3. injection H3 as <- <-.
  rewrite Ep in H. cbv zeta in H. apply bind_run in H as (w3 & [] & [= <-] & H).
  apply bind_run in H as (w3 & [] & H4 & H). apply run_reads in H4; [|apply checkLicences_reads]. subst w3.
  apply bind_run in H as (w3 & [] & H4 & H). apply StoreTargetMetadata_run in H4 as [E3 Hmeta].
  apply bind_run in H as (w4 & [outs changed] & H5 & H). apply bind_run in H as (w5 & h & H6 & H).
  exists (w_disk w3), w4, outs, changed, w5, h. cbn [with_disk w_target] in Hmeta. rewrite (core_metadata _ _ Hc) in Hmeta.
  split_and!; [by eexists| |done|exact H]. rewrite E3 in H5. exact H5.
Qed.

Lemma run_action_plain (w w' : world) key prev :
  hashed0 (w_target w) -> Hashes (w_target w) = Hashes t0 -> w_hash w = None ->
  run_action sha1 p key prev w = (w', Ok ()) -> exists d outs, finished w w' d outs.
Proof.
  intros Ht Hh Hn H. apply run_action_steps in H as (d3 & w4 & outs & changed & w5 & h & [data Hmeta] & H5 & H6 & H); [|apply Ht].
  pose proof (run_disk_only _ _ _ _ (moveOutputs_disk p) H5) as Ew4.
  assert (w_target w4 = w_target w /\ w_hash w4 = None) as [Et4 Hn4] by (rewrite Ew4; done).
  assert (IsFilegroup (w_target w) = false) as Ef.
  { rewrite (core_plain_bool IsFilegroup _ (fun _ => eq_refl) (proj1 Ht)). apply (plain_filegroup _ Hplain). }
  destruct (calculateAndCheckRuleHash_run w4 w5 h) as (fouts & combine & t1 & fs & t2 & Hf & Hout & Hc & Ht1 & Hv & Hw & ->);
    [apply (plain_checkers _ Hplain)|done|by rewrite Et4|done|].
  rewrite Et4 in *.
  assert (hashed0 t1) as Hht1 by (destruct Ht1 as [->| ->]; [done|exact Ht]).
  assert (w_disk w' = cleaned t0 (with_files (w_disk w4) fs)) as Hd.
  { apply bind_run in H as (w6 & [] & [= <-] & H). cbn [w_target w_disk w_cache w_hash w_built] in H.
    destruct (writeRuleHash_target _ _ _ _ _ _ _ Hw) as [o Ho].
    apply (targetHash_hashed sha1 sha1_length (c_state p) t0) in Ho as ->; [|done|by apply plain_modify].
    apply bind_run in H as (w6 & [] & H7 & H). rewrite buildLinks_none in H7 by apply Hht1. injection H7 as <-.
    unfold store_outputs in H. rewrite (plain_cache _ Hplain) in H. apply bind_run in H as (w6 & t & [= <- <-] & H).
    cbn [w_target] in H. apply bind_run in H as (w6 & [] & [= <-] & H). unfold cleaned.
    rewrite <- (core_TmpDir _ _ (proj1 Hht1)). destruct (CleanWorkdirs p); [|by injection H as <-].
    apply bind_run in H as (w6 & d & [= <- <-] & [= <-]). done. }
  exists (w_disk w4), fouts. split.
  - exists data. pose proof (plain_outputs _ Hplain) as Hpl. unfold FullOutputs in Hf.
    rewrite (core_Outputs _ _ (proj1 Ht)) in Hf. destruct (outputs_of t0) as [os| |] eqn:Eo; [|done..].
    eapply (moveOutputs_keeps (with_disk w d3)); [| | |exact H5|exact Hmeta]; cbn [with_disk w_target].
    + rewrite (core_Outputs _ _ (proj1 Ht)). exact Eo.
    + intros d. change (Glob p d (target_TmpDir (core (w_target w))) (OptionalOutputs (core (w_target w))) = []). rewrite (proj1 Ht).
      apply (plain_optional _ Hplain).
    + intros out Hin. rewrite (core_TmpDir _ _ (proj1 Ht)), (core_OutDir _ _ (proj1 Ht)), (core_tmp _ _ (proj1 Ht)).
      destruct (Hpl os out eq_refl Hin) as (? & ? & _). done.
  - by rewrite <- (core_FullOutputs _ _ (proj1 Ht)).
  - intros out Hin. rewrite <- (output_relative fouts out); [by eapply outputHash_exist| |done].
    by rewrite <- (core_FullOutputs _ _ (proj1 Ht)).
  - intros Hver Honly. destruct (Hv Hver) as [He|(new & comb & bytes & Hnew & Hb & Hx)].
    + apply Honly. apply Hht1.
    + left. by rewrite <- Hh.
    + right. exists new, comb, bytes. split_and!; [done| |by rewrite <- Hh].
      rewrite <- Hb. symmetry. apply core_outputHash; [apply Ht|by rewrite Hh].
  - by exists t1, fs, t2.
Qed.

(** A build that succeeds has nothing to do, or runs the action. *)
Lemma buildTarget_plain (w w' : world) :
  w_target w = SetState Building t0 -> w_hash w = None -> buildTarget sha1 spare p w = (w', Ok ()) ->
  (exists t, needsBuilding sha1 spare (state_now p (w_disk w)) (files_of (w_disk w)) (w_target w) false = Ok (false, t) /\
     w' = with_target w (SetState Reused t)) \/
  exists d outs, finished w w' d outs.
Proof.
  intros Ht Hn H. unfold buildTarget in H.
  assert (pending0 (w_target w)) as Hp.
  { rewrite Ht. split_and!; [done..|]. left. apply (plain_memo _ Hplain). }
  apply bind_run in H as (w1 & [] & H1 & H). apply run_reads in H1; [|apply validate_reads]. subst w1.
  apply bind_run in H as (w1 & t & [= <- <-] & H). rewrite Ht in H.
  change (PreBuildFunction (SetState Building t0)) with (PreBuildFunction t0) in H. rewrite (plain_pre _ Hplain) in H.
  apply bind_run in H as (w1 & [] & [= <-] & H). apply bind_run in H as (w1 & t & [= <- <-] & H). rewrite Ht, (plain_prepare _ Hplain) in H.
  change (HasLabel (SetState Building t0) "go") with (HasLabel t0 "go") in H. rewrite (plain_go _ Hplain) in H.
  apply bind_run in H as (w1 & [] & [= <-] & H). apply bind_run in H as (w1 & [done haveRun] & Hr & H).
  apply reuse_plain in Hr as (t & Hneeds & Hpt & -> & ->); [|done]. destruct done.
  { injection H as <-. left. exists t. split; [exact Hneeds|done]. }
  right. apply bind_run in H as (w1 & t' & [= <- <-] & H). cbn [w_target with_target] in H.
  assert (IsFilegroup t = false) as Hf.
  { rewrite (core_plain_bool IsFilegroup _ (fun _ => eq_refl) (proj1 Hpt)). apply (plain_filegroup _ Hplain). }
  rewrite Hf in H. apply bind_run in H as (w1 & [] & H1 & H). apply run_disk_only in H1; [|apply prepareDirectories_disk].
  apply bind_run in H as (w2 & old & H2 & H). apply run_reads in H2; [|apply outputHashOrNil_reads]. subst w2.
  apply bind_run in H as (w2 & key & H2 & H). apply mustShortTargetHash_run in H2 as (t1 & Ht1 & Hh1 & ->); [|by rewrite H1].
  apply bind_run in H as (w2 & [got seen] & H2 & H). unfold from_cache in H2.
  apply bind_run in H2 as (w3 & t2 & [= <- <-] & H2). rewrite (plain_cache _ Hplain) in H2. injection H2 as <- <- <-.
  apply run_action_plain in H as (d & outs & Hfin); [| |exact Hh1|by rewrite H1]; [|exact Ht1].
  exists d, outs. by destruct Hfin.
Qed.

(** What is left of a build that finished. *)
Lemma finished_left (w w' : world) d outs :
  finished w w' d outs ->
  let st := state_now p (w_disk w') in let fs := files_of (w_disk w') in
  exists t1 h2 source secret, hashed0 t1 /\ String.length (target_RuleHash t1) = 20 /\ String.length h2 = 20 /\
    sourceHash sha1 st t0 = Ok (Some source) /\ secretHash sha1 st t0 = Some secret /\
    recorded st fs t0 outs (target_RuleHash t1 +:+ h2 +:+ Hashes_Config (c_state p) +:+ source +:+ secret) /\
    FileExists fs (targetBuildMetadataFileName t0) = true /\ forall out, out ∈ outs -> PathExists fs out = true.
Proof.
  intros [[data Hmeta] Houts Hexist _ (t1 & fs & t2 & Ht1 & Hw & ->)] st fs'.
  pose proof (writeRuleHash_shape _ _ _ _ _ _ _ Hw) as (S1 & S2 & S3). pose proof (files_with_files d fs S1 S2 S3) as Hfs.
  assert (t2 = t1) as ->.
  { destruct (writeRuleHash_target _ _ _ _ _ _ _ Hw) as [o Ho]. eapply targetHash_hashed; [done|done| |exact Ho]. by apply plain_modify. }
  destruct (writeRuleHash_inv sha1 sha1_length _ _ _ _ _ Hw) as (h1 & h2 & source & secret & outs1 & H1 & H2 & Hs & Hsec & Ho & Hrec).
  assert (Ok (A := list string) outs1 = Ok outs) as [= ->] by (rewrite <- Ho, <- Houts; apply core_FullOutputs, Ht1).
  assert (h1 = target_RuleHash t1) as ->.
  { rewrite (RuleHash_hashed sha1 sha1_length (c_state p) t0 (state_now p d) t1 false Ht1) in H1 by by apply plain_modify. by injection H1. }
  destruct (cleaned_inputs (with_files d fs)) as [Es Ec]. pose proof (apart_kept _ (plain_apart _ Hplain)) as Hk.
  exists t1, h2, source, secret. split_and!.
  - done.
  - eapply RuleHash_length; [done|eapply hashed_stored; [done|exact Ht1]|exact H1].
  - eapply RuleHash_length; [done|eapply hashed_stored; [done|exact Ht1]|exact H2].
  - unfold st. rewrite Es, <- Hs. symmetry. apply core_sourceHash, Ht1.
  - unfold st. rewrite Ec, <- Hsec. symmetry. apply core_secretHash, Ht1.
  - apply cleaned_recorded; [done|]. rewrite Hfs. destruct Hrec as [R1 R2 R3]. split.
    + exact R1.
    + rewrite (core_fallback _ _ (proj1 Ht1)) in R2. exact R2.
    + rewrite (core_metadata _ _ (proj1 Ht1)) in R3. exact R3.
  - unfold fs'. rewrite cleaned_FileExists by (apply Hk; auto). apply bool_decide_eq_true. cbn.
    rewrite elem_of_dom, Hmeta. split; [by eexists|]. intros [x Hx]%elem_of_dom. apply map_lookup_filter_Some in Hx as [Hx Hd].
    rewrite Hmeta in Hx. injection Hx as <-. done.
  - intros out Hin. specialize (Hexist out Hin). apply bool_decide_eq_true in Hexist. apply bool_decide_eq_true. cbn.
    apply elem_of_dom. rewrite cleaned_nodes by (apply (Hk out); eauto). exact Hexist.
Qed.

Lemma finished_there (w w' : world) d outs out : finished w w' d outs -> out ∈ outs -> Disk.path_exists (w_disk w') out = true.
Proof.
  intros [_ Houts Hexist _ (t1 & fs & t2 & _ & _ & ->)] Hin. unfold Disk.path_exists.
  rewrite cleaned_nodes by (apply (apart_kept _ (plain_apart _ Hplain) out); eauto). exact (Hexist out Hin).
Qed.

Lemma finished_checked (w w' : world) d outs :
  finished w w' d outs -> VerifyHashes p = true -> (forall t, core t = core t0 -> hashes_only p t = false) -> verified (w_disk w') t0 outs.
Proof.
  intros [_ Houts _ Hver (t1 & fs & t2 & _ & _ & ->)] Hv Ho. destruct (Hver Hv Ho) as [He|(new & combine & bytes & Hn & Hb & Hx)]; [by left|].
  right. exists new, combine, bytes. split_and!; [done| |done]. rewrite <- Hb. unfold outputHash.
  apply (outputHash_ext outs). intros out Hin. rewrite (output_relative outs) by done. f_equal.
  destruct (apart_kept _ (plain_apart _ Hplain) out) as (H1 & H2 & _); [eauto|]. rewrite cleaned_hash by done. by apply contents_nodes.
Qed.

Lemma finished_not_needed (w w' : world) d outs :
  String.length (Hashes_Config (c_state p)) = 20 -> finished w w' d outs ->
  exists t, needsBuilding sha1 spare (state_now p (w_disk w')) (files_of (w_disk w')) (SetState Building t0) false = Ok (false, t) /\ pending0 t.
Proof.
  intros Lc Hfin. pose proof (finished_outs _ _ _ _ Hfin) as Houts.
  apply finished_left in Hfin as (t1 & h2 & source & secret & Ht1 & L1 & L2 & Hs & Hsec & Hrec & Hmeta & Hexist).
  set (st := state_now p (w_disk w')) in *. set (fs := files_of (w_disk w')) in *. set (tb := SetState Building t0).
  assert (pending0 tb) as Hp by (split_and!; [done..|left; apply (plain_memo _ Hplain)]).
  assert (exists t3, RuleHash sha1 st tb false false = Ok (target_RuleHash t1, t3) /\ core t3 = core t0) as (t3 & Hrule & Ht3).
  { unfold RuleHash. cbn [orb andb]. rewrite decide_False by (intros E; apply E, (plain_memo _ Hplain)).
    change (ruleHash sha1 st tb false) with (ruleHash sha1 (c_state p) t0 false). rewrite (proj2 Ht1), bind_Ok_l. by eexists. }
  destruct (needsBuilding_recorded sha1 spare sha1_length st fs tb false outs (target_RuleHash t1) h2 (Hashes_Config (c_state p)) source secret
    (Some source)) as (needed & t & Hneeds & Hiff); [done|done|done|by eapply sourceHash_length|by eapply secretHash_length|exact Houts| | | |].
  - by destruct Hrec.
  - intros E. by rewrite plain_modify in E.
  - rewrite Hrule. intros t4 [= <-]. rewrite <- Hs. by apply core_sourceHash.
  - exists t. rewrite Hneeds. assert (needed = false) as ->; [|split; [done|by eapply needsBuilding_pending; [done|apply state_now_same|exact Hp|by apply plain_modify|exact Hneeds]]].
    apply Hiff. split_and!; [exact Hmeta|done|by rewrite Hrule|done| |exact Hexist|apply (plain_forced _ Hplain)]. exact Hsec.
Qed.

Lemma Build_success (w w' : world) :
  w_target w = t0 -> Build sha1 spare p w = (w', Ok None) -> target_state (w_target w') <> Stopped ->
  buildTarget sha1 spare p (with_target w (SetState Building t0)) = (w', Ok ()).
Proof.
  intros Ht H Hs. unfold Build in H. apply bind_run in H as (w1 & [] & [= <-] & H). rewrite Ht in H.
  apply bind_run in H as (w2 & r & (r0 & Hb & Hc)%try_run & H). destruct r as [e|[]].
  - destruct (String.eqb e errStop).
    + apply bind_run in H as (w3 & [] & [= <-] & [= <-]). by destruct Hs.
    + apply bind_run in H as (w3 & r1 & _ & H). by apply bind_run in H as (w4 & [] & _ & [= _]).
  - injection H as <-. destruct r0; cbn in Hc; [|repeat case_match; done|done]. by injection Hc as ->.
Qed.

(** With nothing to do a build only says so. *)
Lemma Build_reused (w : world) t :
  w_target w = t0 -> (validateBuildTargetBeforeBuild p (with_target w (SetState Building t0))).2 = Ok () ->
  needsBuilding sha1 spare (state_now p (w_disk w)) (files_of (w_disk w)) (SetState Building t0) false = Ok (false, t) -> pending0 t ->
  Build sha1 spare p w = (with_target w (SetState Reused t), Ok None).
Proof.
  intros Ht Hv Hn Hp. set (w1 := with_target w (SetState Building t0)) in *.
  assert (buildTarget sha1 spare p w1 = (with_target w (SetState Reused t), Ok ())) as Hb.
  2: { unfold Build. rewrite (run_bind _ _ w w1 ()) by (unfold w1; by rewrite <- Ht). unfold try, mbind, M_bind. rewrite Hb. done. }
  unfold buildTarget.
  assert (validateBuildTargetBeforeBuild p w1 = (w1, Ok ())) as Hv1.
  { pose proof (validate_reads (C := C) p w1) as E. destruct (validateBuildTargetBeforeBuild p w1). cbn in *. by subst. }
  rewrite (run_bind _ _ _ _ _ Hv1), (run_bind _ _ w1 w1 (SetState Building t0)) by done.
  change (PreBuildFunction (SetState Building t0)) with (PreBuildFunction t0). rewrite (plain_pre _ Hplain).
  rewrite (run_bind _ _ w1 w1 ()), (run_bind _ _ w1 w1 (SetState Building t0)) by done. rewrite (plain_prepare _ Hplain).
  change (HasLabel (SetState Building t0) "go") with (HasLabel t0 "go"). rewrite (plain_go _ Hplain), (run_bind _ _ w1 w1 ()) by done.
  rewrite (run_bind _ _ w1 (with_target w (SetState Reused t)) (true, true)); [done|].
  unfold reuse. rewrite (run_bind _ _ w1 w1 (SetState Building t0)) by done.
  change (IsFilegroup (SetState Building t0)) with (IsFilegroup t0). rewrite (plain_filegroup _ Hplain).
  rewrite (run_bind _ _ w1 (with_target w t) false).
  2: { unfold needs_building. cbn [w1 with_target w_disk w_target]. by rewrite Hn. }
  rewrite (run_bind _ _ (with_target w t) (with_target w t) ()).
  2: { unfold reapply_metadata. rewrite (run_bind _ _ _ (with_target w t) t) by done. by rewrite (plain_modify t (proj1 Hp)). }
  rewrite (plain_modify (SetState Building t0)) by done.
  rewrite (run_bind _ _ _ (with_target w t) false), (run_bind _ _ _ (with_target w (SetState Reused t)) ()) by done.
  rewrite (run_bind _ _ _ (with_target w (SetState Reused t)) ()); [done|]. apply buildLinks_none. apply Hp.
Qed.

Lemma not_needed_outputs st fs t t' :
  needsBuilding sha1 spare st fs t false = Ok (false, t') -> core t' = core t0 ->
  exists outs, FullOutputs (home st) (st_graph st) t0 = Ok outs /\ forall out, out ∈ outs -> PathExists fs out = true.
Proof.
  intros H Ht'. unfold needsBuilding in H. destruct (negb (FileExists _ _)); [done|].
  destruct (readRuleHashFromXattrs _ _ _ _ _); [rewrite bind_Ok_l in H|done..]. case_decide; [done|].
  destruct (RuleHash _ _ _ _ _) as [[h t1]| |]; [rewrite bind_Ok_l in H|done..]. case_decide; [done|].
  destruct (sourceHash _ _ _); [rewrite bind_Ok_l in H|done..]. do 2 (case_decide; [done|]).
  destruct (Outputs (home st) (st_graph st) t1) as [os| |] eqn:Eo; [rewrite bind_Ok_l in H|done..].
  destruct (existsb _ os) eqn:Ex; [done|]. injection H as _ ->. unfold FullOutputs.
  rewrite <- (core_Outputs _ _ Ht'), Eo, bind_Ok_l, <- (core_OutDir _ _ Ht'). eexists. split; [done|].
  intros out (o & <- & Ho)%list_elem_of_In%in_map_iff. apply not_false_iff_true. intros E. rewrite <- not_true_iff_false in Ex.
  destruct Ex. apply existsb_exists. exists o. by rewrite E.
Qed.
End steps.

(** ** What is promised *)

Section promises.
Context {C : Type} `{!Cache C}.
Context (sha1 : string -> string) (spare : string -> string) (p : Conf).
Context (sha1_length : forall s, String.length (sha1 s) = 20) (config_length : String.length (Hashes_Config (c_state p)) = 20).


(** C6: After such a build - of a target that only its action builds, without a cache and
    not forced, with the clean-up that follows it or without - every output that the target
    declares is there, and unless they are those of an earlier build they have one of the
    hashes that the target gives, if it gives any and hashes are verified. *)
Theorem built_outputs (w w' : BuildStep.world (C := C)) :
  w_hash w = None -> plain sha1 p (w_target w) -> Build sha1 spare p w = (w', Ok None) -> target_state (w_target w') <> Stopped ->
  exists outs, FullOutputs (host_home p) (st_graph (c_state p)) (w_target w) = Ok outs /\
    (forall out, out ∈ outs -> Disk.path_exists (w_disk w') out = true) /\
    (target_state (w_target w') = Reused /\ w_disk w' = w_disk w \/
     (VerifyHashes p = true -> (forall t, core t = core (w_target w) -> hashes_only p t = false) ->
      verified p (w_disk w') (w_target w) outs)).
Proof.
  intros Hn Hp H Hs. apply (Build_success sha1 spare p (w_target w)) in H; [|done..].
  apply (buildTarget_plain sha1 spare p sha1_length (w_target w) Hp) in H as [(t & Hneeds & ->)|(d & outs & Hfin)]; [| |done..].
  - assert (pending sha1 (c_state p) (w_target w) t) as Hpt.
    { eapply needsBuilding_pending; [done|apply state_now_same| |by eapply plain_modify|exact Hneeds].
      split_and!; [done..|left; apply (plain_memo _ _ _ Hp)]. }
    apply (not_needed_outputs sha1 spare (w_target w)) in Hneeds as (outs & Hout & Hex); [|apply Hpt].
    exists outs. split_and!; [exact Hout| |left; split; reflexivity]. intros out Hin. specialize (Hex out Hin). unfold PathExists in Hex.
    apply bool_decide_eq_true in Hex. change (out ∈ dom (nodes (w_disk w))) in Hex. apply elem_of_dom in Hex.
    by apply bool_decide_eq_true.
  - exists outs. split_and!; [by destruct Hfin| |right].
    + intros out. by eapply finished_there.
    + by eapply finished_checked.
Qed.
End promises.

(** ** A concrete target *)

(** [//p:t] with the hash of what it copies. *)
Definition ex_hashed : BuildTarget := upd_Hashes (fun _ => ["sha1: 3c68656c6c6f3e"]) (ex_target id).

Definition ex_plain_conf : Conf := ex_conf ex_graph false no_post.

Definition ex_first : BuildStep.world (C := unit) := (ex_build ex_hashed ex_disk).1.

Lemma ex_apart : apart pad ex_plain_conf ex_hashed.
Proof.
  split.
  - intros f [->|[->|(outs & Ho & Hf)]]; [vm_compute; done..|].
    assert (outs = ["plz-out/gen/p/out"]) as -> by (vm_compute in Ho; by injection Ho).
    apply list_elem_of_singleton in Hf as ->. vm_compute. done.
  - intros d. split; [|done]. set (d' := RemoveAll d _).
    assert (contents id (fun _ => None) (fun _ => "") "/repo" d' "p/in" false = contents id (fun _ => None) (fun _ => "") "/repo" d "p/in" false) as E.
    { apply contents_ext. intros k Hk. unfold d'. rewrite RemoveAll_nodes. destruct (under (target_TmpDir ex_hashed) k) eqn:Hu; [|done].
      destruct (under_both _ _ _ Hu Hk) as [E|E]; vm_compute in E; done. }
    assert (nodes d' !! "p/in" = nodes d !! "p/in") as En by (unfold d'; by rewrite RemoveAll_nodes).
    assert (forall f, IterSources "/home" f ex_graph ex_hashed false = Ok [("p/in", "plz-out/tmp/p/t._build/p/in")]) as Es
      by (intros f; vm_compute; reflexivity).
    assert (Hash (state_now ex_plain_conf d') "p/in" = Hash (state_now ex_plain_conf d) "p/in") as Eh.
    { unfold Hash, state_now. cbn [Incrementality.path_exists hash_contents]. unfold Disk.path_exists, hash_at, hash_of.
      assert (ensureRelative (root ex_plain_conf) "p/in" = "p/in") as -> by done. rewrite En. case_bool_decide; [|done].
      assert (forall a b : option string, a = b -> match option_map (new_hash ex_plain_conf) a with Some h => inl h | None => inr false end =
        match option_map (new_hash ex_plain_conf) b with Some h => inl (B := bool) h | None => inr false end) as Hc by (by intros ? ? ->).
      apply Hc. exact E. }
    unfold sourceHash, source_input. cbn [home on_path st_graph state_now c_state ex_plain_conf ex_conf]. rewrite !Es.
    cbn [mbind res_bind map hash_paths fst]. by rewrite Eh.
Qed.

Lemma ex_plain : plain pad ex_plain_conf ex_hashed.
Proof.
  split; try reflexivity.
  - exact ex_apart.
  - intros name new size H. by apply not_elem_of_nil in H.
  - intros outs out Ho. assert (outs = ["out"]) as -> by (vm_compute in Ho; by injection Ho).
    intros ->%list_elem_of_singleton. vm_compute. done.
Qed.


Lemma built_outputs_witness :
  exists outs, FullOutputs "/home" ex_graph ex_hashed = Ok outs /\ (forall out, out ∈ outs -> Disk.path_exists (w_disk ex_first) out = true) /\
    verified ex_plain_conf (w_disk ex_first) ex_hashed outs.
Proof.
  destruct (built_outputs pad (fun _ => "") ex_plain_conf pad_length (ex_world ex_hashed ex_disk) ex_first)
    as (outs & Ho & Hex & Hv).
  - reflexivity.
  - exact ex_plain.
  - vm_compute. reflexivity.
  - vm_compute. discriminate.
  - exists outs. split_and!; [exact Ho|exact Hex|]. destruct Hv as [[Hs _]|Hv]; [vm_compute in Hs; discriminate|].
    apply Hv; [reflexivity|reflexivity].
Defined.

(** ** Where the code does not do what it means to *)

(** A post-build function that can be seen to have run. *)
Definition ex_post (_ : string) (t : BuildTarget) : res BuildTarget := Ok (upd_Labels (fun l => l ++ ["ran"]) t).

Definition ex_posted (hash : string) : BuildTarget :=
  upd_PostBuildFunction (fun _ => true) (upd_Hashes (fun _ => [hash]) (ex_target id)).

Definition ex_twice (t : BuildTarget) : BuildStep.world (C := unit) * BuildStep.world (C := unit) :=
  let build d := (Build pad (fun _ => "") (ex_conf ex_graph false ex_post) (ex_world t d)).1 in
  let w1 := build ex_disk in (w1, build (w_disk w1)).

(** The first build of a target with a prefix on its hash removes the prefix from the target
    itself, so the hash of its rule that is recorded for after the post-build function is
    not the one the next build calculates: it is built again for no reason, and its
    post-build function runs twice in one build, which it is meant never to do. *)
Lemma prefixed_hash_rebuilds :
  let '(w1, w2) := ex_twice (ex_posted "3c68656c6c6f3e") in
  let '(v1, v2) := ex_twice (ex_posted "sha1: 3c68656c6c6f3e") in
  target_state (w_target w1) = Built /\ target_state (w_target w2) = Reused /\ target_Labels (w_target w2) = ["ran"] /\
  target_state (w_target v1) = Built /\ target_state (w_target v2) = Unchanged /\ target_Labels (w_target v2) = ["ran"; "ran"].
Proof. vm_compute. done. Qed.

(** A build with a cache that has a target's files. *)
Definition ex_cached (conf : Conf) (t : BuildTarget) (stored : string) (d : disk) : BuildStep.world (C := kept) * res (option string) :=
  let key := from_Ok "" (snd (mustShortTargetHash pad conf (ex_world t d))) in
  let file data : gmap string node := {["" := NFile data]} in
  let c : kept := {[("//p:t", key) := {["out" := file stored; ".target_build_metadata_t" := file "done"]}]} in
  Build pad (fun _ => "") conf (MkWorld d c t None ∅).

Definition ex_cache_conf : Conf := ex_conf ex_graph true no_post.

(** Files as they were built, without the metadata. *)
Definition ex_built_disk : disk := RemoveAll (w_disk ex_first) "plz-out/gen/p/.target_build_metadata_t".

(** A single output that is the same in the cache counts as changed: the hash of the old
    one is combined with its name, that of the new one is not. *)
Lemma cached_never_unchanged :
  let '(w, r) := ex_cached ex_cache_conf (ex_target id) "hello" ex_built_disk in
  r = Ok None /\ target_state (w_target w) = Cached /\
  nodes (w_disk w) !! "plz-out/gen/p/out" = nodes ex_built_disk !! "plz-out/gen/p/out".
Proof. vm_compute. done. Qed.

(** What is retrieved from the cache and has the wrong hash is thrown away, but its hash
    is remembered as the target's: the build that follows fails, although the output it
    makes has the right hash. *)
Lemma bad_cache_fails_build :
  (ex_cached ex_cache_conf ex_hashed "bad" ex_disk).2 = Ok (Some "Bad output hash for rule //p:t") /\
  (ex_build ex_hashed ex_disk).2 = Ok None.
Proof. vm_compute. done. Qed.
