(* ===== verification/DirCache.v ===== *)
(** The caches: [src/cache/dir_cache.go], and those made of others or of nothing
    ([cache.go], [async_cache.go], [noop.go]).

    The cache keeps a tree of its own, by absolute paths, apart from the repo, whose paths
    are relative to it.  A hard link is a copy that keeps its attributes; the encoding of
    archives, times of access and the sizes of directories are parameters.  Locks, the
    permissions of files and a cleaner at work at the same time are left out. *)
From S2P Require Import Prelude GoStrings Labels Targets Inputs GoText Commands Incrementality Disk Paths PathHasher BuildStep BuildRuns.
From Stdlib Require Import Ascii.

#[local] Open Scope Z_scope.

(** ** State *)

(** Why a file could not be made: something is missing on the way, or anything else. *)
Inductive io_err := NotExist | OtherError.

Record DirConf := MkDirConf {
  Dir : string;
  Compress : bool;
  can_link : bool;
  cache_walk : list string -> list string;
  (** [tar] and [gzip]: the files in an archive, and whether it could be read to its end *)
  tar : list (string * node) -> string;
  untar : string -> list (string * node) * bool;
  (** the time of access, unless it cannot be told *)
  atime : string -> option Z;
  dir_size : Z;
  (** [sort.Slice], with the comparison of two elements *)
  sort_slice : (string * Z * Z -> string * Z * Z -> bool) -> list (string * Z * Z) -> list (string * Z * Z);
}.

Record dircache := MkDirCache {
  c_disk : disk;
  added : gmap string Z;
}.

Definition uint64 (z : Z) : Z := z mod 2 ^ 64.

Section dir.
Context (conf : DirConf).

Definition Suffix : string := if Compress conf then ".tar.gz" else "".

(** [base64.URLEncoding], with its padding *)
Definition padded (key : string) : string :=
  base64 true key +:+ (match (String.length key mod 3)%nat with 1%nat => "==" | 2%nat => "=" | _ => "" end).

(** [getFullPath] *)
Definition getFullPath (t : BuildTarget) (key extra suffix : string) : string :=
  let extra := if Compress conf then ReplaceAll extra "/" "_" else "" in
  path_join [Dir conf; PackageName (Label t); Name (Label t); padded key] +:+ extra +:+ suffix +:+ Suffix.

Definition getPath (t : BuildTarget) (key extra : string) : string := getFullPath t key extra "".

(** [markDir] *)
Definition markDir (path : string) (size : Z) (c : dircache) : dircache :=
  MkDirCache (c_disk c) (<[path +:+ "=" := size]> (<[path := size]> (added c))).

Definition with_disk (d : disk) (c : dircache) : dircache := MkDirCache d (added c).

(** ** Linking files *)

(** The directories that a path needs. *)
Definition above (p : string) : list string := List.filter (fun q => negb (String.eqb q p)) (parents p).

Definition is_dir (d : disk) (p : string) : bool := bool_decide (nodes d !! p = Some NDir).

Definition can_create (d : disk) (p : string) : bool := forallb (is_dir d) (above p) && negb (path_exists d p).

Definition put (p : string) (n : node) (d : disk) : disk :=
  MkDisk (<[p := n]> (nodes d)) (delete p (rule_attrs d)) (delete p (hash_attrs d)) (stand_ins d).

Definition set_opt (p : string) (o : option string) (m : gmap string string) : gmap string string :=
  match o with Some s => <[p := s]> m | None => delete p m end.

(** A hard link, to a file of another tree *)
Definition hard_link (from : disk) (src dest data : string) (to : disk) : disk :=
  MkDisk (<[dest := NFile data]> (nodes to)) (set_opt dest (rule_attrs from !! src) (rule_attrs to))
    (set_opt dest (hash_attrs from !! src) (hash_attrs to)) (stand_ins to).

(** [CopyFile] *)
Definition copy_file (dest data : string) (to : disk) : disk * bool :=
  match MkdirAll to (path_dir dest) with
  | None => (to, false)
  | Some to => if is_dir to dest then (to, false) else (put dest (NFile data) to, true)
  end.

(** [CopyOrLinkFile], for links that fall back to a copy, or the directory for a directory *)
Definition link_entry (from : disk) (src dest : string) (to : disk) : disk * bool :=
  match nodes from !! src with
  | None => (to, false)
  | Some NDir => match MkdirAll to dest with Some to => (to, true) | None => (to, false) end
  | Some (NLink l) => if can_create to dest then (put dest (NLink l) to, true) else (to, false)
  | Some (NFile data) =>
      if can_link conf && can_create to dest then (hard_link from src dest data to, true) else copy_file dest data to
  end.

Fixpoint link_all (from : disk) (p q : string) (l : list string) (to : disk) : disk * bool :=
  match l with
  | [] => (to, true)
  | s :: l => let '(to, ok) := link_entry from (p +:+ s) (q +:+ s) to in if ok : bool then link_all from p q l to else (to, false)
  end.

(** [RecursiveLink] *)
Definition RecursiveLink (from : disk) (p q : string) (to : disk) : disk * bool :=
  match nodes from !! p with
  | None => (to, false)
  | Some NDir => link_all from p q (cache_walk conf (sorted_keys (subtree p (nodes from)))) to
  | Some _ => link_entry from p q to
  end.

(** ** Storing *)

Definition node_size (n : node) : Z :=
  match n with NFile s | NLink s => Z.of_nat (String.length s) | NDir => dir_size conf end.

(** [findSize] *)
Definition findSize (d : disk) (path : string) : Z :=
  foldl (fun total kv => uint64 (total + node_size kv.2)) 0 (map_to_list (subtree path (nodes d))).

(** [ensureStoreReady] *)
Definition ensureStoreReady (filename : string) (d : disk) : option disk :=
  d ← MkdirAll d (path_dir filename); Some (RemoveAll d filename).

(** [storeFile] *)
Definition storeFile (repo : disk) (t : BuildTarget) (out cacheDir : string) (d : disk) : disk * Z :=
  let outFile := path_join [target_OutDir t; out] in
  let cachedFile := path_join [cacheDir; out] in
  match ensureStoreReady cachedFile d with
  | None => (d, 0)
  | Some d => let '(d, _) := RecursiveLink repo outFile cachedFile d in (d, findSize d cachedFile)
  end.

(** What goes into an archive of a file or directory; nothing if it is not there. *)
Definition tar_entries (repo : disk) (t : BuildTarget) (file : string) : option (list (string * node)) :=
  let outDir := target_OutDir t in
  let path := path_join [outDir; file] in
  match nodes repo !! path with
  | None => None
  | Some _ =>
      mapM (fun s =>
        n ← nodes repo !! (path +:+ s);
        Some (trim_left (if has_prefix (path +:+ s) outDir then str_drop (String.length outDir) (path +:+ s) else path +:+ s) "/", n))
        (cache_walk conf (sorted_keys (subtree path (nodes repo))))
  end.

(** [storeCompressed] *)
Definition storeCompressed (repo : disk) (t : BuildTarget) (filename : string) (files : list string) (d : disk) : disk * Z :=
  match ensureStoreReady filename d with
  | None => (RemoveAll d filename, 0)
  | Some d =>
      match mapM (tar_entries repo t) files with
      | None => (RemoveAll d filename, 0)
      | Some entries => let data := tar conf (concat entries) in (put filename (NFile data) d, node_size (NFile data))
      end
  end.

(** [storeFiles] *)
Definition store_all (repo : disk) (t : BuildTarget) (tmpDir : string) (files : list string) (d : disk) : disk * Z :=
  foldl (fun '(d, total) out => let '(d, size) := storeFile repo t out tmpDir d in (d, uint64 (total + size))) (d, 0) files.

Definition storeFiles (repo : disk) (t : BuildTarget) (cacheDir tmpDir : string) (files : list string) (c : dircache) : dircache :=
  let '(d, totalSize) :=
    if Compress conf then storeCompressed repo t tmpDir files (c_disk c) else store_all repo t tmpDir files (c_disk c) in
  markDir cacheDir totalSize (with_disk d c).

(** [Store] *)
Definition dir_Store (c : dircache) (repo : disk) (t : BuildTarget) (key : string) (files : list string) : dircache :=
  let cacheDir := getPath t key "" in
  let tmpDir := getFullPath t key "" "=" in
  let c := markDir cacheDir 0 c in
  let c := with_disk (RemoveAll (c_disk c) cacheDir) c in
  let c := storeFiles repo t cacheDir tmpDir files c in
  if path_exists (c_disk c) tmpDir then with_disk (Rename (c_disk c) tmpDir cacheDir) c else c.

(** ** Retrieving *)

(** [ensureRetrieveReady] *)
Definition ensureRetrieveReady (t : BuildTarget) (out : string) (repo : disk) : disk + io_err :=
  let fullOut := path_join [target_OutDir t; out] in
  match (if contains_byte "/" out then MkdirAll repo (path_dir fullOut) else Some repo) with
  | None => inr OtherError
  | Some repo => inl (RemoveAll repo fullOut)
  end.

(** The files of an archive, one by one *)
Definition retrieve_entry (t : BuildTarget) (out : string) (n : node) (repo : disk) : disk * option io_err :=
  match ensureRetrieveReady t out repo with
  | inr e => (repo, Some e)
  | inl repo =>
      let fullOut := path_join [target_OutDir t; out] in
      match n with
      | NDir => match MkdirAll repo fullOut with Some repo => (repo, None) | None => (repo, Some OtherError) end
      | _ =>
          if forallb (is_dir repo) (above fullOut) then (put fullOut n repo, None)
          else (repo, Some (if existsb (file_exists repo) (above fullOut) then OtherError else NotExist))
      end
  end.

Fixpoint retrieve_entries (t : BuildTarget) (l : list (string * node)) (repo : disk) : disk * option io_err :=
  match l with
  | [] => (repo, None)
  | (out, n) :: l =>
      match retrieve_entry t out n repo with
      | (repo, None) => retrieve_entries t l repo
      | r => r
      end
  end.

(** [retrieveCompressed] *)
Definition retrieveCompressed (d : disk) (t : BuildTarget) (filename : string) (repo : disk) : disk * option io_err :=
  match nodes d !! filename with
  | Some (NFile data) =>
      let '(entries, ok) := untar conf data in
      match retrieve_entries t entries repo with
      | (repo, None) => (repo, if ok : bool then None else Some OtherError)
      | r => r
      end
  | _ => (repo, Some OtherError)
  end.

Fixpoint retrieve_outs (d : disk) (t : BuildTarget) (cacheDir : string) (outs : list string) (repo : disk) : disk * bool :=
  match outs with
  | [] => (repo, true)
  | out :: outs =>
      match ensureRetrieveReady t out repo with
      | inr _ => (repo, false)
      | inl repo =>
          let '(repo, ok) := RecursiveLink d (path_join [cacheDir; out]) (path_join [target_OutDir t; out]) repo in
          if ok : bool then retrieve_outs d t cacheDir outs repo else (repo, false)
      end
  end.

(** [Retrieve]: an error that something does not exist counts as found. *)
Definition dir_Retrieve (c : dircache) (repo : disk) (t : BuildTarget) (key : string) (outs : list string) : dircache * disk * bool :=
  let cacheDir := getPath t key "" in
  if negb (path_exists (c_disk c) cacheDir) then (c, repo, false)
  else
    let c := markDir cacheDir 0 c in
    match outs with
    | [] => (c, repo, true)
    | _ =>
        if Compress conf then
          let '(repo, err) := retrieveCompressed (c_disk c) t cacheDir repo in
          (c, repo, match err with Some OtherError => false | _ => true end)
        else let '(repo, ok) := retrieve_outs (c_disk c) t cacheDir outs repo in (c, repo, ok)
    end.

(** [Clean] *)
Definition dir_Clean (c : dircache) (t : BuildTarget) : dircache :=
  with_disk (RemoveAll (c_disk c) (path_join [Dir conf; PackageName (Label t); Name (Label t)])) c.

#[global] Instance dir_cache : Cache dircache := { Store := dir_Store; Retrieve := dir_Retrieve; Clean := dir_Clean }.

(** ** Cleaning *)

(** [cacheEntry]: the path, the size and the time of access *)
Definition cacheEntry : Type := string * Z * Z.

(** [shouldClean] *)
Definition is_equals (i : nat) (s : string) : bool := bool_decide (String.get i s = Some "="%char).

Definition shouldClean (name : string) (isDir : bool) : bool :=
  if Bool.eqb (Compress conf) isDir then false
  else if negb (has_suffix name Suffix) then false
  else
    let name := str_take (String.length name - String.length Suffix) name in
    let n := String.length name in
    ((n =? 28) || (n =? 29))%nat && is_equals 27 name || ((n =? 44) || (n =? 45))%nat && is_equals 43 name.

(** What is found of the cache: a directory that is an entry is not looked into. *)
Record scan := MkScan {
  skipped_below : option string;
  entries : list cacheEntry;
  scanned : Z;
  scan_failed : bool;
}.

Definition scan_step (c : dircache) (s : scan) (path : string) : scan :=
  if scan_failed s || match skipped_below s with Some p => under p path | None => false end then s
  else
    let isDir := is_dir (c_disk c) path in
    let skip := if Compress conf then skipped_below s else Some path in
    if shouldClean (path_base path) isDir then
      match added c !! path with
      | Some size => MkScan skip (entries s) (uint64 (scanned s + size)) false
      | None =>
          let size := findSize (c_disk c) path in
          match atime conf path with
          | None => MkScan None (entries s) (scanned s) true
          | Some time => MkScan skip (entries s ++ [(path, size, time)]) (uint64 (scanned s + size)) false
          end
      end
    else s.

Definition scan_cache (c : dircache) : scan :=
  foldl (scan_step c) (MkScan None [] 0 false)
    (map (fun s => Dir conf +:+ s) (cache_walk conf (sorted_keys (subtree (Dir conf) (nodes (c_disk c)))))).

(** [os.Rename], to where an empty directory, a file or nothing is. *)
Definition can_rename (d : disk) (p q : string) : bool :=
  match nodes d !! p, nodes d !! q with
  | None, _ => false
  | Some _, None => true
  | Some NDir, Some NDir => bool_decide (size (subtree q (nodes d)) = 1%nat)
  | Some NDir, Some _ | Some _, Some NDir => false
  | Some _, Some _ => true
  end.

(** [cleanPath] *)
Definition cleanPath (d : disk) (path : string) : option disk :=
  if can_rename d path (path +:+ "=") then Some (RemoveAll (Rename d path (path +:+ "=")) (path +:+ "=")) else None.

(** [clean], once it is known what there is *)
Fixpoint clean_loop (lowWaterMark : Z) (l : list cacheEntry) (c : dircache) (totalSize : Z) : dircache * Z :=
  match l with
  | [] => (c, totalSize)
  | (path, size, _) :: l =>
      match added c !! path with
      | Some _ => clean_loop lowWaterMark l c totalSize
      | None =>
          match cleanPath (c_disk c) path with
          | None => clean_loop lowWaterMark l c totalSize
          | Some d =>
              let totalSize := uint64 (totalSize - size) in
              if totalSize <? lowWaterMark then (with_disk d c, totalSize) else clean_loop lowWaterMark l (with_disk d c) totalSize
          end
      end
  end.

(** The comparison that entries are sorted by: those used longer ago come first, and of
    those used at about the same time the larger ones. *)
Definition accessTimeGracePeriod : Z := 600.

Definition cleaned_before (e e' : cacheEntry) : bool :=
  let '(_, size, time) := e in
  let '(_, size', time') := e' in
  let diff := time - time' in
  if (- accessTimeGracePeriod <? diff) && (diff <? accessTimeGracePeriod) then size' <? size else time <? time'.

Definition dir_clean (highWaterMark lowWaterMark : Z) (c : dircache) : dircache * Z :=
  let s := scan_cache c in
  if scan_failed s then (c, scanned s)
  else if scanned s <? highWaterMark then (c, scanned s)
  else clean_loop lowWaterMark (sort_slice conf cleaned_before (entries s)) c (scanned s).
End dir.

(** ** Caches of others *)

(** [noopCache] *)
Definition noopCache : Type := unit.

#[global] Instance noop_cache : Cache noopCache := {
  Store c _ _ _ _ := c;
  Retrieve c d _ _ _ := (c, d, false);
  Clean c _ := c;
}.

(** [cacheMultiplexer] *)
Section multiplexer.
Context {C : Type} `{!Cache C}.

(** [storeUntil]: the caches are apart, so it does not matter that they store at the same time. *)
Fixpoint storeUntil (caches : list C) (d : disk) (t : BuildTarget) (key : string) (files : list string) (stopAt : nat) : list C :=
  match caches, stopAt with
  | c :: caches, S stopAt => Store c d t key files :: storeUntil caches d t key files stopAt
  | _, _ => caches
  end.

(** The first cache that has it; those before may have changed the disk. *)
Fixpoint retrieve_first (caches : list C) (d : disk) (t : BuildTarget) (key : string) (files : list string) :
    list C * disk * option nat :=
  match caches with
  | [] => ([], d, None)
  | c :: caches =>
      let '(c, d, ok) := Retrieve c d t key files in
      if ok : bool then (c :: caches, d, Some 0%nat)
      else let '(caches, d, i) := retrieve_first caches d t key files in (c :: caches, d, option_map S i)
  end.

Definition mplex_Retrieve (caches : list C) (d : disk) (t : BuildTarget) (key : string) (files : list string) : list C * disk * bool :=
  let '(caches, d, i) := retrieve_first caches d t key files in
  match i with
  | Some i => (storeUntil caches d t key files i, d, true)
  | None => (caches, d, false)
  end.

#[global] Instance cacheMultiplexer : Cache (list C) := {
  Store caches d t key files := storeUntil caches d t key files (length caches);
  Retrieve := mplex_Retrieve;
  Clean caches t := map (fun c => Clean c t) caches;
}.
End multiplexer.

(** [asyncCache]: requests to store are taken by workers, who do as the cache behind says;
    retrieving and cleaning are done at once. *)
Record cacheRequest := MkRequest { rq_target : BuildTarget; rq_key : string; rq_files : list string }.

Section async.
Context {C : Type} `{!Cache C} (Workers : nat).

(** The requests that workers are at, and those that were made in all *)
Record asyncCache := MkAsync { in_flight : list cacheRequest; requested : list cacheRequest; realCache : C }.

Definition store_request (c : C) (d : disk) (r : cacheRequest) : C := Store c d (rq_target r) (rq_key r) (rq_files r).

(** Steps, with the disk as it is then and the request that was dealt with: one that a worker
    is free for, a worker that is done, and what is done at once. *)
Inductive async_step (d : disk) : asyncCache -> option cacheRequest -> asyncCache -> Prop :=
  | async_Store a r :
      (length (in_flight a) < Workers)%nat ->
      async_step d a None (MkAsync (in_flight a ++ [r]) (requested a ++ [r]) (realCache a))
  | async_run a l1 r l2 :
      in_flight a = l1 ++ r :: l2 ->
      async_step d a (Some r) (MkAsync (l1 ++ l2) (requested a) (store_request (realCache a) d r))
  | async_Retrieve a t key files :
      async_step d a None (MkAsync (in_flight a) (requested a) (Retrieve (realCache a) d t key files).1.1)
  | async_Clean a t : async_step d a None (MkAsync (in_flight a) (requested a) (Clean (realCache a) t)).

(** The requests that were dealt with, in order *)
Inductive async_steps (c : C) : list cacheRequest -> asyncCache -> Prop :=
  | async_start : async_steps c [] (MkAsync [] [] c)
  | async_more l a d o a' : async_steps c l a -> async_step d a o a' -> async_steps c (l ++ option_list o) a'.

(** When nothing is in flight, which [Shutdown] waits for, everything was stored once. *)
Lemma async_steps_spec c l a :
  async_steps c l a -> Permutation (requested a) (l ++ in_flight a) /\ (length (in_flight a) <= Workers)%nat.
Proof.
  induction 1 as [|l a d o a' _ [IH Hw] Hs]; [cbn; split; [done|lia]|]. inversion Hs; subst; clear Hs; cbn.
  - rewrite IH, app_nil_r, app_assoc, length_app. cbn. split; [done|lia].
  - rewrite IH. rewrite H in *. rewrite length_app in *. cbn in Hw. split; [|lia].
    rewrite <- app_assoc. cbn. apply Permutation_app_head. by rewrite Permutation_middle.
  - by rewrite app_nil_r.
  - by rewrite app_nil_r.
Qed.
End async.

(** ** Copies of trees *)

Lemma sorted_keys_perm {A} (m : gmap string A) : Permutation (sorted_keys m) (map_to_list m).*1.
Proof. unfold sorted_keys, sort_strings. apply merge_sort_Permutation. Qed.

Lemma elem_of_sorted_keys {A} (m : gmap string A) k : k ∈ sorted_keys m <-> is_Some (m !! k).
Proof.
  rewrite sorted_keys_perm, list_elem_of_fmap. split.
  - intros ([k' x] & -> & Hx%elem_of_map_to_list). by eexists.
  - intros [x Hx]. exists (k, x). split; [done|]. by apply elem_of_map_to_list.
Qed.

Lemma sorted_keys_NoDup {A} (m : gmap string A) : NoDup (sorted_keys m).
Proof. rewrite sorted_keys_perm. apply NoDup_fst_map_to_list. Qed.

Section trees.
Context (conf : DirConf).

Lemma above_spec q p : q ∈ above p <-> q <> "" /\ under q p = true /\ q <> p.
Proof.
  unfold above. rewrite list_elem_of_In, filter_In, <- list_elem_of_In, parents_spec, negb_true_iff, String.eqb_neq. tauto.
Qed.

Lemma all_dirs d l : forallb (is_dir d) l = true <-> forall q, q ∈ l -> nodes d !! q = Some NDir.
Proof.
  rewrite forallb_forall. split; intros H q Hq.
  - apply list_elem_of_In in Hq. specialize (H q Hq). by apply bool_decide_eq_true in H.
  - apply bool_decide_eq_true, H. by apply list_elem_of_In.
Qed.

Lemma mkdir_nodes (l : list string) (m : gmap string node) p :
  (forall q, q ∈ l -> q <> p -> m !! q = Some NDir) ->
  foldr (fun q m => if m !! q then m else <[q := NDir]> m) m l = if decide (p ∈ l /\ m !! p = None) then <[p := NDir]> m else m.
Proof.
  induction l as [|q l IH]; intros H; cbn [foldr].
  { rewrite decide_False; [done|]. intros [Hp _]. by apply not_elem_of_nil in Hp. }
  rewrite IH by (intros x Hx; apply H; by right). destruct (decide (q = p)) as [->|Hne].
  - destruct (decide (p ∈ l /\ m !! p = None)) as [[Hl Hm]|Hno].
    + rewrite lookup_insert_eq. rewrite decide_True; [done|]. split; [by left|done].
    + destruct (m !! p) as [n|] eqn:Hm.
      * rewrite decide_False; [done|]. by intros [_ [=]].
      * rewrite decide_True; [done|]. split; [by left|done].
  - assert (m !! q = Some NDir) as Hq by (apply H; [by left|done]).
    destruct (decide (p ∈ l /\ m !! p = None)) as [[Hl Hm]|Hno].
    + rewrite lookup_insert_ne by done. rewrite Hq. rewrite decide_True; [done|]. split; [by right|done].
    + rewrite Hq. rewrite decide_False; [done|]. intros [[->|Hl]%elem_of_cons Hm]; [done|]. by apply Hno.
Qed.

(** The last directory is made where only that is missing. *)
Lemma MkdirAll_last d p :
  p <> "" -> (forall q, q ∈ above p -> nodes d !! q = Some NDir) -> nodes d !! p = None \/ nodes d !! p = Some NDir ->
  MkdirAll d p = Some (MkDisk (if decide (nodes d !! p = None) then <[p := NDir]> (nodes d) else nodes d) (rule_attrs d) (hash_attrs d) (stand_ins d)).
Proof.
  intros Hne Ha Hp. unfold MkdirAll.
  assert (forall q, q ∈ parents p -> q <> p -> nodes d !! q = Some NDir) as Hd.
  { intros q [Hq1 Hq2]%parents_spec Hq. apply Ha, above_spec. done. }
  assert (existsb (fun q => match nodes d !! q with Some (NFile _) => true | _ => false end) (parents p) = false) as ->.
  { apply not_true_iff_false. intros (q & Hq & Hf)%existsb_exists. apply list_elem_of_In in Hq.
    destruct (decide (q = p)) as [->|Hqp]; [by destruct Hp as [Hp|Hp]; rewrite Hp in Hf|by rewrite Hd in Hf]. }
  do 2 f_equal. rewrite (mkdir_nodes _ _ p Hd). destruct (decide (nodes d !! p = None)) as [E|E].
  - rewrite decide_True; [done|]. split; [|done]. apply parents_spec. split; [done|apply under_refl].
  - rewrite decide_False; [done|]. by intros [_ ?].
Qed.

Lemma MkdirAll_there d p : p <> "" -> nodes d !! p = Some NDir -> (forall q, q ∈ above p -> nodes d !! q = Some NDir) -> MkdirAll d p = Some d.
Proof. intros Hne Hp Ha. rewrite MkdirAll_last by auto. rewrite decide_False by congruence. by destruct d. Qed.

(** A path whose directory is what is just above it *)
Definition proper (p : string) : Prop := exists q c, p = q +:+ "/" +:+ c /\ clean q = true /\ good c = true.

Lemma proper_not_nil p : proper p -> p <> "".
Proof. intros (q & c & -> & Hq & _). by destruct q. Qed.

Lemma proper_dir p : proper p -> path_dir p <> "" /\ path_dir p ∈ above p /\ (forall q, q ∈ above (path_dir p) -> q ∈ above p).
Proof.
  intros (q & c & -> & Hq & Hc). rewrite path_dir_join by done. pose proof (proj1 (good_spec c) Hc) as (_ & _ & _ & Hs).
  assert (forall r, under r q = true -> r <> q +:+ "/" +:+ c) as Hne.
  { intros r (s & _ & ->)%under_spec He. apply (f_equal String.length) in He. rewrite !str_length_app in He. cbn in He. lia. }
  split_and!; [by apply clean_not_nil| |].
  - apply above_spec. split_and!; [by apply clean_not_nil|apply under_spec; exists ("/" +:+ c); split; [apply is_below_slash|done]|apply Hne, under_refl].
  - intros r (H1 & H2 & H3)%above_spec. apply above_spec. split_and!; [done|apply under_dir; auto|by apply Hne].
Qed.

Lemma copy_file_run dest data to :
  proper dest -> can_create to dest = true -> copy_file dest data to = (put dest (NFile data) to, true).
Proof.
  intros Hp [Hd Hn]%andb_true_iff. rewrite all_dirs in Hd. unfold copy_file. destruct (proper_dir dest Hp) as (H1 & H2 & H3).
  rewrite MkdirAll_there; [|done|by apply Hd|intros q Hq; by apply Hd, H3].
  unfold is_dir. apply negb_true_iff, bool_decide_eq_false in Hn. rewrite bool_decide_false; [done|]. intros E. apply Hn. rewrite E. by eexists.
Qed.

(** One file of a tree *)
Lemma link_entry_run from src dest to n :
  proper dest -> nodes from !! src = Some n -> can_create to dest = true ->
  exists to', link_entry conf from src dest to = (to', true) /\ nodes to' = <[dest := n]> (nodes to).
Proof.
  intros Hp Hn Hc. unfold link_entry. rewrite Hn. destruct n as [data| |l].
  - rewrite Hc, andb_true_r. destruct (can_link conf); [by eexists|]. rewrite copy_file_run by done. by eexists.
  - apply andb_true_iff in Hc as [Hd Hx]. rewrite all_dirs in Hd. apply negb_true_iff, bool_decide_eq_false in Hx.
    assert (nodes to !! dest = None) as E by (destruct (nodes to !! dest); [by destruct Hx|done]).
    rewrite MkdirAll_last; [|by apply proper_not_nil|done|by left]. eexists. split; [done|]. by rewrite decide_True.
  - rewrite Hc. by eexists.
Qed.

Lemma proper_clean p : proper p -> clean p = true.
Proof. intros (q & c & -> & Hq & Hc). apply clean_join; [done|by apply good_local]. Qed.

Lemma proper_below p s : proper p -> local s = true -> proper (p +:+ "/" +:+ s).
Proof. intros Hp Hs. destruct (clean_last p s (proper_clean p Hp) Hs) as (p' & c & -> & Hp' & Hc & _). by exists p', c. Qed.

(** A tree in which files are in directories and have proper names *)
Definition tree_ok (d : disk) (p : string) : Prop :=
  forall s, is_below s = true -> is_Some (nodes d !! (p +:+ s)) ->
    (s = "" \/ exists s', s = "/" +:+ s' /\ local s' = true) /\
    forall r, is_below r = true -> under r s = true -> r <> s -> nodes d !! (p +:+ r) = Some NDir.

(** Walking a tree visits what is in it, directories before what is in them. *)
Definition walks : Prop :=
  forall l, Permutation (cache_walk conf l) l /\
    forall l1 s l2 r, cache_walk conf l = l1 ++ s :: l2 -> r ∈ l -> under r s = true -> r <> s -> r ∈ l1.

Context (Hwalk : walks) (from : disk) (p q : string) (to : disk).
Context (Hfrom : tree_ok from p) (Hq : proper q) (Habove : forall x, x ∈ above q -> nodes to !! x = Some NDir).
Context (Hfree : forall k, under q k = true -> nodes to !! k = None).

Definition linked (l : list string) (to' : disk) : Prop :=
  forall k, nodes to' !! k =
    if under q k then (if decide (str_drop (String.length q) k ∈ l) then nodes from !! (p +:+ str_drop (String.length q) k) else None)
    else nodes to !! k.

Lemma linked_step l1 s l2 to1 :
  cache_walk conf (sorted_keys (subtree p (nodes from))) = l1 ++ s :: l2 -> linked l1 to1 ->
  exists to2, link_entry conf from (p +:+ s) (q +:+ s) to1 = (to2, true) /\ linked (l1 ++ [s]) to2.
Proof.
  intros Hl H1. set (l := sorted_keys _) in *. destruct (Hwalk l) as [Hp Hbefore].
  assert (forall s, s ∈ l <-> is_below s = true /\ is_Some (nodes from !! (p +:+ s))) as Hin.
  { intros x. unfold l. rewrite elem_of_sorted_keys, lookup_subtree. destruct (is_below x); [naive_solver|].
    split; [by intros [? [=]]|by intros [[=]]]. }
  assert (s ∈ l) as Hs by (rewrite <- Hp, Hl; apply elem_of_app; right; by left).
  assert (s ∉ l1) as Hnew.
  { intros H. assert (NoDup (l1 ++ s :: l2)) as Hnd by (rewrite <- Hl, Hp; apply sorted_keys_NoDup).
    apply NoDup_app in Hnd as (_ & Hd & _). apply (Hd s H). by left. }
  apply Hin in Hs as [Hb [n Hn]]. destruct (Hfrom s Hb (ex_intro _ n Hn)) as [Hname Hdirs].
  assert (proper (q +:+ s)) as Hprop by (destruct Hname as [->|(s' & -> & Hs')]; [by rewrite str_app_nil_r|by apply proper_below]).
  destruct (link_entry_run from (p +:+ s) (q +:+ s) to1 n Hprop Hn) as (to2 & H2 & Hn2).
  { unfold can_create. apply andb_true_iff. split.
    - apply all_dirs. intros x (Hx1 & Hx2 & Hx3)%above_spec. rewrite H1. destruct (under q x) eqn:Hqx.
      + apply under_spec in Hqx as (r & Hr & ->). rewrite str_drop_app.
        assert (under r s = true) as Hrs.
        { apply under_spec in Hx2 as (z & Hz & E). rewrite str_app_assoc in E. apply (inj (fun s => q +:+ s)) in E. apply under_spec. eauto. }
        assert (r <> s) as Hne by (intros ->; done). specialize (Hdirs r Hr Hrs Hne).
        rewrite decide_True; [done|]. apply (Hbefore l1 s l2 r); [done| |done|done]. apply Hin. split; [done|by eexists].
      + apply Habove, above_spec. destruct (under_comparable x q (q +:+ s) Hx2) as [H|H]; [by rewrite under_app| |congruence].
        split_and!; [done|done|]. intros ->. by rewrite under_refl in Hqx.
    - unfold path_exists. rewrite H1, under_app, Hb, str_drop_app, decide_False by done. rewrite bool_decide_false; [done|]. by intros [? [=]]. }
  exists to2. split; [done|]. intros k. rewrite Hn2. destruct (decide (k = q +:+ s)) as [->|Hne].
  - rewrite lookup_insert_eq, under_app, Hb, str_drop_app, decide_True; [done|]. apply elem_of_app. right. by left.
  - rewrite lookup_insert_ne by done. rewrite H1. destruct (under q k) eqn:Hqk; [|done].
    apply under_spec in Hqk as (r & Hr & ->). rewrite str_drop_app.
    assert (r ∈ l1 ++ [s] <-> r ∈ l1) as Hiff.
    { rewrite elem_of_app, list_elem_of_singleton. split; [intros [| ->]; [done|done]|auto]. }
    by rewrite (decide_ext (r ∈ l1 ++ [s]) (r ∈ l1)).
Qed.

Lemma link_all_run l1 l2 to1 :
  cache_walk conf (sorted_keys (subtree p (nodes from))) = l1 ++ l2 -> linked l1 to1 ->
  exists to2, link_all conf from p q l2 to1 = (to2, true) /\ linked (l1 ++ l2) to2.
Proof.
  revert l1 to1. induction l2 as [|s l2 IH]; intros l1 to1 Hl H1.
  - exists to1. by rewrite app_nil_r.
  - destruct (linked_step l1 s l2 to1 Hl H1) as (to2 & H2 & Hl2). cbn [link_all]. rewrite H2.
    destruct (IH (l1 ++ [s]) to2) as (to3 & H3 & Hl3); [by rewrite <- app_assoc|done|]. exists to3. rewrite <- app_assoc in Hl3. done.
Qed.

Lemma linked_all l to' :
  (forall s, s ∈ l <-> is_below s = true /\ is_Some (nodes from !! (p +:+ s))) -> linked l to' ->
  forall k, nodes to' !! k = if under q k then nodes from !! (p +:+ str_drop (String.length q) k) else nodes to !! k.
Proof.
  intros Hin H k. rewrite H. destruct (under q k) eqn:Hk; [|done]. apply under_spec in Hk as (s & Hs & ->). rewrite str_drop_app.
  destruct (decide (s ∈ l)) as [|Hno]; [done|]. rewrite Hin in Hno. destruct (nodes from !! (p +:+ s)) eqn:E; [|done].
  destruct Hno. split; [done|by eexists].
Qed.

(** The whole tree is there, and nothing else is changed. *)
Lemma RecursiveLink_run :
  is_Some (nodes from !! p) ->
  exists to', RecursiveLink conf from p q to = (to', true) /\
    forall k, nodes to' !! k = if under q k then nodes from !! (p +:+ str_drop (String.length q) k) else nodes to !! k.
Proof.
  intros [n Hn]. assert (linked [] to) as H0.
  { intros k. destruct (under q k) eqn:Hk; [|done]. rewrite decide_False by (by apply not_elem_of_nil). by apply Hfree. }
  unfold RecursiveLink. rewrite Hn. destruct (decide (n = NDir)) as [->|Hne].
  - destruct (link_all_run [] _ to eq_refl H0) as (to' & H & Hl). exists to'. split; [exact H|]. eapply linked_all; [|exact Hl].
    intros s. cbn [app]. rewrite (proj1 (Hwalk _)), elem_of_sorted_keys, lookup_subtree. destruct (is_below s); [naive_solver|].
    split; [by intros [? [=]]|by intros [[=]]].
  - destruct (link_entry_run from p q to n Hq Hn) as (to' & H & Hn').
    { unfold can_create. apply andb_true_iff. split; [by apply all_dirs|]. unfold path_exists. rewrite Hfree by apply under_refl.
      rewrite bool_decide_false; [done|]. by intros [? [=]]. }
    exists to'. split; [by destruct n|]. intros k. rewrite Hn'. destruct (decide (k = q)) as [->|Hkq].
    + rewrite lookup_insert_eq, under_refl. rewrite <- (str_app_nil_r q) at 2. by rewrite str_drop_app, str_app_nil_r.
    + rewrite lookup_insert_ne by done. destruct (under q k) eqn:Hk; [|done]. rewrite Hfree by done.
      apply under_spec in Hk as (s & Hs & ->). rewrite str_drop_app. destruct (nodes from !! (p +:+ s)) eqn:E; [|done].
      destruct (Hfrom s Hs (ex_intro _ _ E)) as [_ Hd]. exfalso. apply Hne. assert (nodes from !! (p +:+ "") = Some NDir) as Hd'.
      { apply Hd; [done|by apply under_spec; exists s|]. intros <-. by rewrite str_app_nil_r in Hkq. }
      rewrite str_app_nil_r in Hd'. congruence.
Qed.
End trees.

(** ** Storing and retrieving *)

(** Directories can be made on the way to a path. *)
Definition open_way (d : disk) (p : string) : Prop := forall x, x ∈ above p -> nodes d !! x = None \/ nodes d !! x = Some NDir.

Lemma MkdirAll_open d p :
  p <> "" -> open_way d p -> nodes d !! p = None \/ nodes d !! p = Some NDir ->
  exists d', MkdirAll d p = Some d' /\
    forall k, nodes d' !! k = if decide (k ∈ parents p) then Some NDir else nodes d !! k.
Proof.
  intros Hne Ho Hp. unfold MkdirAll.
  assert (forall q, q ∈ parents p -> nodes d !! q = None \/ nodes d !! q = Some NDir) as Hd.
  { intros q Hq. destruct (decide (q = p)) as [->|Hqp]; [done|]. apply Ho, above_spec. apply parents_spec in Hq as []. done. }
  assert (existsb (fun q => match nodes d !! q with Some (NFile _) => true | _ => false end) (parents p) = false) as ->.
  { apply not_true_iff_false. intros (q & Hq & Hf)%existsb_exists. apply list_elem_of_In in Hq. by destruct (Hd q Hq) as [E|E]; rewrite E in Hf. }
  eexists. split; [done|]. intros k. cbn [nodes]. revert Hd. generalize (parents p). intros l.
  induction l as [|q l IH]; intros Hd; cbn [foldr]; [rewrite decide_False; [done|by apply not_elem_of_nil]|].
  specialize (IH (fun x Hx => Hd x (list_elem_of_further _ _ _ Hx))).
  destruct (decide (k = q)) as [->|Hne'].
  - rewrite decide_True by (by left). destruct (foldr _ _ l !! q) as [n|] eqn:E; [|by rewrite lookup_insert_eq].
    destruct (decide (q ∈ l)); [congruence|]. destruct (Hd q ltac:(by left)); congruence.
  - assert (k ∈ q :: l <-> k ∈ l) as Hiff by (rewrite elem_of_cons; naive_solver). rewrite (decide_ext (k ∈ q :: l) (k ∈ l)) by done.
    destruct (foldr _ _ l !! q); [exact IH|]. by rewrite lookup_insert_ne.
Qed.

(** Making the directory of a file *)
Lemma make_dir d p :
  proper p -> open_way d p ->
  exists d', MkdirAll d (path_dir p) = Some d' /\ forall k, nodes d' !! k = if decide (k ∈ above p) then Some NDir else nodes d !! k.
Proof.
  intros Hp Ho. destruct (proper_dir p Hp) as (H1 & H2 & H3).
  destruct (MkdirAll_open d (path_dir p)) as (d' & Hd' & Hk); [done|intros x Hx; by apply Ho, H3|by apply Ho|].
  exists d'. split; [done|]. intros k. rewrite Hk.
  assert (k ∈ parents (path_dir p) <-> k ∈ above p) as Hiff.
  { destruct Hp as (q & c & -> & Hq & Hc). pose proof (proj1 (good_spec c) Hc) as (_ & _ & _ & Hs).
    rewrite path_dir_join in * by done. rewrite parents_spec, above_spec. split.
    - intros [Hk1 Hk2]. split_and!; [done|apply under_dir; auto|]. intros ->.
      apply under_spec in Hk2 as (s & _ & E). apply (f_equal String.length) in E. rewrite !str_length_app in E. cbn in E. lia.
    - intros (Hk1 & Hk2 & Hk3). split; [done|]. apply under_dir in Hk2 as [->|Hk2]; done. }
  by rewrite (decide_ext (k ∈ parents (path_dir p)) (k ∈ above p)).
Qed.

Section linking.
Context (conf : DirConf) (Hwalk : walks conf).

(** Making room for a tree and linking it *)
Lemma make_and_link from p q to :
  tree_ok from p -> is_Some (nodes from !! p) -> proper q -> open_way to q ->
  exists to1 to2, MkdirAll to (path_dir q) = Some to1 /\ RecursiveLink conf from p q (RemoveAll to1 q) = (to2, true) /\
    forall k, nodes to2 !! k = if under q k then nodes from !! (p +:+ str_drop (String.length q) k)
                               else if decide (k ∈ above q) then Some NDir else nodes to !! k.
Proof.
  intros Hfrom Hp Hq Ho. destruct (make_dir to q Hq Ho) as (to1 & H1 & Hk1).
  assert (forall x, x ∈ above q -> nodes (RemoveAll to1 q) !! x = Some NDir) as Ha.
  { intros x Hx. rewrite RemoveAll_nodes, Hk1, decide_True by done. apply above_spec in Hx as (_ & Hx & Hne).
    destruct (under q x) eqn:E; [|done]. by destruct Hne; apply under_antisym. }
  destruct (RecursiveLink_run conf Hwalk from p q (RemoveAll to1 q) Hfrom Hq Ha) as (to2 & H2 & Hk2); [|done|].
  { intros k Hk. by rewrite RemoveAll_nodes, Hk. }
  exists to1, to2. split_and!; [done|done|]. intros k. rewrite Hk2. destruct (under q k) eqn:E; [done|].
  rewrite RemoveAll_nodes, E. apply Hk1.
Qed.
End linking.

Lemma above_under p q : p ∈ above q -> under p q = true.
Proof. by intros (_ & ? & _)%above_spec. Qed.

Lemma above_not_under p q : p ∈ above q -> under q p = false.
Proof. intros (_ & H & Hne)%above_spec. apply not_true_iff_false. intros H'. by destruct Hne; apply under_antisym. Qed.

Lemma apart_not_above p q k : apart p q -> under p k = true -> k ∉ above q.
Proof. intros [H _] Hp Hk%above_under. apply not_true_iff_false in H. apply H. by eapply under_trans. Qed.

Lemma under_slash p s : under p (p +:+ "/" +:+ s) = true.
Proof. apply under_spec. exists ("/" +:+ s). split; [apply is_below_slash|done]. Qed.

(** Files that are stored together: none is in another. *)
Definition files_ok (files : list string) : Prop :=
  (forall f, f ∈ files -> local f = true) /\ (forall f f', f ∈ files -> f' ∈ files -> f <> f' -> apart f f').

Lemma under_prefix p q s : under (p +:+ "/" +:+ q) (p +:+ "/" +:+ s) = under q s.
Proof.
  apply eq_true_iff_eq. split.
  - intros (r & Hr & E)%under_spec. rewrite !str_app_assoc in E. apply (inj (fun s => p +:+ s)) in E. cbn in E. injection E as ->.
    apply under_spec. eauto.
  - intros (r & Hr & ->)%under_spec. apply under_spec. exists r. by rewrite !str_app_assoc.
Qed.

Lemma apart_prefix p f f' : apart f f' -> apart (p +:+ "/" +:+ f) (p +:+ "/" +:+ f').
Proof. intros [H1 H2]. split; by rewrite under_prefix. Qed.

Section storing.
Context (conf : DirConf) (Hwalk : walks conf).
(** The outputs of a target, in a directory [O] of the repo, and a directory to store them in *)
Context (repo : disk) (t : BuildTarget) (files : list string) (T : string).
Context (HO : clean (target_OutDir t) = true) (Hfiles : files_ok files) (HT : clean T = true).
Context (Hrepo : forall f, f ∈ files -> is_Some (nodes repo !! (target_OutDir t +:+ "/" +:+ f)) /\ tree_ok repo (target_OutDir t +:+ "/" +:+ f)).

(** What is stored after some of the files *)
Definition stored (d0 : disk) (done : list string) (d : disk) : Prop :=
  (forall f s, f ∈ done -> is_below s = true ->
     nodes d !! (T +:+ "/" +:+ f +:+ s) = nodes repo !! (target_OutDir t +:+ "/" +:+ f +:+ s)) /\
  (forall f, f ∈ files -> open_way d (T +:+ "/" +:+ f)) /\
  (forall k, under T k = false -> k ∉ above T -> nodes d !! k = nodes d0 !! k) /\
  (done <> [] -> nodes d !! T = Some NDir).

Lemma proper_file f : local f = true -> proper (T +:+ "/" +:+ f).
Proof. intros Hf. destruct (clean_last T f HT Hf) as (p & c & -> & Hp & Hc & _). by exists p, c. Qed.

Lemma storeFile_run d0 done f d :
  f ∈ files -> (forall f', f' ∈ done -> f' ∈ files) -> f ∉ done -> stored d0 done d ->
  exists size, let d' := (storeFile conf repo t f T d).1 in storeFile conf repo t f T d = (d', size) /\ stored d0 (done ++ [f]) d'.
Proof.
  intros Hf Hdone Hnew (Hs & Ho & Hk & _). destruct Hfiles as [Hloc Hap]. destruct (Hrepo f Hf) as [Hpres Htree].
  unfold storeFile, ensureStoreReady. rewrite !path_join_clean by auto.
  destruct (make_and_link conf Hwalk repo _ _ d Htree Hpres (proper_file f (Hloc f Hf)) (Ho f Hf)) as (d1 & d2 & H1 & H2 & Hd2).
  rewrite H1. cbn [mbind option_bind]. rewrite H2. eexists. cbn [fst]. split; [done|]. split_and!.
  - intros f' s Hin Hsb. apply elem_of_app in Hin as [Hin| ->%list_elem_of_singleton].
    + assert (apart (T +:+ "/" +:+ f') (T +:+ "/" +:+ f)) as Hapart by (apply apart_prefix, Hap; [by apply Hdone|done|by intros ->]).
      rewrite Hd2, <- (Hs f' s) by done. replace (T +:+ "/" +:+ f' +:+ s) with ((T +:+ "/" +:+ f') +:+ s) by (by rewrite !str_app_assoc).
      assert (under (T +:+ "/" +:+ f') ((T +:+ "/" +:+ f') +:+ s) = true) as Hu by (by rewrite under_app).
      rewrite (apart_below _ _ _ Hapart Hu), decide_False; [done|]. by eapply apart_not_above.
    + replace (T +:+ "/" +:+ f +:+ s) with ((T +:+ "/" +:+ f) +:+ s) by (by rewrite !str_app_assoc).
      rewrite Hd2, under_app, Hsb, str_drop_app. by rewrite !str_app_assoc.
  - intros f' Hf' x Hx. rewrite Hd2. destruct (under (T +:+ "/" +:+ f) x) eqn:E.
    + exfalso. destruct (decide (f = f')) as [->|Hne]; [by rewrite above_not_under in E|].
      destruct (apart_prefix T _ _ (Hap f f' Hf Hf' Hne)) as [Hu _]. apply not_true_iff_false in Hu. apply Hu.
      by eapply under_trans, above_under.
    + destruct (decide (x ∈ above (T +:+ "/" +:+ f))); [by right|by apply (Ho f')].
  - intros k Hku Hka. rewrite Hd2, <- Hk by done. destruct (under (T +:+ "/" +:+ f) k) eqn:E.
    + exfalso. apply not_true_iff_false in Hku. apply Hku. eapply under_trans; [apply under_slash|exact E].
    + rewrite decide_False; [done|]. intros (Hne & Hu & _)%above_spec. apply Hka, above_spec.
      destruct (under_comparable k T _ Hu (under_slash T f)) as [H|H]; [|congruence]. split_and!; [done|done|]. intros ->.
      by rewrite under_refl in Hku.
  - intros _. assert (T ∈ above (T +:+ "/" +:+ f)) as Ha.
    { apply above_spec. split_and!; [by apply clean_not_nil|apply under_slash|]. intros E. apply (f_equal String.length) in E.
      rewrite str_length_app in E. cbn in E. lia. }
    by rewrite Hd2, above_not_under, decide_True.
Qed.

Lemma store_all_run d0 l done d total :
  files = done ++ l -> NoDup files -> stored d0 done d ->
  exists size, let d' := (foldl (fun '(d, total) out => let '(d, size) := storeFile conf repo t out T d in (d, uint64 (total + size))) (d, total) l).1 in
    foldl (fun '(d, total) out => let '(d, size) := storeFile conf repo t out T d in (d, uint64 (total + size))) (d, total) l = (d', size) /\
    stored d0 files d'.
Proof.
  revert done d total. induction l as [|f l IH]; intros done d total Hl Hnd Hs.
  { exists total. rewrite app_nil_r in Hl. rewrite Hl. done. }
  assert (f ∈ files) as Hf by (rewrite Hl; apply elem_of_app; right; by left).
  assert (f ∉ done) as Hnew.
  { intros H. rewrite Hl in Hnd. apply NoDup_app in Hnd as (_ & Hd & _). apply (Hd f H). by left. }
  destruct (storeFile_run d0 done f d Hf) as (size & H1 & H2); [|done|done|].
  { intros f' Hf'. rewrite Hl. apply elem_of_app. by left. }
  cbn [foldl]. rewrite H1. apply (IH (done ++ [f])); [by rewrite <- app_assoc|done|done].
Qed.
End storing.

Lemma apart_equals p : apart p (p +:+ "=").
Proof.
  split; apply not_true_iff_false; intros (s & Hs & E)%under_spec.
  - apply (inj (fun s => p +:+ s)) in E. by subst s.
  - apply (f_equal String.length) in E. rewrite !str_length_app in E. cbn in E. lia.
Qed.

Section store.
Context (conf : DirConf) (Hwalk : walks conf) (Hplain : Compress conf = false).

(** What a target has to store, and where: nothing is left there of a store before. *)
Record storable (d : disk) (repo : disk) (t : BuildTarget) (key : string) (files : list string) : Prop := {
  st_out : clean (target_OutDir t) = true;
  st_files : files_ok files;
  st_nodup : NoDup files;
  st_some : files <> [];
  st_there : forall f, f ∈ files -> is_Some (nodes repo !! (target_OutDir t +:+ "/" +:+ f)) /\ tree_ok repo (target_OutDir t +:+ "/" +:+ f);
  st_path : clean (getPath conf t key "") = true;
  st_tmp : clean (getPath conf t key "" +:+ "=") = true;
  st_fresh : forall k, under (getPath conf t key "" +:+ "=") k = true -> nodes d !! k = None;
  st_open : open_way d (getPath conf t key "" +:+ "=");
}.

Lemma tmp_path t key : getFullPath conf t key "" "=" = getPath conf t key "" +:+ "=".
Proof. unfold getPath, getFullPath, Suffix. rewrite Hplain. by rewrite !str_app_nil_r. Qed.

Lemma dir_Store_run c repo t key files :
  storable (c_disk c) repo t key files ->
  let P := getPath conf t key "" in
  let d := c_disk (dir_Store conf c repo t key files) in
  nodes d !! P = Some NDir /\
  (forall f s, f ∈ files -> is_below s = true ->
     nodes d !! (P +:+ "/" +:+ f +:+ s) = nodes repo !! (target_OutDir t +:+ "/" +:+ f +:+ s)) /\
  (forall k, under P k = false -> under (P +:+ "=") k = false -> k ∉ above (P +:+ "=") -> nodes d !! k = nodes (c_disk c) !! k).
Proof.
  intros [HO Hf Hnd Hne Hthere HP HT Hfresh Hopen]. cbn zeta. unfold dir_Store, storeFiles. rewrite Hplain, tmp_path.
  set (P := getPath conf t key "") in *. set (T := P +:+ "=") in *. pose proof (apart_equals P) as Hap. fold T in Hap.
  set (d0 := RemoveAll (c_disk c) P).
  assert (stored repo t files T d0 [] d0) as H0.
  { split_and!; [intros f s Hin; by apply not_elem_of_nil in Hin| |done|done]. intros f Hin x (Hx1 & Hx2 & Hx3)%above_spec.
    unfold d0. rewrite RemoveAll_nodes. destruct (under P x); [by left|].
    destruct (under_comparable x T _ Hx2 (under_slash T f)) as [H|H]; [|left; by apply Hfresh].
    destruct (decide (x = T)) as [->|Hxt]; [left; apply Hfresh, under_refl|]. apply Hopen, above_spec. done. }
  destruct (store_all_run conf Hwalk repo t files T HO Hf HT Hthere d0 files [] d0 0 eq_refl Hnd H0) as (size & Hs & Hd1 & _ & Hd2 & Hd3).
  unfold store_all. cbn [c_disk with_disk markDir]. fold d0. rewrite Hs. cbn [c_disk with_disk markDir added].
  set (d1 := (foldl _ _ _).1) in *. unfold path_exists. rewrite Hd3 by done. rewrite bool_decide_true by eauto.
  cbn [c_disk with_disk]. assert (forall k, nodes (Rename d1 T P) !! k =
    if under P k then nodes d1 !! (T +:+ str_drop (String.length P) k) else if under T k then None else nodes d1 !! k) as Hk.
  { intros k. apply lookup_move. }
  split_and!.
  - rewrite Hk, under_refl. rewrite <- (str_app_nil_r P) at 2. by rewrite str_drop_app, str_app_nil_r, Hd3.
  - intros f s Hin Hsb. change (P +:+ "/" +:+ f +:+ s) with (P +:+ String "/" (f +:+ s)).
    rewrite Hk, under_app, is_below_slash, str_drop_app. by apply Hd1.
  - intros k H1 H2 H3. rewrite Hk, H1, H2, Hd2 by done. unfold d0. by rewrite RemoveAll_nodes, H1.
Qed.
End store.

Lemma tree_ok_ext d p d' p' :
  (forall s, is_below s = true -> nodes d' !! (p' +:+ s) = nodes d !! (p +:+ s)) -> tree_ok d p -> tree_ok d' p'.
Proof.
  intros He Hok s Hs Hn. rewrite He in Hn by done. destruct (Hok s Hs Hn) as [H1 H2]. split; [done|].
  intros r Hr Hrs Hne. rewrite He by done. by apply H2.
Qed.

Section retrieving.
Context (conf : DirConf) (Hwalk : walks conf).
(** What is in the cache, and where its files go. *)
Context (d : disk) (t : BuildTarget) (P : string) (outs : list string).
Context (HO : clean (target_OutDir t) = true) (HP : clean P = true) (Houts : files_ok outs).
Context (Hthere : forall f, f ∈ outs -> is_Some (nodes d !! (P +:+ "/" +:+ f)) /\ tree_ok d (P +:+ "/" +:+ f)).

Abbreviation O := (target_OutDir t).

(** The output directory is there, and nothing is in the way of the directories in it. *)
Definition out_ready (repo : disk) : Prop :=
  (forall x, x ∈ parents O -> nodes repo !! x = Some NDir) /\ (forall f, f ∈ outs -> open_way repo (O +:+ "/" +:+ f)).

Definition retrieved (repo0 : disk) (done : list string) (repo : disk) : Prop :=
  (forall f s, f ∈ done -> is_below s = true -> nodes repo !! (O +:+ "/" +:+ f +:+ s) = nodes d !! (P +:+ "/" +:+ f +:+ s)) /\
  out_ready repo /\
  (forall k, (forall f, f ∈ outs -> under (O +:+ "/" +:+ f) k = false /\ k ∉ above (O +:+ "/" +:+ f)) -> nodes repo !! k = nodes repo0 !! k).

Lemma ensure_and_link f repo :
  f ∈ outs -> out_ready repo ->
  exists repo1 repo2, ensureRetrieveReady t f repo = inl repo1 /\
    RecursiveLink conf d (P +:+ "/" +:+ f) (O +:+ "/" +:+ f) repo1 = (repo2, true) /\
    forall k, nodes repo2 !! k = if under (O +:+ "/" +:+ f) k then nodes d !! (P +:+ "/" +:+ f +:+ str_drop (String.length (O +:+ "/" +:+ f)) k)
                                 else if decide (k ∈ above (O +:+ "/" +:+ f)) then Some NDir else nodes repo !! k.
Proof.
  intros Hf [Hpar Hopen]. destruct Houts as [Hloc _]. destruct (Hthere f Hf) as [Hpres Htree].
  assert (proper (O +:+ "/" +:+ f)) as Hprop by (destruct (clean_last O f HO (Hloc f Hf)) as (q & c & -> & Hq & Hc & _); by exists q, c).
  destruct (make_and_link conf Hwalk d _ _ repo Htree Hpres Hprop (Hopen f Hf)) as (r1 & r2 & H1 & H2 & H3).
  exists (RemoveAll r1 (O +:+ "/" +:+ f)), r2. split_and!; [|exact H2|].
  - unfold ensureRetrieveReady. rewrite path_join_clean by auto. destruct (contains_byte "/" f) eqn:Hs; [by rewrite H1|].
    destruct (local_last f (Hloc f Hf)) as [Hg|(p & c & -> & _)].
    + rewrite path_dir_join in H1 by done. rewrite MkdirAll_there in H1; [by injection H1 as ->|by apply clean_not_nil| |].
      * apply Hpar, parents_spec. split; [by apply clean_not_nil|apply under_refl].
      * intros x (Hx1 & Hx2 & _)%above_spec. by apply Hpar, parents_spec.
    + exfalso. change (p +:+ "/" +:+ c) with (p +:+ String "/" c) in Hs. rewrite contains_byte_app, contains_byte_cons, Ascii.eqb_refl, orb_true_r in Hs. done.
  - intros k. rewrite H3. by rewrite !str_app_assoc.
Qed.

Lemma retrieve_step f done repo0 repo :
  f ∈ outs -> (forall f', f' ∈ done -> f' ∈ outs) -> f ∉ done -> retrieved repo0 done repo ->
  exists repo1 repo2, ensureRetrieveReady t f repo = inl repo1 /\
    RecursiveLink conf d (P +:+ "/" +:+ f) (O +:+ "/" +:+ f) repo1 = (repo2, true) /\ retrieved repo0 (done ++ [f]) repo2.
Proof.
  intros Hf Hdone Hnew (Hs & Hready & Hk). destruct (ensure_and_link f repo Hf Hready) as (r1 & r2 & H1 & H2 & H3).
  destruct Houts as [Hloc Hap]. destruct Hready as [Hpar Hopen]. exists r1, r2. split_and!; [done|done|]. split_and!.
  - intros f' s Hin Hsb. replace (O +:+ "/" +:+ f' +:+ s) with ((O +:+ "/" +:+ f') +:+ s) by (by rewrite !str_app_assoc).
    apply elem_of_app in Hin as [Hin| ->%list_elem_of_singleton].
    + assert (apart (O +:+ "/" +:+ f') (O +:+ "/" +:+ f)) as Hapart by (apply apart_prefix, Hap; [by apply Hdone|done|by intros ->]).
      assert (under (O +:+ "/" +:+ f') ((O +:+ "/" +:+ f') +:+ s) = true) as Hu by (by rewrite under_app).
      rewrite H3, (apart_below _ _ _ Hapart Hu), decide_False by (by eapply apart_not_above).
      rewrite <- (Hs f' s) by done. by rewrite !str_app_assoc.
    + rewrite H3, under_app, Hsb, str_drop_app. done.
  - assert (forall x, nodes repo !! x = Some NDir -> under (O +:+ "/" +:+ f) x = false -> nodes r2 !! x = Some NDir) as Hkeep.
    { intros x Hx E. rewrite H3, E. by destruct (decide _). }
    split.
    + intros x Hx. apply Hkeep; [by apply Hpar|]. apply above_not_under, above_spec. apply parents_spec in Hx as [Hx1 Hx2].
      split_and!; [done|by eapply under_trans, under_slash|]. intros ->. apply under_spec in Hx2 as (s & _ & E).
      apply (f_equal String.length) in E. rewrite !str_length_app in E. cbn in E. lia.
    + intros f' Hf' x Hx. rewrite H3. destruct (under (O +:+ "/" +:+ f) x) eqn:E.
      * exfalso. destruct (decide (f = f')) as [->|Hne]; [by rewrite above_not_under in E|].
        destruct (apart_prefix O _ _ (Hap f f' Hf Hf' Hne)) as [Hu _]. apply not_true_iff_false in Hu. apply Hu.
        by eapply under_trans, above_under.
      * destruct (decide (x ∈ above (O +:+ "/" +:+ f))); [by right|by apply (Hopen f')].
  - intros k Hall. destruct (Hall f Hf) as [E Ha]. rewrite H3, E, decide_False by done. by apply Hk.
Qed.

Lemma retrieve_outs_run l done repo0 repo :
  outs = done ++ l -> NoDup outs -> retrieved repo0 done repo ->
  exists repo', retrieve_outs conf d t P l repo = (repo', true) /\ retrieved repo0 outs repo'.
Proof.
  revert done repo. induction l as [|f l IH]; intros done repo Hl Hnd Hr.
  { exists repo. rewrite app_nil_r in Hl. by rewrite Hl. }
  assert (f ∈ outs) as Hf by (rewrite Hl; apply elem_of_app; right; by left).
  assert (f ∉ done) as Hnew.
  { intros H. rewrite Hl in Hnd. apply NoDup_app in Hnd as (_ & Hd & _). apply (Hd f H). by left. }
  destruct (retrieve_step f done repo0 repo Hf) as (r1 & r2 & H1 & H2 & H3); [|done|done|].
  { intros f' Hf'. rewrite Hl. apply elem_of_app. by left. }
  cbn [retrieve_outs]. rewrite H1. destruct Houts as [Hloc _]. rewrite !path_join_clean by auto. rewrite H2.
  apply (IH (done ++ [f])); [by rewrite <- app_assoc|done|done].
Qed.
End retrieving.

(** ** What is stored stays *)

Inductive cache_op :=
  | OpStore (repo : disk) (t : BuildTarget) (key : string) (files : list string)
  | OpRetrieve (repo : disk) (t : BuildTarget) (key : string) (outs : list string)
  | OpClean (t : BuildTarget).

Section roundtrip.
Context (conf : DirConf) (Hwalk : walks conf) (Hplain : Compress conf = false).

Definition do_op (c : dircache) (op : cache_op) : dircache :=
  match op with
  | OpStore repo t key files => dir_Store conf c repo t key files
  | OpRetrieve repo t key outs => (dir_Retrieve conf c repo t key outs).1.1
  | OpClean t => dir_Clean conf c t
  end.

(** An operation on what is neither at a path nor above or below it *)
Definition elsewhere (P : string) (c : dircache) (op : cache_op) : Prop :=
  match op with
  | OpStore repo t key files =>
      storable conf (c_disk c) repo t key files /\ apart P (getPath conf t key "") /\ apart P (getPath conf t key "" +:+ "=")
  | OpRetrieve _ _ _ _ => True
  | OpClean t => apart P (path_join [Dir conf; PackageName (Label t); Name (Label t)])
  end.

Fixpoint all_elsewhere (P : string) (c : dircache) (ops : list cache_op) : Prop :=
  match ops with [] => True | op :: ops => elsewhere P c op /\ all_elsewhere P (do_op c op) ops end.

Lemma do_op_keeps P c op k :
  elsewhere P c op -> under P k = true -> nodes (c_disk (do_op c op)) !! k = nodes (c_disk c) !! k.
Proof.
  intros He Hk. destruct op as [repo t key files|repo t key outs|t]; cbn [do_op elsewhere] in *.
  - destruct He as (Hs & H1 & H2). destruct (dir_Store_run conf Hwalk Hplain c repo t key files Hs) as (_ & _ & Hframe).
    apply Hframe; [by eapply apart_below|by eapply apart_below|by eapply apart_not_above].
  - unfold dir_Retrieve. destruct (negb _); [done|]. destruct outs; [done|]. rewrite Hplain. by destruct (retrieve_outs _ _ _ _ _ _).
  - unfold dir_Clean. cbn [c_disk with_disk]. rewrite RemoveAll_nodes. by rewrite (apart_below _ _ _ He Hk).
Qed.

Lemma ops_keep P c ops k :
  all_elsewhere P c ops -> under P k = true -> nodes (c_disk (foldl do_op c ops)) !! k = nodes (c_disk c) !! k.
Proof.
  revert c. induction ops as [|op ops IH]; intros c; cbn; [done|]. intros [He Hops] Hk.
  rewrite IH by done. by eapply do_op_keeps.
Qed.

(** C8: In an uncompressed cache, what is stored is retrieved: whatever is stored, retrieved
    or cleaned elsewhere in it in the meantime, any of the files stored for a target and a
    key - by clean paths none of which is below another - are put back into a repo, which
    may be another as long as the output directory is there and nothing is in the way of the
    directories in it, as they were - files, links and whole directories - and nothing else
    there is changed but for directories on the way. (A compressed cache gives back
    everything that was stored, whatever was asked for.) *)
Theorem stored_retrieved c repo t key files ops repo' outs :
  let c1 := dir_Store conf c repo t key files in
  let P := getPath conf t key "" in
  let O := target_OutDir t in
  storable conf (c_disk c) repo t key files -> all_elsewhere P c1 ops ->
  (forall f, f ∈ outs -> f ∈ files) -> NoDup outs -> out_ready t outs repo' ->
  exists c3 repo2, dir_Retrieve conf (foldl do_op c1 ops) repo' t key outs = (c3, repo2, true) /\
    (forall f s, f ∈ outs -> is_below s = true -> nodes repo2 !! (O +:+ "/" +:+ f +:+ s) = nodes repo !! (O +:+ "/" +:+ f +:+ s)) /\
    (forall k, (forall f, f ∈ outs -> under (O +:+ "/" +:+ f) k = false /\ k ∉ above (O +:+ "/" +:+ f)) -> nodes repo2 !! k = nodes repo' !! k).
Proof.
  intros c1 P O Hst Hops Hsub Hnd Hready. set (c2 := foldl do_op c1 ops).
  destruct (dir_Store_run conf Hwalk Hplain c repo t key files Hst) as (HPd & Hfs & _). fold c1 P O in HPd, Hfs.
  pose proof (fun k => ops_keep P c1 ops k Hops) as Hkeep. fold c2 in Hkeep.
  assert (forall f s, f ∈ outs -> is_below s = true -> nodes (c_disk c2) !! (P +:+ "/" +:+ f +:+ s) = nodes repo !! (O +:+ "/" +:+ f +:+ s)) as Hc2.
  { intros f s Hin Hs. rewrite Hkeep by apply under_slash. by apply Hfs; [apply Hsub|]. }
  destruct Hst as [HO [Hloc Hap] _ _ Hthere HPc _ _ _]. fold P in HPc. subst O.
  unfold dir_Retrieve. fold P. unfold path_exists. rewrite Hkeep, HPd by apply under_refl. rewrite bool_decide_true by eauto. cbn [negb].
  destruct outs as [|f0 outs'] eqn:Eo.
  { eexists _, _. split_and!; [done| |done]. intros f s Hf. by apply not_elem_of_nil in Hf. }
  rewrite <- Eo in *. clear Eo. rewrite Hplain. cbn [c_disk markDir].
  destruct (retrieve_outs_run conf Hwalk (c_disk c2) t P outs) with (l := outs) (done := @nil string) (repo0 := repo') (repo := repo')
    as (repo2 & H2 & Hr & _ & Hk); [done|done|split; naive_solver| |done|done| |].
  { intros f Hin. destruct (Hthere f (Hsub f Hin)) as [Hp Ht]. split.
    - pose proof (Hc2 f "" Hin eq_refl) as E. rewrite !str_app_nil_r in E. by rewrite E.
    - eapply tree_ok_ext; [|exact Ht]. intros s Hs. rewrite !str_app_assoc. by apply Hc2. }
  { split_and!; [intros f s Hin; by apply not_elem_of_nil in Hin|exact Hready|done]. }
  rewrite H2. eexists _, _. split_and!; [done| |exact Hk]. intros f s Hin Hs. rewrite Hr by done. by apply Hc2.
Qed.
End roundtrip.

(** ** What is cleaned *)

Section cleaning.
Context (conf : DirConf).

Definition e_path (e : cacheEntry) : string := e.1.1.
Definition e_size (e : cacheEntry) : Z := e.1.2.
Definition sizes (l : list cacheEntry) : Z := foldr (fun e z => e_size e + z) 0 l.

(** Entries that are there, each apart from the others, with nothing where they are moved to. *)
Record entries_ok (d : disk) (l : list cacheEntry) : Prop := {
  eo_nodup : NoDup (map e_path l);
  eo_there : forall e, e ∈ l -> is_Some (nodes d !! e_path e);
  eo_free : forall e k, e ∈ l -> under (e_path e +:+ "=") k = true -> nodes d !! k = None;
  eo_apart : forall e e', e ∈ l -> e' ∈ l -> e_path e <> e_path e' ->
    apart (e_path e) (e_path e') /\ apart (e_path e) (e_path e' +:+ "=");
}.

Lemma cleanPath_run d path :
  is_Some (nodes d !! path) -> (forall k, under (path +:+ "=") k = true -> nodes d !! k = None) ->
  exists d', cleanPath d path = Some d' /\ forall k, nodes d' !! k = if under path k then None else nodes d !! k.
Proof.
  intros [n Hn] Hfree. unfold cleanPath, can_rename. rewrite Hn, Hfree by apply under_refl.
  exists (RemoveAll (Rename d path (path +:+ "=")) (path +:+ "=")). split; [by destruct n|]. intros k. rewrite RemoveAll_nodes.
  destruct (under (path +:+ "=") k) eqn:E.
  - rewrite (Hfree k E). by destruct (under path k).
  - change (nodes (Rename d path (path +:+ "=")) !! k) with (move path (path +:+ "=") (nodes d) !! k). by rewrite lookup_move, E.
Qed.

Lemma uint64_sub a b : uint64 (uint64 a - b) = uint64 (a - b).
Proof. unfold uint64. by rewrite Zminus_mod_idemp_l. Qed.

Lemma entries_ok_rest e l d d' :
  entries_ok d (e :: l) -> (forall k, nodes d' !! k = if under (e_path e) k then None else nodes d !! k) -> entries_ok d' l.
Proof.
  intros [Hnd Ht Hf Ha] Hd'. cbn in Hnd. apply NoDup_cons in Hnd as [Hnew Hnd].
  assert (forall e', e' ∈ l -> e_path e <> e_path e') as Hne.
  { intros e' He' E. apply Hnew. rewrite E. by apply (list_elem_of_fmap_2 e_path). }
  split; [done| | |].
  - intros e' He'. destruct (Ha e e') as [Hap _]; [by left|by right|by apply Hne|]. destruct Hap as [Hap _].
    rewrite Hd', Hap. apply Ht. by right.
  - intros e' k He' Hk. rewrite Hd'. destruct (under (e_path e) k); [done|]. apply (Hf e'); [by right|done].
  - intros e1 e2 H1 H2. apply Ha; by right.
Qed.

(** The loop removes entries from the front until what is left is small enough. *)
Lemma clean_loop_run low l c total :
  entries_ok (c_disk c) l -> (forall e, e ∈ l -> added c !! e_path e = None) ->
  exists removed kept, l = removed ++ kept /\
    let r := clean_loop low l c total in
    added r.1 = added c /\ (l <> [] -> r.2 = uint64 (total - sizes removed)) /\
    (forall k, nodes (c_disk r.1) !! k = if existsb (fun e => under (e_path e) k) removed then None else nodes (c_disk c) !! k) /\
    (kept = [] \/ r.2 < low) /\
    (forall l1 e l2, removed = l1 ++ e :: l2 -> l1 <> [] -> low <= uint64 (total - sizes l1)).
Proof.
  revert c total. induction l as [|[[path size] time] l IH]; intros c total Hok Hun.
  { exists [], []. split; [done|]. cbn. split_and!; [done|done|done|by left|]. intros l1 e l2 H. by destruct l1. }
  assert (added c !! path = None) as Hpath by (apply (Hun (path, size, time)); by left).
  destruct (cleanPath_run (c_disk c) path) as (d & Hd & Hk).
  { by apply (eo_there _ _ Hok (path, size, time)); left. }
  { intros k. by apply (eo_free _ _ Hok (path, size, time)); left. }
  cbn [clean_loop]. rewrite Hpath, Hd. cbn zeta. destruct (Z.ltb_spec (uint64 (total - size)) low) as [Hlow|Hhigh].
  - exists [(path, size, time)], l. split; [done|]. cbn [fst snd sizes foldr existsb with_disk c_disk added]. split_and!.
    + done.
    + intros _. unfold e_size. cbn. by rewrite Z.add_0_r.
    + intros k. rewrite Hk. unfold e_path. cbn. by rewrite orb_false_r.
    + by right.
    + intros l1 e l2 H Hne. destruct l1 as [|? [|]]; done.
  - destruct (IH (with_disk d c) (uint64 (total - size))) as (removed & kept & -> & H1 & H2 & H3 & H4 & H5).
    { eapply (entries_ok_rest (path, size, time)); [exact Hok|exact Hk]. }
    { intros e He. apply Hun. by right. }
    exists ((path, size, time) :: removed), kept. split; [done|]. cbn zeta. split_and!.
    + exact H1.
    + intros _. cbn [sizes foldr]. unfold e_size at 1. cbn. destruct (decide (removed ++ kept = [])) as [E|E].
      * apply app_eq_nil in E as [-> ->]. cbn. by rewrite Z.add_0_r.
      * rewrite H2 by done. rewrite uint64_sub. f_equal. unfold sizes. lia.
    + intros k. rewrite H3. cbn [existsb with_disk c_disk]. rewrite Hk. unfold e_path at 2. cbn. by destruct (existsb _ removed), (under path k).
    + exact H4.
    + intros l1 e l2 H Hne. destruct l1 as [|e1 l1]; [done|]. injection H as <- H. destruct (decide (l1 = [])) as [->|Hl1].
      * cbn. unfold e_size. cbn. by rewrite Z.add_0_r.
      * specialize (H5 l1 e l2 H Hl1). rewrite uint64_sub in H5. cbn [sizes foldr]. unfold e_size at 1. cbn. unfold sizes in H5.
        rewrite Z.sub_add_distr. exact H5.
Qed.

(** What is found is not marked. *)
Lemma scan_unmarked c e : e ∈ entries (scan_cache conf c) -> added c !! e_path e = None.
Proof.
  unfold scan_cache. generalize (map (fun s => Dir conf +:+ s) (cache_walk conf (sorted_keys (subtree (Dir conf) (nodes (c_disk c)))))).
  intros l. assert (forall s0, (forall e, e ∈ entries s0 -> added c !! e_path e = None) ->
    forall e, e ∈ entries (foldl (scan_step conf c) s0 l) -> added c !! e_path e = None) as H.
  { induction l as [|path l IH]; intros s0 H0; cbn; [done|]. apply IH. intros e'. unfold scan_step.
    destruct (_ || _); [apply H0|]. destruct (shouldClean _ _ _); [|apply H0].
    destruct (added c !! path) eqn:Ea; [apply H0|]. destruct (atime conf path); [|apply H0]. cbn [entries].
    intros [He| ->%list_elem_of_singleton]%elem_of_app; [by apply H0|done]. }
  apply H. cbn. intros e' He'. by apply not_elem_of_nil in He'.
Qed.

(** What it means for entries to be in order: of two that were used ten minutes or more
    apart the one used first comes first, and of others the larger one. *)
Definition e_time (e : cacheEntry) : Z := e.2.

Definition in_order_of_use (e e' : cacheEntry) : Prop :=
  if decide (Z.abs (e_time e - e_time e') < 600) then e_size e' <= e_size e else e_time e < e_time e'.

Lemma not_cleaned_before e e' : cleaned_before e' e = false -> in_order_of_use e e'.
Proof.
  destruct e as [[p s] t], e' as [[p' s'] t']. unfold cleaned_before, in_order_of_use, accessTimeGracePeriod, e_time, e_size. cbn [fst snd].
  destruct ((- (600) <? t' - t) && (t' - t <? 600)) eqn:Hb; intros H; case_decide; lia.
Qed.

Lemma sorted_app {A} (R : A -> A -> Prop) l1 l2 : StronglySorted R (l1 ++ l2) -> forall x y, x ∈ l1 -> y ∈ l2 -> R x y.
Proof.
  induction l1 as [|a l1 IH]; intros H x y Hx Hy; [by apply not_elem_of_nil in Hx|]. cbn in H.
  apply StronglySorted_inv in H as [H Ha]. rewrite Forall_forall in Ha.
  apply elem_of_cons in Hx as [->|Hx]; [apply Ha, elem_of_app; by right|by apply IH].
Qed.

End cleaning.

(** ** Checking trees *)

(** A walk that visits the shortest paths first *)
Definition shorter (a b : string) : Prop := (String.length a <= String.length b)%nat.
#[global] Instance shorter_dec a b : Decision (shorter a b).
Proof. unfold shorter. apply _. Defined.
#[global] Instance shorter_total : Total shorter.
Proof. intros a b. unfold shorter. lia. Qed.
#[global] Instance shorter_trans : Transitive shorter.
Proof. intros a b c. unfold shorter. lia. Qed.

Definition by_length (l : list string) : list string := merge_sort shorter l.

Lemma by_length_walks conf : cache_walk conf = by_length -> walks conf.
Proof.
  intros E l. rewrite E. split; [apply merge_sort_Permutation|]. intros l1 s l2 r Hl Hr Hu Hne.
  assert (r ∈ l1 ++ s :: l2) as Hin by (rewrite <- Hl; unfold by_length; by rewrite merge_sort_Permutation).
  apply elem_of_app in Hin as [|[->|Hin]%elem_of_cons]; [done|done|exfalso].
  pose proof (StronglySorted_merge_sort shorter l) as Hs. unfold by_length in Hl. rewrite Hl in Hs. clear Hl.
  apply under_spec in Hu as (x & _ & ->). assert (0 < String.length x)%nat as Hx.
  { destruct x; [by rewrite str_app_nil_r in Hne|cbn; lia]. }
  induction l1 as [|y l1 IH]; cbn in Hs; [|apply StronglySorted_inv in Hs as [Hs _]; auto].
  apply StronglySorted_inv in Hs as [_ Hs]. rewrite Forall_forall in Hs. specialize (Hs r Hin). unfold shorter in Hs.
  rewrite str_length_app in Hs. lia.
Qed.

Definition name_ok (s : string) : bool := match s with "" => true | String "/" s => local s | _ => false end.

Definition tree_okb (d : disk) (p : string) : bool :=
  forallb (fun s => name_ok s && forallb (fun r => String.eqb r s || is_dir d (p +:+ r)) ("" :: parents s)) (sorted_keys (subtree p (nodes d))).

Lemma tree_okb_ok d p : tree_okb d p = true -> tree_ok d p.
Proof.
  unfold tree_okb. rewrite forallb_forall. intros H s Hs Hn.
  assert (s ∈ sorted_keys (subtree p (nodes d))) as Hin by (apply elem_of_sorted_keys; by rewrite lookup_subtree, Hs).
  apply list_elem_of_In in Hin. apply H in Hin as [Hname Hdirs]%andb_true_iff. split.
  - destruct s as [|a s]; [by left|right]. exists s. cbn in Hname.
    assert (a = "/"%char /\ local s = true) as [-> Hl]; [|done]. by repeat (destruct a as [[] [] [] [] [] [] [] []]; try done).
  - intros r Hr Hrs Hne. rewrite forallb_forall in Hdirs. assert (r ∈ "" :: parents s) as Hrp.
    { destruct (decide (r = "")) as [->|Hr0]; [by left|right]. by apply parents_spec. }
    apply list_elem_of_In in Hrp. apply Hdirs in Hrp. apply orb_true_iff in Hrp as [E%String.eqb_eq|E]; [done|].
    by apply bool_decide_eq_true in E.
Qed.

(** ** Examples *)

(** When entries were used: [b] after [a], and [c] at the same time as that. *)
Definition ex_atime (path : string) : option Z := Some (if has_prefix path "/cache/p/a" then 0 else 1000).

Definition ex_dir (compress : bool) : DirConf :=
  MkDirConf "/cache" compress true by_length (fun _ => "archive") (fun _ => ([("out", NFile "hello")], true)) ex_atime 4096 sort_by.

Definition no_entries : dircache := MkDirCache (MkDisk ∅ ∅ ∅ ∅) ∅.

Definition ex_built : disk := w_disk (ex_build (ex_target id) ex_disk).1.

(** A repo in which the target has not been built, but has its directory. *)
Definition ex_unbuilt : disk := RemoveAll ex_built "plz-out/gen/p/out".

Definition ex_key : string := "0123456789abcdefghij".

(** A target of another package *)
Definition ex_other : BuildTarget := NewBuildTarget (MkBuildLabel "q" "u" "").

Lemma ex_storable : storable (ex_dir false) (c_disk no_entries) ex_built (ex_target id) ex_key ["out"].
Proof.
  split.
  - vm_compute. done.
  - split; [intros f ->%list_elem_of_singleton; vm_compute; done|].
    intros f f' ->%list_elem_of_singleton ->%list_elem_of_singleton Hne. done.
  - apply NoDup_singleton.
  - done.
  - intros f ->%list_elem_of_singleton. split; [vm_compute; by eexists|]. apply tree_okb_ok. vm_compute. done.
  - vm_compute. done.
  - vm_compute. done.
  - intros k _. apply lookup_empty.
  - intros x _. left. apply lookup_empty.
Qed.

Lemma stored_retrieved_witness :
  exists c3 repo2, dir_Retrieve (ex_dir false) 
      (foldl (do_op (ex_dir false)) (dir_Store (ex_dir false) no_entries ex_built (ex_target id) ex_key ["out"]) [OpClean ex_other]) ex_unbuilt
      (ex_target id) ex_key ["out"] = (c3, repo2, true) /\
    nodes repo2 !! "plz-out/gen/p/out" = Some (NFile "hello").
Proof.
  destruct (stored_retrieved (ex_dir false) (by_length_walks (ex_dir false) eq_refl) eq_refl no_entries ex_built (ex_target id) ex_key ["out"]
    [OpClean ex_other] ex_unbuilt ["out"]) as (c3 & repo2 & H & Hf & _).
  - exact ex_storable.
  - split; [|done]. split; vm_compute; reflexivity.
  - done.
  - apply NoDup_singleton.
  - assert (parents (target_OutDir (ex_target id)) = ["plz-out"; "plz-out/gen"; "plz-out/gen/p"]) as Hp by (vm_compute; reflexivity).
    assert (above (target_OutDir (ex_target id) +:+ "/" +:+ "out") = ["plz-out"; "plz-out/gen"; "plz-out/gen/p"]) as Ha by (vm_compute; reflexivity).
    assert (forall x, x ∈ ["plz-out"; "plz-out/gen"; "plz-out/gen/p"] -> nodes ex_unbuilt !! x = Some NDir) as Hd.
    { intros x Hx. repeat (apply elem_of_cons in Hx as [->|Hx]; [vm_compute; reflexivity|]). by apply not_elem_of_nil in Hx. }
    split.
    + rewrite Hp. exact Hd.
    + intros f ->%list_elem_of_singleton. unfold open_way. rewrite Ha. intros x Hx. right. by apply Hd.
  - exists c3, repo2. split; [exact H|]. specialize (Hf "out" "" (list_elem_of_here _ _) eq_refl).
    assert (target_OutDir (ex_target id) +:+ "/" +:+ "out" +:+ "" = "plz-out/gen/p/out") as E by (vm_compute; reflexivity).
    rewrite E in Hf. rewrite Hf. vm_compute. reflexivity.
Defined.

Lemma subtree_empty d p : subtree p (nodes d) = ∅ -> forall k, under p k = true -> nodes d !! k = None.
Proof.
  intros H k (s & Hs & ->)%under_spec. pose proof (lookup_subtree p (nodes d) s) as E. by rewrite H, Hs, lookup_empty in E.
Qed.

(** A cache with three entries that were not used in this run. *)
Definition ex_entry (n : string) : string := "/cache/p/" +:+ n +:+ "/AAAAAAAAAAAAAAAAAAAAAAAAAAA=".

Definition ex_full : dircache :=
  MkDirCache (MkDisk (list_to_map [("/cache", NDir); ("/cache/p", NDir); ("/cache/p/a", NDir); ("/cache/p/b", NDir); ("/cache/p/c", NDir);
    (ex_entry "a", NDir); (ex_entry "a" +:+ "/out", NFile "0123456789"); (ex_entry "b", NDir); (ex_entry "b" +:+ "/out", NFile "01234");
    (ex_entry "c", NDir); (ex_entry "c" +:+ "/out", NFile "0123456789012")]) ∅ ∅ ∅) ∅.

Definition entry_a : cacheEntry := (ex_entry "a", 4106, 0).
Definition entry_b : cacheEntry := (ex_entry "b", 4101, 1000).
Definition entry_c : cacheEntry := (ex_entry "c", 4109, 1000).

Lemma ex_entries : entries (scan_cache (ex_dir false) ex_full) = [entry_c; entry_a; entry_b].
Proof. vm_compute. reflexivity. Qed.

Lemma ex_in e : e ∈ [entry_c; entry_a; entry_b] -> e = entry_a \/ e = entry_b \/ e = entry_c.
Proof. rewrite !elem_of_cons, elem_of_nil. tauto. Qed.

Lemma ex_weak_order : weak_order cleaned_before [entry_c; entry_a; entry_b].
Proof.
  split.
  - intros x y [->|[->| ->]]%ex_in [->|[->| ->]]%ex_in; vm_compute; congruence.
  - intros x y z [->|[->| ->]]%ex_in [->|[->| ->]]%ex_in [->|[->| ->]]%ex_in; vm_compute; congruence.
Qed.

Lemma ex_entries_ok : entries_ok (c_disk ex_full) [entry_c; entry_a; entry_b].
Proof.
  split.
  - apply (bool_decide_unpack _). vm_compute. done.
  - intros e [->|[->| ->]]%ex_in; vm_compute; by eexists.
  - intros e k [->|[->| ->]]%ex_in; apply subtree_empty; vm_compute; reflexivity.
  - intros e e' [->|[->| ->]]%ex_in [->|[->| ->]]%ex_in Hne; try done; repeat split; vm_compute; reflexivity.
Qed.


(** ** Where the code does not do what it means to *)

Definition ex_zeros : string := String.string_of_list_ascii (repeat "000"%char 20).

Definition ex_named (pkg name : string) : BuildTarget := NewBuildTarget (MkBuildLabel pkg name "").

(** What is retrieved is marked with a size of nothing, so that the cache seems to be smaller
    than it is: after an entry of 4106 bytes was used, 8210 of 12316 bytes are counted. *)
Lemma retrieved_counts_nothing :
  let '(c, _, ok) := dir_Retrieve (ex_dir false) ex_full ex_unbuilt (ex_named "p" "a") ex_zeros ["out"] in
  ok = true /\ scanned (scan_cache (ex_dir false) ex_full) = 12316 /\ scanned (scan_cache (ex_dir false) c) = 8210 /\
  dir_clean (ex_dir false) 9000 5000 c = (c, 8210).
Proof. vm_compute. done. Qed.

(** The comparison that entries are sorted by is no order: three entries can each come before the next. *)
Lemma cleaned_before_cycle :
  let a := ("a", 1, 0) in let b := ("b", 2, 500) in let c := ("c", 3, 1000) in
  cleaned_before a c = true /\ cleaned_before c b = true /\ cleaned_before b a = true.
Proof. done. Qed.

(** Cleaning a target removes what is stored of the targets in the package of its name, and
    of the target of the same name in a subrepo. *)
Lemma clean_removes_others :
  let t := ex_named "p" "t" in
  let c := MkDirCache (MkDisk (list_to_map [(getPath (ex_dir false) (ex_named "p/t" "u") ex_zeros "", NDir)]) ∅ ∅ ∅) ∅ in
  path_exists (c_disk c) (getPath (ex_dir false) (ex_named "p/t" "u") ex_zeros "") = true /\
  path_exists (c_disk (dir_Clean (ex_dir false) c t)) (getPath (ex_dir false) (ex_named "p/t" "u") ex_zeros "") = false /\
  getPath (ex_dir false) (NewBuildTarget (MkBuildLabel "p" "t" "sub")) ex_zeros "" = getPath (ex_dir false) t ex_zeros "".
Proof. vm_compute. done. Qed.

(** An archive counts as retrieved although nothing of it is, if the directory it goes to is
    not there. *)
Lemma missing_directory_retrieved :
  let c := dir_Store (ex_dir true) no_entries ex_built (ex_target id) ex_key ["out"] in
  (dir_Retrieve (ex_dir true) c ex_disk (ex_target id) ex_key ["out"]).2 = true /\
  nodes (dir_Retrieve (ex_dir true) c ex_disk (ex_target id) ex_key ["out"]).1.2 !! "plz-out/gen/p/out" = None.
Proof. vm_compute. done. Qed.

(** With the directory, it is. *)
Example ex_compressed :
  let c := dir_Store (ex_dir true) no_entries ex_built (ex_target id) ex_key ["out"] in
  let '(_, repo, ok) := dir_Retrieve (ex_dir true) c ex_unbuilt (ex_target id) ex_key ["out"] in
  ok = true /\ nodes repo !! "plz-out/gen/p/out" = Some (NFile "hello").
Proof. vm_compute. done. Qed.

(** A directory cache behind another that is empty: what is found in the one is stored in the other. *)
Example ex_multiplexer :
  let full := dir_Store (ex_dir false) no_entries ex_built (ex_target id) ex_key ["out"] in
  let '(caches, repo, ok) := @Retrieve _ (@cacheMultiplexer _ (dir_cache (ex_dir false))) [no_entries; full] ex_unbuilt (ex_target id) ex_key ["out"] in
  ok = true /\ nodes repo !! "plz-out/gen/p/out" = Some (NFile "hello") /\
  map (fun c => (dir_Retrieve (ex_dir false) c ex_unbuilt (ex_target id) ex_key ["out"]).2) caches = [true; true].
Proof. vm_compute. done. Qed.
