(* ===== verification/Selection.v ===== *)
(** What was asked for: the sets of targets ([src/core/target_set.go]), the part of the
    build state that says which targets are original and which are included
    ([src/core/state.go]), and what changed ([src/query/changes.go]) or belongs to a file
    ([whatinputs.go], [whatoutputs.go], [inputs.go], [outputs.go], [runtime_deps.go]).

    Printing is left out: a query gives what it prints. *)
From S2P Require Import Prelude GoStrings Labels Cmap Targets Reach Graph Inputs Queries RevDeps Gc Incrementality Disk Paths.

(** ** Sets of targets *)

Record TargetSet := MkTargetSet {
  ts_targets : gset BuildLabel;
  ts_packages : gset (string * string);
  everything : list BuildLabel;
}.

Definition NewTargetSet : TargetSet := MkTargetSet ∅ ∅ [].

Definition label_package (l : BuildLabel) : string * string := (PackageName l, Subrepo l).

(** [Add] *)
Definition ts_Add (ts : TargetSet) (label : BuildLabel) : res TargetSet :=
  if IsAllSubpackages label then Err (EPanic "TargetSet doesn't support ... labels")
  else if IsAllTargets label
  then Ok (MkTargetSet (ts_targets ts) ({[label_package label]} ∪ ts_packages ts) (everything ts ++ [label]))
  else Ok (MkTargetSet ({[label]} ∪ ts_targets ts) (ts_packages ts) (everything ts ++ [label])).

(** [Match]: whether the label is in the set, and whether by itself. *)
Definition Match (ts : TargetSet) (label : BuildLabel) : bool * bool :=
  if bool_decide (label ∈ ts_targets ts) then (true, true)
  else (bool_decide (label_package label ∈ ts_packages ts), false).

Definition MatchExact (ts : TargetSet) (label : BuildLabel) : bool := bool_decide (label ∈ ts_targets ts).

Definition ts_AllTargets (ts : TargetSet) : list BuildLabel := everything ts.

(** ** Original targets *)

Record Asked := MkAsked {
  asked_graph : BuildGraph;
  Include : list string;
  Exclude : list string;
  ExcludeTargets : list BuildLabel;
  originalTargets : TargetSet;
  NeedTests : bool;
  asked_ForceRebuild : bool;
}.

(** [AddOriginalTarget] *)
Definition AddOriginalTarget (s : Asked) (label : BuildLabel) : res Asked :=
  ts ← ts_Add (originalTargets s) label;
  Ok (MkAsked (asked_graph s) (Include s) (Exclude s) (ExcludeTargets s) ts (NeedTests s) (asked_ForceRebuild s)).

(** [SetIncludeAndExclude]: what is excluded by a label stays excluded. *)
Definition exclude_one (initial : string) (acc : res (list string * list BuildLabel)) (e : string) : res (list string * list BuildLabel) :=
  '(exclude, targets) ← acc;
  if LooksLikeABuildLabel e then
    match parseMaybeRelativeBuildLabel initial e "" with
    | inl _ => Err (EFatal "invalid build label")
    | inr label => Ok (exclude, targets ++ [label])
    end
  else Ok (exclude ++ [e], targets).

Definition SetIncludeAndExclude (initial : string) (s : Asked) (include exclude : list string) : res Asked :=
  '(ex, targets) ← foldl (exclude_one initial) (Ok ([], ExcludeTargets s)) exclude;
  Ok (MkAsked (asked_graph s) include ex targets (originalTargets s) (NeedTests s) (asked_ForceRebuild s)).

(** [IsExcluded] and [ShouldInclude] *)
Definition IsExcluded (s : Asked) (label : BuildLabel) : bool := existsb (fun e => Includes e label) (ExcludeTargets s).

Definition state_ShouldInclude (s : Asked) (t : BuildTarget) : bool :=
  if IsExcluded s (Label t) then false else ShouldInclude t (Include s) (Exclude s).

(** [isOriginalTarget] and [IsOriginalTarget] *)
Definition isOriginalTarget (s : Asked) (t : BuildTarget) (exact : bool) : bool :=
  if exact then MatchExact (originalTargets s) (Label t)
  else let '(matched, wasExact) := Match (originalTargets s) (Label t) in matched && (wasExact || state_ShouldInclude s t).

Definition state_IsOriginalTarget (s : Asked) (t : BuildTarget) : bool := isOriginalTarget s t false.

Definition IsOriginalTargetOrParent (s : Asked) (t : BuildTarget) : bool :=
  if state_IsOriginalTarget s t then true
  else match target_Parent (asked_graph s) t with Some parent => state_IsOriginalTarget s parent | None => false end.

(** [ShouldRebuild] *)
Definition ShouldRebuild (s : Asked) (t : BuildTarget) : bool := asked_ForceRebuild s && IsOriginalTargetOrParent s t.

(** ** Expanding labels *)

(** The targets of a package that are included, and are tests if only those count; a pointer
    to a target is followed. *)
Definition add_package (s : Asked) (justTests : bool) (pkg : Package) : res (list BuildLabel) :=
  foldM (fun ret l =>
    t ← TargetOrDie (asked_graph s) l;
    Ok (if state_ShouldInclude s t && (negb justTests || IsTest t) then ret ++ [Label t] else ret)) [] (pkg_AllTargets pkg).

(** [expandOriginalPseudoTarget]; the names of packages in subrepos are those with the name
    of the subrepo. *)
Definition expandOriginalPseudoTarget (s : Asked) (label : BuildLabel) (justTests : bool) : res (list BuildLabel) :=
  ret ← (if IsAllTargets label then
           match PackageByLabel (asked_graph s) label with Some pkg => add_package s justTests pkg | None => Ok [] end
         else
           foldM (fun ret '(name, pkg) =>
             match pkg with
             | Some pkg => if Includes label (MkBuildLabel name "" "") then more ← add_package s justTests pkg; Ok (ret ++ more) else Ok ret
             | None => Ok ret
             end) [] (map_to_list (PackageMap (asked_graph s))));
  Ok (sort_labels ret).

(** [expandLabels] *)
Definition expandLabels (s : Asked) (labels : list BuildLabel) (justTests : bool) : res (list BuildLabel) :=
  foldM (fun ret label =>
    if IsPseudoTarget label then more ← expandOriginalPseudoTarget s label justTests; Ok (ret ++ more)
    else Ok (ret ++ [label])) [] labels.

Definition ExpandLabels (s : Asked) (labels : list BuildLabel) : res (list BuildLabel) := expandLabels s labels (NeedTests s).
Definition ExpandOriginalLabels (s : Asked) : res (list BuildLabel) := ExpandLabels s (ts_AllTargets (originalTargets s)).
Definition ExpandAllOriginalLabels (s : Asked) : res (list BuildLabel) := expandLabels s (ts_AllTargets (originalTargets s)) false.

(** [ExpandVisibleOriginalTargets] *)
Definition ExpandVisibleOriginalTargets (s : Asked) : res (list BuildLabel) :=
  labels ← ExpandOriginalLabels s;
  foldM (fun ret target =>
    if negb (HasParent target) then Ok (ret ++ [target])
    else t ← TargetOrDie (asked_graph s) target; Ok (if isOriginalTarget s t true then ret ++ [target] else ret)) [] labels.

(** Labels with annotations, which name outputs: these are kept as they are. *)
Definition AnnotatedLabel : Type := BuildLabel * string.

Definition AnnotateLabels (labels : list BuildLabel) : list AnnotatedLabel := map (fun l => (l, "")) labels.

Definition readingStdinAnnotated (labels : list AnnotatedLabel) : bool := existsb (fun l => bool_decide (l.1 = BuildLabelStdin)) labels.

Definition ExpandMaybeAnnotatedLabels (s : Asked) (labels : list AnnotatedLabel) : res (list AnnotatedLabel) :=
  foldM (fun ret l =>
    if String.eqb l.2 "" then more ← ExpandLabels s [l.1]; Ok (ret ++ AnnotateLabels more) else Ok (ret ++ [l])) [] labels.

Definition ExpandOriginalMaybeAnnotatedLabels (s : Asked) (args : list AnnotatedLabel) : res (list AnnotatedLabel) :=
  args ← (if readingStdinAnnotated args then labels ← ExpandOriginalLabels s; Ok (AnnotateLabels labels) else Ok args);
  ExpandMaybeAnnotatedLabels s args.

(** [GetPreloadedSubincludes]: those of the configuration and of the repo's, once each *)
Definition GetPreloadedSubincludes (config repo : list BuildLabel) : list BuildLabel :=
  match repo with
  | [] => config
  | _ => foldl (fun includes i => if decide (i ∈ includes) then includes else includes ++ [i]) [] (config ++ repo)
  end.

(** ** Events *)

Inductive BuildResultStatus :=
  | PackageParsing | PackageParsed | ParseFailed | TargetBuilding | TargetBuildStopped | TargetBuilt | TargetCached
  | TargetBuildFailed | TargetTesting | TargetTestStopped | TargetTested | TargetTestFailed.

Definition Category (s : BuildResultStatus) : string :=
  match s with
  | PackageParsing | PackageParsed | ParseFailed => "Parse"
  | TargetBuilding | TargetBuildStopped | TargetBuilt | TargetCached | TargetBuildFailed => "Build"
  | TargetTesting | TargetTestStopped | TargetTested | TargetTestFailed => "Test"
  end.

Definition IsParse (s : BuildResultStatus) : bool := match s with PackageParsing | PackageParsed | ParseFailed => true | _ => false end.
Definition IsFailure (s : BuildResultStatus) : bool := match s with ParseFailed | TargetBuildFailed | TargetTestFailed => true | _ => false end.
Definition IsActive (s : BuildResultStatus) : bool := match s with PackageParsing | TargetBuilding | TargetTesting => true | _ => false end.

(** What has failed: anything, a build, a test *)
Definition failures : Type := bool * bool * bool.

(** [logResult]; an error that says that something was cancelled is not reported. *)
Definition logResult (f : failures) (status : BuildResultStatus) (cancelled : bool) : failures :=
  let '(failed, buildFailed, testFailed) := f in
  if cancelled then f
  else if IsFailure status then
    (true, match status with TargetBuildFailed => true | _ => buildFailed end,
     match status with TargetTestFailed => true | _ => testFailed end)
  else f.

(** ** What changed *)

Section changes.
Context (range_map : forall A, gmap string A -> list (string * A)) (sha1 : string -> string).

(** [toolPathHash] and [sourceHash] *)
Definition toolPathHash (st : build_state) (tool : BuildInput) : res string :=
  paths ← LocalPaths (home st) (st_graph st) tool; Ok (sha1 (join "" paths)).

Definition tools_hash (st : build_state) (t : BuildTarget) : res string :=
  foldM (fun hash tool =>
    match input_Label tool with
    | Some _ => Ok hash
    | None => h ← toolPathHash st tool; Ok (hash +:+ h)
    end) "" (AllTools t).

(** [targetChanged] *)
Definition targetChanged (s1 s2 : build_state) (t1 t2 : BuildTarget) : res bool :=
  '(h1, _) ← RuleHash sha1 s1 t1 true false;
  '(h2, _) ← RuleHash sha1 s2 t2 true false;
  if negb (String.eqb h1 h2) then Ok true
  else h1 ← tools_hash s1 t1; h2 ← tools_hash s2 t2; Ok (negb (String.eqb h1 h2)).

(** [diffGraphs] *)
Definition diff_one (before after : build_state) (l : BuildLabel) : res bool :=
  match Target (st_graph before) l with
  | None => Ok true
  | Some t1 =>
      t2 ← TargetOrDie (st_graph after) l;
      c ← targetChanged before after t1 t2;
      Ok (c || negb (String.eqb (Hashes_Config before) (Hashes_Config after)))
  end.

Definition diffGraphs (before after : build_state) : res (gset BuildLabel) :=
  foldM (fun changed l => c ← diff_one before after l; Ok (if c : bool then {[l]} ∪ changed else changed)) ∅
    (graph_AllTargets (st_graph after)).

(** The package that is closest to a file *)
Fixpoint closest (fuel : nat) (g : BuildGraph) (dir : string) : res (option Package) :=
  if String.eqb dir "." || String.eqb dir "/" then Ok None
  else
    match fuel with
    | O => NoFuel
    | S fuel =>
        let dir := path_dir dir in
        match graph_Package g (if String.eqb dir "." then "" else dir) "" with
        | Some pkg => Ok (Some pkg)
        | None => closest fuel g dir
        end
    end.

Definition add_file (g : BuildGraph) (changed : gset BuildLabel) (filename : string) : res (gset BuildLabel) :=
  pkg ← closest (2 + String.length filename) g filename;
  match pkg with
  | None => Ok changed
  | Some pkg =>
      foldM (fun changed l => t ← TargetOrDie g l; Ok (if HasAbsoluteSource t filename then {[Label t]} ∪ changed else changed))
        changed (pkg_AllTargets pkg)
  end.

(** [changedTargets] *)
Definition changedTargets (st : build_state) (s : Asked) (files : list string) (changed : gset BuildLabel) (level : Z)
    (includeSubrepos : bool) : res (list BuildLabel) :=
  let g := st_graph st in
  changed ← foldM (add_file g) changed files;
  more ← (if (level =? 0)%Z then Ok ∅ else FindRevdeps range_map g (elements changed) true false includeSubrepos level);
  ls ← foldM (fun ls l =>
    t ← TargetOrDie g l;
    Ok (if state_ShouldInclude s t && (includeSubrepos || bool_decide (target_Subrepo t = None)) then ls ++ [l] else ls)) []
    (elements changed ++ elements (more ∖ changed));
  Ok (sort_labels ls).

(** [DiffGraphs] and [Changes] *)
Definition DiffGraphs (before after : build_state) (s : Asked) (files : list string) (level : Z) (includeSubrepos : bool) :
    res (list BuildLabel) :=
  changed ← diffGraphs before after; changedTargets after s files changed level includeSubrepos.

Definition Changes (st : build_state) (s : Asked) (files : list string) (level : Z) (includeSubrepos : bool) : res (list BuildLabel) :=
  changedTargets st s files ∅ level includeSubrepos.
End changes.

(** ** Files and targets *)

(** [whatInputs]: for each file the targets, or the rules that made them, that have it as a source *)
Definition whatInputs (targets : list BuildTarget) (files : list string) (hidden : bool) : gmap string (list BuildLabel) :=
  let filesMap : gmap string (gset BuildLabel) :=
    foldl (fun m target =>
      foldl (fun m source =>
        match m !! source with
        | Some labels => <[source := {[if hidden then Label target else Parent (Label target)]} ∪ labels]> m
        | None => m
        end) m (Gc.AllLocalSourcePaths target)) (gset_to_gmap ∅ (list_to_set files)) targets in
  fmap (fun labels => merge_sort (fun a b => Is_true (negb (str_ltb (label_String b) (label_String a)))) (elements labels)) filesMap.

(** [whatOutputs] *)
Definition whatOutputs (home : string) (g : BuildGraph) (targets : list BuildLabel) (file : string) : res (list BuildLabel) :=
  foldM (fun ret l =>
    t ← TargetOrDie g l;
    outs ← FullOutputs home g t;
    Ok (ret ++ map (fun _ => Label t) (filter (fun output => output = file) outs))) [] targets.

(** [targetOutputsFlat] and [targetOutputsJSON] *)
Definition targetOutputsFlat (home : string) (g : BuildGraph) (labels : list BuildLabel) : res (list string) :=
  foldM (fun printed l =>
    t ← TargetOrDie g l;
    outs ← Outputs home g t;
    Ok (printed ++ map (fun out => path_join [target_OutDir t; out]) outs)) [] labels.

Definition targetOutputsJSON (home : string) (g : BuildGraph) (labels : list BuildLabel) : res (gmap string (list string)) :=
  foldM (fun data l =>
    t ← TargetOrDie g l;
    outs ← Outputs home g t;
    Ok (foldl (fun data out =>
          <[label_String l := default [] (data !! label_String l) ++ [path_join [target_OutDir t; out]]]> data) data outs)) ∅ labels.

(** [RuntimeDeps] *)
Definition query_runtimeDeps (g : BuildGraph) (printed : list BuildLabel) (l : BuildLabel) : res (list BuildLabel) :=
  deps ← IterAllRuntimeDependencies g l;
  Ok (foldl (fun printed l => if decide (l ∈ printed) then printed else printed ++ [l]) printed deps).

Definition RuntimeDeps (g : BuildGraph) (labels : list BuildLabel) : res (list BuildLabel) :=
  foldM (fun printed l => t ← TargetOrDie g l; query_runtimeDeps g printed (Label t)) [] labels.

(** [Filter] *)
Definition Filter (s : Asked) (labels : list BuildLabel) (showHidden : bool) : res (list BuildLabel) :=
  foldM (fun printed l =>
    if showHidden || negb (has_prefix (Name l) "_") then
      t ← TargetOrDie (asked_graph s) l; Ok (if state_ShouldInclude s t then printed ++ [l] else printed)
    else Ok printed) [] labels.

(** ** Loops that collect *)

(** A loop that appends what each element gives. *)
Lemma foldM_collect {A B} (f : list B -> A -> res (list B)) (P : A -> list B -> Prop) l ret :
  (forall x ret, x ∈ l -> exists more, f ret x = Ok (ret ++ more) /\ P x more) ->
  exists mores, foldM f ret l = Ok (ret ++ concat mores) /\ Forall2 P l mores.
Proof.
  revert ret. induction l as [|x l IH]; intros ret H; cbn.
  - exists []. by rewrite app_nil_r.
  - destruct (H x ret) as (more & -> & HP); [by left|]. cbn. destruct (IH (ret ++ more)) as (mores & -> & Hm).
    { intros y ret' Hy. apply H. by right. }
    exists (more :: mores). rewrite <- app_assoc. split; [done|by constructor].
Qed.

Lemma elem_of_collected {A B} (P : A -> list B -> Prop) (Q : A -> B -> Prop) l mores b :
  Forall2 P l mores -> (forall x more, x ∈ l -> P x more -> (b ∈ more <-> Q x b)) -> b ∈ concat mores <-> exists x, x ∈ l /\ Q x b.
Proof.
  induction 1 as [|x more l mores HP H IH]; intros HQ; cbn.
  - split; [by intros ?%elem_of_nil|by intros (x & ?%elem_of_nil & _)].
  - rewrite elem_of_app, IH, (HQ x more); [|by left|done|by intros y m Hy; apply HQ; right].
    setoid_rewrite elem_of_cons. naive_solver.
Qed.

(** A loop that keeps some elements of a list. *)
Lemma foldM_select {A B} (f : list B -> A -> res (list B)) (keep : A -> option B) l ret :
  (forall x ret, x ∈ l -> f ret x = Ok (ret ++ option_list (keep x))) -> foldM f ret l = Ok (ret ++ omap keep l).
Proof.
  revert ret. induction l as [|x l IH]; intros ret H; cbn; [by rewrite app_nil_r|].
  rewrite H by (by left). cbn. rewrite IH by (intros y r Hy; apply H; by right). rewrite <- app_assoc. by destruct (keep x).
Qed.

(** ** What is asked for *)

(** The set holds what was added to it. *)
Record set_of (labels : list BuildLabel) (ts : TargetSet) : Prop := {
  so_everything : everything ts = labels;
  so_targets : forall l, l ∈ ts_targets ts <-> l ∈ labels /\ IsPseudoTarget l = false;
  so_packages : forall p, p ∈ ts_packages ts <-> exists l, l ∈ labels /\ IsAllTargets l = true /\ label_package l = p;
  so_local : forall l, l ∈ labels -> IsAllSubpackages l = false;
}.

Lemma set_of_Add labels ts l ts' : set_of labels ts -> ts_Add ts l = Ok ts' -> set_of (labels ++ [l]) ts'.
Proof.
  intros [H1 H2 H3 H4]. unfold ts_Add. destruct (IsAllSubpackages l) eqn:Hs; [done|]. destruct (IsAllTargets l) eqn:Ha; intros [= <-]; split; cbn.
  all: try (by rewrite H1).
  all: try (intros k; rewrite elem_of_app, list_elem_of_singleton; intros [?| ->]; [by apply H4|done]).
  - intros k. rewrite H2, elem_of_app, list_elem_of_singleton. split; [by intros []; eauto|]. intros [[?| ->] Hp]; [done|].
    unfold IsPseudoTarget in Hp. by rewrite Hs, Ha in Hp.
  - intros p. rewrite elem_of_union, elem_of_singleton, H3. setoid_rewrite elem_of_app. setoid_rewrite list_elem_of_singleton. naive_solver.
  - intros k. rewrite elem_of_union, elem_of_singleton, H2, elem_of_app, list_elem_of_singleton. split; [|naive_solver].
    intros [->|[? ?]]; [|by eauto]. unfold IsPseudoTarget. rewrite Hs, Ha. by eauto.
  - intros p. rewrite H3. setoid_rewrite elem_of_app. setoid_rewrite list_elem_of_singleton. naive_solver congruence.
Qed.

Lemma set_of_more labels ls ts ts' : set_of labels ts -> foldM ts_Add ts ls = Ok ts' -> set_of (labels ++ ls) ts'.
Proof.
  revert labels ts. induction ls as [|l ls IH]; intros labels ts H; cbn [foldM]; [intros [= <-]; by rewrite app_nil_r|].
  intros (ts1 & H1 & H2)%bind_Ok. rewrite cons_middle, app_assoc. eapply IH, H2. by eapply set_of_Add.
Qed.

Lemma set_of_labels labels ts : foldM ts_Add NewTargetSet labels = Ok ts -> set_of labels ts.
Proof.
  intros H. eapply (set_of_more []); [|done].
  split; [done| | |]; cbn; intros l; rewrite ?elem_of_nil, ?elem_of_empty; [tauto| |done].
  split; [done|]. by intros (? & ?%elem_of_nil & _).
Qed.

(** Targets are registered in their packages, and the other way around. *)
Record packages_registered (g : BuildGraph) : Prop := {
  rg_wf : graph_wf g;
  rg_pkg : forall l, is_Some (Target g l) -> exists pkg, PackageByLabel g l = Some pkg /\ l ∈ pkg_AllTargets pkg;
  rg_target : forall p pkg l, PackageByLabel g p = Some pkg -> l ∈ pkg_AllTargets pkg ->
    is_Some (Target g l) /\ label_package l = label_package p;
}.

Lemma PackageByLabel_same g l p : label_package l = label_package p -> PackageByLabel g l = PackageByLabel g p.
Proof. intros [= H1 H2]. unfold PackageByLabel. by rewrite H1, H2. Qed.

(** The included targets of a package *)
Definition included_target (s : Asked) (justTests : bool) (l : BuildLabel) : option BuildLabel :=
  match Target (asked_graph s) l with
  | Some t => if state_ShouldInclude s t && (negb justTests || IsTest t) then Some (Label t) else None
  | None => None
  end.

Lemma add_package_spec s justTests p pkg :
  packages_registered (asked_graph s) -> PackageByLabel (asked_graph s) p = Some pkg ->
  add_package s justTests pkg = Ok (omap (included_target s justTests) (pkg_AllTargets pkg)).
Proof.
  intros Hg Hp. unfold add_package. rewrite (foldM_select _ (included_target s justTests)); [done|]. intros l ret Hl.
  destruct (rg_target _ Hg p pkg l Hp Hl) as [[t Ht] _]. rewrite (proj2 (TargetOrDie_Ok _ _ _) Ht), bind_Ok_l.
  unfold included_target. rewrite Ht. destruct (_ && _); [done|]. by rewrite app_nil_r.
Qed.

Lemma expandOriginalPseudoTarget_spec s p justTests :
  packages_registered (asked_graph s) -> IsAllTargets p = true ->
  exists ls, expandOriginalPseudoTarget s p justTests = Ok ls /\
    forall l, l ∈ ls <-> exists t, Target (asked_graph s) l = Some t /\ label_package l = label_package p /\
                             state_ShouldInclude s t = true /\ (justTests = true -> IsTest t = true).
Proof.
  intros Hg Ha. unfold expandOriginalPseudoTarget. rewrite Ha. destruct (PackageByLabel (asked_graph s) p) as [pkg|] eqn:Hp.
  - rewrite (add_package_spec s justTests p) by done. rewrite bind_Ok_l. eexists. split; [done|]. intros l.
    rewrite elem_of_sort_labels, list_elem_of_omap. unfold included_target. split.
    + intros (k & Hk & H). destruct (Target (asked_graph s) k) as [t|] eqn:Ht; [|done].
      destruct (state_ShouldInclude s t) eqn:Hi; [|done]. destruct (negb justTests || IsTest t) eqn:Hj; [|done]. injection H as <-.
      rewrite (Target_Label _ k t) by (done || by apply Hg). exists t. split_and!; [done| |done|by destruct justTests].
      by apply (rg_target _ Hg p pkg k).
    + intros (t & Ht & Hl & Hi & Hj). destruct (rg_pkg _ Hg l) as (pkg' & Hpkg & Hin); [eauto|].
      rewrite (PackageByLabel_same _ _ _ Hl), Hp in Hpkg. injection Hpkg as <-. exists l. split; [done|].
      rewrite Ht, Hi, (Target_Label _ l t) by (done || by apply Hg). destruct justTests; [by rewrite Hj|done].
  - rewrite bind_Ok_l. eexists. split; [done|]. intros l. rewrite elem_of_sort_labels, elem_of_nil. split; [done|].
    intros (t & Ht & Hl & _). destruct (rg_pkg _ Hg l) as (pkg' & Hpkg & _); [eauto|].
    by rewrite (PackageByLabel_same _ _ _ Hl), Hp in Hpkg.
Qed.

(** What a label stands for *)
Definition stands_for (s : Asked) (justTests : bool) (label l : BuildLabel) : Prop :=
  if IsPseudoTarget label
  then exists t, Target (asked_graph s) l = Some t /\ label_package l = label_package label /\
         state_ShouldInclude s t = true /\ (justTests = true -> IsTest t = true)
  else l = label.

Lemma expandLabels_spec s labels justTests :
  packages_registered (asked_graph s) -> (forall l, l ∈ labels -> IsAllSubpackages l = false) ->
  exists ls, expandLabels s labels justTests = Ok ls /\
    forall l, l ∈ ls <-> exists label, label ∈ labels /\ stands_for s justTests label l.
Proof.
  intros Hg Hs. unfold expandLabels.
  lazymatch goal with |- context [foldM ?f [] labels] =>
    destruct (foldM_collect f (fun label more => forall l, l ∈ more <-> stands_for s justTests label l) labels []) as (mores & -> & Hm)
  end.
  - intros label ret Hl. unfold stands_for. destruct (IsPseudoTarget label) eqn:Hp.
    + assert (IsAllTargets label = true) as Ha by (unfold IsPseudoTarget in Hp; by rewrite Hs in Hp).
      destruct (expandOriginalPseudoTarget_spec s label justTests Hg Ha) as (more & -> & Hmore). rewrite bind_Ok_l. eauto.
    + exists [label]. split; [done|]. intros l. by rewrite list_elem_of_singleton.
  - eexists. split; [done|]. intros l. cbn. by apply (elem_of_collected _ _ _ _ _ Hm).
Qed.

(** C36: A target counts as original exactly if it is among the labels that what was asked for
    is expanded to. *)
Theorem original_iff_expanded s labels :
  packages_registered (asked_graph s) -> foldM ts_Add NewTargetSet labels = Ok (originalTargets s) ->
  exists all, ExpandAllOriginalLabels s = Ok all /\
    forall l t, Target (asked_graph s) l = Some t -> (l ∈ all <-> state_IsOriginalTarget s t = true).
Proof.
  intros Hg [He Ht Hp Hl]%set_of_labels. unfold ExpandAllOriginalLabels, ts_AllTargets. rewrite He.
  destruct (expandLabels_spec s labels false Hg Hl) as (all & -> & Hall). exists all. split; [done|]. intros l t Hlt.
  rewrite Hall. unfold state_IsOriginalTarget, isOriginalTarget, Match. rewrite (Target_Label _ l t) by (done || by apply Hg).
  case_bool_decide as Hin; [|case_bool_decide as Hin2; cbn].
  - split; [done|]. intros _. apply Ht in Hin as [Hin Hps]. exists l. split; [done|]. unfold stands_for. by rewrite Hps.
  - apply Hp in Hin2 as (p & Hpl & Hpa & Hpe). split.
    + intros (q & Hq & Hs). unfold stands_for in Hs. destruct (IsPseudoTarget q) eqn:Hps; [naive_solver congruence|].
      subst q. exfalso. apply Hin, Ht. done.
    + intros Hi. exists p. split; [done|]. unfold stands_for, IsPseudoTarget. rewrite Hpa, orb_true_r. exists t. done.
  - split; [|done]. intros (q & Hq & Hs). exfalso. unfold stands_for in Hs. destruct (IsPseudoTarget q) eqn:Hps.
    + destruct Hs as (_ & _ & Hs & _). apply Hin2, Hp. exists q. split_and!; [done| |done].
      unfold IsPseudoTarget in Hps. by rewrite Hl in Hps.
    + subst q. apply Hin, Ht. done.
Qed.

(** ** The package of a file *)

(** The directories a file is in *)
Definition in_dir (name file : string) : Prop := name = "" \/ (name <> file /\ under name file = true).

(** The package that may use a file *)
Record closest_package (g : BuildGraph) (name file : string) : Prop := {
  cl_package : is_Some (graph_Package g name "");
  cl_dir : in_dir name file;
  cl_closest : forall name', is_Some (graph_Package g name' "") -> in_dir name' file -> name' = "" \/ under name' name = true;
}.

Lemma closest_unique g file p q : closest_package g p file -> closest_package g q file -> p = q.
Proof.
  intros [Hp Hpd Hpc] [Hq Hqd Hqc]. specialize (Hpc q Hq Hqd). specialize (Hqc p Hp Hpd).
  assert (forall x, under x "" = true -> x = "") as Hnil.
  { intros x (s & _ & H)%under_spec. by destruct x. }
  destruct Hpc as [->|Hpc], Hqc as [->|Hqc]; [done|by rewrite (Hnil p)|by rewrite (Hnil q)|by apply under_antisym].
Qed.

Lemma good_under c name : good c = true -> under name c = true -> name = c.
Proof.
  intros (_ & _ & _ & Hc)%good_spec (s & Hs & ->)%under_spec. apply is_below_cases in Hs as [->|[s' ->]]; [by rewrite str_app_nil_r|].
  by rewrite contains_byte_app, contains_byte_cons, Ascii.eqb_refl, orb_true_r in Hc.
Qed.

(** The directory of a file is the top, or a path, and what the file is in is that or above. *)
Lemma in_dir_step file : local file = true ->
  (path_dir file = "." /\ forall name, in_dir name file <-> name = "") \/
  (local (path_dir file) = true /\ String.length (path_dir file) < String.length file /\
    forall name, in_dir name file <-> name = path_dir file \/ in_dir name (path_dir file)).
Proof.
  intros [H|(p & c & -> & Hp & Hc)]%local_last.
  - left. split.
    + pose proof (proj1 (good_spec _) H) as (_ & _ & _ & Hs). unfold path_dir, path_split. by rewrite (proj2 (last_index_byte_None _ _)).
    + intros name. split; [|by left]. intros [?|[Hn Hu]]; [done|]. by apply good_under in Hu.
  - right. rewrite path_dir_join by (done || by apply orb_true_iff; right). split_and!; [done|rewrite !str_length_app; cbn; lia|].
    intros name. unfold in_dir. apply good_spec in Hc as (_ & _ & _ & Hc). rewrite under_dir by done.
    assert (forall s, p <> p +:+ "/" +:+ s) as Hne.
    { intros s E. apply (f_equal String.length) in E. rewrite !str_length_app in E. cbn in E. lia. }
    split.
    + intros [?|[? [?|Hu]]]; [by right; left|done|]. destruct (decide (name = p)) as [->|]; [by left|by right; right].
    + intros [->|[->|[Hn Hu]]]; [right; split; [apply Hne|right; apply under_refl]|by left|right].
      split; [|by right]. intros ->. apply (under_antisym (p +:+ "/" +:+ c) p) in Hu; [by apply (Hne c)|].
      apply under_spec. exists ("/" +:+ c). split; [apply is_below_slash|done].
Qed.

Lemma closest_spec fuel g file : local file = true -> String.length file < fuel ->
  match closest fuel g file with
  | Ok (Some pkg) => exists name, graph_Package g name "" = Some pkg /\ closest_package g name file
  | Ok None => forall name, in_dir name file -> graph_Package g name "" = None
  | _ => False
  end.
Proof.
  revert file. induction fuel as [|fuel IH]; intros file Hl Hf; [lia|]. cbn [closest].
  assert (String.eqb file "." || String.eqb file "/" = false) as ->.
  { apply orb_false_iff. split; apply String.eqb_neq; by intros ->. }
  destruct (in_dir_step file Hl) as [[-> Hd]|(Hld & Hlen & Hd)].
  - cbv zeta. change (if String.eqb "." "." then "" else ".") with "". destruct (graph_Package g "" "") as [pkg|] eqn:Hp.
    + exists "". split; [done|]. split; [eauto|by left|]. intros name _ ->%Hd. by left.
    + assert (closest fuel g "." = Ok None) as -> by (by destruct fuel). by intros name ->%Hd.
  - assert (String.eqb (path_dir file) "." = false) as -> by (apply String.eqb_neq; intros E; by rewrite E in Hld).
    cbv zeta. destruct (graph_Package g (path_dir file) "") as [pkg|] eqn:Hp.
    + exists (path_dir file). split; [done|]. split; [eauto|apply Hd; by left|].
      intros name _ [->|[?|[_ ?]]]%Hd; [right; apply under_refl|by left|by right].
    + generalize (IH (path_dir file) Hld ltac:(lia)). destruct (closest fuel g (path_dir file)) as [[pkg|]| |]; intros H; [| |done|done].
      * destruct H as (name & Hn & [H1 H2 H3]). exists name. split; [done|]. split; [done|apply Hd; by right|].
        intros name' Hs [->|Hi]%Hd; [|by apply H3]. rewrite Hp in Hs. by destruct Hs.
      * intros name [->|Hi]%Hd; [done|by apply H].
Qed.

(** A target that has the file as a source, in the package that may use it *)
Definition uses_file (g : BuildGraph) (file : string) (l : BuildLabel) : Prop :=
  exists t, Target g l = Some t /\ Subrepo l = "" /\ closest_package g (PackageName l) file /\ HasAbsoluteSource t file = true.

(** A loop that adds to a set *)
Lemma foldM_adds {A B} `{Countable B} (f : gset B -> A -> res (gset B)) (P : A -> B -> Prop) l s :
  (forall x s, x ∈ l -> exists s', f s x = Ok s' /\ forall b, b ∈ s' <-> b ∈ s \/ P x b) ->
  exists s', foldM f s l = Ok s' /\ forall b, b ∈ s' <-> b ∈ s \/ exists x, x ∈ l /\ P x b.
Proof.
  revert s. induction l as [|x l IH]; intros s Hs; cbn.
  - exists s. split; [done|]. intros b. split; [by left|]. by intros [?|(x & ?%elem_of_nil & _)].
  - destruct (Hs x s) as (s1 & -> & H1); [by left|]. cbn. destruct (IH s1) as (s2 & -> & H2); [intros y s' Hy; apply Hs; by right|].
    exists s2. split; [done|]. intros b. rewrite H2, H1. setoid_rewrite elem_of_cons. naive_solver.
Qed.

Lemma add_file_spec g changed file : packages_registered g -> local file = true ->
  exists changed', add_file g changed file = Ok changed' /\ forall l, l ∈ changed' <-> l ∈ changed \/ uses_file g file l.
Proof.
  intros Hg Hl. unfold add_file. generalize (closest_spec (2 + String.length file) g file Hl ltac:(lia)).
  destruct (closest _ g file) as [[pkg|]| |]; intros Hc; [| |done|done]; rewrite bind_Ok_l.
  - destruct Hc as (name & Hp & Hc). change (PackageByLabel g (MkBuildLabel name "" "") = Some pkg) in Hp.
    lazymatch goal with |- context [foldM ?f changed _] =>
      destruct (foldM_adds f (fun l b => l = b /\ exists t, Target g l = Some t /\ HasAbsoluteSource t file = true) (pkg_AllTargets pkg) changed) as (ch & -> & Hch)
    end.
    + intros l s Hin. destruct (rg_target _ Hg _ _ _ Hp Hin) as [[t Ht] _]. rewrite (proj2 (TargetOrDie_Ok _ _ _) Ht), bind_Ok_l.
      rewrite (Target_Label _ l t) by (done || by apply Hg). eexists. split; [done|]. intros b.
      destruct (HasAbsoluteSource t file) eqn:Hh; [rewrite elem_of_union, elem_of_singleton|]; naive_solver congruence.
    + exists ch. split; [done|]. intros l. rewrite Hch. f_equiv. unfold uses_file. split.
      * intros (? & Hin & -> & t & Ht & Hh). exists t. destruct (rg_target _ Hg _ _ _ Hp Hin) as [_ [= -> ->]]. done.
      * intros (t & Ht & Hs & Hcl & Hh). exists l. split; [|eauto]. destruct (rg_pkg _ Hg l) as (pkg' & Hp' & Hin); [eauto|].
        rewrite (PackageByLabel_same g l (MkBuildLabel name "" "")), Hp in Hp'; [by injection Hp' as ->|].
        unfold label_package. rewrite Hs. cbn. f_equal. by eapply closest_unique.
  - exists changed. split; [done|]. intros l. split; [by left|]. intros [?|(t & _ & _ & [[pkg Hp] Hd _] & _)]; [done|].
    by rewrite Hc in Hp.
Qed.

(** ** What changed *)


Lemma sort_labels_sorted l : StronglySorted label_le (sort_labels l).
Proof. apply (StronglySorted_merge_sort label_le). Qed.

Lemma sort_labels_NoDup l : NoDup l -> NoDup (sort_labels l).
Proof. intros H. unfold sort_labels. by rewrite merge_sort_Permutation. Qed.

Section changed.
Context (range_map : forall A, gmap string A -> list (string * A)) (sha1 : string -> string).

(** The targets something leads to: itself, and at any level but 0 those that depend on it, directly or not *)
Definition leads_to (g : BuildGraph) (includeSubrepos : bool) (level : Z) (c l : BuildLabel) : Prop :=
  c = l \/ level <> 0%Z /\ tc (depends g includeSubrepos) c l.

(** Which targets are printed *)
Definition shown (s : Asked) (includeSubrepos : bool) (t : BuildTarget) : bool :=
  state_ShouldInclude s t && (includeSubrepos || bool_decide (target_Subrepo t = None)).

Lemma leads_to_target g includeSubrepos level c l :
  is_Some (Target g c) -> leads_to g includeSubrepos level c l -> is_Some (Target g l).
Proof.
  intros Hc [<-|[_ H]]; [done|]. induction H as [x y (t & Ht & _)|x y z (t & Ht & _) _ IH]; [eauto|]. apply IH. eauto.
Qed.

(** What is kept of a list without duplicates has none. *)
Lemma NoDup_keep {A} (keep : A -> option A) l : (forall x y, keep x = Some y -> y = x) -> NoDup l -> NoDup (omap keep l).
Proof.
  intros Hk. induction 1 as [|x l Hx Hl IH]; cbn; [constructor|]. destruct (keep x) as [y|] eqn:E; [|done]. apply Hk in E as ->.
  constructor; [|done]. intros (z & Hz & ->%Hk)%list_elem_of_omap. done.
Qed.

Lemma changedTargets_spec st s files changed level includeSubrepos :
  let g := st_graph st in
  packages_registered g ->
  level = 0%Z \/ level = (-1)%Z -> (forall f, f ∈ files -> local f = true) -> (forall l, l ∈ changed -> is_Some (Target g l)) ->
  exists ls, changedTargets range_map st s files changed level includeSubrepos = Ok ls /\
    StronglySorted label_le ls /\ NoDup ls /\
    forall l, l ∈ ls <->
      (exists t, Target g l = Some t /\ shown s includeSubrepos t = true) /\
      exists c, (c ∈ changed \/ exists f, f ∈ files /\ uses_file g f c) /\ leads_to g includeSubrepos level c l.
Proof.
  intros g Hg Hlevel Hfiles Hch. unfold changedTargets. fold g.
  destruct (foldM_adds (add_file g) (fun f l => uses_file g f l) files changed) as (ch & -> & Hin).
  { intros f set Hf. by apply add_file_spec, Hfiles. }
  rewrite bind_Ok_l.
  assert (forall l, l ∈ ch -> is_Some (Target g l)) as Hch'.
  { intros l [?|(f & _ & t & Ht & _)]%Hin; [by apply Hch|eauto]. }
  assert (exists more, (if (level =? 0)%Z then Ok ∅ else FindRevdeps range_map g (elements ch) true false includeSubrepos level) = Ok more /\
    forall l, l ∈ ch \/ l ∈ more <-> exists c, c ∈ ch /\ leads_to g includeSubrepos level c l) as (more & -> & Hmore).
  { destruct Hlevel as [->| ->]; cbn [Z.eqb].
    - exists ∅. split; [done|]. intros l. unfold leads_to. rewrite elem_of_empty. naive_solver.
    - destruct (FindRevdeps_unlimited range_map g (elements ch) false includeSubrepos) as (more & -> & Hm); [apply Hg|apply rev_closed_direct, Hg| |].
      { intros l Hl%elem_of_elements. by apply Hch'. }
      exists more. split; [done|]. intros l. rewrite Hm. setoid_rewrite elem_of_elements. unfold leads_to.
      assert (forall c, c ∈ ch -> tc (edge (rev_succ range_map (newRevdeps range_map g true false includeSubrepos (-1)%Z))) c l <->
        tc (depends g includeSubrepos) c l) as Ht by (intros c Hc; apply tc_depends; [apply Hg|by apply Hch']).
      naive_solver. }
  rewrite bind_Ok_l.
  assert (forall l, l ∈ more -> is_Some (Target g l)) as Hmt.
  { intros l Hl. assert (exists c, c ∈ ch /\ leads_to g includeSubrepos level c l) as (c & Hc & Hlead) by (apply Hmore; by right).
    by eapply leads_to_target, Hlead; apply Hch'. }
  set (keep := fun l => match Target g l with Some t => if shown s includeSubrepos t then Some l else None | None => None end).
  rewrite (foldM_select _ keep).
  2: { intros l ret Hl. assert (is_Some (Target g l)) as [t Ht].
       { apply elem_of_app in Hl as [Hl|Hl]; apply elem_of_elements in Hl; [by apply Hch'|apply Hmt; set_solver]. }
       rewrite (proj2 (TargetOrDie_Ok _ _ _) Ht), bind_Ok_l. unfold keep, shown. rewrite Ht. destruct (_ && _); [done|]. by rewrite app_nil_r. }
  rewrite bind_Ok_l, app_nil_l. eexists. split; [done|]. split; [apply sort_labels_sorted|]. split.
  - apply sort_labels_NoDup, NoDup_keep.
    + intros x y. unfold keep. destruct (Target g x); [|done]. destruct (shown _ _ _); congruence.
    + apply NoDup_app. split_and!; [apply NoDup_elements| |apply NoDup_elements]. intros x. rewrite !elem_of_elements. set_solver.
  - intros l. rewrite elem_of_sort_labels, list_elem_of_omap. unfold keep. setoid_rewrite elem_of_app. setoid_rewrite elem_of_elements.
    setoid_rewrite <- Hin. rewrite <- Hmore. split.
    + intros (x & Hx & Hk). destruct (Target g x) as [t|] eqn:Ht; [|done]. destruct (shown _ _ t) eqn:Hs; [|done].
      injection Hk as ->. split; [by eauto|]. rewrite elem_of_difference in Hx. tauto.
    + intros [(t & Ht & Hs) Hx]. exists l. rewrite Ht, Hs. split; [|done]. rewrite elem_of_difference.
      destruct (decide (l ∈ ch)); tauto.
Qed.

(** What is compared of a target: the hash of its rule, and of the paths of its tools outside the repo *)
Definition looks_like (st : build_state) (t : BuildTarget) (rule tools : string) : Prop :=
  (exists r, RuleHash sha1 st t true false = Ok (rule, r)) /\ tools_hash sha1 st t = Ok tools.

(** What differs between the graphs: a target that is new, another configuration, another rule or other tools *)
Definition differs (before after : build_state) (l : BuildLabel) : Prop :=
  Target (st_graph before) l = None \/ Hashes_Config before <> Hashes_Config after \/
  exists t1 t2 r1 r2 h1 h2, Target (st_graph before) l = Some t1 /\ Target (st_graph after) l = Some t2 /\
    looks_like before t1 r1 h1 /\ looks_like after t2 r2 h2 /\ (r1, h1) <> (r2, h2).

Definition hashable (st : build_state) : Prop := forall l t, Target (st_graph st) l = Some t -> exists r h, looks_like st t r h.

Lemma diff_one_spec before after l t2 : hashable before -> hashable after -> Target (st_graph after) l = Some t2 ->
  exists c, diff_one sha1 before after l = Ok c /\ (c = true <-> differs before after l).
Proof.
  intros Hb Ha Ht2. unfold diff_one, differs. destruct (Target (st_graph before) l) as [t1|] eqn:Ht1; [|by eexists; split; [|naive_solver]].
  destruct (Hb l t1 Ht1) as (r1 & h1 & [[x1 E1] F1]), (Ha l t2 Ht2) as (r2 & h2 & [[x2 E2] F2]).
  rewrite (proj2 (TargetOrDie_Ok _ _ _) Ht2), bind_Ok_l. unfold targetChanged. rewrite E1, E2, !bind_Ok_l.
  assert ((exists t1' t2' r1' r2' h1' h2', Some t1 = Some t1' /\ Target (st_graph after) l = Some t2' /\
    looks_like before t1' r1' h1' /\ looks_like after t2' r2' h2' /\ (r1', h1') <> (r2', h2')) <-> (r1, h1) <> (r2, h2)) as Hx.
  { split; [|intros; exists t1, t2, r1, r2, h1, h2; unfold looks_like; eauto 10].
    intros (? & ? & ? & ? & ? & ? & [= <-] & E & [[? G1] G2] & [[? G3] G4] & Hne). congruence. }
  destruct (String.eqb_spec r1 r2) as [->|Hr]; cbn [negb]; rewrite ?F1, ?F2, ?bind_Ok_l; eexists; (split; [done|]); rewrite Hx;
    destruct (String.eqb_spec (Hashes_Config before) (Hashes_Config after)); cbn [negb]; rewrite ?orb_true_r, ?orb_false_r; try naive_solver.
  destruct (String.eqb_spec h1 h2) as [->|]; cbn [negb]; naive_solver congruence.
Qed.

End changed.

(** ** Examples *)

Lemma AddPackage_wf g pkg g' : AddPackage g pkg = Ok g' -> graph_wf g -> graph_wf g'.
Proof.
  unfold AddPackage. destruct (shard_Set _ _ _ _ _) as [[[added ps] c]| |]; [|done..]. cbn. destruct (negb added); [done|].
  by intros [= <-].
Qed.

Definition registered_check (g : BuildGraph) : bool :=
  all_targets g (fun t => match PackageByLabel g (Label t) with Some pkg => bool_decide (Label t ∈ pkg_AllTargets pkg) | None => false end)
  && forallb (fun k => match graph_Package g (key_Name k) (key_Subrepo k) with
                       | Some pkg => forallb (fun l => in_graph g l && bool_decide (label_package l = (key_Name k, key_Subrepo k))) (pkg_AllTargets pkg)
                       | None => true
                       end) (map_to_list (g_packages g)).*1.

Lemma registered_checked g : graph_wf g -> registered_check g = true -> packages_registered g.
Proof.
  intros Hwf [Ht Hp]%andb_true_iff. split; [done| |].
  - intros l [t Hl]. pose proof (all_targets_spec g _ l t Hwf Ht Hl) as H. cbv beta in H.
    rewrite (Target_Label g l t) in H by done. destruct (PackageByLabel g l) as [pkg|]; [|done]. apply bool_decide_eq_true in H. eauto.
  - intros p pkg l Hpkg Hl. unfold PackageByLabel in Hpkg. rewrite forallb_forall in Hp.
    assert (MkPackageKey (PackageName p) (Subrepo p) ∈ (map_to_list (g_packages g)).*1) as Hk.
    { apply list_elem_of_fmap. unfold graph_Package, err_Get, shard_Get in Hpkg.
      destruct (g_packages g !! MkPackageKey (PackageName p) (Subrepo p)) as [v|] eqn:E; [|done].
      eexists. split; [|by apply elem_of_map_to_list]. done. }
    apply list_elem_of_In, Hp in Hk. cbn [key_Name key_Subrepo] in Hk. rewrite Hpkg, forallb_forall in Hk.
    apply list_elem_of_In, Hk, andb_true_iff in Hl as [H1 H2]. by apply bool_decide_eq_true in H1, H2.
Qed.

(** A package of a library with a source, a program that depends on it, and perhaps another. *)
Definition changes_graph (extra : bool) : BuildGraph :=
  let lib := from_Ok (NewBuildTarget (ex_label "lib")) (AddSource (NewBuildTarget (ex_label "lib")) (FileLabel "lib.c" "p")) in
  let ts := [lib; with_dep (ex_label "lib") (NewBuildTarget (ex_label "bin")); NewBuildTarget (ex_label "other")]
    ++ (if extra then [NewBuildTarget (ex_label "new")] else []) in
  from_Ok NewGraph (AddPackage (build_graph ts) (foldl pkg_AddTarget (NewPackage "p" "") (map Label ts))).

Definition changes_state (extra : bool) : build_state :=
  MkState (changes_graph extra) "" "opt" "opt" true (fun _ => false) {[ "HOME" := "/home" ]} (fun _ => true) inl (fun _ => true).

Definition changes_asked : Asked := MkAsked (changes_graph true) [] [] [] NewTargetSet false false.

Lemma changes_graph_registered extra : packages_registered (changes_graph extra).
Proof.
  apply registered_checked; [|destruct extra; by vm_compute]. unfold changes_graph.
  destruct (AddPackage _ _) as [g| |] eqn:E; cbn [from_Ok]; [|apply NewGraph_wf..]. by eapply AddPackage_wf, build_graph_wf.
Qed.

Definition changes_example (files : list string) (level : Z) : res (list BuildLabel) :=
  DiffGraphs listed_order pad (changes_state false) (changes_state true) changes_asked files level false.

Example changes_new : changes_example [] 0 = Ok [ex_label "new"].
Proof. vm_compute. reflexivity. Qed.

Example changes_file : changes_example ["p/lib.c"] (-1) = Ok [ex_label "bin"; ex_label "lib"; ex_label "new"].
Proof. vm_compute. reflexivity. Qed.

Example changes_subdir : changes_example ["p/sub/lib.c"] 0 = Ok [ex_label "new"].
Proof. vm_compute. reflexivity. Qed.

Lemma changes_hashable extra : hashable pad (changes_state extra).
Proof.
  intros l t Ht.
  assert (all_targets (changes_graph extra) (fun t => match RuleHash pad (changes_state extra) t true false, tools_hash pad (changes_state extra) t with
    Ok _, Ok _ => true | _, _ => false end) = true) as Hall by (destruct extra; by vm_compute).
  apply (all_targets_spec _ _ l t) in Hall; [|apply changes_graph_registered|done]. unfold looks_like.
  cbv beta in Hall. destruct (RuleHash pad _ t true false) as [[r x]| |], (tools_hash pad _ t) as [h| |]; [eauto 10|done..].
Qed.


(** All targets of the package are asked for, without those labelled [manual]. *)
Definition asked_set : TargetSet := MkTargetSet ∅ {[ ("p", "") ]} [ex_label "all"].
Definition asked_example : Asked := MkAsked (changes_graph true) [] ["manual"] [ex_label "other"] asked_set false false.

Lemma original_iff_expanded_witness :
  exists all, ExpandAllOriginalLabels asked_example = Ok all /\
    forall l t, Target (changes_graph true) l = Some t -> (l ∈ all <-> state_IsOriginalTarget asked_example t = true).
Proof.
  apply (original_iff_expanded asked_example [ex_label "all"]); [apply changes_graph_registered|].
  cbn. do 2 f_equal.
Defined.

(** ** Flaws *)

(** A label that is preloaded twice is not de-duplicated if the repo adds none. *)
Lemma preloaded_twice l : GetPreloadedSubincludes [l; l] [] = [l; l] /\ GetPreloadedSubincludes [l; l] [l] = [l].
Proof. split; [done|]. cbn. rewrite (decide_False (P:=l ∈ [])) by apply not_elem_of_nil. cbn. by rewrite !(decide_True (P:=l ∈ [l])) by (by left). Qed.

(** All packages below one of a subrepo are those of the main repo. *)
Definition subrepo_graph : BuildGraph :=
  let sub := MkBuildLabel "p/q" "t" "sub" in
  let g := build_graph [NewBuildTarget sub; NewBuildTarget (ex_label "t")] in
  let g := from_Ok NewGraph (AddPackage g (pkg_AddTarget (NewPackage "p/q" "sub") sub)) in
  from_Ok NewGraph (AddPackage g (pkg_AddTarget (NewPackage "p" "") (ex_label "t"))).

Lemma subrepo_below_expanded :
  ExpandLabels (MkAsked subrepo_graph [] [] [] NewTargetSet false false) [MkBuildLabel "p" "..." "sub"] = Ok [ex_label "t"].
Proof. vm_compute. reflexivity. Qed.
