(* ===== verification/Glob.v ===== *)
(** Globbing: [src/fs/glob.go], over a tree of directories, files and links.

    [path.Match] and [regexp] are written out for what patterns are: of regular expressions,
    counted repetition, flags, assertions inside and classes with names are left out and
    do not compile. Patterns and names are UTF-8. *)
From S2P Require Import Prelude GoStrings Targets Lexer GoText Incrementality Disk Paths.
From Stdlib Require Import Ascii.

#[local] Open Scope Z_scope.

(** ** File systems *)

(** [io/fs.FS]: the entries of a directory are in the order of their names. *)
Inductive entry :=
  | EFile
  | ELink
  | EDir (children : list (string * entry)).

Definition is_dir (e : entry) : bool := match e with EDir _ => true | _ => false end.

(** The entry of a directory with a name *)
Definition child (e : entry) (c : string) : option entry :=
  match e with EDir children => snd <$> find (fun ce => String.eqb ce.1 c) children | _ => None end.

(** [fs.Stat], by the components of a path *)
Fixpoint entry_at (e : entry) (cs : list string) : option entry :=
  match cs with
  | [] => Some e
  | c :: cs => match child e c with Some e => entry_at e cs | None => None end
  end.

Definition path_components (p : string) : list string := if String.eqb p "." then [] else split_byte "/" p.

Definition Stat (fsys : entry) (p : string) : option entry := entry_at fsys (path_components p).

(** ** [path.Match] *)

(** A rune, with the bytes it is read from *)
Definition rune : Type := Z * string.

Definition is_ch (c : ascii) (r : rune) : bool := r.1 =? code c.

Inductive tok :=
  | TChar (raw : string)
  | TAny
  | TClass (negated : bool) (ranges : list (Z * Z)).

(** A rune of a class, perhaps escaped; something has to follow. *)
Definition getEsc (s : list rune) : option (Z * list rune) :=
  match s with
  | [] => None
  | c :: s' =>
      if is_ch "-" c || is_ch "]" c then None
      else
        '(c, s') ← (if is_ch "\" c then match s' with c :: s' => Some (c, s') | [] => None end else Some (c, s'));
        if (c.1 =? rune_error) && (String.length c.2 =? 1)%nat then None
        else match s' with [] => None | _ => Some (c.1, s') end
  end.

Fixpoint class_ranges (fuel : nat) (s : list rune) (ranges : list (Z * Z)) : option (list (Z * Z) * list rune) :=
  match fuel, s with
  | S fuel, c :: s' =>
      if is_ch "]" c && bool_decide (ranges <> []) then Some (ranges, s')
      else
        '(lo, s1) ← getEsc s;
        match s1 with
        | d :: s2 => if is_ch "-" d then '(hi, s3) ← getEsc s2; class_ranges fuel s3 (ranges ++ [(lo, hi)])
                     else class_ranges fuel s1 (ranges ++ [(lo, lo)])
        | [] => None
        end
  | _, _ => None
  end.

(** The chunks of a pattern, each with whether a star comes before it *)
Definition chunk : Type := bool * list tok.

Definition push_tok (t : tok) (cs : list chunk) : list chunk :=
  match cs with (false, ts) :: cs => (false, t :: ts) :: cs | _ => (false, [t]) :: cs end.

Definition push_star (cs : list chunk) : list chunk :=
  match cs with (false, ts) :: cs => (true, ts) :: cs | [] => [(true, [])] | _ => cs end.

Fixpoint parse_chunks (fuel : nat) (s : list rune) : option (list chunk) :=
  match s with
  | [] => Some []
  | c :: s' =>
      match fuel with
      | O => None
      | S fuel =>
          if is_ch "*" c then push_star <$> parse_chunks fuel s'
          else if is_ch "?" c then push_tok TAny <$> parse_chunks fuel s'
          else if is_ch "\" c then match s' with [] => None | r :: s' => push_tok (TChar r.2) <$> parse_chunks fuel s' end
          else if is_ch "[" c then
            let '(negated, s1) := match s' with d :: s1 => if is_ch "^" d then (true, s1) else (false, s') | [] => (false, s') end in
            '(ranges, s2) ← class_ranges fuel s1 [];
            push_tok (TClass negated ranges) <$> parse_chunks fuel s2
          else push_tok (TChar c.2) <$> parse_chunks fuel s'
      end
  end.

Definition in_ranges (ranges : list (Z * Z)) (r : Z) : bool := existsb (fun lh => (lh.1 <=? r) && (r <=? lh.2)) ranges.

(** [matchChunk]: what is left of the name *)
Fixpoint matchChunk (ts : list tok) (s : list rune) : option (list rune) :=
  match ts, s with
  | [], _ => Some s
  | t :: ts, r :: s =>
      if match t with
         | TChar raw => String.eqb raw r.2
         | TAny => negb (is_ch "/" r)
         | TClass negated ranges => negb (Bool.eqb (in_ranges ranges r.1) negated)
         end
      then matchChunk ts s else None
  | _ :: _, [] => None
  end.

(** The first place a chunk matches at; the last chunk has to match to the end. *)
Fixpoint find_chunk (star final : bool) (ts : list tok) (s : list rune) : option (list rune) :=
  let here := match matchChunk ts s with
              | Some t => if final && bool_decide (t <> []) then None else Some t
              | None => None
              end in
  match here with
  | Some t => Some t
  | None => match s with r :: s => if star && negb (is_ch "/" r) then find_chunk star final ts s else None | [] => None end
  end.

Fixpoint match_chunks (cs : list chunk) (name : list rune) : bool :=
  match cs with
  | [] => bool_decide (name = [])
  | (star, ts) :: cs =>
      if star && bool_decide (ts = []) then negb (existsb (is_ch "/") name)
      else match find_chunk star (bool_decide (cs = [])) ts name with Some t => match_chunks cs t | None => false end
  end.

(** [path.Match]; [None] for a pattern that is malformed *)
Definition path_Match (pattern name : string) : option bool :=
  (fun cs => match_chunks cs (Runes name)) <$> parse_chunks (String.length pattern) (Runes pattern).

(** ** [regexp] *)

Inductive re :=
  | Empty
  | Eps
  | Chr (r : Z)
  | AnyNotNL
  | Cls (negated : bool) (ranges : list (Z * Z))
  | Cat (a b : re)
  | Alt (a b : re)
  | Rep (a : re).

Fixpoint nullable (e : re) : bool :=
  match e with
  | Eps | Rep _ => true
  | Cat a b => nullable a && nullable b
  | Alt a b => nullable a || nullable b
  | _ => false
  end.

(** What has to follow a rune *)
Fixpoint deriv (e : re) (r : Z) : re :=
  match e with
  | Empty | Eps => Empty
  | Chr c => if r =? c then Eps else Empty
  | AnyNotNL => if r =? 10 then Empty else Eps
  | Cls negated ranges => if Bool.eqb (in_ranges ranges r) negated then Empty else Eps
  | Cat a b => if nullable a then Alt (Cat (deriv a r) b) (deriv b r) else Cat (deriv a r) b
  | Alt a b => Alt (deriv a r) (deriv b r)
  | Rep a => Cat (deriv a r) (Rep a)
  end.

Definition re_match (e : re) (s : list Z) : bool := nullable (foldl deriv e s).

Definition z (c : ascii) : Z := code c.

(** ASCII punctuation *)
Definition is_punct (r : Z) : bool :=
  ((33 <=? r) && (r <=? 47)) || ((58 <=? r) && (r <=? 64)) || ((91 <=? r) && (r <=? 96)) || ((123 <=? r) && (r <=? 126)).

(** A rune of a class *)
Definition class_rune (s : list Z) : option (Z * list Z) :=
  match s with
  | [] => None
  | c :: s =>
      if c =? z "\" then match s with d :: s => if is_punct d then Some (d, s) else None | [] => None end
      else if (c =? z "[") && match s with d :: _ => d =? z ":" | [] => false end then None
      else Some (c, s)
  end.

Fixpoint re_class (fuel : nat) (s : list Z) (ranges : list (Z * Z)) : option (list (Z * Z) * list Z) :=
  match fuel, s with
  | S fuel, c :: s' =>
      if (c =? z "]") && bool_decide (ranges <> []) then Some (ranges, s')
      else
        '(lo, s1) ← class_rune s;
        match s1 with
        | d :: (e :: _) as s2 =>
            if (d =? z "-") && negb (e =? z "]")
            then '(hi, s3) ← class_rune s2; if lo <=? hi then re_class fuel s3 (ranges ++ [(lo, hi)]) else None
            else re_class fuel s1 (ranges ++ [(lo, lo)])
        | _ => re_class fuel s1 (ranges ++ [(lo, lo)])
        end
  | _, _ => None
  end.

(** A repetition after an expression; there cannot be two. *)
Definition is_rep (r : Z) : bool := (r =? z "*") || (r =? z "+") || (r =? z "?") || (r =? z "{").

Definition repeated (e : re) (s : list Z) : option (re * list Z) :=
  match s with
  | c :: s' =>
      if (c =? z "*") || (c =? z "+") || (c =? z "?") then
        let s2 := match s' with d :: s2 => if d =? z "?" then s2 else s' | [] => [] end in
        if match s2 with d :: _ => is_rep d | [] => false end then None
        else Some ((if c =? z "*" then Rep e else if c =? z "+" then Cat e (Rep e) else Alt e Eps), s2)
      else if c =? z "{" then None
      else Some (e, s)
  | [] => Some (e, [])
  end.

(** Alternatives, up to a closing bracket or the end *)
Fixpoint re_parse (fuel : nat) (s : list Z) : option (re * list Z) :=
  match fuel with
  | O => None
  | S fuel =>
      match s with
      | [] => Some (Eps, [])
      | c :: s' =>
          if c =? z ")" then Some (Eps, s)
          else if c =? z "|" then '(e, s) ← re_parse fuel s'; Some (Alt Eps e, s)
          else
            '(a, s1) ← (if is_rep c || (c =? z "^") || (c =? z "$") then None
                        else if c =? z "(" then
                          '(e, s1) ← re_parse fuel s';
                          match s1 with d :: s1 => if d =? z ")" then Some (e, s1) else None | [] => None end
                        else if c =? z "[" then
                          let '(negated, s1) := match s' with d :: s1 => if d =? z "^" then (true, s1) else (false, s') | [] => (false, s') end in
                          '(ranges, s2) ← re_class fuel s1 []; Some (Cls negated ranges, s2)
                        else if c =? z "." then Some (AnyNotNL, s')
                        else if c =? z "\" then match s' with d :: s' => if is_punct d then Some (Chr d, s') else None | [] => None end
                        else Some (Chr c, s'));
            '(a, s2) ← repeated a s1;
            '(b, s3) ← re_parse fuel s2;
            Some ((match b with Alt b1 b2 => Alt (Cat a b1) b2 | b => Cat a b end), s3)
      end
  end.

(** An expression between [^] and [$], without alternatives outside brackets *)
Definition Compile (s : string) : option re :=
  match rune_values s with
  | c :: s =>
      if (c =? z "^") && bool_decide (last s = Some (z "$")) then
        match re_parse (S (length s)) (removelast s) with
        | Some (Alt _ _, _) => None
        | Some (e, []) => Some e
        | _ => None
        end
      else None
  | [] => None
  end.

Definition MatchString (e : re) (s : string) : bool := re_match e (rune_values s).

(** ** Patterns *)

Inductive matcher :=
  | builtInGlob (p : string)
  | regexGlob (regex : re).

Definition matcher_Match (m : matcher) (name : string) : res bool :=
  match m with
  | builtInGlob p => match path_Match p name with Some b => Ok b | None => Err (EPanic "failed to glob, invalid patern") end
  | regexGlob regex => Ok (MatchString regex name)
  end.

Definition toRegexString (pattern : string) : string :=
  let pattern := "^" +:+ pattern +:+ "$" in
  let pattern := ReplaceAll pattern "+" "\+" in
  let pattern := ReplaceAll pattern "." "\." in
  let pattern := ReplaceAll pattern "?" "." in
  let pattern := ReplaceAll pattern "*" "[^/]*" in
  let pattern := ReplaceAll pattern "[^/]*[^/]*" ".*" in
  ReplaceAll pattern "/.*/" "/(.*/)?".

Definition patternToMatcher (root pattern : string) : res matcher :=
  let fullPattern := path_join [root; pattern] in
  if negb (contains pattern "**") then Ok (builtInGlob fullPattern)
  else match Compile (toRegexString fullPattern) with
       | Some regex => Ok (regexGlob regex)
       | None => Err (EPanic "failed to compile glob pattern")
       end.

(** [Match] *)
Definition glob_Match (glob path : string) : res bool := m ← patternToMatcher "." glob; matcher_Match m path.

(** ** Walking *)

Record walkedDir := MkWalked {
  fileNames : list string;
  symlinks : list string;
  subPackages : list string;
}.

Definition isBuildFile (buildFileNames : list string) (name : string) : bool :=
  existsb (String.eqb (path_base name)) buildFileNames.

(** The callback of the walk, and whether it gives [SkipDir] *)
Definition visit_entry (buildFileNames : list string) (rootPath : string) (name : string) (e : entry) (dir : walkedDir) : walkedDir * bool :=
  if isBuildFile buildFileNames name && negb (String.eqb (path_dir name) rootPath)
  then (MkWalked (fileNames dir) (symlinks dir) (subPackages dir ++ [path_dir name]), true)
  else if String.eqb (path_base name) "plz-out" && String.eqb rootPath "." then (dir, true)
  else match e with
       | ELink => (MkWalked (fileNames dir) (symlinks dir ++ [name]) (subPackages dir), false)
       | _ => (MkWalked (fileNames dir ++ [name]) (symlinks dir) (subPackages dir), false)
       end.

(** [io/fs.WalkDir]: [SkipDir] skips a directory, or what is left of the one around it. *)
Section walk.
Context (fn : string -> entry -> walkedDir -> walkedDir * bool).

Fixpoint walk_entry (name : string) (e : entry) (dir : walkedDir) : walkedDir * bool :=
  let '(dir, skip) := fn name e dir in
  match e with
  | EDir children =>
      if skip then (dir, false)
      else
        ((fix walk_children (children : list (string * entry)) (dir : walkedDir) : walkedDir :=
            match children with
            | [] => dir
            | (c, e) :: children =>
                let '(dir, skip) := walk_entry (path_join [name; c]) e dir in
                if skip then dir else walk_children children dir
            end) children dir, false)
  | _ => (dir, skip)
  end.
End walk.

(** ** The globber *)

Record Globber := MkGlobber {
  buildFileNames : list string;
  fsys : entry;
  walkedDirs : gmap string walkedDir;
}.

Definition NewGlobber (fsys : entry) (buildFileNames : list string) : Globber := MkGlobber buildFileNames fsys ∅.

(** [walkDir]; when the root is missing there is no entry to look at. *)
Definition walkDir (g : Globber) (rootPath : string) : res (Globber * walkedDir) :=
  match walkedDirs g !! rootPath with
  | Some dir => Ok (g, dir)
  | None =>
      match Stat (fsys g) rootPath with
      | None => Err (EPanic "invalid memory address or nil pointer dereference")
      | Some e =>
          let '(dir, _) := walk_entry (visit_entry (buildFileNames g) rootPath) rootPath e (MkWalked [] [] []) in
          Ok (MkGlobber (buildFileNames g) (fsys g) (<[rootPath := dir]> (walkedDirs g)), dir)
      end
  end.

Definition mustBeValidGlobString (glob : string) : res unit :=
  if String.eqb glob "" then Err (EPanic "cannot use an empty string as a glob") else Ok tt.

Definition isInDirectories (name : string) (directories : list string) : bool :=
  existsb (fun dir => has_prefix name (dir +:+ "/") || String.eqb name dir) directories.

Definition isHidden (name : string) : bool :=
  let file := path_base name in has_prefix file "." || (has_prefix file "#" && has_suffix file "#").

Definition isBathPathOf (path base : string) : bool :=
  if negb (has_prefix path base) then false
  else let rest := TrimPrefix path base in String.eqb rest "" || has_prefix rest "/".

Fixpoint shouldExcludeMatch (root match_ : string) (excludes : list string) : res bool :=
  match excludes with
  | [] => Ok false
  | excl :: excludes =>
      _ ← mustBeValidGlobString excl;
      if isBathPathOf match_ (path_join [root; excl]) then Ok true
      else
        let '(m, rootPath) := if contains_byte "/" match_ && negb (contains_byte "/" excl) then (path_base match_, "") else (match_, root) in
        matcher ← patternToMatcher rootPath excl;
        b ← matcher_Match matcher m;
        if b : bool then Ok true else shouldExcludeMatch root match_ excludes
  end.

(** A loop that keeps what a call says *)
Definition filterM {A} (f : A -> res bool) (l : list A) : res (list A) :=
  foldM (fun kept x => b ← f x; Ok (if b : bool then kept ++ [x] else kept)) [] l.

(** [glob] *)
Definition glob (g : Globber) (rootPath pattern : string) (excludes : list string) (includeHidden includeSymlinks : bool) :
    res (Globber * list string) :=
  p ← patternToMatcher rootPath pattern;
  '(g, dir) ← walkDir g rootPath;
  let names := fileNames dir ++ (if includeSymlinks then symlinks dir else []) in
  globMatches ← filterM (matcher_Match p) names;
  matches ← filterM (fun m =>
    if isInDirectories m (subPackages dir) then Ok false
    else if negb includeHidden && isHidden m then Ok false
    else shouldExclude ← shouldExcludeMatch rootPath m excludes; Ok (negb shouldExclude)) globMatches;
  Ok (g, matches).

(** [Glob] *)
Definition Globber_Glob (g : Globber) (rootPath : string) (includes excludes : list string) (includeHidden includeSymlinks : bool) :
    res (Globber * list string) :=
  let rootPath := if String.eqb rootPath "" then "." else rootPath in
  foldM (fun '(g, filenames) include =>
    _ ← mustBeValidGlobString include;
    '(g, matches) ← glob g rootPath include excludes includeHidden includeSymlinks;
    Ok (g, filenames ++ map (fun filename => TrimPrefix filename (rootPath +:+ "/")) matches)) (g, []) includes.

Definition Glob (fs : entry) (buildFileNames : list string) (rootPath : string) (includes excludes : list string) (includeHidden : bool) :
    res (list string) :=
  snd <$> Globber_Glob (NewGlobber fs buildFileNames) rootPath includes excludes includeHidden true.

(** The builtin [glob]: the BUILD files are excluded, and there has to be something. *)
Definition glob_files (g : Globber) (pkg : string) (include exclude : list string) (hidden includeSymlinks allowEmpty : bool) :
    res (Globber * list string) :=
  '(g, files) ← Globber_Glob g pkg include (exclude ++ buildFileNames g) hidden includeSymlinks;
  if negb allowEmpty && bool_decide (files = []) then Err (EFatal "glob returned no files") else Ok (g, files).

(** ** Names *)

(** The path of some components *)
Definition nm (cs : list string) : string := match cs with [] => "." | _ => join "/" cs end.

Definition all_good (cs : list string) : Prop := Forall (fun c => good c = true) cs.

Lemma nm_local cs : cs <> [] -> all_good cs -> nm cs = join "/" cs /\ local (nm cs) = true.
Proof. intros Hne Hg. destruct cs as [|c cs]; [done|]. split; [done|]. apply local_components. eauto. Qed.

Lemma path_components_nm cs : all_good cs -> path_components (nm cs) = cs.
Proof.
  intros Hg. unfold path_components. destruct cs as [|c cs]; [done|]. destruct (nm_local (c :: cs)) as [-> Hl]; [done..|].
  assert (String.eqb (join "/" (c :: cs)) "." = false) as ->.
  { apply String.eqb_neq. intros E. change (local (join "/" (c :: cs)) = true) in Hl. by rewrite E in Hl. }
  apply split_byte_join; [done|]. by apply good_no_slash.
Qed.

Lemma nm_inj cs ds : all_good cs -> all_good ds -> nm cs = nm ds -> cs = ds.
Proof. intros Hc Hd H. rewrite <- (path_components_nm cs), <- (path_components_nm ds) by done. by rewrite H. Qed.

Lemma nm_snoc cs c : cs <> [] -> nm (cs ++ [c]) = nm cs +:+ "/" +:+ c.
Proof. intros Hne. destruct cs as [|d cs]; [done|]. change (join "/" ((d :: cs) ++ [c]) = join "/" (d :: cs) +:+ "/" +:+ c). by rewrite join_app. Qed.

Lemma all_good_snoc cs c : all_good (cs ++ [c]) <-> all_good cs /\ good c = true.
Proof. unfold all_good. rewrite Forall_app, Forall_singleton. done. Qed.

Lemma nm_join cs c : all_good (cs ++ [c]) -> path_join [nm cs; c] = nm (cs ++ [c]).
Proof.
  intros [Hcs Hc]%all_good_snoc. destruct (decide (cs = [])) as [->|Hne].
  - assert (c <> "") as Hne by (by intros ->). unfold path_join. rewrite !filter_cons, filter_nil. cbn [nm app].
    rewrite !decide_True by done. change (path_clean ("." +:+ String "/" c) = c). unfold path_clean.
    apply good_spec in Hc as Hs. destruct Hs as (_ & _ & _ & Hs). rewrite split_byte_app by done. rewrite (split_byte_none "/" c) by done.
    assert (has_prefix ("." +:+ String "/" c) "/" = false) as -> by done.
    assert (clean_stack false ["."; c] [] = clean_stack false [c] []) as ->.
    { change (clean_stack false ["."; c] []) with
        (if decide ("." = "" \/ "." = ".") then clean_stack false [c] [] else
           if decide ("." = "..") then clean_stack false [c] ["."] else clean_stack false [c] ["."]). by rewrite decide_True by auto. }
    rewrite clean_stack_good by (by constructor). cbn. by rewrite decide_False.
  - rewrite nm_snoc by done. apply path_join_clean; [apply orb_true_iff; right; by apply nm_local|by apply good_local].
Qed.

Lemma nm_dir cs c : all_good (cs ++ [c]) -> path_dir (nm (cs ++ [c])) = nm cs.
Proof.
  intros [Hcs Hc]%all_good_snoc. destruct (decide (cs = [])) as [->|Hne].
  - cbn. unfold path_dir, path_split. apply good_spec in Hc as (_ & _ & _ & Hs). by rewrite (proj2 (last_index_byte_None _ _)).
  - rewrite nm_snoc by done. apply path_dir_join; [|done]. apply orb_true_iff. right. by apply nm_local.
Qed.

Lemma trim_right_none c : contains_byte "/" c = false -> trim_right c "/" = c.
Proof.
  induction c as [|a c IH]; [done|]. rewrite contains_byte_cons. intros [Ha Hc]%orb_false_iff. cbn [trim_right]. rewrite IH by done.
  destruct c; [|done]. rewrite contains_byte_cons, contains_byte_nil, orb_false_r. by rewrite Ascii.eqb_sym, Ha.
Qed.

Lemma trim_right_last s c : contains_byte "/" c = false -> c <> "" -> trim_right (s +:+ c) "/" = s +:+ c.
Proof.
  intros Hc Hne. induction s as [|a s IH]; [by apply trim_right_none|]. cbn [String.append trim_right]. rewrite IH.
  destruct (s +:+ c) eqn:E; [|done]. destruct s; cbn in E; [by subst c|done].
Qed.

Lemma path_base_last cs c : all_good (cs ++ [c]) -> path_base (nm (cs ++ [c])) = c.
Proof.
  intros [Hcs Hc]%all_good_snoc. pose proof Hc as (Hne & _ & _ & Hs)%good_spec. unfold path_base.
  destruct (decide (cs = [])) as [->|Hcs'].
  - cbn [nm app join]. rewrite decide_False by done. rewrite trim_right_none by done.
    rewrite (proj2 (last_index_byte_None _ _) Hs). by rewrite decide_False.
  - rewrite nm_snoc by done. rewrite decide_False by (by destruct (nm cs)).
    assert (nm cs +:+ "/" +:+ c = (nm cs +:+ "/") +:+ c) as -> by (by rewrite str_app_assoc).
    rewrite trim_right_last by done. rewrite str_app_assoc. change ("/" +:+ c) with (String "/" c).
    rewrite last_index_byte_app by done. rewrite str_drop_app_S. by rewrite decide_False.
Qed.

Lemma split_nm cs : cs <> [] -> all_good cs -> split_byte "/" (nm cs) = cs.
Proof. intros Hne Hg. destruct (nm_local cs Hne Hg) as [-> _]. apply split_byte_join; [done|]. by apply good_no_slash. Qed.

(** What is below what *)
Lemma under_nm cs ds : ds <> [] -> all_good cs -> all_good ds -> under (nm ds) (nm cs) = true <-> ds `prefix_of` cs.
Proof.
  intros Hne Hcs Hds. destruct (nm_local ds Hne Hds) as [E _]. split.
  - intros (s & [->|[s' ->]]%is_below_cases & H)%under_spec.
    + rewrite str_app_nil_r in H. by apply nm_inj in H as ->.
    + assert (split_byte "/" (nm cs) = ds ++ split_byte "/" s') as Hsp.
      { rewrite H, E. change (String "/" s') with ("/" +:+ s'). rewrite <- (join_split "/" s') at 1.
        rewrite <- join_app by (done || apply split_byte_not_nil). apply split_byte_join; [by destruct ds|].
        apply Forall_app. split; [by apply good_no_slash|apply split_byte_no_byte]. }
      destruct (decide (cs = [])) as [->|Hc]; [|rewrite split_nm in Hsp by done; rewrite Hsp; by apply prefix_app_r].
      pose proof (split_byte_not_nil "/" s'). apply (f_equal length) in Hsp. rewrite length_app in Hsp.
      change (1 = length ds + length (split_byte "/" s'))%nat in Hsp. destruct ds, (split_byte "/" s'); cbn in Hsp; lia || done.
  - intros [es ->]. apply under_spec. destruct (decide (es = [])) as [->|Hes].
    + exists "". by rewrite app_nil_r, str_app_nil_r.
    + exists ("/" +:+ join "/" es). split; [apply is_below_slash|]. apply Forall_app in Hcs as [_ Hes'].
      destruct (nm_local (ds ++ es)) as [-> _]; [by destruct ds|by apply Forall_app|]. by rewrite join_app, E.
Qed.

(** A name is in a directory if it is below it. *)
Lemma isInDirectories_spec name dirs : isInDirectories name dirs = true <-> exists d, d ∈ dirs /\ under d name = true.
Proof.
  unfold isInDirectories. rewrite existsb_exists. setoid_rewrite <- list_elem_of_In. f_equiv. intros d. f_equiv. rewrite under_spec. split.
  - intros [(r & ->)%has_prefix_spec| ->%String.eqb_eq]%orb_true_iff.
    + exists (String "/" r). split; [apply is_below_slash|]. by rewrite str_app_assoc.
    + exists "". by rewrite str_app_nil_r.
  - intros (s & [->|[s' ->]]%is_below_cases & ->); apply orb_true_iff; [right; rewrite str_app_nil_r; by apply String.eqb_eq|left].
    apply has_prefix_spec. exists s'. by rewrite str_app_assoc.
Qed.

(** ** The walk *)

Lemma entry_rect' (P : entry -> Prop) :
  P EFile -> P ELink -> (forall children, Forall (fun ce => P ce.2) children -> P (EDir children)) -> forall e, P e.
Proof.
  intros Hf Hl Hd. fix IH 1. intros [| |children]; [done|done|]. apply Hd.
  induction children as [|[c e] children IHc]; constructor; [apply IH|done].
Qed.

(** Directories have good names, each once. *)
Fixpoint wf_entry (e : entry) : bool :=
  match e with
  | EDir children => bool_decide (NoDup children.*1) && forallb (fun ce => good ce.1 && wf_entry ce.2) children
  | _ => true
  end.

(** Everything with a name is a directory. *)
Fixpoint dirs_named (n : string) (e : entry) : bool :=
  match e with
  | EDir children => forallb (fun ce => (negb (String.eqb ce.1 n) || is_dir ce.2) && dirs_named n ce.2) children
  | _ => true
  end.

Lemma child_spec children c e : NoDup children.*1 -> child (EDir children) c = Some e <-> (c, e) ∈ children.
Proof.
  cbn. induction children as [|[d e'] children IH]; cbn; [by rewrite elem_of_nil|]. intros [Hd Hn]%NoDup_cons.
  rewrite elem_of_cons. destruct (String.eqb_spec d c) as [->|Hne]; cbn.
  - split; [by intros [= ->]; left|]. intros [[= ->]|Hin]; [done|]. exfalso. apply Hd. by apply (list_elem_of_fmap_2 fst) in Hin.
  - rewrite IH by done. split; [by right|]. by intros [[=]|].
Qed.

Definition is_link (e : entry) : bool := match e with ELink => true | _ => false end.

Section walked.
Context (B : list string) (rc : list string).

(** A directory with a BUILD file is a package. *)
Definition has_build (e : entry) : bool :=
  match e with EDir children => existsb (fun ce => existsb (String.eqb ce.1) B) children | _ => false end.

(** What is in no other package than that of the directory *)
Fixpoint in_package (e : entry) (cs : list string) : bool :=
  match cs with
  | [] => true
  | c :: cs => match child e c with Some e => negb (has_build e) && in_package e cs | None => false end
  end.

Definition clean_at (e : entry) (cs : list string) : Prop := has_build e = false /\ in_package e cs = true.

(** [plz-out] is left out of the package at the root. *)
Definition kept (c : string) : Prop := ~ (rc = [] /\ c = "plz-out").

Definition reaches (e : entry) (cs : list string) (e' : entry) : Prop := entry_at e cs = Some e' /\ Forall kept cs.

Definition names (o : walkedDir) (link : bool) : list string := if link then symlinks o else fileNames o.

Definition add_walked (d o : walkedDir) : walkedDir :=
  MkWalked (fileNames d ++ fileNames o) (symlinks d ++ symlinks o) (subPackages d ++ subPackages o).

Definition no_walked : walkedDir := MkWalked [] [] [].

Lemma names_add d o k : names (add_walked d o) k = names d k ++ names o k.
Proof. by destruct k. Qed.

Lemma add_walked_assoc a b c : add_walked a (add_walked b c) = add_walked (add_walked a b) c.
Proof. unfold add_walked. cbn. by rewrite !(assoc_L (++)). Qed.

Lemma add_no_walked d : add_walked d no_walked = d.
Proof. destruct d. unfold add_walked. cbn. by rewrite !app_nil_r. Qed.

(** What a walk of an entry at [L] adds *)
Record walked (L : list string) (e : entry) (Clean : list string -> Prop) (o : walkedDir) : Prop := {
  wk_names k n : n ∈ names o k -> exists cs e', reaches e cs e' /\ n = nm (L ++ cs) /\ is_link e' = k /\
    (Clean cs \/ exists s, s ∈ subPackages o /\ under s n = true);
  wk_sub s : s ∈ subPackages o -> exists cs e', reaches e cs e' /\ s = nm (L ++ cs) /\ has_build e' = true;
  wk_complete cs e' : reaches e cs e' -> Clean cs -> nm (L ++ cs) ∈ names o (is_link e');
}.

(** What a walk of some entries of a directory at [L] adds *)
Record walked_in (L : list string) (children : list (string * entry)) (stopped : bool) (o : walkedDir) : Prop := {
  wi_names k n : n ∈ names o k -> exists c e cs e', (c, e) ∈ children /\ kept c /\ reaches e cs e' /\ n = nm (L ++ c :: cs) /\ is_link e' = k /\
    (clean_at e cs \/ exists s, s ∈ subPackages o /\ under s n = true);
  wi_sub s : s ∈ subPackages o -> stopped = true /\ s = nm L \/
    exists c e cs e', (c, e) ∈ children /\ kept c /\ reaches e cs e' /\ s = nm (L ++ c :: cs) /\ has_build e' = true;
  wi_stopped : stopped = true -> nm L ∈ subPackages o;
  wi_complete c e cs e' : stopped = false -> (c, e) ∈ children -> kept c -> reaches e cs e' -> clean_at e cs ->
    nm (L ++ c :: cs) ∈ names o (is_link e');
}.

(** What [visit_entry] makes of an entry of a directory *)
Definition builds (c : string) : bool := existsb (String.eqb c) B.

Lemma visit_step L c e dir : all_good rc -> all_good (L ++ [c]) ->
  visit_entry B (nm rc) (nm (L ++ [c])) e dir =
  if builds c && negb (bool_decide (L = rc)) then (MkWalked (fileNames dir) (symlinks dir) (subPackages dir ++ [nm L]), true)
  else if decide (kept c) then (add_walked dir (if is_link e then MkWalked [] [nm (L ++ [c])] [] else MkWalked [nm (L ++ [c])] [] []), false)
  else (dir, true).
Proof.
  intros Hrc HL. unfold visit_entry, isBuildFile. rewrite path_base_last, nm_dir by done. apply all_good_snoc in HL as [HL _].
  assert (String.eqb (nm L) (nm rc) = bool_decide (L = rc)) as ->.
  { destruct (String.eqb_spec (nm L) (nm rc)) as [E|E]; symmetry; [apply bool_decide_eq_true; by apply nm_inj|].
    apply bool_decide_eq_false. by intros ->. }
  unfold builds. destruct (existsb (String.eqb c) B && _); [done|].
  assert (String.eqb c "plz-out" && String.eqb (nm rc) "." = negb (bool_decide (kept c))) as ->.
  { unfold kept. destruct (String.eqb_spec c "plz-out") as [->|Hc]; cbn [andb].
    - destruct rc as [|r rc']; [by rewrite bool_decide_false by tauto|]. rewrite bool_decide_true by (by intros [[=] _]).
      apply String.eqb_neq. intros E. apply (nm_inj (r :: rc') []) in E; [done|done|constructor].
    - by rewrite bool_decide_true by tauto. }
  destruct (decide (kept c)); [rewrite bool_decide_true by done|rewrite bool_decide_false by done]; cbn [negb]; [|done].
  unfold add_walked. destruct e; cbn; by rewrite !app_nil_r.
Qed.

Definition walk_children (name : string) : list (string * entry) -> walkedDir -> walkedDir :=
  fix walk_children (children : list (string * entry)) (dir : walkedDir) : walkedDir :=
    match children with
    | [] => dir
    | (c, e) :: children =>
        let '(dir, skip) := walk_entry (visit_entry B (nm rc)) (path_join [name; c]) e dir in
        if skip then dir else walk_children children dir
    end.

Lemma walk_entry_eq name e dir :
  walk_entry (visit_entry B (nm rc)) name e dir =
  let '(dir, skip) := visit_entry B (nm rc) name e dir in
  match e with EDir children => if skip then (dir, false) else (walk_children name children dir, false) | _ => (dir, skip) end.
Proof. by destruct e. Qed.

(** An entry that is walked, and what it adds *)
Definition walks (L : list string) (c : string) (e : entry) : Prop :=
  exists o, (forall dir, walk_entry (visit_entry B (nm rc)) (nm (L ++ [c])) e dir = (add_walked dir o, false)) /\
    walked (L ++ [c]) e (clean_at e) o.

Definition stops (L : list string) (children : list (string * entry)) : bool :=
  negb (bool_decide (L = rc)) && existsb (fun ce => builds ce.1) children.

Lemma walked_in_nil L : walked_in L [] (stops L []) no_walked.
Proof.
  unfold stops. cbn. rewrite andb_false_r. split; [..|done|].
  - intros [] n H; by apply elem_of_nil in H.
  - intros s H; by apply elem_of_nil in H.
  - intros c e cs e' _ H. by apply elem_of_nil in H.
Qed.

(** A child that is skipped stops the walk of the directory, or is left out. *)
Lemma walked_in_stop L c e children :
  builds c && negb (bool_decide (L = rc)) = true -> walked_in L ((c, e) :: children) (stops L ((c, e) :: children)) (MkWalked [] [] [nm L]).
Proof.
  intros [Hc HL]%andb_true_iff. assert (stops L ((c, e) :: children) = true) as -> by (unfold stops; cbn; by rewrite HL, Hc).
  split; cbn; [by intros [] n ?%elem_of_nil|..].
  - intros s ->%list_elem_of_singleton. by left.
  - intros _. by left.
  - done.
Qed.

Lemma walked_in_skip L c e children o :
  walked_in L children (stops L children) o -> builds c && negb (bool_decide (L = rc)) = true ->
  walked_in L ((c, e) :: children) (stops L ((c, e) :: children)) (add_walked (MkWalked [] [] [nm L]) o).
Proof.
  intros [H1 H2 H3 H4] [Hc HL]%andb_true_iff. assert (stops L ((c, e) :: children) = true) as -> by (unfold stops; cbn; by rewrite HL, Hc).
  split; [..|by intros _; left|done].
  - intros k n Hn. rewrite names_add in Hn. apply elem_of_app in Hn as [Hn|Hn]; [by destruct k; apply elem_of_nil in Hn|].
    destruct (H1 k n Hn) as (d & e1 & cs & e' & Hin & Hk & Hr & -> & Hl & Hcl). exists d, e1, cs, e'.
    split_and!; [by right|done..|]. destruct Hcl as [|(s & Hs & Hu)]; [by left|right]. exists s. split; [by right|done].
  - intros s [->|Hs]%elem_of_cons; [by left|]. destruct (H2 s Hs) as [[_ ->]|(d & e1 & cs & e' & Hin & H)]; [by left|right].
    exists d, e1, cs, e'. split; [by right|done].
Qed.

Lemma walked_in_out L c e children o :
  walked_in L children (stops L children) o -> builds c && negb (bool_decide (L = rc)) = false -> ~ kept c ->
  walked_in L ((c, e) :: children) (stops L ((c, e) :: children)) o.
Proof.
  intros [H1 H2 H3 H4] Hc Hk. assert (stops L ((c, e) :: children) = stops L children) as ->.
  { unfold stops. cbn. destruct (bool_decide (L = rc)); [done|]. cbn in *. rewrite andb_true_r in Hc. by rewrite Hc. }
  split; [..|done|].
  - intros k n Hn. destruct (H1 k n Hn) as (d & e1 & cs & e' & Hin & H). exists d, e1, cs, e'. split; [by right|done].
  - intros s Hs. destruct (H2 s Hs) as [?|(d & e1 & cs & e' & Hin & H)]; [by left|right]. exists d, e1, cs, e'. split; [by right|done].
  - intros d e1 cs e' Hs [[= -> ->]|Hin]%elem_of_cons Hk'; [done|]. by apply H4.
Qed.

Lemma walked_in_add L c e children o1 o2 :
  walked (L ++ [c]) e (clean_at e) o1 -> kept c ->
  walked_in L children (stops L children) o2 -> builds c && negb (bool_decide (L = rc)) = false ->
  walked_in L ((c, e) :: children) (stops L ((c, e) :: children)) (add_walked o1 o2).
Proof.
  intros [W1 W2 W3] Hk [H1 H2 H3 H4] Hc. assert (stops L ((c, e) :: children) = stops L children) as ->.
  { unfold stops. cbn. destruct (bool_decide (L = rc)); [done|]. cbn in *. rewrite andb_true_r in Hc. by rewrite Hc. }
  assert (forall cs, (L ++ [c]) ++ cs = L ++ c :: cs) as Happ by (intros cs; by rewrite <- app_assoc).
  split.
  - intros k n Hn. rewrite names_add in Hn. apply elem_of_app in Hn as [Hn|Hn].
    + destruct (W1 k n Hn) as (cs & e' & Hr & -> & Hl & Hcl). exists c, e, cs, e'. rewrite Happ.
      split_and!; [by left|done..|]. destruct Hcl as [|(s & Hs & Hu)]; [by left|right]. exists s. rewrite Happ in Hu.
      split; [|done]. apply elem_of_app. by left.
    + destruct (H1 k n Hn) as (d & e1 & cs & e' & Hin & Hk' & Hr & -> & Hl & Hcl). exists d, e1, cs, e'.
      split_and!; [by right|done..|]. destruct Hcl as [|(s & Hs & Hu)]; [by left|right]. exists s. split; [|done]. apply elem_of_app. by right.
  - intros s [Hs|Hs]%elem_of_app.
    + destruct (W2 s Hs) as (cs & e' & Hr & -> & Hb). right. exists c, e, cs, e'. rewrite Happ. split; [by left|done].
    + destruct (H2 s Hs) as [?|(d & e1 & cs & e' & Hin & H)]; [by left|right]. exists d, e1, cs, e'. split; [by right|done].
  - intros Hs. apply elem_of_app. right. by apply H3.
  - intros d e1 cs e' Hs [[= -> ->]|Hin]%elem_of_cons Hkd Hr Hcl; rewrite names_add; apply elem_of_app.
    + left. rewrite <- Happ. by apply W3.
    + right. by eapply H4.
Qed.

(** All entries of a directory, if those that have to be are walked *)
Lemma walk_children_spec L children :
  all_good rc -> Forall (fun ce => all_good (L ++ [ce.1])) children ->
  Forall (fun ce => rc = [] -> ce.1 = "plz-out" -> is_dir ce.2 = true) children ->
  Forall (fun ce => builds ce.1 && negb (bool_decide (L = rc)) = false -> kept ce.1 -> walks L ce.1 ce.2) children ->
  exists o, (forall dir, walk_children (nm L) children dir = add_walked dir o) /\ walked_in L children (stops L children) o.
Proof.
  intros Hrc Hg Hd Hw. induction children as [|[c e] children IH].
  { exists no_walked. split; [intros dir; by rewrite add_no_walked|apply walked_in_nil]. }
  apply Forall_cons in Hg as [Hgc Hg], Hd as [Hdc Hd], Hw as [Hwc Hw]. cbn [fst snd] in *.
  destruct IH as (o & Ho & Hin); [done..|]. cbn [walk_children].
  destruct (builds c && negb (bool_decide (L = rc))) eqn:Hb; [|destruct (decide (kept c)) as [Hk|Hk]].
  - assert (forall dir, add_walked dir (MkWalked [] [] [nm L]) = MkWalked (fileNames dir) (symlinks dir) (subPackages dir ++ [nm L])) as Hs.
    { intros dir. unfold add_walked. cbn. by rewrite !app_nil_r. }
    destruct (is_dir e) eqn:He.
    + exists (add_walked (MkWalked [] [] [nm L]) o). split; [|by apply walked_in_skip]. intros dir.
      rewrite nm_join by done. rewrite walk_entry_eq, visit_step, Hb by done. destruct e; [done..|].
      by rewrite Ho, add_walked_assoc, Hs.
    + exists (MkWalked [] [] [nm L]). split; [|by apply walked_in_stop]. intros dir.
      rewrite nm_join by done. rewrite walk_entry_eq, visit_step, Hb by done. by destruct e; [rewrite Hs..|].
  - destruct (Hwc eq_refl Hk) as (o1 & Ho1 & Hw1). exists (add_walked o1 o). split; [|by apply walked_in_add].
    intros dir. rewrite nm_join, Ho1 by done. by rewrite Ho, add_walked_assoc.
  - assert (is_dir e = true) as He by (apply Hdc; unfold kept in Hk; destruct (decide (rc = []) ), (decide (c = "plz-out")); tauto).
    exists o. split; [|by apply walked_in_out]. intros dir.
    rewrite nm_join by done. rewrite walk_entry_eq, visit_step, Hb by done. rewrite decide_False by done. destruct e; [done..|]. apply Ho.
Qed.

Lemma reaches_nil e e' : reaches e [] e' <-> e' = e.
Proof. unfold reaches. cbn. split; [by intros [[= ->] _]|by intros ->]. Qed.

Lemma reaches_cons children c cs e' : NoDup children.*1 ->
  reaches (EDir children) (c :: cs) e' <-> exists e, (c, e) ∈ children /\ kept c /\ reaches e cs e'.
Proof.
  intros Hn. unfold reaches. cbn [entry_at]. split.
  - intros [He [Hk Hks]%Forall_cons]. destruct (child (EDir children) c) as [e|] eqn:E; [|done]. apply child_spec in E; [|done]. eauto.
  - intros (e & Hin & Hk & He & Hks). apply (child_spec _ _ _ Hn) in Hin. rewrite Hin. split; [done|by constructor].
Qed.

Lemma in_package_cons children c e cs : NoDup children.*1 -> (c, e) ∈ children ->
  in_package (EDir children) (c :: cs) = negb (has_build e) && in_package e cs.
Proof. intros Hn Hin%(child_spec _ _ _ Hn). cbn [in_package]. by rewrite Hin. Qed.

Lemma wf_children children : wf_entry (EDir children) = true ->
  NoDup children.*1 /\ Forall (fun ce => good ce.1 = true /\ wf_entry ce.2 = true) children.
Proof.
  cbn. intros [Hn%bool_decide_eq_true Hf]%andb_true_iff. split; [done|]. rewrite forallb_forall in Hf. apply Forall_forall.
  intros ce Hin%list_elem_of_In. by apply andb_true_iff, Hf.
Qed.

Lemma dirs_named_children n children : dirs_named n (EDir children) = true ->
  Forall (fun ce => (ce.1 = n -> is_dir ce.2 = true) /\ dirs_named n ce.2 = true) children.
Proof.
  cbn. intros Hf. rewrite forallb_forall in Hf. apply Forall_forall.
  intros ce Hin%list_elem_of_In%Hf. apply andb_true_iff in Hin as [H1 H2]. split; [|done]. intros E. by rewrite E, String.eqb_refl in H1.
Qed.

Lemma reaches_good e cs e' : wf_entry e = true -> reaches e cs e' -> all_good cs.
Proof.
  revert e. induction cs as [|c cs IH]; intros e Hwf Hr; [constructor|]. destruct e as [| |children]; [by destruct Hr..|].
  apply wf_children in Hwf as [Hn Hwf]. apply reaches_cons in Hr as (e & Hin & Hk & Hr); [|done].
  eapply Forall_forall in Hwf as [Hg Hw]; [|done]. constructor; [done|]. by eapply IH.
Qed.

Lemma walked_leaf L e : is_dir e = false ->
  walked L e (clean_at e) (if is_link e then MkWalked [] [nm L] [] else MkWalked [nm L] [] []).
Proof.
  intros He. split.
  - intros k n Hn. exists [], e. rewrite app_nil_r. split; [by apply reaches_nil|]. destruct e, k; cbn in Hn; try done;
      try (by apply elem_of_nil in Hn); apply list_elem_of_singleton in Hn as ->; (split_and!; [done..|by left]).
  - intros s Hs. destruct e; by apply elem_of_nil in Hs.
  - intros cs e' Hr _. destruct cs as [|c cs]; [|by destruct e, Hr]. apply reaches_nil in Hr as ->. rewrite app_nil_r. destruct e; [..|done]; by left.
Qed.

Lemma walked_dir L children o : L <> [] -> all_good L -> wf_entry (EDir children) = true ->
  walked_in L children (has_build (EDir children)) o ->
  walked L (EDir children) (clean_at (EDir children)) (add_walked (MkWalked [nm L] [] []) o).
Proof.
  intros HL Hg Hwf [H1 H2 H3 H4]. pose proof Hwf as [Hn Hwc]%wf_children. split.
  - intros k n Hin. rewrite names_add in Hin. apply elem_of_app in Hin as [Hin|Hin].
    + destruct k; [by apply elem_of_nil in Hin|]. apply list_elem_of_singleton in Hin as ->. exists [], (EDir children).
      rewrite app_nil_r. split_and!; [by apply reaches_nil|done..|]. destruct (has_build (EDir children)) eqn:Hb.
      * right. exists (nm L). split; [by apply H3|apply under_refl].
      * left. done.
    + destruct (H1 k n Hin) as (c & e & cs & e' & Hc & Hk & Hr & -> & Hl & Hcl). exists (c :: cs), e'.
      assert (reaches (EDir children) (c :: cs) e') as Hr' by (apply reaches_cons; eauto).
      split_and!; [done..|]. destruct (has_build (EDir children)) eqn:Hb.
      * right. exists (nm L). split; [by apply H3|]. apply under_nm; [done| |done|by apply prefix_app_r]. apply Forall_app. split; [done|].
        by eapply reaches_good.
      * destruct Hcl as [[Hb' Hp]|?]; [left|by right]. split; [done|]. rewrite (in_package_cons _ _ e) by done. by rewrite Hb', Hp.
  - intros s Hs. destruct (H2 s Hs) as [[Hb ->]|(c & e & cs & e' & Hc & Hk & Hr & -> & Hb)].
    + exists [], (EDir children). rewrite app_nil_r. split; [by apply reaches_nil|done].
    + exists (c :: cs), e'. split; [apply reaches_cons; eauto|done].
  - intros cs e' Hr [Hb Hp]. rewrite names_add. apply elem_of_app. destruct cs as [|c cs].
    + left. apply reaches_nil in Hr as ->. rewrite app_nil_r. by left.
    + right. apply reaches_cons in Hr as (e & Hin & Hk & Hr); [|done]. rewrite (in_package_cons _ _ e) in Hp by done.
      apply andb_true_iff in Hp as [Hp1%negb_true_iff Hp2]. by eapply H4.
Qed.

(** An entry below the root of the walk *)
Lemma walks_spec e L c :
  all_good rc -> all_good (L ++ [c]) -> rc `prefix_of` L -> wf_entry e = true -> (rc = [] -> dirs_named "plz-out" e = true) ->
  builds c && negb (bool_decide (L = rc)) = false -> kept c -> walks L c e.
Proof.
  intros Hrc. revert L c. induction e as [| |children IH] using entry_rect'; intros L c HL Hpre Hwf Hd Hb Hk; unfold walks.
  1, 2: eexists; split; [intros dir; rewrite walk_entry_eq, visit_step, Hb by done; by rewrite decide_True by done|]; by apply walked_leaf.
  pose proof Hwf as Hwf0. apply wf_children in Hwf as [Hn Hwf]. assert (L ++ [c] <> rc) as Hne.
  { intros E. apply prefix_length in Hpre. rewrite <- E, length_app in Hpre. cbn in Hpre. lia. }
  destruct (walk_children_spec (L ++ [c]) children) as (o & Ho & [H1 H2 H3 H4]); [done|..].
  { eapply Forall_impl; [exact Hwf|]. intros ce [Hg _]. by apply all_good_snoc. }
  { apply Forall_forall. intros ce Hin Hr Hc. specialize (Hd Hr). apply dirs_named_children in Hd. eapply Forall_forall in Hd as [H _]; [|done]. by apply H. }
  { apply Forall_forall. intros [d e] Hin Hb' Hk'. cbn [fst snd] in *. eapply Forall_forall in IH; [|done]. eapply Forall_forall in Hwf as [Hg Hw]; [|done].
    apply IH; [by apply all_good_snoc|by apply prefix_app_r|done| |done|done].
    intros Hr. specialize (Hd Hr). apply dirs_named_children in Hd. by eapply Forall_forall in Hd as [_ H]; [|done]. }
  assert (stops (L ++ [c]) children = has_build (EDir children)) as Hst.
  { unfold stops. by rewrite bool_decide_false by done. }
  rewrite Hst in *. exists (add_walked (MkWalked [nm (L ++ [c])] [] []) o). split.
  { intros dir. rewrite walk_entry_eq, visit_step, Hb by done. rewrite decide_True by done. cbn [is_link]. by rewrite Ho, add_walked_assoc. }
  apply walked_dir; [by destruct L|done|done|by split].
Qed.
End walked.

(** ** What is globbed *)

(** The walk of a directory, from nothing *)
Definition walk_of (g : Globber) (root : string) (e : entry) : walkedDir :=
  (walk_entry (visit_entry (buildFileNames g) root) root e no_walked).1.

(** What is remembered are walks. *)
Definition memo_ok (g : Globber) : Prop :=
  forall root dir, walkedDirs g !! root = Some dir -> exists e, Stat (fsys g) root = Some e /\ dir = walk_of g root e.

Definition same_files (g g' : Globber) : Prop := fsys g' = fsys g /\ buildFileNames g' = buildFileNames g.

Lemma walkDir_ok g root e : memo_ok g -> Stat (fsys g) root = Some e ->
  exists g', walkDir g root = Ok (g', walk_of g root e) /\ memo_ok g' /\ same_files g g'.
Proof.
  intros Hg He. unfold walkDir. destruct (walkedDirs g !! root) as [dir|] eqn:Hm.
  - destruct (Hg root dir Hm) as (e' & He' & ->). rewrite He in He'. injection He' as <-. exists g. done.
  - rewrite He. unfold walk_of at 1, no_walked. destruct (walk_entry _ root e _) as [dir skip] eqn:Hw. eexists. split; [done|]. split; [|done].
    intros root' dir'. cbn [walkedDirs fsys buildFileNames]. intros [[-> <-]|[Hne Hd]]%lookup_insert_Some.
    + exists e. split; [done|]. unfold walk_of, no_walked. cbn [buildFileNames]. by rewrite Hw.
    + by apply Hg.
Qed.

(** A package: a directory with what is below it, at good components *)
Record package_dir (g : Globber) (rc : list string) (e : entry) : Prop := {
  pd_good : all_good rc;
  pd_stat : Stat (fsys g) (nm rc) = Some e;
  pd_dir : is_dir e = true;
  pd_wf : wf_entry e = true;
  pd_plz_out : rc = [] -> dirs_named "plz-out" e = true;
  pd_name : isBuildFile (buildFileNames g) (nm rc) = false;
}.

(** What belongs to a package, with its components below it *)
Definition in_this_package (g : Globber) (rc : list string) (e : entry) (cs : list string) (e' : entry) : Prop :=
  reaches rc e cs e' /\ in_package (buildFileNames g) e cs = true.

Lemma no_build_inside B e ds es e' : entry_at e ds = Some e' -> has_build B e' = true -> ~ clean_at B e (ds ++ es).
Proof.
  revert e. induction ds as [|d ds IH]; intros e; [intros [= ->] H1 [H2 _]; congruence|]. cbn [entry_at app]. intros Hd Hb [_ Hp].
  cbn [in_package] in Hp. destruct (child e d) as [e1|]; [|done]. apply andb_true_iff in Hp as [Hp1%negb_true_iff Hp2].
  by apply (IH e1).
Qed.

Lemma walk_of_spec g rc e : package_dir g rc e ->
  forall k n, (n ∈ names (walk_of g (nm rc) e) k /\ isInDirectories n (subPackages (walk_of g (nm rc) e)) = false) <->
    exists cs e', in_this_package g rc e cs e' /\ is_link e' = k /\ n = nm (rc ++ cs).
Proof.
  intros [Hg Hs Hd Hwf Hplz Hname]. destruct e as [| |children]; [done..|]. pose proof Hwf as [Hn Hwc]%wf_children.
  destruct (walk_children_spec (buildFileNames g) rc rc children) as (o & Ho & [H1 H2 H3 H4]); [done|..].
  { eapply Forall_impl; [exact Hwc|]. intros ce [? _]. by apply all_good_snoc. }
  { apply Forall_forall. intros ce Hin Hr Hc. specialize (Hplz Hr). apply dirs_named_children in Hplz.
    eapply Forall_forall in Hplz as [H _]; [|done]. by apply H. }
  { apply Forall_forall. intros [d e] Hin Hb Hk. cbn [fst snd] in *. eapply Forall_forall in Hwc as [Hgd Hw]; [|done].
    apply walks_spec; [done|by apply all_good_snoc|done|done| |done|done].
    intros Hr. specialize (Hplz Hr). apply dirs_named_children in Hplz. by eapply Forall_forall in Hplz as [_ H]; [|done]. }
  assert (stops (buildFileNames g) rc rc children = false) as Hst by (unfold stops; by rewrite bool_decide_true by done).
  rewrite Hst in *.
  assert (walk_of g (nm rc) (EDir children) = add_walked (MkWalked [nm rc] [] []) o) as ->.
  { unfold walk_of. rewrite walk_entry_eq. unfold visit_entry. rewrite Hname. cbn [andb].
    assert (String.eqb (path_base (nm rc)) "plz-out" && String.eqb (nm rc) "." = false) as ->.
    { destruct (String.eqb_spec (nm rc) ".") as [->|]; [done|apply andb_false_r]. }
    cbn [no_walked]. rewrite Ho. done. }
  assert (forall cs e', reaches rc (EDir children) cs e' -> all_good (rc ++ cs)) as Hgood.
  { intros cs e' Hr. apply Forall_app. split; [done|]. by eapply reaches_good. }
  assert (forall n, isInDirectories n (subPackages o) = false <-> forall s, s ∈ subPackages o -> under s n = false) as Hdirs.
  { intros n. rewrite <- not_true_iff_false, isInDirectories_spec. split.
    - intros H s Hin. apply not_true_iff_false. eauto.
    - intros H (s & Hin & Hu). by rewrite H in Hu. }
  intros k n. rewrite names_add. cbn [subPackages add_walked app]. rewrite Hdirs, elem_of_app. split.
  - intros [[Hin|Hin] Hout].
    + destruct k; [by apply elem_of_nil in Hin|]. apply list_elem_of_singleton in Hin as ->. exists [], (EDir children).
      rewrite app_nil_r. split_and!; [|done..]. split; [by apply reaches_nil|done].
    + destruct (H1 k n Hin) as (c & e & cs & e' & Hc & Hk & Hr & -> & Hl & [[Hb Hp]|(s & Hs' & Hu)]); [|by rewrite Hout in Hu].
      exists (c :: cs), e'. split_and!; [|done..]. split; [apply reaches_cons; eauto|].
      rewrite (in_package_cons _ _ _ e) by done. by rewrite Hb, Hp.
  - intros (cs & e' & [Hr Hp] & Hl & ->). split.
    + destruct cs as [|c cs]; [left|right].
      * apply reaches_nil in Hr as ->. cbn in Hl. subst k. rewrite app_nil_r. by left.
      * apply reaches_cons in Hr as (e & Hc & Hk & Hr); [|done]. rewrite (in_package_cons _ _ _ e) in Hp by done.
        apply andb_true_iff in Hp as [Hp1%negb_true_iff Hp2]. rewrite <- Hl. by eapply H4.
    + intros s Hin. destruct (H2 s Hin) as [[? _]|(c & e & ds & e1 & Hc & Hk & Hr1 & -> & Hb)]; [done|].
      apply not_true_iff_false. intros Hu. apply under_nm in Hu as [es Hes]; [|by destruct rc|by eapply Hgood|].
      2: { eapply Hgood. apply reaches_cons; [done|]. eauto. }
      rewrite <- !app_assoc in Hes. apply (inj (app rc)) in Hes as ->. cbn [app] in Hp.
      assert (exists e', (c, e') ∈ children /\ clean_at (buildFileNames g) e' (ds ++ es)) as (e0 & Hc0 & Hcl).
      { apply reaches_cons in Hr as (e0 & Hc0 & _); [|done]. exists e0. split; [done|].
        rewrite (in_package_cons _ _ _ e0) in Hp by done. by apply andb_true_iff in Hp as [Hp1%negb_true_iff Hp2]. }
      apply (child_spec _ _ _ Hn) in Hc, Hc0. rewrite Hc in Hc0. injection Hc0 as <-. by eapply no_build_inside in Hcl; [|apply Hr1|].
Qed.

Lemma filterM_spec {A} (f : A -> res bool) l :
  (forall x, x ∈ l -> exists b, f x = Ok b) -> exists ret, filterM f l = Ok ret /\ forall x, x ∈ ret <-> x ∈ l /\ f x = Ok true.
Proof.
  intros Hf. unfold filterM. apply (foldM_inv _ (fun dn ret => forall x, x ∈ ret <-> x ∈ dn /\ f x = Ok true)).
  - intros x. rewrite elem_of_nil. tauto.
  - intros l1 y l2 ret -> Hret. destruct (Hf y) as [b Hb]; [set_solver|]. rewrite Hb, bind_Ok_l. eexists. split; [done|].
    intros x. rewrite elem_of_app, list_elem_of_singleton. destruct b; [rewrite elem_of_app, list_elem_of_singleton|]; rewrite Hret; naive_solver congruence.
Qed.

(** *** Which runes are slashes *)

Lemma cont_byte_value lo hi s v s' : 128 <= lo -> hi <= 191 -> cont_byte lo hi s = Some (v, s') -> lo - 128 <= v.
Proof.
  intros Hlo Hhi. unfold cont_byte. destruct s as [|c s]; [done|]. destruct (_ && _) eqn:Hc; [|done].
  intros [= <- _]. Z.to_euclidean_division_equations; lia.
Qed.

Lemma DecodeRune_big c s r n : 128 <= code c -> DecodeRune (String c s) = (r, n) -> 128 <= r.
Proof.
  intros Hc. unfold DecodeRune. set (b0 := code c) in *. clearbody b0.
  destruct ((194 <=? b0) && (b0 <=? 223)) eqn:E1; [|destruct ((224 <=? b0) && (b0 <=? 239)) eqn:E2; [|destruct ((240 <=? b0) && (b0 <=? 244)) eqn:E3]].
  - destruct (cont_byte 128 191 s) as [[b1 s1]|] eqn:H1; cbn; intros [= <- <-]; [|done].
    apply cont_byte_value in H1; [|done..]. Z.to_euclidean_division_equations; lia.
  - destruct (cont_byte _ _ s) as [[b1 s1]|] eqn:H1; cbn; [|by intros [= <- <-]].
    destruct (cont_byte _ _ s1) as [[b2 s2]|] eqn:H2; cbn; intros [= <- <-]; [|done].
    apply cont_byte_value in H2; [|done..].
    apply cont_byte_value in H1; [|destruct (b0 =? 224); lia|destruct (b0 =? 237); lia].
    destruct (b0 =? 224) eqn:E; [|assert (1 <= b0 mod 16) by (Z.to_euclidean_division_equations; lia)]; Z.to_euclidean_division_equations; lia.
  - destruct (cont_byte _ _ s) as [[b1 s1]|] eqn:H1; cbn; [|by intros [= <- <-]].
    destruct (cont_byte _ _ s1) as [[b2 s2]|] eqn:H2; cbn; [|by intros [= <- <-]].
    destruct (cont_byte _ _ s2) as [[b3 s3]|] eqn:H3; cbn; intros [= <- <-]; [|done].
    apply cont_byte_value in H2; [|done..]. apply cont_byte_value in H3; [|done..].
    apply cont_byte_value in H1; [|destruct (b0 =? 240); lia|destruct (b0 =? 244); lia].
    destruct (b0 =? 240) eqn:E; [|assert (1 <= b0 mod 8) by (Z.to_euclidean_division_equations; lia)]; Z.to_euclidean_division_equations; lia.
  - by intros [= <- <-].
Qed.

Definition sane (r : rune) : Prop := is_ch "/" r = String.eqb r.2 "/".

Lemma Runes_sane s : Forall sane (Runes s).
Proof.
  unfold Runes. generalize (String.length s) as fuel. intros fuel. revert s. induction fuel as [|fuel IH]; intros [|c s]; cbn [decode_all]; try constructor.
  destruct (code c <? 128) eqn:Hc.
  - constructor; [|apply IH]. unfold sane, is_ch. cbn. destruct (Ascii.eqb_spec c "/") as [->|Hne]; [done|].
    apply Z.eqb_neq. intros E. apply Hne. unfold code in E. apply N2Z.inj in E.
    by rewrite <- (ascii_N_embedding c), E.
  - destruct (DecodeRune (String c s)) as [r n] eqn:E. constructor; [|apply IH]. pose proof (DecodeRune_big c s r n ltac:(lia) E) as Hr.
    apply DecodeRune_high in E as (k & -> & _); [|lia]. unfold sane, is_ch. cbn.
    assert (r =? code "/" = false) as -> by (apply Z.eqb_neq; change (code "/") with 47; lia).
    destruct (Ascii.eqb_spec c "/") as [->|Hne]; [by cbn in Hc|done].
Qed.

(** ** What patterns match *)

(** What [*] can stand for *)
Definition no_slash (s : list rune) : Prop := Forall (fun r => is_ch "/" r = false) s.

(** A pattern without classes and escapes, by itself: [*] stands for any runes and [?] for one, none of them a
    slash; all else stands for itself. *)
Inductive fits : list rune -> list rune -> Prop :=
  | fits_nil : fits [] []
  | fits_star c p s1 s2 : is_ch "*" c = true -> no_slash s1 -> fits p s2 -> fits (c :: p) (s1 ++ s2)
  | fits_any c r p s : is_ch "*" c = false -> is_ch "?" c = true -> is_ch "/" r = false -> fits p s -> fits (c :: p) (r :: s)
  | fits_same c r p s : is_ch "*" c = false -> is_ch "?" c = false -> c.2 = r.2 -> fits p s -> fits (c :: p) (r :: s).

Definition simple (p : list rune) : Prop := Forall (fun c => is_ch "[" c = false /\ is_ch "\" c = false) p.

(** *** Chunks, with all ways to divide a name *)

Definition tok_fits (t : tok) (r : rune) : Prop :=
  match t with TChar raw => raw = r.2 | TAny => is_ch "/" r = false | TClass _ _ => False end.

Definition stars (star : bool) (s : list rune) : Prop := if star then no_slash s else s = [].

Fixpoint chunks_fit (cs : list chunk) (s : list rune) : Prop :=
  match cs with
  | [] => s = []
  | (star, ts) :: cs => exists s0 s1 s2, s = s0 ++ s1 ++ s2 /\ stars star s0 /\ Forall2 tok_fits ts s1 /\ chunks_fit cs s2
  end.

Lemma chunks_fit_star cs s : chunks_fit (push_star cs) s <-> exists s1 s2, s = s1 ++ s2 /\ no_slash s1 /\ chunks_fit cs s2.
Proof.
  destruct cs as [|[[] ts] cs]; cbn [push_star chunks_fit stars].
  - split.
    + intros (s0 & s1 & s2 & -> & H & ->%Forall2_nil_inv_l & ->). exists s0, []. done.
    + intros (s1 & s2 & -> & H & ->). exists s1, [], []. done.
  - split.
    + intros H. exists [], s. split; [done|]. split; [constructor|done].
    + intros (s1 & s2 & -> & H1 & s3 & s4 & s5 & -> & H2 & H). exists (s1 ++ s3), s4, s5. rewrite <- app_assoc. split; [done|].
      split; [by apply Forall_app|done].
  - split.
    + intros (s0 & s1 & s2 & -> & H & H'). exists s0, (s1 ++ s2). split_and!; [done..|]. exists [], s1, s2. done.
    + intros (s1 & s2 & -> & H1 & s3 & s4 & s5 & -> & -> & H). exists s1, s4, s5. done.
Qed.

Lemma chunks_fit_tok t cs s : chunks_fit (push_tok t cs) s <-> exists r s', s = r :: s' /\ tok_fits t r /\ chunks_fit cs s'.
Proof.
  assert (chunks_fit ((false, [t]) :: cs) s <-> exists r s', s = r :: s' /\ tok_fits t r /\ chunks_fit cs s') as H.
  { cbn [chunks_fit stars]. split.
    - intros (s0 & s1 & s2 & -> & -> & (r & s' & Hr & ->%Forall2_nil_inv_l & ->)%Forall2_cons_inv_l & H). by exists r, s2.
    - intros (r & s' & -> & Hr & H). exists [], [r], s'. split_and!; [done..| |done]. by repeat constructor. }
  destruct cs as [|[[] ts] cs]; cbn [push_tok]; [exact H..|]. cbn [chunks_fit stars]. split.
  - intros (s0 & s1 & s2 & -> & -> & (r & s3 & Hr & Hs & ->)%Forall2_cons_inv_l & H'). exists r, (s3 ++ s2). split_and!; [done..|].
    by exists [], s3, s2.
  - intros (r & s' & -> & Hr & s0 & s1 & s2 & -> & -> & Hs & H'). exists [], (r :: s1), s2. split_and!; [done..| |done]. by constructor.
Qed.

(** Chunks after the first have a star, and only the last can be nothing but that; there are no classes. *)
Definition no_class (ts : list tok) : Prop := Forall (fun t => match t with TClass _ _ => False | _ => True end) ts.

Fixpoint chunks_ok (first : bool) (cs : list chunk) : Prop :=
  match cs with
  | [] => True
  | (star, ts) :: cs => (first = true \/ star = true) /\ no_class ts /\ (ts = [] -> cs = []) /\ chunks_ok false cs
  end.

Lemma chunks_ok_weaken b cs : chunks_ok b cs -> chunks_ok true cs.
Proof. destruct cs as [|[star ts] cs]; [done|]. cbn. tauto. Qed.

Lemma push_star_ok cs : chunks_ok true cs -> chunks_ok false (push_star cs) /\ push_star cs <> [].
Proof. destruct cs as [|[[] ts] cs]; cbn; [|naive_solver..]. intros _. split_and!; auto. constructor. Qed.

Lemma push_tok_ok t cs : match t with TClass _ _ => False | _ => True end -> chunks_ok true cs -> chunks_ok true (push_tok t cs).
Proof.
  intros Ht. assert (no_class [t]) by (by repeat constructor).
  destruct cs as [|[[] ts] cs]; cbn; [naive_solver..|]. intros (_ & H1 & _ & H2). split_and!; auto; [|done].
  by constructor.
Qed.

Lemma parse_simple fuel p : simple p -> (length p <= fuel)%nat -> exists cs, parse_chunks fuel p = Some cs /\ chunks_ok true cs /\
  forall s, chunks_fit cs s <-> fits p s.
Proof.
  revert fuel. induction p as [|c p IH]; intros fuel Hs Hl.
  - exists []. destruct fuel; (split; [done|]; split; [done|]); intros s; cbn; split; [intros ->; constructor|by inversion 1|intros ->; constructor|by inversion 1].
  - apply Forall_cons in Hs as [[H1 H2] Hs]. destruct fuel as [|fuel]; [cbn in Hl; lia|].
    destruct (IH fuel Hs ltac:(cbn in Hl; lia)) as (cs & Hp & Hok & Hfit). cbn [parse_chunks]. rewrite Hp, H1, H2.
    destruct (is_ch "*" c) eqn:Hstar; [|destruct (is_ch "?" c) eqn:Hany]; cbn; eexists; (split; [done|]).
    + destruct (push_star_ok cs Hok) as [Ho _]. split; [by eapply chunks_ok_weaken|]. intros s. rewrite chunks_fit_star. setoid_rewrite Hfit. split.
      * intros (s1 & s2 & -> & ? & ?). by constructor.
      * inversion 1; subst; try congruence. eauto.
    + split; [by apply push_tok_ok|]. intros s. rewrite chunks_fit_tok. setoid_rewrite Hfit. split.
      * intros (r & s' & -> & ? & ?). by constructor.
      * inversion 1; subst; try congruence. eauto.
    + split; [by apply push_tok_ok|]. intros s. rewrite chunks_fit_tok. setoid_rewrite Hfit. split.
      * intros (r & s' & -> & ? & ?). by constructor.
      * inversion 1; subst; try congruence. eauto.
Qed.

(** *** The first way is enough *)

Lemma matchChunk_spec ts s t : no_class ts -> matchChunk ts s = Some t <-> exists s1, s = s1 ++ t /\ Forall2 tok_fits ts s1.
Proof.
  intros Hc. revert s. induction Hc as [|tk ts Htk Hc IH]; intros s; cbn [matchChunk].
  - split; [intros [= ->]; by exists []|]. by intros (? & -> & ->%Forall2_nil_inv_l).
  - destruct s as [|r s].
    + split; [done|]. intros (s1 & E & (? & ? & _ & _ & ->)%Forall2_cons_inv_l). done.
    + assert ((match tk with TChar raw => String.eqb raw r.2 | TAny => negb (is_ch "/" r)
        | TClass negated ranges => negb (Bool.eqb (in_ranges ranges r.1) negated) end = true) <-> tok_fits tk r) as Hr.
      { destruct tk; cbn; [apply String.eqb_eq|apply negb_true_iff|done]. }
      destruct (match tk with TChar _ => _ | _ => _ end).
      * rewrite IH. split.
        -- intros (s1 & -> & H). exists (r :: s1). split; [done|]. constructor; [by apply Hr|done].
        -- intros (s1 & E & (r' & s' & H1 & H2 & ->)%Forall2_cons_inv_l). injection E as <- ->. eauto.
      * split; [done|]. intros (s1 & E & (r' & s' & H1 & H2 & ->)%Forall2_cons_inv_l). injection E as <- ->. by apply Hr in H1.
Qed.

(** A chunk that matches here, and after something without a slash, matches nothing with a slash there. *)
Lemma second_match_no_slash ts s0 s1 s1' t s2 : Forall sane (s1 ++ t) -> s1 ++ t = s0 ++ s1' ++ s2 -> s0 <> [] -> no_slash s0 ->
  Forall2 tok_fits ts s1 -> Forall2 tok_fits ts s1' -> no_slash s1'.
Proof.
  intros Hsane E Hne H0 H1 H2. apply Forall_lookup. intros n. induction n as [n IH] using lt_wf_ind. intros r Hr.
  destruct (is_ch "/" r) eqn:Hs; [|done]. exfalso.
  destruct (Forall2_lookup_r _ _ _ _ _ H2 Hr) as (tk & Htk & Hf). destruct (Forall2_lookup_l _ _ _ _ _ H1 Htk) as (r' & Hr' & Hf').
  destruct tk as [raw| |]; cbn in Hf, Hf'; [|congruence|done].
  assert (is_ch "/" r' = true) as Hs'.
  { assert (sane r /\ sane r') as [E1 E2]; [|unfold sane in *; congruence]. rewrite Forall_lookup in Hsane. split.
    - apply (Hsane (length s0 + n)%nat). rewrite E, lookup_app_r by lia. apply lookup_app_l_Some. rewrite <- Hr. f_equal. lia.
    - apply (Hsane n). by apply lookup_app_l_Some. }
  assert ((s0 ++ s1' ++ s2) !! n = Some r') as Hn by (rewrite <- E; by apply lookup_app_l_Some).
  destruct (decide (n < length s0)%nat) as [Hlt|Hge].
  - rewrite lookup_app_l in Hn by done. unfold no_slash in H0. rewrite Forall_lookup in H0. apply H0 in Hn. congruence.
  - rewrite lookup_app_r in Hn by lia. assert (0 < length s0)%nat by (destruct s0; [done|cbn; lia]).
    apply lookup_lt_Some in Hr as Hl. rewrite lookup_app_l in Hn by lia. apply IH in Hn; [congruence|lia].
Qed.

(** One way to match a chunk after what a star stands for *)
Definition chunk_at (star final : bool) (ts : list tok) (s s0 s1 t : list rune) : Prop :=
  s = s0 ++ s1 ++ t /\ stars star s0 /\ Forall2 tok_fits ts s1 /\ (final = true -> t = []).

Lemma chunk_here star final ts s t : no_class ts ->
  (match matchChunk ts s with Some t => if final && bool_decide (t <> []) then None else Some t | None => None end) = Some t <->
  exists s1, chunk_at star final ts s [] s1 t.
Proof.
  intros Hc. unfold chunk_at. cbn [app]. split.
  - destruct (matchChunk ts s) as [t1|] eqn:Hm; [|done]. destruct (final && bool_decide (t1 <> [])) eqn:Hb; [done|]. intros [= <-].
    apply matchChunk_spec in Hm as (s1 & Hs1 & Hf); [|done]. exists s1. split_and!; [done|destruct star; [constructor|done]|done|].
    intros ->. cbn [andb] in Hb. apply bool_decide_eq_false in Hb. by apply dec_stable.
  - intros (s1 & -> & _ & Hf & Hfin). assert (matchChunk ts (s1 ++ t) = Some t) as -> by (apply matchChunk_spec; eauto).
    destruct final; [by rewrite Hfin by done|done].
Qed.

(** Where [find_chunk] finds a chunk: at the first place there is *)
Lemma find_chunk_Some star final ts s t : no_class ts -> find_chunk star final ts s = Some t ->
  exists s0 s1, chunk_at star final ts s s0 s1 t /\
    forall s0' s1' t', chunk_at star final ts s s0' s1' t' -> (length s0 <= length s0')%nat.
Proof.
  intros Hc. revert t. induction s as [|r s IH]; intros t; cbn [find_chunk]; cbv zeta.
  all: pose proof (chunk_here star final ts) as Hh.
  all: lazymatch goal with |- match ?here with Some _ => _ | None => _ end = _ -> _ => destruct here as [t1|] eqn:E end;
    [intros [= ->]; apply Hh in E as (s1 & Hs1); [|done]; exists [], s1; split; [done|]; cbn; lia|].
  1: done.
  destruct (star && negb (is_ch "/" r)) eqn:Hr; [|done]. intros Hf. apply IH in Hf as (s0 & s1 & (-> & H0 & H1 & H2) & Hfirst).
  apply andb_true_iff in Hr as [-> Hr%negb_true_iff]. exists (r :: s0), s1. split; [split_and!; try done; by constructor|].
  intros [|r' s0'] s1' t' Ho.
  - assert (exists m, chunk_at true final ts (r :: s0 ++ s1 ++ t) [] m t') as Hx by (by exists s1'). apply (Hh _ _ Hc) in Hx. congruence.
  - destruct Ho as (Ho & [_ Hs]%Forall_cons & H4 & H5). injection Ho as <- Ho. cbn. apply le_n_S. by apply (Hfirst s0' s1' t').
Qed.

Lemma find_chunk_None star final ts s s0 s1 t : no_class ts -> find_chunk star final ts s = None -> ~ chunk_at star final ts s s0 s1 t.
Proof.
  intros Hc. revert s. induction s0 as [|r s0 IH]; intros s Hf Hat.
  - pose proof (chunk_here star final ts s t Hc) as [_ Hh]. assert (exists s1, chunk_at star final ts s [] s1 t) as Hx%Hh by eauto.
    destruct s; cbn [find_chunk] in Hf; cbv zeta in Hf; rewrite Hx in Hf; done.
  - destruct Hat as (-> & H0 & H1 & H2). destruct star; [|done]. apply Forall_cons in H0 as [Hr H0]. cbn [app find_chunk] in Hf. cbv zeta in Hf.
    destruct (match matchChunk ts _ with Some t => _ | None => None end); [done|]. rewrite Hr in Hf. by apply (IH (s0 ++ s1 ++ t)).
Qed.

(** What the first match leaves can be matched if what any other leaves can. *)
Lemma match_chunks_fit b cs s : Forall sane s -> chunks_ok b cs -> match_chunks cs s = true <-> chunks_fit cs s.
Proof.
  revert b s. induction cs as [|[star ts] cs IH]; intros b s Hs Hok; cbn [match_chunks chunks_fit]; [by rewrite bool_decide_eq_true|].
  destruct Hok as (_ & Hc & Hlast & Hok). destruct (star && bool_decide (ts = [])) eqn:Hst.
  { apply andb_true_iff in Hst as [-> ->%bool_decide_eq_true]. rewrite Hlast by done. cbn [chunks_fit stars].
    rewrite negb_true_iff, <- not_true_iff_false, existsb_exists. split.
    - intros H. exists s, [], []. rewrite !app_nil_r. split_and!; try done. apply Forall_forall. intros r Hr. apply not_true_iff_false.
      intros E. apply H. exists r. by rewrite <- list_elem_of_In.
    - intros (s0 & s1 & s2 & -> & H & ->%Forall2_nil_inv_l & ->). rewrite !app_nil_r. intros (r & Hr%list_elem_of_In & E).
      unfold no_slash in H. rewrite Forall_forall in H. apply H in Hr. congruence. }
  destruct (find_chunk star (bool_decide (cs = [])) ts s) as [t|] eqn:Hf.
  2: { split; [done|]. intros (s0 & s1 & s2 & E & H0 & H1 & H2). exfalso. apply (find_chunk_None _ _ _ _ s0 s1 s2 Hc Hf).
       split_and!; [done..|]. intros ->%bool_decide_eq_true. done. }
  apply find_chunk_Some in Hf as (s0 & s1 & (-> & H0 & H1 & Hfin) & Hfirst); [|done].
  assert (Forall sane (s1 ++ t)) as Hst1 by (by apply Forall_app in Hs as [_ Hs]).
  assert (Forall sane t) as Hst2 by (by apply Forall_app in Hst1 as [_ Hst1]).
  rewrite (IH false) by done. split; [intros H; by exists s0, s1, t|].
  intros (s0' & s1' & s2 & E & H0' & H1' & H2). destruct cs as [|[star' ts'] cs]; [cbn; by apply Hfin|].
  destruct Hok as ([?| ->] & _); [done|].
  assert (length s0 <= length s0')%nat as Hle by (apply (Hfirst s0' s1' s2); split_and!; done).
  assert (exists d, s0' = s0 ++ d /\ s1 ++ t = d ++ s1' ++ s2) as (d & -> & E').
  { exists (drop (length s0) s0'). assert (take (length s0) s0' = s0) as Et.
    { apply (f_equal (take (length s0))) in E. rewrite take_app_length, take_app_le in E by done. done. }
    pose proof (take_drop (length s0) s0') as Hx. rewrite Et in Hx. split; [done|].
    apply (f_equal (drop (length s0))) in E. by rewrite drop_app_length, drop_app_le in E by done. }
  apply Forall2_length in H1 as Hl1. apply Forall2_length in H1' as Hl1'.
  assert (t = drop (length s1) (d ++ s1') ++ s2) as Ht.
  { apply (f_equal (drop (length s1))) in E'. rewrite drop_app_length, app_assoc, drop_app_le in E'; [done|]. rewrite length_app. lia. }
  destruct (decide (d = [])) as [->|Hd].
  { cbn [app] in Ht. rewrite drop_ge in Ht by lia. by subst t. }
  destruct star; [|by apply app_eq_nil in H0' as [_ ->]]. apply Forall_app in H0' as [_ Hd'].
  assert (no_slash s1') as Hns by (by eapply second_match_no_slash).
  destruct H2 as (s3 & s4 & s5 & -> & H3 & H4 & H5). exists (drop (length s1) (d ++ s1') ++ s3), s4, s5.
  rewrite Ht, <- app_assoc. split_and!; [done| |done|done]. apply Forall_app. split; [|done]. apply Forall_drop, Forall_app. done.
Qed.

(** [path.Match], for patterns without classes and escapes *)
Lemma path_Match_fits pattern name : simple (Runes pattern) ->
  exists b, path_Match pattern name = Some b /\ (b = true <-> fits (Runes pattern) (Runes name)).
Proof.
  intros Hs. unfold path_Match. destruct (parse_simple (String.length pattern) (Runes pattern) Hs) as (cs & -> & Hok & Hfit).
  { unfold Runes. generalize (String.length pattern) as fuel. intros fuel. clear. revert pattern.
    induction fuel as [|fuel IH]; intros [|c s]; cbn [decode_all length]; try lia.
    destruct (code c <? 128); [|destruct (DecodeRune _)]; cbn [length]; apply le_n_S, IH. }
  exists (match_chunks cs (Runes name)). split; [done|]. rewrite <- Hfit. apply (match_chunks_fit true); [apply Runes_sane|done].
Qed.

(** What a pattern gives in a directory. One with two stars is read as a regular expression. *)
Definition pattern_fits (root p n : string) : Prop :=
  if contains p "**" then exists e, Compile (toRegexString (path_join [root; p])) = Some e /\ MatchString e n = true
  else fits (Runes (path_join [root; p])) (Runes n).

(** What a pattern excludes: what it names, and all below that; else what it matches, where a pattern without a slash is
    for the last component alone. *)
Definition excluded_by (root n q : string) : Prop :=
  (exists rest, n = path_join [root; q] +:+ rest /\ (rest = "" \/ exists r, rest = "/" +:+ r)) \/
  if contains_byte "/" n && negb (contains_byte "/" q) then pattern_fits "" q (path_base n) else pattern_fits root q n.

(** A pattern that can be used in a directory, and by itself *)
Definition valid_pattern (root p : string) : Prop :=
  p <> "" /\ forall r, r = root \/ r = "" ->
    if contains p "**" then is_Some (Compile (toRegexString (path_join [r; p]))) else simple (Runes (path_join [r; p])).

Lemma patternToMatcher_fits root p r : valid_pattern root p -> r = root \/ r = "" ->
  exists m, patternToMatcher r p = Ok m /\ forall n, exists b, matcher_Match m n = Ok b /\ (b = true <-> pattern_fits r p n).
Proof.
  intros [_ Hv] Hr. specialize (Hv r Hr). unfold patternToMatcher, pattern_fits. destruct (contains p "**"); cbn [negb].
  - destruct Hv as [e ->]. exists (regexGlob e). split; [done|]. intros n. exists (MatchString e n). split; [done|].
    split; [eauto|by intros (? & [= <-] & ?)].
  - exists (builtInGlob (path_join [r; p])). split; [done|]. intros n. destruct (path_Match_fits _ n Hv) as (b & Hb & H).
    exists b. cbn [matcher_Match]. by rewrite Hb.
Qed.

Lemma isBathPathOf_spec n base : isBathPathOf n base = true <-> exists rest, n = base +:+ rest /\ (rest = "" \/ exists r, rest = "/" +:+ r).
Proof.
  unfold isBathPathOf, TrimPrefix. destruct (has_prefix n base) eqn:E; cbn [negb].
  - apply has_prefix_spec in E as [rest ->]. rewrite str_drop_app, orb_true_iff, String.eqb_eq, has_prefix_spec. split; [eauto|].
    intros (r & H%str_app_inj & Hr). by subst r.
  - split; [done|]. intros (rest & -> & _). by rewrite has_prefix_app_self in E.
Qed.

Lemma shouldExcludeMatch_spec root n excludes : (forall p, p ∈ excludes -> valid_pattern root p) ->
  exists b, shouldExcludeMatch root n excludes = Ok b /\ (b = true <-> exists q, q ∈ excludes /\ excluded_by root n q).
Proof.
  induction excludes as [|p excludes IH]; intros Hv.
  { exists false. split; [done|]. split; [done|]. by intros (q & ?%elem_of_nil & _). }
  destruct IH as (b' & E & Hb'); [intros q Hq; apply Hv; by right|]. setoid_rewrite elem_of_cons.
  pose proof (Hv p ltac:(by left)) as Hp. cbn [shouldExcludeMatch]. unfold mustBeValidGlobString.
  rewrite (proj2 (String.eqb_neq p "") (proj1 Hp)), bind_Ok_l, E.
  assert (forall r m, r = root \/ r = "" ->
    exists b, (matcher ← patternToMatcher r p; b ← matcher_Match matcher m; if b : bool then Ok true else Ok b') = Ok b /\
      (b = true <-> pattern_fits r p m \/ b' = true)) as H.
  { intros r m Hr. destruct (patternToMatcher_fits root p r Hp Hr) as (mt & -> & Hm). rewrite bind_Ok_l.
    destruct (Hm m) as (b & -> & Hb). rewrite bind_Ok_l. destruct b; eexists; (split; [done|]); naive_solver. }
  destruct (isBathPathOf n (path_join [root; p])) eqn:Hbase.
  { exists true. split; [done|]. apply isBathPathOf_spec in Hbase. split; [|done]. intros _. exists p. split; [by left|]. by left. }
  assert (forall X : Prop, excluded_by root n p \/ X <-> (if contains_byte "/" n && negb (contains_byte "/" p)
    then pattern_fits "" p (path_base n) else pattern_fits root p n) \/ X) as Hex.
  { intros X. unfold excluded_by. rewrite <- isBathPathOf_spec, Hbase. naive_solver. }
  assert (forall b : bool, (b = true <-> excluded_by root n p \/ b' = true) ->
    (b = true <-> exists q, (q = p \/ q ∈ excludes) /\ excluded_by root n q)) as Hlast by (intros b ->; rewrite Hb'; naive_solver).
  setoid_rewrite Hex in Hlast.
  destruct (contains_byte "/" n && negb (contains_byte "/" p)).
  - destruct (H "" (path_base n)) as (b & Hb & Hb2); [by right|]. exists b. split; [exact Hb|]. by apply Hlast.
  - destruct (H root n) as (b & Hb & Hb2); [by left|]. exists b. split; [exact Hb|]. by apply Hlast.
Qed.

(** What a pattern of a package gives *)
Definition globbed (g : Globber) (rc : list string) (e : entry) (excludes : list string) (hidden links : bool) (p n : string) : Prop :=
  exists cs e', n = nm (rc ++ cs) /\ in_this_package g rc e cs e' /\ (is_link e' = true -> links = true) /\
    (hidden = true \/ isHidden n = false) /\ pattern_fits (nm rc) p n /\ forall q, q ∈ excludes -> ~ excluded_by (nm rc) n q.

Lemma package_dir_same g g' rc e : same_files g g' -> package_dir g rc e -> package_dir g' rc e.
Proof. intros [H1 H2] []. split; rewrite ?H1, ?H2; done. Qed.

Lemma globbed_same g g' rc e excludes hidden links p n :
  same_files g g' -> globbed g' rc e excludes hidden links p n <-> globbed g rc e excludes hidden links p n.
Proof. intros [H1 H2]. unfold globbed, in_this_package. by rewrite H2. Qed.

Lemma one_glob g rc e p excludes hidden links : memo_ok g -> package_dir g rc e ->
  valid_pattern (nm rc) p -> (forall q, q ∈ excludes -> valid_pattern (nm rc) q) ->
  exists g' files, glob g (nm rc) p excludes hidden links = Ok (g', files) /\ memo_ok g' /\ same_files g g' /\
    forall n, n ∈ files <-> globbed g rc e excludes hidden links p n.
Proof.
  intros Hg Hpd Hp Hv. unfold glob. destruct (patternToMatcher_fits (nm rc) p (nm rc) Hp) as (m & Hpm & Hb); [by left|]. rewrite Hpm, bind_Ok_l.
  destruct (walkDir_ok g (nm rc) e Hg (pd_stat _ _ _ Hpd)) as (g' & -> & Hg' & Hsame). rewrite bind_Ok_l.
  set (dir := walk_of g (nm rc) e). set (ns := fileNames dir ++ (if links then symlinks dir else [])).
  destruct (filterM_spec (matcher_Match m) ns) as (ms & -> & Hms); [intros x _; destruct (Hb x) as (b & ? & _); eauto|]. rewrite bind_Ok_l.
  set (keep := fun n => if isInDirectories n (subPackages dir) then Ok false else
    if negb hidden && isHidden n then Ok false else shouldExclude ← shouldExcludeMatch (nm rc) n excludes; Ok (negb shouldExclude)).
  assert (forall n, keep n = Ok true <-> isInDirectories n (subPackages dir) = false /\ (hidden = true \/ isHidden n = false) /\
    forall q, q ∈ excludes -> ~ excluded_by (nm rc) n q) as Hk.
  { intros n. unfold keep. destruct (isInDirectories n _); [naive_solver|].
    destruct (shouldExcludeMatch_spec (nm rc) n excludes Hv) as (b & -> & Hx).
    cbn. destruct hidden, (isHidden n), b; cbn; naive_solver. }
  destruct (filterM_spec keep ms) as (ret & -> & Hret).
  { intros n _. unfold keep. destruct (isInDirectories n _); [by eexists|]. destruct (negb hidden && _); [by eexists|].
    destruct (shouldExcludeMatch_spec (nm rc) n excludes Hv) as (b & -> & _). by eexists. }
  rewrite bind_Ok_l. exists g', ret. split_and!; [done..|]. intros n. rewrite Hret, Hms, Hk. unfold globbed.
  assert (n ∈ ns <-> exists k, (k = true -> links = true) /\ n ∈ names dir k) as ->.
  { unfold ns. rewrite elem_of_app. split.
    - intros [?|Hl]; [by exists false|]. destruct links; [by exists true|by apply elem_of_nil in Hl].
    - intros ([] & Hl & Hin); [right; by rewrite Hl|by left]. }
  assert (pattern_fits (nm rc) p n <-> matcher_Match m n = Ok true) as Hmm.
  { destruct (Hb n) as (b & -> & <-). split; [by intros ->|by intros [= ->]]. }
  pose proof (walk_of_spec g rc e Hpd) as Hw. fold dir in Hw. setoid_rewrite Hmm. split.
  - intros [[(k & Hl & Hin) Hmat] (Hd & Hh & He)]. destruct (proj1 (Hw k n) (conj Hin Hd)) as (cs & e' & Hp' & Hk' & Hn).
    exists cs, e'. subst k. done.
  - intros (cs & e' & Hn & Hp' & Hl & Hh & Hmat & He). destruct (proj2 (Hw (is_link e') n)) as [Hin Hd]; [by exists cs, e'|].
    split_and!; [eauto|done..].
Qed.

(** C33: The files of a glob are exactly the entries of the package - of no other package below
    it, nor, at the root of the repo, of [plz-out] - that one of the patterns matches, that are not hidden
    unless these are wanted, no symbolic links unless these are wanted, and that no
    pattern excludes; whatever has been globbed before. A pattern without two stars in a row, where [*]
    stands for any characters but slashes and [?] for one, matches a path as a whole; one with
    two stars is the regular expression that is made of it, which is not quite what the
    documentation says ([double_star_at_root], [double_star_twice]). Patterns have no classes or
    escapes, or are regular expressions that compile; and no file of the package at the root has the name
    [plz-out] ([plz_out_file_hides]). *)
Theorem Globber_Glob_spec g rc e includes excludes hidden links :
  memo_ok g -> package_dir g rc e ->
  (forall p, p ∈ includes ++ excludes -> valid_pattern (nm rc) p) ->
  exists g' files, Globber_Glob g (nm rc) includes excludes hidden links = Ok (g', files) /\ memo_ok g' /\
    forall f, f ∈ files <-> exists p n, p ∈ includes /\ globbed g rc e excludes hidden links p n /\ f = TrimPrefix n (nm rc +:+ "/").
Proof.
  intros Hg Hpd Hv. unfold Globber_Glob.
  assert (nm rc <> "") as Hne.
  { intros E. destruct rc as [|c cs]; [done|]. destruct Hpd as [Hgood _ _ _ _ _]. by apply (join_not_nil (c :: cs)) in Hgood. }
  rewrite (proj2 (String.eqb_neq _ _) Hne). cbv zeta.
  lazymatch goal with |- context [foldM ?step _ _] =>
    destruct (foldM_inv step (fun dn st => memo_ok st.1 /\ same_files g st.1 /\
      forall f, f ∈ st.2 <-> exists p n, p ∈ dn /\ globbed g rc e excludes hidden links p n /\ f = TrimPrefix n (nm rc +:+ "/")) includes (g, []))
      as ([g' files] & Hf & Hg' & _ & Hfiles)
  end.
  - split_and!; [done..|]. cbn. intros f. split; [by intros ?%elem_of_nil|by intros (? & ? & ?%elem_of_nil & _)].
  - intros l1 p l2 [g1 fs] Hi (Hg1 & Hsame & Hfs). cbn [fst snd] in *.
    assert (valid_pattern (nm rc) p) as Hvp by (apply Hv; rewrite Hi; set_solver). unfold mustBeValidGlobString.
    rewrite (proj2 (String.eqb_neq p "") (proj1 Hvp)), bind_Ok_l.
    destruct (one_glob g1 rc e p excludes hidden links) as (g2 & ms & -> & Hg2 & Hs2 & Hms);
      [done|by eapply package_dir_same|done|intros q Hq; apply Hv; set_solver|]. rewrite bind_Ok_l. eexists. split; [done|].
    destruct Hsame as [HA HB], Hs2 as [HA2 HB2]. split_and!; [done|split; cbn; congruence|]. intros f. cbn [snd]. rewrite elem_of_app, Hfs, list_elem_of_fmap.
    setoid_rewrite Hms. setoid_rewrite (globbed_same g g1); [|done]. setoid_rewrite elem_of_app. setoid_rewrite list_elem_of_singleton. split.
    + intros [(q & n & Hq & H)|(n & -> & H)]; [exists q, n|exists p, n]; tauto.
    + intros (q & n & [Hq| ->] & H & Hn); [left|right]; eauto.
  - exists g', files. done.
Qed.

(** ** Examples *)

Definition glob_tree : entry :=
  EDir [("BUILD", EFile); ("a+.txt", EFile);
    ("p", EDir [("BUILD", EFile); ("a.txt", EFile); ("d", EDir [("b.txt", EFile); ("c.txt", ELink)]);
      ("q", EDir [("BUILD", EFile); ("x.txt", EFile); ("A", EDir [("y.txt", EFile)])])]); ("plz-out", EDir [("o.txt", EFile)])].

Lemma valid_pattern_check root p :
  negb (String.eqb p "") && forallb (fun r => if contains p "**" then bool_decide (is_Some (Compile (toRegexString (path_join [r; p]))))
    else forallb (fun c => negb (is_ch "[" c) && negb (is_ch "\" c)) (Runes (path_join [r; p]))) [root; ""] = true -> valid_pattern root p.
Proof.
  intros [Hp%negb_true_iff%String.eqb_neq H]%andb_true_iff. split; [done|]. intros r Hr. rewrite forallb_forall in H.
  specialize (H r). cbn [In] in H. assert (root = r \/ "" = r \/ False) as Hin by (destruct Hr; auto). apply H in Hin.
  destruct (contains p "**"); [by apply bool_decide_eq_true in Hin|]. apply Forall_forall. intros c Hc.
  rewrite forallb_forall in Hin. apply list_elem_of_In, Hin in Hc. by apply andb_true_iff in Hc as [?%negb_true_iff ?%negb_true_iff].
Qed.

Definition glob_package : entry := default EFile (entry_at glob_tree ["p"]).

Lemma glob_package_dir : package_dir (NewGlobber glob_tree ["BUILD"]) ["p"] glob_package.
Proof. split; [by constructor|done|done| |done|done]. by vm_compute. Qed.

Lemma NewGlobber_ok t b : memo_ok (NewGlobber t b).
Proof. intros root dir H. cbn in H. by rewrite lookup_empty in H. Qed.

Lemma Globber_Glob_spec_witness :
  let g := NewGlobber glob_tree ["BUILD"] in
  exists g' files, Globber_Glob g (nm ["p"]) ["**/*.txt"; "*.txt"] ["d/b.txt"; "BUILD"] false true = Ok (g', files) /\ memo_ok g' /\
    forall f, f ∈ files <-> exists p n, p ∈ ["**/*.txt"; "*.txt"] /\
      globbed g ["p"] glob_package ["d/b.txt"; "BUILD"] false true p n /\ f = TrimPrefix n (nm ["p"] +:+ "/").
Proof.
  intros g. apply (Globber_Glob_spec g ["p"] glob_package); [apply NewGlobber_ok|apply glob_package_dir|].
  intros p Hp. apply valid_pattern_check. cbn in Hp. repeat (apply elem_of_cons in Hp as [->|Hp]; [by vm_compute|]). by apply elem_of_nil in Hp.
Defined.

Example glob_here : Glob glob_tree ["BUILD"] "p" ["*.txt"] [] false = Ok ["a.txt"].
Proof. vm_compute. reflexivity. Qed.
Example glob_below : Glob glob_tree ["BUILD"] "p" ["**/*.txt"] [] false = Ok ["a.txt"; "d/b.txt"; "d/c.txt"].
Proof. vm_compute. reflexivity. Qed.
Example glob_without : Glob glob_tree ["BUILD"] "p" ["**/*.txt"; "**"] ["d"; "BUILD"] false = Ok ["a.txt"; "a.txt"].
Proof. vm_compute. reflexivity. Qed.
Example glob_root : Glob glob_tree ["BUILD"] "" ["*.txt"] [] false = Ok ["a+.txt"].
Proof. vm_compute. reflexivity. Qed.
Example glob_root_below : Glob glob_tree ["BUILD"] "" ["**/*.txt"] [] false = Ok [].
Proof. vm_compute. reflexivity. Qed.

(** ** Flaws *)

(** At the root of the repo two stars stand for at least one directory, elsewhere for none or more. *)
Lemma double_star_at_root :
  Glob glob_tree ["BUILD"] "" ["**/a*.txt"] [] false = Ok [] /\ Glob glob_tree ["BUILD"] "p" ["**/a*.txt"] [] false = Ok ["a.txt"].
Proof. vm_compute. done. Qed.

(** Two in a row stand for at least one directory. *)
Lemma double_star_twice : glob_Match "p/**/**/a.txt" "p/a.txt" = Ok false /\ glob_Match "p/**/a.txt" "p/a.txt" = Ok true.
Proof. vm_compute. done. Qed.

(** A question mark matches a slash, if there are two stars in the pattern. *)
Lemma question_matches_slash : glob_Match "**a?b" "a/b" = Ok true /\ glob_Match "*a?b" "a/b" = Ok false.
Proof. vm_compute. done. Qed.

(** A file that is called [plz-out] hides what comes after it in its directory. *)
Lemma plz_out_file_hides :
  Glob (EDir [("d", EDir [("a", EFile); ("plz-out", EFile); ("z", EFile)])]) ["BUILD"] "" ["d/*"] [] false = Ok ["d/a"].
Proof. vm_compute. done. Qed.
