(* ===== verification/Metadata.v ===== *)
(** What is remembered of how a BUILD file was interpreted: the metadata of a package
    ([src/core/package_metadata.go]), and what is gathered for it while a statement is
    interpreted ([src/parse/asp/interpreter.go], from [scopeMetadata] on).

    What a statement does in between is given by the calls it makes. Mutexes are left out:
    a package is interpreted by one thread. *)
From S2P Require Import Prelude GoStrings Labels Targets Graph.

(** ** The metadata of a package *)

(** [buildStatement]: where a statement starts and ends *)
Definition BuildStatement : Type := Z * Z.
Definition StartPos (s : BuildStatement) : Z := s.1.

Record StatementMetadata := MkStatementMetadata {
  sm_Subincludes : list BuildLabel;
  Files : list string;
  sm_Targets : list BuildLabel;
  IsSubincludeStatement : bool;
}.

(** [core.PackageMetadata] *)
Class PackageMetadata (M : Type) := {
  RegisterStatement : M -> BuildStatement -> list BuildLabel -> list string -> M;
  RegisterTargetStatement : M -> BuildLabel -> BuildStatement -> M;
  RegisterSubincludeStatement : M -> BuildStatement -> M;
  FindStatement : M -> BuildLabel -> res BuildStatement;
  FindTargets : M -> BuildStatement -> res (list BuildLabel);
  FindRequiredSubincludes : M -> BuildLabel -> res (list BuildLabel);
  FindRelatedTargets : M -> BuildLabel -> res (list BuildLabel);
  FindPackageLevelRequirements : M -> res (list BuildLabel * list string);
  GetSubincludedLabels : M -> BuildStatement -> res (list BuildLabel);
  IsInterpretedStatement : M -> BuildStatement -> res bool;
  Statements : M -> res (list (BuildStatement * StatementMetadata));
}.

Record trackedPackageMetadata := MkTracked {
  md_statements : gmap BuildStatement StatementMetadata;
  targetToStmt : gmap BuildLabel BuildStatement;
}.

Definition newPackageMetadata : trackedPackageMetadata := MkTracked ∅ ∅.

(** [mergeSlices] *)
Definition mergeSlices {T} `{EqDecision T} (existing newElements : list T) : list T :=
  foldl (fun merged el => if decide (el ∈ merged) then merged else merged ++ [el]) existing newElements.

(** What is known of a statement *)
Definition statement_of (m : trackedPackageMetadata) (stmt : BuildStatement) : StatementMetadata :=
  default (MkStatementMetadata [] [] [] false) (md_statements m !! stmt).

Definition tracked_RegisterStatement (m : trackedPackageMetadata) (stmt : BuildStatement) (requiredSubincludes : list BuildLabel)
    (files : list string) : trackedPackageMetadata :=
  let sm := statement_of m stmt in
  MkTracked (<[stmt := MkStatementMetadata
    (match requiredSubincludes with [] => sm_Subincludes sm | _ => mergeSlices (sm_Subincludes sm) requiredSubincludes end)
    (match files with [] => Files sm | _ => mergeSlices (Files sm) files end)
    (sm_Targets sm) (IsSubincludeStatement sm)]> (md_statements m)) (targetToStmt m).

Definition tracked_RegisterTargetStatement (m : trackedPackageMetadata) (target : BuildLabel) (stmt : BuildStatement) : trackedPackageMetadata :=
  let sm := statement_of m stmt in
  MkTracked (<[stmt := MkStatementMetadata (sm_Subincludes sm) (Files sm) (sm_Targets sm ++ [target]) (IsSubincludeStatement sm)]> (md_statements m))
    (<[target := stmt]> (targetToStmt m)).

Definition tracked_RegisterSubincludeStatement (m : trackedPackageMetadata) (stmt : BuildStatement) : trackedPackageMetadata :=
  let sm := statement_of m stmt in
  MkTracked (<[stmt := MkStatementMetadata (sm_Subincludes sm) (Files sm) (sm_Targets sm) true]> (md_statements m)) (targetToStmt m).

Definition findStatement (m : trackedPackageMetadata) (target : BuildLabel) : res BuildStatement :=
  match targetToStmt m !! target with Some stmt => Ok stmt | None => Err (EPanic "failed to find statement for target") end.

Definition findTargets (m : trackedPackageMetadata) (stmt : BuildStatement) : list BuildLabel :=
  match md_statements m !! stmt with Some sm => sm_Targets sm | None => [] end.

Definition tracked_FindRequiredSubincludes (m : trackedPackageMetadata) (target : BuildLabel) : res (list BuildLabel) :=
  stmt ← findStatement m target;
  match md_statements m !! stmt with Some sm => Ok (sm_Subincludes sm) | None => Err (EPanic "failed to find metadata for statement") end.

(** A slice cannot be made with a negative capacity. *)
Definition tracked_FindRelatedTargets (m : trackedPackageMetadata) (target : BuildLabel) : res (list BuildLabel) :=
  stmt ← findStatement m target;
  match findTargets m stmt with
  | [] => Err (EPanic "makeslice: cap out of range")
  | relatedTargets => Ok (filter (fun l => l <> target) relatedTargets)
  end.

Definition tracked_FindPackageLevelRequirements (m : trackedPackageMetadata) : list BuildLabel * list string :=
  let others := filter (fun sm => sm_Targets sm = [] /\ IsSubincludeStatement sm = false) (map_to_list (md_statements m)).*2 in
  (sort_labels (elements (list_to_set (others ≫= sm_Subincludes) : gset BuildLabel)),
   sort_strings (elements (list_to_set (others ≫= Files) : gset string))).

Definition tracked_GetSubincludedLabels (m : trackedPackageMetadata) (stmt : BuildStatement) : list BuildLabel :=
  match md_statements m !! stmt with
  | Some sm => if IsSubincludeStatement sm then sm_Subincludes sm else []
  | None => []
  end.

(** In the order of the file *)
Definition before_statement (a b : BuildStatement * StatementMetadata) : Prop := (StartPos a.1 <= StartPos b.1)%Z.
#[export] Instance before_statement_dec a b : Decision (before_statement a b).
Proof. unfold before_statement. apply _. Defined.

Definition tracked_Statements (m : trackedPackageMetadata) : list (BuildStatement * StatementMetadata) :=
  merge_sort before_statement (map_to_list (md_statements m)).

#[export] Instance tracked_metadata : PackageMetadata trackedPackageMetadata := {
  RegisterStatement := tracked_RegisterStatement;
  RegisterTargetStatement := tracked_RegisterTargetStatement;
  RegisterSubincludeStatement := tracked_RegisterSubincludeStatement;
  FindStatement := findStatement;
  FindTargets m stmt := Ok (findTargets m stmt);
  FindRequiredSubincludes := tracked_FindRequiredSubincludes;
  FindRelatedTargets := tracked_FindRelatedTargets;
  FindPackageLevelRequirements m := Ok (tracked_FindPackageLevelRequirements m);
  GetSubincludedLabels m stmt := Ok (tracked_GetSubincludedLabels m stmt);
  IsInterpretedStatement m stmt := Ok (bool_decide (is_Some (md_statements m !! stmt)));
  Statements m := Ok (tracked_Statements m);
}.

(** [noopPackageMetadata]: nothing is remembered, and asking for it is fatal. *)
Inductive noopPackageMetadata := NoopPackageMetadata.

Definition not_tracked {A} : res A := Err (EFatal "metadata not tracked, using no-op implementation").

#[export] Instance noop_metadata : PackageMetadata noopPackageMetadata := {
  RegisterStatement m _ _ _ := m;
  RegisterTargetStatement m _ _ := m;
  RegisterSubincludeStatement m _ := m;
  FindStatement _ _ := not_tracked;
  FindTargets _ _ := not_tracked;
  FindRequiredSubincludes _ _ := not_tracked;
  FindRelatedTargets _ _ := not_tracked;
  FindPackageLevelRequirements _ := not_tracked;
  GetSubincludedLabels _ _ := not_tracked;
  IsInterpretedStatement _ _ := not_tracked;
  Statements _ := not_tracked;
}.

(** ** What is gathered while a statement is interpreted *)

Record trackingScopeMetadata := MkScopeMetadata {
  stmtCursor : option BuildStatement;
  symbolOrigins : gmap string BuildLabel;
  symbolStack : list (string * BuildLabel);
  fileStack : list string;
  subincludesStack : list BuildLabel;
}.

Definition newScopeMetadata : trackingScopeMetadata := MkScopeMetadata None ∅ [] [] [].

Definition origin (m : trackingScopeMetadata) (name : string) : option BuildLabel := symbolOrigins m !! name.

Definition setCursor (m : trackingScopeMetadata) (stmt : BuildStatement) : trackingScopeMetadata :=
  MkScopeMetadata (Some stmt) (symbolOrigins m) (symbolStack m) (fileStack m) (subincludesStack m).

Definition setSymbolOrigin (m : trackingScopeMetadata) (name : string) (origin : BuildLabel) : trackingScopeMetadata :=
  MkScopeMetadata (stmtCursor m) (<[name := origin]> (symbolOrigins m)) (symbolStack m) (fileStack m) (subincludesStack m).

Definition pushSymbol (m : trackingScopeMetadata) (name : string) (origin : option BuildLabel) : trackingScopeMetadata :=
  match origin with
  | None => m
  | Some l => MkScopeMetadata (stmtCursor m) (symbolOrigins m) (symbolStack m ++ [(name, l)]) (fileStack m) (subincludesStack m)
  end.

Definition pushFiles (m : trackingScopeMetadata) (rootPath : string) (filenames : list string) : trackingScopeMetadata :=
  MkScopeMetadata (stmtCursor m) (symbolOrigins m) (symbolStack m)
    (fileStack m ++ map (fun filename => path_join [rootPath; filename]) filenames) (subincludesStack m).

Definition pushSubincludes (m : trackingScopeMetadata) (labels : list BuildLabel) : trackingScopeMetadata :=
  MkScopeMetadata (stmtCursor m) (symbolOrigins m) (symbolStack m) (fileStack m) (subincludesStack m ++ labels).

Definition checkpoint (m : trackingScopeMetadata) : nat * nat * nat :=
  (length (symbolStack m), length (fileStack m), length (subincludesStack m)).

Definition truncate {A} (n : nat) (l : list A) : list A := if (n <=? length l)%nat then take n l else l.

Definition restore (m : trackingScopeMetadata) (cp : nat * nat * nat) : trackingScopeMetadata :=
  let '(symbols, files, subincludes) := cp in
  MkScopeMetadata (stmtCursor m) (symbolOrigins m) (truncate symbols (symbolStack m)) (truncate files (fileStack m))
    (truncate subincludes (subincludesStack m)).

(** What a statement needs: each label once, first those it includes *)
Definition required (m : trackingScopeMetadata) : list BuildLabel := mergeSlices [] (subincludesStack m ++ (symbolStack m).*2).

Section track.
Context {M : Type} `{PackageMetadata M}.

Definition registerBuildStatement (m : trackingScopeMetadata) (md : M) (stmt : BuildStatement) : M :=
  RegisterStatement md stmt (required m) (fileStack m).

(** [CurrentBuildStatement] *)
Definition CurrentBuildStatement (m : trackingScopeMetadata) : res BuildStatement :=
  match stmtCursor m with Some stmt => Ok stmt | None => Err (EPanic "Cursor is not pointing to a statement") end.

(** What the interpreter does at the top level of a file: looking up a name, assigning to one, globbing,
    including targets with the names they define, creating a target, and interpreting a statement.
    Assigning ([scope.Set]) changes the variable only: where the name came from stays recorded. *)
Inductive scope_call :=
  | CLookup (name : string)
  | CAssign (name : string)
  | CGlob (rootPath : string) (files : list string)
  | CSubinclude (labels : list BuildLabel) (names : list (string * BuildLabel))
  | CTarget (target : BuildLabel)
  | CStatement (stmt : BuildStatement) (calls : list scope_call).

Fixpoint track (c : scope_call) (st : trackingScopeMetadata * M) : res (trackingScopeMetadata * M) :=
  let '(m, md) := st in
  match c with
  | CLookup name => Ok (pushSymbol m name (origin m name), md)
  | CAssign name => Ok (m, md)
  | CGlob rootPath files => Ok (pushFiles m rootPath files, md)
  | CSubinclude labels names =>
      let m := pushSubincludes (foldl (fun m '(name, l) => setSymbolOrigin m name l) m names) labels in
      stmt ← CurrentBuildStatement m; Ok (m, RegisterSubincludeStatement md stmt)
  | CTarget target => stmt ← CurrentBuildStatement m; Ok (m, RegisterTargetStatement md target stmt)
  | CStatement stmt calls =>
      let m := setCursor m stmt in
      let cp := checkpoint m in
      '(m, md) ← (fix track_all (calls : list scope_call) (st : trackingScopeMetadata * M) : res (trackingScopeMetadata * M) :=
                    match calls with
                    | [] => Ok st
                    | c :: calls => match track c st with Ok st => track_all calls st | Err e => Err e | NoFuel => NoFuel end
                    end) calls (m, md);
      let md := registerBuildStatement m md stmt in
      Ok (restore m cp, md)
  end.

Definition track_all : list scope_call -> trackingScopeMetadata * M -> res (trackingScopeMetadata * M) :=
  fix track_all (calls : list scope_call) (st : trackingScopeMetadata * M) : res (trackingScopeMetadata * M) :=
    match calls with
    | [] => Ok st
    | c :: calls => match track c st with Ok st => track_all calls st | Err e => Err e | NoFuel => NoFuel end
    end.
End track.

(** ** What happened, as a list *)

Inductive event :=
  | EInterpreted (stmt : BuildStatement) (subincludes : list BuildLabel) (files : list string)
  | EDefined (target : BuildLabel) (stmt : BuildStatement)
  | EIncluded (stmt : BuildStatement).

Definition replay {M} `{PackageMetadata M} (md : M) (e : event) : M :=
  match e with
  | EInterpreted stmt subincludes files => RegisterStatement md stmt subincludes files
  | EDefined target stmt => RegisterTargetStatement md target stmt
  | EIncluded stmt => RegisterSubincludeStatement md stmt
  end.

(** What is known where a call is made: the statement it is in, where names come from, and what that
    statement, and those around it, have needed so far. *)
Record context := MkContext {
  in_statement : option BuildStatement;
  origins : gmap string BuildLabel;
  needed_subincludes : list BuildLabel;
  needed_symbols : list BuildLabel;
  needed_files : list string;
}.

(** What a statement needs ends with it. *)
Fixpoint happens (c : scope_call) (x : context) : list event * context :=
  match c with
  | CLookup name =>
      ([], match origins x !! name with
           | Some l => MkContext (in_statement x) (origins x) (needed_subincludes x) (needed_symbols x ++ [l]) (needed_files x)
           | None => x
           end)
  | CAssign name => ([], x)
  | CGlob rootPath files =>
      ([], MkContext (in_statement x) (origins x) (needed_subincludes x) (needed_symbols x)
             (needed_files x ++ map (fun f => path_join [rootPath; f]) files))
  | CSubinclude labels names =>
      (EIncluded <$> option_list (in_statement x),
       MkContext (in_statement x) (foldl (fun o '(name, l) => <[name := l]> o) (origins x) names) (needed_subincludes x ++ labels)
         (needed_symbols x) (needed_files x))
  | CTarget target => (EDefined target <$> option_list (in_statement x), x)
  | CStatement stmt calls =>
      let x1 := MkContext (Some stmt) (origins x) (needed_subincludes x) (needed_symbols x) (needed_files x) in
      let '(es, x2) := (fix happen_all (calls : list scope_call) (x : context) : list event * context :=
                          match calls with
                          | [] => ([], x)
                          | c :: calls => let '(es, x) := happens c x in let '(es', x) := happen_all calls x in (es ++ es', x)
                          end) calls x1 in
      (es ++ [EInterpreted stmt (mergeSlices [] (needed_subincludes x2 ++ needed_symbols x2)) (needed_files x2)],
       MkContext (in_statement x2) (origins x2) (needed_subincludes x) (needed_symbols x) (needed_files x))
  end.

Definition happen_all : list scope_call -> context -> list event * context :=
  fix happen_all (calls : list scope_call) (x : context) : list event * context :=
    match calls with
    | [] => ([], x)
    | c :: calls => let '(es, x) := happens c x in let '(es', x) := happen_all calls x in (es ++ es', x)
    end.

(** ** The stacks hold what is needed *)

Lemma scope_call_rect' (P : scope_call -> Prop) :
  (forall n, P (CLookup n)) -> (forall n, P (CAssign n)) -> (forall r fs, P (CGlob r fs)) -> (forall ls ns, P (CSubinclude ls ns)) -> (forall t, P (CTarget t)) ->
  (forall s cs, Forall P cs -> P (CStatement s cs)) -> forall c, P c.
Proof.
  intros H1 Ha H2 H3 H4 H5. fix IH 1. intros [n|n|r fs|ls ns|t|s cs]; [apply H1|apply Ha|apply H2|apply H3|apply H4|]. apply H5.
  induction cs as [|c cs IHc]; constructor; [apply IH|done].
Qed.

Record tracks (m : trackingScopeMetadata) (x : context) : Prop := {
  tr_cursor : stmtCursor m = in_statement x;
  tr_origins : symbolOrigins m = origins x;
  tr_subincludes : subincludesStack m = needed_subincludes x;
  tr_symbols : (symbolStack m).*2 = needed_symbols x;
  tr_files : fileStack m = needed_files x;
}.

Record stacks_grow (m m' : trackingScopeMetadata) : Prop := {
  gr_symbols : symbolStack m `prefix_of` symbolStack m';
  gr_files : fileStack m `prefix_of` fileStack m';
  gr_subincludes : subincludesStack m `prefix_of` subincludesStack m';
}.

Lemma stacks_grow_refl m : stacks_grow m m.
Proof. done. Qed.

Lemma stacks_grow_trans m1 m2 m3 : stacks_grow m1 m2 -> stacks_grow m2 m3 -> stacks_grow m1 m3.
Proof. intros [] []. by split; etrans. Qed.

Lemma truncate_prefix {A} (l l' : list A) : l `prefix_of` l' -> truncate (length l) l' = l.
Proof.
  intros [k ->]. unfold truncate. rewrite length_app, (proj2 (Nat.leb_le _ _)) by lia. by rewrite take_app_length.
Qed.

Lemma set_origins names m :
  let m' := foldl (fun m '(name, l) => setSymbolOrigin m name l) m names in
  stmtCursor m' = stmtCursor m /\ symbolOrigins m' = foldl (fun o '(name, l) => <[name := l]> o) (symbolOrigins m) names /\
  symbolStack m' = symbolStack m /\ fileStack m' = fileStack m /\ subincludesStack m' = subincludesStack m.
Proof.
  revert m. induction names as [|[n l] names IH]; intros m; [done|]. cbn [foldl].
  destruct (IH (setSymbolOrigin m n l)) as (-> & -> & -> & -> & ->). done.
Qed.

Section simulation.
Context {M : Type} `{PackageMetadata M}.

Lemma track_statement stmt calls m md :
  track (CStatement stmt calls) (m, md) =
  ('(m', md) ← track_all calls (setCursor m stmt, md); Ok (restore m' (checkpoint (setCursor m stmt)), registerBuildStatement m' md stmt)).
Proof. reflexivity. Qed.

Lemma happens_statement stmt calls x :
  happens (CStatement stmt calls) x =
  let '(es, x2) := happen_all calls (MkContext (Some stmt) (origins x) (needed_subincludes x) (needed_symbols x) (needed_files x)) in
  (es ++ [EInterpreted stmt (mergeSlices [] (needed_subincludes x2 ++ needed_symbols x2)) (needed_files x2)],
   MkContext (in_statement x2) (origins x2) (needed_subincludes x) (needed_symbols x) (needed_files x)).
Proof. reflexivity. Qed.

(** What one call, or several, come to *)
Definition simulates (run : trackingScopeMetadata * M -> res (trackingScopeMetadata * M)) (h : context -> list event * context) : Prop :=
  forall m md x, tracks m x -> is_Some (in_statement x) ->
  exists m', run (m, md) = Ok (m', foldl replay md (h x).1) /\ tracks m' (h x).2 /\ is_Some (in_statement (h x).2) /\ stacks_grow m m'.

Lemma track_all_simulates calls : Forall (fun c => simulates (track c) (happens c)) calls -> simulates (track_all calls) (happen_all calls).
Proof.
  induction 1 as [|c calls Hc Hcs IH]; intros m md x Hm Hx; [by exists m|]. cbn [track_all happen_all].
  destruct (Hc m md x Hm Hx) as (m1 & E1 & Hm1 & Hx1 & Hg1). rewrite E1. destruct (happens c x) as [es1 x1]. cbn [fst snd] in *.
  destruct (IH m1 (foldl replay md es1) x1 Hm1 Hx1) as (m2 & E2 & Hm2 & Hx2 & Hg2). destruct (happen_all calls x1) as [es2 x2]. cbn [fst snd] in *.
  exists m2. rewrite E2, foldl_app. split_and!; [done..|by eapply stacks_grow_trans].
Qed.

Definition same_stacks (m m' : trackingScopeMetadata) : Prop :=
  symbolStack m' = symbolStack m /\ fileStack m' = fileStack m /\ subincludesStack m' = subincludesStack m.

Lemma same_stacks_grow m m' : same_stacks m m' -> stacks_grow m m'.
Proof. intros (H1 & H2 & H3). split; by rewrite ?H1, ?H2, ?H3. Qed.

(** A statement can be interpreted anywhere. *)
Lemma track_statement_simulates stmt calls m md x : simulates (track_all calls) (happen_all calls) -> tracks m x ->
  exists m', track (CStatement stmt calls) (m, md) = Ok (m', foldl replay md (happens (CStatement stmt calls) x).1) /\
    tracks m' (happens (CStatement stmt calls) x).2 /\ is_Some (in_statement (happens (CStatement stmt calls) x).2) /\ same_stacks m m'.
Proof.
  intros Hc [T1 T2 T3 T4 T5]. rewrite track_statement, happens_statement.
  set (x1 := MkContext (Some stmt) _ _ _ _).
  destruct (Hc (setCursor m stmt) md x1) as (m2 & E & [U1 U2 U3 U4 U5] & Hx2 & [G1 G2 G3]); [by split|by eexists|].
  rewrite E, bind_Ok_l. destruct (happen_all calls x1) as [es x2]. cbn [fst snd] in *.
  assert (restore m2 (checkpoint (setCursor m stmt)) =
    MkScopeMetadata (stmtCursor m2) (symbolOrigins m2) (symbolStack m) (fileStack m) (subincludesStack m)) as ->.
  { unfold restore, checkpoint. f_equal; by apply truncate_prefix. }
  exists (MkScopeMetadata (stmtCursor m2) (symbolOrigins m2) (symbolStack m) (fileStack m) (subincludesStack m)).
  cbn [fst snd]. rewrite foldl_app. cbn [foldl replay]. unfold registerBuildStatement, required. rewrite U3, U4, U5. by split_and!.
Qed.

Lemma track_simulates c : simulates (track c) (happens c).
Proof.
  induction c as [n|n|r fs|ls ns|t|s cs IH] using scope_call_rect'.
  - intros m md x [T1 T2 T3 T4 T5] Hx. cbn. unfold origin. rewrite T2. eexists. split; [done|]. destruct (origins x !! n) as [l|].
    + split_and!; [split; cbn; try done; by rewrite fmap_app, T4|done|split; cbn; [by apply prefix_app_r|done..]].
    + split_and!; [by split|done|by apply stacks_grow_refl].
  - intros m md x Hm Hx. exists m. split_and!; [done..|by apply stacks_grow_refl].
  - intros m md x [T1 T2 T3 T4 T5] Hx. eexists. split; [done|]. split_and!; [split; cbn; try done; by rewrite T5|done|].
    split; cbn; [done|by apply prefix_app_r|done].
  - intros m md x [T1 T2 T3 T4 T5] [stmt Hx]. cbn [track happens]. destruct (set_origins ns m) as (S1 & S2 & S3 & S4 & S5).
    unfold CurrentBuildStatement. cbn [pushSubincludes stmtCursor]. rewrite S1, T1, Hx. cbn. eexists. split; [done|].
    split_and!; [split; cbn; congruence|by eexists|split; cbn; rewrite ?S3, ?S4, ?S5; [done..|by apply prefix_app_r]].
  - intros m md x [T1 T2 T3 T4 T5] [stmt Hx]. cbn [track happens]. unfold CurrentBuildStatement. rewrite T1, Hx. cbn.
    exists m. split_and!; [done|by split|rewrite ?Hx; by eexists|by apply stacks_grow_refl].
  - intros m md x Hm Hx. destruct (track_statement_simulates s cs m md x) as (m' & E & Hm' & Hx' & Hs); [by apply track_all_simulates|done|].
    exists m'. split_and!; [done..|by apply same_stacks_grow].
Qed.
End simulation.

(** ** What is remembered is what happened *)

Definition defined_in (es : list event) (stmt : BuildStatement) : list BuildLabel :=
  omap (fun e => match e with EDefined t s => if decide (s = stmt) then Some t else None | _ => None end) es.

(** The statement that defined a target, the last one if there are several *)
Definition definer (es : list event) (target : BuildLabel) : option BuildStatement :=
  last (omap (fun e => match e with EDefined t s => if decide (t = target) then Some s else None | _ => None end) es).

Definition needs_subinclude (es : list event) (stmt : BuildStatement) (l : BuildLabel) : Prop :=
  exists subincludes files, EInterpreted stmt subincludes files ∈ es /\ l ∈ subincludes.

Definition needs_file (es : list event) (stmt : BuildStatement) (f : string) : Prop :=
  exists subincludes files, EInterpreted stmt subincludes files ∈ es /\ f ∈ files.

Lemma elem_of_mergeSlices {T} `{EqDecision T} (l1 l2 : list T) x : x ∈ mergeSlices l1 l2 <-> x ∈ l1 \/ x ∈ l2.
Proof.
  revert l1. induction l2 as [|y l2 IH]; intros l1; cbn; [rewrite elem_of_nil; tauto|]. unfold mergeSlices in IH. rewrite IH, elem_of_cons.
  destruct (decide (y ∈ l1)); [naive_solver|]. rewrite elem_of_app, list_elem_of_singleton. tauto.
Qed.

Lemma NoDup_mergeSlices {T} `{EqDecision T} (l1 l2 : list T) : NoDup l1 -> NoDup (mergeSlices l1 l2).
Proof.
  revert l1. induction l2 as [|y l2 IH]; intros l1 H; [done|]. cbn. apply IH. destruct (decide (y ∈ l1)); [done|].
  apply NoDup_app. split_and!; [done| |by apply NoDup_singleton]. intros x Hx ->%list_elem_of_singleton. done.
Qed.

(** What is remembered, of each statement and target *)
Record remembers (m : trackedPackageMetadata) (es : list event) : Prop := {
  rm_targets stmt : findTargets m stmt = defined_in es stmt;
  rm_definer t : targetToStmt m !! t = definer es t;
  rm_subincludes stmt l : l ∈ sm_Subincludes (statement_of m stmt) <-> needs_subinclude es stmt l;
  rm_once stmt : NoDup (sm_Subincludes (statement_of m stmt));
  rm_files stmt f : f ∈ Files (statement_of m stmt) <-> needs_file es stmt f;
  rm_included stmt : IsSubincludeStatement (statement_of m stmt) = true <-> EIncluded stmt ∈ es;
}.

Lemma findTargets_of m stmt : findTargets m stmt = sm_Targets (statement_of m stmt).
Proof. unfold findTargets, statement_of. by destruct (md_statements m !! stmt). Qed.

Lemma statement_of_insert m stmt sm t stmt' :
  statement_of (MkTracked (<[stmt := sm]> (md_statements m)) t) stmt' = if decide (stmt = stmt') then sm else statement_of m stmt'.
Proof. unfold statement_of. cbn. destruct (decide (stmt = stmt')) as [->|Hne]; [by rewrite lookup_insert_eq|by rewrite lookup_insert_ne]. Qed.

Lemma remembers_new : remembers newPackageMetadata [].
Proof.
  assert (forall stmt, statement_of newPackageMetadata stmt = MkStatementMetadata [] [] [] false) as E.
  { intros stmt. unfold statement_of. cbn. by rewrite lookup_empty. }
  split; intros; rewrite ?findTargets_of, ?E; try done.
  - split; [by intros ?%elem_of_nil|by intros (? & ? & ?%elem_of_nil & _)].
  - constructor.
  - split; [by intros ?%elem_of_nil|by intros (? & ? & ?%elem_of_nil & _)].
  - split; [done|by intros ?%elem_of_nil].
Qed.

Lemma defined_in_snoc es e stmt : defined_in (es ++ [e]) stmt =
  defined_in es stmt ++ match e with EDefined t s => if decide (s = stmt) then [t] else [] | _ => [] end.
Proof. unfold defined_in. rewrite omap_app. f_equal. destruct e; cbn; try done. by destruct (decide _). Qed.

Lemma definer_snoc es e t : definer (es ++ [e]) t =
  match e with EDefined t' s => if decide (t' = t) then Some s else definer es t | _ => definer es t end.
Proof.
  unfold definer. rewrite omap_app. destruct e; cbn; rewrite ?app_nil_r; try done.
  destruct (decide _); [by rewrite last_snoc|by rewrite app_nil_r].
Qed.

Lemma needs_subinclude_snoc es e stmt l : needs_subinclude (es ++ [e]) stmt l <->
  needs_subinclude es stmt l \/ match e with EInterpreted s subs _ => s = stmt /\ l ∈ subs | _ => False end.
Proof. unfold needs_subinclude. setoid_rewrite elem_of_app. setoid_rewrite list_elem_of_singleton. destruct e; naive_solver. Qed.

Lemma needs_file_snoc es e stmt f : needs_file (es ++ [e]) stmt f <->
  needs_file es stmt f \/ match e with EInterpreted s _ fs => s = stmt /\ f ∈ fs | _ => False end.
Proof. unfold needs_file. setoid_rewrite elem_of_app. setoid_rewrite list_elem_of_singleton. destruct e; naive_solver. Qed.

Lemma included_snoc es e stmt : EIncluded stmt ∈ es ++ [e] <-> EIncluded stmt ∈ es \/ e = EIncluded stmt.
Proof. rewrite elem_of_app, list_elem_of_singleton. naive_solver. Qed.

(** Merging nothing changes nothing. *)
Lemma merge_or {T} `{EqDecision T} (l1 l2 : list T) : match l2 with [] => l1 | _ => mergeSlices l1 l2 end = mergeSlices l1 l2.
Proof. by destruct l2. Qed.

Lemma statement_replay m e stmt :
  statement_of (replay m e) stmt =
  let sm := statement_of m stmt in
  match e with
  | EInterpreted s subs fs => if decide (s = stmt)
      then MkStatementMetadata (mergeSlices (sm_Subincludes sm) subs) (mergeSlices (Files sm) fs) (sm_Targets sm) (IsSubincludeStatement sm) else sm
  | EDefined t s => if decide (s = stmt) then MkStatementMetadata (sm_Subincludes sm) (Files sm) (sm_Targets sm ++ [t]) (IsSubincludeStatement sm) else sm
  | EIncluded s => if decide (s = stmt) then MkStatementMetadata (sm_Subincludes sm) (Files sm) (sm_Targets sm) true else sm
  end.
Proof.
  destruct e as [s subs fs|t s|s]; cbn [replay RegisterStatement RegisterTargetStatement RegisterSubincludeStatement tracked_metadata];
    unfold tracked_RegisterStatement, tracked_RegisterTargetStatement, tracked_RegisterSubincludeStatement; rewrite statement_of_insert;
    destruct (decide (s = stmt)) as [->|]; cbv zeta; rewrite ?merge_or; done.
Qed.

Lemma remembers_replay m es e : remembers m es -> remembers (replay m e) (es ++ [e]).
Proof.
  intros [H1 H2 H3 H4 H5 H6]. setoid_rewrite findTargets_of in H1. split.
  - intros stmt. rewrite findTargets_of, statement_replay, defined_in_snoc, <- H1. destruct e; destruct (decide _); cbn; by rewrite ?app_nil_r.
  - intros t. rewrite definer_snoc, <- H2. destruct e as [s subs fs|t' s|s]; cbn; [done| |done].
    destruct (decide (t' = t)) as [->|Hne]; [by rewrite lookup_insert_eq|by rewrite lookup_insert_ne].
  - intros stmt l. rewrite statement_replay, needs_subinclude_snoc, <- H3. destruct e; destruct (decide _); cbn; rewrite ?elem_of_mergeSlices; naive_solver.
  - intros stmt. rewrite statement_replay. destruct e; destruct (decide _); cbn; try done. by apply NoDup_mergeSlices.
  - intros stmt f. rewrite statement_replay, needs_file_snoc, <- H5. destruct e; destruct (decide _); cbn; rewrite ?elem_of_mergeSlices; naive_solver.
  - intros stmt. rewrite statement_replay, included_snoc, <- H6. destruct e; destruct (decide _); cbn; naive_solver.
Qed.

Lemma remembers_all es : remembers (foldl replay newPackageMetadata es) es.
Proof.
  induction es as [|e es IH] using rev_ind; [apply remembers_new|]. rewrite foldl_app. by apply remembers_replay.
Qed.

(** ** A file *)

Definition no_context : context := MkContext None ∅ [] [] [].

Definition statements_of (stmts : list (BuildStatement * list scope_call)) : list scope_call := map (fun sc => CStatement sc.1 sc.2) stmts.

(** What happens when the statements of a file are interpreted *)
Definition file_events (stmts : list (BuildStatement * list scope_call)) : list event := (happen_all (statements_of stmts) no_context).1.

Definition track_file (stmts : list (BuildStatement * list scope_call)) : res (trackingScopeMetadata * trackedPackageMetadata) :=
  track_all (statements_of stmts) (newScopeMetadata, newPackageMetadata).

(** After each statement nothing is left of what it needed. *)
Lemma track_statements stmts m (md : trackedPackageMetadata) x : tracks m x ->
  exists m', track_all (statements_of stmts) (m, md) = Ok (m', foldl replay md (happen_all (statements_of stmts) x).1) /\
    symbolStack m' = symbolStack m /\ fileStack m' = fileStack m /\ subincludesStack m' = subincludesStack m.
Proof.
  revert m md x. induction stmts as [|[s cs] stmts IH]; intros m md x Hm; [by exists m|]. cbn [statements_of map track_all happen_all fst snd].
  destruct (track_statement_simulates s cs m md x) as (m1 & E1 & Hm1 & _ & Q1 & Q2 & Q3); [|done|].
  { apply track_all_simulates. apply Forall_forall. intros c _. apply track_simulates. }
  rewrite E1.
  destruct (happens (CStatement s cs) x) as [es1 x1]. cbn [fst snd] in *.
  destruct (IH m1 (foldl replay md es1) x1 Hm1) as (m2 & E2 & R1 & R2 & R3). change (map _ stmts) with (statements_of stmts).
  destruct (happen_all (statements_of stmts) x1) as [es2 x2]. cbn [fst snd] in *.
  exists m2. rewrite E2, foldl_app. split_and!; congruence.
Qed.

Lemma elem_of_defined_in es stmt t : t ∈ defined_in es stmt <-> EDefined t stmt ∈ es.
Proof.
  unfold defined_in. rewrite list_elem_of_omap. split.
  - intros (e & He & Hs). destruct e; try done. destruct (decide _) as [->|]; [|done]. by injection Hs as ->.
  - intros He. exists (EDefined t stmt). split; [done|]. by rewrite decide_True.
Qed.

Lemma definer_defined es t stmt : definer es t = Some stmt -> EDefined t stmt ∈ es.
Proof.
  unfold definer. intros Hl%last_Some_elem_of. apply list_elem_of_omap in Hl as (e & He & Hs). destruct e; try done.
  destruct (decide _) as [->|]; [|done]. by injection Hs as ->.
Qed.

(** Requirements that belong to no target *)
Definition loose (es : list event) (stmt : BuildStatement) : Prop := (forall t, EDefined t stmt ∉ es) /\ EIncluded stmt ∉ es.

Lemma loose_spec m es stmt : remembers m es ->
  sm_Targets (statement_of m stmt) = [] /\ IsSubincludeStatement (statement_of m stmt) = false <-> loose es stmt.
Proof.
  intros [H1 _ _ _ _ H6]. unfold loose. rewrite <- H6, not_true_iff_false. f_equiv. rewrite <- findTargets_of, H1. split.
  - intros E t. rewrite <- elem_of_defined_in, E. apply not_elem_of_nil.
  - intros Hn. destruct (defined_in es stmt) as [|t ts] eqn:E; [done|]. exfalso. apply (Hn t). apply elem_of_defined_in. rewrite E. by left.
Qed.

Lemma elem_of_sort_strings x l : x ∈ sort_strings l <-> x ∈ l.
Proof. unfold sort_strings. by rewrite merge_sort_Permutation. Qed.

(** What belongs to no target, by statement *)
Lemma elem_of_loose {A} (f : StatementMetadata -> list A) m es x :
  remembers m es -> f (MkStatementMetadata [] [] [] false) = [] ->
  x ∈ (filter (fun sm => sm_Targets sm = [] /\ IsSubincludeStatement sm = false) (map_to_list (md_statements m)).*2 ≫= f) <->
  exists stmt, x ∈ f (statement_of m stmt) /\ loose es stmt.
Proof.
  intros Hr Hf. rewrite list_elem_of_bind. setoid_rewrite list_elem_of_filter. split.
  - intros (sm & Hx & Hl & ([stmt sm'] & -> & Hin%elem_of_map_to_list)%list_elem_of_fmap). cbn in *. exists stmt.
    assert (statement_of m stmt = sm') as E by (unfold statement_of; by rewrite Hin). rewrite E. split; [done|]. apply (loose_spec m); [done|]. by rewrite E.
  - intros (stmt & Hx & Hl). apply (loose_spec m) in Hl as [Hl1 Hl2]; [|done]. exists (statement_of m stmt). split_and!; [done..|].
    unfold statement_of in *. destruct (md_statements m !! stmt) as [sm|] eqn:Hs; [|cbn [default] in Hx; rewrite Hf in Hx; by apply elem_of_nil in Hx].
    apply list_elem_of_fmap. exists (stmt, sm). split; [done|]. by apply elem_of_map_to_list.
Qed.


(** ** An example *)

(** [subinclude("//b:rules")], a rule that it defines, and a glob for no target *)
Definition metadata_example : list (BuildStatement * list scope_call) :=
  let rules := MkBuildLabel "b" "rules" "" in
  [((0, 20)%Z, [CSubinclude [rules] [("my_rule", rules)]]);
   ((21, 40)%Z, [CLookup "my_rule"; CTarget (MkBuildLabel "p" "t" ""); CTarget (MkBuildLabel "p" "_t#x" "")]);
   ((41, 60)%Z, [CGlob "p" ["a.txt"]; CStatement (45, 50)%Z [CLookup "my_rule"]])].

Example metadata_files : (snd <$> track_file metadata_example) ≫= (fun md => FindPackageLevelRequirements md)
  = Ok ([MkBuildLabel "b" "rules" ""], ["p/a.txt"]).
Proof. vm_compute. reflexivity. Qed.

Example metadata_related : (snd <$> track_file metadata_example) ≫= (fun md => FindRelatedTargets md (MkBuildLabel "p" "t" ""))
  = Ok [MkBuildLabel "p" "_t#x" ""].
Proof. vm_compute. reflexivity. Qed.

(** A name that the package has assigned to since still counts as coming from the subinclude,
    although the comment on [origin] says that the origin of a local object is nil. *)
Lemma reassigned_name_counts :
  let rules := MkBuildLabel "b" "rules" "" in
  let t := MkBuildLabel "p" "t" "" in
  (snd <$> track_file [((0, 20)%Z, [CSubinclude [rules] [("x", rules)]]); ((21, 26)%Z, [CAssign "x"]); ((27, 40)%Z, [CLookup "x"; CTarget t])])
    ≫= (fun md => FindRequiredSubincludes md t) = Ok [rules].
Proof. vm_compute. reflexivity. Qed.
