(* ===== verification/TestResults.v ===== *)
(** Results of tests: [src/core/test_results.go], with what [src/test/results.go] and
    [src/test/test_step.go] make of the output of a run.

    A target's test may be run several times, and the same case may then have been
    executed several times.  Durations are unbounded here, and a map that is nil is empty. *)
From S2P Require Import Prelude GoStrings Labels Lexer GoText.

#[local] Open Scope Z_scope.

(** ** Data *)

Record TestResultFailure := MkFailure {
  Type_ : string;
  Message : string;
  Traceback : string;
}.

(** Without a failure, an error or a reason to skip it, the test was executed successfully. *)
Record TestExecution := MkExecution {
  Failure : option TestResultFailure;
  Error : option TestResultFailure;
  Skip : option string;
  ex_Stdout : string;
  ex_Stderr : string;
  Duration : option Z;
}.

Record TestCase := MkCase {
  ClassName : string;
  case_Name : string;
  Executions : list TestExecution;
}.

Record TestSuite := MkSuite {
  suite_Package : string;
  suite_Name : string;
  suite_Duration : Z;
  Cached : bool;
  TimedOut : bool;
  TestCases : list TestCase;
  Properties : gmap string string;
  Timestamp : string;
}.

Definition empty_suite : TestSuite := MkSuite "" "" 0 false false [] ∅ "".

(** ** Cases *)

Definition succeeded (e : TestExecution) : bool :=
  match Failure e, Error e, Skip e with None, None, None => true | _, _, _ => false end.

(** [Success]: the first execution that succeeded. *)
Definition Success (c : TestCase) : option TestExecution := find succeeded (Executions c).

(** [Skip], the method *)
Definition skipped (c : TestCase) : option TestExecution :=
  find (fun e => match Skip e with Some _ => true | None => false end) (Executions c).

Definition Failures (c : TestCase) : list TestExecution :=
  List.filter (fun e => match Failure e with Some _ => true | None => false end) (Executions c).

Definition Errors (c : TestCase) : list TestExecution :=
  List.filter (fun e => match Error e with Some _ => true | None => false end) (Executions c).

Definition case_Duration (c : TestCase) : option Z :=
  match Success c with
  | Some e => Duration e
  | None => match Failures c with e :: _ => Duration e | [] => None end
  end.

Definition is_some {A} (o : option A) : bool := match o with Some _ => true | None => false end.
Definition is_nil {A} (l : list A) : bool := match l with [] => true | _ => false end.

(** [AllSucceeded] *)
Definition AllSucceeded (cases : list TestCase) : bool :=
  forallb (fun c => is_some (Success c) || is_some (skipped c)) cases.

(** ** Suites *)

Definition count (f : TestCase -> bool) (cases : list TestCase) : nat := length (List.filter f cases).

Definition suite_Tests (s : TestSuite) : nat := length (TestCases s).

Definition is_flaky_pass (c : TestCase) : bool := is_some (Success c) && (1 <? length (Executions c))%nat.
Definition is_pass (c : TestCase) : bool := is_nil (Failures c) && is_nil (Errors c) && negb (is_some (skipped c)).
Definition is_error (c : TestCase) : bool := negb (is_some (Success c)) && negb (is_some (skipped c)) && negb (is_nil (Errors c)).
Definition is_failure (c : TestCase) : bool :=
  negb (is_some (Success c)) && negb (is_some (skipped c)) && is_nil (Errors c) && negb (is_nil (Failures c)).
Definition is_skip (c : TestCase) : bool := is_some (skipped c).

Definition suite_FlakyPasses (s : TestSuite) : nat := count is_flaky_pass (TestCases s).
Definition suite_Passes (s : TestSuite) : nat := count is_pass (TestCases s).
Definition suite_Errors (s : TestSuite) : nat := count is_error (TestCases s).
Definition suite_Failures (s : TestSuite) : nat := count is_failure (TestCases s).
Definition suite_Skips (s : TestSuite) : nat := count is_skip (TestCases s).

(** [addAll]: the second map takes precedence. *)
Definition addAll (m1 m2 : gmap string string) : gmap string string := m2 ∪ m1.

Definition set_cases (cases : list TestCase) (s : TestSuite) : TestSuite :=
  MkSuite (suite_Package s) (suite_Name s) (suite_Duration s) (Cached s) (TimedOut s) cases (Properties s) (Timestamp s).

(** [Collapse] *)
Definition Collapse (s incoming : TestSuite) : TestSuite :=
  MkSuite (suite_Package s) (suite_Name s) (suite_Duration s + suite_Duration incoming) (Cached s) (TimedOut s || TimedOut incoming)
    (TestCases s ++ TestCases incoming) (addAll (Properties s) (Properties incoming)) (Timestamp s).

Definition same_case (c c' : TestCase) : bool :=
  String.eqb (case_Name c) (case_Name c') && String.eqb (ClassName c) (ClassName c').

(** The executions go to the first case of the same name, if there is one. *)
Fixpoint add_case (c : TestCase) (cases : list TestCase) : list TestCase :=
  match cases with
  | [] => [c]
  | c' :: cases =>
      if same_case c' c then MkCase (ClassName c') (case_Name c') (Executions c' ++ Executions c) :: cases
      else c' :: add_case c cases
  end.

Definition add_cases (cases new : list TestCase) : list TestCase := foldl (fun cases c => add_case c cases) cases new.

(** [Add] *)
Definition Add (s : TestSuite) (cases : list TestCase) : TestSuite := set_cases (add_cases (TestCases s) cases) s.

(** [AddTestResults], to the results of a target *)
Definition AddTestResults (target results : TestSuite) : TestSuite :=
  let cached := if is_nil (TestCases target) then Cached results else Cached target && Cached results in
  Collapse (MkSuite (suite_Package target) (suite_Name target) (suite_Duration target) cached (TimedOut target) (TestCases target)
              (Properties target) (Timestamp target)) results.

(** [StartTestSuite], where there are no results yet *)
Definition StartTestSuite (label : BuildLabel) (now : string) : TestSuite :=
  MkSuite (ReplaceAll (PackageName label) "/" ".") (Name label) 0 false false [] ∅ now.

(** ** Reading results *)

(** What the parser of Go's test output makes of a test. *)
Inductive gtr_Result := gtr_Unknown | gtr_Pass | gtr_Fail | gtr_Skip.

Record gtr_Test := MkGoTest {
  gtr_Name : string;
  gtr_Duration : Z;
  gtr_Output : list string;
  gtr_result : gtr_Result;
}.

Record gtr_Package := MkGoPackage {
  pkg_Name : string;
  pkg_Duration : Z;
  pkg_Properties : list (string * string);
  pkg_Tests : list gtr_Test;
  pkg_Output : list string;
}.

Definition lines (l : list string) : string := join (String newline "") l.

Definition go_execution (t : gtr_Test) : TestExecution :=
  let output := TrimSpace (lines (gtr_Output t)) in
  let d := Some (gtr_Duration t) in
  match gtr_result t with
  | gtr_Fail => MkExecution (Some (MkFailure "" output "")) None None "" "" d
  | gtr_Skip => MkExecution None None (Some output) "" "" d
  | gtr_Pass => MkExecution None None None output "" d
  | gtr_Unknown => MkExecution None None None "" "" d
  end.

(** Output that trails is that of the last case, if it failed. *)
Definition attach_output (output : string) (c : TestCase) : TestCase :=
  match Executions c with
  | e :: es =>
      match Failure e with
      | Some f => MkCase (ClassName c) (case_Name c)
                    (MkExecution (Some (MkFailure (Type_ f) (Message f) output)) (Error e) (Skip e) (ex_Stdout e) (ex_Stderr e) (Duration e) :: es)
      | None => c
      end
  | [] => c
  end.

Fixpoint attach_last (output : string) (cases : list TestCase) : list TestCase :=
  match cases with
  | [] => []
  | [c] => [attach_output output c]
  | c :: cases => c :: attach_last output cases
  end.

(** [parseGoTestResults], from the packages that are reported *)
Definition parseGoTestResults (packages : list gtr_Package) : TestSuite :=
  match packages with
  | [] => empty_suite
  | pkg :: _ =>
      MkSuite (pkg_Name pkg) "" (pkg_Duration pkg) false false
        (attach_last (lines (pkg_Output pkg)) (map (fun t => MkCase "" (gtr_Name t) [go_execution t]) (pkg_Tests pkg)))
        (foldl (fun m '(k, v) => <[k := v]> m) ∅ (pkg_Properties pkg)) ""
  end.

Section results.
(** The parsers: JUnit's XML, with the suites even if there is an error, and Go's output. *)
Context (looksLikeJUnitXMLTestResults : string -> bool).
Context (parseJUnitXMLTestResults : string -> list TestSuite * option string).
Context (parse_gotest : string -> string + list gtr_Package).

Definition parseTestResultDatum (data : string) : TestSuite * option string :=
  if String.eqb data "" then (empty_suite, Some "No results")
  else if looksLikeJUnitXMLTestResults data then
    let '(suites, err) := parseJUnitXMLTestResults data in (foldl Collapse empty_suite suites, err)
  else
    match parse_gotest data with
    | inl e => (empty_suite, Some e)
    | inr packages => (parseGoTestResults packages, None)
    end.

Fixpoint parse_data (suite : TestSuite) (data : list string) : TestSuite * option string :=
  match data with
  | [] => (suite, None)
  | datum :: data =>
      match parseTestResultDatum datum with
      | (_, Some e) => (suite, Some e)
      | (new, None) => parse_data (Collapse suite new) data
      end
  end.

Definition parseTestResults (data : list string) : TestSuite * option string := parse_data empty_suite data.

(** The case that says that a run as a whole did not go well. *)
Definition failSuite (name stdout stderr : string) (duration : Z) (msg resultType traceback : string) : TestSuite :=
  set_cases [MkCase "" name [MkExecution None (Some (MkFailure resultType msg traceback)) None stdout stderr (Some duration)]] empty_suite.

(** [parseTestOutput], with the name of the results so far and whether output is needed *)
Definition parseTestOutput (stdout stderr : string) (runError : option string) (duration : Z) (name : string) (NoOutput : bool)
    (resultsData : list string) : TestSuite :=
  let failSuite := failSuite name stdout stderr duration in
  match resultsData with
  | [] =>
      match runError with
      | None =>
          if NoOutput then set_cases [MkCase "" name [MkExecution None None None stdout stderr (Some duration)]] empty_suite
          else failSuite "Test failed to produce output results file" "MissingResults" ""
      | Some e => failSuite "Test failed" "TestFailed" e
      end
  | _ =>
      match parseTestResults resultsData with
      | (_, Some parseError) =>
          match runError with
          | Some e => failSuite "Test failed with no results" "NoResults" e
          | None => failSuite "Couldn't parse test output file" "NoResults" parseError
          end
      | (results, None) =>
          match runError with
          | Some e =>
              if (suite_Failures results =? 0)%nat
              then Add results (TestCases (failSuite "Test returned nonzero but reported no errors" "ReturnValue" e))
              else results
          | None =>
              if negb (suite_Failures results =? 0)%nat
              then Add results (TestCases (failSuite "Test returned 0 but still reported failures" "ReturnValue" ""))
              else results
          end
      end
  end.
End results.

(** ** Coverage *)

Inductive LineCoverage := NotExecutable | Unreachable | Uncovered | Covered.

Definition coverage_number (c : LineCoverage) : nat :=
  match c with NotExecutable => 0 | Unreachable => 1 | Uncovered => 2 | Covered => 3 end.

Definition lineCoverageOutput (c : LineCoverage) : string :=
  match c with NotExecutable => "N" | Unreachable => "X" | Uncovered => "U" | Covered => "C" end.

Record TestCoverage := MkCoverage {
  cov_Tests : gmap BuildLabel (gmap string (list LineCoverage));
  cov_Files : gmap string (list LineCoverage);
}.

Definition NewTestCoverage : TestCoverage := MkCoverage ∅ ∅.

(** [MergeCoverageLines]: the loop, with the index it has got to. *)
Fixpoint merge_from (i : nat) (ret coverage : list LineCoverage) : list LineCoverage :=
  match coverage with
  | [] => ret
  | line :: coverage =>
      merge_from (S i)
        (match ret !! i with
         | None => ret ++ [line]
         | Some l => if (coverage_number l <? coverage_number line)%nat then <[i := line]> ret else ret
         end) coverage
  end.

Definition MergeCoverageLines (existing coverage : list LineCoverage) : list LineCoverage := merge_from 0 existing coverage.

(** [Aggregate] *)
Definition Aggregate (coverage cov : TestCoverage) : TestCoverage :=
  MkCoverage (cov_Tests cov ∪ cov_Tests coverage)
    (map_fold (fun filename c files => <[filename := MergeCoverageLines (default [] (files !! filename)) c]> files)
       (cov_Files coverage) (cov_Files cov)).

(** [TestCoverageString] *)
Definition TestCoverageString (l : list LineCoverage) : string := join "" (map lineCoverageOutput l).

(** [CountCoverage]: the lines covered, and those that could be. *)
Definition CountCoverage (l : list LineCoverage) : nat * nat :=
  foldl (fun '(covered, total) line =>
    match line with Covered => (S covered, S total) | NotExecutable => (covered, total) | _ => (covered, S total) end) (0, 0)%nat l.

(** ** Running until it succeeds *)

Section flakes.
(** A run of the test, and what it changes. *)
Context {W : Type} (doTest : W -> W * (TestSuite * TestCoverage)).

Definition merge_run (results suite : TestSuite) : TestSuite :=
  Add (MkSuite (suite_Package results) (suite_Name results) (suite_Duration results + suite_Duration suite) (Cached results)
         (TimedOut results || TimedOut suite) (TestCases results) (Properties suite) (Timestamp results)) (TestCases suite).

Fixpoint flake_loop (flakes : nat) (results : TestSuite) (coverage : TestCoverage) (w : W) : W * (TestSuite * TestCoverage) :=
  match flakes with
  | O => (w, (results, coverage))
  | S flakes =>
      let '(w, (suite, cov)) := doTest w in
      let results := merge_run results suite in
      let coverage := Aggregate coverage cov in
      if AllSucceeded (TestCases suite)
      then (w, (MkSuite (suite_Package results) (suite_Name results) (suite_Duration results) (Cached suite) (TimedOut results)
                  (TestCases results) (Properties results) (Timestamp results), coverage))
      else flake_loop flakes results coverage w
  end.

(** [doFlakeRun] *)
Definition doFlakeRun (Flakiness : Z) (w : W) : W * (TestSuite * TestCoverage) :=
  flake_loop (Z.to_nat Flakiness) empty_suite NewTestCoverage w.
End flakes.

(** ** Counting *)

Lemma count_cons f c cases : count f (c :: cases) = ((if f c then 1 else 0) + count f cases)%nat.
Proof. unfold count. cbn. by destruct (f c). Qed.

Lemma find_filter {A} (f : A -> bool) l : find f l = head (List.filter f l).
Proof. induction l as [|x l IH]; [done|]. cbn. by destruct (f x). Qed.

Lemma filter_nil {A} (f : A -> bool) l : is_nil (List.filter f l) = forallb (fun x => negb (f x)) l.
Proof. induction l as [|x l IH]; [done|]. cbn. by destruct (f x). Qed.

(** A case that succeeded in the end, but not every time. *)
Definition recovered (c : TestCase) : bool :=
  is_some (Success c) && negb (is_some (skipped c)) && negb (is_nil (Failures c) && is_nil (Errors c)).

Lemma case_partition c :
  ((if is_pass c then 1 else 0) + (if is_error c then 1 else 0) + (if is_failure c then 1 else 0) + (if is_skip c then 1 else 0) +
   (if recovered c then 1 else 0))%nat = 1%nat.
Proof.
  unfold is_pass, is_error, is_failure, is_skip, recovered.
  destruct (is_some (Success c)) eqn:Hs, (is_some (skipped c)), (is_nil (Failures c)), (is_nil (Errors c)); done.
Qed.

Lemma Success_find c : is_some (Success c) = existsb succeeded (Executions c).
Proof. unfold Success. induction (Executions c) as [|e es IH]; [done|]. cbn. destruct (succeeded e); [done|exact IH]. Qed.

Lemma skipped_find c : is_some (skipped c) = existsb (fun e => is_some (Skip e)) (Executions c).
Proof.
  unfold skipped. induction (Executions c) as [|e es IH]; [done|]. cbn. destruct (Skip e); [done|exact IH].
Qed.

(** Something is known of every execution. *)
Lemma execution_known c :
  Executions c <> [] -> is_some (Success c) = false -> is_some (skipped c) = false -> is_nil (Failures c) && is_nil (Errors c) = false.
Proof.
  rewrite Success_find, skipped_find. unfold Failures, Errors. intros Hne Hs Hk. destruct (Executions c) as [|e es]; [done|].
  cbn in *. apply orb_false_iff in Hs as [Hs _]. apply orb_false_iff in Hk as [Hk _]. unfold succeeded in Hs.
  destruct (Failure e); [done|]. destruct (Error e); [apply andb_false_r|]. by destruct (Skip e).
Qed.

Lemma recovered_flaky c : recovered c = true -> is_flaky_pass c = true.
Proof.
  unfold recovered, is_flaky_pass. rewrite !andb_true_iff. intros [[Hs _] Hn]. split; [done|].
  rewrite Success_find in Hs. unfold Failures, Errors in Hn.
  destruct (Executions c) as [|e [|e' es]]; [done| |done]. cbn in *. rewrite orb_false_r in Hs.
  unfold succeeded in Hs. by destruct (Failure e), (Error e).
Qed.

(** Every test case of a suite is counted exactly once as passed, errored, failed,
    skipped or recovered - having succeeded only in the end - and the recovered ones are
    among the flaky ones.  A suite of cases that were executed has succeeded exactly if it
    has no failures and no errors. *)
Theorem suite_counts s :
  suite_Tests s = (suite_Passes s + suite_Errors s + suite_Failures s + suite_Skips s + count recovered (TestCases s))%nat /\
  (count recovered (TestCases s) <= suite_FlakyPasses s)%nat /\
  ((forall c, c ∈ TestCases s -> Executions c <> []) ->
   AllSucceeded (TestCases s) = true <-> suite_Failures s = 0%nat /\ suite_Errors s = 0%nat).
Proof.
  unfold suite_Tests, suite_Passes, suite_Errors, suite_Failures, suite_Skips, suite_FlakyPasses. split_and!.
  - induction (TestCases s) as [|c cases IH]; [done|]. rewrite !count_cons. pose proof (case_partition c). cbn [length]. lia.
  - induction (TestCases s) as [|c cases IH]; [done|]. rewrite !count_cons.
    destruct (recovered c) eqn:E; [rewrite (recovered_flaky c E)|destruct (is_flaky_pass c)]; lia.
  - induction (TestCases s) as [|c cases IH]; [done|]. intros Hne. rewrite !count_cons. cbn [AllSucceeded forallb].
    rewrite andb_true_iff. specialize (IH (fun c Hc => Hne c (list_elem_of_further _ _ _ Hc))).
    unfold AllSucceeded in IH. rewrite IH. pose proof (execution_known c (Hne c (list_elem_of_here _ _))) as Hk. unfold is_failure, is_error.
    destruct (is_some (Success c)), (is_some (skipped c)), (is_nil (Failures c)), (is_nil (Errors c)); cbn in *; try lia; naive_solver.
Qed.

(** ** Cases that are executed several times *)

Definition case_key (c : TestCase) : string * string := (case_Name c, ClassName c).

Lemma same_case_spec c c' : same_case c c' = true <-> case_key c = case_key c'.
Proof.
  unfold same_case, case_key. rewrite andb_true_iff, !String.eqb_eq. split; [by intros [-> ->]|by intros [= -> ->]].
Qed.

(** What is known of the executions of all the cases of a name. *)
Definition executed (k : string * string) (cases : list TestCase) : list TestExecution :=
  cases ≫= (fun c => if decide (case_key c = k) then Executions c else []).

Lemma executed_add c cases k : Permutation (executed k (add_case c cases)) (executed k cases ++ executed k [c]).
Proof.
  induction cases as [|c' cases IH]; [done|]. cbn [add_case]. destruct (same_case c' c) eqn:E.
  - apply same_case_spec in E. cbn. change (case_key (MkCase (ClassName c') (case_Name c') _)) with (case_key c').
    rewrite E. destruct (decide (case_key c = k)); cbn; rewrite ?app_nil_r; [|done]. rewrite <- !app_assoc. apply Permutation_app_head.
    apply Permutation_app_comm.
  - cbn. rewrite <- app_assoc. by apply Permutation_app_head.
Qed.

Lemma executed_one k c : executed k [c] = if decide (case_key c = k) then Executions c else [].
Proof. apply app_nil_r. Qed.

Lemma executed_cons k c cases : executed k (c :: cases) = executed k [c] ++ executed k cases.
Proof. cbn. by rewrite app_nil_r. Qed.

Lemma executed_adds cases new k : Permutation (executed k (add_cases cases new)) (executed k cases ++ executed k new).
Proof.
  unfold add_cases. revert cases. induction new as [|c new IH]; intros cases; cbn [foldl]; [by rewrite app_nil_r|].
  by rewrite IH, executed_add, <- app_assoc, <- executed_cons.
Qed.

Lemma add_case_key_in c cases k : k ∈ case_key <$> add_case c cases <-> k = case_key c \/ k ∈ case_key <$> cases.
Proof.
  induction cases as [|c' cases IH]; cbn [add_case]; [cbn; by rewrite elem_of_cons|].
  destruct (same_case c' c) eqn:E; cbn; rewrite !elem_of_cons.
  - apply same_case_spec in E. change (case_key (MkCase _ _ _)) with (case_key c'). rewrite E. clear. naive_solver.
  - rewrite IH. clear. naive_solver.
Qed.

Lemma add_cases_key_in cases new k : k ∈ case_key <$> add_cases cases new <-> k ∈ case_key <$> cases ++ new.
Proof.
  unfold add_cases. revert cases. induction new as [|c new IH]; intros cases; cbn [foldl]; [by rewrite app_nil_r|].
  rewrite IH, !fmap_app, !elem_of_app, add_case_key_in. cbn. rewrite elem_of_cons. clear. naive_solver.
Qed.

Lemma add_case_keys c cases : NoDup (case_key <$> cases) -> NoDup (case_key <$> add_case c cases).
Proof.
  induction cases as [|c' cases IH]; intros H; cbn [add_case]; [apply NoDup_singleton|].
  cbn in H. apply NoDup_cons in H as [Hn H]. destruct (same_case c' c) eqn:E; cbn; apply NoDup_cons; [done|]. split; [|by apply IH].
  intros [Hk|Hk]%add_case_key_in; [|done]. apply same_case_spec in Hk. congruence.
Qed.

Lemma add_cases_keys cases new : NoDup (case_key <$> cases) -> NoDup (case_key <$> add_cases cases new).
Proof. unfold add_cases. revert cases. induction new as [|c new IH]; intros cases H; cbn; [done|]. by apply IH, add_case_keys. Qed.

(** With distinct names a case has all that is executed under its name. *)
Lemma executed_other k cases : k ∉ case_key <$> cases -> executed k cases = [].
Proof.
  induction cases as [|c cases IH]; [done|]. rewrite fmap_cons. intros [Hne Hn]%not_elem_of_cons.
  rewrite executed_cons, executed_one, decide_False by congruence. by apply IH.
Qed.

Lemma executed_distinct cases c : NoDup (case_key <$> cases) -> c ∈ cases -> executed (case_key c) cases = Executions c.
Proof.
  induction cases as [|c' cases IH]; [by intros _ ?%not_elem_of_nil|]. rewrite fmap_cons. intros [Hn Hd]%NoDup_cons Hc.
  rewrite executed_cons, executed_one. apply elem_of_cons in Hc as [->|Hc].
  - by rewrite decide_True, executed_other, app_nil_r.
  - rewrite decide_False; [by apply IH|]. intros E. apply Hn. rewrite E. by apply list_elem_of_fmap_2.
Qed.

Lemma executed_in k cases e : e ∈ executed k cases -> exists c, c ∈ cases /\ case_key c = k /\ e ∈ Executions c.
Proof.
  unfold executed. intros (c & He & Hc)%list_elem_of_bind. exists c. destruct (decide (case_key c = k)); [done|by apply not_elem_of_nil in He].
Qed.

Definition fine (e : TestExecution) : bool := succeeded e || is_some (Skip e).

Lemma case_fine c : is_some (Success c) || is_some (skipped c) = true <-> exists e, e ∈ Executions c /\ fine e = true.
Proof.
  rewrite Success_find, skipped_find, orb_true_iff, !existsb_exists. unfold fine. split.
  - intros [(e & He%list_elem_of_In & H)|(e & He%list_elem_of_In & H)]; exists e; rewrite H; [done|by rewrite orb_true_r].
  - intros (e & He%list_elem_of_In & [H|H]%orb_true_iff); [left|right]; by exists e.
Qed.

(** A suite whose cases have been put together has succeeded exactly if every case did so
    in some execution. *)
Lemma AllSucceeded_merged cases new :
  NoDup (case_key <$> cases) ->
  AllSucceeded (add_cases cases new) = true <->
  forall c, c ∈ cases ++ new -> exists c' e, c' ∈ cases ++ new /\ case_key c' = case_key c /\ e ∈ Executions c' /\ fine e = true.
Proof.
  intros Hd. pose proof (add_cases_keys cases new Hd) as Hd'. unfold AllSucceeded. rewrite forallb_forall.
  assert (forall k e, e ∈ executed k (add_cases cases new) <-> e ∈ executed k (cases ++ new)) as Hex.
  { intros k e. rewrite executed_adds. unfold executed at 3. by rewrite bind_app. }
  split.
  - intros H c Hc. apply (list_elem_of_fmap_2 case_key) in Hc. apply add_cases_key_in, list_elem_of_fmap in Hc as (m & -> & Hm).
    specialize (H m (proj1 (list_elem_of_In _ _) Hm)). apply case_fine in H as (e & He & Hf).
    rewrite <- (executed_distinct _ _ Hd' Hm), Hex in He. apply executed_in in He as (c' & ? & ? & ?). by exists c', e.
  - intros H m Hm%list_elem_of_In. apply case_fine. pose proof (list_elem_of_fmap_2 case_key _ _ Hm) as Hk.
    apply add_cases_key_in, list_elem_of_fmap in Hk as (c & Hk & Hc). destruct (H c Hc) as (c' & e & Hc' & Hk' & He & Hf).
    exists e. split; [|done]. rewrite <- (executed_distinct _ _ Hd' Hm), Hex, Hk, <- Hk'. apply list_elem_of_bind. exists c'.
    split; [|done]. by rewrite decide_True.
Qed.

(** ** Flaky tests *)

Section flaky.
Context {W : Type} (doTest : W -> W * (TestSuite * TestCoverage)).

(** The results of the first runs, one after the other. *)
Fixpoint first_runs (n : nat) (w : W) : list TestSuite :=
  match n with
  | O => []
  | S n => let '(w, (suite, _)) := doTest w in suite :: first_runs n w
  end.

Definition all_cases (suites : list TestSuite) : list TestCase := suites ≫= TestCases.

Lemma flake_loop_spec n results coverage w :
  let '(results', _) := (flake_loop doTest n results coverage w).2 in
  exists k, (k <= n)%nat /\ let suites := first_runs k w in
    (forall i s, suites !! i = Some s -> (S i < k)%nat -> AllSucceeded (TestCases s) = false) /\
    (k = n \/ exists s, last suites = Some s /\ AllSucceeded (TestCases s) = true) /\
    TestCases results' = add_cases (TestCases results) (all_cases suites) /\
    suite_Duration results' = foldl Z.add (suite_Duration results) (map suite_Duration suites) /\
    TimedOut results' = TimedOut results || existsb TimedOut suites.
Proof.
  revert results coverage w. induction n as [|n IH]; intros results coverage w; cbn [flake_loop].
  { exists 0%nat. cbn. split_and!; [done|done|by left|done|done|by rewrite orb_false_r]. }
  destruct (doTest w) as [w1 [suite cov]] eqn:E. destruct (AllSucceeded (TestCases suite)) eqn:Hs.
  - exists 1%nat. cbn. rewrite E. cbn. split_and!; [lia| |right; by exists suite| |done|by rewrite orb_false_r].
    + intros i s _ Hi. lia.
    + by rewrite app_nil_r.
  - specialize (IH (merge_run results suite) (Aggregate coverage cov) w1).
    destruct (flake_loop doTest n _ _ w1) as [w2 [results' coverage']]. cbn [snd] in *.
    destruct IH as (k & Hk & Hfail & Hlast & Hc & Hd & Ht). exists (S k). cbn [first_runs]. rewrite E. split_and!.
    + lia.
    + intros [|i] s; cbn; [by intros [= <-] _|]. intros Hi Hlt. eapply Hfail; [exact Hi|lia].
    + destruct Hlast as [->|(s & Hl & Hss)]; [by left|right]. exists s. split; [|done]. rewrite last_cons, Hl. done.
    + rewrite Hc. cbn. unfold add_cases. by rewrite foldl_app.
    + rewrite Hd. done.
    + rewrite Ht. cbn. by rewrite orb_assoc.
Qed.

(** C10: A flaky test is run at least once and at most as often as it may be, until it
    succeeds or may not be run again; its results are the cases of all the runs, those of
    the same name put together; so as a whole it succeeds exactly if every case that was
    part of some run succeeded or was skipped in some run. *)
Theorem doFlakeRun_spec Flakiness w :
  0 < Flakiness ->
  let '(results, _) := (doFlakeRun doTest Flakiness w).2 in
  exists k, (0 < k)%nat /\ Z.of_nat k <= Flakiness /\ let suites := first_runs k w in
    (forall i s, suites !! i = Some s -> (S i < k)%nat -> AllSucceeded (TestCases s) = false) /\
    (Z.of_nat k = Flakiness \/ exists s, last suites = Some s /\ AllSucceeded (TestCases s) = true) /\
    TestCases results = add_cases [] (all_cases suites) /\
    (AllSucceeded (TestCases results) = true <->
     forall c, c ∈ all_cases suites ->
       exists c' e, c' ∈ all_cases suites /\ case_key c' = case_key c /\ e ∈ Executions c' /\ fine e = true).
Proof.
  intros Hf. unfold doFlakeRun. pose proof (flake_loop_spec (Z.to_nat Flakiness) empty_suite NewTestCoverage w) as H.
  destruct (flake_loop _ _ _ _ w) as [w' [results coverage]]. cbn [snd] in *. destruct H as (k & Hk & Hfail & Hlast & Hc & _).
  exists k. split_and!.
  - destruct k; [|lia]. destruct Hlast as [H0|(s & Hl & _)]; [lia|done].
  - lia.
  - exact Hfail.
  - destruct Hlast as [H0|Hl]; [left; lia|by right].
  - exact Hc.
  - rewrite Hc. apply (AllSucceeded_merged []). constructor.
Qed.
End flaky.

(** ** What a run makes of the exit status *)

Section exit_status.
Context (looksLikeJUnitXMLTestResults : string -> bool).
Context (parseJUnitXMLTestResults : string -> list TestSuite * option string).
Context (parse_gotest : string -> string + list gtr_Package).

Abbreviation parse := (parseTestOutput looksLikeJUnitXMLTestResults parseJUnitXMLTestResults parse_gotest).
Abbreviation parse_results := (parseTestResults looksLikeJUnitXMLTestResults parseJUnitXMLTestResults parse_gotest).

Lemma failure_not_succeeded cases : count is_failure cases <> 0%nat -> AllSucceeded cases = false.
Proof.
  induction cases as [|c cases IH]; [done|]. rewrite count_cons. cbn. unfold is_failure.
  destruct (is_some (Success c)), (is_some (skipped c)); cbn; try done; auto.
Qed.

(** A failed case that is added to cases of other names is not forgotten. *)
Lemma add_failed_not_succeeded cases c :
  (forall c', c' ∈ cases -> case_key c' <> case_key c) -> is_some (Success c) || is_some (skipped c) = false ->
  AllSucceeded (add_case c cases) = false.
Proof.
  unfold AllSucceeded. induction cases as [|c' cases IH]; intros Hk Hc; cbn [add_case forallb]; [by rewrite Hc|].
  destruct (same_case c' c) eqn:E; [apply same_case_spec in E; destruct (Hk c'); [by left|done]|].
  cbn [forallb]. rewrite IH; [apply andb_false_r|intros; apply Hk; by right|done].
Qed.

(** A run that ends with an error never counts as a success, whatever it wrote, unless
    it wrote of a case without a class that is named like the target.  A run without output
    succeeds exactly if it ends without an error and need not write anything. *)
Theorem exit_status_respected stdout stderr e duration name NoOutput data :
  (forall s c, parse_results data = (s, None) -> c ∈ TestCases s -> case_key c <> (name, "")) ->
  AllSucceeded (TestCases (parse stdout stderr (Some e) duration name NoOutput data)) = false /\
  AllSucceeded (TestCases (parse stdout stderr None duration name NoOutput [])) = NoOutput.
Proof.
  intros Hk. split; [|by destruct NoOutput]. unfold parseTestOutput. destruct data as [|d data]; [done|].
  destruct (parse_results (d :: data)) as [s [err|]]; [done|]. destruct (suite_Failures s =? 0)%nat eqn:E.
  - cbn [Add set_cases TestCases failSuite add_cases foldl]. apply add_failed_not_succeeded; [|done]. intros c Hc. by apply (Hk s).
  - apply failure_not_succeeded. by apply Nat.eqb_neq in E.
Qed.
End exit_status.

(** ** Merging coverage *)

#[export] Instance LineCoverage_eq_dec : EqDecision LineCoverage.
Proof. solve_decision. Defined.

Definition better (a b : LineCoverage) : LineCoverage := if (coverage_number a <? coverage_number b)%nat then b else a.

(** What the merge of two is where both may be missing. *)
Definition best (a b : option LineCoverage) : option LineCoverage :=
  match a, b with
  | Some a, Some b => Some (better a b)
  | Some a, None => Some a
  | None, b => b
  end.

Lemma coverage_number_inj a b : coverage_number a = coverage_number b -> a = b.
Proof. by destruct a, b. Qed.

Lemma better_comm a b : better a b = better b a.
Proof. by destruct a, b. Qed.
Lemma better_assoc a b c : better a (better b c) = better (better a b) c.
Proof. by destruct a, b, c. Qed.

Lemma best_comm a b : best a b = best b a.
Proof. destruct a, b; cbn; try done. by rewrite better_comm. Qed.
Lemma best_assoc a b c : best a (best b c) = best (best a b) c.
Proof. destruct a, b, c; cbn; try done. by rewrite better_assoc. Qed.

Lemma best_ge a b x : best a b = Some x ->
  (a = Some x \/ b = Some x) /\ (forall y, a = Some y \/ b = Some y -> (coverage_number y <= coverage_number x)%nat).
Proof.
  destruct a as [a|], b as [b|]; cbn; [|intros [= ->]; split; [by auto|intros y [[= ->]|[= ->]]; done]..|done].
  unfold better. intros [= <-]. destruct (coverage_number a <? coverage_number b)%nat eqn:E.
  - apply Nat.ltb_lt in E. split; [by right|]. intros y [[= ->]|[= ->]]; lia.
  - apply Nat.ltb_ge in E. split; [by left|]. intros y [[= ->]|[= ->]]; lia.
Qed.

Lemma merge_from_lookup i ret coverage j :
  (i <= length ret)%nat ->
  merge_from i ret coverage !! j = if decide (j < i)%nat then ret !! j else best (ret !! j) (coverage !! (j - i)%nat).
Proof.
  revert i ret. induction coverage as [|line coverage IH]; intros i ret Hi; cbn [merge_from].
  { case_decide; [done|]. rewrite lookup_nil. by destruct (ret !! j). }
  destruct (ret !! i) as [l|] eqn:El.
  - assert (i < length ret)%nat as Hlt by (by apply lookup_lt_Some in El).
    set (ret' := if (coverage_number l <? coverage_number line)%nat then <[i := line]> ret else ret).
    assert (length ret' = length ret) as Hlen by (unfold ret'; case_match; [apply length_insert|done]).
    rewrite IH by lia. destruct (decide (j < S i)%nat), (decide (j < i)%nat); try lia.
    + unfold ret'. case_match; [|done]. apply list_lookup_insert_ne. lia.
    + assert (j = i) as -> by lia. rewrite Nat.sub_diag, El. unfold ret', best. cbn [lookup list_lookup]. unfold better.
      destruct (coverage_number l <? coverage_number line)%nat; [by apply list_lookup_insert_eq|done].
    + replace (j - i)%nat with (S (j - S i)) by lia. cbn. f_equal. unfold ret'. case_match; [|done].
      apply list_lookup_insert_ne. lia.
  - assert (length ret = i) as Hlen by (apply lookup_ge_None in El; lia).
    rewrite IH by (rewrite length_app; cbn; lia). destruct (decide (j < S i)%nat), (decide (j < i)%nat); try lia.
    + rewrite lookup_app_l by lia. done.
    + assert (j = i) as -> by lia. rewrite Nat.sub_diag, El. cbn. rewrite lookup_app_r by lia. by rewrite Hlen, Nat.sub_diag.
    + replace (j - i)%nat with (S (j - S i)) by lia. cbn.
      rewrite (lookup_ge_None_2 ret), (lookup_ge_None_2 (ret ++ [line])); [done|rewrite length_app; cbn; lia|lia].
Qed.

(** Lines are merged one by one, those that only one has being kept. *)
Lemma MergeCoverageLines_lookup a b j : MergeCoverageLines a b !! j = best (a !! j) (b !! j).
Proof. unfold MergeCoverageLines. rewrite merge_from_lookup by lia. by rewrite decide_False, Nat.sub_0_r by lia. Qed.

(** A line of a file. *)
Definition line_of (c : TestCoverage) (f : string) (i : nat) : option LineCoverage := l ← cov_Files c !! f; l !! i.

Lemma Aggregate_Files c d f :
  cov_Files (Aggregate c d) !! f =
  match cov_Files d !! f with Some l => Some (MergeCoverageLines (default [] (cov_Files c !! f)) l) | None => cov_Files c !! f end.
Proof.
  cbn [cov_Files Aggregate].
  apply (map_fold_weak_ind (fun (files : gmap string (list LineCoverage)) m => files !! f =
    match (m : gmap string (list LineCoverage)) !! f with
    | Some l => Some (MergeCoverageLines (default [] (cov_Files c !! f)) l) | None => cov_Files c !! f end)).
  - by rewrite lookup_empty.
  - intros k l m files Hk IH. destruct (decide (k = f)) as [->|Hne].
    + rewrite !lookup_insert_eq, IH, Hk. done.
    + by rewrite !lookup_insert_ne.
Qed.

Lemma Aggregate_line c d f i : line_of (Aggregate c d) f i = best (line_of c f i) (line_of d f i).
Proof.
  unfold line_of. rewrite Aggregate_Files. destruct (cov_Files d !! f) as [l|]; cbn; [|destruct (cov_Files c !! f ≫= _); done].
  rewrite MergeCoverageLines_lookup. by destruct (cov_Files c !! f).
Qed.

Lemma line_foldl c l f i : line_of (foldl Aggregate c l) f i = foldl (fun o d => best o (line_of d f i)) (line_of c f i) l.
Proof. revert c. induction l as [|d l IH]; intros c; cbn; [done|]. by rewrite IH, Aggregate_line. Qed.

Lemma foldl_best_spec (g : TestCoverage -> option LineCoverage) l o x :
  foldl (fun o d => best o (g d)) o l = Some x ->
  (o = Some x \/ exists d, d ∈ l /\ g d = Some x) /\
  (forall y, o = Some y \/ (exists d, d ∈ l /\ g d = Some y) -> (coverage_number y <= coverage_number x)%nat).
Proof.
  revert o. induction l as [|d l IH]; intros o; cbn.
  { intros ->. split; [by left|]. intros y [[= ->]|(d & H%not_elem_of_nil & _)]; done. }
  intros [Hx Hmax]%IH. split.
  - destruct Hx as [Hb|(d' & Hd & Hg)]; [|right; exists d'; split; [by right|done]].
    apply best_ge in Hb as [[->|Hd] _]; [by left|right; exists d; split; [by left|done]].
  - intros y Hy. destruct (best o (g d)) as [b|] eqn:Eb.
    + pose proof (proj2 (best_ge _ _ _ Eb)) as Hge. destruct Hy as [Hy|(d' & [->|Hd]%elem_of_cons & Hg)].
      * etransitivity; [apply Hge; by left|apply Hmax; by left].
      * etransitivity; [apply Hge; by right|apply Hmax; by left].
      * apply Hmax. right. by exists d'.
    + destruct o, (g d) eqn:Egd; try done. destruct Hy as [Hy|(d' & [->|Hd]%elem_of_cons & Hg)]; [done|congruence|].
      apply Hmax. right. by exists d'.
Qed.

Lemma foldl_best_None (g : TestCoverage -> option LineCoverage) l o d y :
  d ∈ l -> g d = Some y -> is_Some (foldl (fun o d => best o (g d)) o l).
Proof.
  assert (forall l o, is_Some o -> is_Some (foldl (fun o d => best o (g d)) o l)) as Hk.
  { clear. intros l. induction l as [|d l IH]; intros o Ho; cbn; [done|]. apply IH. destruct Ho as [x ->]. cbn. destruct (g d); eauto. }
  revert o. induction l as [|d' l IH]; intros o Hd Hg; [by apply not_elem_of_nil in Hd|]. cbn.
  apply elem_of_cons in Hd as [->|Hd]; [|by apply IH]. apply Hk. rewrite Hg. destruct o; cbn; eauto.
Qed.

Lemma foldl_best_perm (g : TestCoverage -> option LineCoverage) l l' o :
  Permutation l l' -> foldl (fun o d => best o (g d)) o l = foldl (fun o d => best o (g d)) o l'.
Proof.
  intros H. revert o. induction H as [|d l l' _ IH|d d' l|l1 l2 l3 _ IH1 _ IH2]; intros o; cbn; [done|apply IH| |by rewrite IH1].
  by rewrite <- !best_assoc, (best_comm (g d')).
Qed.

(** The coverage of several tests does not depend on the order in which they finish,
    and for each line of each file it is the best of what any of them found: something is
    known of a line exactly if one of them knows of it. *)
Theorem Aggregate_best l f i :
  (forall l', Permutation l l' -> line_of (foldl Aggregate NewTestCoverage l') f i = line_of (foldl Aggregate NewTestCoverage l) f i) /\
  (forall x, line_of (foldl Aggregate NewTestCoverage l) f i = Some x <->
     (exists c, c ∈ l /\ line_of c f i = Some x) /\
     forall c y, c ∈ l -> line_of c f i = Some y -> (coverage_number y <= coverage_number x)%nat).
Proof.
  rewrite line_foldl. change (line_of NewTestCoverage f i) with (@None LineCoverage). split.
  - intros l' Hp. rewrite line_foldl. symmetry. by apply foldl_best_perm.
  - intros x. split.
    + intros [Hx Hmax]%foldl_best_spec. split; [by destruct Hx as [|]|]. intros c y Hc Hy. apply Hmax. right. by exists c.
    + intros [(c & Hc & Hx) Hmax]. destruct (foldl_best_None (fun d => line_of d f i) l None c x Hc Hx) as [z Hz].
      rewrite Hz. f_equal. apply foldl_best_spec in Hz as [[|(d & Hd & Hdz)] Hz]; [done|]. apply coverage_number_inj.
      apply Nat.le_antisymm; [by apply (Hmax d)|]. apply Hz. right. by exists c.
Qed.

(** ** Examples *)

Definition ex_ok : TestExecution := MkExecution None None None "" "" None.
Definition ex_failed : TestExecution := MkExecution (Some (MkFailure "" "1 != 2" "")) None None "" "" None.

Definition ex_case (name : string) (e : TestExecution) : TestCase := MkCase "" name [e].

Definition ex_suite (cases : list TestCase) : TestSuite := set_cases cases empty_suite.

(** A test whose runs are given. *)
Definition ex_runs (w : list TestSuite) : list TestSuite * (TestSuite * TestCoverage) :=
  match w with s :: w => (w, (s, NewTestCoverage)) | [] => ([], (empty_suite, NewTestCoverage)) end.

Definition ex_flake (Flakiness : Z) (w : list TestSuite) : TestSuite := (doFlakeRun ex_runs Flakiness w).2.1.

Lemma suite_counts_witness :
  let s := ex_suite [MkCase "" "a" [ex_failed; ex_ok]; ex_case "b" ex_ok; ex_case "c" ex_failed] in
  (suite_Tests s = 3 /\ suite_Passes s = 1 /\ suite_Failures s = 1 /\ count recovered (TestCases s) = 1)%nat /\
  ~ AllSucceeded (TestCases s) = true.
Proof.
  set (s := ex_suite _). split; [vm_compute; done|]. intros H. destruct (suite_counts s) as (_ & _ & Hs).
  apply Hs in H as [H _]; [vm_compute in H; discriminate|]. intros c Hc.
  repeat (apply elem_of_cons in Hc as [->|Hc]; [discriminate|]). by apply not_elem_of_nil in Hc.
Defined.

Lemma doFlakeRun_spec_witness :
  exists k, Z.of_nat k <= 3 /\
    TestCases (ex_flake 3 [ex_suite [ex_case "a" ex_failed]; ex_suite [ex_case "a" ex_ok]; ex_suite []]) =
      add_cases [] (all_cases (first_runs ex_runs k [ex_suite [ex_case "a" ex_failed]; ex_suite [ex_case "a" ex_ok]; ex_suite []])).
Proof.
  pose proof (doFlakeRun_spec ex_runs 3 [ex_suite [ex_case "a" ex_failed]; ex_suite [ex_case "a" ex_ok]; ex_suite []] eq_refl) as H.
  unfold ex_flake. destruct (doFlakeRun _ _ _) as [w [results coverage]]. cbn [snd fst] in *.
  destruct H as (k & _ & Hk & _ & _ & Hc & _). by exists k.
Defined.

(** Go's output is read as it is, one case for each line. *)
Definition ex_gotest (data : string) : string + list gtr_Package :=
  inr [MkGoPackage "" 0 [] [MkGoTest data 0 [] gtr_Pass] []].

Definition ex_parse : string -> string -> option string -> Z -> string -> bool -> list string -> TestSuite :=
  parseTestOutput (fun _ => false) (fun _ => ([], None)) ex_gotest.

Lemma exit_status_respected_witness :
  AllSucceeded (TestCases (ex_parse "" "" (Some "exit status 1") 0 "t" false ["a"])) = false.
Proof.
  apply (exit_status_respected (fun _ => false) (fun _ => ([], None)) ex_gotest "" "" "exit status 1" 0 "t" false ["a"]).
  intros s c Hs Hc. injection Hs as <-. apply list_elem_of_singleton in Hc as ->. discriminate.
Defined.

(** ** Where the code does not do what it means to *)

(** A case with the name of the target, as a test that writes one result often has, hides
    that the test ended with an error. *)
Lemma exit_status_ignored :
  AllSucceeded (TestCases (ex_parse "" "" (Some "exit status 1") 0 "t" false ["t"])) = true.
Proof. reflexivity. Qed.

(** A run that crashes leaves a case that later runs do not repeat, so a flaky test fails
    although its last run, after which it is not run again, succeeded. *)
Lemma crash_never_recovers :
  let crashed := failSuite "t" "" "" 0 "Test failed" "TestFailed" "signal: killed" in
  let passed := ex_suite [ex_case "a" ex_ok] in
  first_runs ex_runs 2 [crashed; passed] = [crashed; passed] /\ AllSucceeded (TestCases passed) = true /\
  AllSucceeded (TestCases (ex_flake 3 [crashed; passed; passed])) = false.
Proof. done. Qed.

(** And it succeeds although none of its runs did. *)
Lemma no_run_succeeded :
  let run1 := ex_suite [ex_case "a" ex_ok; ex_case "b" ex_failed] in
  let run2 := ex_suite [ex_case "a" ex_failed; ex_case "b" ex_ok] in
  AllSucceeded (TestCases run1) = false /\ AllSucceeded (TestCases run2) = false /\
  AllSucceeded (TestCases (ex_flake 2 [run1; run2])) = true.
Proof. done. Qed.

(** A test that may be run no times at all succeeds. *)
Lemma never_run_succeeds w : AllSucceeded (TestCases (ex_flake 0 w)) = true.
Proof. done. Qed.

(** A case that passed every time counts as a flake if another made the test run again. *)
Lemma passes_counted_as_flakes :
  let run1 := ex_suite [ex_case "a" ex_ok; ex_case "b" ex_failed] in
  let run2 := ex_suite [ex_case "a" ex_ok; ex_case "b" ex_ok] in
  let s := ex_flake 2 [run1; run2] in
  (suite_Passes s = 1 /\ count recovered (TestCases s) = 1 /\ suite_FlakyPasses s = 2)%nat.
Proof. done. Qed.

(** A case that was not executed counts as passed, but not as succeeded. *)
Lemma no_executions_passed :
  let s := ex_suite [MkCase "" "a" []] in suite_Passes s = 1%nat /\ AllSucceeded (TestCases s) = false.
Proof. done. Qed.
