(* ===== verification/TestStep.v ===== *)
(** Testing a target: [src/test/test_step.go], with [IterRuntimeFiles] and
    [PrepareRuntimeDir] of [src/core/utils.go] and [RuntimeHash] of
    [src/build/incrementality.go], over the disk of [Disk] and the steps of [BuildStep].

    Results and coverage are recorded with the hash of what the test depends on, in an
    attribute of their own; a test that passed is not run again while that hash is the
    same.  What a test does to the disk, the formats of results and coverage, and what
    version control or the clock say are parameters.  Remote execution, locks, uploading
    results and reporting of progress are left out. *)
From S2P Require Import Prelude GoStrings Labels Targets Graph Inputs Lexer GoText.
From S2P Require Import Commands Environment Incrementality Disk PathHasher BuildStep BuildRuns Rebuilds TestResults.
From Stdlib Require Import Ascii.

(** ** Files at run time *)

Section runtime.
Context (home : string) (on_path : string -> bool) (root : string) (g : BuildGraph).

(** The pairs so far, without those whose place is taken. *)
Definition push_outs (absoluteOuts : bool) (runtimeDir : string) (pairs : list (string * string)) (new : list (string * string)) :
    list (string * string) :=
  foldl (fun pairs '(src, out) =>
    let out := if absoluteOuts then path_join [root; runtimeDir; out] else out in
    if decide (out ∈ pairs.*2) then pairs else pairs ++ [(src, out)]) pairs new.

(** The paths of an input; [fullPaths[i]] for each of its paths. *)
Definition input_files (i : BuildInput) : res (list (string * string)) :=
  full ← FullPaths home on_path g i;
  paths ← Paths home on_path g i;
  if (length paths <=? length full)%nat then Ok (zip full paths) else Err EIndex.

Definition runtime_deps (l : BuildLabel) : res (list (string * string)) :=
  deps ← IterAllRuntimeDependencies g l; flat_mapM (fun d => input_files (LabelInput d)) deps.

(** An input, and what it needs at run time if it is a target. *)
Definition input_and_deps (i : BuildInput) : res (list (string * string)) :=
  own ← input_files i;
  deps ← (match input_Label i with Some l => _ ← TargetOrDie g l; runtime_deps l | None => Ok [] end);
  Ok (own ++ deps).

Definition all_files (inputs : list BuildInput) : res (list (string * string)) := flat_mapM input_and_deps inputs.

(** [IterRuntimeFiles] *)
Definition IterRuntimeFiles (target : BuildTarget) (absoluteOuts : bool) (runtimeDir : string) : res (list (string * string)) :=
  outs ← Outputs home g target;
  run ← runtime_deps (Label target);
  data ← all_files (AllData target);
  tools ← (match target_Test target with Some _ => ts ← AllTestTools target; all_files ts | None => Ok [] end);
  debug_data ← all_files (AllDebugData target);
  debug_tools ← all_files (AllDebugTools target);
  Ok (push_outs absoluteOuts runtimeDir []
        (map (fun out => (path_join [target_OutDir target; out], out)) outs ++ run ++ data ++ tools ++ debug_data ++ debug_tools)).
End runtime.

(** [RuntimeHash], for the files in a directory *)
Definition RuntimeHash (sha1 : string -> string) (root : string) (st : build_state) (t : BuildTarget) (testDir : string) :
    res (option string) :=
  '(h1, _) ← RuleHash sha1 st t true false;
  '(h2, _) ← RuleHash sha1 st t true true;
  files ← IterRuntimeFiles (home st) (on_path st) root (st_graph st) t true testDir;
  Ok (match hash_paths st (map (fun f => (f.1, "")) files) with
      | Some s => Some (h1 +:+ h2 +:+ Hashes_Config st +:+ sha1 s)
      | None => None
      end).

(** ** State *)

Definition target_TestDir (t : BuildTarget) (run : Z) : string := path_join [target_TestDirs t; "run_" +:+ Itoa run].
Definition TestResultsFile (t : BuildTarget) : string := path_join [target_OutDir t; ".test_results_" +:+ Name (Label t)].
Definition CoverageFile (t : BuildTarget) : string := path_join [target_OutDir t; ".test_coverage_" +:+ Name (Label t)].

Definition dummyOutput : string :=
  "=== RUN DummyTest" +:+ String newline ("--- PASS: DummyTest (0.00s)" +:+ String newline ("PASS" +:+ String newline "")).
Definition dummyCoverage : string := "<?xml version=" +:+ String double_quote ("1.0" +:+ String double_quote " ?><coverage></coverage>").

(** What is reported in the end. *)
Inductive Event := TestFailed (msg : string) | Tested (description : string) | TestStopped.

(** What testing uses of the configuration and of the world, besides what building uses. *)
Record TestConf := MkTestConf {
  NumTestRuns : Z;
  TestSequentially : bool;
  ForceRerun : bool;
  only_prepare : bool;
  sha256 : string -> string;
  now : string;
  (** a test, with its environment and its command: the disk, its output, the error and
      whether that is that the time was up, and how long it took *)
  exec_test : BuildTarget -> list string -> string -> disk -> disk * (string * option (string * bool) * Z);
  looksLikeJUnit : string -> bool;
  parseJUnit : string -> list TestSuite * option string;
  parse_gotest : string -> string + list gtr_Package;
  parseTestCoverage : string -> TestCoverage;
}.

Section testing.
Context {C : Type} `{!Cache C}.
Context (sha1 : string -> string) (p : Conf) (tc : TestConf).
(** The attributes that files retrieved from a cache have. *)
Context (retrieved_attrs : disk -> gmap string string -> gmap string string).

Record tworld := MkTWorld {
  t_world : BuildStep.world (C := C);
  t_attrs : gmap string string;
  t_results : option TestSuite;
  t_log : list Event;
}.

Definition TM (A : Type) : Type := tworld -> tworld * res A.

#[global] Instance TM_ret : MRet TM := fun _ a w => (w, Ok a).
#[global] Instance TM_bind : MBind TM := fun _ _ k m w =>
  let '(w, r) := m w in
  match r with Ok a => k a w | Err e => (w, Err e) | NoFuel => (w, NoFuel) end.

(** Attributes stay on what stays as it is. *)
Definition keep_attrs (d d' : disk) (attrs : gmap string string) : gmap string string :=
  filter (fun kv => nodes d' !! kv.1 = nodes d !! kv.1) attrs.

Definition lift {A} (m : BuildStep.M (C := C) A) : TM A := fun w =>
  let '(w', r) := m (t_world w) in
  (MkTWorld w' (keep_attrs (w_disk (t_world w)) (w_disk w') (t_attrs w)) (t_results w) (t_log w), r).

Definition gets {A} (f : tworld -> A) : TM A := fun w => (w, Ok (f w)).
Definition target : TM BuildTarget := gets (fun w => w_target (t_world w)).
Definition get_disk : TM disk := gets (fun w => w_disk (t_world w)).
Definition set_disk_attrs (d : disk) (attrs : gmap string string) : TM unit := fun w =>
  let b := t_world w in
  (MkTWorld (MkWorld d (w_cache b) (w_target b) (w_hash b) (w_built b)) attrs (t_results w) (t_log w), Ok ()).
Definition set_results (r : option TestSuite) : TM unit := fun w => (MkTWorld (t_world w) (t_attrs w) r (t_log w), Ok ()).
Definition log (e : Event) : TM unit := fun w => (MkTWorld (t_world w) (t_attrs w) (t_results w) (t_log w ++ [e]), Ok ()).

(** [target.Test], which is there when a target is tested *)
Definition test_fields : TM TestFields :=
  t ← target;
  match target_Test t with Some f => mret f | None => lift (error "nil pointer dereference") end.

(** ** Files and their attributes *)

Definition test_RemoveAll (path : string) : TM unit :=
  d ← get_disk;
  attrs ← gets t_attrs;
  set_disk_attrs (RemoveAll d path) (remove_under path attrs).

(** What attributes are recorded on. *)
Definition test_files (w : tworld) : files :=
  let f := files_of (w_disk (t_world w)) in MkFiles (present f) (directories f) (symlinks f) (t_attrs w) (attr_files f).

(** [RecordAttr]: whether there was no error. *)
Definition record_attr (path hash : string) : TM bool :=
  fs ← gets test_files;
  d ← get_disk;
  match RecordAttr (XattrsSupported (c_state p)) fs path hash with
  | Some fs => _ ← set_disk_attrs (MkDisk (nodes d) (rule_attrs d) (hash_attrs d) (attr_files fs)) (xattrs fs); mret true
  | None => mret false
  end.

(** [moveOutputFile] *)
Definition moveOutputFile (hash from to dummy : string) : TM bool :=
  d ← get_disk;
  match EnsureDir d to with
  | None => mret false
  | Some d' =>
      attrs ← gets t_attrs;
      _ ← set_disk_attrs d' (keep_attrs d d' attrs);
      d ← get_disk;
      attrs ← gets t_attrs;
      if Disk.path_exists d from then _ ← set_disk_attrs (Rename d from to) (move from to attrs); record_attr to hash
      else if String.eqb dummy "" then mret true
      else if bool_decide (nodes d !! to = Some NDir) then mret false
      else _ ← set_disk_attrs (Disk.WriteFile d to dummy) (delete to attrs); record_attr to hash
  end.

(** [verifyHash] *)
Definition verifyHash (filename hash : string) : TM bool :=
  fs ← gets test_files;
  mret (bool_decide (default "" (ReadAttr (XattrsSupported (c_state p)) fs filename) = hash)).

(** [RemoveTestOutputs] *)
Fixpoint remove_all (paths : list string) : TM unit :=
  match paths with [] => mret () | path :: paths => _ ← test_RemoveAll path; remove_all paths end.

Definition RemoveTestOutputs : TM unit :=
  t ← target;
  f ← test_fields;
  remove_all (TestResultsFile t :: CoverageFile t :: map (fun out => path_join [target_OutDir t; out]) (test_Outputs f)).

(** ** Running a test *)

(** [runtimeHash] *)
Definition runtimeHash (run : Z) : TM (option string) :=
  t ← target;
  d ← get_disk;
  h ← lift (of_res (RuntimeHash sha1 (root p) (state_now p d) t (target_TestDir t run)));
  mret (option_map CollapseHash h).

(** [PrepareRuntimeDir]: the error, if there is one *)
Definition PrepareRuntimeDir (dir : string) : TM (option string) :=
  t ← target;
  _ ← test_RemoveAll dir;
  d ← get_disk;
  files ← lift (of_res (IterRuntimeFiles (host_home p) (Disk.path_exists d) (root p) (graph p) t true dir));
  r ← lift (try (_ ← mkdir_all dir; each (fun '(src, tmp) => PrepareSource p src (ensureRelative (root p) tmp)) files));
  mret (match r with inl e => Some e | inr _ => None end).

(** [runTest] *)
Definition runTest (run : Z) : TM (string * option (string * bool) * Z) :=
  t ← target;
  d ← get_disk;
  let s := c_settings p in
  command ← lift (of_res (GetTestCommand (Incrementality.BuildConfig (c_state p)) (FallbackConfig (c_state p)) t));
  cmd ← lift (of_res (TestCommand (host_home p) (c_cwd p) (graph p) (hash_at p d) (hash_of_outputs p d) (fun _ => false)
                        (bazel_compatibility s) t command (TestArgs s)));
  env ← lift (of_res (TestEnvironment (c_goos p) (Disk.path_exists d) (c_host p) (c_unicode p) (c_order p)
                        (sha256 tc) (graph p) s t (path_join [root p; target_TestDir t run]) run));
  match cmd with
  | inl e => mret ("", Some (e, false), 0%Z)
  | inr cmd =>
      let '(d, r) := exec_test tc t (ToSlice env) cmd d in
      _ ← lift (set_disk d);
      mret r
  end.

(** [prepareAndRunTest] *)
Definition prepareAndRunTest (run : Z) : TM (string * option (string * bool) * Z) :=
  t ← target;
  r ← PrepareRuntimeDir (target_TestDir t run);
  match r with
  | Some e => _ ← log (TestFailed ("Failed to prepare test directory for " +:+ label_String (Label t) +:+ ": " +:+ e)); mret ("", Some (e, false), 0%Z)
  | None => runTest run
  end.

Definition file_data (d : disk) (path : string) : option string :=
  match nodes d !! path with
  | Some (NFile data) => Some data
  | Some (NLink _) => link_contents p path
  | _ => None
  end.

(** [readTestResultsDir]: the contents of the file, or of all files in the directory *)
Definition readTestResultsDir (d : disk) (path : string) : option (list string) :=
  match nodes d !! path with
  | None => None
  | Some NDir =>
      mapM (fun s => file_data d (path +:+ s))
        (List.filter (fun s => negb (bool_decide (nodes d !! (path +:+ s) = Some NDir))) (walk p (sorted_keys (subtree path (nodes d)))))
  | Some _ => data ← file_data d path; Some [data]
  end.

(** [parseCoverageFile] *)
Definition parseCoverageFile (d : disk) (t : BuildTarget) (file : string) : TestCoverage :=
  if NeedCoverage (c_settings p) t
  then match file_data d file with Some data => parseTestCoverage tc data | None => NewTestCoverage end
  else NewTestCoverage.

(** [doTest] *)
Definition doTest (run : Z) : TM (TestSuite * TestCoverage) :=
  t ← target;
  f ← test_fields;
  '(stdout, err, duration) ← prepareAndRunTest run;
  d ← get_disk;
  results ← gets t_results;
  let coverage := parseCoverageFile d t (path_join [target_TestDir t run; "test.coverage"]) in
  let data := if NoOutput f then [] else default [] (readTestResultsDir d (path_join [target_TestDir t run; "test.results"])) in
  let name := match results with Some s => suite_Name s | None => "" end in
  let parsed := parseTestOutput (looksLikeJUnit tc) (parseJUnit tc) (parse_gotest tc) stdout "" (option_map fst err) duration name (NoOutput f) data in
  mret (MkSuite (ReplaceAll (PackageName (Label t)) "/" ".") (Name (Label t)) duration false
          (match err with Some (_, timed_out) => timed_out | None => false end) (TestCases parsed) (Properties parsed) "", coverage).

(** [doFlakeRun]; a panic ends it. *)
Definition run_or_stop (run : Z) (w : tworld * res unit) : (tworld * res unit) * (TestSuite * TestCoverage) :=
  match w with
  | (w, Ok _) =>
      match doTest run w with
      | (w, Ok r) => ((w, Ok ()), r)
      | (w, Err e) => ((w, Err e), (empty_suite, NewTestCoverage))
      | (w, NoFuel) => ((w, NoFuel), (empty_suite, NewTestCoverage))
      end
  | _ => (w, (empty_suite, NewTestCoverage))
  end.

Definition flake_run (Flakiness : Z) : TM (TestSuite * TestCoverage) := fun w =>
  let '((w, r), x) := doFlakeRun (run_or_stop 1) Flakiness (w, Ok ()) in (w, r;; Ok x).

(** ** Results *)

Definition pluralise (word : string) (quantity : nat) : string := if (quantity =? 1)%nat then word else word +:+ "s".

(** [logTestSuccess] *)
Definition logTestSuccess (results : TestSuite) : TM unit :=
  let n := Itoa (Z.of_nat (suite_Tests results)) in
  let tests := pluralise "test" (suite_Tests results) in
  log (Tested (if (suite_Skips results =? 0)%nat then n +:+ " " +:+ tests +:+ " passed."
               else n +:+ " " +:+ tests +:+ " passed. " +:+ Itoa (Z.of_nat (suite_Skips results)) +:+ " skipped")).

(** [parseTestResultsFile] *)
Definition parseTestResultsFile (d : disk) (file : string) : TestSuite * option string :=
  match readTestResultsDir d file with
  | None => (empty_suite, Some ("Didn't find any test results in " +:+ file))
  | Some data => parseTestResults (looksLikeJUnit tc) (parseJUnit tc) (parse_gotest tc) data
  end.

(** [Clean] of the cache, which is taken to be there. *)
Definition clean_cache : TM unit := fun w =>
  let b := t_world w in
  if has_cache p then
    (MkTWorld (MkWorld (w_disk b) (Clean (w_cache b) (w_target b)) (w_target b) (w_hash b) (w_built b)) (t_attrs w) (t_results w) (t_log w), Ok ())
  else lift (error "nil pointer dereference") w.

Definition cachedTestResults (run : Z) : TM (option TestSuite) :=
  t ← target;
  d ← get_disk;
  let '(s, err) := parseTestResultsFile d (TestResultsFile t) in
  let results := MkSuite (ReplaceAll (PackageName (Label t)) "/" ".") (Name (Label t)) (suite_Duration s) true (TimedOut s)
                   (TestCases s) (Properties s) (Timestamp s) in
  match err with
  | Some _ => _ ← clean_cache; mret None
  | None =>
      if AllSucceeded (TestCases results) then _ ← logTestSuccess results; mret (Some results)
      else _ ← clean_cache; mret None
  end.

Fixpoint record_all_attrs (hash : string) (paths : list string) : TM bool :=
  match paths with
  | [] => mret true
  | path :: paths => ok ← record_attr path hash; if ok : bool then record_all_attrs hash paths else mret false
  end.

(** [retrieveFromCache] *)
Definition test_retrieve (hash : string) (names : list string) : TM bool :=
  if has_cache p then
    t ← target;
    ok ← lift (retrieve hash names);
    if ok : bool then
      d ← get_disk;
      attrs ← gets t_attrs;
      _ ← set_disk_attrs d (retrieved_attrs d attrs);
      if String.eqb (HTTPURL p) "" then mret true
      else record_all_attrs hash (map (fun f => path_join [target_OutDir t; f]) names)
    else mret false
  else mret false.

(** [needToRun] *)
Definition needToRun (hash : string) : TM bool :=
  t ← target;
  d ← get_disk;
  let coverage := NeedCoverage (c_settings p) t in
  if ForceRerun tc then mret true
  else if (bool_decide (target_state t = Unchanged) || bool_decide (target_state t = Reused)) && Disk.path_exists d (TestResultsFile t) then
    stale ← (if coverage then ok ← verifyHash (CoverageFile t) hash; mret (negb ok) else mret false);
    if stale : bool then mret true else ok ← verifyHash (TestResultsFile t) hash; mret (negb ok)
  else
    ok ← test_retrieve hash (path_base (TestResultsFile t) :: if coverage then [path_base (CoverageFile t)] else []);
    mret (negb ok).

(** [moveOutputFiles]: what is moved, or nothing if something cannot be. *)
Fixpoint move_test_outputs (hash : string) (run : Z) (names : list string) : TM (option (list string)) :=
  match names with
  | [] => mret (Some [])
  | output :: names =>
      t ← target;
      ok ← moveOutputFile hash (path_join [target_TestDir t run; output]) (path_join [target_OutDir t; output]) "";
      if ok : bool then outs ← move_test_outputs hash run names; mret (cons output <$> outs)
      else _ ← log (TestFailed "Failed to move test output file"); mret None
  end.

Definition moveOutputFiles (hash : string) (run : Z) : TM (list string) :=
  t ← target;
  f ← test_fields;
  d ← get_disk;
  let coverageFile := path_join [target_TestDir t run; "test.coverage"] in
  first ← (if NeedCoverage (c_settings p) t || Disk.path_exists d coverageFile then
             ok ← moveOutputFile hash coverageFile (CoverageFile t) dummyCoverage;
             if ok : bool then mret (Some [path_base (CoverageFile t)])
             else _ ← log (TestFailed "Failed to move test coverage file"); mret None
           else mret (Some []));
  match first with
  | None => mret []
  | Some outs => more ← move_test_outputs hash run (test_Outputs f); mret (match more with Some more => outs ++ more | None => [] end)
  end.

(** [cacheOutputFiles] *)
Definition cacheOutputFiles (hash : string) (run : Z) (results : TestSuite) (outs : list string) : TM bool :=
  t ← target;
  if bool_decide (TestArgs (c_settings p) <> []) then mret false
  else if negb (suite_Failures results =? 0)%nat then mret false
  else
    ok ← moveOutputFile hash (path_join [target_TestDir t run; "test.results"]) (TestResultsFile t) dummyOutput;
    if ok : bool then
      _ ← (if has_cache p then
             lift (fun w => set_cache (Store (w_cache w) (w_disk w) (w_target w) hash (outs ++ [path_base (TestResultsFile t)])) w)
           else mret ());
      mret true
    else _ ← log (TestFailed "Failed to move test output file"); mret false.

(** [logTargetResults] *)
Definition logTargetResults (run : Z) : TM unit :=
  t ← target;
  results ← gets (fun w => default empty_suite (t_results w));
  if AllSucceeded (TestCases results) then
    _ ← (if CleanWorkdirs p then test_RemoveAll (target_TestDir t run) else mret ());
    logTestSuccess results
  else if negb (suite_Failures results =? 0)%nat then log (TestFailed "Tests failed")
  else if negb (suite_Errors results =? 0)%nat then log (TestFailed "Tests errored")
  else log (TestFailed "Something went wrong").

(** ** Testing a target *)

Definition add_results (results : TestSuite) : TM unit :=
  r ← gets t_results; set_results (Some (AddTestResults (default empty_suite r) results)).

(** [prepareOnly] *)
Definition test_prepareOnly (run : Z) : TM unit :=
  t ← target;
  r ← PrepareRuntimeDir (target_TestDir t run);
  match r with
  | Some _ => log (TestFailed "Failed to prepare test directory")
  | None => _ ← lift (SetTargetState Stopped); log TestStopped
  end.

(** [verifyWorkerNotNeeded]: whether there is no worker *)
Definition verifyWorkerNotNeeded : TM bool :=
  t ← target;
  d ← get_disk;
  command ← lift (of_res (GetTestCommand (Incrementality.BuildConfig (c_state p)) (FallbackConfig (c_state p)) t));
  r ← lift (of_res (workerAndArgs (host_home p) (c_cwd p) (graph p) (hash_at p d) (hash_of_outputs p d) (fun _ => false)
                      (bazel_compatibility (c_settings p)) t command));
  mret (match r with inr (worker, _, _) => String.eqb worker "" | inl _ => false end).

Fixpoint run_sequentially (n : nat) (run : Z) : TM unit :=
  match n with
  | O => mret ()
  | S n => '(results, _) ← doTest 1; _ ← add_results results; run_sequentially n (run + 1)%Z
  end.

(** The test is run as often as asked for, and what it leaves put in its place. *)
Definition run_and_move (hash : string) (run : Z) : TM unit :=
  f ← test_fields;
  if (NumTestRuns tc =? 1)%Z then
    '(results, _) ← flake_run (Flakiness f);
    _ ← add_results results;
    all ← gets (fun w => default empty_suite (t_results w));
    outs ← moveOutputFiles hash run;
    if AllSucceeded (TestCases all) then _ ← cacheOutputFiles hash run all outs; mret () else mret ()
  else if TestSequentially tc then run_sequentially (Z.to_nat (NumTestRuns tc)) 1
  else '(results, _) ← doTest run; add_results results.

Definition run_tests (hash : string) (run : Z) : TM unit := _ ← run_and_move hash run; logTargetResults run.

(** Whether the results of before will do, in which case they are the target's. *)
Definition reuse_results (hash : string) (run : Z) : TM bool :=
  if (NumTestRuns tc =? 1)%Z then
    need ← needToRun hash;
    if need : bool then mret false
    else
      r ← cachedTestResults run;
      match r with Some s => _ ← set_results (Some s); mret true | None => mret false end
  else mret false.

(** The test is run: nothing is left of the results of before. *)
Definition test_again (hash : string) (run : Z) : TM unit :=
  _ ← RemoveTestOutputs;
  ok ← verifyWorkerNotNeeded;
  if ok : bool then run_tests hash run else log (TestFailed "Failed to verify worker not needed").

Definition test_with (hash : string) (run : Z) : TM unit :=
  if only_prepare tc then test_prepareOnly run
  else
    reused ← reuse_results hash run;
    if reused : bool then mret () else test_again hash run.

(** [StartTestSuite], unless there are results already *)
Definition start_suite : TM unit := fun w =>
  match t_results w with
  | None => set_results (Some (StartTestSuite (Label (w_target (t_world w))) (now tc))) w
  | Some _ => (w, Ok ())
  end.

(** [test] *)
Definition test (run : Z) : TM unit :=
  _ ← start_suite;
  hash ← runtimeHash run;
  match hash with
  | None => log (TestFailed "Failed to calculate target hash")
  | Some hash => test_with hash run
  end.
End testing.

(** ** Steps *)

Section steps.
Context {C : Type} `{!Cache C}.
Context (sha1 : string -> string) (p : Conf) (tc : TestConf).
Context (retrieved_attrs : disk -> gmap string string -> gmap string string).

Abbreviation W := (tworld (C := C)).
Abbreviation T := (TM (C := C)).

Lemma tbind_run {A B} (m : T A) (k : A -> T B) (w w' : W) b :
  (a ← m; k a) w = (w', Ok b) -> exists w1 a, m w = (w1, Ok a) /\ k a w1 = (w', Ok b).
Proof. unfold mbind, TM_bind. destruct (m w) as [w1 [a|e|]]; [|done..]. eauto. Qed.

Lemma run_tbind {A B} (m : T A) (k : A -> T B) (w w1 : W) a : m w = (w1, Ok a) -> (x ← m; k x) w = k a w1.
Proof. unfold mbind, TM_bind. by intros ->. Qed.

(** Steps that report no success. *)
Definition no_success {A} (m : T A) : Prop := forall w d, Tested d ∈ t_log (m w).1 -> Tested d ∈ t_log w.

Lemma no_success_ret {A} (a : A) : no_success (mret a).
Proof. by intros w d. Qed.
Lemma no_success_gets {A} (f : W -> A) : no_success (gets f).
Proof. by intros w d. Qed.
Lemma no_success_lift {A} (m : BuildStep.M A) : no_success (lift m).
Proof. intros w d. unfold lift. by destruct (m (t_world w)). Qed.
Lemma no_success_failed msg : no_success (log (TestFailed msg)).
Proof. intros w d H. cbn in H. apply elem_of_app in H as [H|H]; [done|]. by apply list_elem_of_singleton in H. Qed.
Lemma no_success_set_disk d attrs : no_success (set_disk_attrs d attrs).
Proof. by intros w e. Qed.
Lemma no_success_set_results r : no_success (set_results r).
Proof. by intros w e. Qed.
Lemma no_success_bind {A B} (m : T A) (k : A -> T B) : no_success m -> (forall a, no_success (k a)) -> no_success (m ≫= k).
Proof.
  intros Hm Hk w d H. unfold mbind, TM_bind in H. specialize (Hm w d). destruct (m w) as [w1 [a|e|]]; cbn in *; auto.
  apply Hm, (Hk a), H.
Qed.
Lemma no_success_if {A} (b : bool) (m m' : T A) : no_success m -> no_success m' -> no_success (if b then m else m').
Proof. by destruct b. Qed.

Ltac no_success_step :=
  first [ apply no_success_bind; [|intro] | apply no_success_ret | apply no_success_gets | apply no_success_lift | apply no_success_failed
        | apply no_success_set_disk | apply no_success_set_results | apply no_success_if | progress cbn zeta ].
Ltac no_success := repeat first [ no_success_step | case_match | progress unfold target | progress unfold get_disk ].

Lemma moveOutputFile_quiet hash from to dummy : no_success (moveOutputFile p hash from to dummy).
Proof. unfold moveOutputFile, record_attr. no_success. Qed.

Lemma prepare_quiet dir : no_success (PrepareRuntimeDir p dir).
Proof. unfold PrepareRuntimeDir, test_RemoveAll. no_success. Qed.

Lemma doTest_quiet run : no_success (doTest p tc run).
Proof. unfold doTest, test_fields, prepareAndRunTest, runTest. no_success; apply prepare_quiet. Qed.

Lemma remove_all_quiet paths : no_success (remove_all (C := C) paths).
Proof. induction paths as [|path paths IH]; cbn; [apply no_success_ret|]. unfold test_RemoveAll. no_success. exact IH. Qed.

Lemma flake_run_quiet F : no_success (flake_run p tc F).
Proof.
  intros w d. unfold flake_run, doFlakeRun. generalize (Z.to_nat F), empty_suite, NewTestCoverage.
  intros n results coverage.
  assert (forall n results coverage (s : W * res unit),
    Tested d ∈ t_log (flake_loop (run_or_stop p tc 1) n results coverage s).1.1 -> Tested d ∈ t_log s.1) as Hloop.
  { clear. intros n. induction n as [|n IH]; intros results coverage s; [done|]. cbn [flake_loop].
    assert (forall s', (run_or_stop p tc 1 s).1 = s' -> Tested d ∈ t_log s'.1 -> Tested d ∈ t_log s.1) as Hs.
    { intros s' <-. unfold run_or_stop. destruct s as [w [u|e|]]; [|done..]. pose proof (doTest_quiet 1 w d) as Hq.
      destruct (doTest p tc 1 w) as [w1 [a|e|]]; exact Hq. }
    destruct (run_or_stop p tc 1 s) as [s' [suite cov]]. specialize (Hs s' eq_refl). destruct (AllSucceeded _); [exact Hs|].
    intros H. apply Hs. by apply IH in H. }
  specialize (Hloop n results coverage (w, Ok ())). destruct (flake_loop _ n results coverage _) as [[w1 r] x]. cbn in *.
  destruct r; exact Hloop.
Qed.

Lemma move_test_outputs_quiet hash run names : no_success (move_test_outputs p hash run names).
Proof. induction names as [|o names IH]; cbn; no_success; first [apply moveOutputFile_quiet|exact IH]. Qed.

Lemma moveOutputFiles_quiet hash run : no_success (moveOutputFiles p hash run).
Proof. unfold moveOutputFiles, test_fields. no_success; first [apply moveOutputFile_quiet|apply move_test_outputs_quiet]. Qed.

Lemma cacheOutputFiles_quiet hash run results outs : no_success (cacheOutputFiles p hash run results outs).
Proof. unfold cacheOutputFiles. no_success; apply moveOutputFile_quiet. Qed.

Lemma run_sequentially_quiet n run : no_success (run_sequentially p tc n run).
Proof. revert run. induction n as [|n IH]; intros run; cbn; unfold add_results; no_success; first [apply doTest_quiet|apply IH]. Qed.
(** *** What is reported in the end *)

Definition results_of (w : W) : list TestCase := TestCases (default empty_suite (t_results w)).

Lemma logTestSuccess_run s (w : W) : exists d, logTestSuccess s w = (MkTWorld (t_world w) (t_attrs w) (t_results w) (t_log w ++ [Tested d]), Ok ()).
Proof. by eexists. Qed.

(** The last event is that of success exactly if everything succeeded. *)
Lemma logTargetResults_run run (w w' : W) r :
  logTargetResults p run w = (w', r) ->
  r = Ok () /\ t_results w' = t_results w /\ w_target (t_world w') = w_target (t_world w) /\
  exists e, t_log w' = t_log w ++ [e] /\ (AllSucceeded (results_of w) = true <-> exists d, e = Tested d).
Proof.
  unfold logTargetResults, results_of. unfold mbind at 1, TM_bind at 1. cbn [target gets].
  unfold mbind at 1, TM_bind at 1. cbn [gets]. destruct (AllSucceeded _) eqn:Hs.
  - destruct (CleanWorkdirs p); intros [= <- <-]; split_and!; try done; eexists; (split; [done|]); split; eauto.
  - destruct (negb (suite_Failures _ =? 0)%nat); [|destruct (negb (suite_Errors _ =? 0)%nat)]; intros [= <- <-];
      split_and!; try done; eexists; (split; [done|]); split; [done|by intros (d & [=])|done|by intros (d & [=])|done|by intros (d & [=])].
Qed.

Lemma clean_cache_run (w w' : W) r :
  clean_cache p w = (w', r) -> t_log w' = t_log w /\ t_results w' = t_results w.
Proof. unfold clean_cache, lift. by destruct (has_cache p); intros [= <- _]. Qed.

Lemma cachedTestResults_run run (w w' : W) r :
  cachedTestResults p tc run w = (w', r) ->
  t_results w' = t_results w /\
  match r with
  | Ok (Some s) => AllSucceeded (TestCases s) = true /\ exists d, t_log w' = t_log w ++ [Tested d]
  | _ => t_log w' = t_log w
  end.
Proof.
  unfold cachedTestResults. unfold mbind at 1, TM_bind at 1. cbn [target gets]. unfold mbind at 1, TM_bind at 1. cbn [get_disk gets].
  assert (forall r, (_ ← clean_cache p; mret (None : option TestSuite)) w = (w', r) ->
    t_results w' = t_results w /\ match r with Ok (Some _) => False | _ => t_log w' = t_log w end) as Hclean.
  { intros r' H. unfold mbind, TM_bind in H. destruct (clean_cache p w) as [w1 r1] eqn:E. apply clean_cache_run in E as [El Er].
    destruct r1; injection H as <- <-; done. }
  destruct (parseTestResultsFile p tc _ _) as [s [e|]].
  { intros H. apply Hclean in H as [Hr Hl]. split; [done|]. by destruct r as [[]| |]. }
  cbn [TestCases]. destruct (AllSucceeded (TestCases s)) eqn:Hs.
  - intros [= <- <-]. split_and!; [done|done|by eexists].
  - intros H. apply Hclean in H as [Hr Hl]. split; [done|]. by destruct r as [[]| |].
Qed.

Lemma needToRun_quiet hash : no_success (needToRun p tc retrieved_attrs hash).
Proof.
  assert (forall paths, no_success (record_all_attrs (C := C) p hash paths)) as Hr.
  { intros paths. induction paths as [|path paths IH]; cbn; unfold record_attr; no_success; exact IH. }
  unfold needToRun, test_retrieve, verifyHash. no_success; apply Hr.
Qed.

Lemma run_and_move_quiet hash run : no_success (run_and_move p tc hash run).
Proof.
  unfold run_and_move, test_fields, add_results. no_success;
    first [apply flake_run_quiet|apply move_test_outputs_quiet|apply moveOutputFile_quiet|apply moveOutputFiles_quiet
          |apply cacheOutputFiles_quiet|apply run_sequentially_quiet|apply doTest_quiet].
Qed.

Lemma run_tests_success hash run (w w' : W) r d :
  run_tests p tc hash run w = (w', r) -> Tested d ∈ t_log w' -> Tested d ∈ t_log w \/ AllSucceeded (results_of w') = true.
Proof.
  unfold run_tests, mbind, TM_bind. pose proof (run_and_move_quiet hash run w d) as Hq.
  destruct (run_and_move p tc hash run w) as [w1 [[]|e|]]; cbn in Hq; [|intros [= <- <-]; auto..].
  intros H Hd. apply logTargetResults_run in H as (_ & Hres & _ & e & Hl & He). rewrite Hl in Hd.
  apply elem_of_app in Hd as [Hd|<-%list_elem_of_singleton]; [auto|]. right. unfold results_of. rewrite Hres. apply He. eauto.
Qed.

Lemma test_again_success hash run (w w' : W) r d :
  test_again p tc hash run w = (w', r) -> Tested d ∈ t_log w' -> Tested d ∈ t_log w \/ AllSucceeded (results_of w') = true.
Proof.
  assert (no_success (RemoveTestOutputs (C := C))) as Hq1.
  { unfold RemoveTestOutputs, test_fields. no_success; apply remove_all_quiet. }
  assert (no_success (verifyWorkerNotNeeded (C := C) p)) as Hq2 by (unfold verifyWorkerNotNeeded; no_success).
  unfold test_again. unfold mbind at 1, TM_bind at 1. specialize (Hq1 w d).
  destruct (RemoveTestOutputs w) as [w1 [[]|e|]]; cbn in Hq1; [|intros [= <- <-]; auto..].
  unfold mbind at 1, TM_bind at 1. specialize (Hq2 w1 d).
  destruct (verifyWorkerNotNeeded p w1) as [w2 [[|]|e|]]; cbn in Hq2; [| |intros [= <- <-]; auto..].
  - intros H Hd. destruct (run_tests_success _ _ _ _ _ _ H Hd); auto.
  - intros [= <- <-] Hd. left. apply Hq1, Hq2. cbn in Hd. by apply elem_of_app in Hd as [Hd|Hd%list_elem_of_singleton].
Qed.

Lemma reuse_results_run hash run (w w' : W) r d :
  reuse_results p tc retrieved_attrs hash run w = (w', r) -> Tested d ∈ t_log w' ->
  Tested d ∈ t_log w \/ r = Ok true /\ AllSucceeded (results_of w') = true.
Proof.
  unfold reuse_results. destruct (NumTestRuns tc =? 1)%Z; [|intros [= <- <-]; auto].
  unfold mbind at 1, TM_bind at 1. pose proof (needToRun_quiet hash w d) as Hq.
  destruct (needToRun _ _ _ _ w) as [w1 [[|]|e|]]; cbn in Hq; [intros [= <- <-]; auto| |intros [= <- <-]; auto..].
  unfold mbind at 1, TM_bind at 1. pose proof (cachedTestResults_run run w1) as Hc.
  destruct (cachedTestResults p tc run w1) as [w2 [o|e|]] eqn:E.
  - destruct (Hc w2 (Ok o) eq_refl) as [_ Ho]. destruct o as [s|]; intros [= <- <-]; [right; split; [done|apply Ho]|].
    rewrite Ho. auto.
  - destruct (Hc w2 (Err e) eq_refl) as [_ Ho]. intros [= <- <-]. rewrite Ho. auto.
  - destruct (Hc w2 NoFuel eq_refl) as [_ Ho]. intros [= <- <-]. rewrite Ho. auto.
Qed.

Lemma test_with_success hash run (w w' : W) r d :
  test_with p tc retrieved_attrs hash run w = (w', r) -> Tested d ∈ t_log w' ->
  Tested d ∈ t_log w \/ AllSucceeded (results_of w') = true.
Proof.
  unfold test_with. destruct (only_prepare tc).
  { assert (no_success (test_prepareOnly (C := C) p run)) as Hq.
    { unfold test_prepareOnly. no_success; first [apply prepare_quiet|idtac]. all: intros w0 d0 Hd0; cbn in Hd0.
      all: apply elem_of_app in Hd0 as [Hd0|Hd0%list_elem_of_singleton]; [done|done]. }
    intros H Hd. left. apply (Hq w d). by rewrite H. }
  unfold mbind at 1, TM_bind at 1. pose proof (reuse_results_run hash run w) as Hr.
  destruct (reuse_results _ _ _ _ _ w) as [w1 [[|]|e|]].
  - intros [= <- <-] Hd. destruct (Hr _ _ d eq_refl Hd) as [|[_ ?]]; auto.
  - intros H Hd. destruct (test_again_success _ _ _ _ _ _ H Hd) as [Hd1|]; [|auto].
    destruct (Hr _ _ d eq_refl Hd1) as [|[[=] _]]; auto.
  - intros [= <- <-] Hd. destruct (Hr _ _ d eq_refl Hd) as [|[[=] _]]; auto.
  - intros [= <- <-] Hd. destruct (Hr _ _ d eq_refl Hd) as [|[[=] _]]; auto.
Qed.

(** C9: A test is only reported to have passed if all its cases succeeded or were skipped
    in some execution - in this run, in those that count as one with it, or in the results
    of before that it stands for. *)
Theorem reported_success run (w w' : W) r d :
  test sha1 p tc retrieved_attrs run w = (w', r) -> Tested d ∈ t_log w' ->
  Tested d ∈ t_log w \/ AllSucceeded (results_of w') = true.
Proof.
  unfold test. assert (exists w1, start_suite tc w = (w1, Ok ()) /\ t_log w1 = t_log w) as (w1 & Hs & <-).
  { unfold start_suite. destruct (t_results w); by eexists. }
  rewrite (run_tbind _ _ _ _ _ Hs). clear Hs.
  assert (no_success (runtimeHash (C := C) sha1 p run)) as Hq by (unfold runtimeHash; no_success).
  unfold mbind at 1, TM_bind at 1. specialize (Hq w1 d).
  destruct (runtimeHash sha1 p run w1) as [w2 [[hash|]|e|]]; cbn in Hq; [| |intros [= <- <-]; auto..].
  - intros H Hd. destruct (test_with_success _ _ _ _ _ _ H Hd); auto.
  - intros [= <- <-] Hd. left. apply Hq. cbn in Hd. by apply elem_of_app in Hd as [Hd|Hd%list_elem_of_singleton].
Qed.

(** *** What is recorded *)

Lemma keep_attrs_same d attrs : keep_attrs d d attrs = attrs.
Proof. unfold keep_attrs. by apply map_filter_id. Qed.

Lemma lift_res_run {A} (r : res A) (w : W) : lift (of_res r) w = (w, r).
Proof. unfold lift. cbn. rewrite keep_attrs_same. by destruct w. Qed.

Definition runtime_hash (run : Z) (w : BuildStep.world (C := C)) : res (option string) :=
  option_map CollapseHash <$> RuntimeHash sha1 (root p) (state_now p (w_disk w)) (w_target w) (target_TestDir (w_target w) run).

Lemma runtimeHash_run run (w : W) : runtimeHash sha1 p run w = (w, runtime_hash run (t_world w)).
Proof.
  unfold runtimeHash, runtime_hash. unfold mbind at 1 2 3, TM_bind at 1 2 3. cbn [target get_disk gets]. rewrite lift_res_run.
  by destruct (RuntimeHash _ _ _ _ _).
Qed.

(** The results are there, with the hash. *)
Definition results_recorded (hash : string) (w : W) : Prop :=
  let file := TestResultsFile (w_target (t_world w)) in
  Disk.path_exists (w_disk (t_world w)) file = true /\
  default "" (ReadAttr (XattrsSupported (c_state p)) (test_files w) file) = hash.

Lemma record_attr_run path hash (w w' : W) :
  record_attr p path hash w = (w', Ok true) ->
  ReadAttr (XattrsSupported (c_state p)) (test_files w') path = Some hash /\ nodes (w_disk (t_world w')) = nodes (w_disk (t_world w)) /\
  w_target (t_world w') = w_target (t_world w) /\ t_log w' = t_log w /\ t_results w' = t_results w.
Proof.
  unfold record_attr. unfold mbind at 1 2, TM_bind at 1 2. cbn [gets get_disk].
  destruct (RecordAttr _ _ path hash) as [fs|] eqn:E; intros [= <-]. split_and!; try done.
  pose proof (RecordAttr_shape _ _ _ _ _ E) as (S1 & S2 & S3). apply RecordAttr_read in E as [E _].
  assert (test_files (MkTWorld (MkWorld (MkDisk (nodes (w_disk (t_world w))) (rule_attrs (w_disk (t_world w)))
    (hash_attrs (w_disk (t_world w))) (attr_files fs)) (w_cache (t_world w)) (w_target (t_world w)) (w_hash (t_world w))
    (w_built (t_world w))) (xattrs fs) (t_results w) (t_log w)) = fs) as ->; [|exact E].
  destruct fs. cbn in *. by subst.
Qed.

Lemma moveOutputFile_run hash from to dummy (w w' : W) :
  dummy <> "" -> moveOutputFile p hash from to dummy w = (w', Ok true) ->
  Disk.path_exists (w_disk (t_world w')) to = true /\
  ReadAttr (XattrsSupported (c_state p)) (test_files w') to = Some hash /\
  w_target (t_world w') = w_target (t_world w) /\ t_log w' = t_log w /\ t_results w' = t_results w.
Proof.
  intros Hd H. unfold moveOutputFile in H. apply tbind_run in H as (w1 & d & [= <- <-] & H).
  destruct (EnsureDir _ to) as [d'|]; [|done]. apply tbind_run in H as (w1 & attrs & [= <- <-] & H).
  apply tbind_run in H as (w1 & [] & [= <-] & H). apply tbind_run in H as (w2 & d & [= <- <-] & H).
  apply tbind_run in H as (w2 & attrs & [= <- <-] & H). cbn [t_world w_disk t_attrs] in H.
  destruct (Disk.path_exists d' from) eqn:Hf.
  - apply tbind_run in H as (w2 & [] & [= <-] & H). apply record_attr_run in H as (Hr & Hn & Ht & Hl & Hs). split_and!; [|done..].
    unfold Disk.path_exists. rewrite Hn. cbn [t_world w_disk]. rewrite Rename_nodes, under_refl.
    assert (str_drop (String.length to) to = "") as -> by (rewrite <- (str_app_nil_r to) at 2; by rewrite str_drop_app).
    by rewrite str_app_nil_r.
  - destruct (String.eqb dummy "") eqn:E; [by apply String.eqb_eq in E|]. destruct (bool_decide _); [done|].
    apply tbind_run in H as (w2 & [] & [= <-] & H). apply record_attr_run in H as (Hr & Hn & Ht & Hl & Hs). split_and!; [|done..].
    unfold Disk.path_exists. rewrite Hn. cbn [t_world w_disk Disk.WriteFile nodes]. by rewrite lookup_insert_eq.
Qed.

(** What neither touches the results nor reports anything but a failure. *)
Lemma moveOutputFile_results hash from to dummy (w w' : W) b :
  moveOutputFile p hash from to dummy w = (w', Ok b) -> t_results w' = t_results w /\ t_log w' = t_log w.
Proof.
  assert (forall path (w w' : W) b, record_attr p path hash w = (w', Ok b) -> t_results w' = t_results w /\ t_log w' = t_log w) as Hr.
  { clear. intros path w w' b. unfold record_attr. unfold mbind at 1 2, TM_bind at 1 2. cbn [gets get_disk].
    by destruct (RecordAttr _ _ path hash); intros [= <- _]. }
  intros H. unfold moveOutputFile in H. apply tbind_run in H as (w1 & d & [= <- <-] & H).
  destruct (EnsureDir _ to) as [d'|]; [|by injection H as <-]. apply tbind_run in H as (w1 & attrs & [= <- <-] & H).
  apply tbind_run in H as (w1 & [] & [= <-] & H). apply tbind_run in H as (w2 & d & [= <- <-] & H).
  apply tbind_run in H as (w2 & attrs & [= <- <-] & H). cbn [t_world w_disk t_attrs] in H.
  destruct (Disk.path_exists d' from); [|destruct (String.eqb dummy ""); [by injection H as <-|destruct (bool_decide _); [by injection H as <-|]]].
  all: by apply tbind_run in H as (w2 & [] & [= <-] & H); apply Hr in H.
Qed.

(** Nothing but results that all succeeded is kept, in a run without a cache. *)
Lemma cacheOutputFiles_run hash run results outs (w w' : W) b :
  TestArgs (c_settings p) = [] -> has_cache p = false -> AllSucceeded (TestCases results) = true ->
  cacheOutputFiles p hash run results outs w = (w', Ok b) ->
  t_results w' = t_results w /\
  (results_recorded hash w' /\ t_log w' = t_log w \/ exists msg, t_log w' = t_log w ++ [TestFailed msg]).
Proof.
  intros Ha Hc Hs H. unfold cacheOutputFiles in H. apply tbind_run in H as (w1 & t & [= <- <-] & H).
  rewrite Ha, bool_decide_false in H by (intros E; by apply E).
  assert (suite_Failures results = 0%nat) as Hf.
  { destruct (decide (suite_Failures results = 0%nat)) as [|Hf]; [done|]. apply failure_not_succeeded in Hf. congruence. }
  rewrite Hf in H. cbn [negb Nat.eqb] in H. apply tbind_run in H as (w1 & ok & Hm & H). destruct ok.
  - apply moveOutputFile_run in Hm as (Hp & Hr & Ht & Hl & Hres); [|done]. rewrite Hc in H.
    apply tbind_run in H as (w2 & [] & [= <-] & [= <- <-]). split; [done|]. left. split; [|done]. unfold results_recorded.
    rewrite Ht, Hr. done.
  - apply moveOutputFile_results in Hm as [Hres Hl]. apply tbind_run in H as (w2 & [] & [= <-] & [= <- <-]). cbn [t_results t_log].
    split; [done|]. right. exists "Failed to move test output file". by rewrite Hl.
Qed.

(** *** A test that passed *)

Lemma move_test_outputs_results hash run names (w w' : W) r :
  move_test_outputs p hash run names w = (w', Ok r) -> t_results w' = t_results w.
Proof.
  revert w r. induction names as [|o names IH]; intros w r H; cbn in H; [by injection H as <-|].
  apply tbind_run in H as (w1 & t & [= <- <-] & H). apply tbind_run in H as (w1 & ok & Hm & H).
  apply moveOutputFile_results in Hm as [Hres _]. destruct ok.
  - apply tbind_run in H as (w2 & outs & Ho & [= <- _]). by rewrite (IH _ _ Ho).
  - by apply tbind_run in H as (w2 & [] & [= <-] & [= <- _]).
Qed.

Lemma moveOutputFiles_results hash run (w w' : W) r : moveOutputFiles p hash run w = (w', Ok r) -> t_results w' = t_results w.
Proof.
  intros H. unfold moveOutputFiles in H. apply tbind_run in H as (w1 & t & [= <- <-] & H).
  apply tbind_run in H as (w1 & f & Hf & H). assert (w1 = w) as -> by
    (unfold test_fields in Hf; apply tbind_run in Hf as (? & ? & [= <- <-] & Hf); destruct (target_Test _); [by injection Hf|];
     unfold lift in Hf; cbn in Hf; done).
  apply tbind_run in H as (w1 & d & [= <- <-] & H). apply tbind_run in H as (w1 & first & Hfirst & H).
  assert (t_results w1 = t_results w) as <-.
  { destruct (_ || _); [|by injection Hfirst as <-]. apply tbind_run in Hfirst as (w2 & ok & Hm & Hfirst).
    apply moveOutputFile_results in Hm as [<- _]. destruct ok; [by injection Hfirst as <-|].
    by apply tbind_run in Hfirst as (w3 & [] & [= <-] & [= <- _]). }
  destruct first as [outs|]; [|by injection H as <-]. apply tbind_run in H as (w2 & more & Hm & [= <- _]).
  by apply move_test_outputs_results in Hm.
Qed.

Context (Hone : NumTestRuns tc = 1%Z) (Hargs : TestArgs (c_settings p) = []) (Hcache : has_cache p = false).

(** The results of a test are not kept in the directory it is run in. *)
Definition results_apart (run : Z) (t : BuildTarget) : Prop :=
  under (target_TestDir t run) (TestResultsFile t) = false /\
  under (target_TestDir t run) (fallbackFileName (TestResultsFile t)) = false.

(** The clean-up of that directory leaves them. *)
Lemma test_RemoveAll_recorded run hash (w : W) :
  results_apart run (w_target (t_world w)) -> results_recorded hash w ->
  results_recorded hash (test_RemoveAll (target_TestDir (w_target (t_world w)) run) w).1.
Proof.
  intros [H1 H2] [Hex Hattr]. set (t := w_target (t_world w)) in *. set (w' := (test_RemoveAll _ w).1).
  assert (nodes (w_disk (t_world w')) !! TestResultsFile t = nodes (w_disk (t_world w)) !! TestResultsFile t) as Hn.
  { change (remove_under (target_TestDir t run) (nodes (w_disk (t_world w))) !! TestResultsFile t = nodes (w_disk (t_world w)) !! TestResultsFile t).
    by rewrite lookup_remove_under, H1. }
  split; [unfold Disk.path_exists; change (w_target (t_world w')) with t; by rewrite Hn|]. rewrite <- Hattr. f_equal.
  change (TestResultsFile (w_target (t_world w'))) with (TestResultsFile t). unfold ReadAttr.
  pose proof (IsSymlink_at _ _ _ Hn) as E1. pose proof (PathExists_at _ _ _ Hn) as E2.
  assert (IsSymlink (test_files w') (TestResultsFile t) = IsSymlink (test_files w) (TestResultsFile t)) as -> by exact E1.
  assert (PathExists (test_files w') (TestResultsFile t) = PathExists (test_files w) (TestResultsFile t)) as -> by exact E2.
  assert (ReadAttrFile (test_files w') (TestResultsFile t) = ReadAttrFile (test_files w) (TestResultsFile t)) as ->.
  { change (remove_under (target_TestDir t run) (stand_ins (w_disk (t_world w))) !! fallbackFileName (TestResultsFile t) =
      stand_ins (w_disk (t_world w)) !! fallbackFileName (TestResultsFile t)). by rewrite lookup_remove_under, H2. }
  assert (xattrs (test_files w') !! TestResultsFile t = xattrs (test_files w) !! TestResultsFile t) as ->; [|done].
  change (remove_under (target_TestDir t run) (t_attrs w) !! TestResultsFile t = t_attrs w !! TestResultsFile t).
  by rewrite lookup_remove_under, H1.
Qed.

Lemma logTargetResults_recorded run hash (w w' : W) r :
  logTargetResults p run w = (w', r) -> results_apart run (w_target (t_world w)) -> results_recorded hash w -> results_recorded hash w'.
Proof.
  intros H Ha Hr. unfold logTargetResults in H. unfold mbind at 1, TM_bind at 1 in H. cbn [target gets] in H.
  unfold mbind at 1, TM_bind at 1 in H. cbn [gets] in H.
  destruct (AllSucceeded _); [|by repeat case_match; injection H as <- <-].
  destruct (CleanWorkdirs p); [|by injection H as <- <-]. pose proof (test_RemoveAll_recorded run hash w Ha Hr) as Hc.
  injection H as <- <-. exact Hc.
Qed.

Lemma run_tests_recorded hash run (w w' : W) d :
  run_tests p tc hash run w = (w', Ok ()) -> t_log w' = [Tested d] -> results_apart run (w_target (t_world w')) -> results_recorded hash w'.
Proof.
  intros H Hd Hapart. unfold run_tests in H. apply tbind_run in H as (w1 & [] & H & Hlog).
  pose proof (logTargetResults_recorded run hash w1 w' _ Hlog) as Hkeep.
  apply logTargetResults_run in Hlog as (_ & Hres & Ht & e & Hl & He).
  assert (t_log w1 = [] /\ e = Tested d) as [Hl1 ->].
  { rewrite Hl in Hd. destruct (t_log w1) as [|x l]; [by injection Hd|]. injection Hd as _ Hd. by destruct l. }
  assert (AllSucceeded (results_of w1) = true) as Hs by (apply He; eauto).
  apply Hkeep; [by rewrite <- Ht|].
  unfold run_and_move in H. apply tbind_run in H as (w2 & f & _ & H). rewrite Hone, Z.eqb_refl in H.
  apply tbind_run in H as (w3 & [results coverage] & _ & H). apply tbind_run in H as (w4 & [] & _ & H).
  apply tbind_run in H as (w5 & all & [= <- <-] & H). apply tbind_run in H as (w6 & outs & Hm & H).
  apply moveOutputFiles_results in Hm. destruct (AllSucceeded (TestCases (default empty_suite (t_results w4)))) eqn:E.
  - apply tbind_run in H as (w7 & b & H & [= <-]). apply cacheOutputFiles_run in H as [_ [[H _]|[msg Hmsg]]]; [done| |done..].
    rewrite Hmsg in Hl1. by destruct (t_log w6).
  - injection H as <-. unfold results_of in Hs. rewrite Hm in Hs. congruence.
Qed.

Lemma log_app_single {A} (l : list A) (x y : A) : l ++ [x] = [y] -> l = [] /\ x = y.
Proof. destruct l as [|z l]; [by intros [= ->]|]. intros [= _ H]. by destruct l. Qed.

Lemma verifyHash_run file hash (w w' : W) ok :
  verifyHash p file hash w = (w', Ok ok) ->
  w' = w /\ ok = bool_decide (default "" (ReadAttr (XattrsSupported (c_state p)) (test_files w) file) = hash).
Proof. by intros [= <- <-]. Qed.

Lemma test_retrieve_none hash names (w : W) : test_retrieve p retrieved_attrs hash names w = (w, Ok false).
Proof. unfold test_retrieve. by rewrite Hcache. Qed.

(** Without a cache, the test need not run only if its results are there, with its hash. *)
Lemma needToRun_recorded hash (w w' : W) :
  needToRun p tc retrieved_attrs hash w = (w', Ok false) -> w' = w /\ results_recorded hash w.
Proof.
  intros H. unfold needToRun in H. apply tbind_run in H as (w1 & t & [= <- <-] & H). apply tbind_run in H as (w1 & d & [= <- <-] & H).
  destruct (ForceRerun tc); [done|]. destruct (_ && _) eqn:E.
  - apply andb_true_iff in E as [_ E]. apply tbind_run in H as (w1 & stale & Hst & H).
    assert (w1 = w) as -> by (destruct (NeedCoverage _ _);
      [apply tbind_run in Hst as (? & ? & [= <- <-] & [= <- <-])|injection Hst as <- <-]; done).
    destruct stale; [done|]. apply tbind_run in H as (w2 & ok & Hv & [= <- Hok]).
    apply verifyHash_run in Hv as [-> ->]. split; [done|]. split; [done|].
    apply negb_false_iff, bool_decide_eq_true in Hok. exact Hok.
  - unfold mbind, TM_bind in H. by rewrite test_retrieve_none in H.
Qed.

Lemma cachedTestResults_kept run (w w' : W) s :
  cachedTestResults p tc run w = (w', Ok (Some s)) -> t_world w' = t_world w /\ t_attrs w' = t_attrs w.
Proof.
  unfold cachedTestResults. unfold mbind at 1, TM_bind at 1. cbn [target gets]. unfold mbind at 1, TM_bind at 1. cbn [get_disk gets].
  assert (forall m : T (option TestSuite), m = (_ ← clean_cache p; mret None) -> m w = (w', Ok (Some s)) -> False) as Hno.
  { intros m -> H. by apply tbind_run in H as (? & ? & _ & [=]). }
  destruct (parseTestResultsFile p tc _ _) as [s' [e|]]; [by intros H; apply Hno in H|]. cbn [TestCases].
  destruct (AllSucceeded (TestCases s')); [by intros [= <- <-]|by intros H; apply Hno in H].
Qed.

Lemma test_recorded run (w w' : W) d :
  only_prepare tc = false -> t_log w = [] -> test sha1 p tc retrieved_attrs run w = (w', Ok ()) -> t_log w' = [Tested d] ->
  results_apart run (w_target (t_world w')) ->
  exists hash, runtime_hash run (t_world w) = Ok (Some hash) /\ results_recorded hash w'.
Proof.
  intros Hp Hl H Hd Hapart. unfold test in H. apply tbind_run in H as (w1 & [] & Hs & H).
  assert (t_world w1 = t_world w /\ t_log w1 = []) as [<- Hl1].
  { unfold start_suite in Hs. destruct (t_results w); by injection Hs as <-. }
  apply tbind_run in H as (w2 & hash & Hh & H). rewrite runtimeHash_run in Hh. injection Hh as <- Hh.
  destruct hash as [hash|]; [|injection H as <-; cbn in Hd; by rewrite Hl1 in Hd].
  exists hash. split; [done|]. unfold test_with in H. rewrite Hp in H. apply tbind_run in H as (w3 & reused & Hr & H).
  destruct reused.
  - injection H as <-. unfold reuse_results in Hr. rewrite Hone, Z.eqb_refl in Hr. apply tbind_run in Hr as (w4 & need & Hn & Hr).
    destruct need; [done|]. apply needToRun_recorded in Hn as [-> Hrec]. apply tbind_run in Hr as (w5 & r & Hc & Hr).
    destruct r as [s|]; [|done]. apply cachedTestResults_kept in Hc as [Hw Ha]. injection Hr as <-.
    unfold results_recorded, test_files in *. cbn. by rewrite Hw, Ha.
  - unfold test_again in H. apply tbind_run in H as (w4 & [] & _ & H). apply tbind_run in H as (w5 & ok & _ & H).
    destruct ok; [by eapply run_tests_recorded|]. injection H as <-. cbn in Hd. by apply log_app_single in Hd as [_ [=]].
Qed.

(** A world in which a test's results are those of before. *)
Lemma test_reused run hash suite (w : W) :
  only_prepare tc = false -> ForceRerun tc = false -> NeedCoverage (c_settings p) (w_target (t_world w)) = false ->
  target_state (w_target (t_world w)) = Unchanged \/ target_state (w_target (t_world w)) = Reused ->
  runtime_hash run (t_world w) = Ok (Some hash) -> results_recorded hash w ->
  parseTestResultsFile p tc (w_disk (t_world w)) (TestResultsFile (w_target (t_world w))) = (suite, None) ->
  AllSucceeded (TestCases suite) = true ->
  exists w' e r, test sha1 p tc retrieved_attrs run w = (w', Ok ()) /\ t_world w' = t_world w /\ t_attrs w' = t_attrs w /\
    t_log w' = t_log w ++ [Tested e] /\ t_results w' = Some r /\ Cached r = true /\ TestCases r = TestCases suite.
Proof.
  intros Hp Hf Hcov Hst Hh Hrec Hparse Hs. unfold test.
  assert (exists w1, start_suite tc w = (w1, Ok ()) /\ t_world w1 = t_world w /\ t_attrs w1 = t_attrs w /\ t_log w1 = t_log w)
    as (w1 & Hw1 & Hw & Ha & Hl) by (unfold start_suite; destruct (t_results w); by eexists).
  rewrite (run_tbind _ _ _ _ _ Hw1). clear Hw1.
  erewrite run_tbind by (by rewrite runtimeHash_run, Hw, Hh). unfold test_with. rewrite Hp.
  assert (needToRun p tc retrieved_attrs hash w1 = (w1, Ok false)) as Hn.
  { destruct Hrec as [Hex Hattr]. unfold needToRun, mbind, TM_bind. cbn [target get_disk gets]. rewrite Hf, Hw, Hex, Hcov.
    rewrite (proj2 (orb_true_iff _ _)) by (destruct Hst as [->| ->]; auto). cbn [andb mret TM_ret verifyHash gets].
    unfold verifyHash, mbind, TM_bind. cbn [gets]. assert (test_files w1 = test_files w) as -> by (unfold test_files; by rewrite Hw, Ha).
    by rewrite Hattr, bool_decide_true. }
  unfold reuse_results. rewrite Hone, Z.eqb_refl. unfold mbind, TM_bind. rewrite Hn. unfold cachedTestResults, mbind, TM_bind.
  cbn [target get_disk gets]. rewrite Hw, Hparse. cbn [TestCases]. rewrite Hs. unfold logTestSuccess, log. cbn [mret TM_ret].
  eexists _, _, _. split; [reflexivity|]. cbn. by rewrite Hw, Ha, Hl.
Qed.

(** C2: A test that passed is not run again. In a configuration that runs a test once,
    without arguments of its own, without a cache, without coverage and without being told
    to rerun tests, let a test be reported to have passed whose results are not kept in the
    directory it is run in, whether that is cleaned up or not. If its target is left alone
    by the next build (it is unchanged or reused), what it depends on has the same hash, and
    the results that were recorded read as all succeeded (which those of a test that failed
    at first and then passed need not), then testing it again reports it to have passed from
    what was recorded, which is there, and changes no file. *)
Theorem passed_not_run_again run (w w1 : W) d s c built suite :
  let w2 := MkTWorld (MkWorld (w_disk (t_world w1)) c (upd_state (fun _ => s) (w_target (t_world w1))) None built) (t_attrs w1) None [] in
  let t := w_target (t_world w2) in
  only_prepare tc = false -> ForceRerun tc = false -> NeedCoverage (c_settings p) t = false -> results_apart run t ->
  t_log w = [] -> test sha1 p tc retrieved_attrs run w = (w1, Ok ()) -> t_log w1 = [Tested d] ->
  s = Unchanged \/ s = Reused -> runtime_hash run (t_world w2) = runtime_hash run (t_world w) ->
  parseTestResultsFile p tc (w_disk (t_world w2)) (TestResultsFile t) = (suite, None) -> AllSucceeded (TestCases suite) = true ->
  Disk.path_exists (w_disk (t_world w2)) (TestResultsFile t) = true /\
  exists w3 e r, test sha1 p tc retrieved_attrs run w2 = (w3, Ok ()) /\ t_world w3 = t_world w2 /\ t_attrs w3 = t_attrs w2 /\
    t_log w3 = [Tested e] /\ t_results w3 = Some r /\ Cached r = true /\ TestCases r = TestCases suite.
Proof.
  intros w2 t Hp Hf Hcov Hapart Hl H Hd Hs Hh Hparse Hok.
  destruct (test_recorded run w w1 d Hp Hl H Hd Hapart) as (hash & Hhash & Hrec).
  assert (results_recorded hash w2) as Hrec2 by exact Hrec. split; [apply Hrec2|].
  apply (test_reused run hash suite w2); try done. by rewrite Hh.
Qed.
End steps.

(** ** A concrete test *)

(** [//p:t] as a test that writes its results. *)
Definition ex_tested : BuildTarget :=
  upd_Test (fun _ => Some (MkTest "check" None [] ∅ [] false false false "" 0 1)) (ex_target id).

Definition ex_tested_conf : Conf := ex_conf (build_graph [ex_tested]) false no_post.

Definition ex_check (result : string) (t : BuildTarget) (env : list string) (command : string) (d : disk) :
    disk * (string * option (string * bool) * Z) :=
  (Disk.WriteFile d (path_join [target_TestDir t 1; "test.results"]) result,
    (result, if String.eqb result "PASS" then None else Some ("exit status 1", false), 0%Z)).

Definition ex_parsed (data : string) : string + list gtr_Package :=
  inr [MkGoPackage "" 0 [] [MkGoTest "a" 0 [] (if String.eqb data "PASS" then gtr_Pass else gtr_Fail)] []].

Definition ex_test_conf (result : string) : TestConf :=
  MkTestConf 1 false false false id "now" (ex_check result) (fun _ => false) (fun _ => ([], None)) ex_parsed (fun _ => NewTestCoverage).

Definition ex_tworld (s : BuildTargetState) (d : disk) (attrs : gmap string string) : tworld (C := unit) :=
  MkTWorld (MkWorld d () (upd_state (fun _ => s) ex_tested) None ∅) attrs None [].

Definition ex_test (result : string) (w : tworld (C := unit)) : tworld (C := unit) * res unit :=
  test pad ex_tested_conf (ex_test_conf result) (fun _ attrs => attrs) 1 w.

Definition ex_passed : tworld (C := unit) := (ex_test "PASS" (ex_tworld Built (w_disk (ex_build ex_tested ex_disk).1) ∅)).1.

(** The same after a build that had nothing to do. *)
Definition ex_again : tworld (C := unit) :=
  MkTWorld (MkWorld (w_disk (t_world ex_passed)) () (upd_state (fun _ => Reused) (w_target (t_world ex_passed))) None ∅)
    (t_attrs ex_passed) None [].

Example ex_test_passed : t_log ex_passed = [Tested "1 test passed."].
Proof. vm_compute. done. Qed.

Example ex_test_failed : t_log (ex_test "FAIL" (ex_tworld Built (w_disk (ex_build ex_tested ex_disk).1) ∅)).1 = [TestFailed "Tests failed"].
Proof. vm_compute. done. Qed.

Lemma reported_success_witness : AllSucceeded (results_of ex_passed) = true.
Proof.
  destruct (reported_success pad ex_tested_conf (ex_test_conf "PASS") (fun _ attrs => attrs) 1
    (ex_tworld Built (w_disk (ex_build ex_tested ex_disk).1) ∅) ex_passed (Ok ()) "1 test passed.") as [H|H].
  - vm_compute. reflexivity.
  - vm_compute. left.
  - vm_compute in H. exfalso. inversion H.
  - exact H.
Defined.

Lemma passed_not_run_again_witness :
  exists w e r, ex_test "PASS" ex_again = (w, Ok ()) /\ t_log w = [Tested e] /\ t_results w = Some r /\ Cached r = true.
Proof.
  destruct (passed_not_run_again pad ex_tested_conf (ex_test_conf "PASS") (fun _ attrs => attrs) eq_refl eq_refl eq_refl 1
    (ex_tworld Built (w_disk (ex_build ex_tested ex_disk).1) ∅) ex_passed "1 test passed." Reused () ∅
    (parseTestResultsFile ex_tested_conf (ex_test_conf "PASS") (w_disk (t_world ex_passed)) (TestResultsFile ex_tested)).1)
    as (_ & w3 & e & r & H & _ & _ & Hl & Hr & Hc & _).
  all: try (vm_compute; reflexivity).
  - vm_compute. split; reflexivity.
  - by right.
  - exists w3, e, r. split_and!; [exact H|exact Hl|exact Hr|exact Hc].
Defined.

(** ** Where the code does not do what it means to *)

(** What a test depends on at run time is hashed without its names, so a test is not run
    again when a target that it needs renames its output; sources are hashed with them. *)
Definition ex_datum (out : string) : BuildTarget := upd_outputs (fun _ => [out]) (NewBuildTarget (MkBuildLabel "p" "d" "")).

Definition ex_tested_with_data : BuildTarget := upd_Data (fun _ => [LabelInput (MkBuildLabel "p" "d" "")]) ex_tested.

Definition ex_data_hash (out : string) : res (option string) :=
  let g := build_graph [ex_tested_with_data; ex_datum out] in
  let d := Disk.WriteFile (Disk.WriteFile ex_disk "plz-out/gen/p/out" "hello") ("plz-out/gen/p/" +:+ out) "data" in
  runtime_hash pad (ex_conf g false no_post) 1 (MkWorld (C := unit) d () ex_tested_with_data None ∅).

Definition ex_data_files (out : string) : res (list (string * string)) :=
  IterRuntimeFiles "/home" (fun _ => false) "/repo" (build_graph [ex_tested_with_data; ex_datum out]) ex_tested_with_data false "run".

Lemma renamed_data_not_seen :
  ex_data_hash "a" = ex_data_hash "b" /\ (exists h, ex_data_hash "a" = Ok (Some h)) /\
  ex_data_files "a" = Ok [("plz-out/gen/p/out", "out"); ("plz-out/gen/p/a", "p/a")] /\
  ex_data_files "b" = Ok [("plz-out/gen/p/out", "out"); ("plz-out/gen/p/b", "p/b")].
Proof. split_and!; [vm_compute; reflexivity|eexists; vm_compute; reflexivity|vm_compute; reflexivity..]. Qed.
