(* ===== verification/Precedence.v ===== *)
(** Operators and precedence: [interpretOps] of [src/parse/asp/interpreter.go] against
    the tree a reader of the language expects.

    The parser leaves the operators of an expression in a flat list, a unary operator
    after its operand.  [tree_of] builds their tree the usual way: an operator goes
    above those that bind at least as tightly and below those that bind less, a unary
    one is about the operand before it.  [interpretOps] evaluates that tree as long as
    the list is [nested]: wherever an operator is followed by one that binds more
    tightly, so do all the operators after it.  Otherwise it groups to the right. *)
From S2P Require Import Prelude GoStrings Lexer Values Ast Parser Objects Interp.

#[local] Open Scope Z_scope.

Inductive tree :=
  | Known (v : pyObject)
  | Operand (e : Expression)
  | Unary (o : OpExpression) (t : tree)
  | Binary (o : OpExpression) (l r : tree).

Definition prec (o : OpExpression) : Z := Op.Precedence (op_Op o).

Definition is_unary (o : OpExpression) : bool := bool_decide (op_Op o = Op.Not) || bool_decide (op_Op o = Op.Negate).

(** The unary operators are those without an operand of their own. *)
Definition well_formed (o : OpExpression) : bool := Bool.eqb (is_unary o) (bool_decide (op_Expr o = None)).

(** A unary operator is about the last operand. *)
Fixpoint insert_unary (o : OpExpression) (t : tree) : tree :=
  match t with
  | Known _ | Operand _ => Unary o t
  | Unary o' t => Unary o' (insert_unary o t)
  | Binary o' l r => Binary o' l (insert_unary o r)
  end.

Fixpoint insert_binary (o : OpExpression) (e : Expression) (t : tree) : tree :=
  match t with
  | Known _ | Operand _ => Binary o t (Operand e)
  | Unary o' t' => if prec o' <? prec o then Unary o' (insert_binary o e t') else Binary o t (Operand e)
  | Binary o' l r => if prec o' <? prec o then Binary o' l (insert_binary o e r) else Binary o t (Operand e)
  end.

Definition insert_op (t : tree) (o : OpExpression) : tree :=
  match op_Expr o with
  | None => insert_unary o t
  | Some e => insert_binary o e t
  end.

Definition tree_of (t : tree) (ops : list OpExpression) : tree := fold_left insert_op ops t.

Fixpoint nested (ops : list OpExpression) : bool :=
  match ops with
  | o :: ((o2 :: _) as rest) =>
      (if prec o2 <=? prec o then negb (is_unary o2) else forallb (fun o' => prec o <? prec o') rest) && nested rest
  | _ => true
  end.

Section precedence.
Context (Sprintf : string -> list pyObject -> heap -> string).
Context (grow : nat -> nat -> nat).
Context (unrepresentable : Z).
Context (fuel : nat) (interpretExpression : Expression -> I pyObject).

#[local] Abbreviation interpretOp := (interpretOp Sprintf grow unrepresentable fuel).
#[local] Abbreviation interpretOps := (interpretOps Sprintf grow unrepresentable fuel interpretExpression).
#[local] Abbreviation operand_of := (operand_of interpretExpression).

(** Whether the second operand is not needed. *)
Definition skips (v : pyObject) (o : Op.Operator) : I bool :=
  b ← truthy v; iret (Op.Lazy o && negb (Bool.eqb b (bool_decide (o = Op.And)))).

Fixpoint eval_tree (t : tree) : I pyObject :=
  match t with
  | Known v => iret v
  | Operand e => interpretExpression e
  | Unary o t => v ← eval_tree t; interpretOp v (op_Op o) (operand_of o)
  | Binary o l (Operand e) => v ← eval_tree l; interpretOp v (op_Op o) (interpretExpression e)
  | Binary o l r =>
      v ← eval_tree l;
      skip ← skips v (op_Op o);
      if (skip : bool) then iret v else y ← eval_tree r; interpretOp v (op_Op o) (iret y)
  end.
End precedence.
Lemma I_bind_assoc {A B C} (m : I A) (f : A -> I B) (g : B -> I C) s :
  ((m ≫= f) ≫= g) s = (m ≫= (fun a => f a ≫= g)) s.
Proof. unfold mbind, I_bind. destruct (m s) as [[a s']| |]; done. Qed.

Lemma I_bind_ext {A B} (m m' : I A) (f f' : A -> I B) s :
  m s = m' s -> (forall a s, f a s = f' a s) -> (m ≫= f) s = (m' ≫= f') s.
Proof. intros Hm Hf. unfold mbind, I_bind. rewrite Hm. destruct (m' s) as [[a s']| |]; [apply Hf|done..]. Qed.

(** *** Where an operator goes *)

Lemma tree_of_binary o l r rest :
  forallb (fun o' => prec o <? prec o') rest = true -> tree_of (Binary o l r) rest = Binary o l (tree_of r rest).
Proof.
  revert r. induction rest as [|o' rest IH]; intros r; [done|]. cbn [forallb]. intros [H1 H2]%andb_true_iff.
  unfold tree_of in *. cbn [fold_left]. rewrite <- IH by done. f_equal. unfold insert_op.
  destruct (op_Expr o'); [|done]. cbn [insert_binary]. by rewrite H1.
Qed.

Lemma tree_of_unary o t rest :
  forallb (fun o' => prec o <? prec o') rest = true -> tree_of (Unary o t) rest = Unary o (tree_of t rest).
Proof.
  revert t. induction rest as [|o' rest IH]; intros r; [done|]. cbn [forallb]. intros [H1 H2]%andb_true_iff.
  unfold tree_of in *. cbn [fold_left]. rewrite <- IH by done. f_equal. unfold insert_op.
  destruct (op_Expr o'); [|done]. cbn [insert_binary]. by rewrite H1.
Qed.

(** [t] is on the far left of a tree; with the value of [t] there it is the other. *)
Inductive leftmost (t : tree) : (pyObject -> tree) -> tree -> Prop :=
  | leftmost_here o r : leftmost t (fun v => Binary o (Known v) r) (Binary o t r)
  | leftmost_there o T T' r : leftmost t T T' -> leftmost t (fun v => Binary o (T v) r) (Binary o T' r).

Lemma leftmost_insert t T T' o :
  leftmost t T T' -> exists U, leftmost t U (insert_op T' o) /\ forall v, insert_op (T v) o = U v.
Proof.
  intros H. unfold insert_op. destruct (op_Expr o) as [e|]; cbn.
  - destruct H as [o' r|o' T T' r H]; cbn; case_match; eexists; (split; [|done]); repeat constructor; done.
  - destruct H as [o' r|o' T T' r H]; cbn; eexists; (split; [|done]); constructor; done.
Qed.

Lemma leftmost_tree_of t T T' ops :
  leftmost t T T' -> exists U, leftmost t U (tree_of T' ops) /\ forall v, tree_of (T v) ops = U v.
Proof.
  revert T T'. induction ops as [|o ops IH]; intros T T' H; [by exists T|].
  destruct (leftmost_insert t T T' o H) as (U & HU & HT). destruct (IH _ _ HU) as (W & HW & HUW).
  exists W. split; [done|]. intros v. rewrite <- HUW, <- HT. done.
Qed.

Section precedence.
Context (Sprintf : string -> list pyObject -> heap -> string).
Context (grow : nat -> nat -> nat).
Context (unrepresentable : Z).
Context (fuel : nat) (interpretExpression : Expression -> I pyObject).

#[local] Abbreviation interpretOp := (interpretOp Sprintf grow unrepresentable fuel).
#[local] Abbreviation interpretOps := (interpretOps Sprintf grow unrepresentable fuel interpretExpression).
#[local] Abbreviation operand_of := (operand_of interpretExpression).
#[local] Abbreviation value_of := (eval_tree Sprintf grow unrepresentable fuel interpretExpression).

Lemma operand_of_eq o :
  match op_Expr o with Some e => operand_of o = interpretExpression e | None => True end.
Proof. unfold Interp.operand_of. by destruct (op_Expr o). Qed.

Lemma leftmost_eval t T T' s : leftmost t T T' -> value_of T' s = (v ← value_of t; value_of (T v)) s.
Proof.
  intros H. revert s. induction H as [o r|o T T' r H IH]; intros s.
  - destruct r; cbn [eval_tree]; apply I_bind_ext; done.
  - destruct r; cbn [eval_tree];
      (etransitivity; [apply I_bind_ext; [apply IH|intros; reflexivity]|apply I_bind_assoc]).
Qed.

Lemma eval_binary o l r s :
  (match r with Operand _ => False | _ => True end) ->
  value_of (Binary o l r) s =
    (v ← value_of l; skip ← skips v (op_Op o);
     if (skip : bool) then iret v else y ← value_of r; interpretOp v (op_Op o) (iret y)) s.
Proof. by destruct r. Qed.

Lemma tree_of_shape t ops : ops <> [] -> match tree_of t ops with Operand _ => False | _ => True end.
Proof.
  intros H. destruct (exists_last H) as (ops' & o & ->). unfold tree_of. rewrite fold_left_app. cbn.
  generalize (fold_left insert_op ops' t). intros u. unfold insert_op.
  destruct (op_Expr o), u; cbn; try done; by destruct (_ <? _).
Qed.

Lemma interpretOps_cons obj o o2 rest s :
  (prec o2 <=? prec o) = false -> well_formed o = true ->
  interpretOps obj (o :: o2 :: rest) s =
    match op_Expr o with
    | None => (v ← interpretOps obj (o2 :: rest); interpretOp v (op_Op o) (operand_of o)) s
    | Some e =>
        (skip ← skips obj (op_Op o);
         if (skip : bool) then iret obj
         else y ← interpretExpression e; nobj ← interpretOps y (o2 :: rest); interpretOp obj (op_Op o) (iret nobj)) s
    end.
Proof.
  intros Hp Hw. unfold prec in Hp. cbn [Interp.interpretOps]. rewrite Hp. unfold skips, truthy, gets.
  unfold well_formed, is_unary in Hw. destruct (op_Expr o) as [e|].
  - unfold mbind, I_bind, iret. cbn. by destruct (Op.Lazy (op_Op o)), (Bool.eqb _ _).
  - destruct (op_Op o); done.
Qed.

(** An operand, and operators after it. *)
Lemma tree_of_eval ops t s :
  match t with Known _ | Operand _ => True | _ => False end ->
  forallb well_formed ops = true -> nested ops = true -> ops <> [] ->
  value_of (tree_of t ops) s = (v ← value_of t; interpretOps v ops) s.
Proof.
  intros Ht. revert t s Ht. induction ops as [|o [|o2 rest] IH]; intros t s Ht Hw Hn Hne; [done| |].
  - unfold tree_of, insert_op. cbn [fold_left Interp.interpretOps].
    pose proof (operand_of_eq o) as Ho. destruct (op_Expr o) eqn:E, t; try done; cbn [insert_binary insert_unary eval_tree]; by rewrite ?Ho.
  - cbn [forallb] in Hw. apply andb_true_iff in Hw as [Hwo Hw].
    cbn [nested] in Hn. apply andb_true_iff in Hn as [Hn Hn']. specialize (IH) as IH'.
    assert (Hrest : o2 :: rest <> []) by done.
    change (tree_of t (o :: o2 :: rest)) with (tree_of (insert_op t o) (o2 :: rest)).
    destruct (prec o2 <=? prec o) eqn:Hp.
    + (* the operators so far are done *)
      transitivity ((v ← value_of (insert_op t o); interpretOps v (o2 :: rest)) s).
      * assert (exists e2, op_Expr o2 = Some e2) as [e2 He2].
        { cbn [forallb] in Hw. apply andb_true_iff in Hw as [Hw2 _]. unfold well_formed in Hw2.
          destruct (op_Expr o2); [eauto|]. apply eqb_prop in Hw2. rewrite Hw2 in Hn. done. }
        assert (tree_of (insert_op t o) (o2 :: rest) = tree_of (Binary o2 (insert_op t o) (Operand e2)) rest) as ->.
        { unfold tree_of. cbn [fold_left]. f_equal. unfold insert_op at 1. rewrite He2.
          unfold insert_op. assert (prec o <? prec o2 = false) as Hlt by lia.
          destruct (op_Expr o), t; try done; cbn; by rewrite Hlt. }
        destruct (leftmost_tree_of (insert_op t o) _ _ rest (leftmost_here _ o2 (Operand e2))) as (U & HU & HT).
        rewrite (leftmost_eval _ _ _ s HU). apply I_bind_ext; [done|]. intros v s'. rewrite <- HT.
        pose proof (IH (Known v) s' Logic.I Hw Hn' Hrest) as H. 
        transitivity (value_of (tree_of (Known v) (o2 :: rest)) s'); [|exact H].
        unfold tree_of. cbn [fold_left]. do 3 f_equal. unfold insert_op. by rewrite He2.
      * transitivity ((v ← value_of t; v ← interpretOp v (op_Op o) (operand_of o); interpretOps v (o2 :: rest)) s).
        { rewrite <- I_bind_assoc. apply I_bind_ext; [|done].
          unfold insert_op. pose proof (operand_of_eq o) as Ho.
          destruct (op_Expr o) eqn:E, t; try done; cbn [insert_binary insert_unary eval_tree]; by rewrite ?Ho. }
        apply I_bind_ext; [done|]. intros v s'. unfold prec in Hp. cbn [Interp.interpretOps]. by rewrite Hp.
    + (* the rest is done first *)
      unfold insert_op at 1. pose proof (fun v s' => interpretOps_cons v o o2 rest s' Hp Hwo) as Hops.
      destruct (op_Expr o) as [e|] eqn:E.
      * assert (insert_binary o e t = Binary o t (Operand e)) as -> by (by destruct t).
        rewrite tree_of_binary by done. rewrite eval_binary by (by apply tree_of_shape).
        apply I_bind_ext; [done|]. intros v s'. rewrite Hops. apply I_bind_ext; [done|]. intros b s''.
        destruct b; [done|]. rewrite <- I_bind_assoc. apply I_bind_ext; [|done]. by apply IH.
      * assert (insert_unary o t = Unary o t) as -> by (by destruct t).
        rewrite tree_of_unary by done. cbn [eval_tree].
        transitivity ((v ← value_of t; v ← interpretOps v (o2 :: rest); interpretOp v (op_Op o) (operand_of o)) s).
        { rewrite <- I_bind_assoc. apply I_bind_ext; [|done]. by apply IH. }
        apply I_bind_ext; [done|]. intros v s'. by rewrite Hops.
Qed.
End precedence.

(** C15: operators are evaluated by their precedence, those that bind equally tightly
    from the left, as long as wherever an operator is followed by one that binds more
    tightly, so do all the operators after it. *)
Theorem interpretOps_precedence Sprintf grow unrepresentable fuel interpretExpression ops obj s :
  forallb well_formed ops = true -> nested ops = true -> ops <> [] ->
  interpretOps Sprintf grow unrepresentable fuel interpretExpression obj ops s =
    eval_tree Sprintf grow unrepresentable fuel interpretExpression (tree_of (Known obj) ops) s.
Proof. intros Hw Hn Hne. symmetry. by apply tree_of_eval. Qed.

(** *** On examples *)

Definition no_state : state := MkState empty_heap ∅ ∅ 0.

Definition constant (i : Z) : Expression :=
  MkExpression 0 0 (MkValueExpression VNone [] None) [] None (Some (OptConstant (pyInt i))).

Definition constant_value (e : Expression) : I pyObject :=
  match ex_optimised e with Some (OptConstant c) => iret c | _ => iret pyNone end.

Definition with_operand (op : Op.Operator) (i : Z) : OpExpression := MkOpExpression op (Some (constant i)).

Definition evaluates_to (obj : Z) (ops : list OpExpression) : res pyObject :=
  '(o, _) ← interpretOps (fun s _ _ => s) (fun _ n => n) 0 10 constant_value (pyInt obj) ops no_state; Ok o.

Definition tree_evaluates_to (obj : Z) (ops : list OpExpression) : res pyObject :=
  '(o, _) ← eval_tree (fun s _ _ => s) (fun _ n => n) 0 10 constant_value (tree_of (Known (pyInt obj)) ops) no_state; Ok o.

(** [2 * 3 - 1 - 1 and 2 + 2 * 2], [7 - 2 - 1] *)
Lemma interpretOps_precedence_witness :
  let ops := [with_operand Op.Multiply 3; with_operand Op.Subtract 1; with_operand Op.Subtract 1;
              with_operand Op.And 2; with_operand Op.Add 2; with_operand Op.Multiply 2] in
  forallb well_formed ops = true /\ nested ops = true /\
  interpretOps (fun s _ _ => s) (fun _ n => n) 0 10 constant_value (pyInt 2) ops no_state =
    eval_tree (fun s _ _ => s) (fun _ n => n) 0 10 constant_value (tree_of (Known (pyInt 2)) ops) no_state /\
  evaluates_to 2 ops = Ok (pyInt 6) /\
  evaluates_to 7 [with_operand Op.Subtract 2; with_operand Op.Subtract 1] = Ok (pyInt 4).
Proof.
  intros ops. split; [by vm_compute|]. split; [by vm_compute|]. split; [|by vm_compute].
  apply (interpretOps_precedence _ _ _ _ _ ops); [by vm_compute|by vm_compute|done].
Defined.

(** Otherwise they are grouped to the right: [10 - 2 * 3 + 4] is 0 rather than 8, and
    [1 + 2 * 3 == 7] adds a boolean to 1. *)
Lemma groups_to_the_right :
  let ops := [with_operand Op.Subtract 2; with_operand Op.Multiply 3; with_operand Op.Add 4] in
  nested ops = false /\ evaluates_to 10 ops = Ok (pyInt 0) /\ tree_evaluates_to 10 ops = Ok (pyInt 8) /\
  let ops := [with_operand Op.Add 2; with_operand Op.Multiply 3; with_operand Op.Equal 7] in
  evaluates_to 1 ops = Err (EPanic "Cannot operate on int and bool") /\ tree_evaluates_to 1 ops = Ok (pyBool true).
Proof. split_and!; by vm_compute. Qed.
