(* ===== verification/Fuel.v ===== *)
(** Fuel in the interpreter of the BUILD language only decides whether there is an
    answer: with more of it the answer is the same.

    [res_le x y] is that [x] ran out of fuel or is [y]; every function of
    [Objects.v] and [Interp.v] that takes fuel, or functions that do, preserves it. *)
From S2P Require Import Prelude GoStrings Lexer Values Ast Parser Objects Interp.

#[local] Open Scope Z_scope.

Definition res_le {A} (x y : res A) : Prop := x = NoFuel \/ x = y.

(** For functions of the state or the heap. *)
Definition fun_le {S A} (m m' : S -> res A) : Prop := forall s, res_le (m s) (m' s).

Create HintDb fuel.

Lemma res_le_refl {A} (x : res A) : res_le x x.
Proof. by right. Qed.

Lemma fun_le_refl {S A} (m : S -> res A) : fun_le m m.
Proof. intros s. apply res_le_refl. Qed.

Lemma NoFuel_le {A} (x : res A) : res_le NoFuel x.
Proof. by left. Qed.

Lemma res_le_bind {A B} (x y : res A) (f g : A -> res B) :
  res_le x y -> (forall a, res_le (f a) (g a)) -> res_le (x ≫= f) (y ≫= g).
Proof. intros [->| ->] Hf; [by left|]. destruct y; [apply Hf|apply res_le_refl..]. Qed.

Lemma I_le_bind {A B} (m m' : I A) (f g : A -> I B) :
  fun_le m m' -> (forall a, fun_le (f a) (g a)) -> fun_le (m ≫= f) (m' ≫= g).
Proof. intros Hm Hf s. apply res_le_bind; [apply Hm|]. intros [a s']. apply Hf. Qed.

Lemma H_le_bind {A B} (m m' : H A) (f g : A -> H B) :
  fun_le m m' -> (forall a, fun_le (f a) (g a)) -> fun_le (m ≫= f) (m' ≫= g).
Proof. intros Hm Hf s. apply res_le_bind; [apply Hm|]. intros [a s']. apply Hf. Qed.

#[export] Hint Resolve NoFuel_le : fuel.
(** Only for terms that are the same as they stand. *)
#[export] Hint Extern 0 (res_le _ _) => match goal with |- res_le ?x ?x => apply res_le_refl end : fuel.
#[export] Hint Extern 0 (fun_le _ _) => match goal with |- fun_le ?m ?m => apply fun_le_refl end : fuel.
#[export] Hint Opaque res_le fun_le : fuel.

Lemma foldM_le {S A} (f g : S -> A -> res S) s l :
  (forall s x, res_le (f s x) (g s x)) -> res_le (foldM f s l) (foldM g s l).
Proof. intros H. revert s. induction l as [|x l IH]; intros s; cbn; [apply res_le_refl|]. by apply res_le_bind. Qed.

Lemma mapI_le {A B} (f g : A -> I B) l : (forall x, fun_le (f x) (g x)) -> fun_le (mapI f l) (mapI g l).
Proof.
  intros H. induction l as [|x l IH]; cbn; [apply fun_le_refl|].
  apply I_le_bind; [done|]. intros y. apply I_le_bind; [done|]. intros. apply fun_le_refl.
Qed.

Lemma iterI_le {A} (f g : A -> I unit) l : (forall x, fun_le (f x) (g x)) -> fun_le (iterI f l) (iterI g l).
Proof. intros H. induction l as [|x l IH]; cbn; [apply fun_le_refl|]. by apply I_le_bind. Qed.

Lemma on_heap_le {A} (m m' : H A) : fun_le m m' -> fun_le (on_heap m) (on_heap m').
Proof. intros H s. apply res_le_bind; [apply H|]. intros []. apply res_le_refl. Qed.

Lemma read_heap_le {A} (f g : heap -> res A) : fun_le f g -> fun_le (read_heap f) (read_heap g).
Proof. intros H s. apply res_le_bind; [apply H|]. intros. apply res_le_refl. Qed.

(** Goes through the two sides together. *)
Ltac le_step :=
  first
    [ solve [auto with fuel]
    | apply res_le_bind; [|intros ?]
    | apply I_le_bind; [|intros ?]
    | apply H_le_bind; [|intros ?]
    | apply foldM_le; intros ? ?
    | apply mapI_le; intros ?
    | apply iterI_le; intros ?
    | apply on_heap_le
    | apply read_heap_le
    | match goal with
      | |- fun_le (fun _ => _) (fun _ => _) => intros ?
      | |- res_le (mbind ?f ?m ?s) (mbind ?g ?m' ?s) => apply (fun H : fun_le (m ≫= f) (m' ≫= g) => H s)
      | |- fun_le (match ?x with _ => _ end) (match ?x with _ => _ end) => destruct x
      | |- res_le (match ?x with _ => _ end) (match ?x with _ => _ end) => destruct x
      | |- res_le (match ?x with _ => _ end _) (match ?x with _ => _ end _) => destruct x
      | s : heap |- res_le (?f ?s) (?g ?s) => apply (fun H : fun_le f g => H s)
      | s : state |- res_le (?f ?s) (?g ?s) => apply (fun H : fun_le f g => H s)
      end ].
Ltac le := repeat le_step.

(** ** Values *)

Section objects.
Context (Sprintf : string -> list pyObject -> heap -> string).
Context (grow : nat -> nat -> nat).
Context (unrepresentable : Z).

Lemma DeepEqual_le n n' h a b : (n <= n')%nat -> res_le (DeepEqual n h a b) (DeepEqual n' h a b).
Proof.
  revert n' a b. induction n as [|n IH]; intros n' a b Hn; [by left|]. destruct n' as [|n']; [lia|].
  assert (forall x y, res_le (DeepEqual n h x y) (DeepEqual n' h x y)) as IH' by (intros; apply IH; lia).
  cbn [DeepEqual]. destruct a, b; le.
Qed.

Lemma range_elements_le n n' i stop step :
  (n <= n')%nat -> res_le (range_elements n i stop step) (range_elements n' i stop step).
Proof.
  revert n' i. induction n as [|n IH]; intros n' i Hn; cbn.
  - destruct (i <? stop) eqn:E; [by left|]. destruct n'; cbn; rewrite E; le.
  - destruct n' as [|n']; [lia|]. cbn. destruct (i <? stop); le. apply IH. lia.
Qed.

Lemma range_Operator_le n n' start stop step op operand :
  (n <= n')%nat ->
  fun_le (range_Operator grow n start stop step op operand) (range_Operator grow n' start stop step op operand).
Proof. intros Hn. pose proof (fun i => range_elements_le n n' i stop step Hn). unfold range_Operator. le. Qed.

Lemma Operator_le n n' op obj operand :
  (n <= n')%nat ->
  fun_le (Operator Sprintf grow unrepresentable n op obj operand)
    (Operator Sprintf grow unrepresentable n' op obj operand).
Proof.
  revert n' op obj operand. induction n as [|n IH]; intros n' op obj operand Hn; [intros ?; by left|].
  destruct n' as [|n']; [lia|].
  assert (forall op x y, fun_le (Operator Sprintf grow unrepresentable n op x y)
    (Operator Sprintf grow unrepresentable n' op x y)) as IH' by (intros; apply IH; lia).
  pose proof (fun a b c op y => range_Operator_le n n' a b c op y ltac:(lia)) as Hr.
  cbn [Operator]. destruct obj; le.
  all: generalize (elements s l) (elements s l0); clear -IH'; intros xs.
  all: induction xs as [|x xs IHx]; intros [|y ys]; le.
Qed.
End objects.

#[export] Hint Resolve DeepEqual_le range_Operator_le Operator_le : fuel.

(** ** The interpreter *)

Lemma to_str_le n n' h o : (n <= n')%nat -> res_le (to_str n h o) (to_str n' h o).
Proof.
  revert n' o. induction n as [|n IH]; intros n' o Hn; [by left|]. destruct n' as [|n']; [lia|].
  assert (forall x, res_le (to_str n h x) (to_str n' h x)) as IH' by (intros; apply IH; lia).
  cbn [to_str]. destruct o; le.
Qed.

Lemma loop_le {A} n n' it (body body' : A -> pyObject -> I (bool * A)) acc :
  (n <= n')%nat -> (forall acc x, fun_le (body acc x) (body' acc x)) ->
  fun_le (loop n it body acc) (loop n' it body' acc).
Proof.
  intros Hn Hb. revert n' it acc Hn. induction n as [|n IH]; intros n' it acc Hn; [intros ?; by left|].
  destruct n' as [|n']; [lia|].
  assert (forall it acc, fun_le (loop n it body acc) (loop n' it body' acc)) by (intros; apply IH; lia).
  cbn [loop]. le.
Qed.

#[export] Hint Resolve to_str_le : fuel.

Section interp.
Context (Sprintf : string -> list pyObject -> heap -> string).
Context (grow : nat -> nat -> nat).
Context (unrepresentable : Z).
Context (natives : string -> nat -> list (option pyObject) -> I pyObject).
Context (stringMethods dictMethods configMethods : gmap string nat).
Context (bazel_compat : bool).

Lemma operator_le n n' op x y :
  (n <= n')%nat ->
  fun_le (operator Sprintf grow unrepresentable n op x y) (operator Sprintf grow unrepresentable n' op x y).
Proof. intros. unfold operator. le. Qed.
#[local] Hint Resolve operator_le : fuel.

Lemma interpretOp_le n n' obj op (m m' : I pyObject) :
  (n <= n')%nat -> fun_le m m' ->
  fun_le (interpretOp Sprintf grow unrepresentable n obj op m) (interpretOp Sprintf grow unrepresentable n' obj op m').
Proof. intros. unfold interpretOp. le. Qed.

#[local] Hint Resolve interpretOp_le : fuel.

Lemma interpretOps_le n n' (ev ev' : Expression -> I pyObject) obj ops :
  (n <= n')%nat -> (forall e, fun_le (ev e) (ev' e)) ->
  fun_le (interpretOps Sprintf grow unrepresentable n ev obj ops) (interpretOps Sprintf grow unrepresentable n' ev' obj ops).
Proof.
  intros Hn He.
  assert (forall o, fun_le (operand_of ev o) (operand_of ev' o)) as Ho by (intros; unfold operand_of; le).
  revert obj. induction ops as [|o rest IH]; intros obj; cbn [interpretOps]; [le|].
  le.
Qed.

(** What the steps need of the functions they call. *)
Record fns_le (r r' : fns) : Prop := {
  eval_le sc e : fun_le (eval r sc e) (eval r' sc e);
  exec_le sc stmts : fun_le (exec r sc stmts) (exec r' sc stmts);
  ident_le sc obj ie : fun_le (ident r sc obj ie) (ident r' sc obj ie);
  const_le sc e : fun_le (const r sc e) (const r' sc e);
}.
#[local] Hint Resolve eval_le exec_le ident_le const_le : fuel.

Section step.
Context (n n' : nat) (r r' : fns).
Context (Hn : (n <= n')%nat) (Hr : fns_le r r').

Lemma evaluateExpressions_le sc es : fun_le (evaluateExpressions r sc es) (evaluateExpressions r' sc es).
Proof. unfold evaluateExpressions. le. Qed.
#[local] Hint Resolve evaluateExpressions_le : fuel.

Lemma evaluateComprehension_le {A} cs it comp (f f' : A -> pyObject -> I A) acc :
  (forall acc x, fun_le (f acc x) (f' acc x)) ->
  fun_le (evaluateComprehension n r cs it comp f acc) (evaluateComprehension n' r' cs it comp f' acc).
Proof.
  intros Hf. unfold evaluateComprehension. le; (apply loop_le; [done|]; intros ? ?; le);
    apply loop_le; [done|]; intros ? ?; le.
Qed.

Lemma interpretList_le sc l : fun_le (interpretList grow n r sc l) (interpretList grow n' r' sc l).
Proof. unfold interpretList. le. apply evaluateComprehension_le. intros ? ?. le. Qed.

Lemma interpretDict_le sc d : fun_le (interpretDict n r sc d) (interpretDict n' r' sc d).
Proof. unfold interpretDict. le; apply evaluateComprehension_le; intros ? ?; le. Qed.

Lemma interpretJoin_le sc base l : fun_le (interpretJoin n r sc base l) (interpretJoin n' r' sc base l).
Proof. unfold interpretJoin. le. apply evaluateComprehension_le. intros ? ?. le. Qed.

Lemma defaultArg_le sc f i arg : fun_le (defaultArg r sc f i arg) (defaultArg r' sc f i arg).
Proof. unfold defaultArg. le. Qed.
#[local] Hint Resolve interpretList_le interpretDict_le interpretJoin_le defaultArg_le : fuel.

Lemma validateType_le sc f i v :
  fun_le (validateType bazel_compat r sc f i v) (validateType bazel_compat r' sc f i v).
Proof. unfold validateType. le. Qed.
#[local] Hint Resolve validateType_le : fuel.

Lemma passNative_le sc f i args vals :
  fun_le (passNative bazel_compat r sc f i args vals) (passNative bazel_compat r' sc f i args vals).
Proof. revert i vals. induction args as [|[? name e] args IH]; intros i vals; cbn [passNative]; le. Qed.

Lemma fillNative_le sc f i names vals : fun_le (fillNative r sc f i names vals) (fillNative r' sc f i names vals).
Proof. revert i vals. induction names as [|name names IH]; intros i vals; cbn [fillNative]; le. Qed.
#[local] Hint Resolve passNative_le fillNative_le : fuel.

Lemma callNative_le sc f native args :
  fun_le (callNative natives bazel_compat r sc f native args) (callNative natives bazel_compat r' sc f native args).
Proof. unfold callNative. le. Qed.
#[local] Hint Resolve callNative_le : fuel.

(** The arguments come with what evaluates them. *)
Lemma passArgs_le sc cs f i args args' :
  Forall2 (fun a b => a.1 = b.1 /\ fun_le a.2 b.2) args args' ->
  fun_le (passArgs bazel_compat r sc cs f i args) (passArgs bazel_compat r' sc cs f i args').
Proof.
  intros H. revert i. induction H as [|[name v] [name' v'] args args' [? ?] H IH]; intros i; cbn [passArgs]; [le|].
  cbn in *. subst. le.
Qed.

Lemma call_le sc f c : fun_le (call natives bazel_compat r sc f c) (call natives bazel_compat r' sc f c).
Proof.
  unfold call. le. apply passArgs_le. apply Forall2_app.
  - destruct (fn_self f); repeat constructor; apply fun_le_refl.
  - apply Forall2_fmap_2, Forall_Forall2_diag, Forall_forall. intros [? name e] _. split; [done|]. cbn. le.
Qed.
#[local] Hint Resolve call_le : fuel.

Lemma callObject_le sc name obj c :
  fun_le (callObject natives bazel_compat r sc name obj c) (callObject natives bazel_compat r' sc name obj c).
Proof. unfold callObject. le. Qed.
#[local] Hint Resolve callObject_le : fuel.

#[local] Abbreviation interpretActions := (interpretActions natives stringMethods dictMethods configMethods bazel_compat).

Lemma interpretActions_le sc name obj actions :
  fun_le (interpretActions r sc name obj actions) (interpretActions r' sc name obj actions).
Proof.
  revert name obj. induction actions as [|[]]; intros name obj; cbn [Interp.interpretActions]; le.
Qed.
#[local] Hint Resolve interpretActions_le : fuel.

Lemma interpretIdent_le sc obj ie :
  fun_le (interpretIdent natives stringMethods dictMethods configMethods bazel_compat r sc obj ie)
    (interpretIdent natives stringMethods dictMethods configMethods bazel_compat r' sc obj ie).
Proof. unfold interpretIdent. le. Qed.
#[local] Hint Resolve interpretIdent_le : fuel.

Lemma interpretFString_le sc f :
  fun_le (interpretFString stringMethods dictMethods configMethods n sc f)
    (interpretFString stringMethods dictMethods configMethods n' sc f).
Proof. unfold interpretFString. le. Qed.

Lemma interpretSlice_le sc obj sl : fun_le (interpretSlice r sc obj sl) (interpretSlice r' sc obj sl).
Proof. unfold interpretSlice. le. Qed.

Lemma newPyFunc_le sc name args code return_ :
  fun_le (newPyFunc r sc name args code return_) (newPyFunc r' sc name args code return_).
Proof. unfold newPyFunc. le. Qed.
#[local] Hint Resolve interpretFString_le interpretSlice_le newPyFunc_le interpretList_le interpretDict_le interpretJoin_le : fuel.

#[local] Abbreviation interpretValueExpressionPart :=
  (interpretValueExpressionPart grow natives stringMethods dictMethods configMethods bazel_compat).

Lemma interpretValueExpressionPart_le sc v :
  fun_le (interpretValueExpressionPart n r sc v) (interpretValueExpressionPart n' r' sc v).
Proof. unfold Interp.interpretValueExpressionPart. le. Qed.
#[local] Hint Resolve interpretValueExpressionPart_le : fuel.

Lemma interpretSlices_le sc obj slices :
  fun_le (interpretSlices Sprintf grow unrepresentable n r sc obj slices)
    (interpretSlices Sprintf grow unrepresentable n' r' sc obj slices).
Proof. revert obj. induction slices as [|[] slices IH]; intros obj; cbn [interpretSlices]; le. Qed.
#[local] Hint Resolve interpretSlices_le : fuel.

#[local] Abbreviation evaluator f :=
  (f Sprintf grow unrepresentable natives stringMethods dictMethods configMethods bazel_compat).

Lemma interpretValueExpression_le sc v :
  fun_le (evaluator interpretValueExpression n r sc v) (evaluator interpretValueExpression n' r' sc v).
Proof. unfold interpretValueExpression. le. Qed.
#[local] Hint Resolve interpretValueExpression_le : fuel.

Lemma Constant_le sc e : fun_le (evaluator Constant n r sc e) (evaluator Constant n' r' sc e).
Proof. unfold Constant. le. Qed.

Lemma interpretExpression_le sc e :
  fun_le (evaluator interpretExpression n r sc e) (evaluator interpretExpression n' r' sc e).
Proof. pose proof interpretOps_le. unfold interpretExpression. le. Qed.

#[local] Hint Resolve interpretExpression_le : fuel.

Lemma interpretIdentStatement_le sc i :
  fun_le (evaluator interpretIdentStatement n r sc i) (evaluator interpretIdentStatement n' r' sc i).
Proof. unfold interpretIdentStatement. le. Qed.

Lemma interpretElifs_le sc elifs else_ : fun_le (interpretElifs r sc elifs else_) (interpretElifs r' sc elifs else_).
Proof. induction elifs as [|[]]; cbn [interpretElifs]; le. Qed.
#[local] Hint Resolve interpretElifs_le : fuel.

Lemma interpretIf_le sc i : fun_le (interpretIf r sc i) (interpretIf r' sc i).
Proof. unfold interpretIf. le. Qed.
#[local] Hint Resolve interpretIf_le interpretIdentStatement_le : fuel.

Lemma interpretStatement_le sc stmt :
  fun_le (evaluator interpretStatement n r sc stmt) (evaluator interpretStatement n' r' sc stmt).
Proof. unfold interpretStatement. le. apply loop_le; [done|]. intros ? ?. le. Qed.
#[local] Hint Resolve interpretStatement_le : fuel.

Lemma interpretStatements_le sc stmts :
  fun_le (evaluator interpretStatements n r sc stmts) (evaluator interpretStatements n' r' sc stmts).
Proof. induction stmts as [|stmt stmts IH]; cbn [interpretStatements]; le. Qed.
End step.

#[local] Abbreviation run := (run Sprintf grow unrepresentable natives stringMethods dictMethods configMethods bazel_compat).

Lemma run_le n n' : (n <= n')%nat -> fns_le (run n) (run n').
Proof.
  revert n'. induction n as [|n IH]; intros n' Hn; [split; intros; intros ?; by left|].
  destruct n' as [|n']; [lia|]. assert (Hr : fns_le (run n) (run n')) by (apply IH; lia).
  assert (Hn' : (n <= n')%nat) by lia.
  split; intros; cbn; [by apply interpretExpression_le|by apply interpretStatements_le|by apply interpretIdent_le
    |by apply Constant_le].
Qed.
End interp.

(** more fuel does not change what a program or an expression does: what it
    evaluates to, the error it stops with and the state it leaves. *)
Theorem run_more_fuel Sprintf grow unrepresentable natives stringMethods dictMethods configMethods bazel_compat n n' sc :
  (n <= n')%nat ->
  let run := run Sprintf grow unrepresentable natives stringMethods dictMethods configMethods bazel_compat in
  (forall stmts s, exec (run n) sc stmts s <> NoFuel -> exec (run n') sc stmts s = exec (run n) sc stmts s) /\
  (forall e s, eval (run n) sc e s <> NoFuel -> eval (run n') sc e s = eval (run n) sc e s).
Proof.
  intros Hn run. pose proof (run_le Sprintf grow unrepresentable natives stringMethods dictMethods configMethods
    bazel_compat n n' Hn) as Hle.
  split; intros x s H.
  - destruct (exec_le _ _ Hle sc x s) as [|He]; [done|by symmetry].
  - destruct (eval_le _ _ Hle sc x s) as [|He]; [done|by symmetry].
Qed.

Definition program : string :=
  "def f(n, m=3):" +:+ newline +:+
  "    for i in [1, 2, 3, 4]:" +:+ newline +:+
  "        if i == n:" +:+ newline +:+
  "            return i * m" +:+ newline +:+
  "    return 0" +:+ newline +:+
  "x = [f(i) for i in [2, 3, 9]] + [f(n=4, m=-1)]" +:+ newline.

Lemma run_more_fuel_witness :
  let stmts := from_Ok [] (parseFileInput no_runes program) in
  let run := run (fun s _ _ => s) (fun _ n => n) 0 (fun _ _ _ => iret pyNone) ∅ ∅ ∅ false in
  exec (run 12%nat) 0%nat stmts root <> NoFuel /\ exec (run 100%nat) 0%nat stmts root = exec (run 12%nat) 0%nat stmts root /\
  run_program 12 program = Ok "[6 9 0 -4]".
Proof.
  intros stmts run. assert (exec (run 12%nat) 0%nat stmts root <> NoFuel) as H by (vm_compute; discriminate).
  split; [exact H|]. split; [|vm_compute; reflexivity].
  assert (12 <= 100)%nat as Hn by lia.
  exact (proj1 (run_more_fuel _ _ _ _ _ _ _ _ 12%nat 100%nat 0%nat Hn) stmts root H).
Defined.

