(* ===== verification/Optimise.v ===== *)
(** What happens to a syntax tree between parsing and interpreting: [WalkAST] of
    [src/parse/asp/util.go], the optimisations of [src/parse/asp/parser.go] and
    [optimiseExpressions] of [src/parse/asp/interpreter.go]; and freezing the values a
    file defines once it has been interpreted.

    [WalkAST] calls a function on every expression, outermost first, which changes it
    or has it go on to what the expression is made of; none does both.  It is written
    for any monad, because finding constants evaluates them. *)
From S2P Require Import Prelude GoStrings Lexer Values Ast Parser Objects Interp.
From Stdlib Require Import Ascii.

#[local] Open Scope Z_scope.

(** ** Walking a tree *)

Section walk.
Context {M : Type -> Type} {ret : MRet M} {bind : MBind M}.
(** what it changes the expression to *)
Context (callback : Expression -> M (option Expression)).

Definition walk_list {A} (f : A -> M A) : list A -> M (list A) :=
  fix go l := match l with [] => mret [] | x :: l => x ← f x; l ← go l; mret (x :: l) end.

Definition walk_option {A} (f : A -> M A) (o : option A) : M (option A) :=
  match o with None => mret None | Some x => x ← f x; mret (Some x) end.

(** What an expression has been optimised to is not looked at, and its value may be
    gone then. *)
Definition value_gone (o : option optimisedExpression) : bool :=
  match o with Some (OptConstant _ | OptConfig _ | OptJoin _ _) => true | _ => false end.

Fixpoint walk_expression (e : Expression) : M Expression :=
  changed ← callback e;
  let 'MkExpression p ep v ops if_ opt := e in
  match changed with
  | Some e => mret e
  | None =>
    v ← (if value_gone opt then mret v else walk_value_expression v);
    ops ← walk_list (fun '(MkOpExpression op e) => e ← walk_option walk_expression e; mret (MkOpExpression op e)) ops;
    if_ ← walk_option (fun '(MkInlineIf c e) =>
            c ← walk_expression c; e ← walk_expression e; mret (MkInlineIf c e)) if_;
    mret (MkExpression p ep v ops if_ opt)
  end
with walk_value_expression (v : ValueExpression) : M ValueExpression :=
  let 'MkValueExpression val slices suffix := v in
  val ← walk_value val;
  slices ← walk_list (fun '(MkSlice start colon end_) =>
             start ← walk_option walk_expression start;
             end_ ← walk_option walk_expression end_;
             mret (MkSlice start colon end_)) slices;
  suffix ← walk_option (fun s =>
             match s with
             | VProperty i => i ← walk_ident i; mret (VProperty i)
             | VCall c => c ← walk_call c; mret (VCall c)
             end) suffix;
  mret (MkValueExpression val slices suffix)
with walk_value (v : Value) : M Value :=
  match v with
  | VList l => l ← walk_List l; mret (VList l)
  | VTuple l => l ← walk_List l; mret (VTuple l)
  | VDict (MkDict items comp) =>
      items ← walk_list (fun '(MkDictItem k v) =>
                k ← walk_expression k; v ← walk_expression v; mret (MkDictItem k v)) items;
      comp ← walk_option walk_comprehension comp;
      mret (VDict (MkDict items comp))
  | VLambda (MkLambda args e) =>
      args ← walk_list walk_argument args;
      e ← walk_expression e;
      mret (VLambda (MkLambda args e))
  | VIdent i => i ← walk_ident i; mret (VIdent i)
  | VString _ | VFString _ | VTrue | VFalse | VNone | VInt _ => mret v
  end
with walk_List (l : List) : M List :=
  let 'MkList values comp := l in
  values ← walk_list walk_expression values;
  comp ← walk_option walk_comprehension comp;
  mret (MkList values comp)
with walk_comprehension (c : Comprehension) : M Comprehension :=
  let 'MkComprehension names e second if_ := c in
  e ← walk_expression e;
  second ← walk_option (fun '(MkSecondComprehension names e) =>
             e ← walk_expression e; mret (MkSecondComprehension names e)) second;
  if_ ← walk_option walk_expression if_;
  mret (MkComprehension names e second if_)
with walk_argument (a : Argument) : M Argument :=
  let 'MkArgument name types aliases v private := a in
  v ← walk_option walk_expression v;
  mret (MkArgument name types aliases v private)
with walk_ident (i : IdentExpr) : M IdentExpr :=
  let 'MkIdentExpr p ep name actions := i in
  actions ← walk_list (fun a =>
              match a with
              | AProperty i => i ← walk_ident i; mret (AProperty i)
              | ACall c => c ← walk_call c; mret (ACall c)
              end) actions;
  mret (MkIdentExpr p ep name actions)
with walk_call (c : Call) : M Call :=
  let 'MkCall args := c in
  args ← walk_list (fun '(MkCallArgument p name e) => e ← walk_expression e; mret (MkCallArgument p name e)) args;
  mret (MkCall args).

Definition walk_ident_statement (i : IdentStatement) : M IdentStatement :=
  rest ←
    match is_rest i with
    | INone => mret INone
    | IUnpack names e => e ← walk_expression e; mret (IUnpack names e)
    | IIndexAssign e a => e ← walk_expression e; a ← walk_expression a; mret (IIndexAssign e a)
    | IIndexAugAssign e a => e ← walk_expression e; a ← walk_expression a; mret (IIndexAugAssign e a)
    | IAction (ActProperty i) => i ← walk_ident i; mret (IAction (ActProperty i))
    | IAction (ActCall c) => c ← walk_call c; mret (IAction (ActCall c))
    | IAction (ActAssign e) => e ← walk_expression e; mret (IAction (ActAssign e))
    | IAction (ActAugAssign e) => e ← walk_expression e; mret (IAction (ActAugAssign e))
    end;
  mret (MkIdentStatement (is_Name i) rest).

Fixpoint walk_statement (s : Statement) : M Statement :=
  let 'MkStatement p ep kind := s in
  kind ←
    match kind with
    | SFuncDef (MkFuncDef name args doc body eo ret_ private) =>
        args ← walk_list walk_argument args;
        body ← walk_list walk_statement body;
        mret (SFuncDef (MkFuncDef name args doc body eo ret_ private))
    | SFor (MkForStatement names e body) =>
        e ← walk_expression e; body ← walk_list walk_statement body; mret (SFor (MkForStatement names e body))
    | SIf (MkIfStatement hp hep c body elifs ehp ehep else_) =>
        c ← walk_expression c;
        body ← walk_list walk_statement body;
        elifs ← walk_list (fun '(MkIfStatementElif hp hep c body) =>
                  c ← walk_expression c; body ← walk_list walk_statement body; mret (MkIfStatementElif hp hep c body)) elifs;
        else_ ← walk_list walk_statement else_;
        mret (SIf (MkIfStatement hp hep c body elifs ehp ehep else_))
    | SReturn es => es ← walk_list walk_expression es; mret (SReturn es)
    | SRaise e => e ← walk_expression e; mret (SRaise e)
    | SAssert e m => e ← walk_expression e; m ← walk_option walk_expression m; mret (SAssert e m)
    | SIdent i => i ← walk_ident_statement i; mret (SIdent i)
    | SLiteral e => e ← walk_expression e; mret (SLiteral e)
    | SPass => mret SPass
    | SContinue => mret SContinue
    | SBreak => mret SBreak
    end;
  mret (MkStatement p ep kind).

Definition WalkAST : list Statement -> M (list Statement) := walk_list walk_statement.
End walk.

(** ** Optimising statements *)

(** [x.append(y)] and [x.extend(y)], as the call and the method. *)
Definition list_method (i : IdentStatement) : option (string * Expression) :=
  match is_rest i with
  | IAction (ActProperty (MkIdentExpr _ _ name [ACall (MkCall [MkCallArgument _ _ v])])) =>
      if String.eqb name "append" || String.eqb name "extend" then Some (name, v) else None
  | _ => None
  end.

(** [Expression{Val: v}] *)
Definition value_expression (v : Value) : Expression := MkExpression 0 0 (MkValueExpression v [] None) [] None None.

(** Statements without effect go, [append] and [extend] become [+=]. *)
Fixpoint optimise_statement (s : Statement) : list Statement :=
  let all := fix all (l : list Statement) : list Statement :=
    match l with [] => [] | s :: l => optimise_statement s ++ all l end in
  let 'MkStatement p ep kind := s in
  match kind with
  | SLiteral _ | SPass => []
  | SFuncDef (MkFuncDef name args doc body eo ret_ private) =>
      [MkStatement p ep (SFuncDef (MkFuncDef name args doc (all body) eo ret_ private))]
  | SFor (MkForStatement names e body) => [MkStatement p ep (SFor (MkForStatement names e (all body)))]
  | SIf (MkIfStatement hp hep c body elifs ehp ehep else_) =>
      [MkStatement p ep (SIf (MkIfStatement hp hep c (all body)
        (map (fun '(MkIfStatementElif hp hep c body) => MkIfStatementElif hp hep c (all body)) elifs) ehp ehep (all else_)))]
  | SIdent i =>
      match list_method i with
      | Some (name, v) =>
          let v := if String.eqb name "append" then value_expression (VList (MkList [v] None)) else v in
          [MkStatement p 0 (SIdent (MkIdentStatement (is_Name i) (IAction (ActAugAssign v))))]
      | None => [s]
      end
  | _ => [s]
  end.

(** [' '.join([...])] *)
Definition optimise_join (e : Expression) : option Expression :=
  match e with
  | MkExpression _ _ (MkValueExpression (VString base) _
      (Some (VProperty (MkIdentExpr _ _ name
        [ACall (MkCall [MkCallArgument _ arg (MkExpression _ _ (MkValueExpression (VList l) _ _) [] None aopt)])])))) [] None opt =>
      if String.eqb name "join" && String.eqb arg "" && negb (value_gone aopt) && negb (value_gone opt)
      then Some (with_optimised e (OptJoin base l)) else None
  | _ => None
  end.

#[local] Instance id_ret : MRet (fun A => A) := fun A a => a.
#[local] Instance id_bind : MBind (fun A => A) := fun A B f m => f m.

Definition optimise (stmts : list Statement) : list Statement :=
  WalkAST (M := fun A => A) optimise_join (concat (map optimise_statement stmts)).

(** A default that is an empty dict is one that cannot be changed. *)
Definition optimise_default (empty : nat) (a : Argument) : Argument :=
  match a with
  | MkArgument name types aliases (Some (MkExpression _ _ (MkValueExpression (VDict (MkDict [] None)) _ _) _ _ _ as e)) private =>
      MkArgument name types aliases (Some (with_optimised e (OptConstant (pyFrozenDict empty)))) private
  | _ => a
  end.

(** The empty dicts are at [empty]. *)
Definition optimiseBuiltinCalls (empty : nat) (stmts : list Statement) : list Statement :=
  map (fun '(MkStatement p ep kind as s) =>
    match kind with
    | SFuncDef (MkFuncDef name args doc body eo ret_ private) =>
        MkStatement p ep (SFuncDef (MkFuncDef name (map (optimise_default empty) args) doc body eo ret_ private))
    | _ => s
    end) stmts.

(** ** Optimising expressions *)

Section expressions.
Context (Sprintf : string -> list pyObject -> heap -> string).
Context (grow : nat -> nat -> nat).
Context (unrepresentable : Z).
Context (natives : string -> nat -> list (option pyObject) -> I pyObject).
Context (stringMethods dictMethods configMethods : gmap string nat).
Context (bazel_compat : bool).

#[local] Abbreviation run := (run Sprintf grow unrepresentable natives stringMethods dictMethods configMethods bazel_compat).

(** [x] and [CONFIG.X] *)
Definition optimise_name (e : Expression) : option Expression :=
  match e with
  | MkExpression _ _ (MkValueExpression (VIdent (MkIdentExpr _ _ name actions)) [] suffix) [] None opt =>
      if value_gone opt then None
      else
        match suffix, actions with
        | None, [] => Some (with_optimised e (OptLocal name))
        | (None | Some (VProperty _)), [AProperty (MkIdentExpr _ _ property [])] =>
            if String.eqb name "CONFIG" then Some (with_optimised e (OptConfig property)) else None
        | _, _ => None
        end
  | _ => None
  end.

(** Constants are evaluated in the root scope, [root]. *)
Definition optimise_expression (fuel root : nat) (e : Expression) : I (option Expression) :=
  c ← const (run fuel) root e;
  match c with
  | Some c => iret (Some (with_optimised e (OptConstant c)))
  | None => iret (optimise_name e)
  end.

Definition optimiseExpressions (fuel root : nat) (stmts : list Statement) : I (list Statement) :=
  WalkAST (M := I) (optimise_expression fuel root) stmts.

(** ** A file's values *)

(** [scope.Freeze]: the frozen variables. *)
Definition scope_Freeze (fuel sc : nat) : I (gmap string pyObject) :=
  vars ← gets (fun s => locals_of s sc);
  iterI (fun '(k, v) => v ← on_heap (Freeze fuel v); Set_ sc k v) (map_to_list vars);;
  gets (fun s => locals_of s sc).

(** [scope.SetAll]: a [CONFIG] is merged into that of the scope. *)
Definition SetAll (sc : nat) (d : gmap string pyObject) (publicOnly : bool) : I unit :=
  iterI (fun '(k, v) =>
    if String.eqb k "CONFIG" then
      match v with
      | pyFrozenConfig other => c ← gets (fun s => config_in s sc); on_heap (Merge c other)
      | _ => Error "incoming CONFIG isn't a config object"
      end
    else if negb publicOnly then Set_ sc k v
    else
      match k with
      | "" => ifail EIndex
      | String c _ => if Ascii.eqb c "_"%char then iret tt else Set_ sc k v
      end) (map_to_list d).

(** [delete(s.locals, name)] *)
Definition Unset (sc : nat) (name : string) : I unit := fun s =>
  match scopes s !! sc with
  | Some x => Ok (tt, set_heap (set_dict (locals x) (delete name (dict_of (hp s) (locals x))) (hp s)) s)
  | None => Ok (tt, s)
  end.

(** What interpreting a subincluded file in a scope of its own gives: [Subinclude]
    without the cache and the preloaded files. *)
Definition Subinclude (fuel root : nat) (stmts : list Statement) : I (gmap string pyObject) :=
  sc ← NewScope root;
  c ← gets (fun s => config_in s root);
  c ← on_heap (config_Copy c);
  set_config_in sc c;;
  Set_ sc "CONFIG" (pyConfig c);;
  exec (run fuel) sc stmts;;
  locals ← scope_Freeze fuel sc;
  unchanged ← gets (fun s => bool_decide (overlay (config_of (hp s) c) = None));
  if (unchanged : bool) then Unset sc "CONFIG";; gets (fun s => locals_of s sc) else iret locals.

(** [interpretAll]: a package's statements, in a new scope. *)
Definition interpretAll (fuel root : nat) (stmts : list Statement) : I nat :=
  sc ← NewScope root;
  c ← gets (fun s => config_in s root);
  c ← on_heap (config_Copy c);
  set_config_in sc c;;
  Set_ sc "CONFIG" (pyConfig c);;
  exec (run fuel) sc stmts;;
  iret sc.
End expressions.

(** ** Theorems *)

(** Running a program as a subincluded file is run, and the variable [x] after it. *)
Definition run_optimised (fuel : nat) (program : string) : res string :=
  stmts ← parseFileInput no_runes program;
  '(stmts, s) ← optimiseExpressions (fun s _ _ => s) (fun _ n => n) 0 (fun _ _ _ => iret pyNone) ∅ ∅ ∅ false fuel 0
                  (optimise stmts) root;
  '(vars, s) ← Subinclude (fun s _ _ => s) (fun _ n => n) 0 (fun _ _ _ => iret pyNone) ∅ ∅ ∅ false fuel 0 stmts s;
  match vars !! "x" with Some o => to_str fuel (hp s) o | None => Err EIndex end.

(** a call of [join] on the text of a list is optimised to joining the whole list,
    whatever subscripts the text and the list have and whatever is called on the list:
    they are lost.  So [','.join(['a', 'b', 'c'][1:])] is ['a,b,c']. *)
Theorem join_loses_subscripts p ep base slices p1 ep1 p2 name p3 ep3 l slices' suffix' :
  let arg := MkExpression p3 ep3 (MkValueExpression (VList l) slices' suffix') [] None None in
  let e := MkExpression p ep (MkValueExpression (VString base) slices
    (Some (VProperty (MkIdentExpr p1 ep1 "join" [ACall (MkCall [MkCallArgument p2 "" arg])])))) [] None None in
  optimise [MkStatement p ep (SIdent (MkIdentStatement name (IAction (ActAssign e))))] =
    [MkStatement p ep (SIdent (MkIdentStatement name (IAction (ActAssign (with_optimised e (OptJoin base l))))))] /\
  forall Sprintf grow unrepresentable natives stringMethods dictMethods configMethods bazel_compat fuel sc s,
    eval (Interp.run Sprintf grow unrepresentable natives stringMethods dictMethods configMethods bazel_compat (S fuel)) sc
      (with_optimised e (OptJoin base l)) s =
    (base ← read_heap (fun _ => stringLiteral base);
     interpretJoin fuel (Interp.run Sprintf grow unrepresentable natives stringMethods dictMethods configMethods
       bazel_compat fuel) sc base l) s /\
  run_optimised 12 ("x = ','.join(['a', 'b', 'c'][1:])" +:+ newline) = Ok "a,b,c" /\
  run_optimised 12 ("x = ', '[:1].join(['a', 'b'])" +:+ newline) = Ok "a, b".
Proof. split_and!; [done|done|by vm_compute..]. Qed.

(** What is dropped because it has no effect may have one. *)
Lemma literal_statements_dropped :
  optimise (from_Ok [] (parseFileInput no_runes ("[fail('no')]" +:+ newline))) = [] /\
  length (from_Ok [] (parseFileInput no_runes ("[fail('no')]" +:+ newline))) = 1%nat.
Proof. split; by vm_compute. Qed.

(** A constant list in a subincluded file is one list, however often it is evaluated. *)
Lemma constant_lists_are_shared :
  run_optimised 14 ("def f():" +:+ newline +:+ "    l = [1]" +:+ newline +:+ "    l[0] += 1" +:+ newline +:+
                    "    return l" +:+ newline +:+ "f()" +:+ newline +:+ "x = f()" +:+ newline) = Ok "[3]" /\
  run_program 14 ("def f():" +:+ newline +:+ "    l = [1]" +:+ newline +:+ "    l[0] += 1" +:+ newline +:+
                  "    return l" +:+ newline +:+ "f()" +:+ newline +:+ "x = f()" +:+ newline) = Ok "[2]".
Proof. split; by vm_compute. Qed.

(** *** Freezing *)

(** Freezing a value leaves everything there was as it was. *)
Definition extends (h h' : heap) : Prop :=
  arrays h' = arrays h /\ (fresh h <= fresh h')%nat /\
  (forall d, (d < fresh h)%nat -> dict_of h' d = dict_of h d) /\
  (forall c, (c < fresh h)%nat -> configs h' !! c = configs h !! c).

Lemma extends_refl h : extends h h.
Proof. done. Qed.

Lemma extends_trans h1 h2 h3 : extends h1 h2 -> extends h2 h3 -> extends h1 h3.
Proof.
  intros (A1 & F1 & D1 & C1) (A2 & F2 & D2 & C2). split_and!; [congruence|lia|..].
  - intros d Hd. rewrite D2, D1 by lia. done.
  - intros c Hc. rewrite C2, C1 by lia. done.
Qed.

Lemma alloc_dict_extends m h d h' : alloc_dict m h = Ok (d, h') -> extends h h'.
Proof.
  intros [= <- <-]. split_and!; cbn; [done|lia| |done]. intros d Hd. unfold dict_of. cbn.
  by rewrite lookup_insert_ne by lia.
Qed.

Lemma alloc_config_extends x h c h' : alloc_config x h = Ok (c, h') -> extends h h'.
Proof. intros [= <- <-]. split_and!; cbn; [done|lia|done|]. intros c Hc. by rewrite lookup_insert_ne by lia. Qed.

Lemma Freeze_extends fuel o h o' h' : Freeze fuel o h = Ok (o', h') -> extends h h'.
Proof.
  revert o h o' h'. induction fuel as [|fuel IH]; intros o h o' h'; [done|]. cbn [Freeze].
  destruct o; intros HF; try (injection HF as <- <-; apply extends_refl);
    try (unfold config_Freeze in HF; apply bind_Ok in HF as ([f h1] & Ha & [= <- <-]); by eapply alloc_config_extends).
  all: apply bind_Ok in HF as ([u h1] & Hf & HF).
  all: assert (extends h h1) as He by
    (revert Hf; apply (foldM_Ok_inv _ (fun '(_, h1) => extends h h1)); [|apply extends_refl];
     intros [? h2] x [? h3] Hx He; repeat case_match; apply bind_Ok in Hx as ([? h4] & Hx & [= <- <-]);
     eapply extends_trans; [exact He|by eapply IH]).
  1-2: by injection HF as <- <-.
  all: apply bind_Ok in HF as ([f h2] & Ha & [= <- <-]); eapply extends_trans; [exact He|by eapply alloc_dict_extends].
Qed.

(** Freezing a list freezes only the list: its elements are the same values as
    before, and a list among them can still be assigned into. *)
Theorem Freeze_shallow fuel l h o h' inner k i v :
  Freeze fuel (pyList l) h = Ok (o, h') -> elements h l !! k = Some (pyList inner) -> (i < sl_len inner)%nat ->
  o = pyFrozenList l /\ elements h' l !! k = Some (pyList inner) /\
  (forall index value, IndexAssign o index value h' = Err (EPanic "list is immutable")) /\
  exists h'', IndexAssign (pyList inner) (pyInt (Z.of_nat i)) v h' = Ok (tt, h'') /\
    (valid h inner -> elements h'' inner = <[i := v]> (elements h inner)).
Proof.
  intros HF Hk Hi. pose proof (Freeze_extends _ _ _ _ _ HF) as (Ha & _).
  assert (forall a, array_of h' a = array_of h a) as Harr by (intros a; unfold array_of; by rewrite Ha).
  destruct fuel as [|fuel]; [done|]. cbn [Freeze] in HF. apply bind_Ok in HF as ([? h1] & _ & [= <- <-]).
  split_and!; [done| |done|].
  - unfold elements in *. by rewrite Harr.
  - eexists. split.
    + assert ((0 <=? Z.of_nat i) && (Z.of_nat i <? Z.of_nat (sl_len inner)) = true) as Hb by lia.
      cbn [IndexAssign]. by rewrite Hb.
    + intros [Hlen Hcap _]. unfold elements. rewrite array_set_eq, Harr, Nat2Z.id.
      rewrite drop_insert_ge by lia.
      rewrite take_insert_lt by lia. f_equal. lia.
Qed.

(** [[[1, 2], 3]]. *)
Definition nested_list : heap :=
  MkHeap {[ 1%nat := [pyInt 1; pyInt 2]; 2%nat := [pyList (MkGslice 1 0 2 2); pyInt 3] ]} ∅ ∅ 3.

Lemma Freeze_shallow_witness :
  let l := MkGslice 2 0 2 2 in let inner := MkGslice 1 0 2 2 in
  pyFrozenList l = pyFrozenList l /\ elements nested_list l !! 0%nat = Some (pyList inner) /\
  (forall index value, IndexAssign (pyFrozenList l) index value nested_list = Err (EPanic "list is immutable")) /\
  exists h'', IndexAssign (pyList inner) (pyInt (Z.of_nat 1)) (pyInt 9) nested_list = Ok (tt, h'') /\
    (valid nested_list inner -> elements h'' inner = <[1%nat := pyInt 9]> (elements nested_list inner)).
Proof. apply (Freeze_shallow 5 _ nested_list _ nested_list); [by vm_compute|done|cbn; lia]. Defined.
